(* ===== verification/_CoqProject ===== *)
-Q . S2P
Prelude.v
UtilTypes.v
ScpTypes.v
LocalNode.v
LocalNodeFacts.v
ClosestVBlocking.v
NodeInQuorum.v
SlotState.v
Ballot.v
Nomination.v
Slot.v
Scp.v
BallotFacts.v
SlotInv.v
BallotSteps.v
NominationSteps.v
SlotTheorems.v
BallotTermination.v
SlotTermination.v
EnvelopeTheorems.v
Scenarios.v
ScpTheorems.v
NominationTheorems.v
LedgerTypes.v
LedgerOrder.v
LedgerDelta.v
LedgerDeltaFacts.v
LedgerDeltaTheorems.v
Bucket.v
BucketFacts.v
FutureBucket.v
BucketList.v
BucketManager.v
BucketListFacts.v
BucketListTheorems.v
HistoryState.v
BucketManagerTheorems.v
RestartTheorems.v
BucketApply.v
BucketApplyTheorems.v
BucketCheckTheorems.v
LedgerScenarios.v
Balance.v
Offer.v
OfferExchange.v
CreateOffer.v
ExchangeFacts.v
ExchangeInv.v
ExchangeSteps.v
ExchangeTheorems.v
OfferTheorems.v
OfferScenarios.v
Work.v
WorkTheorems.v
WorkLiveness.v
Calendar.v
Statistics.v
StatisticsFacts.v
StatisticsTheorems.v
LimitsTheorems.v
AccountManager.v
Payment.v
PaymentTheorems.v
PaymentScenarios.v
LruCache.v
Floodgate.v
ItemFetcher.v
TxSet.v
HerderValues.v
TxQueue.v
Herder.v
HerderTermination.v
HerderInv.v
HerderTheorems.v
HerderScenarios.v
Signatures.v
TxFrame.v
TxTheorems.v
CloseLedger.v
TxScenarios.v
