(* ===== verification/Prelude.v ===== *)
(** * swarm-core: a verification development

    swarm-core is a replicated ledger node: it agrees with its peers on the next
    set of transactions through the Stellar Consensus Protocol (SCP), applies the
    set to a ledger and archives the result.  This library models and verifies
    the consensus library [src/src/scp]; what holds the ledger, the deltas of
    [src/src/ledger] and the buckets of [src/src/bucket]; of the transactions
    ([src/src/transactions]) the checks of signatures and the frame that applies them, and as
    operations the exchange, the payments and the statistics and limits they are held against; the state machine of works [src/src/work]; and the
    herder [src/src/herder], which drives SCP, with the flooding and fetching of
    [src/src/overlay] that it rests on; with the helpers of [src/src/util] they use.

    ** The program and its parts

    - A _quorum set_ ([LocalNode.cpp]) says which groups of nodes a node trusts.
      Everything is decided by asking it two questions of a set of nodes: is it
      v-blocking, does it contain a quorum.
    - A _slot_ ([Slot.cpp]) is one consensus instance.  It owns a
      [NominationProtocol], which gathers values to vote on and combines those
      that are confirmed nominated, and a [BallotProtocol], which prepares and
      commits ballots on the combined value until one is externalized.
    - [SCP] ([SCP.cpp]) holds the slots by index, and the local node.
    - The _driver_ ([SCPDriver.h], implemented by the herder) validates, combines
      and hashes values, finds quorum sets, signs, sends, and sets timers.

    - A _delta_ ([LedgerDeltaImpl.cpp]) collects the changes to the entries of the
      ledger in a scope: a ledger, a transaction, an operation.  Scopes nest;
      committing one merges its changes into the enclosing one.
    - A _bucket_ ([Bucket.cpp]) is a sorted file of live and dead entries; the _list
      of buckets_ ([BucketList.cpp]) has eleven levels of them and gets the changes
      of every ledger as a batch; levels spill into each other through merges that
      run on worker threads ([FutureBucket.cpp]).  The list is hashed into the
      ledger header, archived, restored after a restart, applied to the database of
      a node that catches up ([BucketApplicator.cpp], [ApplyBucketsWork]) and compared
      with it ([checkDBAgainstBuckets]).

    - The _exchange_ ([OfferExchange.cpp], [OfferManager.cpp], [CreateOfferOpFrame.cpp],
      [DeleteOfferOpFrame.cpp]) keeps a book of offers.  An offer locks what it may have
      to pay in a balance ([BalanceFrame.cpp]); a new one is matched with the best
      offers of the other side, and what is left of it joins the book.
    - The _statistics_ ([StatisticsV2Frame.cpp], [StatisticsV2Processor.cpp]) sum what an
      account has spent in a day, a week, a month and a year, by the calendar of
      [VirtualClock] ([Timer.cpp]); limits are the bounds of these sums.  A request that
      may still be rejected has its part of the sums pending, and gives it back.
    - A _payment_ ([PaymentOpV2Frame.cpp]) moves an amount between two balances and fees
      of both sides to the account for commissions, each through the account manager
      ([AccountManager.cpp]), which records it in the statistics.
    - A _transaction_ ([TransactionFrameImpl.cpp]) is a list of operations ([OperationFrame.cpp]) with
      signatures, which are weighed for the accounts it speaks for
      ([SignatureValidatorImpl.cpp]).  Closing a ledger ([LedgerManagerImpl.cpp]) records the
      times of its transactions and applies them one after the other, each in a delta and a
      transaction of the database of its own, and each operation again.
    - A _work_ ([Work.cpp], [WorkParent.cpp], [WorkManagerImpl.cpp]) is a step of catching up
      or publishing.  It has children that must succeed before it runs, runs in
      closures posted to the queue of the [io_service], and retries after a failure.

    - The _herder_ ([HerderImpl.cpp], [PendingEnvelopes.cpp]) stands between SCP and the
      rest of the node.  It keeps envelopes until everything they refer to is there and
      then hands them to SCP, validates, extracts and combines values for it, closes
      ledgers when a value is externalized, keeps the queue of transactions and proposes
      a set of them ([TxSetFrame.cpp]) for the next ledger.
    - The _floodgate_ ([Floodgate.cpp]) sends messages to the peers that do not have them,
      and an _item fetcher_ ([ItemFetcher.cpp]) asks one peer after the other for the quorum
      set or transaction set that envelopes wait for.  What is there is in caches of the
      least recently used ([lib/util/lrucache.hpp]).

    A protocol that has something to say builds a statement, has the slot process
    it as if it were received, and sends it when it is newer than the last one.
    So [processEnvelope] calls itself through [advanceSlot] and
    [emitCurrentStateStatement], and a nomination that gets candidates starts the
    ballot protocol of its slot.

    ** Which file models what

    - [Prelude.v] (this file): machine integers, lists, maps and byte strings, the
      state-and-exception monad [M] with its notations, its [wp] calculus and the
      tactics and hints of the proofs.
    - [UtilTypes.v]: [bigDivide], [safeSum], [safeDelta] of [util/types.cpp].
    - [ScpTypes.v]: the SCP messages, ballots, statements and envelopes.
    - [LocalNode.v]: [LocalNode.cpp].  Theorems in [LocalNodeFacts.v],
      [ClosestVBlocking.v] and [NodeInQuorum.v].
    - [SlotState.v]: the members of [BallotProtocol], [NominationProtocol] and
      [Slot] as records, the interface of the driver, [dbgAssert].
    - [Ballot.v], [Nomination.v], [Slot.v], [Scp.v]: the member functions of
      [BallotProtocol.cpp], [NominationProtocol.cpp], [Slot.cpp] and [SCP.cpp],
      under the names they have there.
    - [BallotFacts.v]: the pure functions of the two protocols.
    - [SlotInv.v]: the invariant of a slot and the relation between its states
      before and after a call; [BallotSteps.v] and [NominationSteps.v] prove both
      of every member function.
    - [SlotTheorems.v], [EnvelopeTheorems.v], [ScpTheorems.v],
      [NominationTheorems.v]: the theorems on runs and on single calls;
      [BallotTermination.v], [SlotTermination.v]: that calls end; [Scenarios.v]:
      concrete runs in which the code does not do what its assertions or comments
      say.

    - [LedgerTypes.v]: the types and keys of ledger entries and the comparison of
      [bucket/LedgerCmp.h]; [LedgerOrder.v]: that it orders identities.
    - [LedgerDelta.v]: [LedgerDeltaImpl.cpp] and the generators of identifiers of
      [LedgerHeaderFrameImpl.cpp].  [LedgerDeltaFacts.v]: the effect of a delta;
      [LedgerDeltaTheorems.v]: the theorems.
    - [Bucket.v], [FutureBucket.v], [BucketList.v]: [Bucket.cpp], [FutureBucket.cpp] and
      [BucketList.cpp], with [BucketManagerImpl::assumeState].  [BucketFacts.v],
      [BucketListFacts.v]: what their operations compute;
      [BucketListTheorems.v]: the invariant of the list and the theorems.
    - [BucketManager.v]: [BucketManagerImpl.cpp], the buckets in memory and on disk and
      the skip list; [HistoryState.v]: the stored state of the list
      ([HistoryArchive.cpp]) and how [LedgerManagerImpl.cpp] stores and loads it.
      [BucketManagerTheorems.v] and the end of [HistoryState.v]: their theorems;
      [RestartTheorems.v]: storing, forgetting and loading together.
    - [BucketApply.v]: [BucketApplicator.cpp], [ApplyBucketsWork] and
      [checkDBAgainstBuckets], over tables that are maps by their primary keys;
      [BucketApplyTheorems.v], [BucketCheckTheorems.v]: their theorems, and the
      composition of deltas and buckets when a ledger is closed.
    - [LedgerScenarios.v]: concrete runs of all of these.

    - [Balance.v]: [BalanceFrame.cpp] and the table of balances; [Offer.v]: [OfferFrame.cpp],
      [OfferHelper.cpp], asset pairs, assets and fees; [OfferExchange.v]: [OfferExchange.cpp]
      and [OfferManager.cpp]; [CreateOffer.v]: [CreateOfferOpFrame.cpp] and
      [DeleteOfferOpFrame.cpp].  [ExchangeFacts.v]: the arithmetic of a match;
      [ExchangeInv.v]: when a book is in order; [ExchangeSteps.v]: that matching keeps
      it; [ExchangeTheorems.v], [OfferTheorems.v]: the theorems; [OfferScenarios.v]: runs.
    - [Work.v]: [Work.cpp], [WorkParent.cpp] and [WorkManagerImpl.cpp] with the queue of
      closures.  [WorkTheorems.v]: the invariant of works and the bound of
      retries; [WorkLiveness.v]: that works that end all succeed, and runs.
    - [Calendar.v]: the dates of [Timer.cpp]; [Statistics.v]: the frames, tables and the
      processor of statistics and limits.  [StatisticsFacts.v], [StatisticsTheorems.v]: a row
      and its history; [LimitsTheorems.v]: adding, checking and taking back.
    - [AccountManager.v], [Payment.v]: [AccountManager.cpp] and [PaymentOpV2Frame.cpp];
      [PaymentTheorems.v]: what a payment moves; [PaymentScenarios.v]: runs.

    - [LruCache.v]: [lrucache.hpp]; [Floodgate.v]: [Floodgate.cpp]; [ItemFetcher.v]:
      [ItemFetcher.cpp] but for [recv]; each with its theorem.
    - [TxSet.v]: [TxSetFrame.cpp], the order of application and what trimming and filtering
      a set gives; [TxQueue.v]: the queue of transactions of [HerderImpl.cpp] and its
      refinement of a map of ages.
    - [HerderValues.v]: what [HerderImpl.cpp] answers SCP about values, and whether that is
      what [SCPDriver.h] asks for.
    - [Herder.v]: [PendingEnvelopes.cpp], [ItemFetcher::recv] and what [HerderImpl.cpp] does
      with envelopes, sets, externalized values, closed ledgers and the next ledger.
      [HerderTermination.v]: a calculus of computations that keep a predicate, and that the
      nested loops end; [HerderInv.v]: the invariant of envelopes and trackers, and that
      nothing is left behind; [HerderTheorems.v]: runs and the theorems;
      [HerderScenarios.v]: concrete runs.

    - [Signatures.v]: [SignatureValidatorImpl.cpp] and what its answers mean.
    - [TxFrame.v]: [TransactionFrameImpl.cpp], [OperationFrame.cpp], [StorageHelperImpl.cpp] and the
      loops of [LedgerManagerImpl.cpp] over the transactions of a ledger.  [TxTheorems.v]: the contract
      of an operation, what a fee does, and that transactions are atomic.
    - [CloseLedger.v]: [closeLedger] of [LedgerManagerImpl.cpp] with everything it calls up to the commit to the
      database, over the files of transactions, deltas, buckets and values; that it is all or nothing, and that
      nothing is applied twice.  [TxScenarios.v]: operations that keep the contract, and two ledgers.

    ** How the code is modelled

    State.  A member function is a computation [M SlotState A]: it takes the state
    of the slot and gives a new one with either a result ([Ret]) or an exception
    ([Exn]).  The members of the C++ objects are the fields of the records, under
    their names.  The envelopes that [mLastEnvelope] and [mLastEnvelopeEmit] point
    to are shared between the two members, and the code compares the pointers:
    the model numbers the envelopes a slot makes and compares the numbers.

    Exceptions.  An exception that C++ code can catch leaves the state as it was
    when it was thrown; [abort], a failed [dbgAssert] and a null dereference end
    the process ([fatal]).  Theorems on runs let a call throw and go on; after a
    fatal exception there is no state to speak of.  [dbgAssert] is compiled away
    in a release build: [NDEBUG] of the context says which build it is, and the
    theorems hold for both.

    The driver.  It is code outside this component: its answers are functions of
    [SCPDriver], different ones at every call of a run.  The theorems on runs assume
    nothing of them; that calls end rests on what [SCPDriver.h] says of
    [extractValidValue].
    What the driver is told (envelopes sent, timers, values externalized) is the
    list [events] of the slot.

    Integers.  Ballot counters are 32-bit: additions wrap through [u32], and where
    the code relies on them not wrapping there is a theorem or a scenario.
    Weights and thresholds are 64-bit and [bigDivide] goes through 128 bits.

    Recursion.  [slot_processEnvelope] takes the allowed nesting of self-processed
    statements ([fuel]); the source bounds it for ballots, [advanceSlot] throws at a
    nesting of 50 ([MAX_ADVANCE_SLOT_RECURSION]).  The loop of [advanceSlot] that
    follows v-blocking sets takes [bumpFuel].  Running out of either is the
    exception [OutOfFuel], which the code does not have.  The theorems on runs hold
    for every choice of the two fuels, with [OutOfFuel] a call that throws;
    [SlotTermination.v] shows that a nesting of 51 plus four times the number of
    values the slot has heard of, and three bumps per known node plus six, are
    enough: with these fuels [OutOfFuel] does not happen.  [quorumLoop] (the
    shrinking loop of [isQuorum]) and the search of [isNodeInQuorum] have fuels that
    are proved to be enough; all other functions are structural.

    Ledgers.  Deltas live at addresses of a store and refer to each other and to
    the header by address, as the C++ objects do by pointer.  A [std::map] over the
    comparison of identities is a [gmap] by identity.  A bucket is the list of its
    entries, an iterator over it the rest of the list; a future is the bucket it
    will hold, and whether the worker is done is a flag.  Assertions are there or
    not, as [NDEBUG] says; the theorems hold for both.  The values of the type
    enumeration, the hexadecimal encoding and the hash of a bucket are not in the
    tree: they are the fields of the classes [LedgerExterns] and [BucketExterns], with
    injectivity where the code relies on it.  The lookup of a bucket by its hash is
    a function, as far as a future needs it; [BucketManager.v] has the stateful one,
    and its answers are that function.

    Operations.  A frame is a copy of a row that is stored on demand: the functions
    on balances and offers take and give back the copy, and two frames of one row
    are two copies, whichever is stored last being the row ([Balance.v],
    [PaymentScenarios.v]).  Rows that the operations only read (accounts, assets, fees,
    limits, requests) and the close time are the records [OfferEnv], [StatsEnv] and [PayEnv].
    An [assert] with a side effect is there or not, as [NDEBUG] says.  An operation that
    refuses or throws is undone by its caller, the state the model gives for it is that
    of the tables before the rollback.  The loop of [convertWithOffers] takes a fuel;
    every round but the last removes an offer, so one more than the number of offers is
    enough, and [doApply_conserves] is about that fuel.  Amounts are 64-bit and wrap
    where the code adds without a check.

    Times.  [time_t] is converted to nanoseconds in 64 bits: [time_ok] is the range until
    the year 2262 in which this does not wrap.  [gmtime] and [timegm] are written out for
    the Gregorian calendar.  The query of limits ([DISTINCT ON] over an ordering) is a sort
    and a pass over its result; asset codes are ordered bytewise, and the numbers of
    the enumeration of kinds of operations, which are not in the tree, are a parameter.

    Works.  A work is a node of a store; the closures posted to the [io_service] are a list
    of which the first runs next, the retry timer and the end of an asynchronous work
    are steps.  The virtual functions of a class of works are a record.  A closure has
    a weak pointer to its work; somebody holds every work, so the pointers lock.

    The herder.  The record [Herder] has the members of [HerderImpl] and [PendingEnvelopes],
    the floodgate, the closures posted to the [io_service] and what the ledger manager has
    closed.  A call to SCP may call back: [HerderEnv] answers any list of callbacks, which may
    depend on the whole state and on the trace [hTrace] of all that has happened, and so
    do the ledger manager, the peers and the configuration; every call of a run has its own
    answers.  The theorems hold for all of them, so for SCP as well.  The trace is there for the
    theorems, the code has none.  [processUpTo] takes the number of nested pops that are left and
    [recvLoop] the number of rounds; [processSCPQueueUpToIndex] and [fetcher_recv] give them one
    more than there are envelopes, and [HerderTermination.v] shows that this is enough.  Runs
    are about caches that have room (10000 sets of each kind) before every call: an item that is
    evicted is not asked for again, see [HerderScenarios.v].  [std::sort] may order equivalent
    elements in any way: it is the class [StdSort], of which a merge sort is an instance.  The XDR
    forms of values and of steps are the class [ValueExterns], with an instance in
    [HerderScenarios.v].  Peers are numbers, and whether one is authenticated is an answer.

    Transactions.  The world [TW] has the deltas, the session of the database and the mutable
    part of the frame that is applied.  The session is the class [SqlSession] with the laws of nested
    transactions ([SqlLaws]), of which a stack is an instance.  Deltas and [soci::transaction] objects
    are at addresses; their destructors are run by [finally], on the way of an exception too.
    The virtual functions of an operation are programs on that world: [contract] says what they
    keep (they change delta and database alike and leave the enclosing scopes alone), the
    theorems are proved against it, and [insertOp_contract] is one instance.  [Inv] is what the
    ledgers have in common; the frame needs of it that the master account is there, that entries are in their
    rows and that valid balances, new identifiers and the other fields of the header may be written.
    What the application answers (configuration, version, close time, roles, fees) is the record
    [App]; the bytes of a balance are read and written by functions of it ([feeLaws] is their round trip).

    Closing.  The world [LM] adds to [TW] the hash of the current header, the last closed ledger and the list of buckets.
    The fields of a header that nothing looks at are in its bytes and are set by functions of the class
    [CloseExterns], with the hashes and the text of the stored state.  The start of a publication is an
    argument that may throw.  An exception runs the destructors of the delta and of the transaction: the database is
    rolled back, members that were assigned before stay assigned, and [refused] says which.

    ** What the theorems show

    - Quorums: the loops of [LocalNode] decide the declarative notions (a slice,
      a v-blocking set, a quorum, reachability through quorum sets, the distance
      to a v-blocking set), quorum sets that pass the sanity check are exactly the
      well-formed ones, normalization changes no slice, weights are exact.
    - A slot, in every run: the ballots of the state keep their order and values;
      phases do not go back; an accepted commit is kept; acceptance and
      confirmation always rest on a v-blocking set or a quorum of recorded
      statements; one value at most is externalized and nothing moves after it;
      statements of a node only get newer; nomination only grows.
    - Single calls: every call ends; an invalid or stale envelope changes
      nothing; the last statement of a node restores its ballot state.
    - The SCP object: slots do not interfere, each has the theorems above, and
      purging and recording do what [SCP.h] says.
    - Deltas: nested deltas refine a stack of ledgers, the batch, the metadata and
      the list of changes of a delta all are its effect, a rollback flushes exactly
      the keys that were touched, and misuse throws without an effect.
    - Buckets: merges are the reference merge, the list of buckets refines the
      ledger (spilling, pending merges, shadowing and the dropping of tombstones at
      the last level included), futures stay in their legal states, catching up
      restores the ledger in the rows of the tables (references of two senders apart), the check against the database decides agreement type by
      type, and closing ledgers keeps deltas and buckets in step.
    - Restarts: forgetting drops exactly the buckets nothing refers to, a node that
      loads the stored state misses no file and has a list that stands for the same
      ledger, the buckets two states differ in are exact, and so is the skip list.
    - Exchange: a match takes no more than either side has, at a price between theirs
      and within what is locked; creating an offer ends, keeps every offer of the book
      backed by a locked balance and creates or destroys no asset, but for fees in a
      build without assertions; deleting an offer gives back what it has locked.
    - Works: no work retries more often than it may; works of a class that ends, in any
      tree, all succeed after finitely many closures.
    - Statistics and limits: a row refines the history of what was spent, as exact
      sums, with the week a bound from above (the calendar misses weeks that end with a
      year); accepted amounts are within the most precise limits; what is taken back
      is gone from the rows, and the rest stays, whatever came between.
    - Payments: an accepted payment to another balance conserves every asset, takes the amount
      and no more than the agreed fees and touches no other balance.
    - The herder: SCP gets an envelope only when all it refers to is there, and once
      while its slot is remembered; an envelope that is not ready waits for everything it
      misses, where somebody asks for it; every call ends; the set that is proposed is
      valid and prefers the accounts that pay most, where a free transaction may be forgotten; a combination of valid values is valid,
      and what is extracted of a value is valid exactly when its steps are in order; the
      queue of transactions refines a map of ages, and a set is applied in rounds of one
      transaction of every account.
    - The overlay: no peer is sent what it has and every one gets what it does not have;
      every peer that stays is asked for an item; a cache has the items used last.
    - Transactions: the check of signatures succeeds only with enough weight of different
      identities, and each of its answers means what it says; closing a ledger, and every
      transaction in it, is all or nothing, a success has paid exactly its fees, database, delta and buckets stay in
      step, whatever throws before the commit leaves the database as it was, and a
      transaction is applied once at most.
    - Scenarios: runs in which the code does not do what its assertions, comments or
      names say ([Scenarios.v], [LedgerScenarios.v], [OfferScenarios.v], [WorkLiveness.v],
      [PaymentScenarios.v], [HerderScenarios.v], [TxScenarios.v]).

    ** What is not modelled

    The JSON and log output of the classes ([dumpInfo], [dumpQuorumInfo], [toJson],
    [getLocalState]) has no effect on their state.  SHA-256, signatures and the XDR
    encoding are answers of the driver or arguments of the model.  The
    XDR definitions are a submodule that is not in the tree: [ScpTypes.v] and
    [LedgerTypes.v] have the fields the sources read and write; of an entry only the
    identifying fields are told apart.  SQL is outside: tables are maps by their primary keys, for the deltas and the frame of a transaction by
    identity, and their columns hold every amount.  A file of a bucket is its contents; directories, locks and renames are
    outside, and so are the reference counts of buckets, which are an argument.

    Of the operations only the exchange and [PaymentOpV2Frame] are modelled; to the frame of a
    transaction an operation is any program that keeps the contract.  To the herder a transaction is valid or not, as a function says.  Sales, issuance,
    withdrawals and reviewable requests are left.  Of the herder, signing and verifying
    envelopes are cryptography; [saveSCPHistory] and [copySCPHistoryToStream] are SQL, but for
    the quorum sets that are read; [restoreSCPState] reads the saved state from the
    database, only its first lines, which set what is tracked, are an argument of [newHerder];
    [sendSCPStateToPeer] and [resolveNodeID] only read.  Of the overlay, the sockets, the life
    and the authentication of peers and the load manager are I/O; of history,
    archives, downloads and subprocesses; of [closeLedger], what follows its commit.  [src/src/main],
    [src/src/database], [src/src/process] and [src/src/simulation] are bindings, the command line
    and tests. *)

From Stdlib Require Import ZArith Lia String.
From stdpp Require Import sorting.
From stdpp Require Import base tactics gmap option list.
From stdpp Require Import numbers.

Open Scope Z_scope.

(** ** Machine integers

    A w-bit machine integer is a [Z]; the arithmetic the C++ does on it is
    followed by the wrap-around of its type. *)

Definition UINT32_MAX : Z := 4294967295.
Definition UINT64_MAX : Z := 18446744073709551615.
Definition INT64_MAX : Z := 9223372036854775807.

Definition u32 (x : Z) : Z := x mod 4294967296.
Definition u64 (x : Z) : Z := x mod 18446744073709551616.
Definition s32 (x : Z) : Z := (x + 2147483648) mod 4294967296 - 2147483648.
Definition s64 (x : Z) : Z := (x + 9223372036854775808) mod 18446744073709551616 - 9223372036854775808.

Lemma u32_id x : 0 <= x <= UINT32_MAX -> u32 x = x.
Proof. intros; unfold u32, UINT32_MAX in *; apply Z.mod_small; lia. Qed.

Lemma u64_id x : 0 <= x <= UINT64_MAX -> u64 x = x.
Proof. intros; unfold u64, UINT64_MAX in *; apply Z.mod_small; lia. Qed.

Lemma s32_id x : -2147483648 <= x <= 2147483647 -> s32 x = x.
Proof. intros; unfold s32. rewrite Z.mod_small; lia. Qed.

Lemma s64_id x : -9223372036854775808 <= x <= INT64_MAX -> s64 x = x.
Proof. intros; unfold s64, INT64_MAX in *. rewrite Z.mod_small; lia. Qed.

Lemma u32_range x : 0 <= u32 x <= UINT32_MAX.
Proof. unfold u32, UINT32_MAX. pose proof (Z.mod_pos_bound x 4294967296). lia. Qed.

Lemma u64_range x : 0 <= u64 x <= UINT64_MAX.
Proof.
  unfold u64, UINT64_MAX. pose proof (Z.mod_pos_bound x 18446744073709551616). lia.
Qed.

Create HintDb scp.
#[export] Hint Resolve u32_range u64_range : scp.

(** ** Sums over maps *)

Section msum.
Context {K V : Type} `{Countable K}.
Implicit Types (f g : V -> Z) (m : gmap K V).

Definition msum (f : V -> Z) (m : gmap K V) : Z := map_fold (fun _ v acc => f v + acc) 0 m.

Lemma msum_empty f : msum f ∅ = 0.
Proof. apply map_fold_empty. Qed.

Lemma msum_fresh f m k v : m !! k = None -> msum f (<[k := v]> m) = f v + msum f m.
Proof. intros Hk. unfold msum. rewrite map_fold_insert_L; [done|intros; lia|done]. Qed.

Lemma msum_lookup f m k v : m !! k = Some v -> msum f m = f v + msum f (delete k m).
Proof.
  intros Hk. rewrite <- (insert_delete_id m k v Hk) at 1. apply msum_fresh, lookup_delete_eq.
Qed.

Lemma msum_update f m k v v' : m !! k = Some v -> msum f (<[k := v']> m) = msum f m - f v + f v'.
Proof.
  intros Hk. rewrite (msum_lookup f (<[k := v']> m) k v') by apply lookup_insert_eq.
  rewrite delete_insert_eq, (msum_lookup f m k v) by done. lia.
Qed.

Lemma msum_delete f m k v : m !! k = Some v -> msum f (delete k m) = msum f m - f v.
Proof. intros Hk. rewrite (msum_lookup f m k v) by done. lia. Qed.

Lemma msum_ext f g m : (forall k v, m !! k = Some v -> f v = g v) -> msum f m = msum g m.
Proof.
  induction m as [|k v m Hk IH] using map_ind; intros E; [by rewrite !msum_empty|].
  rewrite !msum_fresh by done. rewrite (E k v) by apply lookup_insert_eq.
  rewrite IH; [done|]. intros k' v' Hk'. apply (E k'). rewrite lookup_insert_ne; [done|]. congruence.
Qed.

Lemma msum_nonneg f m : (forall k v, m !! k = Some v -> 0 <= f v) -> 0 <= msum f m.
Proof.
  induction m as [|k v m Hk IH] using map_ind; intros Hf; [by rewrite msum_empty|].
  rewrite msum_fresh by done. pose proof (Hf k v ltac:(apply lookup_insert_eq)).
  assert (0 <= msum f m); [|lia]. apply IH. intros k' v' Hk'. apply (Hf k').
  rewrite lookup_insert_ne; [done|]. congruence.
Qed.

Lemma msum_le f g m : (forall k v, m !! k = Some v -> f v <= g v) -> msum f m <= msum g m.
Proof.
  induction m as [|k v m Hk IH] using map_ind; intros Hf; [by rewrite !msum_empty|].
  rewrite !msum_fresh by done. pose proof (Hf k v ltac:(apply lookup_insert_eq)).
  assert (msum f m <= msum g m); [|lia]. apply IH. intros k' v' Hk'. apply (Hf k').
  rewrite lookup_insert_ne; [done|]. congruence.
Qed.

Lemma msum_ge f m k v : (forall k v, m !! k = Some v -> 0 <= f v) -> m !! k = Some v -> f v <= msum f m.
Proof.
  intros Hf Hk. rewrite (msum_lookup f m k v) by done.
  assert (0 <= msum f (delete k m)); [|lia]. apply msum_nonneg. intros k' v' Hk'.
  apply lookup_delete_Some in Hk' as [_ Hk']. by apply (Hf k').
Qed.

End msum.

(** ** Boolean reflection *)

Ltac propify :=
  repeat match goal with
  | H : _ && _ = true |- _ => apply andb_true_iff in H; destruct H
  | H : _ || _ = false |- _ => apply orb_false_iff in H; destruct H
  | H : negb _ = true |- _ => apply negb_true_iff in H
  | H : negb _ = false |- _ => apply negb_false_iff in H
  | H : (_ <? _) = true |- _ => apply Z.ltb_lt in H
  | H : (_ <? _) = false |- _ => apply Z.ltb_ge in H
  | H : (_ <=? _) = true |- _ => apply Z.leb_le in H
  | H : (_ <=? _) = false |- _ => apply Z.leb_gt in H
  | H : (_ =? _) = true |- _ => apply Z.eqb_eq in H
  | H : (_ =? _) = false |- _ => apply Z.eqb_neq in H
  | H : bool_decide _ = true |- _ => apply bool_decide_eq_true in H
  | H : bool_decide _ = false |- _ => apply bool_decide_eq_false in H
  end.

(** ** Orders

    [StdOrder A] is the order [operator<] gives a type: what [std::set] and
    [std::map] iterate by.  A [std::set<A>] is a [gset A] and a
    [std::map<K, V>] a [gmap K V]; iterating one is iterating the sorted list of
    its elements. *)

Class StdOrder (A : Type) := {
  std_le : relation A;
  std_le_dec :: RelDecision std_le;
  std_le_trans :: Transitive std_le;
  std_le_total :: Total std_le;
  std_le_antisym :: AntiSymm (=) std_le }.

Definition set_asc {A} `{StdOrder A, Countable A} (s : gset A) : list A :=
  merge_sort std_le (elements s).

Definition set_desc {A} `{StdOrder A, Countable A} (s : gset A) : list A :=
  reverse (set_asc s).

Definition key_le {K V} `{StdOrder K} : relation (K * V) :=
  fun p q => std_le p.1 q.1.

#[export] Instance key_le_dec {K V} `{StdOrder K} : RelDecision (@key_le K V _).
Proof. intros p q. unfold key_le. apply _. Defined.

Definition map_asc {K V} `{StdOrder K, Countable K} (m : gmap K V) : list (K * V) :=
  merge_sort key_le (map_to_list m).

Section order_lemmas.
Context {A V : Type} `{StdOrder A, Countable A}.

Lemma elem_of_set_asc (s : gset A) x : x ∈ set_asc s <-> x ∈ s.
Proof. unfold set_asc. by rewrite merge_sort_Permutation, elem_of_elements. Qed.

Lemma elem_of_set_desc (s : gset A) x : x ∈ set_desc s <-> x ∈ s.
Proof. unfold set_desc. by rewrite elem_of_reverse, elem_of_set_asc. Qed.

Lemma NoDup_set_asc (s : gset A) : NoDup (set_asc s).
Proof. unfold set_asc. rewrite merge_sort_Permutation. apply NoDup_elements. Qed.

Lemma set_asc_sorted (s : gset A) : StronglySorted std_le (set_asc s).
Proof. apply StronglySorted_merge_sort; apply _. Qed.

Lemma elem_of_map_asc (m : gmap A V) k v : (k, v) ∈ map_asc m <-> m !! k = Some v.
Proof. unfold map_asc. by rewrite merge_sort_Permutation, elem_of_map_to_list. Qed.

Lemma NoDup_map_asc (m : gmap A V) : NoDup (map_asc m).*1.
Proof. unfold map_asc. rewrite merge_sort_Permutation. apply NoDup_fst_map_to_list. Qed.

End order_lemmas.

#[export] Instance Z_std_order : StdOrder Z.
Proof. refine {| std_le := Z.le |}; try apply _. Defined.

#[export] Instance N_std_order : StdOrder N.
Proof. refine {| std_le := N.le |}; try apply _. Defined.

(** A byte string ([opaque<>], [std::vector<uint8_t>]) is ordered
    lexicographically. *)

Fixpoint bytes_leb (a b : list N) : bool :=
  match a, b with
  | [], _ => true
  | _ :: _, [] => false
  | x :: a', y :: b' => if (x =? y)%N then bytes_leb a' b' else (x <? y)%N
  end.

Lemma bytes_leb_trans a b c :
  bytes_leb a b = true -> bytes_leb b c = true -> bytes_leb a c = true.
Proof.
  revert b c; induction a as [|x a IH]; intros [|y b] [|z c]; simpl; try done.
  destruct (N.eqb_spec x y), (N.eqb_spec y z), (N.eqb_spec x z); subst; try done; eauto;
    rewrite ?N.ltb_lt; lia.
Qed.

Lemma bytes_leb_total a b : bytes_leb a b = true \/ bytes_leb b a = true.
Proof.
  revert b; induction a as [|x a IH]; intros [|y b]; simpl; try (by eauto).
  destruct (N.eqb_spec x y), (N.eqb_spec y x); subst; try done; eauto.
  rewrite !N.ltb_lt; lia.
Qed.

Lemma bytes_leb_antisym a b : bytes_leb a b = true -> bytes_leb b a = true -> a = b.
Proof.
  revert b; induction a as [|x a IH]; intros [|y b]; simpl; try done.
  destruct (N.eqb_spec x y), (N.eqb_spec y x); subst; try done.
  - intros; f_equal; auto.
  - rewrite !N.ltb_lt; lia.
Qed.

#[export] Instance bytes_std_order : StdOrder (list N).
Proof.
  refine {| std_le := fun a b => bytes_leb a b = true |}.
  - intros a b. apply _.
  - intros a b c. apply bytes_leb_trans.
  - intros a b. apply bytes_leb_total.
  - intros a b. apply bytes_leb_antisym.
Defined.

(** Sequences over an ordered type, lexicographically. *)

Section lex.
Context {A : Type} `{StdOrder A}.

Fixpoint list_leb (a b : list A) : bool :=
  match a, b with
  | [], _ => true
  | _ :: _, [] => false
  | x :: a', y :: b' =>
      bool_decide (std_le x y) && (negb (bool_decide (std_le y x)) || list_leb a' b')
  end.

Lemma list_leb_cons x y a b : list_leb (x :: a) (y :: b) = true <->
  std_le x y /\ (std_le y x -> list_leb a b = true).
Proof.
  simpl. rewrite andb_true_iff, orb_true_iff, negb_true_iff, bool_decide_eq_true,
    bool_decide_eq_false. destruct (decide (std_le y x)); tauto.
Qed.

Lemma list_leb_trans a b c : list_leb a b = true -> list_leb b c = true -> list_leb a c = true.
Proof.
  revert b c; induction a as [|x a IH]; intros [|y b] [|z c]; try done.
  rewrite !list_leb_cons. intros [Hxy Hab] [Hyz Hbc]. split; [by trans y|].
  intros Hzx. eapply IH; [apply Hab|apply Hbc]; [by trans z|by trans x].
Qed.

Lemma list_leb_total a b : list_leb a b = true \/ list_leb b a = true.
Proof.
  revert b; induction a as [|x a IH]; intros [|y b]; try (by simpl; auto).
  rewrite !list_leb_cons. destruct (IH b), (total std_le x y);
    destruct (decide (std_le x y)), (decide (std_le y x)); tauto.
Qed.

Lemma list_leb_antisym a b : list_leb a b = true -> list_leb b a = true -> a = b.
Proof.
  revert b; induction a as [|x a IH]; intros [|y b]; try done.
  rewrite !list_leb_cons. intros [Hxy Hab] [Hyx Hba].
  f_equal; [by apply (anti_symm std_le)|auto].
Qed.

End lex.

(** [operator<] of byte strings. *)
Definition bytes_ltb (a b : list N) : bool := negb (bytes_leb b a).

(** ** Effects

    A member function runs on the state [W] of its object and the objects it
    reaches.  It returns a value, or it throws, aborts or dereferences a null
    pointer; the state at that moment stays, as no C++ code of this program
    rolls it back. *)

Inductive exn :=
| RuntimeError (what : string)
| DbgAbort
| NullDeref
| OutOfFuel.

#[export] Instance exn_eq_dec : EqDecision exn.
Proof. solve_decision. Defined.

Inductive outcome (W A : Type) : Type :=
| Ret (a : A) (w : W)
| Exn (e : exn) (w : W).
Arguments Ret {W A} a w.
Arguments Exn {W A} e w.

Definition M (W A : Type) : Type := W -> outcome W A.

#[export] Instance M_ret W : MRet (M W) := fun A a w => Ret a w.
#[export] Instance M_bind W : MBind (M W) := fun A B k m w =>
  match m w with
  | Ret a w' => k a w'
  | Exn e w' => Exn e w'
  end.

Definition throw {W A} (e : exn) : M W A := fun w => Exn e w.
Definition get {W} : M W W := fun w => Ret w w.
Definition modify {W} (f : W -> W) : M W () := fun w => Ret () (f w).

(** Dereferencing a pointer that may be null. *)
Definition deref {W A} (p : option A) : M W A :=
  match p with Some a => mret a | None => throw NullDeref end.

(** Code that only throws or computes. *)
Definition lift {W A} (r : exn + A) : M W A :=
  match r with inl e => throw e | inr a => mret a end.

Definition gets {W A} (f : W -> A) : M W A := fun w => Ret (f w) w.

(** *** Weakest preconditions

    [wp E m Q w]: run from [w], [m] returns in a state of [Q], or throws in a
    state of [E]. *)

Definition wp {W A} (E : exn -> W -> Prop) (m : M W A) (Q : A -> W -> Prop) (w : W) : Prop :=
  match m w with Ret a w' => Q a w' | Exn e w' => E e w' end.

(** An abort, a null dereference: the process is gone. *)
Definition fatal (e : exn) : bool :=
  match e with DbgAbort | NullDeref => true | RuntimeError _ | OutOfFuel => false end.

(** The state after a call, unless the process is gone. *)
Definition survivor {W A} (o : outcome W A) : option W :=
  match o with
  | Ret _ w => Some w
  | Exn e w => if fatal e then None else Some w
  end.

(** [m] only reads the state, and throws only to die. *)
Definition readonly {W A} (m : M W A) : Prop :=
  forall w, match m w with Ret _ w' => w' = w | Exn e w' => w' = w /\ fatal e = true end.

Section wp_rules.
Context {W : Type} (E : exn -> W -> Prop).

Lemma wp_ret {A} (a : A) Q w : Q a w -> wp E (mret a) Q w.
Proof. done. Qed.

Lemma wp_bind {A B} (m : M W A) (k : A -> M W B) Q w :
  wp E m (fun a w' => wp E (k a) Q w') w -> wp E (m ≫= k) Q w.
Proof. unfold wp, mbind, M_bind. by destruct (m w). Qed.

Lemma wp_mono {A} (m : M W A) (Q Q' : A -> W -> Prop) w :
  wp E m Q w -> (forall a w', Q a w' -> Q' a w') -> wp E m Q' w.
Proof. unfold wp. destruct (m w); auto. Qed.

Lemma wp_modify f Q w : Q () (f w) -> wp E (modify f) Q w.
Proof. done. Qed.

Lemma wp_throw {A} e (Q : A -> W -> Prop) w : E e w -> wp E (throw e) Q w.
Proof. done. Qed.

Lemma wp_get Q w : Q w w -> wp E get Q w.
Proof. done. Qed.

Lemma wp_gets {A} (f : W -> A) Q w : Q (f w) w -> wp E (gets f) Q w.
Proof. done. Qed.

Lemma wp_lift {A} (r : exn + A) a Q w : r = inr a -> Q a w -> wp E (lift r) Q w.
Proof. by intros ->. Qed.

(** What a computation that only reads returns is what it would return again. *)
Lemma wp_readonly {A} (m : M W A) (Q : A -> W -> Prop) w : readonly m ->
  (forall e, fatal e = true -> E e w) -> (forall a, m w = Ret a w -> Q a w) -> wp E m Q w.
Proof.
  intros Hm HE HQ. specialize (Hm w). unfold wp. destruct (m w) as [a w'|e w'].
  - subst. by apply HQ.
  - destruct Hm as [-> He]. by apply HE.
Qed.

End wp_rules.

Lemma wp_conseq {W A} (E E' : exn -> W -> Prop) (m : M W A) (Q Q' : A -> W -> Prop) w :
  wp E m Q w -> (forall e w', E e w' -> E' e w') -> (forall a w', Q a w' -> Q' a w') ->
  wp E' m Q' w.
Proof. unfold wp. destruct (m w); auto. Qed.

Section readonly_rules.
Context {W : Type}.

Lemma readonly_ret {A} (a : A) : readonly (W := W) (mret a).
Proof. by intros w. Qed.

Lemma readonly_get : readonly (W := W) get.
Proof. by intros w. Qed.

Lemma readonly_throw {A} e : fatal e = true -> readonly (W := W) (A := A) (throw e).
Proof. by intros H w. Qed.

Lemma readonly_deref {A} (p : option A) : readonly (W := W) (deref p).
Proof. by destruct p; intros w. Qed.

Lemma readonly_bind {A B} (m : M W A) (k : A -> M W B) :
  readonly m -> (forall a, readonly (k a)) -> readonly (m ≫= k).
Proof.
  intros Hm Hk w. specialize (Hm w). unfold mbind, M_bind. destruct (m w) as [a w'|e w'].
  - subst. apply Hk.
  - done.
Qed.

Lemma run_bind {A B} (m : M W A) (k : A -> M W B) w a w1 :
  m w = Ret a w1 -> (m ≫= k) w = k a w1.
Proof. intros H. unfold mbind, M_bind. by rewrite H. Qed.

(** Inverting a sequence that returned. *)
Lemma bind_inv {A B} (m : M W A) (k : A -> M W B) w b w' :
  (m ≫= k) w = Ret b w' -> exists a w1, m w = Ret a w1 /\ k a w1 = Ret b w'.
Proof. unfold mbind, M_bind. destruct (m w); naive_solver. Qed.

Lemma readonly_bind_inv {A B} (m : M W A) (k : A -> M W B) w b w' : readonly m ->
  (m ≫= k) w = Ret b w' -> exists a, m w = Ret a w /\ k a w = Ret b w'.
Proof.
  intros Hm (a & w1 & H1 & H2)%bind_inv. specialize (Hm w). rewrite H1 in Hm. subst. eauto.
Qed.

Lemma deref_inv {A} (p : option A) (a : A) (w w' : W) :
  deref p w = Ret a w' -> p = Some a /\ w' = w.
Proof. by destruct p; inversion 1. Qed.

End readonly_rules.

#[export] Hint Resolve readonly_ret readonly_get readonly_throw readonly_deref readonly_bind : scp.
