(* ===== verification/UtilTypes.v ===== *)
(** * util/types: checked 64-bit arithmetic

    [bigDivide], [safeSum] and [safeDelta] of [src/src/util/types.cpp].  The
    128-bit intermediate values are [uint128_t] of [lib/util]: arithmetic
    modulo 2^128, whose division throws on a zero divisor. *)

From Stdlib Require Import ZArith Lia String.
From stdpp Require Import base tactics numbers list.
From S2P Require Import Prelude.

Open Scope Z_scope.

Inductive Rounding := ROUND_DOWN | ROUND_UP.

Definition u128 (x : Z) : Z := x mod 340282366920938463463374607431768211456.

Definition div_by_zero : exn := RuntimeError "Error: division or modulus by 0".

Definition u128_div (a c : Z) : exn + Z :=
  if c =? 0 then inl div_by_zero else inr (a / c).

(** The [uint64_t] flavour: whether the result is valid, and the result. *)
Definition bigDivide_u64 (A B C : Z) (rounding : Rounding) : exn + (bool * Z) :=
  let x := match rounding with
           | ROUND_DOWN => u128_div (u128 (A * B)) C
           | ROUND_UP => u128_div (u128 (u128 (u128 (A * B) + C) - 1)) C
           end in
  match x with
  | inl e => inl e
  | inr x => inr (x <=? UINT64_MAX, u64 x)
  end.

(** The [int64_t] flavour that does not throw; [result] is only written when
    the unsigned division is valid. *)
Definition bigDivide_s64 (result A B C : Z) (rounding : Rounding) : exn + (bool * Z) :=
  if (0 <=? A) && (0 <=? B) && (0 <? C) then
    match bigDivide_u64 (u64 A) (u64 B) (u64 C) rounding with
    | inl e => inl e
    | inr (res, r2) => if res then inr (r2 <=? INT64_MAX, r2) else inr (false, result)
    end
  else inl DbgAbort.

(** The flavour that throws [overflow_error]. *)
Definition overflow_error : exn := RuntimeError "overflow while performing bigDivide".

Definition bigDivide (A B C : Z) (rounding : Rounding) : exn + Z :=
  match bigDivide_s64 0 A B C rounding with
  | inl e => inl e
  | inr (res, r) => if res then inr r else inl overflow_error
  end.

(** [safeSum(a, b, result)]: validity and the wrapped sum. *)
Definition safeSum (a b : Z) : bool * Z :=
  let result := u64 (a + b) in ((a <=? result) && (b <=? result), result).

(** [safeSum(result, params)]: the running sum stops at the first overflow. *)
Fixpoint safeSum_loop (result : Z) (params : list Z) : bool * Z :=
  match params with
  | [] => (true, result)
  | a :: params' =>
      let b := result in
      let (ok, result) := safeSum a b in
      if ok then safeSum_loop result params' else (false, result)
  end.

Definition safeSum_all (params : list Z) : bool * Z := safeSum_loop 0 params.

Definition safeDelta (a b : Z) : Z := if b <? a then u64 (a - b) else u64 (b - a).

(** The exact quotient the rounding asks for. *)
Definition quotient (A B C : Z) (rounding : Rounding) : Z :=
  match rounding with
  | ROUND_DOWN => A * B / C
  | ROUND_UP => - (- (A * B) / C)
  end.

Definition is_u64 (x : Z) : Prop := 0 <= x <= UINT64_MAX.

Lemma u128_small x : 0 <= x < 340282366920938463463374607431768211456 -> u128 x = x.
Proof. intros; unfold u128. apply Z.mod_small; lia. Qed.

Lemma mul_u64_bound A B : is_u64 A -> is_u64 B ->
  0 <= A * B <= UINT64_MAX * UINT64_MAX.
Proof. unfold is_u64, UINT64_MAX. nia. Qed.

Lemma ceil_div a c : 0 < c -> - (- a / c) = (a + c - 1) / c.
Proof.
  intros Hc.
  pose proof (Z.div_mod (- a) c ltac:(lia)) as Hdm.
  pose proof (Z.mod_pos_bound (- a) c Hc).
  set (q := - a / c) in *. set (r := (- a) mod c) in *.
  apply Z.div_unique with (r := c - 1 - r); [left; lia | nia].
Qed.

(** The unsigned division never loses a carry in its 128-bit intermediate. *)
Lemma bigDivide_u64_quotient A B C rounding :
  is_u64 A -> is_u64 B -> 0 < C <= UINT64_MAX ->
  bigDivide_u64 A B C rounding =
    inr (quotient A B C rounding <=? UINT64_MAX, u64 (quotient A B C rounding)).
Proof.
  intros HA HB HC. pose proof (mul_u64_bound A B HA HB).
  unfold bigDivide_u64, u128_div.
  destruct (Z.eqb_spec C 0); [lia|].
  unfold UINT64_MAX in *. destruct rounding; cbn [quotient].
  - by rewrite u128_small by lia.
  - rewrite ceil_div by lia. by rewrite (u128_small (A * B)), (u128_small (A * B + C)), u128_small by lia.
Qed.

Lemma quotient_nonneg A B C rounding : 0 <= A -> 0 <= B -> 0 < C ->
  0 <= quotient A B C rounding.
Proof.
  intros. destruct rounding; cbn [quotient].
  - apply Z.div_pos; nia.
  - rewrite ceil_div by lia. apply Z.div_pos; nia.
Qed.

(** The throwing [bigDivide] returns exactly the quotient the rounding mode
    asks for when that quotient fits in an [int64_t], and throws
    [overflow_error] exactly when it does not. *)
Theorem bigDivide_exact A B C rounding :
  0 <= A <= INT64_MAX -> 0 <= B <= INT64_MAX -> 0 < C <= INT64_MAX ->
  bigDivide A B C rounding =
    if quotient A B C rounding <=? INT64_MAX
    then inr (quotient A B C rounding) else inl overflow_error.
Proof.
  intros HA HB HC. unfold bigDivide, bigDivide_s64.
  assert (H64 : forall x, 0 <= x <= INT64_MAX -> u64 x = x)
    by (intros; apply u64_id; unfold INT64_MAX, UINT64_MAX in *; lia).
  rewrite !H64 by lia.
  rewrite bigDivide_u64_quotient by (unfold is_u64, INT64_MAX, UINT64_MAX in *; lia).
  pose proof (quotient_nonneg A B C rounding ltac:(lia) ltac:(lia) ltac:(lia)).
  set (q := quotient A B C rounding) in *.
  destruct (Z.leb_spec 0 A), (Z.leb_spec 0 B), (Z.ltb_spec 0 C); simpl; try lia.
  destruct (Z.leb_spec q UINT64_MAX).
  - rewrite u64_id by lia. by destruct (q <=? INT64_MAX).
  - destruct (Z.leb_spec q INT64_MAX); [|done]. unfold INT64_MAX, UINT64_MAX in *; lia.
Qed.

Lemma bigDivide_exact_witness :
  bigDivide 9000000000000000000 3 2 ROUND_UP = inl overflow_error /\
  bigDivide 9000000000000000001 1 2 ROUND_UP = inr 4500000000000000001.
Proof.
  split.
  - rewrite (bigDivide_exact 9000000000000000000 3 2 ROUND_UP);
      [reflexivity | unfold INT64_MAX; lia ..].
  - rewrite (bigDivide_exact 9000000000000000001 1 2 ROUND_UP);
      [reflexivity | unfold INT64_MAX; lia ..].
Defined.

Lemma safeSum_spec a b : is_u64 a -> is_u64 b ->
  safeSum a b = (a + b <=? UINT64_MAX, u64 (a + b)).
Proof.
  unfold is_u64, safeSum. intros Ha Hb. f_equal.
  destruct (Z.leb_spec (a + b) UINT64_MAX).
  - rewrite u64_id by lia. apply andb_true_iff; split; apply Z.leb_le; lia.
  - assert (u64 (a + b) = a + b - 18446744073709551616) as ->.
    { unfold u64. symmetry. apply Z.mod_unique with 1; unfold UINT64_MAX in *; lia. }
    apply andb_false_iff. left. apply Z.leb_gt. unfold UINT64_MAX in *; lia.
Qed.

Lemma safeSum_loop_spec params result :
  is_u64 result -> Forall is_u64 params ->
  (safeSum_loop result params).1 = (result + foldr Z.add 0 params <=? UINT64_MAX) /\
  ((safeSum_loop result params).1 = true ->
   (safeSum_loop result params).2 = result + foldr Z.add 0 params).
Proof.
  intros Hr Hp. revert result Hr. induction Hp as [|a params Ha Hp IH]; intros r Hr;
    cbn [safeSum_loop foldr fst snd].
  { unfold is_u64 in Hr. split; [symmetry; apply Z.leb_le; lia | lia]. }
  rewrite safeSum_spec by done.
  assert (0 <= foldr Z.add 0 params).
  { clear -Hp. induction Hp; simpl; unfold is_u64 in *; lia. }
  destruct (Z.leb_spec (a + r) UINT64_MAX).
  - unfold is_u64 in *. rewrite u64_id by lia. specialize (IH (a + r) ltac:(lia)).
    by replace (r + (a + foldr Z.add 0 params)) with (a + r + foldr Z.add 0 params) by lia.
  - simpl. split; [symmetry; apply Z.leb_gt; lia | done].
Qed.

(** Summing a vector with overflow checks succeeds exactly when the exact
    sum fits in 64 bits, and then returns it. *)
Theorem safeSum_all_exact params : Forall is_u64 params ->
  (safeSum_all params).1 = (foldr Z.add 0 params <=? UINT64_MAX) /\
  ((safeSum_all params).1 = true -> (safeSum_all params).2 = foldr Z.add 0 params).
Proof.
  intros Hp. apply (safeSum_loop_spec params 0); [|done].
  unfold is_u64, UINT64_MAX; lia.
Qed.

Lemma safeSum_all_exact_witness :
  (safeSum_all [UINT64_MAX; 0; 1]).1 = false /\ (safeSum_all [3; 4; 5]).2 = 12.
Proof.
  split.
  - apply (safeSum_all_exact [UINT64_MAX; 0; 1]).
    repeat constructor; unfold is_u64, UINT64_MAX; lia.
  - apply (safeSum_all_exact [3; 4; 5]); [|reflexivity].
    repeat constructor; unfold is_u64, UINT64_MAX; lia.
Defined.
