(* ===== verification/ScpTypes.v ===== *)
(** * The messages of SCP

    The structures of the SCP wire protocol, with the fields [src/src/scp]
    reads and writes.  A [NodeID] and a [Hash] are 32-byte strings, kept as the
    number they spell (their byte-wise order is the order of these numbers); a
    [Value] is a variable-length byte string. *)

From Stdlib Require Import ZArith.
From stdpp Require Import base tactics gmap list.
From S2P Require Import Prelude.

Open Scope Z_scope.

Abbreviation NodeID := N (only parsing).
Abbreviation Hash := N (only parsing).
Abbreviation Value := (list N) (only parsing).

Record SCPBallot := mkBallot { counter : Z; value : Value }.

(** [SCPBallot()] *)
Definition emptyBallot : SCPBallot := mkBallot 0 [].

#[warnings="-register-all"]
Inductive SCPQuorumSet := mkQSet {
  threshold : Z;
  validators : list NodeID;
  innerSets : list SCPQuorumSet }.

Record SCPPrepare := mkPrepare {
  prep_quorumSetHash : Hash;
  prep_ballot : SCPBallot;
  prep_prepared : option SCPBallot;
  prep_preparedPrime : option SCPBallot;
  prep_nC : Z;
  prep_nH : Z }.

Record SCPConfirm := mkConfirm {
  con_ballot : SCPBallot;
  con_nPrepared : Z;
  con_nCommit : Z;
  con_nH : Z;
  con_quorumSetHash : Hash }.

Record SCPExternalize := mkExternalize {
  ext_commit : SCPBallot;
  ext_nH : Z;
  ext_commitQuorumSetHash : Hash }.

Record SCPNomination := mkNomination {
  nom_quorumSetHash : Hash;
  nom_votes : list Value;
  nom_accepted : list Value }.

Inductive SCPPledges :=
| PREPARE (p : SCPPrepare)
| CONFIRM (c : SCPConfirm)
| EXTERNALIZE (e : SCPExternalize)
| NOMINATE (n : SCPNomination).

Record SCPStatement := mkStatement {
  st_nodeID : NodeID;
  st_slotIndex : Z;
  pledges : SCPPledges }.

Record SCPEnvelope := mkEnvelope {
  statement : SCPStatement;
  signature : list N }.

#[export] Instance SCPBallot_eq_dec : EqDecision SCPBallot.
Proof. solve_decision. Defined.
#[export] Instance SCPPrepare_eq_dec : EqDecision SCPPrepare.
Proof. solve_decision. Defined.
#[export] Instance SCPConfirm_eq_dec : EqDecision SCPConfirm.
Proof. solve_decision. Defined.
#[export] Instance SCPExternalize_eq_dec : EqDecision SCPExternalize.
Proof. solve_decision. Defined.
#[export] Instance SCPNomination_eq_dec : EqDecision SCPNomination.
Proof. solve_decision. Defined.
#[export] Instance SCPPledges_eq_dec : EqDecision SCPPledges.
Proof. solve_decision. Defined.
#[export] Instance SCPStatement_eq_dec : EqDecision SCPStatement.
Proof. solve_decision. Defined.
#[export] Instance SCPEnvelope_eq_dec : EqDecision SCPEnvelope.
Proof. solve_decision. Defined.

#[export] Program Instance SCPBallot_countable : Countable SCPBallot :=
  inj_countable' (fun b => (counter b, value b)) (fun p => mkBallot p.1 p.2) _.
Next Obligation. by intros []. Qed.

(** [SCPStatementType], in the order the code compares it. *)
Definition statement_type (pl : SCPPledges) : Z :=
  match pl with PREPARE _ => 0 | CONFIRM _ => 1 | EXTERNALIZE _ => 2 | NOMINATE _ => 3 end.

(** Quorum sets nest, so their induction carries the inner sets. *)
Definition SCPQuorumSet_nested_ind (P : SCPQuorumSet -> Prop)
    (H : forall t vs ins, Forall P ins -> P (mkQSet t vs ins)) : forall q, P q :=
  fix go q := match q with
  | mkQSet t vs ins =>
      H t vs ins ((fix all (l : list SCPQuorumSet) : Forall P l :=
        match l with
        | [] => Forall_nil_2 P
        | x :: l' => Forall_cons_2 P x l' (go x) (all l')
        end) ins)
  end.

(** How much a driver vouches for a value ([SCPDriver::ValidationLevel]). *)
Inductive ValidationLevel := kInvalidValue | kFullyValidatedValue | kMaybeValidValue.

#[export] Instance ValidationLevel_eq_dec : EqDecision ValidationLevel.
Proof. solve_decision. Defined.

Inductive EnvelopeState := INVALID | VALID.

#[export] Instance EnvelopeState_eq_dec : EqDecision EnvelopeState.
Proof. solve_decision. Defined.

Inductive TriBool := TB_TRUE | TB_FALSE | TB_MAYBE.

#[export] Instance TriBool_eq_dec : EqDecision TriBool.
Proof. solve_decision. Defined.
