(* ===== verification/LocalNode.v ===== *)
(** * LocalNode: quorum sets, slices, v-blocking sets and quorums

    [src/src/scp/LocalNode.cpp].  Every function of the file that computes with
    quorum sets is here; the constructor's hashing, the accessors and the JSON
    printers are not. *)

From Stdlib Require Import ZArith Lia.
From stdpp Require Import sorting.
From stdpp Require Import base tactics gmap option list.
From S2P Require Import Prelude UtilTypes ScpTypes.

Open Scope Z_scope.

(** ** Construction and sanity *)

Definition buildSingletonQSet (nodeID : NodeID) : SCPQuorumSet := mkQSet 1 [nodeID] [].

Definition getSingletonQSet (nodeID : NodeID) : SCPQuorumSet := buildSingletonQSet nodeID.

(** [v.size() + i.size()] *)
Definition totEntries (q : SCPQuorumSet) : Z :=
  Z.of_nat (length (validators q) + length (innerSets q)).

(** The loop that inserts the validators in [knownNodes] and stops at the first
    one that was already there. *)
Fixpoint insertKnown (vs : list NodeID) (known : gset NodeID) : bool * gset NodeID :=
  match vs with
  | [] => (true, known)
  | n :: vs' =>
      if decide (n ∈ known) then (false, known) else insertKnown vs' ({[n]} ∪ known)
  end.

(** A loop over the inner sets that threads [knownNodes] and stops at the first
    inner set that fails. *)
Definition saneLoop {A} (sane : A -> gset NodeID -> bool * gset NodeID) :=
  fix loop (l : list A) (known : gset NodeID) : bool * gset NodeID :=
    match l with
    | [] => (true, known)
    | x :: l' =>
        let (ok, known) := sane x known in
        if ok then loop l' known else (false, known)
    end.

Fixpoint isQuorumSetSaneInternal (extraChecks : bool) (qSet : SCPQuorumSet)
    (known : gset NodeID) : bool * gset NodeID :=
  let tot := totEntries qSet in
  let vBlockingSize := u64 (tot - threshold qSet + 1) in
  match qSet with
  | mkQSet t v i =>
      if (1 <=? t) && (t <=? tot) && (negb extraChecks || (vBlockingSize <=? t)) then
        let (ok, known) := insertKnown v known in
        if ok then saneLoop (isQuorumSetSaneInternal extraChecks) i known
        else (false, known)
      else (false, known)
  end.

Definition isQuorumSetSane (qSet : SCPQuorumSet) (extraChecks : bool) : bool :=
  (isQuorumSetSaneInternal extraChecks qSet ∅).1.

(** [it] was normalized to a singleton set without inner sets. *)
Definition isSingleton (q : SCPQuorumSet) : bool :=
  (threshold q =? 1) && (length (validators q) =? 1)%nat && (length (innerSets q) =? 0)%nat.

(** The [while] loop of [normalizeQSet]: a singleton inner set moves to the end
    of the validators, the others stay. *)
Definition normalizeLoop (normalize : SCPQuorumSet -> SCPQuorumSet) :=
  fix loop (l : list SCPQuorumSet) (v : list NodeID) : list NodeID * list SCPQuorumSet :=
    match l with
    | [] => (v, [])
    | it :: l' =>
        let it := normalize it in
        if isSingleton it then loop l' (v ++ take 1 (validators it))
        else let (v', i') := loop l' v in (v', it :: i')
    end.

Fixpoint normalizeQSet (qSet : SCPQuorumSet) : SCPQuorumSet :=
  match qSet with
  | mkQSet t v i =>
      let (v, i) := normalizeLoop normalizeQSet i v in
      match i with
      | [inner] => if (t =? 1) && (length v =? 0)%nat then inner else mkQSet t v i
      | _ => mkQSet t v i
      end
  end.

(** ** Visiting the nodes *)

(** The nodes [forAllNodesInternal] calls [proc] on, in order. *)
Fixpoint forAllNodesInternal (q : SCPQuorumSet) : list NodeID :=
  match q with
  | mkQSet _ v i => v ++ concat (map forAllNodesInternal i)
  end.

Fixpoint firstVisits (done : gset NodeID) (l : list NodeID) : list NodeID :=
  match l with
  | [] => []
  | n :: l' =>
      if decide (n ∈ done) then firstVisits done l' else n :: firstVisits ({[n]} ∪ done) l'
  end.

(** The nodes [forAllNodes] calls [proc] on, in order: each one once. *)
Definition forAllNodes (q : SCPQuorumSet) : list NodeID :=
  firstVisits ∅ (forAllNodesInternal q).

(** ** Weight *)

(** [bigDivide(res, ...)] with the returned flag ignored; its divisor is
    positive where it is called. *)
Definition bigDivideResult (A B C : Z) : Z :=
  match bigDivide_u64 A B C ROUND_DOWN with inl _ => 0 | inr (_, r) => r end.

(** The loop over the inner sets: the first one in which the node has a weight
    decides. *)
Definition weightLoop {A} (weight : A -> Z) (n d : Z) :=
  fix loop (l : list A) : Z :=
    match l with
    | [] => 0
    | q :: l' => let leafW := weight q in
                 if leafW =? 0 then loop l' else bigDivideResult leafW n d
    end.

Fixpoint getNodeWeight (nodeID : NodeID) (q : SCPQuorumSet) : Z :=
  let n := threshold q in
  let d := u64 (totEntries q) in
  match q with
  | mkQSet _ v i =>
      if decide (nodeID ∈ v) then bigDivideResult UINT64_MAX n d
      else weightLoop (getNodeWeight nodeID) n d i
  end.

(** ** Slices and v-blocking sets *)

(** A loop that counts down at every hit and returns [true] from the function
    when the counter is not positive any more ([None]); else the counter left. *)
Definition countdown (wrap : Z -> Z) {A} (hit : A -> bool) :=
  fix loop (l : list A) (left_ : Z) : option Z :=
    match l with
    | [] => Some left_
    | x :: l' =>
        if hit x then
          let left_ := wrap (left_ - 1) in
          if left_ <=? 0 then None else loop l' left_
        else loop l' left_
    end.

Fixpoint isQuorumSliceInternal (nodeSet : list NodeID) (qset : SCPQuorumSet) : bool :=
  match qset with
  | mkQSet t v i =>
      match countdown u32 (fun n => bool_decide (n ∈ nodeSet)) v t with
      | None => true
      | Some thresholdLeft =>
          match countdown u32 (isQuorumSliceInternal nodeSet) i thresholdLeft with
          | None => true
          | Some _ => false
          end
      end
  end.

Definition isQuorumSlice (qSet : SCPQuorumSet) (nodeSet : list NodeID) : bool :=
  isQuorumSliceInternal nodeSet qSet.

Fixpoint isVBlockingInternal (nodeSet : list NodeID) (qset : SCPQuorumSet) : bool :=
  let leftTillBlock := s32 (u64 (1 + totEntries qset - threshold qset)) in
  match qset with
  | mkQSet t v i =>
      if t =? 0 then false
      else
        match countdown s32 (fun n => bool_decide (n ∈ nodeSet)) v leftTillBlock with
        | None => true
        | Some leftTillBlock =>
            match countdown s32 (isVBlockingInternal nodeSet) i leftTillBlock with
            | None => true
            | Some _ => false
            end
        end
  end.

Definition isVBlocking (qSet : SCPQuorumSet) (nodeSet : list NodeID) : bool :=
  isVBlockingInternal nodeSet qSet.

(** The nodes of a map whose statement passes the filter, in the map's order. *)
Definition filteredNodes (m : gmap NodeID SCPEnvelope) (flt : SCPStatement -> bool)
    : list NodeID :=
  (base.filter (fun p => flt (statement p.2) = true) (map_asc m)).*1.

Definition isVBlocking_map (qSet : SCPQuorumSet) (m : gmap NodeID SCPEnvelope)
    (flt : SCPStatement -> bool) : bool :=
  isVBlocking qSet (filteredNodes m flt).

(** [quorumFilter]: the quorum set of a node is taken from its statement; a
    null pointer is [None]. *)
Definition quorumFilter (m : gmap NodeID SCPEnvelope)
    (qfun : SCPStatement -> option SCPQuorumSet) (pNodes : list NodeID)
    (n : NodeID) : option bool :=
  e ← m !! n;
  q ← qfun (statement e);
  Some (isQuorumSlice q pNodes).

Fixpoint copy_if {A} (f : A -> option bool) (l : list A) : option (list A) :=
  match l with
  | [] => Some []
  | x :: l' => b ← f x; l'' ← copy_if f l'; Some (if (b : bool) then x :: l'' else l'')
  end.

(** The [do ... while] of [isQuorum].  Each round but the last drops a node, so
    [S (length pNodes)] rounds are enough (see [quorumLoop_fixpoint]). *)
Fixpoint quorumLoop (fuel : nat) (m : gmap NodeID SCPEnvelope)
    (qfun : SCPStatement -> option SCPQuorumSet) (pNodes : list NodeID)
    : option (list NodeID) :=
  match fuel with
  | O => Some pNodes
  | S fuel' =>
      let count := length pNodes in
      fNodes ← copy_if (quorumFilter m qfun pNodes) pNodes;
      if (count =? length fNodes)%nat then Some fNodes
      else quorumLoop fuel' m qfun fNodes
  end.

(** [None] is a null quorum set dereferenced on the way. *)
Definition isQuorum (qSet : SCPQuorumSet) (m : gmap NodeID SCPEnvelope)
    (qfun : SCPStatement -> option SCPQuorumSet) (flt : SCPStatement -> bool)
    : option bool :=
  let pNodes := filteredNodes m flt in
  pNodes ← quorumLoop (S (length pNodes)) m qfun pNodes;
  Some (isQuorumSlice qSet pNodes).

(** ** The closest v-blocking set *)

(** The first loop of [findClosestVBlocking]: [None] is the early return of the
    empty vector. *)
Fixpoint closestTop (nodes : gset NodeID) (excluded : option NodeID)
    (vs : list NodeID) (leftTillBlock : Z) (res : list NodeID) : option (Z * list NodeID) :=
  match vs with
  | [] => Some (leftTillBlock, res)
  | v :: vs' =>
      if decide (excluded = Some v) then closestTop nodes excluded vs' leftTillBlock res
      else if decide (v ∈ nodes) then closestTop nodes excluded vs' leftTillBlock (res ++ [v])
      else
        let leftTillBlock := u64 (leftTillBlock - 1) in
        if leftTillBlock =? 0 then None
        else closestTop nodes excluded vs' leftTillBlock res
  end.

(** [std::multiset<vector<NodeID>, orderBySize>::emplace]: after the vectors of
    the same size. *)
Fixpoint emplaceBySize (v : list NodeID) (l : list (list NodeID)) : list (list NodeID) :=
  match l with
  | [] => [v]
  | x :: l' => if (length v <? length x)%nat then v :: l else x :: emplaceBySize v l'
  end.

Definition closestInner {A} (closest : A -> list NodeID) :=
  fix loop (l : list A) (leftTillBlock : Z) (resInternals : list (list NodeID))
      : option (Z * list (list NodeID)) :=
    match l with
    | [] => Some (leftTillBlock, resInternals)
    | inner :: l' =>
        let v := closest inner in
        if (length v =? 0)%nat then
          let leftTillBlock := u64 (leftTillBlock - 1) in
          if leftTillBlock =? 0 then None else loop l' leftTillBlock resInternals
        else loop l' leftTillBlock (emplaceBySize v resInternals)
    end.

(** The final loop that appends the smallest inner answers. *)
Fixpoint appendInternals (l : list (list NodeID)) (leftTillBlock : Z) (res : list NodeID)
    : list NodeID :=
  match l with
  | [] => res
  | x :: l' =>
      if leftTillBlock =? 0 then res
      else appendInternals l' (u64 (leftTillBlock - 1)) (res ++ x)
  end.

Fixpoint findClosestVBlocking (nodes : gset NodeID) (excluded : option NodeID)
    (qset : SCPQuorumSet) : list NodeID :=
  let leftTillBlock := u64 (1 + totEntries qset - threshold qset) in
  match qset with
  | mkQSet _ v i =>
      match closestTop nodes excluded v leftTillBlock [] with
      | None => []
      | Some (leftTillBlock, res) =>
          match closestInner (findClosestVBlocking nodes excluded) i leftTillBlock [] with
          | None => []
          | Some (leftTillBlock, resInternals) =>
              let res := if leftTillBlock <? Z.of_nat (length res)
                         then take (Z.to_nat leftTillBlock) res else res in
              let leftTillBlock := u64 (leftTillBlock - Z.of_nat (length res)) in
              appendInternals resInternals leftTillBlock res
          end
      end
  end.

Definition findClosestVBlocking_map (qset : SCPQuorumSet) (m : gmap NodeID SCPEnvelope)
    (flt : SCPStatement -> bool) (excluded : option NodeID) : list NodeID :=
  findClosestVBlocking (list_to_set (filteredNodes m flt)) excluded qset.

(** ** The transitive quorum *)

(** One pass of the [while] loop of [isNodeInQuorum] visits a node [c] of the
    backlog: the nodes of its known quorum sets that were not visited join the
    backlog, and the answer becomes [TB_MAYBE] when information is missing. *)
Definition exploreNode (qfun : SCPStatement -> option SCPQuorumSet)
    (m : gmap NodeID (list SCPStatement)) (c : NodeID)
    (backlog visited : gset NodeID) (res : TriBool) : gset NodeID * TriBool :=
  match m !! c with
  | None => (backlog, TB_MAYBE)
  | Some sts =>
      foldl (fun acc st =>
        match qfun st with
        | None => (acc.1, TB_MAYBE)
        | Some q =>
            (acc.1 ∪ (list_to_set (forAllNodes q) ∖ visited), acc.2)
        end) (backlog, res) sts
  end.

(** [backlog.begin()] of an unordered set is any of its elements: [pick]. *)
Fixpoint inQuorumLoop (pick : gset NodeID -> NodeID) (fuel : nat) (node : NodeID)
    (qfun : SCPStatement -> option SCPQuorumSet) (m : gmap NodeID (list SCPStatement))
    (backlog visited : gset NodeID) (res : TriBool) : option TriBool :=
  match fuel with
  | O => None
  | S fuel' =>
      if decide (backlog = ∅) then Some res
      else
        let c := pick backlog in
        if decide (c = node) then Some TB_TRUE
        else
          let visited := {[c]} ∪ visited in
          let (backlog, res) := exploreNode qfun m c (backlog ∖ {[c]}) visited res in
          inQuorumLoop pick fuel' node qfun m backlog visited res
  end.

(** Every node the search can meet. *)
Definition searchUniverse (mNodeID : NodeID) (qfun : SCPStatement -> option SCPQuorumSet)
    (m : gmap NodeID (list SCPStatement)) : gset NodeID :=
  {[mNodeID]} ∪ list_to_set
    (concat (map (fun st => from_option forAllNodes [] (qfun st)) (concat (map_to_list m).*2))).

(** [None] would be running out of fuel; one round per node that can be met and
    one to see the backlog empty are enough (see [isNodeInQuorum_total]). *)
Definition isNodeInQuorum (pick : gset NodeID -> NodeID) (mNodeID node : NodeID)
    (qfun : SCPStatement -> option SCPQuorumSet) (m : gmap NodeID (list SCPStatement))
    : option TriBool :=
  inQuorumLoop pick (2 + size (searchUniverse mNodeID qfun m)) node qfun m
    {[mNodeID]} ∅ TB_FALSE.
