(* ===== verification/LocalNodeFacts.v ===== *)
(** * Theorems on quorum sets

    What the loops of [LocalNode] compute, against a declarative reading of
    quorum sets: a slice is a set of nodes that satisfies the threshold of every
    level, a set blocks when no slice avoids it, a quorum is a set of nodes that
    contains a slice of each of its members. *)

From Stdlib Require Import ZArith Lia.
From stdpp Require Import sorting.
From stdpp Require Import base tactics gmap option list.
From S2P Require Import Prelude UtilTypes ScpTypes LocalNode.

Open Scope Z_scope.

(** ** Counting *)

Fixpoint countb {A} (f : A -> bool) (l : list A) : Z :=
  match l with [] => 0 | x :: l' => (if f x then 1 else 0) + countb f l' end.

Lemma countb_range {A} (f : A -> bool) l : 0 <= countb f l <= Z.of_nat (length l).
Proof. induction l; simpl; [lia|]. destruct (f a); lia. Qed.

Lemma countb_mono {A} (f g : A -> bool) l :
  (forall x, x ∈ l -> f x = true -> g x = true) -> countb f l <= countb g l.
Proof.
  intros Hfg. induction l as [|x l IH]; simpl; [lia|].
  assert (countb f l <= countb g l) by (apply IH; intros; apply Hfg; [by right | done]).
  specialize (Hfg x ltac:(left)). destruct (f x), (g x); naive_solver lia.
Qed.

Lemma countb_ext {A} (f g : A -> bool) l :
  (forall x, x ∈ l -> f x = g x) -> countb f l = countb g l.
Proof.
  intros Hfg. apply Z.le_antisymm; apply countb_mono; intros x Hx; rewrite (Hfg x Hx); done.
Qed.

Lemma countb_compl {A} (f g : A -> bool) l :
  (forall x, x ∈ l -> g x = negb (f x)) -> countb g l = Z.of_nat (length l) - countb f l.
Proof.
  intros Hfg. induction l as [|x l IH]; simpl; [lia|].
  rewrite IH by (intros; apply Hfg; by right). rewrite (Hfg x) by left.
  destruct (f x); simpl; lia.
Qed.

Lemma countb_app {A} (f : A -> bool) l k : countb f (l ++ k) = countb f l + countb f k.
Proof. induction l; simpl; lia. Qed.

(** The counting loop of the slice and v-blocking tests: it answers whether the
    number of hits reaches the counter, as long as the counter starts positive. *)
Lemma countdown_spec wrap {A} (hit : A -> bool) l n hi :
  (forall x, 0 <= x <= hi -> wrap x = x) -> 0 < n <= hi ->
  countdown wrap hit l n =
    if n <=? countb hit l then None else Some (n - countb hit l).
Proof.
  intros Hw. revert n. induction l as [|x l IH]; intros n Hn; simpl.
  - destruct (Z.leb_spec n 0); [lia|]. f_equal; lia.
  - pose proof (countb_range hit l). destruct (hit x).
    + rewrite Hw by lia. destruct (Z.leb_spec (n - 1) 0).
      * destruct (Z.leb_spec n (1 + countb hit l)); [done|lia].
      * rewrite IH by lia.
        destruct (Z.leb_spec (n - 1) (countb hit l)), (Z.leb_spec n (1 + countb hit l));
          try done; try lia. f_equal; lia.
    + rewrite IH by lia. by rewrite Z.add_0_l.
Qed.

Lemma countdown_twice wrap {A B} (f : A -> bool) (g : B -> bool) l k n hi :
  (forall x, 0 <= x <= hi -> wrap x = x) -> 0 < n <= hi ->
  match countdown wrap f l n with
  | None => true
  | Some m => match countdown wrap g k m with None => true | Some _ => false end
  end = (n <=? countb f l + countb g k).
Proof.
  intros Hw Hn. pose proof (countb_range f l). pose proof (countb_range g k).
  rewrite (countdown_spec wrap f l n hi) by done.
  destruct (Z.leb_spec n (countb f l)).
  - symmetry. apply Z.leb_le. lia.
  - rewrite (countdown_spec wrap g k (n - countb f l) hi) by (try done; lia).
    destruct (Z.leb_spec (n - countb f l) (countb g k)); symmetry;
      [apply Z.leb_le | apply Z.leb_gt]; lia.
Qed.

(** ** Slices *)

(** A set of nodes satisfies a quorum set. *)
Fixpoint sat (S : NodeID -> bool) (q : SCPQuorumSet) : bool :=
  match q with
  | mkQSet t v i => t <=? countb S v + countb (sat S) i
  end.

(** Every threshold is between 1 and the number of entries of its level, and
    the number of entries fits in an [int]. *)
Fixpoint thresholdsOk (q : SCPQuorumSet) : bool :=
  (totEntries q <=? 2147483647) && (1 <=? threshold q) && (threshold q <=? totEntries q) &&
  match q with mkQSet _ _ i => forallb thresholdsOk i end.

Lemma thresholdsOk_unfold t v i : thresholdsOk (mkQSet t v i) = true <->
  (Z.of_nat (length v + length i) <= 2147483647 /\
   1 <= t <= Z.of_nat (length v + length i)) /\
  Forall (fun q => thresholdsOk q = true) i.
Proof.
  simpl. unfold totEntries; simpl. rewrite !andb_true_iff, !Z.leb_le, forallb_forall.
  rewrite Forall_forall. setoid_rewrite list_elem_of_In. tauto.
Qed.

Lemma sat_mono (S T : NodeID -> bool) q :
  (forall n, n ∈ forAllNodesInternal q -> S n = true -> T n = true) ->
  sat S q = true -> sat T q = true.
Proof.
  induction q as [t v i IH] using SCPQuorumSet_nested_ind. simpl. intros HST.
  rewrite !Z.leb_le. intros Hs.
  assert (countb S v <= countb T v) by (apply countb_mono; set_solver).
  assert (countb (sat S) i <= countb (sat T) i); [|lia].
  apply countb_mono. intros q Hq. rewrite Forall_forall in IH. apply (IH q Hq).
  intros n Hn. apply HST. apply elem_of_app. right. rewrite list_elem_of_In, in_concat.
  exists (forAllNodesInternal q). rewrite <- !list_elem_of_In. split; [|done].
  apply list_elem_of_fmap. eauto.
Qed.

Lemma isQuorumSlice_sat q nodes : thresholdsOk q = true ->
  isQuorumSlice q nodes = sat (fun n => bool_decide (n ∈ nodes)) q.
Proof.
  unfold isQuorumSlice.
  induction q as [t v i IH] using SCPQuorumSet_nested_ind.
  rewrite thresholdsOk_unfold. intros [Ht Hi]. simpl.
  rewrite (countdown_twice u32 _ _ v i t UINT32_MAX);
    [| intros; by apply u32_id | unfold UINT32_MAX; lia].
  do 2 f_equal. apply countb_ext. intros q Hq.
  rewrite Forall_forall in IH, Hi. auto.
Qed.

(** The v-blocking test is the slice test on the complement, negated. *)
Lemma isVBlocking_sat q nodes : thresholdsOk q = true ->
  isVBlocking q nodes = negb (sat (fun n => negb (bool_decide (n ∈ nodes))) q).
Proof.
  unfold isVBlocking.
  induction q as [t v i IH] using SCPQuorumSet_nested_ind.
  rewrite thresholdsOk_unfold. intros [Ht Hi]. cbn [isVBlockingInternal sat threshold].
  destruct (Z.eqb_spec t 0); [lia|].
  unfold totEntries. cbn [validators innerSets].
  rewrite u64_id by (unfold UINT64_MAX; lia). rewrite s32_id by lia.
  rewrite (countdown_twice s32 _ _ v i _ 2147483647); [| intros; apply s32_id; lia | lia].
  set (f := fun n => bool_decide (n ∈ nodes)). set (g := fun n => negb (bool_decide (n ∈ nodes))).
  rewrite (countb_compl f g v) by done.
  rewrite (countb_compl (isVBlockingInternal nodes) (sat g) i).
  2:{ intros q Hq. rewrite Forall_forall in IH, Hi. rewrite IH by auto. by rewrite negb_involutive. }
  set (a := countb f v). set (b := countb (isVBlockingInternal nodes) i).
  destruct (Z.leb_spec t (Z.of_nat (length v) - a + (Z.of_nat (length i) - b))); simpl;
    [apply Z.leb_gt | apply Z.leb_le]; lia.
Qed.

Lemma isQuorumSlice_mono q U V : thresholdsOk q = true ->
  (forall n, n ∈ U -> n ∈ V) -> isQuorumSlice q U = true -> isQuorumSlice q V = true.
Proof.
  intros Hq HUV. rewrite !isQuorumSlice_sat by done. apply sat_mono.
  intros n _. rewrite !bool_decide_eq_true. auto.
Qed.

(** C32. For a quorum set whose thresholds are between 1 and the number of their entries, which
    [isQuorumSetSane] checks, a set of nodes passes the v-blocking test exactly when it meets
    every set of nodes that passes the slice test. *)
Theorem isVBlocking_iff_meets_every_slice q B : thresholdsOk q = true ->
  isVBlocking q B = true <->
  (forall T, isQuorumSlice q T = true -> exists n, n ∈ B /\ n ∈ T).
Proof.
  intros Hq. rewrite isVBlocking_sat, negb_true_iff by done. split.
  - intros Hsat T HT. rewrite isQuorumSlice_sat in HT by done.
    destruct (decide (Exists (fun n => n ∈ B) T)) as [HE|HE].
    { apply Exists_exists in HE as (n & ? & ?). eauto. }
    exfalso. apply not_true_iff_false in Hsat. apply Hsat.
    apply (sat_mono (fun n => bool_decide (n ∈ T))); [|done].
    intros n _. rewrite bool_decide_eq_true, negb_true_iff, bool_decide_eq_false.
    intros HnT HnB. apply HE, Exists_exists. eauto.
  - intros Hmeet. apply not_true_iff_false. intros Hsat.
    set (T := List.filter (fun n => negb (bool_decide (n ∈ B))) (forAllNodesInternal q)).
    destruct (Hmeet T) as (n & HnB & HnT).
    + rewrite isQuorumSlice_sat by done. revert Hsat. apply sat_mono.
      intros n Hn Hneg. apply bool_decide_eq_true. unfold T.
      rewrite list_elem_of_In, filter_In, <- list_elem_of_In. auto.
    + unfold T in HnT. rewrite list_elem_of_In, filter_In in HnT.
      destruct HnT as [_ HnT%negb_true_iff%bool_decide_eq_false]. done.
Qed.

Lemma isVBlocking_iff_meets_every_slice_witness :
  exists n : N, n ∈ [1%N; 2%N] /\ n ∈ [2%N; 3%N; 4%N].
Proof.
  apply (isVBlocking_iff_meets_every_slice (mkQSet 3 [1%N; 2%N; 3%N; 4%N] []) [1%N; 2%N]);
    vm_compute; reflexivity.
Defined.

(** ** Quorums *)

(** [U] is a quorum of the nodes of [m]: every member has a known statement and
    a slice inside [U]. *)
Definition closedQuorum (m : gmap NodeID SCPEnvelope)
    (qfun : SCPStatement -> option SCPQuorumSet) (U : list NodeID) : Prop :=
  forall n, n ∈ U -> exists e q,
    m !! n = Some e /\ qfun (statement e) = Some q /\ isQuorumSlice q U = true.

Lemma elem_of_filteredNodes m flt n : n ∈ filteredNodes m flt <->
  exists e, m !! n = Some e /\ flt (statement e) = true.
Proof.
  unfold filteredNodes. rewrite list_elem_of_fmap. split.
  - intros ([n' e] & -> & [Hf Hin]%list_elem_of_filter).
    apply elem_of_map_asc in Hin. eauto.
  - intros (e & Hm & Hf). exists (n, e). split; [done|].
    apply list_elem_of_filter. by rewrite elem_of_map_asc.
Qed.

Lemma copy_if_filter {A} (f : A -> option bool) g l :
  (forall x, x ∈ l -> f x = Some (g x)) -> copy_if f l = Some (List.filter g l).
Proof.
  induction l as [|x l IH]; intros Hf; simpl; [done|].
  rewrite (Hf x) by left. simpl. rewrite IH by (intros; apply Hf; by right). done.
Qed.

Lemma filter_length_same {A} (g : A -> bool) l :
  length (List.filter g l) = length l -> List.filter g l = l.
Proof.
  induction l as [|x l IH]; simpl; [done|].
  pose proof (List.filter_length_le g l). destruct (g x); simpl; intros; [f_equal; auto|lia].
Qed.

Section quorums.
Context (m : gmap NodeID SCPEnvelope) (qfun : SCPStatement -> option SCPQuorumSet).

(** The quorum set of a node, when all of them are known. *)
Definition nodeQSet (n : NodeID) : SCPQuorumSet :=
  default (mkQSet 0 [] []) (e ← m !! n; qfun (statement e)).

(** Every node of a list has a statement with a known, well-formed quorum set. *)
Definition knownQSets (l : list NodeID) : Prop :=
  forall n, n ∈ l -> exists e q,
    m !! n = Some e /\ qfun (statement e) = Some q /\ thresholdsOk q = true.

Lemma quorumFilter_known l pNodes n : knownQSets l -> n ∈ l ->
  quorumFilter m qfun pNodes n = Some (isQuorumSlice (nodeQSet n) pNodes).
Proof.
  intros Hk Hn. destruct (Hk n Hn) as (e & q & He & Hq & _).
  unfold quorumFilter, nodeQSet. by rewrite He; simpl; rewrite Hq.
Qed.

Lemma closedQuorum_known l U : knownQSets l -> (forall n, n ∈ U -> n ∈ l) ->
  closedQuorum m qfun U <-> (forall n, n ∈ U -> isQuorumSlice (nodeQSet n) U = true).
Proof.
  intros Hk HU. split.
  - intros HC n Hn. destruct (HC n Hn) as (e & q & He & Hq & Hs).
    unfold nodeQSet. by rewrite He; simpl; rewrite Hq.
  - intros HC n Hn. destruct (Hk n (HU n Hn)) as (e & q & He & Hq & _).
    exists e, q. split_and!; [done..|]. specialize (HC n Hn).
    unfold nodeQSet in HC. by rewrite He in HC; simpl in HC; rewrite Hq in HC.
Qed.

(** The pruning loop returns the largest quorum inside the list it starts from;
    one round per node is enough fuel. *)
Lemma quorumLoop_fixpoint fuel pNodes : knownQSets pNodes -> (length pNodes < fuel)%nat ->
  exists R, quorumLoop fuel m qfun pNodes = Some R /\
    (forall n, n ∈ R -> n ∈ pNodes) /\ closedQuorum m qfun R /\
    (forall U, (forall n, n ∈ U -> n ∈ pNodes) -> closedQuorum m qfun U ->
       forall n, n ∈ U -> n ∈ R).
Proof.
  revert pNodes. induction fuel as [|fuel IH]; intros pNodes Hk Hlen; [lia|].
  cbn [quorumLoop]. set (g := fun n => isQuorumSlice (nodeQSet n) pNodes).
  rewrite (copy_if_filter _ g) by (intros; by eapply quorumFilter_known).
  assert (Hsub : forall n, n ∈ List.filter g pNodes -> n ∈ pNodes)
    by (intros n; rewrite !list_elem_of_In, filter_In; tauto).
  simpl. destruct (Nat.eqb_spec (length pNodes) (length (List.filter g pNodes))) as [He|Hne].
  - symmetry in He. apply filter_length_same in He. rewrite He.
    exists pNodes. split_and!; [done | done | | auto].
    apply (closedQuorum_known pNodes); [done | done |].
    intros n Hn. rewrite <- He in Hn. rewrite list_elem_of_In, filter_In in Hn. apply Hn.
  - pose proof (List.filter_length_le g pNodes).
    destruct (IH (List.filter g pNodes)) as (R & HR & HRsub & HRc & HRmax);
      [intros n Hn; apply Hk; auto | lia |].
    exists R. split_and!; [done | auto | done |].
    intros U HU HUc. apply HRmax; [|done].
    intros n Hn. rewrite list_elem_of_In, filter_In, <- list_elem_of_In. split; [auto|].
    destruct (Hk n (HU n Hn)) as (e & q & Hme & Hq & Hok).
    apply (isQuorumSlice_mono _ U pNodes); [|done|].
    + unfold nodeQSet. by rewrite Hme; simpl; rewrite Hq.
    + by apply (closedQuorum_known pNodes).
Qed.

Lemma isQuorum_spec qSet flt : thresholdsOk qSet = true ->
  knownQSets (filteredNodes m flt) ->
  exists b, isQuorum qSet m qfun flt = Some b /\
    (b = true <-> exists U, (forall n, n ∈ U -> n ∈ filteredNodes m flt) /\
                            closedQuorum m qfun U /\ isQuorumSlice qSet U = true).
Proof.
  intros Hq Hk. unfold isQuorum.
  destruct (quorumLoop_fixpoint (S (length (filteredNodes m flt))) _ Hk ltac:(lia))
    as (R & HR & HRsub & HRc & HRmax).
  rewrite HR. simpl. eexists; split; [done|]. split.
  - intros HS. exists R. auto.
  - intros (U & HU & HUc & HUs). apply (isQuorumSlice_mono _ U); [done| |done].
    by apply HRmax.
Qed.

(** Soundness needs no hypothesis: what the loop ends with is a quorum. *)
Lemma copy_if_same {A} (f : A -> option bool) l l' : copy_if f l = Some l' ->
  (forall x, x ∈ l' -> x ∈ l) /\ (length l' <= length l)%nat /\
  (length l' = length l -> l' = l /\ forall x, x ∈ l -> f x = Some true).
Proof.
  revert l'. induction l as [|x l IH]; intros l'; simpl.
  { intros [= <-]. split_and!; [done|done|]. split; [done|]. intros x Hx. by apply elem_of_nil in Hx. }
  destruct (f x) as [b|] eqn:Ef; simpl; [|done].
  destruct (copy_if f l) as [l0|]; simpl; [|done]. destruct (IH l0 eq_refl) as (H1 & H2 & H3).
  intros [= <-]. destruct b; simpl.
  - split_and!; [intros y [->|Hy]%elem_of_cons; [left | right; auto]|lia|].
    intros Hl. destruct H3 as [-> H3]; [lia|]. split; [done|].
    intros y [->|Hy]%elem_of_cons; auto.
  - split_and!; [intros; right; auto|lia|]. intros. exfalso. lia.
Qed.

Lemma quorumLoop_sound fuel pNodes R : (length pNodes < fuel)%nat ->
  quorumLoop fuel m qfun pNodes = Some R ->
  (forall n, n ∈ R -> n ∈ pNodes) /\ closedQuorum m qfun R.
Proof.
  revert pNodes. induction fuel as [|fuel IH]; intros pNodes Hlen; [lia|]. cbn [quorumLoop].
  destruct (copy_if (quorumFilter m qfun pNodes) pNodes) as [f|] eqn:Ef; simpl; [|done].
  destruct (copy_if_same _ _ _ Ef) as (H1 & H2 & H3).
  destruct (Nat.eqb_spec (length pNodes) (length f)) as [He|Hne].
  - intros [= <-]. destruct H3 as [-> H3]; [done|]. split; [done|]. intros n Hn.
    specialize (H3 n Hn). unfold quorumFilter in H3. destruct (m !! n) as [e|]; [|done]. simpl in H3.
    destruct (qfun (statement e)) as [q|] eqn:Eq; [|done]. simpl in H3. injection H3 as H3. eauto.
  - intros HR. destruct (IH f) as [HA HB]; [lia|done|]. split; [auto|done].
Qed.

Lemma isQuorum_sound qSet flt : isQuorum qSet m qfun flt = Some true ->
  exists U, (forall n, n ∈ U -> n ∈ filteredNodes m flt) /\
            closedQuorum m qfun U /\ isQuorumSlice qSet U = true.
Proof.
  unfold isQuorum. destruct (quorumLoop _ _ _ _) as [R|] eqn:ER; simpl; [|done].
  apply quorumLoop_sound in ER as [HA HB]; [|lia]. intros [= HS]. eauto.
Qed.

(** The first round asks every node for its quorum set. *)
Lemma copy_if_None {A} (f : A -> option bool) l : copy_if f l = None <-> exists x, x ∈ l /\ f x = None.
Proof.
  induction l as [|x l IH]; simpl.
  { split; [done|]. by intros (x & ?%elem_of_nil & _). }
  destruct (f x) as [b|] eqn:Ef; simpl.
  - assert (E : (exists y, y ∈ x :: l /\ f y = None) <-> exists y, y ∈ l /\ f y = None).
    { split; intros (y & Hy & Hf); exists y; (split; [|done]); [|by right].
      apply elem_of_cons in Hy as [->|]; [congruence|done]. }
    rewrite E, <- IH. by destruct (copy_if f l).
  - split; [|done]. intros _. exists x. split; [left|done].
Qed.

Lemma quorumFilter_None pNodes n : quorumFilter m qfun pNodes n = None <->
  m !! n = None \/ exists e, m !! n = Some e /\ qfun (statement e) = None.
Proof.
  unfold quorumFilter. destruct (m !! n) as [e|]; simpl; [|split; [by left|done]].
  destruct (qfun (statement e)) as [q|] eqn:Eq; simpl; [split; [done|]; intros [?|(e' & [= <-] & ?)]; congruence|].
  split; [|done]. intros _. right. by exists e.
Qed.

(** Whether a null quorum set is dereferenced. *)
Lemma quorumLoop_None fuel pNodes : quorumLoop (S fuel) m qfun pNodes = None <->
  exists n, n ∈ pNodes /\ quorumFilter m qfun [] n = None.
Proof.
  assert (Hany : forall l, (exists n, n ∈ l /\ quorumFilter m qfun [] n = None) <->
    copy_if (quorumFilter m qfun l) l = None).
  { intros l. rewrite copy_if_None. by setoid_rewrite quorumFilter_None. }
  revert pNodes. induction fuel as [|fuel IH]; intros pNodes; rewrite Hany; cbn [quorumLoop].
  all: destruct (copy_if (quorumFilter m qfun pNodes) pNodes) as [f|] eqn:Ef; simpl; [|done].
  - by case_match.
  - case_match; [done|]. split; [|done]. intros (n & Hn & E)%IH.
    destruct (copy_if_same _ _ _ Ef) as (Hsub & _).
    rewrite <- Ef. apply Hany. exists n. naive_solver.
Qed.

Lemma isQuorum_None qSet flt : isQuorum qSet m qfun flt = None <->
  exists n e, n ∈ filteredNodes m flt /\ m !! n = Some e /\ qfun (statement e) = None.
Proof.
  unfold isQuorum. destruct (quorumLoop _ _ _ _) as [R|] eqn:ER; simpl.
  - split; [done|]. intros (n & e & Hn & He & Hq).
    assert (E : quorumLoop (S (length (filteredNodes m flt))) m qfun (filteredNodes m flt) = None).
    { apply quorumLoop_None. exists n. split; [done|]. apply quorumFilter_None. right. by exists e. }
    congruence.
  - split; [|done]. intros _. apply quorumLoop_None in ER as (n & Hn & [En|(e & He & Hq)]%quorumFilter_None).
    + apply elem_of_filteredNodes in Hn as (e & He & _). congruence.
    + by exists n, e.
Qed.

End quorums.

(** C31. What [isQuorum] decides.  It always ends; it dereferences a null quorum set exactly
    when the quorum set of some node that passes the filter is not known.  Otherwise [true]
    means that the nodes that pass the filter contain a quorum, a set with a slice of each
    of its members, that contains a slice of [qSet]; and where the quorum sets are well-formed
    (every threshold is between 1 and the number of its entries, which [isQuorumSetSane] checks) it is
    [true] whenever they do.  The nodes themselves need not be a quorum ([quorum_with_a_bystander]). *)
Theorem isQuorum_iff_contains_quorum qSet m qfun flt :
  (isQuorum qSet m qfun flt = None <->
   exists n e, n ∈ filteredNodes m flt /\ m !! n = Some e /\ qfun (statement e) = None) /\
  forall b, isQuorum qSet m qfun flt = Some b ->
    (b = true -> exists U, (forall n, n ∈ U -> n ∈ filteredNodes m flt) /\
       closedQuorum m qfun U /\ isQuorumSlice qSet U = true) /\
    (thresholdsOk qSet = true ->
     (forall n e q, n ∈ filteredNodes m flt -> m !! n = Some e -> qfun (statement e) = Some q -> thresholdsOk q = true) ->
     (exists U, (forall n, n ∈ U -> n ∈ filteredNodes m flt) /\
        closedQuorum m qfun U /\ isQuorumSlice qSet U = true) -> b = true).
Proof.
  split; [apply isQuorum_None|]. intros b Hb. split; [intros ->; by apply isQuorum_sound|].
  intros Hq Hok HU.
  assert (Hk : knownQSets m qfun (filteredNodes m flt)).
  { intros n Hn. pose proof Hn as (e & He & _)%elem_of_filteredNodes.
    destruct (qfun (statement e)) as [q|] eqn:Eq; [by exists e, q; eauto|].
    assert (E : isQuorum qSet m qfun flt = None) by (apply isQuorum_None; by exists n, e). congruence. }
  destruct (isQuorum_spec m qfun qSet flt Hq Hk) as (b' & Eb & Hiff). rewrite Hb in Eb. injection Eb as <-. by apply Hiff.
Qed.

(** Three nodes that trust any two of themselves, all voting. *)
Definition exampleMap : gmap NodeID SCPEnvelope :=
  list_to_map (map (fun n => (n, mkEnvelope (mkStatement n 1 (NOMINATE (mkNomination 7 [[n]] []))) []))
    [1%N; 2%N; 3%N]).

Definition exampleQSet : SCPQuorumSet := mkQSet 2 [1%N; 2%N; 3%N] [].

Lemma isQuorum_iff_contains_quorum_witness :
  (forall b, isQuorum exampleQSet exampleMap (fun _ => Some exampleQSet) (fun _ => true) = Some b -> b = true) /\
  exists U, (forall n, n ∈ U -> n ∈ filteredNodes exampleMap (fun _ => true)) /\
    closedQuorum exampleMap (fun _ => Some exampleQSet) U /\ isQuorumSlice exampleQSet U = true.
Proof.
  destruct (isQuorum_iff_contains_quorum exampleQSet exampleMap (fun _ => Some exampleQSet) (fun _ => true)) as [_ H].
  destruct (H true) as [Hs _]; [vm_compute; reflexivity|]. specialize (Hs eq_refl). split; [|exact Hs].
  intros b Hb. apply (H b Hb); [reflexivity| |exact Hs]. intros n e q _ _ [= <-]. reflexivity.
Defined.

(** The nodes that pass the filter are not a quorum, in the sense of [LocalNode.h] (for each of them there
    is a slice included in them), and [isQuorum] answers [true]: the third node trusts a fourth one only,
    and is dropped. *)
Theorem quorum_with_a_bystander :
  let qfun st := Some (if decide (st_nodeID st = 3%N) then mkQSet 1 [4%N] [] else exampleQSet) in
  isQuorum exampleQSet exampleMap qfun (fun _ => true) = Some true /\
  ~ closedQuorum exampleMap qfun (filteredNodes exampleMap (fun _ => true)).
Proof.
  split; [vm_compute; reflexivity|]. intros Hc. destruct (Hc 3%N) as (e & q & He & Hq & Hs).
  - apply elem_of_filteredNodes. eexists. by vm_compute.
  - vm_compute in He. injection He as <-. vm_compute in Hq. injection Hq as <-. by vm_compute in Hs.
Qed.

(** ** Sanity *)

(** The threshold of every level is in range; with [extra], it is also at least
    the size of a v-blocking set of its level. *)
Fixpoint thresholdsInRange (extra : bool) (q : SCPQuorumSet) : bool :=
  let t := threshold q in
  (1 <=? t) && (t <=? totEntries q) && (negb extra || (u64 (totEntries q - t + 1) <=? t)) &&
  match q with mkQSet _ _ i => forallb (thresholdsInRange extra) i end.

Lemma insertKnown_spec vs known :
  ((insertKnown vs known).1 = true <-> NoDup vs /\ forall n, n ∈ vs -> n ∉ known) /\
  ((insertKnown vs known).1 = true -> (insertKnown vs known).2 = list_to_set vs ∪ known).
Proof.
  revert known. induction vs as [|n vs IH]; intros known; simpl.
  { split; [|set_solver]. split; [|done]. intros _. split; [constructor|set_solver]. }
  case_decide as Hn; simpl.
  { split; [|done]. split; [done|]. intros [_ HH]. exfalso. apply (HH n); [left|done]. }
  destruct (IH ({[n]} ∪ known)) as [IH1 IH2]. split.
  - rewrite IH1, NoDup_cons. split.
    + intros [Hnd Hx]. split_and!; [|done|].
      * intros Hin. apply (Hx n Hin). set_solver.
      * intros k [->|Hk]%elem_of_cons; [done|]. specialize (Hx k Hk). set_solver.
    + intros [[Hni Hnd] Hx]. split; [done|]. intros k Hk.
      specialize (Hx k ltac:(by right)). set_solver.
  - intros HH. rewrite (IH2 HH). set_solver.
Qed.

Lemma union_swap_L (a b c : gset NodeID) : a ∪ (b ∪ c) = b ∪ a ∪ c.
Proof. set_solver. Qed.

(** Adding a list of fresh nodes and then another is adding their concatenation. *)
Lemma fresh_app (l k : list NodeID) (known : gset NodeID) :
  NoDup l -> (forall n, n ∈ l -> n ∉ known) ->
  (NoDup k /\ forall n, n ∈ k -> n ∉ (list_to_set l : gset NodeID) ∪ known) <->
  (NoDup (l ++ k) /\ forall n, n ∈ l ++ k -> n ∉ known).
Proof.
  intros Hl Hd. rewrite NoDup_app. split.
  - intros [Hk Hx]. split.
    + split_and!; [done| |done]. intros n Hn Hnk. specialize (Hx n Hnk). set_solver.
    + intros n [Hn|Hn]%elem_of_app; [auto|]. specialize (Hx n Hn). set_solver.
  - intros [(_ & Hlk & Hk) Hx]. split; [done|]. intros n Hn.
    specialize (Hx n ltac:(apply elem_of_app; by right)).
    intros [Hnl|Hnk]%elem_of_union; [|done]. apply elem_of_list_to_set in Hnl. by apply (Hlk n).
Qed.

Lemma fresh_app_l (l k : list NodeID) (known : gset NodeID) :
  NoDup (l ++ k) /\ (forall n, n ∈ l ++ k -> n ∉ known) ->
  NoDup l /\ (forall n, n ∈ l -> n ∉ known).
Proof.
  rewrite NoDup_app. intros [(Hl & _ & _) Hx]. split; [done|].
  intros n Hn. apply Hx, elem_of_app. by left.
Qed.

(** The list of all the nodes of a list of quorum sets. *)
Definition allNodes (l : list SCPQuorumSet) : list NodeID := concat (map forAllNodesInternal l).

Lemma saneLoop_spec extra l known :
  Forall (fun q => forall known,
    ((isQuorumSetSaneInternal extra q known).1 = true <->
      thresholdsInRange extra q = true /\ NoDup (forAllNodesInternal q) /\
      (forall n, n ∈ forAllNodesInternal q -> n ∉ known)) /\
    ((isQuorumSetSaneInternal extra q known).1 = true ->
      (isQuorumSetSaneInternal extra q known).2 = list_to_set (forAllNodesInternal q) ∪ known)) l ->
  ((saneLoop (isQuorumSetSaneInternal extra) l known).1 = true <->
    forallb (thresholdsInRange extra) l = true /\ NoDup (allNodes l) /\
    (forall n, n ∈ allNodes l -> n ∉ known)) /\
  ((saneLoop (isQuorumSetSaneInternal extra) l known).1 = true ->
    (saneLoop (isQuorumSetSaneInternal extra) l known).2 = list_to_set (allNodes l) ∪ known).
Proof.
  intros Hl. revert known. induction Hl as [|q l Hq Hl IH]; intros known.
  { simpl. split; [|set_solver]. split; [|done]. intros _. unfold allNodes; simpl.
    split_and!; [done|constructor|set_solver]. }
  cbn [saneLoop forallb]. unfold allNodes in *. cbn [map concat].
  destruct (Hq known) as [Hq1 Hq2].
  destruct (isQuorumSetSaneInternal extra q known) as [ok known'] eqn:E. simpl in Hq1, Hq2.
  rewrite andb_true_iff.
  destruct ok.
  - destruct (proj1 Hq1 eq_refl) as (Hr & Hnd & Hdis). rewrite (Hq2 eq_refl).
    destruct (IH (list_to_set (forAllNodesInternal q) ∪ known)) as [IH1 IH2]. split.
    + rewrite IH1, fresh_app by done. tauto.
    + intros HH. rewrite (IH2 HH), list_to_set_app_L. apply union_swap_L.
  - split; [|done]. simpl. split; [done|]. intros ([Hr _] & Hx%fresh_app_l).
    apply Hq1. split; done.
Qed.

Lemma isQuorumSetSaneInternal_spec extra q known :
  ((isQuorumSetSaneInternal extra q known).1 = true <->
    thresholdsInRange extra q = true /\ NoDup (forAllNodesInternal q) /\
    (forall n, n ∈ forAllNodesInternal q -> n ∉ known)) /\
  ((isQuorumSetSaneInternal extra q known).1 = true ->
    (isQuorumSetSaneInternal extra q known).2 = list_to_set (forAllNodesInternal q) ∪ known).
Proof.
  revert known. induction q as [t v i IH] using SCPQuorumSet_nested_ind. intros known.
  cbn [isQuorumSetSaneInternal thresholdsInRange forAllNodesInternal threshold].
  fold (allNodes i).
  destruct ((1 <=? t) && (t <=? totEntries (mkQSet t v i)) &&
    (negb extra || (u64 (totEntries (mkQSet t v i) - t + 1) <=? t))) eqn:Hc; cycle 1.
  { simpl. split; [|done]. split; [done|]. intros [? _]. done. }
  rewrite andb_true_l.
  destruct (insertKnown_spec v known) as [Hv1 Hv2].
  destruct (insertKnown v known) as [ok known'] eqn:E. simpl in Hv1, Hv2.
  destruct ok.
  - destruct (proj1 Hv1 eq_refl) as [Hnd Hdis]. rewrite (Hv2 eq_refl).
    destruct (saneLoop_spec extra i (list_to_set v ∪ known) IH) as [H1 H2]. split.
    + rewrite H1, fresh_app by done. tauto.
    + intros HH. rewrite (H2 HH), list_to_set_app_L. apply union_swap_L.
  - simpl. split; [|done]. split; [done|]. intros (_ & Hx%fresh_app_l). by apply Hv1.
Qed.

(** A quorum set is sane exactly when every threshold is in range and no
    node occurs twice anywhere in it. *)
Theorem isQuorumSetSane_iff q extra : isQuorumSetSane q extra = true <->
  thresholdsInRange extra q = true /\ NoDup (forAllNodesInternal q).
Proof.
  unfold isQuorumSetSane. rewrite (proj1 (isQuorumSetSaneInternal_spec extra q ∅)).
  split; [tauto|]. intros [? ?]. split_and!; [done..|]. intros n _. apply not_elem_of_empty.
Qed.

(** ** Normalization *)

Lemma isSingleton_inv q : isSingleton q = true -> exists n, q = buildSingletonQSet n.
Proof.
  destruct q as [t v i]. unfold isSingleton; simpl. rewrite !andb_true_iff, Z.eqb_eq, !Nat.eqb_eq.
  intros [[-> Hv] Hi]. destruct v as [|n [|]]; try done. destruct i; try done. by exists n.
Qed.

Lemma sat_singleton S n : sat S (buildSingletonQSet n) = S n.
Proof. simpl. by destruct (S n). Qed.

(** A measure that adds up over the entries of a quorum set: what the loop of
    [normalizeQSet] does not change. *)
Lemma normalizeLoop_count (S : NodeID -> bool) (f : SCPQuorumSet -> bool) l v :
  (forall n, f (buildSingletonQSet n) = S n) ->
  Forall (fun q => f (normalizeQSet q) = f q) l ->
  countb S (normalizeLoop normalizeQSet l v).1 + countb f (normalizeLoop normalizeQSet l v).2
  = countb S v + countb f l.
Proof.
  intros Hf Hl. revert v. induction Hl as [|q l Hq Hl IH]; intros v; simpl; [lia|].
  destruct (isSingleton (normalizeQSet q)) eqn:E.
  - apply isSingleton_inv in E as [n E]. rewrite IH. rewrite E in Hq |- *. rewrite <- Hq, Hf.
    simpl. rewrite countb_app. simpl. lia.
  - specialize (IH v). destruct (normalizeLoop normalizeQSet l v) as [v' i']. simpl in *.
    rewrite Hq. lia.
Qed.

Lemma normalizeLoop_nodes l v :
  Forall (fun q => forAllNodesInternal (normalizeQSet q) ≡ₚ forAllNodesInternal q) l ->
  (normalizeLoop normalizeQSet l v).1 ++ allNodes (normalizeLoop normalizeQSet l v).2
  ≡ₚ v ++ allNodes l.
Proof.
  intros Hl. revert v. induction Hl as [|q l Hq Hl IH]; intros v; simpl; [done|].
  unfold allNodes in *. cbn [map concat].
  destruct (isSingleton (normalizeQSet q)) eqn:E.
  - apply isSingleton_inv in E as [n E]. rewrite IH. rewrite E in Hq |- *. rewrite <- Hq.
    simpl. by rewrite <- app_assoc.
  - specialize (IH v). destruct (normalizeLoop normalizeQSet l v) as [v' i']. simpl in *.
    rewrite Hq, app_assoc, (Permutation_app_comm v'), <- app_assoc, IH.
    by rewrite !app_assoc, (Permutation_app_comm v).
Qed.

Lemma normalizeLoop_length l v :
  (length (normalizeLoop normalizeQSet l v).1 + length (normalizeLoop normalizeQSet l v).2
   = length v + length l)%nat.
Proof.
  revert v. induction l as [|q l IH]; intros v; simpl; [lia|].
  destruct (isSingleton (normalizeQSet q)) eqn:E.
  - apply isSingleton_inv in E as [n E]. rewrite IH, E, length_app. simpl. lia.
  - specialize (IH v). destruct (normalizeLoop normalizeQSet l v). simpl in *. lia.
Qed.

Lemma normalizeLoop_forall (P : SCPQuorumSet -> Prop) l v :
  Forall (fun q => P (normalizeQSet q)) l -> Forall P (normalizeLoop normalizeQSet l v).2.
Proof.
  intros Hl. revert v. induction Hl as [|q l Hq Hl IH]; intros v; simpl; [constructor|].
  destruct (isSingleton (normalizeQSet q)); [apply IH|].
  specialize (IH v). destruct (normalizeLoop normalizeQSet l v). by constructor.
Qed.

(** The two shapes of a normalized quorum set. *)
Lemma normalizeQSet_cases t v i :
  let vi := normalizeLoop normalizeQSet i v in
  normalizeQSet (mkQSet t v i) = mkQSet t vi.1 vi.2 \/
  exists inner, t = 1 /\ vi = ([], [inner]) /\ normalizeQSet (mkQSet t v i) = inner.
Proof.
  simpl. destruct (normalizeLoop normalizeQSet i v) as [v' [|inner [|]]]; simpl; eauto.
  destruct (Z.eqb_spec t 1), v'; simpl; eauto.
Qed.

Lemma sat_normalizeQSet S q : sat S (normalizeQSet q) = sat S q.
Proof.
  induction q as [t v i IH] using SCPQuorumSet_nested_ind.
  pose proof (normalizeLoop_count S (sat S) i v (sat_singleton S) IH) as Hc.
  destruct (normalizeQSet_cases t v i) as [->|(inner & -> & Hvi & ->)]; cbn [sat].
  - by rewrite Hc.
  - rewrite Hvi in Hc. simpl in Hc. rewrite <- Hc. by destruct (sat S inner).
Qed.

Lemma normalizeQSet_nodes q : forAllNodesInternal (normalizeQSet q) ≡ₚ forAllNodesInternal q.
Proof.
  induction q as [t v i IH] using SCPQuorumSet_nested_ind.
  pose proof (normalizeLoop_nodes i v IH) as Hn.
  destruct (normalizeQSet_cases t v i) as [->|(inner & -> & Hvi & ->)]; cbn [forAllNodesInternal].
  - exact Hn.
  - rewrite Hvi in Hn. unfold allNodes in Hn. simpl in Hn. by rewrite app_nil_r in Hn.
Qed.

Lemma thresholdsInRange_unfold extra t v i : thresholdsInRange extra (mkQSet t v i) = true <->
  let n := Z.of_nat (length v + length i) in
  (1 <= t <= n /\ (negb extra || (u64 (n - t + 1) <=? t)) = true) /\
  Forall (fun q => thresholdsInRange extra q = true) i.
Proof.
  simpl. unfold totEntries; simpl. rewrite !andb_true_iff, !Z.leb_le, forallb_forall.
  rewrite Forall_forall. setoid_rewrite list_elem_of_In. tauto.
Qed.

Lemma thresholdsInRange_normalizeQSet extra q :
  thresholdsInRange extra q = true -> thresholdsInRange extra (normalizeQSet q) = true.
Proof.
  induction q as [t v i IH] using SCPQuorumSet_nested_ind.
  rewrite thresholdsInRange_unfold. intros [Ht Hi].
  assert (Hn : Forall (fun q => thresholdsInRange extra q = true)
                 (normalizeLoop normalizeQSet i v).2).
  { apply normalizeLoop_forall. rewrite Forall_forall in *. auto. }
  pose proof (normalizeLoop_length i v) as Hlen.
  destruct (normalizeQSet_cases t v i) as [->|(inner & -> & Hvi & ->)].
  - apply thresholdsInRange_unfold. rewrite Hlen. auto.
  - rewrite Hvi in Hn. by inv Hn.
Qed.

Lemma thresholdsOk_normalizeQSet q :
  thresholdsOk q = true -> thresholdsOk (normalizeQSet q) = true.
Proof.
  induction q as [t v i IH] using SCPQuorumSet_nested_ind.
  rewrite thresholdsOk_unfold. intros [Ht Hi].
  assert (Hn : Forall (fun q => thresholdsOk q = true) (normalizeLoop normalizeQSet i v).2).
  { apply normalizeLoop_forall. rewrite Forall_forall in *. auto. }
  pose proof (normalizeLoop_length i v) as Hlen.
  destruct (normalizeQSet_cases t v i) as [->|(inner & -> & Hvi & ->)].
  - apply thresholdsOk_unfold. rewrite Hlen. auto.
  - rewrite Hvi in Hn. by inv Hn.
Qed.

(** Normalizing a sane quorum set gives a sane quorum set over the same
    nodes with the same slices. *)
Theorem normalizeQSet_sound q extra : isQuorumSetSane q extra = true ->
  isQuorumSetSane (normalizeQSet q) extra = true /\
  forAllNodesInternal (normalizeQSet q) ≡ₚ forAllNodesInternal q /\
  (thresholdsOk q = true -> forall S,
     isQuorumSlice (normalizeQSet q) S = isQuorumSlice q S /\
     isVBlocking (normalizeQSet q) S = isVBlocking q S).
Proof.
  unfold isQuorumSetSane. rewrite !(proj1 (isQuorumSetSaneInternal_spec extra _ ∅)).
  intros (Hr & Hnd & _). pose proof (normalizeQSet_nodes q) as Hp. split_and!.
  - by apply thresholdsInRange_normalizeQSet.
  - by rewrite Hp.
  - intros n _. apply not_elem_of_empty.
  - done.
  - intros Hok S. pose proof (thresholdsOk_normalizeQSet q Hok).
    by rewrite !isQuorumSlice_sat, !isVBlocking_sat, !sat_normalizeQSet by done.
Qed.

Lemma normalizeQSet_sound_witness :
  isQuorumSetSane (normalizeQSet (mkQSet 2 [4%N] [buildSingletonQSet 5%N; exampleQSet])) false = true.
Proof. apply normalizeQSet_sound. vm_compute. reflexivity. Defined.
