(* ===== verification/ClosestVBlocking.v ===== *)
(** * findClosestVBlocking computes a distance

    [LocalNode::findClosestVBlocking] is documented to compute the distance to
    the set of v-blocking sets.  Without an excluded node, it returns a set of
    the agreeing nodes whose failure blocks the quorum set, and for a quorum set
    without repeated nodes no smaller set does. *)

From Stdlib Require Import ZArith Lia.
From stdpp Require Import sorting.
From stdpp Require Import base tactics gmap option list.
From S2P Require Import Prelude UtilTypes ScpTypes LocalNode LocalNodeFacts.

Open Scope Z_scope.

(** ** Lists *)

Lemma countb_split {A} (p f : A -> bool) l :
  countb f l = countb f (List.filter p l) + countb f (List.filter (fun x => negb (p x)) l).
Proof. induction l as [|x l IH]; simpl; [done|]. destruct (p x); simpl; lia. Qed.

Lemma countb_all {A} (f : A -> bool) l :
  (forall x, x ∈ l -> f x = true) -> countb f l = Z.of_nat (length l).
Proof.
  induction l as [|x l IH]; intros Hf; simpl; [done|].
  rewrite (Hf x) by left. rewrite IH by (intros; apply Hf; by right). lia.
Qed.

Lemma countb_none {A} (f : A -> bool) l :
  (forall x, x ∈ l -> f x = false) -> countb f l = 0.
Proof.
  induction l as [|x l IH]; intros Hf; simpl; [done|].
  rewrite (Hf x) by left. by rewrite IH by (intros; apply Hf; by right).
Qed.

Lemma countb_length {A} (f : A -> bool) l : countb f l = Z.of_nat (length (List.filter f l)).
Proof. induction l as [|x l IH]; simpl; [done|]. destruct (f x); simpl; lia. Qed.

Lemma countb_map {A B} (h : B -> bool) (c : A -> B) l :
  countb h (map c l) = countb (fun x => h (c x)) l.
Proof. induction l; simpl; lia. Qed.

Lemma countb_perm {A} (f : A -> bool) l k : l ≡ₚ k -> countb f l = countb f k.
Proof. induction 1; simpl; lia. Qed.

Lemma countb_take {A} (f : A -> bool) l m :
  (forall x, x ∈ take m l -> f x = true) -> Z.of_nat (length (take m l)) <= countb f l.
Proof.
  intros Hf. rewrite <- (take_drop m l) at 2. rewrite countb_app, (countb_all f (take m l)) by done.
  pose proof (countb_range f (drop m l)). lia.
Qed.

Lemma elem_of_filterb {A} (f : A -> bool) l x : x ∈ List.filter f l <-> x ∈ l /\ f x = true.
Proof. by rewrite !list_elem_of_In, filter_In. Qed.

Lemma sum_take_cons x l m : StronglySorted le (x :: l) -> (m <= length l)%nat ->
  (sum_list (take m (x :: l)) <= sum_list (take m l))%nat.
Proof.
  revert x m. induction l as [|y l IH]; intros x [|m] Hs Hm; simpl in *; try lia.
  apply StronglySorted_inv in Hs as [Hs Hx]. apply Forall_cons in Hx as [Hxy _].
  specialize (IH y m Hs ltac:(lia)). simpl in IH. lia.
Qed.

Lemma elem_of_perm {A} (x : A) l : x ∈ l -> exists k, l ≡ₚ x :: k.
Proof.
  intros (l1 & l2 & ->)%list_elem_of_split. exists (l1 ++ l2). by rewrite Permutation_middle.
Qed.

(** In a sorted list of positive numbers, the [m] first are the cheapest [m],
    and every further element costs at least one. *)
Lemma sorted_take_cheapest Ls K K' m :
  StronglySorted le Ls -> Forall (fun x => 1 <= x)%nat Ls -> Ls ≡ₚ K ++ K' ->
  (m <= length K)%nat ->
  (sum_list (take m Ls) + (length K - m) <= sum_list K)%nat.
Proof.
  revert K K' m. induction Ls as [|x Ls IH]; intros K K' m Hs Hpos Hp Hm.
  { apply Permutation_nil_l in Hp. symmetry in Hp. apply app_nil in Hp as [-> _]. rewrite take_nil. simpl. lia. }
  assert (Hx : x ∈ K ++ K') by (rewrite <- Hp; left).
  apply Forall_cons in Hpos as [Hx1 Hpos]. apply StronglySorted_inv in Hs as [Hs Hle].
  apply elem_of_app in Hx as [Hx|Hx]; apply elem_of_perm in Hx as [K1 HK1].
  - assert (HLs : Ls ≡ₚ K1 ++ K') by (apply (Permutation_cons_inv (a := x)); by rewrite Hp, HK1).
    rewrite HK1 in Hm |- *. simpl in *. destruct m as [|m].
    + specialize (IH K1 K' 0%nat Hs Hpos HLs ltac:(lia)). simpl in *. lia.
    + specialize (IH K1 K' m Hs Hpos HLs ltac:(lia)). simpl. lia.
  - assert (HLs : Ls ≡ₚ K ++ K1).
    { apply (Permutation_cons_inv (a := x)). rewrite Hp, HK1. by rewrite Permutation_middle. }
    specialize (IH K K1 m Hs Hpos HLs Hm).
    assert (m <= length Ls)%nat by (rewrite HLs, length_app; lia).
    pose proof (sum_take_cons x Ls m ltac:(by constructor) ltac:(done)). lia.
Qed.

Section closest.
Context (nodes : gset NodeID).

Abbreviation absent := (fun n : NodeID => negb (bool_decide (n ∈ nodes))).
Abbreviation present := (fun n : NodeID => bool_decide (n ∈ nodes)).
Abbreviation closest := (findClosestVBlocking nodes None).
Abbreviation blockedSet := (fun q : SCPQuorumSet => (length (closest q) =? 0)%nat).

Lemma closestTop_spec vs n res : 0 < n <= UINT64_MAX ->
  closestTop nodes None vs n res =
    if n <=? countb absent vs then None
    else Some (n - countb absent vs, res ++ List.filter present vs).
Proof.
  revert n res. induction vs as [|v vs IH]; intros n res Hn; simpl.
  - destruct (Z.leb_spec n 0); [lia|]. by rewrite Z.sub_0_r, app_nil_r.
  - pose proof (countb_range absent vs). case_decide as Hv.
    + rewrite bool_decide_eq_true_2 by done. simpl. rewrite IH by lia. by rewrite <- app_assoc.
    + rewrite bool_decide_eq_false_2 by done. simpl. rewrite u64_id by lia.
      destruct (Z.eqb_spec (n - 1) 0).
      * destruct (Z.leb_spec n (1 + countb absent vs)); [done|lia].
      * rewrite IH by lia.
        destruct (Z.leb_spec (n - 1) (countb absent vs)),
          (Z.leb_spec n (1 + countb absent vs)); try done; try lia.
        do 2 f_equal. lia.
Qed.

Lemma emplaceBySize_perm v l : emplaceBySize v l ≡ₚ v :: l.
Proof.
  induction l as [|x l IH]; simpl; [done|].
  destruct (length v <? length x)%nat; [done|]. rewrite IH. constructor.
Qed.

Definition by_size (a b : list NodeID) : Prop := (length a <= length b)%nat.

Lemma emplaceBySize_sorted v l :
  StronglySorted by_size l -> StronglySorted by_size (emplaceBySize v l).
Proof.
  induction 1 as [|x l Hs IH Hx]; simpl; [by repeat constructor|].
  destruct (Nat.ltb_spec (length v) (length x)).
  - constructor; [by constructor|]. constructor; [unfold by_size; lia|].
    eapply Forall_impl; [exact Hx|]. unfold by_size. simpl. lia.
  - constructor; [done|]. rewrite emplaceBySize_perm. by constructor.
Qed.

(** The second loop: it fails to return only when too few inner sets are
    blocked, and then the others' answers are kept sorted by size. *)
Lemma closestInner_spec l n acc : 0 < n <= UINT64_MAX -> StronglySorted by_size acc ->
  if n <=? countb blockedSet l then closestInner closest l n acc = None
  else exists L, closestInner closest l n acc = Some (n - countb blockedSet l, L) /\
    StronglySorted by_size L /\
    L ≡ₚ acc ++ map closest (List.filter (fun q => negb (blockedSet q)) l).
Proof.
  revert n acc. induction l as [|q l IH]; intros n acc Hn Hs; cbn [countb closestInner].
  - destruct (Z.leb_spec n 0); [lia|]. exists acc. rewrite Z.sub_0_r, app_nil_r. done.
  - pose proof (countb_range blockedSet l). cbn [List.filter].
    destruct (length (closest q) =? 0)%nat eqn:E; cbn [negb].
    + rewrite u64_id by lia. destruct (Z.eqb_spec (n - 1) 0).
      * destruct (Z.leb_spec n (1 + countb blockedSet l)); [done|lia].
      * specialize (IH (n - 1) acc ltac:(lia) Hs).
        destruct (Z.leb_spec (n - 1) (countb blockedSet l)),
          (Z.leb_spec n (1 + countb blockedSet l)); try done; try lia.
        destruct IH as (L & -> & HL). exists L. split; [|done]. do 2 f_equal. lia.
    + specialize (IH n (emplaceBySize (closest q) acc) Hn (emplaceBySize_sorted _ _ Hs)).
      rewrite Z.add_0_l. destruct (Z.leb_spec n (countb blockedSet l)); [done|].
      destruct IH as (L & -> & HLs & HLp). exists L. split_and!; [done..|].
      rewrite HLp, emplaceBySize_perm. simpl. apply Permutation_middle.
Qed.

Lemma appendInternals_spec L n res : 0 <= n <= UINT64_MAX ->
  appendInternals L n res = res ++ concat (take (Z.to_nat n) L).
Proof.
  revert n res. induction L as [|x L IH]; intros n res Hn; simpl.
  - by rewrite take_nil, app_nil_r.
  - destruct (Z.eqb_spec n 0) as [->|]; [by rewrite app_nil_r|].
    rewrite u64_id, IH by lia.
    replace (Z.to_nat n) with (S (Z.to_nat (n - 1))) by lia. simpl. by rewrite app_assoc.
Qed.

(** The answer in closed form: [k] entries must fail, [B] of them already do. *)
Lemma closest_unfold t v i :
  1 <= t <= Z.of_nat (length v + length i) -> Z.of_nat (length v + length i) <= 2147483647 ->
  let k := 1 + Z.of_nat (length v + length i) - t in
  let B := countb absent v + countb blockedSet i in
  let P := List.filter present v in
  (k <= B /\ closest (mkQSet t v i) = []) \/
  (B < k /\ exists L, StronglySorted by_size L /\
    L ≡ₚ map closest (List.filter (fun q => negb (blockedSet q)) i) /\
    closest (mkQSet t v i) =
      take (Z.to_nat (k - B)) P ++ concat (take (Z.to_nat (k - B) - length P) L)).
Proof.
  intros Ht Hn k B P. cbn [findClosestVBlocking threshold].
  unfold totEntries. cbn [validators innerSets]. fold k.
  assert (Hk : 0 < k <= 2147483647) by (unfold k; lia).
  assert (HB : B = countb absent v + countb blockedSet i) by done.
  clearbody k B. rewrite (u64_id k) by (unfold UINT64_MAX; lia).
  pose proof (countb_range absent v). pose proof (countb_range blockedSet i).
  rewrite closestTop_spec by (unfold UINT64_MAX; lia).
  destruct (Z.leb_spec k (countb absent v)); [left; split; [lia|done]|].
  assert (HI : 0 < k - countb absent v <= UINT64_MAX) by (unfold UINT64_MAX; lia).
  apply (closestInner_spec i _ []) in HI; [|constructor].
  destruct (Z.leb_spec (k - countb absent v) (countb blockedSet i)).
  { rewrite HI. left. split; [lia|done]. }
  right. split; [lia|]. destruct HI as (L & HI & HLs & HLp). rewrite HI. exists L.
  split_and!; [done | by rewrite app_nil_l in HLp|].
  replace (k - countb absent v - countb blockedSet i) with (k - B) by lia.
  rewrite app_nil_l. fold P.
  set (r := if k - B <? Z.of_nat (length P) then take (Z.to_nat (k - B)) P else P).
  assert (r = take (Z.to_nat (k - B)) P) as Hr.
  { unfold r. destruct (Z.ltb_spec (k - B) (Z.of_nat (length P))); [done|].
    symmetry. apply take_ge. lia. }
  rewrite Hr, u64_id, appendInternals_spec; rewrite ?length_take; unfold UINT64_MAX; try lia.
  do 3 f_equal. lia.
Qed.

(** The nodes that still agree when the nodes of [R] fail. *)
Definition surviving (R : gset NodeID) (n : NodeID) : bool :=
  bool_decide (n ∈ nodes) && negb (bool_decide (n ∈ R)).

Lemma surviving_anti R R' n : R ⊆ R' -> surviving R' n = true -> surviving R n = true.
Proof.
  unfold surviving. intros HR. rewrite !andb_true_iff, !negb_true_iff, !bool_decide_eq_false.
  set_solver.
Qed.

Lemma sat_surviving_anti R R' q : R ⊆ R' ->
  sat (surviving R) q = false -> sat (surviving R') q = false.
Proof.
  intros HR. rewrite <- !not_true_iff_false. intros HS HS'. apply HS. revert HS'.
  apply sat_mono. intros n _. by apply surviving_anti.
Qed.

Lemma closest_subset q n : thresholdsOk q = true -> n ∈ closest q -> n ∈ nodes.
Proof.
  induction q as [t v i IH] using SCPQuorumSet_nested_ind.
  rewrite thresholdsOk_unfold. intros [Ht Hi].
  destruct (closest_unfold t v i) as [[_ ->]|[_ (L & _ & HL & ->)]]; [lia..|set_solver|].
  rewrite elem_of_app. intros [Hn|Hn].
  - apply elem_of_take in Hn as (j & Hn & _). apply list_elem_of_lookup_2, elem_of_filterb in Hn.
    destruct Hn as [_ Hn]. by apply bool_decide_eq_true in Hn.
  - rewrite list_elem_of_In, in_concat in Hn. destruct Hn as (x & Hx & Hn).
    rewrite <- list_elem_of_In in Hx. rewrite <- list_elem_of_In in Hn.
    apply elem_of_take in Hx as (j & Hx & _). apply list_elem_of_lookup_2 in Hx.
    rewrite HL in Hx. apply list_elem_of_fmap in Hx as (q & -> & Hq).
    apply elem_of_filterb in Hq as [Hq _]. rewrite Forall_forall in IH, Hi. eauto.
Qed.

(** Failing entries of a level, and the threshold. *)
Lemma sat_false_count S t v i : sat S (mkQSet t v i) = false <->
  1 + Z.of_nat (length v + length i) - t <=
    countb (fun n => negb (S n)) v + countb (fun q => negb (sat S q)) i.
Proof.
  cbn [sat]. rewrite (countb_compl S (fun n => negb (S n)) v) by done.
  rewrite (countb_compl (sat S) (fun q => negb (sat S q)) i) by done.
  rewrite Z.leb_gt. lia.
Qed.

Lemma entries_split v i :
  Z.of_nat (length v) = countb absent v + Z.of_nat (length (List.filter present v)) /\
  Z.of_nat (length i) = countb blockedSet i +
    Z.of_nat (length (List.filter (fun q => negb (blockedSet q)) i)).
Proof.
  rewrite <- !countb_length, (countb_compl present absent v) by done.
  rewrite (countb_compl blockedSet (fun q => negb (blockedSet q)) i) by done. lia.
Qed.

Lemma failing_validators (R : gset NodeID) v :
  countb (fun n => negb (surviving R n)) v =
    countb absent v + countb (fun n => bool_decide (n ∈ R)) (List.filter present v).
Proof.
  rewrite (countb_split present), Z.add_comm. f_equal.
  - rewrite (countb_length absent). apply countb_all. intros n [_ Hn]%elem_of_filterb.
    unfold surviving. by destruct (bool_decide (n ∈ nodes)).
  - apply countb_ext. intros n [_ Hn]%elem_of_filterb. unfold surviving. rewrite Hn.
    by destruct (bool_decide (n ∈ R)).
Qed.

Lemma failing_validators_none v :
  countb (fun n => negb (surviving ∅ n)) v = countb absent v.
Proof.
  apply countb_ext. intros n _. unfold surviving.
  rewrite (bool_decide_eq_false_2 (n ∈ ∅)) by set_solver. by rewrite andb_true_r.
Qed.

Lemma blockedSet_nil q : blockedSet q = true <-> closest q = [].
Proof. rewrite Nat.eqb_eq. split; [apply nil_length_inv | by intros ->]. Qed.

Lemma closest_blocks q : thresholdsOk q = true ->
  sat (surviving (list_to_set (closest q))) q = false.
Proof.
  induction q as [t v i IH] using SCPQuorumSet_nested_ind.
  rewrite thresholdsOk_unfold. intros [Ht Hi].
  destruct (entries_split v i) as [Hv Hl].
  set (R := list_to_set (closest (mkQSet t v i)) : gset NodeID).
  set (F := List.filter (fun q => negb (blockedSet q)) i) in *.
  set (P := List.filter present v) in *.
  rewrite sat_false_count, failing_validators. fold P.
  rewrite (countb_split blockedSet _ i). fold F.
  assert (HIH : forall q, q ∈ i -> list_to_set (closest q) ⊆ R ->
            negb (sat (surviving R) q) = true).
  { intros q Hq Hsub. apply negb_true_iff. eapply sat_surviving_anti; [exact Hsub|].
    rewrite Forall_forall in IH, Hi. auto. }
  rewrite (countb_all _ (List.filter blockedSet i)).
  2:{ intros q [Hq Hb]%elem_of_filterb. apply HIH; [done|].
      apply blockedSet_nil in Hb as ->. set_solver. }
  rewrite <- countb_length.
  destruct (closest_unfold t v i) as [[HB HE]|[HB (L & HLs & HL & HE)]]; [lia..| |].
  { pose proof (countb_range (fun n => bool_decide (n ∈ R)) P).
    pose proof (countb_range (fun q => negb (sat (surviving R) q)) F). lia. }
  set (left_ := Z.to_nat _) in HE. set (m := (left_ - length P)%nat) in HE.
  assert (HP : Z.of_nat (length (take left_ P)) <= countb (fun n => bool_decide (n ∈ R)) P).
  { apply countb_take. intros n Hn. apply bool_decide_eq_true. unfold R. rewrite HE. fold P.
    set_solver. }
  assert (HF : Z.of_nat (length (take m L)) <= countb (fun q => negb (sat (surviving R) q)) F).
  { etransitivity; [apply (countb_take (fun x => bool_decide (list_to_set x ⊆ R)))|].
    - intros x Hx. apply bool_decide_eq_true. unfold R. rewrite HE. intros n Hn.
      apply elem_of_list_to_set in Hn. apply elem_of_list_to_set, elem_of_app. right.
      rewrite list_elem_of_In, in_concat. exists x. split; by apply list_elem_of_In.
    - rewrite (countb_perm _ _ _ HL), countb_map. apply countb_mono.
      intros q [Hq _]%elem_of_filterb Hs%bool_decide_eq_true. by apply HIH. }
  apply Permutation_length in HL. rewrite length_map in HL. fold F in HL.
  rewrite length_take in HP. rewrite length_take in HF. lia.
Qed.

Lemma count_in_set (T : gset NodeID) l : NoDup l ->
  countb (fun n => bool_decide (n ∈ T)) l = Z.of_nat (size (T ∩ list_to_set l)).
Proof.
  induction 1 as [|n l Hn Hl IH]; simpl.
  { by rewrite intersection_empty_r_L, size_empty. }
  rewrite IH. rewrite intersection_union_l_L, (size_union (T ∩ {[n]})) by set_solver.
  case_bool_decide as HnT.
  - replace (T ∩ {[n]}) with ({[n]} : gset NodeID) by set_solver. rewrite size_singleton. lia.
  - replace (T ∩ {[n]}) with (∅ : gset NodeID) by set_solver. rewrite size_empty. lia.
Qed.

Lemma size_inter_app (T : gset NodeID) l k : NoDup (l ++ k) ->
  size (T ∩ list_to_set (l ++ k)) = (size (T ∩ list_to_set l) + size (T ∩ list_to_set k))%nat.
Proof.
  rewrite NoDup_app. intros (_ & Hlk & _).
  rewrite list_to_set_app_L, intersection_union_l_L, (size_union (T ∩ list_to_set l)); [done|].
  intros n [_ Hl%elem_of_list_to_set]%elem_of_intersection
    [_ Hk%elem_of_list_to_set]%elem_of_intersection. by apply (Hlk n).
Qed.

(** What the blocked inner sets of a level cost adds up, as they share no node. *)
Lemma inner_cost (T : gset NodeID) (p : SCPQuorumSet -> bool) l : NoDup (allNodes l) ->
  (forall q, q ∈ l -> p q = true ->
    (length (closest q) <= size (T ∩ list_to_set (forAllNodesInternal q)))%nat) ->
  (sum_list (map (fun q => length (closest q)) (List.filter p l))
    <= size (T ∩ list_to_set (allNodes l)))%nat.
Proof.
  unfold allNodes. induction l as [|q l IH]; intros Hnd Hc; [apply Nat.le_0_l|].
  cbn [map concat] in Hnd |- *. rewrite size_inter_app by done.
  apply NoDup_app in Hnd as (_ & _ & Hnd).
  specialize (IH Hnd ltac:(intros; apply Hc; [by right|done])).
  specialize (Hc q ltac:(left)). cbn [List.filter]. destruct (p q); cbn [map sum_list_with]; [|lia].
  specialize (Hc eq_refl). unfold id in *. lia.
Qed.

Lemma sizes_sorted L : StronglySorted by_size L -> StronglySorted le (length <$> L).
Proof.
  induction 1 as [|x L Hs IH Hx]; simpl; constructor; [done|].
  rewrite Forall_fmap. exact Hx.
Qed.

Lemma filter_perm {A} (p : A -> bool) l :
  l ≡ₚ List.filter p l ++ List.filter (fun x => negb (p x)) l.
Proof.
  induction l as [|x l IH]; simpl; [done|].
  destruct (p x); simpl; [by constructor|]. rewrite <- Permutation_middle. by constructor.
Qed.

Lemma filter_andb {A} (p f : A -> bool) l :
  List.filter p (List.filter f l) = List.filter (fun x => f x && p x) l.
Proof.
  induction l as [|x l IH]; simpl; [done|].
  destruct (f x); simpl; [destruct (p x)|]; by rewrite IH.
Qed.

(** The nodes of an inner set are all different when those of the whole are. *)
Lemma NoDup_inner q i : NoDup (allNodes i) -> q ∈ i -> NoDup (forAllNodesInternal q).
Proof.
  unfold allNodes. intros Hnd (l1 & l2 & ->)%list_elem_of_split.
  rewrite map_app, concat_app in Hnd. cbn [map concat] in Hnd.
  apply NoDup_app in Hnd as (_ & _ & Hnd). by apply NoDup_app in Hnd as (? & _ & _).
Qed.

Lemma closest_minimal q T : thresholdsOk q = true -> NoDup (forAllNodesInternal q) ->
  sat (surviving T) q = false ->
  (length (closest q) <= size (T ∩ list_to_set (forAllNodesInternal q)))%nat.
Proof.
  induction q as [t v i IH] using SCPQuorumSet_nested_ind.
  rewrite thresholdsOk_unfold, sat_false_count, failing_validators. intros [Ht Hi] Hnd Hk.
  cbn [forAllNodesInternal] in Hnd |- *. rewrite size_inter_app by done.
  change (concat (map forAllNodesInternal i)) with (allNodes i) in *.
  destruct (closest_unfold t v i) as [[HB ->]|[HB (L & HLs & HL & ->)]]; [lia..|apply Nat.le_0_l|].
  set (F := List.filter (fun q => negb (blockedSet q)) i) in *.
  set (P := List.filter present v) in *.
  set (g := fun q => negb (sat (surviving T) q)) in *.
  set (K := map (fun q => length (closest q)) (List.filter g F)).
  (* validators *)
  assert (HvT : countb (fun n => bool_decide (n ∈ T)) P <= Z.of_nat (size (T ∩ list_to_set v))).
  { apply NoDup_app in Hnd as (Hv & _ & _). rewrite <- count_in_set by done.
    rewrite (countb_split present _ v). fold P.
    pose proof (countb_range (fun n => bool_decide (n ∈ T)) (List.filter (fun x => negb (present x)) v)).
    lia. }
  (* inner sets *)
  assert (HK : (sum_list K <= size (T ∩ list_to_set (allNodes i)))%nat).
  { unfold K, F. rewrite filter_andb. apply inner_cost; [by apply NoDup_app in Hnd as (_ & _ & ?)|].
    intros q Hq [_ Hg%negb_true_iff]%andb_true_iff. rewrite Forall_forall in IH, Hi.
    apply IH; auto. apply NoDup_app in Hnd as (_ & _ & Hnd). by eapply NoDup_inner. }
  assert (HgF : countb g i <= countb blockedSet i + Z.of_nat (length K)).
  { rewrite (countb_split blockedSet _ i). fold F. rewrite (countb_length g F).
    unfold K. rewrite length_map, (countb_length blockedSet).
    pose proof (countb_range g (List.filter blockedSet i)). lia. }
  set (left_ := Z.to_nat _). set (m := (left_ - length P)%nat).
  pose proof (countb_range (fun n => bool_decide (n ∈ T)) P) as HaP.
  assert (Hcheap : (m <= length K)%nat ->
    (sum_list (take m (length <$> L)) + (length K - m) <= sum_list K)%nat).
  { apply (sorted_take_cheapest _ K
      (map (fun q => length (closest q)) (List.filter (fun q => negb (g q)) F))).
    - by apply sizes_sorted.
    - rewrite Forall_fmap. rewrite Forall_forall. intros x Hx. rewrite HL in Hx.
      apply list_elem_of_fmap in Hx as (q & -> & [_ Hq]%elem_of_filterb).
      apply negb_true_iff, Nat.eqb_neq in Hq. simpl. lia.
    - rewrite HL. unfold K. rewrite <- map_app, <- filter_perm.
      change (length <$> map closest F) with (map length (map closest F)). by rewrite map_map. }
  rewrite length_app, length_take, length_concat.
  change list_sum with (sum_list_with (A := nat) id).
  rewrite <- firstn_map. change (map (length (A := NodeID)) L) with (length <$> L). lia.
Qed.

Lemma closest_nil q : thresholdsOk q = true ->
  closest q = [] <-> sat (surviving ∅) q = false.
Proof.
  intros Hq. split.
  { intros HR. pose proof (closest_blocks q Hq) as HB. by rewrite HR in HB. }
  revert Hq. induction q as [t v i IH] using SCPQuorumSet_nested_ind.
  rewrite thresholdsOk_unfold, sat_false_count, failing_validators_none. intros [Ht Hi] Hk.
  destruct (closest_unfold t v i) as [[_ ?]|[HB _]]; [lia..|done|].
  assert (countb (fun q => negb (sat (surviving ∅) q)) i <= countb blockedSet i).
  { apply countb_mono. intros q Hq Hs%negb_true_iff. apply blockedSet_nil.
    rewrite Forall_forall in IH, Hi. auto. }
  exfalso. lia.
Qed.

End closest.

(** Without an excluded node, [findClosestVBlocking] returns agreeing nodes
    whose failure blocks the quorum set; it returns none exactly when the quorum
    set is already blocked; and for a quorum set without repeated nodes, every
    set of nodes whose failure blocks it has at least as many nodes. *)
Theorem findClosestVBlocking_is_distance nodes q : thresholdsOk q = true ->
  let R := findClosestVBlocking nodes None q in
  (forall n, n ∈ R -> n ∈ nodes) /\
  sat (surviving nodes (list_to_set R)) q = false /\
  (R = [] <-> sat (surviving nodes ∅) q = false) /\
  (NoDup (forAllNodesInternal q) -> forall T : gset NodeID,
     sat (surviving nodes T) q = false -> (length R <= size T)%nat).
Proof.
  intros Hq R. split_and!.
  - intros n. by apply closest_subset.
  - by apply closest_blocks.
  - by apply closest_nil.
  - intros Hnd T HT. etransitivity; [by apply (closest_minimal nodes q T)|].
    apply subseteq_size. set_solver.
Qed.

Lemma findClosestVBlocking_is_distance_witness :
  sat (surviving {[1%N; 2%N; 4%N; 5%N]} (list_to_set
    (findClosestVBlocking {[1%N; 2%N; 4%N; 5%N]} None
       (mkQSet 2 [1%N] [exampleQSet; mkQSet 1 [4%N; 5%N] []]))))
    (mkQSet 2 [1%N] [exampleQSet; mkQSet 1 [4%N; 5%N] []]) = false.
Proof. apply findClosestVBlocking_is_distance. vm_compute. reflexivity. Defined.
