(* ===== verification/NodeInQuorum.v ===== *)
(** * isNodeInQuorum is reachability

    [LocalNode::isNodeInQuorum] explores the quorum sets of the nodes it knows,
    starting at the local node.  It terminates whatever element the unordered
    backlog hands out, and its answer is what [SCP.h] documents. *)

From Stdlib Require Import ZArith Lia.
From stdpp Require Import base tactics gmap option relations list.
From S2P Require Import Prelude UtilTypes ScpTypes LocalNode LocalNodeFacts.

Section search.
Context (qfun : SCPStatement -> option SCPQuorumSet) (m : gmap NodeID (list SCPStatement)).

(** [b] is in a quorum set that a statement of [a] names. *)
Definition trusts (a b : NodeID) : Prop :=
  exists sts st q, m !! a = Some sts /\ st ∈ sts /\ qfun st = Some q /\ b ∈ forAllNodes q.

(** Nothing is known of [a], or one of its quorum sets is not known. *)
Definition unknown (a : NodeID) : Prop :=
  m !! a = None \/ exists sts st, m !! a = Some sts /\ st ∈ sts /\ qfun st = None.

Lemma exploreNode_spec c backlog visited res :
  res = TB_FALSE \/ res = TB_MAYBE ->
  let r := exploreNode qfun m c backlog visited res in
  (forall n, n ∈ r.1 <-> n ∈ backlog \/ (trusts c n /\ n ∉ visited)) /\
  (r.2 = TB_MAYBE <-> res = TB_MAYBE \/ unknown c) /\
  (r.2 = TB_FALSE \/ r.2 = TB_MAYBE).
Proof.
  intros Hres. unfold exploreNode, trusts, unknown. destruct (m !! c) as [sts|] eqn:Hc; simpl.
  2:{ split_and!; [|naive_solver|by right]. naive_solver. }
  assert (HG : forall acc : gset NodeID * TriBool, acc.2 = TB_FALSE \/ acc.2 = TB_MAYBE ->
    let r := foldl (fun acc st => match qfun st with
        | None => (acc.1, TB_MAYBE)
        | Some q => (acc.1 ∪ (list_to_set (forAllNodes q) ∖ visited), acc.2) end) acc sts in
    (forall n, n ∈ r.1 <-> n ∈ acc.1 \/
       (exists st q, st ∈ sts /\ qfun st = Some q /\ n ∈ forAllNodes q) /\ n ∉ visited) /\
    (r.2 = TB_MAYBE <-> acc.2 = TB_MAYBE \/ exists st, st ∈ sts /\ qfun st = None) /\
    (r.2 = TB_FALSE \/ r.2 = TB_MAYBE)).
  { clear Hc Hres res. induction sts as [|st sts IH]; intros acc Hacc; simpl.
    { split_and!; [set_solver | set_solver | done]. }
    destruct (qfun st) as [q|] eqn:Hq.
    - destruct (IH (acc.1 ∪ (list_to_set (forAllNodes q) ∖ visited), acc.2) Hacc) as (H1 & H2 & H3).
      simpl in *. split_and!; [|set_solver|done].
      intros n. rewrite H1, elem_of_union, elem_of_difference, elem_of_list_to_set.
      setoid_rewrite elem_of_cons. clear -Hq. naive_solver.
    - destruct (IH (acc.1, TB_MAYBE) ltac:(by right)) as (H1 & H2 & H3).
      simpl in *. split_and!; [|set_solver|done].
      intros n. rewrite H1. setoid_rewrite elem_of_cons. clear -Hq. naive_solver. }
  destruct (HG (backlog, res) Hres) as (H1 & H2 & H3). simpl in *. split_and!; [| |done].
  - intros n. rewrite H1. clear -Hc. naive_solver.
  - rewrite H2. clear -Hc. naive_solver.
Qed.

Context (start node : NodeID).

Lemma trusts_universe a b : trusts a b -> b ∈ searchUniverse start qfun m.
Proof.
  intros (sts & st & q & Hm & Hst & Hq & Hb). unfold searchUniverse.
  apply elem_of_union_r, elem_of_list_to_set. rewrite list_elem_of_In, in_concat.
  exists (forAllNodes q). rewrite <- !list_elem_of_In. split; [|done].
  apply list_elem_of_fmap. exists st. rewrite Hq. split; [done|].
  rewrite list_elem_of_In, in_concat. exists sts. rewrite <- list_elem_of_In.
  split; [|by apply list_elem_of_In]. apply list_elem_of_fmap. exists (a, sts).
  by rewrite elem_of_map_to_list.
Qed.

(** The invariant of the search. *)
Record searching (backlog visited : gset NodeID) (res : TriBool) : Prop := {
  search_reach : forall n, n ∈ backlog ∪ visited -> rtc trusts start n;
  search_start : start ∈ backlog ∪ visited;
  search_closed : forall a b, a ∈ visited -> trusts a b -> b ∈ backlog ∪ visited;
  search_fresh : node ∉ visited;
  search_disjoint : backlog ## visited;
  search_universe : backlog ∪ visited ⊆ searchUniverse start qfun m;
  search_maybe : res = TB_MAYBE <-> exists a, a ∈ visited /\ unknown a;
  search_two : res = TB_FALSE \/ res = TB_MAYBE }.

Lemma searching_init : searching {[start]} ∅ TB_FALSE.
Proof.
  unfold searchUniverse. split; set_solver.
Qed.

Lemma searching_step backlog visited res c :
  searching backlog visited res -> c ∈ backlog -> c <> node ->
  let r := exploreNode qfun m c (backlog ∖ {[c]}) ({[c]} ∪ visited) res in
  searching r.1 ({[c]} ∪ visited) r.2.
Proof.
  intros [Hr Hs Hc Hf Hd Hu Hm Ht] Hin Hne r.
  destruct (exploreNode_spec c (backlog ∖ {[c]}) ({[c]} ∪ visited) res Ht) as (H1 & H2 & H3).
  fold r in H1, H2, H3.
  assert (Hin' : forall n, n ∈ r.1 ∪ ({[c]} ∪ visited) <->
    n ∈ backlog ∪ visited \/ trusts c n).
  { intros n. rewrite !elem_of_union, H1, elem_of_difference, elem_of_singleton.
    split.
    - intros [[[? _]|[? _]]|[->|?]]; auto.
    - destruct (decide (n = c)) as [->|Hnc]; [auto|].
      destruct (decide (n ∈ visited)); [auto|].
      intros [[?|?]|?]; [tauto..|]. left. right. split; [done|]. set_solver. }
  split.
  - intros n [Hn|Hn]%Hin'; [auto|]. eapply rtc_r; [apply Hr; by apply elem_of_union_l|done].
  - apply Hin'. auto.
  - intros a b [->%elem_of_singleton|Ha]%elem_of_union Hab; apply Hin'; eauto.
  - set_solver.
  - intros n Hn Hnv. apply H1 in Hn. set_solver.
  - intros n [Hn|Hn]%Hin'; [auto | by eapply trusts_universe].
  - rewrite H2, Hm. set_solver.
  - done.
Qed.

Context (pick : gset NodeID -> NodeID) (pick_in : forall s, s ≠ ∅ -> pick s ∈ s).

Lemma inQuorumLoop_spec fuel backlog visited res :
  searching backlog visited res ->
  (size (searchUniverse start qfun m) < size visited + fuel)%nat ->
  exists r, inQuorumLoop pick fuel node qfun m backlog visited res = Some r /\
    (r = TB_TRUE <-> rtc trusts start node) /\
    (r = TB_MAYBE <-> ~ rtc trusts start node /\ exists a, rtc trusts start a /\ unknown a).
Proof.
  revert backlog visited res. induction fuel as [|fuel IH]; intros backlog visited res Hs Hfuel.
  { assert (size visited <= size (searchUniverse start qfun m))%nat; [|lia].
    apply subseteq_size. destruct Hs. set_solver. }
  cbn [inQuorumLoop]. case_decide as Hb.
  { subst backlog. exists res. split; [done|].
    assert (Hall : forall n, rtc trusts start n <-> n ∈ visited).
    { intros n. split.
      - revert n. apply (rtc_ind_r (fun n => n ∈ visited)).
        + pose proof (search_start _ _ _ Hs). set_solver.
        + intros n n' _ Hstep IHn. pose proof (search_closed _ _ _ Hs n n' IHn Hstep).
          set_solver.
      - intros Hn. apply (search_reach _ _ _ Hs). set_solver. }
    destruct Hs as [_ _ _ Hf _ _ Hm Ht]. rewrite Hall. setoid_rewrite Hall.
    split; [|rewrite Hm; naive_solver]. split; [intros ->; by destruct Ht | intros Hn; by destruct Hf]. }
  set (c := pick backlog). assert (c ∈ backlog) as Hc by (by apply pick_in).
  case_decide as Hcn.
  { exists TB_TRUE. assert (rtc trusts start node).
    { rewrite <- Hcn. apply (search_reach _ _ _ Hs). set_solver. }
    split; [done|]. split; [done|]. split; [done|tauto]. }
  pose proof (searching_step _ _ _ c Hs Hc Hcn) as Hs'.
  destruct (exploreNode _ _ _ _ _ _) as [backlog' res']. simpl in Hs'.
  apply IH; [done|].
  assert (c ∉ visited) by (pose proof (search_disjoint _ _ _ Hs); set_solver).
  rewrite (size_union {[c]}), size_singleton by set_solver. lia.
Qed.

End search.

(** Whatever element of the backlog each round takes, [isNodeInQuorum]
    terminates; it answers [TB_TRUE] exactly when the node is in the transitive
    quorum of the local node, and otherwise [TB_MAYBE] exactly when some node of
    that quorum has unknown statements or quorum sets. *)
Theorem isNodeInQuorum_is_reachability pick mNodeID node qfun m :
  (forall s, s ≠ ∅ -> pick s ∈ s) ->
  exists r, isNodeInQuorum pick mNodeID node qfun m = Some r /\
    (r = TB_TRUE <-> rtc (trusts qfun m) mNodeID node) /\
    (r = TB_MAYBE <-> ~ rtc (trusts qfun m) mNodeID node /\
       exists a, rtc (trusts qfun m) mNodeID a /\ unknown qfun m a).
Proof.
  intros Hpick. apply (inQuorumLoop_spec qfun m mNodeID node pick Hpick).
  - apply searching_init.
  - rewrite size_empty. lia.
Qed.

(** The first element in the order of the node ids. *)
Definition pickFirst (s : gset NodeID) : NodeID := hd 0%N (elements s).

Lemma pickFirst_in s : s ≠ ∅ -> pickFirst s ∈ s.
Proof.
  intros Hs. unfold pickFirst. destruct (elements s) as [|x l] eqn:E.
  - exfalso. apply Hs. by apply elements_empty_inv in E; apply leibniz_equiv in E.
  - apply elem_of_elements. rewrite E. left.
Qed.

Lemma isNodeInQuorum_is_reachability_witness :
  exists r, isNodeInQuorum pickFirst 1%N 3%N (fun _ => Some exampleQSet)
              (fmap (fun e => [statement e]) exampleMap) = Some r /\
    (r = TB_TRUE <-> rtc (trusts (fun _ => Some exampleQSet)
                           (fmap (fun e => [statement e]) exampleMap)) 1%N 3%N) /\
    (r = TB_MAYBE <-> ~ rtc (trusts (fun _ => Some exampleQSet)
                           (fmap (fun e => [statement e]) exampleMap)) 1%N 3%N /\
       exists a, rtc (trusts (fun _ => Some exampleQSet)
                           (fmap (fun e => [statement e]) exampleMap)) 1%N a /\
         unknown (fun _ => Some exampleQSet) (fmap (fun e => [statement e]) exampleMap) a).
Proof. apply isNodeInQuorum_is_reachability. exact pickFirst_in. Defined.
