(* ===== verification/SlotState.v ===== *)
(** * The state of a slot and what it is given

    The members of [BallotProtocol], [NominationProtocol] and [Slot]
    ([src/src/scp/*.h]) as records, the driver that SCP calls back
    ([SCPDriver.h]) and the local node it works for.

    The driver is code outside this component: its answers are the functions of
    [SCPDriver], which may be different at every call of the slot, and what it is
    told is the list of [DriverEvent]s the slot has produced.  Its default timeout
    is [computeTimeout]. *)

From Stdlib Require Import ZArith Lia String.
From stdpp Require Import base tactics gmap option list.
From S2P Require Import Prelude ScpTypes LocalNode.

Open Scope Z_scope.

Inductive SCPPhase := SCP_PHASE_PREPARE | SCP_PHASE_CONFIRM | SCP_PHASE_EXTERNALIZE.

#[export] Instance SCPPhase_eq_dec : EqDecision SCPPhase.
Proof. solve_decision. Defined.

Definition phase_rank (p : SCPPhase) : Z :=
  match p with SCP_PHASE_PREPARE => 0 | SCP_PHASE_CONFIRM => 1 | SCP_PHASE_EXTERNALIZE => 2 end.

(** What the slot tells the driver. *)
Inductive DriverEvent :=
| emitEnvelope (e : SCPEnvelope)
| valueExternalized (v : Value)
| nominatingValue (v : Value)
| updatedCandidateValue (v : Value)
| startedBallotProtocol (b : SCPBallot)
| acceptedBallotPrepared (b : SCPBallot)
| confirmedBallotPrepared (b : SCPBallot)
| acceptedCommit (b : SCPBallot)
| ballotDidHearFromQuorum (b : SCPBallot)
| setupTimer (timerID : Z) (timeout_ms : Z).

(** What the slot asks the driver. *)
Record SCPDriver := mkDriver {
  getQSet : Hash -> option SCPQuorumSet;
  validateValue : Z -> Value -> ValidationLevel;
  extractValidValue : Z -> Value -> Value;
  combineCandidates : Z -> gset Value -> Value;
  signEnvelope : SCPStatement -> list N;
  verifyEnvelope : SCPEnvelope -> bool;
  computeHashNode : Z -> Value -> bool -> Z -> NodeID -> Z;
  computeValueHash : Z -> Value -> Z -> Value -> Z }.

Record LocalNode := mkLocalNode {
  mNodeID : NodeID;
  mIsValidator : bool;
  mQSet : SCPQuorumSet;
  mQSetHash : Hash }.

(** What a call works with: the driver's answers, the local node, the slot's
    index, whether the build compiles [dbgAssert] away, and the fuel of the
    loop of [advanceSlot]. *)
Record Ctx := mkCtx {
  driver : SCPDriver;
  localNode : LocalNode;
  mSlotIndex : Z;
  NDEBUG : bool;
  bumpFuel : nat }.

Definition MAX_TIMEOUT_SECONDS : Z := 30 * 60.

(** [SCPDriver::computeTimeout], in milliseconds. *)
Definition computeTimeout (roundNumber : Z) : Z :=
  1000 * (if MAX_TIMEOUT_SECONDS <? roundNumber then MAX_TIMEOUT_SECONDS else roundNumber).

Definition NOMINATION_TIMER : Z := 0.
Definition BALLOT_PROTOCOL_TIMER : Z := 1.

(** ** The state

    A [unique_ptr] to a ballot is an [option].  The two [shared_ptr]s to the
    last envelopes are compared as pointers, so they carry the number of the
    allocation that made them ([nextPtr] of the slot counts them). *)

Record BallotProtocol := mkBallotProtocol {
  mHeardFromQuorum : bool;
  mPhase : SCPPhase;
  mCurrentBallot : option SCPBallot;
  mPrepared : option SCPBallot;
  mPreparedPrime : option SCPBallot;
  mHighBallot : option SCPBallot;
  mCommit : option SCPBallot;
  mLatestEnvelopes : gmap NodeID SCPEnvelope;
  mCurrentMessageLevel : Z;
  mLastEnvelope : option (nat * SCPEnvelope);
  mLastEnvelopeEmit : option (nat * SCPEnvelope) }.

Definition set_mHeardFromQuorum (x : bool) (s : BallotProtocol) : BallotProtocol :=
  mkBallotProtocol x (mPhase s) (mCurrentBallot s) (mPrepared s) (mPreparedPrime s) (mHighBallot s) (mCommit s) (mLatestEnvelopes s) (mCurrentMessageLevel s) (mLastEnvelope s) (mLastEnvelopeEmit s).
Definition set_mPhase (x : SCPPhase) (s : BallotProtocol) : BallotProtocol :=
  mkBallotProtocol (mHeardFromQuorum s) x (mCurrentBallot s) (mPrepared s) (mPreparedPrime s) (mHighBallot s) (mCommit s) (mLatestEnvelopes s) (mCurrentMessageLevel s) (mLastEnvelope s) (mLastEnvelopeEmit s).
Definition set_mCurrentBallot (x : option SCPBallot) (s : BallotProtocol) : BallotProtocol :=
  mkBallotProtocol (mHeardFromQuorum s) (mPhase s) x (mPrepared s) (mPreparedPrime s) (mHighBallot s) (mCommit s) (mLatestEnvelopes s) (mCurrentMessageLevel s) (mLastEnvelope s) (mLastEnvelopeEmit s).
Definition set_mPrepared (x : option SCPBallot) (s : BallotProtocol) : BallotProtocol :=
  mkBallotProtocol (mHeardFromQuorum s) (mPhase s) (mCurrentBallot s) x (mPreparedPrime s) (mHighBallot s) (mCommit s) (mLatestEnvelopes s) (mCurrentMessageLevel s) (mLastEnvelope s) (mLastEnvelopeEmit s).
Definition set_mPreparedPrime (x : option SCPBallot) (s : BallotProtocol) : BallotProtocol :=
  mkBallotProtocol (mHeardFromQuorum s) (mPhase s) (mCurrentBallot s) (mPrepared s) x (mHighBallot s) (mCommit s) (mLatestEnvelopes s) (mCurrentMessageLevel s) (mLastEnvelope s) (mLastEnvelopeEmit s).
Definition set_mHighBallot (x : option SCPBallot) (s : BallotProtocol) : BallotProtocol :=
  mkBallotProtocol (mHeardFromQuorum s) (mPhase s) (mCurrentBallot s) (mPrepared s) (mPreparedPrime s) x (mCommit s) (mLatestEnvelopes s) (mCurrentMessageLevel s) (mLastEnvelope s) (mLastEnvelopeEmit s).
Definition set_mCommit (x : option SCPBallot) (s : BallotProtocol) : BallotProtocol :=
  mkBallotProtocol (mHeardFromQuorum s) (mPhase s) (mCurrentBallot s) (mPrepared s) (mPreparedPrime s) (mHighBallot s) x (mLatestEnvelopes s) (mCurrentMessageLevel s) (mLastEnvelope s) (mLastEnvelopeEmit s).
Definition set_mLatestEnvelopes (x : gmap NodeID SCPEnvelope) (s : BallotProtocol) : BallotProtocol :=
  mkBallotProtocol (mHeardFromQuorum s) (mPhase s) (mCurrentBallot s) (mPrepared s) (mPreparedPrime s) (mHighBallot s) (mCommit s) x (mCurrentMessageLevel s) (mLastEnvelope s) (mLastEnvelopeEmit s).
Definition set_mCurrentMessageLevel (x : Z) (s : BallotProtocol) : BallotProtocol :=
  mkBallotProtocol (mHeardFromQuorum s) (mPhase s) (mCurrentBallot s) (mPrepared s) (mPreparedPrime s) (mHighBallot s) (mCommit s) (mLatestEnvelopes s) x (mLastEnvelope s) (mLastEnvelopeEmit s).
Definition set_mLastEnvelope (x : option (nat * SCPEnvelope)) (s : BallotProtocol) : BallotProtocol :=
  mkBallotProtocol (mHeardFromQuorum s) (mPhase s) (mCurrentBallot s) (mPrepared s) (mPreparedPrime s) (mHighBallot s) (mCommit s) (mLatestEnvelopes s) (mCurrentMessageLevel s) x (mLastEnvelopeEmit s).
Definition set_mLastEnvelopeEmit (x : option (nat * SCPEnvelope)) (s : BallotProtocol) : BallotProtocol :=
  mkBallotProtocol (mHeardFromQuorum s) (mPhase s) (mCurrentBallot s) (mPrepared s) (mPreparedPrime s) (mHighBallot s) (mCommit s) (mLatestEnvelopes s) (mCurrentMessageLevel s) (mLastEnvelope s) x.

Record NominationProtocol := mkNominationProtocol {
  mRoundNumber : Z;
  mVotes : gset Value;
  mAccepted : gset Value;
  mCandidates : gset Value;
  mLatestNominations : gmap NodeID SCPEnvelope;
  mLastNomination : option SCPEnvelope;
  mRoundLeaders : gset NodeID;
  mNominationStarted : bool;
  mLatestCompositeCandidate : Value;
  mPreviousValue : Value }.

Definition set_mRoundNumber (x : Z) (s : NominationProtocol) : NominationProtocol :=
  mkNominationProtocol x (mVotes s) (mAccepted s) (mCandidates s) (mLatestNominations s) (mLastNomination s) (mRoundLeaders s) (mNominationStarted s) (mLatestCompositeCandidate s) (mPreviousValue s).
Definition set_mVotes (x : gset Value) (s : NominationProtocol) : NominationProtocol :=
  mkNominationProtocol (mRoundNumber s) x (mAccepted s) (mCandidates s) (mLatestNominations s) (mLastNomination s) (mRoundLeaders s) (mNominationStarted s) (mLatestCompositeCandidate s) (mPreviousValue s).
Definition set_mAccepted (x : gset Value) (s : NominationProtocol) : NominationProtocol :=
  mkNominationProtocol (mRoundNumber s) (mVotes s) x (mCandidates s) (mLatestNominations s) (mLastNomination s) (mRoundLeaders s) (mNominationStarted s) (mLatestCompositeCandidate s) (mPreviousValue s).
Definition set_mCandidates (x : gset Value) (s : NominationProtocol) : NominationProtocol :=
  mkNominationProtocol (mRoundNumber s) (mVotes s) (mAccepted s) x (mLatestNominations s) (mLastNomination s) (mRoundLeaders s) (mNominationStarted s) (mLatestCompositeCandidate s) (mPreviousValue s).
Definition set_mLatestNominations (x : gmap NodeID SCPEnvelope) (s : NominationProtocol) : NominationProtocol :=
  mkNominationProtocol (mRoundNumber s) (mVotes s) (mAccepted s) (mCandidates s) x (mLastNomination s) (mRoundLeaders s) (mNominationStarted s) (mLatestCompositeCandidate s) (mPreviousValue s).
Definition set_mLastNomination (x : option SCPEnvelope) (s : NominationProtocol) : NominationProtocol :=
  mkNominationProtocol (mRoundNumber s) (mVotes s) (mAccepted s) (mCandidates s) (mLatestNominations s) x (mRoundLeaders s) (mNominationStarted s) (mLatestCompositeCandidate s) (mPreviousValue s).
Definition set_mRoundLeaders (x : gset NodeID) (s : NominationProtocol) : NominationProtocol :=
  mkNominationProtocol (mRoundNumber s) (mVotes s) (mAccepted s) (mCandidates s) (mLatestNominations s) (mLastNomination s) x (mNominationStarted s) (mLatestCompositeCandidate s) (mPreviousValue s).
Definition set_mNominationStarted (x : bool) (s : NominationProtocol) : NominationProtocol :=
  mkNominationProtocol (mRoundNumber s) (mVotes s) (mAccepted s) (mCandidates s) (mLatestNominations s) (mLastNomination s) (mRoundLeaders s) x (mLatestCompositeCandidate s) (mPreviousValue s).
Definition set_mLatestCompositeCandidate (x : Value) (s : NominationProtocol) : NominationProtocol :=
  mkNominationProtocol (mRoundNumber s) (mVotes s) (mAccepted s) (mCandidates s) (mLatestNominations s) (mLastNomination s) (mRoundLeaders s) (mNominationStarted s) x (mPreviousValue s).
Definition set_mPreviousValue (x : Value) (s : NominationProtocol) : NominationProtocol :=
  mkNominationProtocol (mRoundNumber s) (mVotes s) (mAccepted s) (mCandidates s) (mLatestNominations s) (mLastNomination s) (mRoundLeaders s) (mNominationStarted s) (mLatestCompositeCandidate s) x.

(** [events] grows at its end. *)
Record SlotState := mkSlotState {
  ballotProtocol : BallotProtocol;
  nominationProtocol : NominationProtocol;
  mStatementsHistory : list (SCPStatement * bool);
  mFullyValidated : bool;
  nextPtr : nat;
  events : list DriverEvent }.

Definition set_ballotProtocol (x : BallotProtocol) (s : SlotState) : SlotState :=
  mkSlotState x (nominationProtocol s) (mStatementsHistory s) (mFullyValidated s) (nextPtr s) (events s).
Definition set_nominationProtocol (x : NominationProtocol) (s : SlotState) : SlotState :=
  mkSlotState (ballotProtocol s) x (mStatementsHistory s) (mFullyValidated s) (nextPtr s) (events s).
Definition set_mStatementsHistory (x : list (SCPStatement * bool)) (s : SlotState) : SlotState :=
  mkSlotState (ballotProtocol s) (nominationProtocol s) x (mFullyValidated s) (nextPtr s) (events s).
Definition set_mFullyValidated (x : bool) (s : SlotState) : SlotState :=
  mkSlotState (ballotProtocol s) (nominationProtocol s) (mStatementsHistory s) x (nextPtr s) (events s).
Definition set_nextPtr (x : nat) (s : SlotState) : SlotState :=
  mkSlotState (ballotProtocol s) (nominationProtocol s) (mStatementsHistory s) (mFullyValidated s) x (events s).
Definition set_events (x : list DriverEvent) (s : SlotState) : SlotState :=
  mkSlotState (ballotProtocol s) (nominationProtocol s) (mStatementsHistory s) (mFullyValidated s) (nextPtr s) x.

(** The constructors. *)
Definition initBallotProtocol : BallotProtocol :=
  mkBallotProtocol true SCP_PHASE_PREPARE None None None None None ∅ 0 None None.

Definition initNominationProtocol : NominationProtocol :=
  mkNominationProtocol 0 ∅ ∅ ∅ ∅ None ∅ false [] [].

Definition initSlot (c : Ctx) : SlotState :=
  mkSlotState initBallotProtocol initNominationProtocol [] (mIsValidator (localNode c)) 0 [].

(** ** Effects of a slot *)

Definition getB : M SlotState BallotProtocol := fun s => Ret (ballotProtocol s) s.
Definition getN : M SlotState NominationProtocol := fun s => Ret (nominationProtocol s) s.
Definition modifyB (f : BallotProtocol -> BallotProtocol) : M SlotState () :=
  modify (fun s => set_ballotProtocol (f (ballotProtocol s)) s).
Definition modifyN (f : NominationProtocol -> NominationProtocol) : M SlotState () :=
  modify (fun s => set_nominationProtocol (f (nominationProtocol s)) s).
Definition tell (e : DriverEvent) : M SlotState () :=
  modify (fun s => set_events (events s ++ [e]) s).

(** [dbgAssert]: nothing in a release build; in a debug build the expression is
    evaluated and the program aborts when it is false. *)
Definition dbgAssert (c : Ctx) (e : M SlotState bool) : M SlotState () :=
  if NDEBUG c then mret () else b ← e; if (b : bool) then mret () else throw DbgAbort.
