(* ===== verification/Ballot.v ===== *)
(** * BallotProtocol

    [src/src/scp/BallotProtocol.cpp], with the [Slot] helpers it calls.  The
    member functions run on the state of the slot.  [BallotProtocol] processes
    the statements it emits through [Slot::processEnvelope], which calls back
    [BallotProtocol::processEnvelope]: the section takes that call as
    [slot_processEnvelope], and [Slot.v] ties the knot. *)

From Stdlib Require Import ZArith Lia String.
From stdpp Require Import base tactics gmap option list.
From S2P Require Import Prelude ScpTypes LocalNode SlotState.

Open Scope Z_scope.

Definition MAX_ADVANCE_SLOT_RECURSION : Z := 50.

(** ** Ballots *)

Definition compareBallots (b1 b2 : SCPBallot) : Z :=
  if counter b1 <? counter b2 then -1
  else if counter b2 <? counter b1 then 1
  else if bytes_ltb (value b1) (value b2) then -1
  else if bytes_ltb (value b2) (value b1) then 1
  else 0.

(** The flavour on pointers. *)
Definition compareBallots_ptr (b1 b2 : option SCPBallot) : Z :=
  match b1, b2 with
  | Some b1, Some b2 => compareBallots b1 b2
  | Some _, None => 1
  | None, Some _ => -1
  | None, None => 0
  end.

Definition areBallotsCompatible (b1 b2 : SCPBallot) : bool :=
  bool_decide (value b1 = value b2).

Definition areBallotsLessAndIncompatible (b1 b2 : SCPBallot) : bool :=
  (compareBallots b1 b2 <=? 0) && negb (areBallotsCompatible b1 b2).

Definition areBallotsLessAndCompatible (b1 b2 : SCPBallot) : bool :=
  (compareBallots b1 b2 <=? 0) && areBallotsCompatible b1 b2.

(** [std::set<SCPBallot>] orders ballots by counter, then value. *)
Definition ballot_leb (b1 b2 : SCPBallot) : bool :=
  if counter b1 =? counter b2 then bytes_leb (value b1) (value b2)
  else counter b1 <? counter b2.

#[export] Instance ballot_std_order : StdOrder SCPBallot.
Proof.
  refine {| std_le := fun a b => ballot_leb a b = true |}; unfold ballot_leb.
  - intros a b. apply _.
  - intros [n a] [n' b] [n'' c]; simpl.
    destruct (Z.eqb_spec n n'), (Z.eqb_spec n' n''), (Z.eqb_spec n n'');
      rewrite ?Z.ltb_lt; subst; try lia; eauto using bytes_leb_trans.
  - intros [n a] [n' b]; simpl. destruct (Z.eqb_spec n n'), (Z.eqb_spec n' n);
      rewrite ?Z.ltb_lt; subst; try lia. apply bytes_leb_total.
  - intros [n a] [n' b]; simpl. destruct (Z.eqb_spec n n'), (Z.eqb_spec n' n);
      rewrite ?Z.ltb_lt; subst; try lia. intros. f_equal. by apply bytes_leb_antisym.
Defined.

(** ** Statements

    The switches over the kind of a statement end in [default: abort()] or
    [dbgAbort()]: no NOMINATE statement gets to them, as [isStatementSane] aborts on
    one and the stored statements have passed it.  The pure functions below give
    such a statement a neutral answer. *)

(** A ballot statement that is newer than another one of the same node. *)
Definition isNewerStatement_st (oldst st : SCPStatement) : bool :=
  match pledges oldst, pledges st with
  | EXTERNALIZE _, EXTERNALIZE _ => false
  | CONFIRM oldC, CONFIRM c =>
      let compBallot := compareBallots (con_ballot oldC) (con_ballot c) in
      if compBallot <? 0 then true
      else if compBallot =? 0 then
        if con_nPrepared oldC =? con_nPrepared c then con_nH oldC <? con_nH c
        else con_nPrepared oldC <? con_nPrepared c
      else false
  | PREPARE oldPrep, PREPARE prep =>
      let compBallot := compareBallots (prep_ballot oldPrep) (prep_ballot prep) in
      if compBallot <? 0 then true
      else if compBallot =? 0 then
        let compBallot := compareBallots_ptr (prep_prepared oldPrep) (prep_prepared prep) in
        if compBallot <? 0 then true
        else if compBallot =? 0 then
          let compBallot :=
            compareBallots_ptr (prep_preparedPrime oldPrep) (prep_preparedPrime prep) in
          if compBallot <? 0 then true
          else if compBallot =? 0 then prep_nH oldPrep <? prep_nH prep
          else false
        else false
      else false
  | oldp, p => statement_type oldp <? statement_type p
  end.

Definition hasPreparedBallot (ballot : SCPBallot) (st : SCPStatement) : bool :=
  match pledges st with
  | PREPARE p =>
      match prep_prepared p with
      | Some b => areBallotsLessAndCompatible ballot b | None => false end ||
      match prep_preparedPrime p with
      | Some b => areBallotsLessAndCompatible ballot b | None => false end
  | CONFIRM c =>
      areBallotsLessAndCompatible ballot (mkBallot (con_nPrepared c) (value (con_ballot c)))
  | EXTERNALIZE e => areBallotsCompatible ballot (ext_commit e)
  | NOMINATE _ => false
  end.

(** The statement votes to prepare [ballot] (the first predicate of
    [attemptPreparedAccept]). *)
Definition votesPrepare (ballot : SCPBallot) (st : SCPStatement) : bool :=
  match pledges st with
  | PREPARE p => areBallotsLessAndCompatible ballot (prep_ballot p)
  | CONFIRM c => areBallotsCompatible ballot (con_ballot c)
  | EXTERNALIZE e => areBallotsCompatible ballot (ext_commit e)
  | NOMINATE _ => false
  end.

(** The statement commits the ballots of the interval. *)
Definition commitPredicate (ballot : SCPBallot) (check : Z * Z) (st : SCPStatement) : bool :=
  match pledges st with
  | PREPARE _ => false
  | CONFIRM c =>
      areBallotsCompatible ballot (con_ballot c) &&
      ((con_nCommit c <=? check.1) && (check.2 <=? con_nH c))
  | EXTERNALIZE e =>
      areBallotsCompatible ballot (ext_commit e) && (counter (ext_commit e) <=? check.1)
  | NOMINATE _ => false
  end.

(** The statement votes to commit the ballots of the interval (the first
    predicate of [attemptAcceptCommit]). *)
Definition votesCommit (ballot : SCPBallot) (cur : Z * Z) (st : SCPStatement) : bool :=
  match pledges st with
  | PREPARE p =>
      areBallotsCompatible ballot (prep_ballot p) && negb (prep_nC p =? 0) &&
      ((prep_nC p <=? cur.1) && (cur.2 <=? prep_nH p))
  | CONFIRM c => areBallotsCompatible ballot (con_ballot c) && (con_nCommit c <=? cur.1)
  | EXTERNALIZE e =>
      areBallotsCompatible ballot (ext_commit e) && (counter (ext_commit e) <=? cur.1)
  | NOMINATE _ => false
  end.

Definition bp_getCompanionQuorumSetHashFromStatement (st : SCPStatement) : Hash :=
  match pledges st with
  | PREPARE p => prep_quorumSetHash p
  | CONFIRM c => con_quorumSetHash c
  | EXTERNALIZE e => ext_commitQuorumSetHash e
  | NOMINATE _ => 0%N
  end.

Definition getWorkingBallot (st : SCPStatement) : SCPBallot :=
  match pledges st with
  | PREPARE p => prep_ballot p
  | CONFIRM c => mkBallot (con_nCommit c) (value (con_ballot c))
  | EXTERNALIZE e => ext_commit e
  | NOMINATE _ => emptyBallot
  end.

Definition opt_insert {A} `{Countable A} (x : option A) (s : gset A) : gset A :=
  match x with Some x => {[x]} ∪ s | None => s end.

(** The ballots a hint suggests. *)
Definition hintBallots (hint : SCPStatement) : gset SCPBallot :=
  match pledges hint with
  | PREPARE p =>
      opt_insert (prep_preparedPrime p) (opt_insert (prep_prepared p) {[prep_ballot p]})
  | CONFIRM c =>
      {[mkBallot (con_nPrepared c) (value (con_ballot c));
        mkBallot UINT32_MAX (value (con_ballot c))]}
  | EXTERNALIZE e => {[mkBallot UINT32_MAX (value (ext_commit e))]}
  | NOMINATE _ => ∅
  end.

Definition insert_if {A} `{Countable A} (b : bool) (x : A) (s : gset A) : gset A :=
  if b then {[x]} ∪ s else s.

(** The candidates one statement adds for one hint ballot. *)
Definition candidatesFrom (topVote : SCPBallot) (st : SCPStatement)
    (candidates : gset SCPBallot) : gset SCPBallot :=
  match pledges st with
  | PREPARE p =>
      let s := insert_if (areBallotsLessAndCompatible (prep_ballot p) topVote)
                 (prep_ballot p) candidates in
      let s := match prep_prepared p with
               | Some b => insert_if (areBallotsLessAndCompatible b topVote) b s
               | None => s end in
      match prep_preparedPrime p with
      | Some b => insert_if (areBallotsLessAndCompatible b topVote) b s
      | None => s end
  | CONFIRM c =>
      if areBallotsCompatible topVote (con_ballot c) then
        insert_if (con_nPrepared c <? counter topVote)
          (mkBallot (con_nPrepared c) (value topVote)) ({[topVote]} ∪ candidates)
      else candidates
  | EXTERNALIZE e =>
      insert_if (areBallotsCompatible topVote (ext_commit e)) topVote candidates
  | NOMINATE _ => candidates
  end.

(** [getPrepareCandidates]: the hint ballots from the highest, each against all
    the latest statements. *)
Definition getPrepareCandidates (hint : SCPStatement)
    (latest : gmap NodeID SCPEnvelope) : gset SCPBallot :=
  foldl (fun candidates topVote =>
    foldl (fun candidates e => candidatesFrom topVote (statement (snd e)) candidates)
      candidates (map_asc latest)) ∅ (set_desc (hintBallots hint)).

(** The interval boundaries one statement adds. *)
Definition boundariesFrom (ballot : SCPBallot) (st : SCPStatement) (res : gset Z) : gset Z :=
  match pledges st with
  | PREPARE p =>
      if areBallotsCompatible ballot (prep_ballot p) && negb (prep_nC p =? 0)
      then {[prep_nH p]} ∪ ({[prep_nC p]} ∪ res) else res
  | CONFIRM c =>
      if areBallotsCompatible ballot (con_ballot c)
      then {[con_nH c]} ∪ ({[con_nCommit c]} ∪ res) else res
  | EXTERNALIZE e =>
      if areBallotsCompatible ballot (ext_commit e)
      then {[UINT32_MAX]} ∪ ({[ext_nH e]} ∪ ({[counter (ext_commit e)]} ∪ res)) else res
  | NOMINATE _ => res
  end.

Definition getCommitBoundariesFromStatements (ballot : SCPBallot)
    (latest : gmap NodeID SCPEnvelope) : gset Z :=
  foldl (fun res e => boundariesFrom ballot (statement (snd e)) res) ∅ (map_asc latest).

(** The values of a statement that the driver must validate. *)
Definition statementValues (st : SCPStatement) : option (gset Value) :=
  match pledges st with
  | PREPARE p =>
      let s := if counter (prep_ballot p) =? 0 then ∅ else {[value (prep_ballot p)]} in
      Some (match prep_prepared p with Some b => {[value b]} ∪ s | None => s end)
  | CONFIRM c => Some {[value (con_ballot c)]}
  | EXTERNALIZE e => Some {[value (ext_commit e)]}
  | NOMINATE _ => None
  end.

Definition validateValues (c : Ctx) (st : SCPStatement) : ValidationLevel :=
  match statementValues st with
  | None => kInvalidValue
  | Some values =>
      foldl (fun res v =>
        match validateValue (driver c) (mSlotIndex c) v with
        | kFullyValidatedValue => res
        | kInvalidValue => kInvalidValue
        | kMaybeValidValue => kMaybeValidValue
        end) kFullyValidatedValue (set_asc values)
  end.

(** ** Slot helpers *)

Definition getQuorumSetFromStatement (c : Ctx) (st : SCPStatement) : option SCPQuorumSet :=
  match pledges st with
  | EXTERNALIZE _ => Some (getSingletonQSet (st_nodeID st))
  | PREPARE p => getQSet (driver c) (prep_quorumSetHash p)
  | CONFIRM p => getQSet (driver c) (con_quorumSetHash p)
  | NOMINATE p => getQSet (driver c) (nom_quorumSetHash p)
  end.

Definition federatedRatify (c : Ctx) (voted : SCPStatement -> bool)
    (envs : gmap NodeID SCPEnvelope) : M SlotState bool :=
  deref (isQuorum (mQSet (localNode c)) envs (getQuorumSetFromStatement c) voted).

Definition federatedAccept (c : Ctx) (voted accepted : SCPStatement -> bool)
    (envs : gmap NodeID SCPEnvelope) : M SlotState bool :=
  if isVBlocking_map (mQSet (localNode c)) envs accepted then mret true
  else deref (isQuorum (mQSet (localNode c)) envs (getQuorumSetFromStatement c)
                (fun st => accepted st || voted st)).

Definition createEnvelope (c : Ctx) (st : SCPStatement) : SCPEnvelope :=
  let mySt := mkStatement (mNodeID (localNode c)) (mSlotIndex c) (pledges st) in
  mkEnvelope mySt (signEnvelope (driver c) mySt).

Definition setFullyValidated (b : bool) : M SlotState () := modify (set_mFullyValidated b).

Definition recordStatement (st : SCPStatement) : M SlotState () :=
  modify (fun s => set_mStatementsHistory
    (mStatementsHistory s ++ [(st, mFullyValidated s)]) s).

Definition np_stopNomination : M SlotState () := modifyN (set_mNominationStarted false).

(** The composite candidate of the nomination. *)
Definition getLatestCompositeCandidate : M SlotState Value :=
  n ← getN; mret (mLatestCompositeCandidate n).

(** ** Member functions *)

Section ballot.
Context (c : Ctx).
Context (slot_processEnvelope : SCPEnvelope -> bool -> M SlotState EnvelopeState).

Definition bp_federatedAccept (voted accepted : SCPStatement -> bool) : M SlotState bool :=
  b ← getB; federatedAccept c voted accepted (mLatestEnvelopes b).

Definition bp_federatedRatify (voted : SCPStatement -> bool) : M SlotState bool :=
  b ← getB; federatedRatify c voted (mLatestEnvelopes b).

Definition isNewerStatement (nodeID : NodeID) (st : SCPStatement) : M SlotState bool :=
  b ← getB;
  mret match mLatestEnvelopes b !! nodeID with
       | None => true
       | Some oldp => isNewerStatement_st (statement oldp) st
       end.

Definition recordEnvelope (env : SCPEnvelope) : M SlotState () :=
  modifyB (fun b => set_mLatestEnvelopes
    (<[st_nodeID (statement env) := env]> (mLatestEnvelopes b)) b);;
  recordStatement (statement env).

(** The shape checks of a statement, quorum set apart. *)
Definition isStatementShapeSane (st : SCPStatement) (self : bool) : bool :=
  match pledges st with
  | PREPARE p =>
      (self || (0 <? counter (prep_ballot p))) &&
      match prep_preparedPrime p, prep_prepared p with
      | Some p', Some p => areBallotsLessAndIncompatible p' p
      | _, _ => true
      end &&
      ((prep_nH p =? 0) ||
       match prep_prepared p with Some b => prep_nH p <=? counter b | None => false end) &&
      ((prep_nC p =? 0) ||
       (negb (prep_nH p =? 0) && (prep_nH p <=? counter (prep_ballot p)) &&
        (prep_nC p <=? prep_nH p)))
  | CONFIRM p =>
      (0 <? counter (con_ballot p)) && (con_nH p <=? counter (con_ballot p)) &&
      (con_nCommit p <=? con_nH p)
  | EXTERNALIZE p =>
      (0 <? counter (ext_commit p)) && (counter (ext_commit p) <=? ext_nH p)
  | NOMINATE _ => false
  end.

Definition isStatementSane (st : SCPStatement) (self : bool) : M SlotState bool :=
  q ← deref (getQuorumSetFromStatement c st);
  if negb (isQuorumSetSane q false) then mret false
  else match pledges st with
       | NOMINATE _ => throw DbgAbort
       | _ => mret (isStatementShapeSane st self)
       end.

(** [areBallotsLessAndCompatible] on two members that must not be null. *)
Definition memberLessAndCompatible (f g : BallotProtocol -> option SCPBallot)
    : M SlotState bool :=
  b ← getB; x ← deref (f b); y ← deref (g b); mret (areBallotsLessAndCompatible x y).

Definition checkInvariants : M SlotState () :=
  b ← getB;
  match mCurrentBallot b with
  | Some x => dbgAssert c (mret (negb (counter x =? 0)))
  | None => mret ()
  end;;
  match mPrepared b, mPreparedPrime b with
  | Some p, Some p' => dbgAssert c (mret (areBallotsLessAndIncompatible p' p))
  | _, _ => mret ()
  end;;
  match mCommit b with
  | Some _ =>
      dbgAssert c (mret (bool_decide (is_Some (mCurrentBallot b))));;
      dbgAssert c (memberLessAndCompatible mCommit mHighBallot);;
      dbgAssert c (memberLessAndCompatible mHighBallot mCurrentBallot)
  | None => mret ()
  end;;
  match mPhase b with
  | SCP_PHASE_PREPARE => mret ()
  | SCP_PHASE_CONFIRM => dbgAssert c (mret (bool_decide (is_Some (mCommit b))))
  | SCP_PHASE_EXTERNALIZE =>
      dbgAssert c (mret (bool_decide (is_Some (mCommit b))));;
      dbgAssert c (mret (bool_decide (is_Some (mHighBallot b))))
  end.

Definition counter_or_0 (b : option SCPBallot) : Z :=
  match b with Some b => counter b | None => 0 end.

(** [createStatement(type)] for the type of the phase; the node and the slot are
    filled in by [createEnvelope]. *)
Definition createStatement (phase : SCPPhase) : M SlotState SCPStatement :=
  checkInvariants;;
  b ← getB;
  match phase with
  | SCP_PHASE_PREPARE =>
      mret (mkStatement 0 0 (PREPARE (mkPrepare (mQSetHash (localNode c))
        (default emptyBallot (mCurrentBallot b)) (mPrepared b) (mPreparedPrime b)
        (counter_or_0 (mCommit b)) (counter_or_0 (mHighBallot b)))))
  | SCP_PHASE_CONFIRM =>
      dbgAssert c (memberLessAndCompatible mCommit mHighBallot);;
      cur ← deref (mCurrentBallot b);
      p ← deref (mPrepared b);
      com ← deref (mCommit b);
      h ← deref (mHighBallot b);
      mret (mkStatement 0 0 (CONFIRM (mkConfirm cur (counter p) (counter com) (counter h)
        (mQSetHash (localNode c)))))
  | SCP_PHASE_EXTERNALIZE =>
      dbgAssert c (memberLessAndCompatible mCommit mHighBallot);;
      com ← deref (mCommit b);
      h ← deref (mHighBallot b);
      mret (mkStatement 0 0 (EXTERNALIZE (mkExternalize com (counter h)
        (mQSetHash (localNode c)))))
  end.

Definition sendLatestEnvelope : M SlotState () :=
  s ← get;
  let b := ballotProtocol s in
  match mLastEnvelope b with
  | Some (ptr, env) =>
      if (mCurrentMessageLevel b =? 0) && mFullyValidated s then
        if match mLastEnvelopeEmit b with
           | None => true
           | Some (ptrEmit, _) => negb (ptr =? ptrEmit)%nat
           end
        then modifyB (set_mLastEnvelopeEmit (mLastEnvelope b));; tell (emitEnvelope env)
        else mret ()
      else mret ()
  | None => mret ()
  end.

(** [std::make_shared<SCPEnvelope>(envelope)] stored in [mLastEnvelope]. *)
Definition storeLastEnvelope (env : SCPEnvelope) : M SlotState () :=
  s ← get;
  modify (set_nextPtr (S (nextPtr s)));;
  modifyB (set_mLastEnvelope (Some (nextPtr s, env))).

Definition moved_to_a_bad_state : exn := RuntimeError "moved to a bad state (ballot protocol)".

Definition emitCurrentStateStatement : M SlotState () :=
  b ← getB;
  st ← createStatement (mPhase b);
  let envelope := createEnvelope c st in
  let canEmit := bool_decide (is_Some (mCurrentBallot b)) in
  if decide (mLatestEnvelopes b !! mNodeID (localNode c) = Some envelope) then mret ()
  else
    res ← slot_processEnvelope envelope true;
    match res with
    | VALID =>
        b ← getB;
        if canEmit &&
           match mLastEnvelope b with
           | None => true
           | Some (_, last) => isNewerStatement_st (statement last) (statement envelope)
           end
        then storeLastEnvelope envelope;; sendLatestEnvelope
        else mret ()
    | INVALID => throw moved_to_a_bad_state
    end.

Definition startBallotProtocolTimer : M SlotState () :=
  b ← getB;
  cur ← deref (mCurrentBallot b);
  tell (setupTimer BALLOT_PROTOCOL_TIMER (computeTimeout (counter cur))).

Definition bumpToBallot (ballot : SCPBallot) (check : bool) : M SlotState () :=
  b ← getB;
  dbgAssert c (mret (negb (bool_decide (mPhase b = SCP_PHASE_EXTERNALIZE))));;
  (if check then
     dbgAssert c (mret match mCurrentBallot b with
                       | None => true
                       | Some cur => 0 <=? compareBallots ballot cur
                       end)
   else mret ());;
  let gotBumped := negb (bool_decide (mCurrentBallot b = Some ballot)) in
  modifyB (set_mCurrentBallot (Some ballot));;
  modifyB (set_mHeardFromQuorum false);;
  if gotBumped then startBallotProtocolTimer else mret ().

Definition updateCurrentIfNeeded : M SlotState () :=
  b ← getB;
  match mCurrentBallot b with
  | None => h ← deref (mHighBallot b); bumpToBallot h true
  | Some cur =>
      h ← deref (mHighBallot b);
      if compareBallots cur h <? 0 then bumpToBallot h true else mret ()
  end.

Definition prepareOrConfirm (p : SCPPhase) : bool :=
  match p with SCP_PHASE_EXTERNALIZE => false | _ => true end.

Definition updateCurrentValue (ballot : SCPBallot) : M SlotState bool :=
  b ← getB;
  if negb (prepareOrConfirm (mPhase b)) then mret false
  else
    match mCurrentBallot b with
    | None => bumpToBallot ballot true;; checkInvariants;; mret true
    | Some cur =>
        dbgAssert c (mret (compareBallots cur ballot <=? 0));;
        if match mCommit b with
           | Some com => negb (areBallotsCompatible com ballot) | None => false end
        then mret false
        else
          let comp := compareBallots cur ballot in
          if comp <? 0 then bumpToBallot ballot true;; checkInvariants;; mret true
          else if 0 <? comp then mret false
          else checkInvariants;; mret false
    end.

Definition bumpState_n (v : Value) (n : Z) : M SlotState bool :=
  b ← getB;
  if negb (prepareOrConfirm (mPhase b)) then mret false
  else
    let newb := mkBallot n match mHighBallot b with Some h => value h | None => v end in
    updated ← updateCurrentValue newb;
    if (updated : bool) then
      tell (startedBallotProtocol newb);; emitCurrentStateStatement;; mret true
    else mret false.

Definition bp_bumpState (v : Value) (force : bool) : M SlotState bool :=
  b ← getB;
  match mCurrentBallot b with
  | Some cur => if force then bumpState_n v (u32 (counter cur + 1)) else mret false
  | None => bumpState_n v 1
  end.

Definition bp_abandonBallot (n : Z) : M SlotState bool :=
  v ← getLatestCompositeCandidate;
  b ← getB;
  let v := if decide (v = []) then
             match mCurrentBallot b with Some cur => value cur | None => v end
           else v in
  if decide (v = []) then mret false
  else if n =? 0 then bp_bumpState v true else bumpState_n v n.

Definition ballotProtocolTimerExpired : M SlotState () :=
  b ← getB;
  if mHeardFromQuorum b then bp_abandonBallot 0;; mret () else startBallotProtocolTimer.

(** [setPrepared]: the new members and whether anything changed. *)
Definition setPrepared (ballot : SCPBallot) : M SlotState bool :=
  b ← getB;
  match mPrepared b with
  | None => modifyB (set_mPrepared (Some ballot));; mret true
  | Some p =>
      let comp := compareBallots p ballot in
      if comp <? 0 then
        (if negb (areBallotsCompatible p ballot)
         then modifyB (set_mPreparedPrime (Some p)) else mret ());;
        modifyB (set_mPrepared (Some ballot));; mret true
      else if 0 <? comp then
        if match mPreparedPrime b with
           | None => true | Some p' => compareBallots p' ballot <? 0 end
        then modifyB (set_mPreparedPrime (Some ballot));; mret true
        else mret false
      else mret false
  end.

Definition setPreparedAccept (ballot : SCPBallot) : M SlotState bool :=
  didWork ← setPrepared ballot;
  b ← getB;
  didWork ←
    match mCommit b, mHighBallot b with
    | Some _, Some h =>
        if match mPrepared b with
           | Some p => areBallotsLessAndIncompatible h p | None => false end ||
           match mPreparedPrime b with
           | Some p' => areBallotsLessAndIncompatible h p' | None => false end
        then
          dbgAssert c (mret (bool_decide (mPhase b = SCP_PHASE_PREPARE)));;
          modifyB (set_mCommit None);; mret true
        else mret (didWork : bool)
    | _, _ => mret didWork
    end;
  if (didWork : bool) then
    tell (acceptedBallotPrepared ballot);; emitCurrentStateStatement;; mret true
  else mret false.

(** The loop of [attemptPreparedAccept] over the candidates, highest first. *)
Fixpoint preparedAcceptLoop (candidates : list SCPBallot) : M SlotState bool :=
  match candidates with
  | [] => mret false
  | ballot :: rest =>
      b ← getB;
      skip ←
        match mPhase b with
        | SCP_PHASE_CONFIRM =>
            p ← deref (mPrepared b);
            if negb (areBallotsLessAndCompatible p ballot) then mret true
            else
              dbgAssert c (com ← deref (mCommit b); mret (areBallotsCompatible com ballot));;
              mret false
        | _ => mret false
        end;
      if (skip : bool) then preparedAcceptLoop rest
      else if match mPreparedPrime b with
              | Some p' => compareBallots ballot p' <=? 0 | None => false end
      then preparedAcceptLoop rest
      else if match mPrepared b with
              | Some p => areBallotsLessAndCompatible ballot p | None => false end
      then preparedAcceptLoop rest
      else
        accepted ← bp_federatedAccept (votesPrepare ballot) (hasPreparedBallot ballot);
        if (accepted : bool) then setPreparedAccept ballot else preparedAcceptLoop rest
  end.

Definition attemptPreparedAccept (hint : SCPStatement) : M SlotState bool :=
  b ← getB;
  if negb (prepareOrConfirm (mPhase b)) then mret false
  else preparedAcceptLoop (set_desc (getPrepareCandidates hint (mLatestEnvelopes b))).

Definition setPreparedConfirmed (newC newH : SCPBallot) : M SlotState bool :=
  b ← getB;
  didWork ←
    (if match mHighBallot b with None => true | Some h => 0 <? compareBallots newH h end
     then modifyB (set_mHighBallot (Some newH));; mret true else mret false);
  didWork ←
    (if negb (counter newC =? 0) then
       dbgAssert c (mret (bool_decide (mCommit b = None)));;
       modifyB (set_mCommit (Some newC));; mret true
     else mret (didWork : bool));
  if (didWork : bool) then
    updateCurrentIfNeeded;;
    tell (confirmedBallotPrepared newH);; emitCurrentStateStatement;; mret true
  else mret false.

(** The first loop of [attemptPreparedConfirmed]: the candidates from the first
    one that is ratified. *)
Fixpoint findNewH (mHigh : option SCPBallot) (candidates : list SCPBallot)
    : M SlotState (option (SCPBallot * list SCPBallot)) :=
  match candidates with
  | [] => mret None
  | ballot :: rest =>
      if match mHigh with Some h => 0 <=? compareBallots h ballot | None => false end
      then mret None
      else
        ratified ← bp_federatedRatify (hasPreparedBallot ballot);
        if (ratified : bool) then mret (Some (ballot, candidates)) else findNewH mHigh rest
  end.

(** The second loop: from [newH] down, as long as the candidates are ratified
    and not below [b]. *)
Fixpoint findNewC (b newC : SCPBallot) (candidates : list SCPBallot) : M SlotState SCPBallot :=
  match candidates with
  | [] => mret newC
  | ballot :: rest =>
      if compareBallots ballot b <? 0 then mret newC
      else
        ratified ← bp_federatedRatify (hasPreparedBallot ballot);
        if (ratified : bool) then findNewC b ballot rest else mret newC
  end.

Definition attemptPreparedConfirmed (hint : SCPStatement) : M SlotState bool :=
  b ← getB;
  match mPhase b, mPrepared b with
  | SCP_PHASE_PREPARE, Some p =>
      let candidates := set_desc (getPrepareCandidates hint (mLatestEnvelopes b)) in
      found ← findNewH (mHighBallot b) candidates;
      match found with
      | None => mret false
      | Some (newH, cur) =>
          let bal := default emptyBallot (mCurrentBallot b) in
          newC ←
            (if bool_decide (mCommit b = None) &&
                negb (areBallotsLessAndIncompatible newH p) &&
                match mPreparedPrime b with
                | Some p' => negb (areBallotsLessAndIncompatible newH p') | None => true end
             then findNewC bal emptyBallot cur
             else mret emptyBallot);
          setPreparedConfirmed newC newH
      end
  | _, _ => mret false
  end.

(** [findExtendedInterval]: the boundaries from the top. *)
Fixpoint findExtendedInterval (candidate : Z * Z) (boundaries : list Z)
    (pred : Z * Z -> M SlotState bool) : M SlotState (Z * Z) :=
  match boundaries with
  | [] => mret candidate
  | b :: rest =>
      if candidate.1 =? 0 then
        ok ← pred (b, b);
        findExtendedInterval (if (ok : bool) then (b, b) else candidate) rest pred
      else if candidate.2 <? b then findExtendedInterval candidate rest pred
      else
        ok ← pred (b, candidate.2);
        if (ok : bool) then findExtendedInterval (b, candidate.2) rest pred
        else mret candidate
  end.

Definition setAcceptCommit (com h : SCPBallot) : M SlotState bool :=
  b ← getB;
  didWork ←
    (if match mHighBallot b, mCommit b with
        | Some h0, Some c0 =>
            negb (compareBallots h0 h =? 0) || negb (compareBallots c0 com =? 0)
        | _, _ => true
        end
     then modifyB (set_mCommit (Some com));; modifyB (set_mHighBallot (Some h));; mret true
     else mret false);
  didWork ←
    match mPhase b with
    | SCP_PHASE_PREPARE =>
        modifyB (set_mPhase SCP_PHASE_CONFIRM);;
        match mCurrentBallot b with
        | Some cur => if negb (areBallotsLessAndCompatible h cur)
                      then bumpToBallot h false else mret ()
        | None => mret ()
        end;;
        modifyB (set_mPreparedPrime None);; mret true
    | _ => mret (didWork : bool)
    end;
  if (didWork : bool) then
    updateCurrentIfNeeded;;
    tell (acceptedCommit h);; emitCurrentStateStatement;; mret true
  else mret false.

(** The ballot a hint asks to commit. *)
Definition acceptCommitBallot (hint : SCPStatement) : option SCPBallot :=
  match pledges hint with
  | PREPARE p => if negb (prep_nC p =? 0)
                 then Some (mkBallot (prep_nH p) (value (prep_ballot p))) else None
  | CONFIRM p => Some (mkBallot (con_nH p) (value (con_ballot p)))
  | EXTERNALIZE e => Some (mkBallot (ext_nH e) (value (ext_commit e)))
  | NOMINATE _ => None
  end.

Definition attemptAcceptCommit (hint : SCPStatement) : M SlotState bool :=
  b ← getB;
  if negb (prepareOrConfirm (mPhase b)) then mret false
  else match acceptCommitBallot hint with
  | None => mret false
  | Some ballot =>
      skip ← match mPhase b with
             | SCP_PHASE_CONFIRM =>
                 h ← deref (mHighBallot b); mret (negb (areBallotsCompatible ballot h))
             | _ => mret false
             end;
      if (skip : bool) then mret false
      else
        let boundaries := getCommitBoundariesFromStatements ballot (mLatestEnvelopes b) in
        if decide (boundaries = ∅) then mret false
        else
          candidate ← findExtendedInterval (0, 0) (set_desc boundaries)
            (fun cur => bp_federatedAccept (votesCommit ballot cur) (commitPredicate ballot cur));
          if candidate.1 =? 0 then mret false
          else
            go ← match mPhase b with
                 | SCP_PHASE_CONFIRM =>
                     h ← deref (mHighBallot b); mret (counter h <? candidate.2)
                 | _ => mret true
                 end;
            if (go : bool)
            then setAcceptCommit (mkBallot candidate.1 (value ballot))
                                 (mkBallot candidate.2 (value ballot))
            else mret false
  end.

Definition setConfirmCommit (com h : SCPBallot) : M SlotState bool :=
  modifyB (set_mCommit (Some com));;
  modifyB (set_mHighBallot (Some h));;
  updateCurrentIfNeeded;;
  modifyB (set_mPhase SCP_PHASE_EXTERNALIZE);;
  emitCurrentStateStatement;;
  np_stopNomination;;
  b ← getB;
  com ← deref (mCommit b);
  tell (valueExternalized (value com));;
  mret true.

(** The ballot a hint asks to confirm. *)
Definition confirmCommitBallot (hint : SCPStatement) : option SCPBallot :=
  match pledges hint with
  | CONFIRM p => Some (mkBallot (con_nH p) (value (con_ballot p)))
  | EXTERNALIZE e => Some (mkBallot (ext_nH e) (value (ext_commit e)))
  | _ => None
  end.

Definition attemptConfirmCommit (hint : SCPStatement) : M SlotState bool :=
  b ← getB;
  match mPhase b, mHighBallot b, mCommit b with
  | SCP_PHASE_CONFIRM, Some _, Some com =>
      match confirmCommitBallot hint with
      | None => mret false
      | Some ballot =>
          if negb (areBallotsCompatible ballot com) then mret false
          else
            candidate ← findExtendedInterval (0, 0)
              (set_desc (getCommitBoundariesFromStatements ballot (mLatestEnvelopes b)))
              (fun cur => bp_federatedRatify (commitPredicate ballot cur));
            if candidate.1 =? 0 then mret false
            else setConfirmCommit (mkBallot candidate.1 (value ballot))
                                  (mkBallot candidate.2 (value ballot))
      end
  | _, _, _ => mret false
  end.

(** The counter at which a statement stands. *)
Definition statementCounter (st : SCPStatement) : Z :=
  match pledges st with
  | PREPARE p => counter (prep_ballot p)
  | CONFIRM p => counter (con_ballot p)
  | _ => UINT32_MAX
  end.

(** The statement is at a counter above [n]. *)
Definition aheadOf (n : Z) (st : SCPStatement) : bool :=
  match pledges st with
  | PREPARE p => n <? counter (prep_ballot p)
  | CONFIRM p => n <? counter (con_ballot p)
  | _ => negb (n =? UINT32_MAX)
  end.

Fixpoint bumpLoop (targetCounter : Z) (allCounters : list Z) : M SlotState bool :=
  match allCounters with
  | [] => mret false
  | n :: rest =>
      if n <? targetCounter then mret false
      else
        b ← getB;
        let vBlocking := isVBlocking_map (mQSet (localNode c)) (mLatestEnvelopes b) (aheadOf n) in
        if n =? targetCounter then
          if vBlocking then bumpLoop targetCounter rest else mret false
        else if vBlocking then bumpLoop targetCounter rest
        else bp_abandonBallot n
  end.

Definition attemptBump : M SlotState bool :=
  b ← getB;
  if negb (prepareOrConfirm (mPhase b)) then mret false
  else
    let targetCounter := counter_or_0 (mCurrentBallot b) in
    let allCounters := {[targetCounter]} ∪
      (list_to_set (map (fun e => statementCounter (statement e.2))
                        (map_asc (mLatestEnvelopes b))) : gset Z) in
    bumpLoop targetCounter (set_asc allCounters).

(** [do didBump = attemptBump(); while (didBump)]: whether any round bumped. *)
Fixpoint bumpWhile (fuel : nat) (didWork : bool) : M SlotState bool :=
  match fuel with
  | O => throw OutOfFuel
  | S fuel' =>
      didBump ← attemptBump;
      if (didBump : bool) then bumpWhile fuel' true else mret didWork
  end.

(** The statements that count as hearing from a node at the current ballot. *)
Definition atOrAbove (n : Z) (st : SCPStatement) : bool :=
  match pledges st with
  | PREPARE p => n <=? counter (prep_ballot p)
  | _ => true
  end.

Definition checkHeardFromQuorum : M SlotState () :=
  b ← getB;
  match mHeardFromQuorum b, mCurrentBallot b with
  | false, Some cur =>
      heard ← deref (isQuorum (mQSet (localNode c)) (mLatestEnvelopes b)
                       (getQuorumSetFromStatement c) (atOrAbove (counter cur)));
      if (heard : bool) then
        modifyB (set_mHeardFromQuorum true);; tell (ballotDidHearFromQuorum cur)
      else mret ()
  | _, _ => mret ()
  end.

Definition too_many_transitions : exn :=
  RuntimeError "maximum number of transitions reached in advanceSlot".

Definition advanceSlot (hint : SCPStatement) : M SlotState () :=
  modifyB (fun b => set_mCurrentMessageLevel (mCurrentMessageLevel b + 1) b);;
  b ← getB;
  (if MAX_ADVANCE_SLOT_RECURSION <=? mCurrentMessageLevel b
   then throw too_many_transitions else mret ());;
  checkHeardFromQuorum;;
  w1 ← attemptPreparedAccept hint;
  w2 ← attemptPreparedConfirmed hint;
  w3 ← attemptAcceptCommit hint;
  w4 ← attemptConfirmCommit hint;
  let didWork := (w1 || w2 || w3 || w4)%bool in
  b ← getB;
  didWork ← (if mCurrentMessageLevel b =? 1 then bumpWhile (bumpFuel c) didWork
             else mret didWork);
  modifyB (fun b => set_mCurrentMessageLevel (mCurrentMessageLevel b - 1) b);;
  if (didWork : bool) then sendLatestEnvelope else mret ().

Definition bp_processEnvelope (envelope : SCPEnvelope) (self : bool)
    : M SlotState EnvelopeState :=
  let st := statement envelope in
  dbgAssert c (mret (st_slotIndex st =? mSlotIndex c));;
  sane ← isStatementSane st self;
  if negb sane then mret INVALID
  else
    newer ← isNewerStatement (st_nodeID st) st;
    if negb newer then mret INVALID
    else
      match validateValues c st with
      | kInvalidValue => mret INVALID
      | validationRes =>
          b ← getB;
          match mPhase b with
          | SCP_PHASE_EXTERNALIZE =>
              com ← deref (mCommit b);
              if decide (value com = value (getWorkingBallot st))
              then recordEnvelope envelope;; mret VALID
              else mret INVALID
          | _ =>
              (if decide (validationRes = kMaybeValidValue)
               then setFullyValidated false else mret ());;
              recordEnvelope envelope;;
              advanceSlot st;;
              mret VALID
          end
      end.

Definition cannot_set_state : exn :=
  RuntimeError "Cannot set state after starting ballot protocol".

(** A counter of 0 stands for no ballot. *)
Definition ballot_if (n : Z) (v : Value) (old : option SCPBallot) : option SCPBallot :=
  if n =? 0 then old else Some (mkBallot n v).

Definition option_or {A} (x old : option A) : option A :=
  match x with Some _ => x | None => old end.

Definition bp_setStateFromEnvelope (e : SCPEnvelope) : M SlotState () :=
  b ← getB;
  (if decide (is_Some (mCurrentBallot b)) then throw cannot_set_state else mret ());;
  recordEnvelope e;;
  storeLastEnvelope e;;
  modifyB (fun b => set_mLastEnvelopeEmit (mLastEnvelope b) b);;
  match pledges (statement e) with
  | PREPARE p =>
      bumpToBallot (prep_ballot p) true;;
      modifyB (fun b => set_mPrepared (option_or (prep_prepared p) (mPrepared b)) b);;
      modifyB (fun b => set_mPreparedPrime (option_or (prep_preparedPrime p) (mPreparedPrime b)) b);;
      modifyB (fun b => set_mHighBallot
        (ballot_if (prep_nH p) (value (prep_ballot p)) (mHighBallot b)) b);;
      modifyB (fun b => set_mCommit
        (ballot_if (prep_nC p) (value (prep_ballot p)) (mCommit b)) b);;
      modifyB (set_mPhase SCP_PHASE_PREPARE)
  | CONFIRM p =>
      let v := value (con_ballot p) in
      bumpToBallot (con_ballot p) true;;
      modifyB (set_mPrepared (Some (mkBallot (con_nPrepared p) v)));;
      modifyB (set_mHighBallot (Some (mkBallot (con_nH p) v)));;
      modifyB (set_mCommit (Some (mkBallot (con_nCommit p) v)));;
      modifyB (set_mPhase SCP_PHASE_CONFIRM)
  | EXTERNALIZE p =>
      let v := value (ext_commit p) in
      bumpToBallot (mkBallot UINT32_MAX v) true;;
      modifyB (set_mPrepared (Some (mkBallot UINT32_MAX v)));;
      modifyB (set_mHighBallot (Some (mkBallot (ext_nH p) v)));;
      modifyB (set_mCommit (Some (ext_commit p)));;
      modifyB (set_mPhase SCP_PHASE_EXTERNALIZE)
  | NOMINATE _ => throw DbgAbort
  end.

(** Messages of the slot that this node may hand out: its own only when the slot
    is fully validated. *)
Definition bp_getCurrentState (s : SlotState) : list SCPEnvelope :=
  (base.filter (fun p => p.1 ≠ mNodeID (localNode c) \/ mFullyValidated s = true)
     (map_asc (mLatestEnvelopes (ballotProtocol s)))).*2.

(** [None] is a null [mCommit]. *)
Definition bp_getExternalizingState (s : SlotState) : option (list SCPEnvelope) :=
  let b := ballotProtocol s in
  match mPhase b with
  | SCP_PHASE_EXTERNALIZE =>
      com ← mCommit b;
      Some (base.filter (fun p : N * SCPEnvelope =>
        (if decide (p.1 = mNodeID (localNode c)) then mFullyValidated s
         else areBallotsCompatible (getWorkingBallot (statement p.2)) com) = true)
        (map_asc (mLatestEnvelopes b))).*2
  | _ => Some []
  end.

End ballot.
