(* ===== verification/Nomination.v ===== *)
(** * NominationProtocol

    [src/src/scp/NominationProtocol.cpp].  As in [Ballot.v], a nomination that
    the node emits is processed through [Slot::processEnvelope], which the
    section takes as [slot_processEnvelope]. *)

From Stdlib Require Import ZArith Lia String.
From stdpp Require Import base tactics gmap option list.
From S2P Require Import Prelude UtilTypes ScpTypes LocalNode SlotState Ballot.

Open Scope Z_scope.

(** [std::includes(v, p)] on sorted ranges. *)
Fixpoint includes (v p : list Value) : bool :=
  match p with
  | [] => true
  | y :: p' =>
      match v with
      | [] => false
      | x :: v' =>
          if bytes_ltb y x then false
          else if bytes_ltb x y then includes v' p else includes v' p'
      end
  end.

(** The result and [notEqual]. *)
Definition isSubsetHelper (p v : list Value) : bool * bool :=
  if (length p <=? length v)%nat then
    let res := includes v p in
    (res, if res then negb (length p =? length v)%nat else true)
  else (false, true).

Definition np_isNewerStatement_nom (oldst st : SCPNomination) : bool :=
  let (res, g) := isSubsetHelper (nom_votes oldst) (nom_votes st) in
  if res then
    let grows := g in
    let (res, g) := isSubsetHelper (nom_accepted oldst) (nom_accepted st) in
    if res then grows || g else false
  else false.

(** [std::is_sorted] *)
Fixpoint is_sorted (l : list Value) : bool :=
  match l with
  | x :: (y :: _) as l' => negb (bytes_ltb y x) && is_sorted l'
  | _ => true
  end.

(** The nomination of a statement; [pledges.nominate()] is only called on
    nominations. *)
Definition nominate_of (st : SCPStatement) : SCPNomination :=
  match pledges st with NOMINATE n => n | _ => mkNomination 0 [] [] end.

Definition acceptPredicate (v : Value) (st : SCPStatement) : bool :=
  bool_decide (v ∈ nom_accepted (nominate_of st)).

Definition votesNominate (v : Value) (st : SCPStatement) : bool :=
  bool_decide (v ∈ nom_votes (nominate_of st)).

(** The values [applyAll] visits. *)
Definition applyAll (nom : SCPNomination) : list Value := nom_votes nom ++ nom_accepted nom.

Definition np_getStatementValues (st : SCPStatement) : list Value := applyAll (nominate_of st).

Section nomination.
Context (c : Ctx).
Context (slot_processEnvelope : SCPEnvelope -> bool -> M SlotState EnvelopeState).

Definition np_validateValue (v : Value) : ValidationLevel :=
  validateValue (driver c) (mSlotIndex c) v.

Definition np_extractValidValue (v : Value) : Value :=
  extractValidValue (driver c) (mSlotIndex c) v.

Definition np_isNewerStatement (nodeID : NodeID) (st : SCPNomination) : M SlotState bool :=
  n ← getN;
  mret match mLatestNominations n !! nodeID with
       | None => true
       | Some oldp => np_isNewerStatement_nom (nominate_of (statement oldp)) st
       end.

Definition isSane (st : SCPStatement) : M SlotState bool :=
  let nom := nominate_of st in
  if negb (length (nom_votes nom) + length (nom_accepted nom) =? 0)%nat &&
     is_sorted (nom_votes nom) && is_sorted (nom_accepted nom)
  then q ← deref (getQuorumSetFromStatement c st); mret (isQuorumSetSane q false)
  else mret false.

Definition np_recordEnvelope (env : SCPEnvelope) : M SlotState () :=
  modifyN (fun n => set_mLatestNominations
    (<[st_nodeID (statement env) := env]> (mLatestNominations n)) n);;
  recordStatement (statement env).

Definition hashNode (isPriority : bool) (nodeID : NodeID) : M SlotState Z :=
  n ← getN;
  dbgAssert c (mret (negb (bool_decide (mPreviousValue n = []))));;
  mret (computeHashNode (driver c) (mSlotIndex c) (mPreviousValue n) isPriority
          (mRoundNumber n) nodeID).

Definition hashValue (v : Value) : M SlotState Z :=
  n ← getN;
  dbgAssert c (mret (negb (bool_decide (mPreviousValue n = []))));;
  mret (computeValueHash (driver c) (mSlotIndex c) (mPreviousValue n) (mRoundNumber n) v).

Definition getNodePriority (nodeID : NodeID) (qset : SCPQuorumSet) : M SlotState Z :=
  let w := getNodeWeight nodeID qset in
  h ← hashNode false nodeID;
  if h <? w then hashNode true nodeID else mret 0.

(** The nodes of the local quorum set, with the top priority so far. *)
Fixpoint leadersLoop (myQSet : SCPQuorumSet) (nodes : list NodeID) (topPriority : Z)
    : M SlotState () :=
  match nodes with
  | [] => mret ()
  | cur :: rest =>
      w ← getNodePriority cur myQSet;
      topPriority ← (if topPriority <? w
                     then modifyN (set_mRoundLeaders ∅);; mret w else mret topPriority);
      (if (w =? topPriority) && (0 <? w)
       then modifyN (fun n => set_mRoundLeaders ({[cur]} ∪ mRoundLeaders n) n) else mret ());;
      leadersLoop myQSet rest topPriority
  end.

Definition updateRoundLeaders : M SlotState () :=
  modifyN (set_mRoundLeaders ∅);;
  leadersLoop (mQSet (localNode c)) (forAllNodes (mQSet (localNode c))) 0.

(** The value to vote for instead of one that another node votes for; the empty
    value is none. *)
Definition valueToNominate (v : Value) : Value :=
  if decide (np_validateValue v = kFullyValidatedValue) then v else np_extractValidValue v.

Fixpoint newValueLoop (values : list Value) (newVote : Value) (newHash : Z)
    : M SlotState Value :=
  match values with
  | [] => mret newVote
  | v :: rest =>
      n ← getN;
      let candidate := valueToNominate v in
      if bool_decide (candidate = []) || bool_decide (candidate ∈ mVotes n)
      then newValueLoop rest newVote newHash
      else
        curHash ← hashValue candidate;
        if newHash <=? curHash then newValueLoop rest candidate curHash
        else newValueLoop rest newVote newHash
  end.

Definition getNewValueFromNomination (nom : SCPNomination) : M SlotState Value :=
  newValueLoop (applyAll nom) [] 0.

Definition moved_to_a_bad_nomination : exn := RuntimeError "moved to a bad state (nomination)".

Definition emitNomination : M SlotState () :=
  n ← getN;
  let nom := mkNomination (mQSetHash (localNode c)) (set_asc (mVotes n)) (set_asc (mAccepted n)) in
  let envelope := createEnvelope c (mkStatement (mNodeID (localNode c)) 0 (NOMINATE nom)) in
  res ← slot_processEnvelope envelope true;
  match res with
  | VALID =>
      s ← get;
      if match mLastNomination (nominationProtocol s) with
         | None => true
         | Some last => np_isNewerStatement_nom (nominate_of (statement last)) nom
         end
      then
        modifyN (set_mLastNomination (Some envelope));;
        if mFullyValidated s then tell (emitEnvelope envelope) else mret ()
      else mret ()
  | INVALID => throw moved_to_a_bad_nomination
  end.

(** The votes of a nomination that become accepted, or that make this node vote
    for a valid variation; whether anything changed. *)
Fixpoint promoteVotes (votes : list Value) (modified : bool) : M SlotState bool :=
  match votes with
  | [] => mret modified
  | v :: rest =>
      n ← getN;
      if decide (v ∈ mAccepted n) then promoteVotes rest modified
      else
        accepted ← federatedAccept c (votesNominate v) (acceptPredicate v) (mLatestNominations n);
        if (accepted : bool) then
          if decide (np_validateValue v = kFullyValidatedValue) then
            modifyN (fun n => set_mAccepted ({[v]} ∪ mAccepted n) n);;
            modifyN (fun n => set_mVotes ({[v]} ∪ mVotes n) n);;
            promoteVotes rest true
          else
            let toVote := np_extractValidValue v in
            if bool_decide (toVote = []) || bool_decide (toVote ∈ mVotes n)
            then promoteVotes rest modified
            else modifyN (fun n => set_mVotes ({[toVote]} ∪ mVotes n) n);; promoteVotes rest true
        else promoteVotes rest modified
  end.

(** Accepted values that become candidates; whether there is a new one. *)
Fixpoint promoteAccepted (accepted : list Value) (newCandidates : bool) : M SlotState bool :=
  match accepted with
  | [] => mret newCandidates
  | a :: rest =>
      n ← getN;
      if decide (a ∈ mCandidates n) then promoteAccepted rest newCandidates
      else
        ratified ← federatedRatify c (acceptPredicate a) (mLatestNominations n);
        if (ratified : bool) then
          modifyN (fun n => set_mCandidates ({[a]} ∪ mCandidates n) n);;
          promoteAccepted rest true
        else promoteAccepted rest newCandidates
  end.

Definition np_processEnvelope (envelope : SCPEnvelope) : M SlotState EnvelopeState :=
  let st := statement envelope in
  let nom := nominate_of st in
  newer ← np_isNewerStatement (st_nodeID st) nom;
  if negb newer then mret INVALID
  else
    sane ← isSane st;
    if negb sane then mret INVALID
    else
      np_recordEnvelope envelope;;
      n ← getN;
      if negb (mNominationStarted n) then mret VALID
      else
        modified ← promoteVotes (nom_votes nom) false;
        n ← getN;
        newCandidates ← promoteAccepted (set_asc (mAccepted n)) false;
        n ← getN;
        modified ←
          (if bool_decide (mCandidates n = ∅) && bool_decide (st_nodeID st ∈ mRoundLeaders n)
           then
             newVote ← getNewValueFromNomination nom;
             if decide (newVote = []) then mret (modified : bool)
             else modifyN (fun n => set_mVotes ({[newVote]} ∪ mVotes n) n);; mret true
           else mret modified);
        (if (modified : bool) then emitNomination else mret ());;
        (if (newCandidates : bool) then
           n ← getN;
           let composite := combineCandidates (driver c) (mSlotIndex c) (mCandidates n) in
           modifyN (set_mLatestCompositeCandidate composite);;
           tell (updatedCandidateValue composite);;
           bp_bumpState c slot_processEnvelope composite false;; mret ()
         else mret ());;
        mret VALID.

(** The values the round leaders nominate; the last one that was looked at, and
    whether a new one was found. *)
Fixpoint leaderVotes (leaders : list NodeID) (nominating : Value) (updated : bool)
    : M SlotState (Value * bool) :=
  match leaders with
  | [] => mret (nominating, updated)
  | leader :: rest =>
      n ← getN;
      match mLatestNominations n !! leader with
      | None => leaderVotes rest nominating updated
      | Some e =>
          nominating ← getNewValueFromNomination (nominate_of (statement e));
          if decide (nominating = []) then leaderVotes rest nominating updated
          else modifyN (fun n => set_mVotes ({[nominating]} ∪ mVotes n) n);;
               leaderVotes rest nominating true
      end
  end.

Definition np_nominate (v previousValue : Value) (timedout : bool) : M SlotState bool :=
  n ← getN;
  if timedout && negb (mNominationStarted n) then mret false
  else
    modifyN (set_mNominationStarted true);;
    modifyN (set_mPreviousValue previousValue);;
    modifyN (fun n => set_mRoundNumber (s32 (mRoundNumber n + 1)) n);;
    updateRoundLeaders;;
    n ← getN;
    r ← (if decide (mNodeID (localNode c) ∈ mRoundLeaders n) then
           modifyN (set_mVotes ({[v]} ∪ mVotes n));;
           mret (v, negb (bool_decide (v ∈ mVotes n)))
         else leaderVotes (set_asc (mRoundLeaders n)) [] false);
    n ← getN;
    tell (nominatingValue r.1);;
    tell (setupTimer NOMINATION_TIMER (computeTimeout (u32 (mRoundNumber n))));;
    (if (r.2 : bool) then emitNomination else mret ());;
    mret r.2.

Definition cannot_set_nomination : exn :=
  RuntimeError "Cannot set state after nomination is started".

Definition np_setStateFromEnvelope (e : SCPEnvelope) : M SlotState () :=
  n ← getN;
  (if mNominationStarted n then throw cannot_set_nomination else mret ());;
  np_recordEnvelope e;;
  let nom := nominate_of (statement e) in
  modifyN (fun n => set_mAccepted (list_to_set (nom_accepted nom) ∪ mAccepted n) n);;
  modifyN (fun n => set_mVotes (list_to_set (nom_votes nom) ∪ mVotes n) n);;
  modifyN (set_mLastNomination (Some e)).

Definition np_getCurrentState (s : SlotState) : list SCPEnvelope :=
  (base.filter (fun p => p.1 ≠ mNodeID (localNode c) \/ mFullyValidated s = true)
     (map_asc (mLatestNominations (nominationProtocol s)))).*2.

End nomination.
