(* ===== verification/Slot.v ===== *)
(** * Slot

    [src/src/scp/Slot.cpp]: the dispatch between the nomination and the ballot
    protocol, and the recursion between the two protocols and the slot.

    A nested call of [processEnvelope] is one the node makes on a statement it
    just created.  [fuel] bounds the nesting; [advanceSlot] itself throws at a
    nesting of [MAX_ADVANCE_SLOT_RECURSION]. *)

From Stdlib Require Import ZArith Lia String.
From stdpp Require Import base tactics gmap option list.
From S2P Require Import Prelude ScpTypes LocalNode SlotState Ballot Nomination.

Open Scope Z_scope.

(** The rethrown exceptions of the original are the exceptions themselves. *)
Fixpoint slot_processEnvelope (fuel : nat) (c : Ctx) (envelope : SCPEnvelope) (self : bool)
    : M SlotState EnvelopeState :=
  match fuel with
  | O => throw OutOfFuel
  | S fuel' =>
      dbgAssert c (mret (st_slotIndex (statement envelope) =? mSlotIndex c));;
      match pledges (statement envelope) with
      | NOMINATE _ => np_processEnvelope c (slot_processEnvelope fuel' c) envelope
      | _ => bp_processEnvelope c (slot_processEnvelope fuel' c) envelope self
      end
  end.

Definition slot_abandonBallot (fuel : nat) (c : Ctx) : M SlotState bool :=
  bp_abandonBallot c (slot_processEnvelope fuel c) 0.

Definition slot_bumpState (fuel : nat) (c : Ctx) (v : Value) (force : bool) : M SlotState bool :=
  bp_bumpState c (slot_processEnvelope fuel c) v force.

Definition slot_nominate (fuel : nat) (c : Ctx) (v previousValue : Value) (timedout : bool)
    : M SlotState bool :=
  np_nominate c (slot_processEnvelope fuel c) v previousValue timedout.

Definition slot_stopNomination : M SlotState () := np_stopNomination.

(** The callback of the ballot timer. *)
Definition slot_ballotTimer (fuel : nat) (c : Ctx) : M SlotState () :=
  ballotProtocolTimerExpired c (slot_processEnvelope fuel c).

Definition slot_setStateFromEnvelope (c : Ctx) (e : SCPEnvelope) : M SlotState () :=
  if decide (st_nodeID (statement e) = mNodeID (localNode c)) then
    if st_slotIndex (statement e) =? mSlotIndex c then
      match pledges (statement e) with
      | NOMINATE _ => np_setStateFromEnvelope e
      | _ => bp_setStateFromEnvelope c e
      end
    else mret ()
  else mret ().

Definition slot_getLatestMessagesSend (s : SlotState) : list SCPEnvelope :=
  if mFullyValidated s then
    option_list (mLastNomination (nominationProtocol s)) ++
    option_list (snd <$> mLastEnvelopeEmit (ballotProtocol s))
  else [].

Definition slot_getCurrentState (c : Ctx) (s : SlotState) : list SCPEnvelope :=
  np_getCurrentState c s ++ bp_getCurrentState c s.

Definition slot_getExternalizingState (c : Ctx) (s : SlotState) : option (list SCPEnvelope) :=
  bp_getExternalizingState c s.

(** All the envelopes, as if the slot were fully validated. *)
Definition slot_getEntireCurrentState (c : Ctx) (s : SlotState) : list SCPEnvelope :=
  slot_getCurrentState c (set_mFullyValidated true s).

Definition getCompanionQuorumSetHashFromStatement (st : SCPStatement) : Hash :=
  match pledges st with
  | PREPARE p => prep_quorumSetHash p
  | CONFIRM p => con_quorumSetHash p
  | EXTERNALIZE p => ext_commitQuorumSetHash p
  | NOMINATE p => nom_quorumSetHash p
  end.

Definition slot_getStatementValues (st : SCPStatement) : list Value :=
  match pledges st with
  | NOMINATE _ => np_getStatementValues st
  | _ => [value (getWorkingBallot st)]
  end.

(** The statements of each node, oldest first. *)
Definition statementsByNode (history : list (SCPStatement * bool))
    : gmap NodeID (list SCPStatement) :=
  foldl (fun m e => partial_alter (fun old => Some (default [] old ++ [e.1]))
                      (st_nodeID e.1) m) ∅ history.

Definition slot_isNodeInQuorum (c : Ctx) (pick : gset NodeID -> NodeID) (node : NodeID)
    (s : SlotState) : option TriBool :=
  isNodeInQuorum pick (mNodeID (localNode c)) node
    (fun st => getQSet (driver c) (getCompanionQuorumSetHashFromStatement st))
    (statementsByNode (mStatementsHistory s)).
