(* ===== verification/Scp.v ===== *)
(** * SCP

    [src/src/scp/SCP.cpp] and the mutable part of [LocalNode]: the slots the node
    knows, by index, and the operations that create, run and drop them.  The
    driver, the build's [NDEBUG], the hash of a quorum set (SHA-256 of its XDR
    form) and the fuels are what the section takes. *)

From Stdlib Require Import ZArith Lia String.
From stdpp Require Import base tactics gmap option list.
From S2P Require Import Prelude ScpTypes LocalNode SlotState Ballot Nomination Slot.

Open Scope Z_scope.

Record SCP := mkSCP {
  mLocalNode : LocalNode;
  mKnownSlots : gmap Z SlotState }.

Definition set_mKnownSlots (x : gmap Z SlotState) (s : SCP) : SCP := mkSCP (mLocalNode s) x.
Definition set_mLocalNode (x : LocalNode) (s : SCP) : SCP := mkSCP x (mKnownSlots s).

Section scp.
Context (d : SCPDriver) (ndebug : bool) (loopFuel fuel : nat).
Context (qSetHash : SCPQuorumSet -> Hash).

(** [LocalNode::LocalNode]. *)
Definition makeLocalNode (nodeID : NodeID) (isValidator : bool) (qSet : SCPQuorumSet)
    : LocalNode :=
  let q := normalizeQSet qSet in mkLocalNode nodeID isValidator q (qSetHash q).

(** [SCP::SCP]. *)
Definition makeSCP (nodeID : NodeID) (isValidator : bool) (qSetLocal : SCPQuorumSet) : SCP :=
  mkSCP (makeLocalNode nodeID isValidator qSetLocal) ∅.

Definition slotCtx (s : SCP) (slotIndex : Z) : Ctx :=
  mkCtx d (mLocalNode s) slotIndex ndebug loopFuel.

(** [getSlot]: whether there is a slot after the call. *)
Definition getSlot (slotIndex : Z) (create : bool) : M SCP bool := fun s =>
  match mKnownSlots s !! slotIndex with
  | Some _ => Ret true s
  | None =>
      if create
      then Ret true (set_mKnownSlots
             (<[slotIndex := initSlot (slotCtx s slotIndex)]> (mKnownSlots s)) s)
      else Ret false s
  end.

(** A member function of a slot, called through the pointer [getSlot] gave. *)
Definition onSlot {A} (slotIndex : Z) (f : Ctx -> M SlotState A) : M SCP A := fun s =>
  match mKnownSlots s !! slotIndex with
  | None => Exn NullDeref s
  | Some sl =>
      match f (slotCtx s slotIndex) sl with
      | Ret a sl' => Ret a (set_mKnownSlots (<[slotIndex := sl']> (mKnownSlots s)) s)
      | Exn e sl' => Exn e (set_mKnownSlots (<[slotIndex := sl']> (mKnownSlots s)) s)
      end
  end.

Definition receiveEnvelope (envelope : SCPEnvelope) : M SCP EnvelopeState :=
  if negb (verifyEnvelope d envelope) then mret INVALID
  else
    let slotIndex := st_slotIndex (statement envelope) in
    getSlot slotIndex true;;
    onSlot slotIndex (fun c => slot_processEnvelope fuel c envelope false).

Definition assertValidator : M SCP () :=
  s ← get;
  if ndebug || mIsValidator (mLocalNode s) then mret () else throw DbgAbort.

Definition abandonBallot (slotIndex : Z) : M SCP bool :=
  assertValidator;;
  getSlot slotIndex true;;
  onSlot slotIndex (fun c => slot_abandonBallot fuel c).

Definition nominate (slotIndex : Z) (v previousValue : Value) : M SCP bool :=
  assertValidator;;
  getSlot slotIndex true;;
  onSlot slotIndex (fun c => slot_nominate fuel c v previousValue false).

Definition stopNomination (slotIndex : Z) : M SCP () :=
  found ← getSlot slotIndex false;
  if (found : bool) then onSlot slotIndex (fun _ => slot_stopNomination) else mret ().

Definition updateLocalQuorumSet (qSet : SCPQuorumSet) : M SCP () :=
  modify (fun s => set_mLocalNode
    (mkLocalNode (mNodeID (mLocalNode s)) (mIsValidator (mLocalNode s)) qSet (qSetHash qSet)) s).

(** The [while] loop over the map, erasing as it goes. *)
Definition purgeSlots (maxSlotIndex : Z) : M SCP () :=
  modify (fun s => set_mKnownSlots
    (foldl (fun m e => if e.1 <? maxSlotIndex then delete e.1 m else m)
           (mKnownSlots s) (map_asc (mKnownSlots s))) s).

Definition setStateFromEnvelope (slotIndex : Z) (e : SCPEnvelope) : M SCP () :=
  if verifyEnvelope d e then
    getSlot slotIndex true;;
    onSlot slotIndex (fun c => slot_setStateFromEnvelope c e)
  else mret ().

(** The timers of a slot, which run when the driver says so. *)
Definition ballotTimerExpired (slotIndex : Z) : M SCP () :=
  onSlot slotIndex (fun c => slot_ballotTimer fuel c).

Definition nominationTimerExpired (slotIndex : Z) (v previousValue : Value) : M SCP bool :=
  onSlot slotIndex (fun c => slot_nominate fuel c v previousValue true).

(** ** What can be asked *)

Definition getKnownSlotsCount (s : SCP) : nat := size (mKnownSlots s).

Definition getCumulativeStatemtCount (s : SCP) : nat :=
  foldl (fun c e => c + length (mStatementsHistory e.2))%nat 0%nat (map_asc (mKnownSlots s)).

Definition getLatestMessagesSend (s : SCP) (slotIndex : Z) : list SCPEnvelope :=
  match mKnownSlots s !! slotIndex with
  | Some sl => slot_getLatestMessagesSend sl
  | None => []
  end.

Definition getCurrentState (s : SCP) (slotIndex : Z) : list SCPEnvelope :=
  match mKnownSlots s !! slotIndex with
  | Some sl => slot_getCurrentState (slotCtx s slotIndex) sl
  | None => []
  end.

Definition getExternalizingState (s : SCP) (slotIndex : Z) : option (list SCPEnvelope) :=
  match mKnownSlots s !! slotIndex with
  | Some sl => slot_getExternalizingState (slotCtx s slotIndex) sl
  | None => Some []
  end.

(** The first slot that can tell. *)
Fixpoint isNodeInQuorumLoop (pick : gset NodeID -> NodeID) (s : SCP) (node : NodeID)
    (slots : list (Z * SlotState)) (res : TriBool) : option TriBool :=
  match slots with
  | [] => Some res
  | (i, sl) :: rest =>
      res ← slot_isNodeInQuorum (slotCtx s i) pick node sl;
      match res with
      | TB_MAYBE => isNodeInQuorumLoop pick s node rest res
      | _ => Some res
      end
  end.

Definition scp_isNodeInQuorum (pick : gset NodeID -> NodeID) (s : SCP) (node : NodeID)
    : option TriBool :=
  isNodeInQuorumLoop pick s node (map_asc (mKnownSlots s)) TB_MAYBE.

End scp.
