(* ===== verification/BallotFacts.v ===== *)
(** * Facts on ballots and ballot statements

    The order of ballots, the order of the statements of a node, the sets of
    candidates and the search for an interval of commits: the pure part of
    [Ballot.v]. *)

From Stdlib Require Import ZArith Lia String.
From stdpp Require Import sorting.
From stdpp Require Import base tactics gmap option list.
From S2P Require Import Prelude ScpTypes LocalNode LocalNodeFacts SlotState Ballot Nomination.

Open Scope Z_scope.

(** ** The order of ballots *)

Lemma bytes_leb_refl a : bytes_leb a a = true.
Proof. destruct (bytes_leb_total a a); done. Qed.

Lemma bytes_ltb_irrefl a : bytes_ltb a a = false.
Proof. unfold bytes_ltb. by rewrite bytes_leb_refl. Qed.

Lemma compareBallots_leb a b : (compareBallots a b <= 0) <-> ballot_leb a b = true.
Proof.
  unfold compareBallots, ballot_leb, bytes_ltb. destruct a as [n v], b as [m w]; simpl.
  destruct (Z.ltb_spec n m), (Z.ltb_spec m n), (Z.eqb_spec n m); try lia; try (by split; [|lia]); try (by split; [lia|]).
  pose proof (bytes_leb_total v w). destruct (bytes_leb v w), (bytes_leb w v); simpl;
    split; try done; intuition (try lia; try done).
Qed.

Lemma compareBallots_opp a b : compareBallots b a = - compareBallots a b.
Proof.
  unfold compareBallots, bytes_ltb. destruct a as [n v], b as [m w]; simpl.
  destruct (Z.ltb_spec n m), (Z.ltb_spec m n); try lia.
  pose proof (bytes_leb_total v w). destruct (bytes_leb v w), (bytes_leb w v); simpl; try lia; intuition done.
Qed.

Lemma compareBallots_eq a b : compareBallots a b = 0 <-> a = b.
Proof.
  split.
  - intros H. apply (std_le_antisym (A := SCPBallot)); apply compareBallots_leb;
      rewrite ?(compareBallots_opp a b); lia.
  - intros ->. unfold compareBallots. by rewrite Z.ltb_irrefl, bytes_ltb_irrefl.
Qed.

Lemma compareBallots_refl a : compareBallots a a = 0.
Proof. by apply compareBallots_eq. Qed.

Lemma compareBallots_le_trans a b c :
  compareBallots a b <= 0 -> compareBallots b c <= 0 -> compareBallots a c <= 0.
Proof. rewrite !compareBallots_leb. exact (std_le_trans (A := SCPBallot) a b c). Qed.

Lemma compareBallots_lt_le_trans a b c :
  compareBallots a b < 0 -> compareBallots b c <= 0 -> compareBallots a c < 0.
Proof.
  intros H1 H2. assert (compareBallots a c <= 0) by (eapply compareBallots_le_trans; [|done]; lia).
  assert (compareBallots a c <> 0); [|lia]. intros ->%compareBallots_eq.
  rewrite (compareBallots_opp c b) in H2. lia.
Qed.

Lemma compareBallots_le_lt_trans a b c :
  compareBallots a b <= 0 -> compareBallots b c < 0 -> compareBallots a c < 0.
Proof.
  intros H1 H2. assert (compareBallots a c <= 0) by (eapply compareBallots_le_trans; [done|]; lia).
  assert (compareBallots a c <> 0); [|lia]. intros ->%compareBallots_eq.
  rewrite (compareBallots_opp c b) in H2. lia.
Qed.

Lemma compareBallots_le_counter a b : compareBallots a b <= 0 -> counter a <= counter b.
Proof.
  unfold compareBallots. destruct (Z.ltb_spec (counter a) (counter b)); [lia|].
  destruct (Z.ltb_spec (counter b) (counter a)); lia.
Qed.

Lemma compareBallots_same_value n m v : compareBallots (mkBallot n v) (mkBallot m v) <= 0 <-> n <= m.
Proof.
  unfold compareBallots; simpl. rewrite bytes_ltb_irrefl.
  destruct (Z.ltb_spec n m), (Z.ltb_spec m n); lia.
Qed.

(** A null pointer is below every ballot. *)

Lemma compareBallots_ptr_refl x : compareBallots_ptr x x = 0.
Proof. destruct x; simpl; [apply compareBallots_refl | done]. Qed.

Lemma compareBallots_ptr_eq x y : compareBallots_ptr x y = 0 <-> x = y.
Proof.
  destruct x, y; simpl; try (split; [lia | done]); [|done].
  rewrite compareBallots_eq. naive_solver.
Qed.

Lemma compareBallots_ptr_opp x y : compareBallots_ptr y x = - compareBallots_ptr x y.
Proof. destruct x, y; simpl; try done. apply compareBallots_opp. Qed.

Lemma compareBallots_ge_ge a b :
  ~ compareBallots a b < 0 -> ~ compareBallots b a < 0 -> a = b.
Proof. intros. apply compareBallots_eq. pose proof (compareBallots_opp a b). lia. Qed.

Lemma compareBallots_ptr_ge_ge x y :
  ~ compareBallots_ptr x y < 0 -> ~ compareBallots_ptr y x < 0 -> x = y.
Proof. intros. apply compareBallots_ptr_eq. pose proof (compareBallots_ptr_opp x y). lia. Qed.

Lemma compareBallots_ptr_le_trans x y z :
  compareBallots_ptr x y <= 0 -> compareBallots_ptr y z <= 0 -> compareBallots_ptr x z <= 0.
Proof. destruct x, y, z; simpl; try lia. apply compareBallots_le_trans. Qed.

Lemma compareBallots_ptr_lt_trans x y z :
  compareBallots_ptr x y < 0 -> compareBallots_ptr y z < 0 -> compareBallots_ptr x z < 0.
Proof.
  destruct x, y, z; simpl; try lia. intros. eapply compareBallots_lt_le_trans; [done | lia].
Qed.

(** ** Less and compatible *)

Definition LAC (a b : SCPBallot) : Prop := counter a <= counter b /\ value a = value b.

Lemma areBallotsCompatible_spec a b : areBallotsCompatible a b = true <-> value a = value b.
Proof. unfold areBallotsCompatible. by rewrite bool_decide_eq_true. Qed.

Lemma areBallotsLessAndCompatible_spec a b : areBallotsLessAndCompatible a b = true <-> LAC a b.
Proof.
  unfold areBallotsLessAndCompatible, LAC. rewrite andb_true_iff, areBallotsCompatible_spec, Z.leb_le.
  destruct a as [n v], b as [m w]; simpl. split.
  - intros [? ->]. by rewrite compareBallots_same_value in *.
  - intros [? ->]. by rewrite compareBallots_same_value.
Qed.

Lemma areBallotsLessAndIncompatible_spec a b : areBallotsLessAndIncompatible a b = true <->
  compareBallots a b <= 0 /\ value a <> value b.
Proof.
  unfold areBallotsLessAndIncompatible. rewrite andb_true_iff, negb_true_iff, Z.leb_le.
  by rewrite <- not_true_iff_false, areBallotsCompatible_spec.
Qed.

Lemma LAC_refl a : LAC a a.
Proof. done. Qed.

Lemma LAC_trans a b c : LAC a b -> LAC b c -> LAC a c.
Proof. unfold LAC. intros [] []; split; [lia | congruence]. Qed.

Lemma LAC_compare a b : LAC a b -> compareBallots a b <= 0.
Proof. destruct a, b; unfold LAC; simpl. intros [? ->]. by apply compareBallots_same_value. Qed.

Lemma compare_LAC a b : compareBallots a b <= 0 -> value a = value b -> LAC a b.
Proof. intros ?%compareBallots_le_counter ?. by split. Qed.

#[export] Hint Resolve LAC_refl LAC_trans LAC_compare compareBallots_refl : scp.

(** ** Newer statements *)

(** A strict lexicographic step: the code's cascade on two comparisons. *)
Definition lexb (x : Z) (rest : bool) : bool :=
  if x <? 0 then true else if x =? 0 then rest else false.

Lemma lexb_spec x rest : lexb x rest = true <-> x < 0 \/ x = 0 /\ rest = true.
Proof.
  unfold lexb. destruct (Z.ltb_spec x 0); [intuition lia|].
  destruct (Z.eqb_spec x 0); intuition (try lia; done).
Qed.

(** What makes one statement of a node newer than another one: its type, or,
    within a type, the lexicographic order of what it carries. *)
Lemma isNewerStatement_st_spec x y : isNewerStatement_st x y = true <->
  match pledges x, pledges y with
  | EXTERNALIZE _, EXTERNALIZE _ => False
  | CONFIRM a, CONFIRM b =>
      compareBallots (con_ballot a) (con_ballot b) < 0 \/ con_ballot a = con_ballot b /\
      (con_nPrepared a < con_nPrepared b \/
       con_nPrepared a = con_nPrepared b /\ con_nH a < con_nH b)
  | PREPARE a, PREPARE b =>
      compareBallots (prep_ballot a) (prep_ballot b) < 0 \/ prep_ballot a = prep_ballot b /\
      (compareBallots_ptr (prep_prepared a) (prep_prepared b) < 0 \/
       prep_prepared a = prep_prepared b /\
       (compareBallots_ptr (prep_preparedPrime a) (prep_preparedPrime b) < 0 \/
        prep_preparedPrime a = prep_preparedPrime b /\ prep_nH a < prep_nH b))
  | oldp, p => statement_type oldp < statement_type p
  end.
Proof.
  unfold isNewerStatement_st.
  destruct (pledges x) as [a|a| |], (pledges y) as [b|b| |]; try (by rewrite Z.ltb_lt); try done.
  - fold (lexb (compareBallots_ptr (prep_preparedPrime a) (prep_preparedPrime b))
            (prep_nH a <? prep_nH b)).
    match goal with |- context [compareBallots_ptr (prep_prepared a) ?q] =>
      fold (lexb (compareBallots_ptr (prep_prepared a) q)
        (lexb (compareBallots_ptr (prep_preparedPrime a) (prep_preparedPrime b))
           (prep_nH a <? prep_nH b))) end.
    match goal with |- context [if _ =? 0 then ?r else false] =>
      fold (lexb (compareBallots (prep_ballot a) (prep_ballot b)) r) end.
    by rewrite !lexb_spec, !compareBallots_ptr_eq, compareBallots_eq, Z.ltb_lt.
  - match goal with |- context [if _ =? 0 then ?r else false] =>
      fold (lexb (compareBallots (con_ballot a) (con_ballot b)) r) end.
    rewrite lexb_spec, compareBallots_eq.
    destruct (Z.eqb_spec (con_nPrepared a) (con_nPrepared b)); rewrite Z.ltb_lt; intuition lia.
Qed.

Lemma isNewerStatement_irrefl x : isNewerStatement_st x x = false.
Proof.
  apply not_true_iff_false. rewrite isNewerStatement_st_spec.
  destruct (pledges x); rewrite ?compareBallots_ptr_refl, ?compareBallots_refl; intuition lia.
Qed.

Lemma isNewerStatement_trans x y z :
  isNewerStatement_st x y = true -> isNewerStatement_st y z = true ->
  isNewerStatement_st x z = true.
Proof.
  rewrite !isNewerStatement_st_spec.
  destruct (pledges x) as [a|a|a|a], (pledges y) as [b|b|b|b], (pledges z) as [d|d|d|d];
    simpl; try lia; intros H1 H2.
  - destruct H1 as [H1|[E1 H1]], H2 as [H2|[E2 H2]];
      [left; eapply compareBallots_lt_le_trans; [done | lia] | left; by rewrite <- E2
      | left; by rewrite E1 | right; split; [congruence|]].
    destruct H1 as [H1|[E1' H1]], H2 as [H2|[E2' H2]];
      [left; by eapply compareBallots_ptr_lt_trans | left; by rewrite <- E2'
      | left; by rewrite E1' | right; split; [congruence|]].
    destruct H1 as [H1|[E1'' H1]], H2 as [H2|[E2'' H2]];
      [left; by eapply compareBallots_ptr_lt_trans | left; by rewrite <- E2''
      | left; by rewrite E1'' | right; split; [congruence | lia]].
  - destruct H1 as [H1|[E1 H1]], H2 as [H2|[E2 H2]];
      [left; eapply compareBallots_lt_le_trans; [done | lia] | left; by rewrite <- E2
      | left; by rewrite E1 | right; split; [congruence | lia]].
Qed.

(** "Newer" is a strict order on the ballot statements of a node: no
    statement is newer than itself, so a replayed statement never is, and newer
    than newer is newer.  Two statements none of which is newer are both
    [EXTERNALIZE], or agree in type and in everything the order looks at. *)
Theorem isNewerStatement_strict_order :
  (forall x, isNewerStatement_st x x = false) /\
  (forall x y z, isNewerStatement_st x y = true -> isNewerStatement_st y z = true ->
     isNewerStatement_st x z = true) /\
  (forall x y, isNewerStatement_st x y = false -> isNewerStatement_st y x = false ->
     match pledges x, pledges y with
     | PREPARE a, PREPARE b =>
         prep_ballot a = prep_ballot b /\ prep_prepared a = prep_prepared b /\
         prep_preparedPrime a = prep_preparedPrime b /\ prep_nH a = prep_nH b
     | CONFIRM a, CONFIRM b =>
         con_ballot a = con_ballot b /\ con_nPrepared a = con_nPrepared b /\ con_nH a = con_nH b
     | EXTERNALIZE _, EXTERNALIZE _ | NOMINATE _, NOMINATE _ => True
     | _, _ => False
     end).
Proof.
  split_and!; [apply isNewerStatement_irrefl | apply isNewerStatement_trans |].
  intros x y. rewrite <- !not_true_iff_false, !isNewerStatement_st_spec.
  destruct (pledges x) as [a|a|a|a], (pledges y) as [b|b|b|b]; simpl; try lia; intros H1 H2.
  - assert (prep_ballot a = prep_ballot b) as E by (apply compareBallots_ge_ge; tauto).
    pose proof (eq_sym E).
    assert (prep_prepared a = prep_prepared b) as E' by (apply compareBallots_ptr_ge_ge; tauto).
    pose proof (eq_sym E').
    assert (prep_preparedPrime a = prep_preparedPrime b) as E''
      by (apply compareBallots_ptr_ge_ge; tauto).
    pose proof (eq_sym E''). split_and!; [done..|]. apply Z.le_antisymm; apply Z.nlt_ge; tauto.
  - assert (con_ballot a = con_ballot b) as E by (apply compareBallots_ge_ge; tauto).
    pose proof (eq_sym E).
    assert (con_nPrepared a = con_nPrepared b) as E'
      by (apply Z.le_antisymm; apply Z.nlt_ge; tauto).
    pose proof (eq_sym E'). split_and!; [done..|]. apply Z.le_antisymm; apply Z.nlt_ge; tauto.
Qed.

(** ** The search for an interval *)

Lemma findExtendedInterval_sound pred l : (forall x, readonly (pred x)) -> forall cand s r s',
  (cand.1 <> 0 -> pred cand s = Ret true s /\ cand.1 <= cand.2) ->
  findExtendedInterval cand l pred s = Ret r s' ->
  s' = s /\ (r.1 <> 0 -> pred r s = Ret true s /\ r.1 <= r.2).
Proof.
  intros Hro. induction l as [|b l IH]; intros [lo hi] s r s' Hc; simpl in *.
  - inversion 1; subst. done.
  - destruct (Z.eqb_spec lo 0) as [->|Hlo].
    + intros (ok & Hp & Hk)%readonly_bind_inv; [|done]. eapply IH in Hk; [done|].
      destruct ok; simpl; [|lia]. split; [done | lia].
    + destruct (Z.ltb_spec hi b); [by apply IH|].
      intros (ok & Hp & Hk)%readonly_bind_inv; [|done]. destruct ok.
      * eapply IH in Hk; [done|]. simpl. split; [done | lia].
      * inversion Hk; subst. done.
Qed.

Lemma readonly_findExtendedInterval pred l : (forall x, readonly (pred x)) -> forall cand,
  readonly (findExtendedInterval cand l pred).
Proof.
  intros Hro. induction l as [|b l IH]; intros cand; simpl; [apply readonly_ret|].
  destruct (_ =? 0).
  - apply readonly_bind; [done|]. intros a. apply IH.
  - destruct (_ <? _); [apply IH|]. apply readonly_bind; [done|]. intros [].
    + apply IH.
    + apply readonly_ret.
Qed.

Section extended_interval.
Context (f : Z * Z -> bool).

(** What the search must find on the boundaries [l]: the highest boundary that
    satisfies the predicate alone, extended down through the boundaries as long
    as the interval satisfies it. *)
Definition isExtendedInterval (l : list Z) (r : Z * Z) : Prop :=
  r.1 ∈ l /\ r.2 ∈ l /\ r.1 <= r.2 /\
  (forall x, x ∈ l -> r.2 < x -> f (x, x) = false) /\
  (forall x, x ∈ l -> r.1 <= x <= r.2 -> f (x, r.2) = true) /\
  (forall x, x ∈ l -> x < r.1 -> (forall y, y ∈ l -> y < r.1 -> y <= x) -> f (x, r.2) = false).

Lemma findExtendedInterval_extend l lo hi s :
  StronglySorted (fun a b => b < a) l -> (forall x, x ∈ l -> 0 < x < lo) -> 0 < lo <= hi ->
  exists lo', findExtendedInterval (lo, hi) l (fun cur => mret (f cur)) s = Ret (lo', hi) s /\
    (lo' = lo \/ lo' ∈ l) /\ 0 < lo' <= lo /\
    (forall x, x ∈ l -> lo' <= x -> f (x, hi) = true) /\
    (forall x, x ∈ l -> x < lo' -> (forall y, y ∈ l -> y < lo' -> y <= x) -> f (x, hi) = false).
Proof.
  revert lo. induction l as [|b l IH]; intros lo Hs Hl Hlo; simpl.
  { exists lo. split_and!; [done|by left|lia|lia|set_solver|set_solver]. }
  apply StronglySorted_inv in Hs as [Hs Hb]. rewrite Forall_forall in Hb.
  assert (0 < b < lo) by (apply Hl; left).
  destruct (Z.eqb_spec lo 0); [lia|]. destruct (Z.ltb_spec hi b); [lia|].
  unfold mbind, M_bind, mret, M_ret. simpl. destruct (f (b, hi)) eqn:Hf.
  - destruct (IH b) as (lo' & Hr & Hin & Hle & Hall & Hmax); [done| |lia|].
    { intros x Hx. split; [|by apply Hb]. assert (0 < x < lo) by (apply Hl; by right). lia. }
    exists lo'. split_and!; [done| |lia|lia| |].
    + right. destruct Hin as [->|?]; [left | by right].
    + intros x [->|Hx]%elem_of_cons ?; [done | by apply Hall].
    + intros x [->|Hx]%elem_of_cons Hlt Hm; [lia|]. apply Hmax; [done|done|].
      intros y Hy ?. apply Hm; [by right | lia].
  - exists lo. split_and!; [done|by left|lia|lia| |].
    + intros x Hx ?. apply Hl in Hx. lia.
    + intros x [->|Hx]%elem_of_cons Hlt Hm; [done|].
      apply Hb in Hx. specialize (Hm b ltac:(left) ltac:(lia)). lia.
Qed.

Lemma findExtendedInterval_search l s :
  StronglySorted (fun a b => b < a) l -> (forall x, x ∈ l -> 0 < x) ->
  exists r, findExtendedInterval (0, 0) l (fun cur => mret (f cur)) s = Ret r s /\
    (r = (0, 0) /\ (forall x, x ∈ l -> f (x, x) = false) \/ isExtendedInterval l r).
Proof.
  induction l as [|b l IH]; intros Hs Hl; simpl.
  { exists (0, 0). split; [done|]. left. split; [done | set_solver]. }
  apply StronglySorted_inv in Hs as [Hs Hb]. rewrite Forall_forall in Hb.
  assert (0 < b) by (apply Hl; left).
  unfold mbind, M_bind, mret, M_ret. simpl. destruct (f (b, b)) eqn:Hf.
  - destruct (findExtendedInterval_extend l b b s) as (lo & Hr & Hin & Hle & Hall & Hmax);
      [done| |lia|].
    { intros x Hx. split; [apply Hl; by right | by apply Hb]. }
    exists (lo, b). split; [done|]. right. split_and!; simpl.
    + destruct Hin as [->|?]; [left | by right].
    + left.
    + lia.
    + intros x [->|Hx]%elem_of_cons ?; [lia|]. apply Hb in Hx. lia.
    + intros x [->|Hx]%elem_of_cons ?; [done | apply Hall; [done | lia]].
    + intros x [->|Hx]%elem_of_cons Hlt Hm; [lia|]. apply Hmax; [done|done|].
      intros y Hy ?. apply Hm; [by right | lia].
  - destruct IH as (r & Hr & Hcase); [done|intros; apply Hl; by right|].
    exists r. split; [done|]. destruct Hcase as [[-> Hno]|(H1 & H2 & H3 & H4 & H5 & H6)].
    + left. split; [done|]. intros x [->|Hx]%elem_of_cons; auto.
    + right. pose proof (Hb _ H2). split_and!; [by right | by right | done | | |].
      * intros x [->|Hx]%elem_of_cons ?; [done | by apply H4].
      * intros x [->|Hx]%elem_of_cons ?; [lia | by apply H5].
      * intros x [->|Hx]%elem_of_cons Hlt Hm; [lia|]. apply H6; [done|done|].
        intros y Hy ?. apply Hm; [by right | lia].
Qed.

End extended_interval.

Lemma set_desc_sorted (s : gset Z) : StronglySorted (fun a b => b < a) (set_desc s).
Proof.
  unfold set_desc. pose proof (set_asc_sorted s) as Hs. pose proof (NoDup_set_asc s) as Hn.
  induction (set_asc s) as [|x l IH]; [constructor|].
  apply StronglySorted_inv in Hs as [Hs Hx]. apply NoDup_cons in Hn as [Hn Hnd].
  rewrite reverse_cons. rewrite Forall_forall in Hx.
  specialize (IH Hs Hnd). clear Hs Hnd.
  assert (forall y, y ∈ reverse l -> x < y) as Hlt.
  { intros y Hy. rewrite elem_of_reverse in Hy. pose proof (Hx _ Hy) as H. simpl in H.
    assert (x <> y) by (intros ->; done). lia. }
  induction IH as [|y l' Hs IH' Hall]; simpl; [repeat constructor|].
  constructor.
  - apply IH'. intros z Hz. apply Hlt. by right.
  - apply Forall_app. split; [done|]. constructor; [|done]. apply Hlt. left.
Qed.

(** A state to run examples in. *)
Definition freshSlot : SlotState :=
  mkSlotState initBallotProtocol initNominationProtocol [] true 0 [].

(** The search for an interval of ballots to commit finds the interval it
    should: with positive boundaries, it returns (0, 0) exactly when no boundary
    satisfies the predicate alone; otherwise it returns the highest boundary that
    does, extended down through every boundary for which the interval up to it
    still satisfies the predicate, stopping at the first that does not.  It always
    returns and leaves the slot as it was. *)
Theorem findExtendedInterval_correct (f : Z * Z -> bool) (boundaries : gset Z) (s : SlotState) :
  (forall x, x ∈ boundaries -> 0 < x) ->
  exists r, findExtendedInterval (0, 0) (set_desc boundaries) (fun cur => mret (f cur)) s = Ret r s /\
    (r = (0, 0) /\ (forall x, x ∈ boundaries -> f (x, x) = false) \/
     r.1 <> 0 /\ isExtendedInterval f (set_desc boundaries) r).
Proof.
  intros Hpos. destruct (findExtendedInterval_search f (set_desc boundaries) s) as (r & Hr & Hcase).
  - apply set_desc_sorted.
  - intros x Hx%elem_of_set_desc. auto.
  - exists r. split; [done|]. destruct Hcase as [[-> H]|H].
    + left. split; [done|]. intros x Hx. apply H. by apply elem_of_set_desc.
    + right. split; [|done]. destruct H as [H%elem_of_set_desc _]. apply Hpos in H. lia.
Qed.

Lemma findExtendedInterval_correct_witness :
  exists r, findExtendedInterval (0, 0) (set_desc {[2; 3; 5; 9]})
      (fun cur => mret ((3 <=? cur.1) && (cur.2 <=? 7))) freshSlot = Ret r freshSlot /\ r = (3, 5).
Proof.
  destruct (findExtendedInterval_correct (fun cur => (3 <=? cur.1) && (cur.2 <=? 7))
    {[2; 3; 5; 9]} freshSlot) as (r & Hr & _).
  - intros x. rewrite !elem_of_union, !elem_of_singleton. lia.
  - exists r. split; [exact Hr|]. vm_compute in Hr. congruence.
Defined.

(** ** Nominations

    The pure part of [Nomination.v]: sorted lists of values, what it means for a nomination
    to be newer, and that this is a strict order on sane nominations. *)

Lemma bytes_ltb_false a b : bytes_ltb a b = false <-> bytes_leb b a = true.
Proof. unfold bytes_ltb. by rewrite negb_false_iff. Qed.

Lemma is_sorted_spec l : is_sorted l = true <-> StronglySorted std_le l.
Proof.
  split.
  - intros H. apply Sorted_StronglySorted; [apply std_le_trans|].
    induction l as [|x [|y l] IH]; [constructor | repeat constructor |].
    simpl in H. apply andb_true_iff in H as [H1 H2]. rewrite negb_true_iff, bytes_ltb_false in H1.
    constructor; [by apply IH | by constructor].
  - induction 1 as [|x l Hs IH Hx]; [done|]. destruct l as [|y l]; [done|].
    simpl in *. rewrite IH, andb_true_r, negb_true_iff, bytes_ltb_false.
    by apply Forall_cons in Hx as [? _].
Qed.

Lemma is_sorted_set_asc (s : gset Value) : is_sorted (set_asc s) = true.
Proof. apply is_sorted_spec, set_asc_sorted. Qed.

Lemma includes_sublist v p : includes v p = true -> p `sublist_of` v.
Proof.
  revert p. induction v as [|x v IH]; intros [|y p]; simpl; try done.
  - intros _. apply sublist_nil_l.
  - destruct (bytes_ltb y x) eqn:E1; [done|]. apply bytes_ltb_false in E1.
    destruct (bytes_ltb x y) eqn:E2.
    + intros H. apply sublist_cons. by apply IH.
    + apply bytes_ltb_false in E2. assert (x = y) as -> by (by apply bytes_leb_antisym).
      intros H. apply sublist_skip. by apply IH.
Qed.

Lemma sublist_includes v p : StronglySorted std_le v -> p `sublist_of` v -> includes v p = true.
Proof.
  intros Hs. revert p. induction Hs as [|x v Hs IH Hx]; intros [|y p] Hsub; simpl; try done.
  { by apply sublist_nil_r in Hsub. }
  rewrite Forall_forall in Hx. apply sublist_cons_r in Hsub as [Hsub|(p' & [= <- <-] & Hsub)].
  - assert (y ∈ v) as Hy by (eapply elem_of_sublist; [left | exact Hsub]). apply Hx in Hy. simpl in Hy.
    replace (bytes_ltb y x) with false by (symmetry; by apply bytes_ltb_false).
    destruct (bytes_ltb x y); [by apply IH|]. apply IH. etrans; [|exact Hsub]. by apply sublist_cons.
  - rewrite bytes_ltb_irrefl. by apply IH.
Qed.

Lemma isSubsetHelper_spec p v : is_sorted v = true ->
  (p `sublist_of` v -> isSubsetHelper p v = (true, negb (length p =? length v)%nat)) /\
  (fst (isSubsetHelper p v) = true -> p `sublist_of` v).
Proof.
  intros Hv%is_sorted_spec. unfold isSubsetHelper. split.
  - intros Hsub. replace (length p <=? length v)%nat with true
      by (symmetry; apply Nat.leb_le, sublist_length, Hsub).
    by rewrite sublist_includes.
  - destruct (_ <=? _)%nat; [|done]. simpl. apply includes_sublist.
Qed.

(** A nomination that passed [isSane]. *)
Definition nomSorted (n : SCPNomination) : Prop :=
  is_sorted (nom_votes n) = true /\ is_sorted (nom_accepted n) = true.

Lemma np_isNewerStatement_nom_spec old st : nomSorted st ->
  np_isNewerStatement_nom old st = true <->
  nom_votes old `sublist_of` nom_votes st /\ nom_accepted old `sublist_of` nom_accepted st /\
  (length (nom_votes old) < length (nom_votes st) \/
   length (nom_accepted old) < length (nom_accepted st))%nat.
Proof.
  intros [Hv Ha]. unfold np_isNewerStatement_nom.
  destruct (isSubsetHelper_spec (nom_votes old) (nom_votes st) Hv) as [V1 V2].
  destruct (isSubsetHelper_spec (nom_accepted old) (nom_accepted st) Ha) as [A1 A2].
  split.
  - destruct (isSubsetHelper (nom_votes old) _) as [[] g]; [|done]. specialize (V2 eq_refl).
    injection (V1 V2) as ->.
    destruct (isSubsetHelper (nom_accepted old) _) as [[] g]; [|done]. specialize (A2 eq_refl).
    injection (A1 A2) as ->. rewrite orb_true_iff, !negb_true_iff, !Nat.eqb_neq.
    apply sublist_length in V2 as L1. apply sublist_length in A2 as L2. intuition lia.
  - intros (HV & HA & HL). rewrite (V1 HV), (A1 HA).
    rewrite orb_true_iff, !negb_true_iff, !Nat.eqb_neq. lia.
Qed.

Lemma np_isNewer_irrefl n : nomSorted n -> np_isNewerStatement_nom n n = false.
Proof.
  intros Hn. apply not_true_iff_false. rewrite np_isNewerStatement_nom_spec by done. lia.
Qed.

Lemma np_isNewer_trans x y z : nomSorted y -> nomSorted z ->
  np_isNewerStatement_nom x y = true -> np_isNewerStatement_nom y z = true ->
  np_isNewerStatement_nom x z = true.
Proof.
  intros Hy Hz. rewrite !np_isNewerStatement_nom_spec by done.
  intros (A1 & A2 & A3) (B1 & B2 & B3).
  pose proof (sublist_length _ _ A1). pose proof (sublist_length _ _ A2).
  pose proof (sublist_length _ _ B1). pose proof (sublist_length _ _ B2).
  split_and!; [by etrans | by etrans | lia].
Qed.

(** On sorted lists, [std::includes] is inclusion of multisets. *)
Lemma submseteq_includes v p : StronglySorted std_le v -> StronglySorted std_le p ->
  p ⊆+ v -> includes v p = true.
Proof.
  intros Hs. revert p. induction Hs as [|x v Hs IH Hx]; intros p Hp Hsub.
  { apply submseteq_nil_r in Hsub as ->. done. }
  destruct p as [|y p]; [done|]. simpl. apply StronglySorted_inv in Hp as Hp'.
  destruct Hp' as [Hp' Hy]. rewrite Forall_forall in Hx, Hy.
  assert (y ∈ x :: v) as Hin by (eapply elem_of_submseteq; [left | exact Hsub]).
  assert (bytes_leb x y = true) as Hxy.
  { apply elem_of_cons in Hin as [->|Hin]; [apply bytes_leb_refl | by apply Hx]. }
  replace (bytes_ltb y x) with false by (symmetry; by apply bytes_ltb_false).
  apply submseteq_cons_r in Hsub as Hc. destruct (bytes_ltb x y) eqn:E.
  - apply IH; [done|]. destruct Hc as [Hc|(l & Hl & Hc)]; [done|].
    assert (x ∈ y :: p) as Hxp by (rewrite Hl; left). exfalso.
    assert (bytes_leb y x = true) as Hyx.
    { apply elem_of_cons in Hxp as [->|Hxp]; [apply bytes_leb_refl | by apply Hy]. }
    apply bytes_ltb_false in Hyx. congruence.
  - apply bytes_ltb_false in E. assert (x = y) as -> by (by apply bytes_leb_antisym).
    apply IH; [done|]. destruct Hc as [Hc|(l & Hl & Hc)].
    + etrans; [|exact Hc]. apply submseteq_cons. done.
    + apply Permutation_cons_inv in Hl. by rewrite Hl.
Qed.

(** A nomination is newer than a previous one of the same node exactly when
    its votes and its accepted values contain the previous ones (as multisets,
    the lists of sane nominations being sorted) and one of them is larger; on
    sane nominations this is a strict order. *)
Theorem np_isNewerStatement_grows old st : nomSorted old -> nomSorted st ->
  (np_isNewerStatement_nom old st = true <->
   nom_votes old ⊆+ nom_votes st /\ nom_accepted old ⊆+ nom_accepted st /\
   (length (nom_votes old) < length (nom_votes st) \/
    length (nom_accepted old) < length (nom_accepted st))%nat) /\
  np_isNewerStatement_nom st st = false /\
  (forall z, nomSorted z -> np_isNewerStatement_nom old st = true ->
     np_isNewerStatement_nom st z = true -> np_isNewerStatement_nom old z = true).
Proof.
  intros [Ho1 Ho2] [Hs1 Hs2]. split_and!.
  - rewrite np_isNewerStatement_nom_spec by done. split.
    + intros (H1 & H2 & H3). split_and!; [by apply sublist_submseteq..|done].
    + intros (H1 & H2 & H3). rewrite is_sorted_spec in *.
      split_and!; [apply includes_sublist, submseteq_includes; done..|done].
  - by apply np_isNewer_irrefl.
  - intros z Hz. by apply np_isNewer_trans.
Qed.

Lemma np_isNewerStatement_grows_witness :
  np_isNewerStatement_nom (mkNomination 0 [[1%N]] []) (mkNomination 0 [[1%N]; [2%N]] [[1%N]]) = true /\
  np_isNewerStatement_nom (mkNomination 0 [[1%N]; [2%N]] [[1%N]])
    (mkNomination 0 [[1%N]; [2%N]] [[1%N]]) = false.
Proof.
  destruct (np_isNewerStatement_grows (mkNomination 0 [[1%N]] [])
    (mkNomination 0 [[1%N]; [2%N]] [[1%N]])) as (H1 & H2 & _).
  - split; reflexivity.
  - split; reflexivity.
  - split; [|exact H2]. apply H1. simpl. split_and!; [|apply submseteq_nil_l|lia].
    apply submseteq_skip, submseteq_nil_l.
Defined.
