(* ===== verification/SlotInv.v ===== *)
(** * The invariant of a slot and what its operations keep

    [SlotInv] is what holds of the state of a slot between operations, and
    [SlotMono c] relates the states before and after one: what only grows, what
    never changes again, and on which recorded statements every new acceptance
    and confirmation rests.  [BallotSteps.v] and [NominationSteps.v] prove them of
    every member function. *)

From Stdlib Require Import ZArith Lia String.
From stdpp Require Import base tactics gmap option list.
From S2P Require Import Prelude ScpTypes LocalNode SlotState Ballot Nomination BallotFacts.

Open Scope Z_scope.

(** ** Evidence

    A federated vote is counted on the latest envelopes; all of them are in the
    history of the slot. *)

Definition recorded (m : gmap NodeID SCPEnvelope) (hist : list (SCPStatement * bool)) : Prop :=
  forall n e, m !! n = Some e -> st_nodeID (statement e) = n /\ statement e ∈ hist.*1.

Definition ratifiedOn (c : Ctx) (hist : list (SCPStatement * bool))
    (voted : SCPStatement -> bool) : Prop :=
  exists m, recorded m hist /\
    isQuorum (mQSet (localNode c)) m (getQuorumSetFromStatement c) voted = Some true.

Definition acceptedOn (c : Ctx) (hist : list (SCPStatement * bool))
    (voted accepted : SCPStatement -> bool) : Prop :=
  exists m, recorded m hist /\
    (isVBlocking_map (mQSet (localNode c)) m accepted = true \/
     isQuorum (mQSet (localNode c)) m (getQuorumSetFromStatement c)
       (fun st => accepted st || voted st) = Some true).

Lemma recorded_mono m h h' : h `prefix_of` h' -> recorded m h -> recorded m h'.
Proof.
  intros [l ->] Hm n e He. destruct (Hm n e He) as [? ?]. split; [done|].
  rewrite fmap_app, elem_of_app. by left.
Qed.

Lemma ratifiedOn_mono c h h' v : h `prefix_of` h' -> ratifiedOn c h v -> ratifiedOn c h' v.
Proof. intros Hp (m & Hm & Hq). exists m. split; [by eapply recorded_mono | done]. Qed.

Lemma acceptedOn_mono c h h' v a : h `prefix_of` h' -> acceptedOn c h v a -> acceptedOn c h' v a.
Proof. intros Hp (m & Hm & Hq). exists m. split; [by eapply recorded_mono | done]. Qed.

(** ** The ballot protocol *)

(** A statement that passed the checks of [isStatementSane]. *)
Definition shapeSane (st : SCPStatement) : Prop := isStatementShapeSane st true = true.

(** [b], [p], [p'], [h] and [c] between operations. *)
Record BallotInv (s : SlotState) (b : BallotProtocol) : Prop := mkBallotInv {
  inv_prime :
    match mPrepared b, mPreparedPrime b with
    | Some p, Some p' => compareBallots p' p <= 0 /\ value p' <> value p
    | None, Some _ => False
    | _, None => True
    end;
  inv_high : forall h, mHighBallot b = Some h ->
    exists cur, mCurrentBallot b = Some cur /\ compareBallots h cur <= 0;
  inv_commit : forall com, mCommit b = Some com ->
    counter com <> 0 /\ exists h, mHighBallot b = Some h;
  inv_confirm : mPhase b <> SCP_PHASE_PREPARE ->
    mPreparedPrime b = None /\
    exists com h cur, mCommit b = Some com /\ mHighBallot b = Some h /\
      mCurrentBallot b = Some cur /\ LAC com h /\ LAC h cur;
  inv_recorded : recorded (mLatestEnvelopes b) (mStatementsHistory s);
  inv_sane : forall n e, mLatestEnvelopes b !! n = Some e -> shapeSane (statement e);
  inv_level : 0 <= mCurrentMessageLevel b }.

Definition sameOrNewer (m m' : gmap NodeID SCPEnvelope)
    (newer : SCPStatement -> SCPStatement -> bool) : Prop :=
  forall n e, m !! n = Some e -> exists e', m' !! n = Some e' /\
    (e' = e \/ newer (statement e) (statement e') = true).

(** The members that are final once the slot is externalized. *)
Definition frozen (b b' : BallotProtocol) : Prop :=
  mPhase b' = mPhase b /\ mCurrentBallot b' = mCurrentBallot b /\ mPrepared b' = mPrepared b /\
  mPreparedPrime b' = mPreparedPrime b /\ mHighBallot b' = mHighBallot b /\ mCommit b' = mCommit b.

Definition externalizedValues (l : list DriverEvent) : list Value :=
  omap (fun e => match e with valueExternalized v => Some v | _ => None end) l.

(** What the driver is told of externalized values between two states. *)
Definition toldOnce (b b' : BallotProtocol) (l l' : list DriverEvent) : Prop :=
  exists k, l' = l ++ k /\
    (externalizedValues k = [] \/
     mPhase b <> SCP_PHASE_EXTERNALIZE /\ mPhase b' = SCP_PHASE_EXTERNALIZE /\
     exists com, mCommit b' = Some com /\ externalizedValues k = [value com]).

Section mono.
Context (c : Ctx).

(** The predicates of the federated votes on an interval of commits. *)
Definition commitAccepted (hist : list (SCPStatement * bool)) (com h : SCPBallot) : Prop :=
  acceptedOn c hist (votesCommit h (counter com, counter h))
                    (commitPredicate h (counter com, counter h)).
Definition commitRatified (hist : list (SCPStatement * bool)) (com h : SCPBallot) : Prop :=
  ratifiedOn c hist (commitPredicate h (counter com, counter h)).
Definition prepareAccepted (hist : list (SCPStatement * bool)) (x : SCPBallot) : Prop :=
  acceptedOn c hist (votesPrepare x) (hasPreparedBallot x).
Definition prepareRatified (hist : list (SCPStatement * bool)) (x : SCPBallot) : Prop :=
  ratifiedOn c hist (hasPreparedBallot x).

Record BallotMono (s s' : SlotState) (b b' : BallotProtocol) : Prop := mkBallotMono {
  mono_phase : phase_rank (mPhase b) <= phase_rank (mPhase b');
  mono_frozen : mPhase b = SCP_PHASE_EXTERNALIZE -> frozen b b';
  mono_commit : mPhase b <> SCP_PHASE_PREPARE -> forall com, mCommit b = Some com ->
    exists com', mCommit b' = Some com' /\ value com' = value com;
  mono_current : mPhase b <> SCP_PHASE_PREPARE \/ mPhase b' = mPhase b ->
    compareBallots_ptr (mCurrentBallot b) (mCurrentBallot b') <= 0;
  mono_prepared : compareBallots_ptr (mPrepared b) (mPrepared b') <= 0;
  mono_latest : sameOrNewer (mLatestEnvelopes b) (mLatestEnvelopes b') isNewerStatement_st;
  mono_told : toldOnce b b' (events s) (events s');
  ev_prepared : forall x, mPrepared b' = Some x \/ mPreparedPrime b' = Some x ->
    mPrepared b = Some x \/ mPreparedPrime b = Some x \/
    prepareAccepted (mStatementsHistory s') x;
  ev_high : mPhase b' = SCP_PHASE_PREPARE -> forall h, mHighBallot b' = Some h ->
    mHighBallot b = Some h \/ prepareRatified (mStatementsHistory s') h;
  ev_commit : mPhase b' = SCP_PHASE_PREPARE -> forall x, mCommit b' = Some x ->
    mCommit b = Some x \/ prepareRatified (mStatementsHistory s') x;
  ev_confirm : mPhase b' = SCP_PHASE_CONFIRM -> forall com h,
    mCommit b' = Some com -> mHighBallot b' = Some h ->
    mPhase b = SCP_PHASE_CONFIRM /\ mCommit b = Some com /\ mHighBallot b = Some h \/
    commitAccepted (mStatementsHistory s') com h;
  ev_externalize : mPhase b' = SCP_PHASE_EXTERNALIZE -> forall com h,
    mCommit b' = Some com -> mHighBallot b' = Some h ->
    mPhase b = SCP_PHASE_EXTERNALIZE \/ commitRatified (mStatementsHistory s') com h;
  mono_level : mCurrentMessageLevel b <= mCurrentMessageLevel b' }.

(** ** The nomination protocol *)

Record NominationInv (s : SlotState) (n : NominationProtocol) : Prop := mkNominationInv {
  inv_accepted : mAccepted n ⊆ mVotes n;
  inv_candidates : mCandidates n ⊆ mAccepted n;
  inv_nominations : recorded (mLatestNominations n) (mStatementsHistory s);
  inv_nomination : forall i e, mLatestNominations n !! i = Some e -> exists nom,
    pledges (statement e) = NOMINATE nom /\ nomSorted nom }.

(** The nominations of a node only grow. *)
Definition nominationGrows (x y : SCPStatement) : bool :=
  np_isNewerStatement_nom (nominate_of x) (nominate_of y).

Record NominationMono (s s' : SlotState) (n n' : NominationProtocol) : Prop := mkNominationMono {
  mono_votes : mVotes n ⊆ mVotes n';
  mono_accepted : mAccepted n ⊆ mAccepted n';
  mono_candidates : mCandidates n ⊆ mCandidates n';
  mono_nominations : sameOrNewer (mLatestNominations n) (mLatestNominations n') nominationGrows;
  ev_accepted : forall x, x ∈ mAccepted n' -> x ∈ mAccepted n \/
    np_validateValue c x = kFullyValidatedValue /\
    acceptedOn c (mStatementsHistory s') (votesNominate x) (acceptPredicate x);
  ev_candidates : forall x, x ∈ mCandidates n' -> x ∈ mCandidates n \/
    ratifiedOn c (mStatementsHistory s') (acceptPredicate x) }.

(** ** Both *)

Record SlotInv (s : SlotState) : Prop := mkSlotInv {
  inv_ballot :> BallotInv s (ballotProtocol s);
  inv_nom : NominationInv s (nominationProtocol s) }.

Record SlotMono (s s' : SlotState) : Prop := mkSlotMono {
  mono_history : mStatementsHistory s `prefix_of` mStatementsHistory s';
  mono_ballot :> BallotMono s s' (ballotProtocol s) (ballotProtocol s');
  mono_nom : NominationMono s s' (nominationProtocol s) (nominationProtocol s') }.

(** A state that can follow [s]. *)
Definition follows (s s' : SlotState) : Prop := SlotInv s' /\ SlotMono s s'.

(** A member function that keeps the invariant, unless the process dies. *)
Definition steps {A} (m : M SlotState A) : Prop := forall s, SlotInv s ->
  wp (fun e s' => fatal e = true \/ follows s s') m (fun _ s' => follows s s') s.

(** ** [follows] is a preorder on the states that satisfy the invariant *)

Lemma sameOrNewer_refl m newer : sameOrNewer m m newer.
Proof. intros n e He. eauto. Qed.

Lemma sameOrNewer_trans (m1 m2 m3 : gmap NodeID SCPEnvelope) newer :
  (forall n e1 e2 e3, m1 !! n = Some e1 -> m2 !! n = Some e2 -> m3 !! n = Some e3 ->
     newer (statement e1) (statement e2) = true -> newer (statement e2) (statement e3) = true ->
     newer (statement e1) (statement e3) = true) ->
  sameOrNewer m1 m2 newer -> sameOrNewer m2 m3 newer -> sameOrNewer m1 m3 newer.
Proof.
  intros Ht H1 H2 n e1 E1. destruct (H1 n e1 E1) as (e2 & E2 & Hn).
  destruct (H2 n e2 E2) as (e3 & E3 & Hn'). exists e3. split; [done|].
  destruct Hn as [->|Hn]; [done|]. destruct Hn' as [->|Hn']; [by right|]. right. eauto.
Qed.

Lemma frozen_trans b1 b2 b3 : frozen b1 b2 -> frozen b2 b3 -> frozen b1 b3.
Proof. unfold frozen. intuition congruence. Qed.

Lemma externalizedValues_app l k :
  externalizedValues (l ++ k) = externalizedValues l ++ externalizedValues k.
Proof. apply omap_app. Qed.

Lemma toldOnce_trans b1 b2 b3 l1 l2 l3 :
  (mPhase b2 = SCP_PHASE_EXTERNALIZE -> frozen b2 b3) ->
  phase_rank (mPhase b1) <= phase_rank (mPhase b2) ->
  toldOnce b1 b2 l1 l2 -> toldOnce b2 b3 l2 l3 -> toldOnce b1 b3 l1 l3.
Proof.
  intros Hf Hr (k & -> & Hk) (k' & -> & Hk'). exists (k ++ k'). rewrite (assoc_L (++)).
  split; [done|]. rewrite externalizedValues_app.
  destruct Hk as [->|(P1 & P2 & com & Hc & ->)].
  - destruct Hk' as [->|(P1' & P2' & com & Hc & ->)]; [by left|]. right.
    split_and!; [|done|by exists com]. intros E. rewrite E in Hr. by destruct (mPhase b2).
  - destruct Hk' as [->|(P1' & _)]; [|done]. right. rewrite app_nil_r.
    destruct (Hf P2) as (Q1 & _ & _ & _ & _ & Q2). split_and!; [done|congruence|].
    exists com. split; [congruence | done].
Qed.

Lemma phase_prepare_le p q : phase_rank p <= phase_rank q ->
  q = SCP_PHASE_PREPARE -> p = SCP_PHASE_PREPARE.
Proof. by destruct p, q; simpl. Qed.

(** Two changes of phase that together leave it, or start after [PREPARE]. *)
Lemma phase_chain p1 p2 p3 : phase_rank p1 <= phase_rank p2 -> phase_rank p2 <= phase_rank p3 ->
  p1 <> SCP_PHASE_PREPARE \/ p3 = p1 ->
  p1 <> SCP_PHASE_PREPARE /\ p2 <> SCP_PHASE_PREPARE \/ p2 = p1 /\ p3 = p2.
Proof. destruct p1, p2, p3; simpl; naive_solver lia. Qed.

Lemma BallotMono_trans s1 s2 s3 b1 b2 b3 :
  mStatementsHistory s2 `prefix_of` mStatementsHistory s3 ->
  BallotMono s1 s2 b1 b2 -> BallotMono s2 s3 b2 b3 -> BallotMono s1 s3 b1 b3.
Proof.
  intros Hh A B. pose proof (mono_phase _ _ _ _ A) as PA. pose proof (mono_phase _ _ _ _ B) as PB.
  constructor.
  - lia.
  - intros E. pose proof (mono_frozen _ _ _ _ A E) as F. eapply frozen_trans; [done|].
    apply (mono_frozen _ _ _ _ B). destruct F as [F _]. congruence.
  - intros E com Hc. destruct (mono_commit _ _ _ _ A E com Hc) as (c2 & E2 & V2).
    destruct (mono_commit _ _ _ _ B) with c2 as (c3 & E3 & V3); [|done|].
    + intros E'. apply E. by eapply phase_prepare_le.
    + exists c3. split; [done | congruence].
  - intros E.
    pose proof (phase_chain _ _ _ PA PB E).
    eapply compareBallots_ptr_le_trans;
      [apply (mono_current _ _ _ _ A) | apply (mono_current _ _ _ _ B)]; tauto.
  - eapply compareBallots_ptr_le_trans; [apply (mono_prepared _ _ _ _ A) | apply (mono_prepared _ _ _ _ B)].
  - eapply sameOrNewer_trans; [|apply (mono_latest _ _ _ _ A)|apply (mono_latest _ _ _ _ B)].
    intros. by eapply isNewerStatement_trans.
  - eapply toldOnce_trans; [apply (mono_frozen _ _ _ _ B) | done
      | apply (mono_told _ _ _ _ A) | apply (mono_told _ _ _ _ B)].
  - intros x Hx. destruct (ev_prepared _ _ _ _ B x Hx) as [H|[H|H]]; [| |by auto];
      destruct (ev_prepared _ _ _ _ A x) as [H'|[H'|H']]; auto; right; right;
      by eapply acceptedOn_mono.
  - intros E h Hx. destruct (ev_high _ _ _ _ B E h Hx) as [H|H]; [|by auto].
    destruct (ev_high _ _ _ _ A) with h as [H'|H']; auto; [by eapply phase_prepare_le|].
    right. by eapply ratifiedOn_mono.
  - intros E h Hx. destruct (ev_commit _ _ _ _ B E h Hx) as [H|H]; [|by auto].
    destruct (ev_commit _ _ _ _ A) with h as [H'|H']; auto; [by eapply phase_prepare_le|].
    right. by eapply ratifiedOn_mono.
  - intros E com h Ec Eh.
    destruct (ev_confirm _ _ _ _ B E com h Ec Eh) as [(P & Ec' & Eh')|H]; [|by auto].
    destruct (ev_confirm _ _ _ _ A P com h Ec' Eh') as [H|H]; [by auto|].
    right. by eapply acceptedOn_mono.
  - intros E com h Ec Eh. destruct (ev_externalize _ _ _ _ B E com h Ec Eh) as [P|H]; [|by auto].
    destruct (mono_frozen _ _ _ _ B P) as (_ & _ & _ & _ & F1 & F2).
    destruct (ev_externalize _ _ _ _ A P com h ltac:(congruence) ltac:(congruence)) as [H|H];
      [by auto|].
    right. by eapply ratifiedOn_mono.
  - etrans; [apply (mono_level _ _ _ _ A) | apply (mono_level _ _ _ _ B)].
Qed.

Lemma BallotMono_refl s s' b : externalizedValues (events s') = externalizedValues (events s) ->
  events s `prefix_of` events s' -> BallotMono s s' b b.
Proof.
  intros He [k Hk]. constructor; auto.
  - lia.
  - done.
  - intros _ com ->. eauto.
  - intros _. rewrite compareBallots_ptr_refl. lia.
  - rewrite compareBallots_ptr_refl. lia.
  - apply sameOrNewer_refl.
  - exists k. split; [done|]. left. rewrite Hk, externalizedValues_app in He.
    by apply (app_inv_head (externalizedValues (events s))); rewrite app_nil_r.
  - tauto.
  - lia.
Qed.

Lemma NominationMono_refl s s' n : NominationMono s s' n n.
Proof. constructor; auto using sameOrNewer_refl. Qed.

Lemma NominationMono_trans s1 s2 s3 n1 n2 n3 :
  NominationInv s2 n2 -> NominationInv s3 n3 ->
  mStatementsHistory s2 `prefix_of` mStatementsHistory s3 ->
  NominationMono s1 s2 n1 n2 -> NominationMono s2 s3 n2 n3 -> NominationMono s1 s3 n1 n3.
Proof.
  intros I2 I3 Hh [A1 A2 A3 A4 A5 A6] [B1 B2 B3 B4 B5 B6]. constructor; [by etrans..| | |].
  - eapply sameOrNewer_trans; [|done|done]. intros n e1 e2 e3 _ E2 E3.
    destruct (inv_nomination _ _ I2 _ _ E2) as (x2 & P2 & S2).
    destruct (inv_nomination _ _ I3 _ _ E3) as (x3 & P3 & S3).
    unfold nominationGrows, nominate_of. rewrite P2, P3. by apply np_isNewer_trans.
  - intros x Hx. destruct (B5 x Hx) as [H|[H1 H2]]; [|by auto].
    destruct (A5 x H) as [H'|[H1 H2]]; [by auto|]. right. split; [done|].
    by eapply acceptedOn_mono.
  - intros x Hx. destruct (B6 x Hx) as [H|H]; [|by auto].
    destruct (A6 x H) as [H'|H']; [by auto|]. right. by eapply ratifiedOn_mono.
Qed.

Lemma follows_refl s : SlotInv s -> follows s s.
Proof.
  intros H. split; [done|]. constructor; [done | by apply BallotMono_refl | apply NominationMono_refl].
Qed.

Lemma follows_trans s1 s2 s3 : follows s1 s2 -> follows s2 s3 -> follows s1 s3.
Proof.
  intros [[I2 J2] [H12 A N]] [[I3 J3] [H23 B N']]. split; [done|]. constructor.
  - by etrans.
  - by eapply BallotMono_trans.
  - by apply (NominationMono_trans s1 s2 s3 _ (nominationProtocol s2)).
Qed.

(** ** Rules for member functions *)

(** From [s], having come to [s1], run [m] and go on. *)
Lemma wp_steps {A} (m : M SlotState A) (Q : A -> SlotState -> Prop) s s1 :
  steps m -> follows s s1 -> (forall a s2, follows s s2 -> Q a s2) ->
  wp (fun e s' => fatal e = true \/ follows s s') m Q s1.
Proof.
  intros Hm H1 HQ. eapply wp_conseq; [apply Hm, H1| |].
  - intros e s' [?|?]; [by left | right; by eapply follows_trans].
  - intros a s' ?. apply HQ. by eapply follows_trans.
Qed.

Lemma steps_bind {A B} (m : M SlotState A) (k : A -> M SlotState B) :
  steps m -> (forall a, steps (k a)) -> steps (m ≫= k).
Proof.
  intros Hm Hk s Hs. apply wp_bind. apply wp_steps; [done|by apply follows_refl|].
  intros a s2 H2. by apply wp_steps.
Qed.

Lemma steps_readonly {A} (m : M SlotState A) : readonly m -> steps m.
Proof.
  intros Hm s Hs. apply wp_readonly; [done|by left|]. intros. by apply follows_refl.
Qed.

Lemma steps_ret {A} (a : A) : steps (mret a).
Proof. apply steps_readonly, readonly_ret. Qed.

Lemma steps_throw {A} e : steps (A := A) (throw e).
Proof. intros s Hs. right. by apply follows_refl. Qed.

(** Reading the state and continuing. *)
Lemma steps_getB {A} (k : BallotProtocol -> M SlotState A) :
  (forall s, SlotInv s -> wp (fun e s' => fatal e = true \/ follows s s') (k (ballotProtocol s))
     (fun _ s' => follows s s') s) -> steps (getB ≫= k).
Proof. intros H s Hs. apply H, Hs. Qed.

Lemma steps_getN {A} (k : NominationProtocol -> M SlotState A) :
  (forall s, SlotInv s -> wp (fun e s' => fatal e = true \/ follows s s') (k (nominationProtocol s))
     (fun _ s' => follows s s') s) -> steps (getN ≫= k).
Proof. intros H s Hs. apply H, Hs. Qed.

End mono.
