(* ===== verification/BallotSteps.v ===== *)
(** * Every member function of BallotProtocol keeps the invariant *)

From Stdlib Require Import ZArith Lia String.
From stdpp Require Import base tactics gmap option list.
From S2P Require Import Prelude ScpTypes LocalNode SlotState Ballot Nomination BallotFacts.
From S2P Require Import SlotInv.

Open Scope Z_scope.

(** ** What only reads *)

Lemma readonly_getB : readonly getB.
Proof. by intros s. Qed.
Lemma readonly_getN : readonly getN.
Proof. by intros s. Qed.

#[export] Hint Resolve readonly_getB readonly_getN : scp.

Ltac ro_step :=
  match goal with
  | |- readonly (_ ≫= _) => apply readonly_bind; [|intros ?]
  | |- readonly (if ?b then _ else _) => destruct b
  | |- readonly (match ?x with _ => _ end) => destruct x
  | |- readonly _ => by auto with scp
  end.
Ltac solve_readonly := repeat ro_step.

Section steps.
Context (c : Ctx).

Lemma readonly_dbgAssert e : readonly e -> readonly (dbgAssert c e).
Proof. intros. unfold dbgAssert. solve_readonly. Qed.
Hint Resolve readonly_dbgAssert : scp.

Lemma readonly_federatedRatify voted envs : readonly (federatedRatify c voted envs).
Proof. unfold federatedRatify. solve_readonly. Qed.
Lemma readonly_federatedAccept voted acc envs : readonly (federatedAccept c voted acc envs).
Proof. unfold federatedAccept. solve_readonly. Qed.
Hint Resolve readonly_federatedRatify readonly_federatedAccept : scp.

Lemma readonly_bp_federatedRatify voted : readonly (bp_federatedRatify c voted).
Proof. unfold bp_federatedRatify. solve_readonly. Qed.
Lemma readonly_bp_federatedAccept voted acc : readonly (bp_federatedAccept c voted acc).
Proof. unfold bp_federatedAccept. solve_readonly. Qed.
Hint Resolve readonly_bp_federatedRatify readonly_bp_federatedAccept : scp.

Lemma readonly_memberLessAndCompatible f g : readonly (memberLessAndCompatible f g).
Proof. unfold memberLessAndCompatible. solve_readonly. Qed.
Hint Resolve readonly_memberLessAndCompatible : scp.

Lemma readonly_checkInvariants : readonly (checkInvariants c).
Proof. unfold checkInvariants. solve_readonly. Qed.
Hint Resolve readonly_checkInvariants : scp.

Lemma readonly_createStatement p : readonly (createStatement c p).
Proof. unfold createStatement. solve_readonly. Qed.

Lemma readonly_isStatementSane st self : readonly (isStatementSane c st self).
Proof. unfold isStatementSane. solve_readonly. Qed.

Lemma readonly_isNewerStatement n st : readonly (isNewerStatement n st).
Proof. unfold isNewerStatement. solve_readonly. Qed.

Lemma readonly_findNewH h l : readonly (findNewH c h l).
Proof. induction l; simpl; solve_readonly. Qed.

Lemma readonly_findNewC b newC l : readonly (findNewC c b newC l).
Proof. revert newC. induction l; intros; simpl; solve_readonly. Qed.

Lemma federatedAccept_true voted acc envs s s' :
  federatedAccept c voted acc envs s = Ret true s' ->
  isVBlocking_map (mQSet (localNode c)) envs acc = true \/
  isQuorum (mQSet (localNode c)) envs (getQuorumSetFromStatement c)
    (fun st => acc st || voted st) = Some true.
Proof.
  unfold federatedAccept. destruct (isVBlocking_map _ _ _); [by left|].
  intros [? _]%deref_inv. by right.
Qed.

Lemma bp_federatedAccept_true voted acc s s' : SlotInv s ->
  bp_federatedAccept c voted acc s = Ret true s' ->
  acceptedOn c (mStatementsHistory s) voted acc.
Proof.
  intros Hs (b & [= <-] & H)%readonly_bind_inv; [|apply readonly_getB].
  exists (mLatestEnvelopes (ballotProtocol s)). split; [apply Hs|]. by eapply federatedAccept_true.
Qed.

Lemma bp_federatedRatify_true voted s s' : SlotInv s ->
  bp_federatedRatify c voted s = Ret true s' -> ratifiedOn c (mStatementsHistory s) voted.
Proof.
  intros Hs (b & [= <-] & [H _]%deref_inv)%readonly_bind_inv; [|apply readonly_getB].
  exists (mLatestEnvelopes (ballotProtocol s)). split; [apply Hs | done].
Qed.

(** ** Changes the invariant does not look at *)

Definition coreB (b : BallotProtocol) :=
  (mPhase b, mCurrentBallot b, mPrepared b, mPreparedPrime b, mHighBallot b, mCommit b,
   mLatestEnvelopes b, mCurrentMessageLevel b).

Definition coreN (n : NominationProtocol) :=
  (mVotes n, mAccepted n, mCandidates n, mLatestNominations n).

Record quiet (s s' : SlotState) : Prop := mkQuiet {
  quiet_ballot : coreB (ballotProtocol s') = coreB (ballotProtocol s);
  quiet_nomination : coreN (nominationProtocol s') = coreN (nominationProtocol s);
  quiet_history : mStatementsHistory s' = mStatementsHistory s;
  quiet_events : exists k, events s' = events s ++ k /\ externalizedValues k = [] }.

Lemma quiet_refl s : quiet s s.
Proof. constructor; [done..|]. exists []. by rewrite app_nil_r. Qed.

Lemma quiet_trans s1 s2 s3 : quiet s1 s2 -> quiet s2 s3 -> quiet s1 s3.
Proof.
  intros [A1 A2 A3 (k & Ek & Xk)] [B1 B2 B3 (k' & Ek' & Xk')]. constructor; [congruence..|].
  exists (k ++ k'). rewrite Ek', Ek, (assoc_L (++)), externalizedValues_app, Xk, Xk'. done.
Qed.

Lemma quiet_follows s s' : SlotInv s -> quiet s s' -> follows c s s'.
Proof.
  intros [[I1 I2 I3 I4 I5 I6 I7] [J1 J2 J3 J4]] [A1 A2 A3 (k & Ek & Xk)].
  unfold coreB in A1. injection A1 as E1 E2 E3 E4 E5 E6 E7 E8.
  unfold coreN in A2. injection A2 as F1 F2 F3 F4.
  split; [split; constructor|split; [|constructor|constructor]];
    rewrite ?E1, ?E2, ?E3, ?E4, ?E5, ?E6, ?E7, ?E8, ?F1, ?F2, ?F3, ?F4, ?A3;
    auto using sameOrNewer_refl; try lia.
  - by unfold frozen.
  - intros _ com ->. eauto.
  - intros _. rewrite compareBallots_ptr_refl. lia.
  - rewrite compareBallots_ptr_refl. lia.
  - exists k. auto.
  - tauto.
Qed.

Lemma follows_quiet s s1 s2 : follows c s s1 -> quiet s1 s2 -> follows c s s2.
Proof. intros H Hq. eapply follows_trans; [done|]. apply quiet_follows; [apply H | done]. Qed.

(** A change of the ballot protocol. *)
Definition withB (f : BallotProtocol -> BallotProtocol) (s : SlotState) : SlotState :=
  set_ballotProtocol (f (ballotProtocol s)) s.

Lemma withB_id s : withB (fun b => b) s = s.
Proof. by destruct s. Qed.

Lemma quiet_tell e s : match e with valueExternalized _ => False | _ => True end ->
  quiet s (set_events (events s ++ [e]) s).
Proof. intros He. constructor; [done..|]. exists [e]. by destruct e. Qed.

Lemma quiet_withB f s : coreB (f (ballotProtocol s)) = coreB (ballotProtocol s) ->
  quiet s (withB f s).
Proof. intros He. constructor; [done..|]. exists []. by rewrite app_nil_r. Qed.

Lemma quiet_withB_2 f s s' :
  (forall b b', coreB b = coreB b' -> coreB (f b) = coreB (f b')) ->
  quiet s s' -> quiet (withB f s) (withB f s').
Proof. intros Hf [A1 A2 A3 A4]. constructor; simpl; auto. Qed.

End steps.

#[export] Hint Resolve readonly_dbgAssert readonly_federatedRatify readonly_federatedAccept
  readonly_bp_federatedRatify readonly_bp_federatedAccept readonly_memberLessAndCompatible
  readonly_checkInvariants readonly_createStatement readonly_isStatementSane
  readonly_isNewerStatement readonly_findNewH readonly_findNewC quiet_refl : scp.

(** ** Running member functions *)

Section running.
Context (c : Ctx) (E : exn -> SlotState -> Prop).
Hypothesis fatalOk : forall e s, fatal e = true -> E e s.

Lemma wp_getB {A} (k : BallotProtocol -> M SlotState A) Q s :
  wp E (k (ballotProtocol s)) Q s -> wp E (getB ≫= k) Q s.
Proof. done. Qed.

Lemma wp_modifyB {A} f (k : () -> M SlotState A) Q s :
  wp E (k ()) Q (withB f s) -> wp E (modifyB f ≫= k) Q s.
Proof. done. Qed.

Lemma wp_tell {A} e (k : () -> M SlotState A) Q s :
  wp E (k ()) Q (set_events (events s ++ [e]) s) -> wp E (tell e ≫= k) Q s.
Proof. done. Qed.

Lemma wp_ro {A B} (m : M SlotState A) (k : A -> M SlotState B) Q s : readonly m ->
  (forall a, m s = Ret a s -> wp E (k a) Q s) -> wp E (m ≫= k) Q s.
Proof. intros Hm Hk. apply wp_bind, wp_readonly; auto. Qed.

Lemma wp_deref {A B} (p : option A) (k : A -> M SlotState B) Q s :
  (forall a, p = Some a -> wp E (k a) Q s) -> wp E (deref p ≫= k) Q s.
Proof. intros Hk. destruct p; [by apply Hk|]. by apply fatalOk. Qed.

Lemma wp_startBallotProtocolTimer Q s :
  (forall s', quiet s s' -> Q () s') -> wp E startBallotProtocolTimer Q s.
Proof.
  intros HQ. unfold startBallotProtocolTimer. apply wp_getB, wp_deref. intros cur Hc.
  apply HQ, quiet_tell. done.
Qed.

Lemma wp_bumpToBallot ballot check Q s :
  (forall s', quiet (withB (set_mCurrentBallot (Some ballot)) s) s' -> Q () s') ->
  wp E (bumpToBallot c ballot check) Q s.
Proof.
  intros HQ. unfold bumpToBallot. apply wp_getB, wp_ro; [auto with scp|]. intros _ _.
  apply wp_ro; [destruct check; auto with scp|]. intros _ _.
  apply wp_modifyB, wp_modifyB.
  assert (quiet (withB (set_mCurrentBallot (Some ballot)) s)
    (withB (set_mHeardFromQuorum false) (withB (set_mCurrentBallot (Some ballot)) s)))
    by by apply quiet_withB.
  destruct (negb _); [|by apply HQ]. apply wp_startBallotProtocolTimer.
  intros s' Hq. apply HQ. by eapply quiet_trans.
Qed.

(** [updateCurrentIfNeeded] leaves the current ballot at or above [mHighBallot]. *)
Definition raised (s s' : SlotState) : Prop := exists h cur,
  mHighBallot (ballotProtocol s) = Some h /\ compareBallots h cur <= 0 /\
  (mCurrentBallot (ballotProtocol s) = Some cur \/
   compareBallots_ptr (mCurrentBallot (ballotProtocol s)) (Some h) < 0 /\ cur = h) /\
  quiet (withB (set_mCurrentBallot (Some cur)) s) s'.

Lemma wp_updateCurrentIfNeeded Q s :
  (forall s', raised s s' -> Q () s') -> wp E (updateCurrentIfNeeded c) Q s.
Proof.
  intros HQ. unfold updateCurrentIfNeeded. apply wp_getB.
  destruct (mCurrentBallot (ballotProtocol s)) as [cur|] eqn:Hc.
  - apply wp_deref. intros h Hh. destruct (Z.ltb_spec (compareBallots cur h) 0).
    + apply wp_bumpToBallot. intros s' Hq. apply HQ. exists h, h.
      rewrite Hc, compareBallots_refl. split_and!; [done|lia|by right|done].
    + apply HQ. exists h, cur. rewrite Hc, (compareBallots_opp cur h). split_and!; [done|lia|by left|].
      constructor; [|done..|exists []; by rewrite app_nil_r].
      unfold coreB; simpl. by rewrite Hc.
  - apply wp_deref. intros h Hh. apply wp_bumpToBallot. intros s' Hq.
    apply HQ. exists h, h. rewrite Hc, compareBallots_refl. split_and!; [done|lia|by right|done].
Qed.

Lemma wp_sendLatestEnvelope Q s : (forall s', quiet s s' -> Q () s') ->
  wp E sendLatestEnvelope Q s.
Proof.
  intros HQ. unfold sendLatestEnvelope, wp, mbind, M_bind, get.
  destruct (mLastEnvelope (ballotProtocol s)) as [[ptr env]|]; [|by apply HQ, quiet_refl].
  destruct (_ && _); [|by apply HQ, quiet_refl].
  destruct (mLastEnvelopeEmit _) as [[ptr' env']|];
    [destruct (negb _); [|by apply HQ, quiet_refl]|];
    (apply HQ; constructor; [done..|]; by exists [emitEnvelope env]).
Qed.

Lemma wp_storeLastEnvelope {A} env (k : () -> M SlotState A) Q s :
  (forall s', quiet s s' -> wp E (k ()) Q s') -> wp E (storeLastEnvelope env ≫= k) Q s.
Proof.
  intros HQ. apply wp_bind. apply HQ. constructor; [done..|]. exists []. by rewrite app_nil_r.
Qed.

(** In the [CONFIRM] phase without [mCommit], creating a statement is fatal. *)
Lemma wp_createStatement_dead {A} (k : SCPStatement -> M SlotState A) Q s :
  mCommit (ballotProtocol s) = None ->
  wp E (createStatement c SCP_PHASE_CONFIRM ≫= k) Q s.
Proof.
  intros Hc. apply wp_ro; [auto with scp|]. intros st Hst. exfalso.
  unfold createStatement in Hst.
  apply readonly_bind_inv in Hst as (? & _ & Hst); [|auto with scp].
  apply readonly_bind_inv in Hst as (b & [= <-] & Hst); [|auto with scp].
  apply readonly_bind_inv in Hst as (? & _ & Hst); [|auto with scp].
  apply readonly_bind_inv in Hst as (cur & _ & Hst); [|auto with scp].
  apply readonly_bind_inv in Hst as (p & _ & Hst); [|auto with scp].
  apply readonly_bind_inv in Hst as (com & [Hcom _]%deref_inv & Hst); [|auto with scp].
  congruence.
Qed.

End running.

(** ** The member functions *)

Lemma follows_ex c s s' e : follows c s s' -> fatal e = true \/ follows c s s'.
Proof. auto. Qed.

Section members.
Context (c : Ctx).
Context (sp : SCPEnvelope -> bool -> M SlotState EnvelopeState).
Hypothesis sp_steps : forall e self, steps c (sp e self).

Abbreviation ex s := (fun (e : exn) (s' : SlotState) => fatal e = true \/ follows c s s') (only parsing).

Lemma fatal_ex s e s' : fatal e = true -> ex s e s'.
Proof. by left. Qed.
Hint Resolve fatal_ex : scp.

Lemma steps_modifyB_quiet f : (forall b, coreB (f b) = coreB b) -> steps c (modifyB f).
Proof. intros Hf s Hs. apply quiet_follows; [done|]. by apply quiet_withB. Qed.

Lemma steps_tell e : match e with valueExternalized _ => False | _ => True end -> steps c (tell e).
Proof. intros He s Hs. apply quiet_follows; [done|]. by apply quiet_tell. Qed.

Lemma steps_sendLatestEnvelope : steps c sendLatestEnvelope.
Proof. intros s Hs. apply wp_sendLatestEnvelope. intros s'. by apply quiet_follows. Qed.

Lemma steps_emitCurrentStateStatement : steps c (emitCurrentStateStatement c sp).
Proof.
  apply steps_getB. intros s Hs. apply wp_ro; [auto with scp|auto with scp|]. intros st _.
  cbv zeta. destruct (decide _); [by apply follows_refl|]. clear n.
  generalize (bool_decide (is_Some (mCurrentBallot (ballotProtocol s)))) as canEmit. intros canEmit.
  revert s Hs. apply steps_bind; [apply sp_steps|]. intros [|]; [apply steps_throw|].
  apply steps_getB. intros s Hs.
  destruct (_ && _); [|by apply follows_refl]. apply wp_storeLastEnvelope. intros s1 Hq.
  apply wp_steps; [apply steps_sendLatestEnvelope|by apply quiet_follows|done].
Qed.

(** Emitting in the [CONFIRM] phase without [mCommit] is fatal. *)
Lemma wp_emit_dead s s1 Q : mPhase (ballotProtocol s1) = SCP_PHASE_CONFIRM ->
  mCommit (ballotProtocol s1) = None -> wp (ex s) (emitCurrentStateStatement c sp) Q s1.
Proof.
  intros Hp Hc. apply wp_getB. rewrite Hp. apply wp_createStatement_dead; auto with scp.
Qed.

(** *** setPrepared *)

(** What [preparedAcceptLoop] has checked of a ballot when it accepts it. *)
Record acceptable (b : BallotProtocol) (ballot : SCPBallot) : Prop := {
  acc_phase : mPhase b <> SCP_PHASE_EXTERNALIZE;
  acc_confirm : mPhase b = SCP_PHASE_CONFIRM -> exists p, mPrepared b = Some p /\ LAC p ballot;
  acc_prime : forall p', mPreparedPrime b = Some p' -> compareBallots p' ballot < 0;
  acc_prepared : forall p, mPrepared b = Some p -> ~ LAC ballot p }.

(** The new [p] and [p']. *)
Definition preparedWith (ballot : SCPBallot) (b : BallotProtocol) : BallotProtocol :=
  match mPrepared b with
  | None => set_mPrepared (Some ballot) b
  | Some p =>
      if compareBallots p ballot <? 0 then
        set_mPrepared (Some ballot)
          (if areBallotsCompatible p ballot then b else set_mPreparedPrime (Some p) b)
      else set_mPreparedPrime (Some ballot) b
  end.

Lemma setPrepared_run ballot s : acceptable (ballotProtocol s) ballot ->
  setPrepared ballot s = Ret true (withB (preparedWith ballot) s).
Proof.
  intros [_ _ Hp' Hp]. unfold setPrepared, preparedWith, withB.
  unfold mbind, M_bind, getB, modifyB, modify, mret, M_ret.
  destruct (mPrepared (ballotProtocol s)) as [p|] eqn:Ep; [|done].
  destruct (Z.ltb_spec (compareBallots p ballot) 0).
  { by destruct (areBallotsCompatible p ballot). }
  assert (compareBallots p ballot <> 0).
  { intros ->%compareBallots_eq. apply (Hp ballot); auto with scp. }
  destruct (Z.ltb_spec 0 (compareBallots p ballot)); [|lia].
  destruct (mPreparedPrime (ballotProtocol s)) as [p'|] eqn:Ep'; [|done].
  specialize (Hp' p' eq_refl). destruct (Z.ltb_spec (compareBallots p' ballot) 0); [done | lia].
Qed.

Lemma follows_withB f s : SlotInv s ->
  BallotInv (withB f s) (f (ballotProtocol s)) ->
  BallotMono c s (withB f s) (ballotProtocol s) (f (ballotProtocol s)) -> follows c s (withB f s).
Proof.
  intros [_ HN] HI HM. split; [constructor; [done|]|constructor; [done|done|apply NominationMono_refl]].
  destruct HN. by constructor.
Qed.

Lemma LAC_not_lt ballot p : compareBallots ballot p <= 0 -> ~ LAC ballot p -> value ballot <> value p.
Proof. intros H1 H2 E. by apply H2, compare_LAC. Qed.

Lemma preparedWith_follows ballot s : SlotInv s -> acceptable (ballotProtocol s) ballot ->
  prepareAccepted c (mStatementsHistory s) ballot -> follows c s (withB (preparedWith ballot) s).
Proof.
  intros Hs [HE HC Hp' Hp] Hev. apply follows_withB; [done| |].
  - destruct Hs as [[I1 I2 I3 I4 I5 I6 I7] _]. unfold preparedWith.
    destruct (mPrepared (ballotProtocol s)) as [p|] eqn:Ep; [destruct (Z.ltb_spec (compareBallots p ballot) 0)|].
    + destruct (areBallotsCompatible p ballot) eqn:Ec.
      * constructor; simpl; auto. apply areBallotsCompatible_spec in Ec.
        destruct (mPreparedPrime (ballotProtocol s)) as [p'|] eqn:Ep'; [|done].
        rewrite <- Ec. split; [|apply I1]. eapply compareBallots_le_trans; [apply I1 | lia].
      * apply not_true_iff_false in Ec. rewrite areBallotsCompatible_spec in Ec.
        constructor; simpl; auto; [split; [lia | done]|]. intros HP.
        destruct (HC ltac:(by destruct (mPhase (ballotProtocol s)))) as (p0 & [= <-] & HL).
        by destruct HL.
    + assert (compareBallots ballot p <= 0) by (rewrite (compareBallots_opp p); lia).
      constructor; simpl; auto; rewrite ?Ep.
      * split; [done|]. by apply LAC_not_lt, Hp.
      * intros HP. destruct (HC ltac:(by destruct (mPhase (ballotProtocol s)))) as (p0 & [= <-] & HL).
        exfalso. apply (Hp p eq_refl), compare_LAC; [done|]. by destruct HL.
    + constructor; simpl; auto. by destruct (mPreparedPrime (ballotProtocol s)).
  - unfold preparedWith.
    destruct (mPrepared (ballotProtocol s)) as [p|] eqn:Ep; [destruct (Z.ltb_spec (compareBallots p ballot) 0)|].
    all: constructor; try destruct (areBallotsCompatible p ballot); simpl; rewrite ?Ep; simpl;
      rewrite ?compareBallots_ptr_refl, ?compareBallots_refl; auto using sameOrNewer_refl; try lia; try done.
    all: try (intros _ com ->; by eauto).
    all: try (exists []; rewrite app_nil_r; split; [done | by left]).
    all: naive_solver.
Qed.

Ltac mono_tac :=
  simpl; rewrite ?compareBallots_ptr_refl, ?compareBallots_refl;
  auto using sameOrNewer_refl; try lia; try done;
  try (intros _ com ->; by eauto);
  try (exists []; rewrite app_nil_r; split; [done | by left]);
  try tauto; try naive_solver; try (intros; exfalso; congruence).

Lemma uncommit_follows s : SlotInv s -> mPhase (ballotProtocol s) = SCP_PHASE_PREPARE ->
  follows c s (withB (set_mCommit None) s).
Proof.
  intros Hs HP. apply follows_withB; [done| |].
  - destruct Hs as [[I1 I2 I3 I4 I5 I6 I7] _]. by constructor.
  - constructor; mono_tac.
Qed.

(** Telling the driver, emitting, and returning whether something changed. *)
Lemma wp_tell_emit s s1 e (r : bool) : match e with valueExternalized _ => False | _ => True end ->
  follows c s s1 ->
  wp (ex s) (tell e;; emitCurrentStateStatement c sp;; mret r) (fun _ s' => follows c s s') s1.
Proof.
  intros He H1. apply wp_tell, wp_bind.
  eapply wp_steps; [apply steps_emitCurrentStateStatement| |done].
  eapply follows_quiet; [done | by apply quiet_tell].
Qed.

Lemma wp_setPreparedAccept ballot s : SlotInv s -> acceptable (ballotProtocol s) ballot ->
  prepareAccepted c (mStatementsHistory s) ballot ->
  wp (ex s) (setPreparedAccept c sp ballot) (fun _ s' => follows c s s') s.
Proof.
  intros Hs Ha Hev. unfold setPreparedAccept. apply wp_bind. unfold wp at 1.
  rewrite setPrepared_run by done. pose proof (preparedWith_follows _ _ Hs Ha Hev) as H1.
  assert (mPhase (ballotProtocol (withB (preparedWith ballot) s)) <> SCP_PHASE_EXTERNALIZE) as HP.
  { simpl. unfold preparedWith. destruct Ha as [HE _ _ _]. clear -HE.
    repeat case_match; simpl; done. }
  revert H1 HP. generalize (withB (preparedWith ballot) s) as s1. intros s1 H1 HP.
  apply wp_getB. destruct (mCommit (ballotProtocol s1)) as [com|] eqn:Ec;
    [destruct (mHighBallot (ballotProtocol s1)) as [h|] eqn:Eh|];
    try (apply wp_tell_emit; [done | exact H1]).
  destruct (_ || _); [|by apply wp_tell_emit].
  apply wp_bind, wp_ro; [auto with scp|auto with scp|]. intros _ _. apply wp_modifyB.
  destruct (mPhase (ballotProtocol s1)) eqn:EP; [| |done].
  - apply wp_tell_emit; [done|]. eapply follows_trans; [done|].
    apply uncommit_follows; [apply H1 | done].
  - apply wp_tell, wp_bind. by apply wp_emit_dead.
Qed.

Lemma steps_preparedAcceptLoop l s : SlotInv s -> mPhase (ballotProtocol s) <> SCP_PHASE_EXTERNALIZE ->
  wp (ex s) (preparedAcceptLoop c sp l) (fun _ s' => follows c s s') s.
Proof.
  intros Hs HP. induction l as [|ballot l IH]; simpl; [by apply follows_refl|].
  apply wp_getB, wp_ro; [auto with scp|solve_readonly|]. intros [|] Hskip; [done|].
  destruct (match mPreparedPrime _ with Some p' => _ | None => _ end) eqn:Hp'; [done|].
  destruct (match mPrepared _ with Some p => _ | None => _ end) eqn:Hp; [done|].
  apply wp_ro; [auto with scp..|]. intros [|] Hacc; [|done].
  apply wp_setPreparedAccept; [done| |by eapply bp_federatedAccept_true].
  constructor; [done| | |].
  - intros E. rewrite E in Hskip.
    apply readonly_bind_inv in Hskip as (p & [Ep _]%deref_inv & Hskip); [|auto with scp].
    exists p. split; [done|]. destruct (areBallotsLessAndCompatible p ballot) eqn:EL; [|done].
    by apply areBallotsLessAndCompatible_spec.
  - intros p' E. rewrite E in Hp'. propify. rewrite (compareBallots_opp ballot). lia.
  - intros p E. rewrite E in Hp. rewrite <- areBallotsLessAndCompatible_spec. congruence.
Qed.

Lemma prepareOrConfirm_true p : negb (prepareOrConfirm p) = false -> p <> SCP_PHASE_EXTERNALIZE.
Proof. by destruct p. Qed.

Lemma steps_attemptPreparedAccept hint : steps c (attemptPreparedAccept c sp hint).
Proof.
  apply steps_getB. intros s Hs. destruct (negb _) eqn:HP; [by apply follows_refl|].
  apply steps_preparedAcceptLoop; [done | by apply prepareOrConfirm_true].
Qed.

(** *** setPreparedConfirmed *)

Definition optCommit (newC : SCPBallot) (b : BallotProtocol) : BallotProtocol :=
  if counter newC =? 0 then b else set_mCommit (Some newC) b.

(** [h], [c] and the ballot that follows them, in the [PREPARE] phase. *)
Lemma confirmed_follows newC newH cur s : SlotInv s ->
  mPhase (ballotProtocol s) = SCP_PHASE_PREPARE -> compareBallots newH cur <= 0 ->
  prepareRatified c (mStatementsHistory s) newH ->
  (counter newC <> 0 -> prepareRatified c (mStatementsHistory s) newC) ->
  compareBallots_ptr (mCurrentBallot (ballotProtocol s)) (Some cur) <= 0 ->
  follows c s (withB (fun b => set_mCurrentBallot (Some cur)
    (optCommit newC (set_mHighBallot (Some newH) b))) s).
Proof.
  intros Hs HP Hcur HH HC Hup. apply follows_withB; [done| |]; unfold optCommit;
    destruct (Z.eqb_spec (counter newC) 0).
  1,2: destruct Hs as [[I1 I2 I3 I4 I5 I6 I7] _]; constructor; simpl; auto; try congruence.
  - intros h [= <-]. eauto.
  - intros com Hcom. destruct (I3 com Hcom) as [? _]. eauto.
  - intros h [= <-]. eauto.
  - intros com [= <-]. eauto.
  - constructor; mono_tac.
  - constructor; mono_tac.
Qed.

Lemma wp_setPreparedConfirmed newC newH s : SlotInv s ->
  mPhase (ballotProtocol s) = SCP_PHASE_PREPARE ->
  compareBallots_ptr (mHighBallot (ballotProtocol s)) (Some newH) < 0 ->
  prepareRatified c (mStatementsHistory s) newH ->
  (counter newC <> 0 -> prepareRatified c (mStatementsHistory s) newC) ->
  wp (ex s) (setPreparedConfirmed c sp newC newH) (fun _ s' => follows c s s') s.
Proof.
  intros Hs HP Hlt HH HC. unfold setPreparedConfirmed. apply wp_getB.
  replace (match mHighBallot (ballotProtocol s) with None => true | Some h => _ end) with true.
  2: { symmetry. destruct (mHighBallot (ballotProtocol s)) as [h|]; [|done]. simpl in Hlt.
       apply Z.ltb_lt. rewrite (compareBallots_opp h). lia. }
  apply wp_bind, wp_modifyB.
  assert (forall s1, quiet (withB (fun b => optCommit newC (set_mHighBallot (Some newH) b)) s) s1 ->
    wp (ex s) (updateCurrentIfNeeded c;; tell (confirmedBallotPrepared newH);;
      emitCurrentStateStatement c sp;; mret true) (fun _ s' => follows c s s') s1) as Hrest.
  { intros s1 H1. apply wp_bind, wp_updateCurrentIfNeeded; [auto with scp|].
    intros s2 (h & cur & Eh & Hle & Hup & Hq). apply wp_tell_emit; [done|].
    assert (mCurrentBallot (ballotProtocol s1) = mCurrentBallot (ballotProtocol s)) as Ecur.
    { apply quiet_ballot in H1. injection H1 as _ H1 _ _ _ _ _ _. rewrite H1.
      unfold optCommit. by destruct (_ =? 0). }
    rewrite Ecur in Hup.
    assert (h = newH) as ->.
    { apply quiet_ballot in H1. injection H1 as _ _ _ _ H1 _ _ _. rewrite Eh in H1.
      unfold optCommit in H1. destruct (_ =? 0); simpl in H1; congruence. }
    assert (compareBallots_ptr (mCurrentBallot (ballotProtocol s)) (Some cur) <= 0) as Hup'.
    { destruct Hup as [->|[Hup ->]]; [rewrite compareBallots_ptr_refl|]; lia. }
    eapply follows_quiet; [apply (confirmed_follows newC newH cur); done|].
    eapply quiet_trans; [|exact Hq].
    apply (quiet_withB_2 (set_mCurrentBallot (Some cur))) in H1; [exact H1|].
    unfold coreB. simpl. congruence. }
  apply wp_bind. unfold optCommit in Hrest. destruct (_ =? 0); simpl.
  - apply Hrest, quiet_refl.
  - apply wp_ro; [auto with scp..|]. intros _ _. apply wp_modifyB, Hrest, quiet_refl.
Qed.

Lemma findNewH_sound mHigh l s newH cur : SlotInv s ->
  findNewH c mHigh l s = Ret (Some (newH, cur)) s ->
  prepareRatified c (mStatementsHistory s) newH /\ compareBallots_ptr mHigh (Some newH) < 0.
Proof.
  intros Hs. induction l as [|x l IH]; simpl; [done|].
  destruct (match mHigh with Some h => _ | None => _ end) eqn:Eh; [done|].
  intros (r & Hr & Hk)%readonly_bind_inv; [|auto with scp]. destruct r; [|by apply IH].
  injection Hk as <- <-. split; [by eapply bp_federatedRatify_true|].
  destruct mHigh as [h|]; simpl; [|lia]. by propify.
Qed.

Lemma findNewC_sound b newC l s r s' : SlotInv s ->
  (counter newC <> 0 -> prepareRatified c (mStatementsHistory s) newC) ->
  findNewC c b newC l s = Ret r s' ->
  counter r <> 0 -> prepareRatified c (mStatementsHistory s) r.
Proof.
  intros Hs. revert newC. induction l as [|x l IH]; intros newC HC; simpl.
  { injection 1 as <- <-. done. }
  destruct (_ <? 0); [by injection 1 as <- <-|].
  intros (v & Hr & Hk)%readonly_bind_inv; [|auto with scp]. destruct v.
  - eapply IH; [|done]. intros _. by eapply bp_federatedRatify_true.
  - injection Hk as <- <-. done.
Qed.

Lemma steps_attemptPreparedConfirmed hint : steps c (attemptPreparedConfirmed c sp hint).
Proof.
  apply steps_getB. intros s Hs. destruct (mPhase (ballotProtocol s)) eqn:HP;
    [|by apply follows_refl..].
  destruct (mPrepared (ballotProtocol s)) as [p|]; [|by apply follows_refl].
  apply wp_ro; [auto with scp..|]. intros [[newH cur]|] Hfound; [|by apply follows_refl].
  destruct (findNewH_sound _ _ _ _ _ Hs Hfound) as [HH Hlt].
  cbv zeta. apply wp_ro; [auto with scp|destruct (_ && _); auto with scp|]. intros newC HnewC.
  apply wp_setPreparedConfirmed; [done..|].
  destruct (_ && _ && _).
  - eapply findNewC_sound; [done| |done]. done.
  - injection HnewC as <-. done.
Qed.

(** *** setAcceptCommit *)

(** [c], [h], the ballot and the phase once a commit is accepted. *)
Definition committedWith (com h cur : SCPBallot) (ph : SCPPhase) (b : BallotProtocol) : BallotProtocol :=
  set_mPreparedPrime None (set_mPhase ph (set_mCurrentBallot (Some cur)
    (set_mHighBallot (Some h) (set_mCommit (Some com) b)))).

Lemma committed_inv com h cur ph s : SlotInv s -> counter com <> 0 -> LAC com h -> LAC h cur ->
  BallotInv (withB (committedWith com h cur ph) s)
    (committedWith com h cur ph (ballotProtocol s)).
Proof.
  intros [[I1 I2 I3 I4 I5 I6 I7] _] H0 H1 H2. constructor; simpl; auto.
  - destruct (mPrepared (ballotProtocol s)); done.
  - intros h' [= <-]. exists cur. auto with scp.
  - intros com' [= <-]. eauto.
  - intros _. split; [done|]. exists com, h, cur. auto.
Qed.

Lemma accepted_follows com h cur s : SlotInv s ->
  mPhase (ballotProtocol s) <> SCP_PHASE_EXTERNALIZE -> counter com <> 0 -> LAC com h -> LAC h cur ->
  commitAccepted c (mStatementsHistory s) com h ->
  (mPhase (ballotProtocol s) = SCP_PHASE_CONFIRM ->
     (forall x, mCommit (ballotProtocol s) = Some x -> value com = value x) /\
     compareBallots_ptr (mCurrentBallot (ballotProtocol s)) (Some cur) <= 0) ->
  follows c s (withB (committedWith com h cur SCP_PHASE_CONFIRM) s).
Proof.
  intros Hs HP H0 H1 H2 Hev HC. apply follows_withB; [done|by apply committed_inv|].
  destruct (mPhase (ballotProtocol s)) eqn:EP; [| |done]; (constructor; simpl; rewrite ?EP; mono_tac).
Qed.

(** [c] and [h] are written, or were so already. *)
Lemma wp_write_commit {A} (cond : bool) com h (k : bool -> M SlotState A) s Q :
  (cond = false -> mCommit (ballotProtocol s) = Some com /\ mHighBallot (ballotProtocol s) = Some h) ->
  (forall s1, quiet (withB (fun b => set_mHighBallot (Some h) (set_mCommit (Some com) b)) s) s1 ->
     (cond = false -> s1 = s) -> wp (ex s) (k cond) Q s1) ->
  wp (ex s) ((if cond then modifyB (set_mCommit (Some com));; modifyB (set_mHighBallot (Some h));; mret true
              else mret false) ≫= k) Q s.
Proof.
  intros Hc Hk. destruct cond; apply wp_bind.
  - apply wp_modifyB, wp_modifyB. apply Hk; [apply quiet_refl | done].
  - apply Hk; [|done]. destruct (Hc eq_refl) as [E1 E2].
    constructor; [|done..|exists []; by rewrite app_nil_r]. unfold coreB; simpl. by rewrite E1, E2.
Qed.

Lemma quiet_withB_eq f g s s' : quiet (withB f s) s' ->
  coreB (g (ballotProtocol s)) = coreB (f (ballotProtocol s)) -> quiet (withB g s) s'.
Proof. intros [A1 A2 A3 A4] He. constructor; [|done..]. simpl in *. congruence. Qed.

Lemma quiet_high f s s1 h : quiet (withB f s) s1 ->
  mHighBallot (f (ballotProtocol s)) = Some h -> mHighBallot (ballotProtocol s1) = Some h.
Proof. intros [Hq _ _ _]. unfold coreB in Hq. simpl in Hq. congruence. Qed.

Lemma quiet_current f s s1 : quiet (withB f s) s1 ->
  mCurrentBallot (ballotProtocol s1) = mCurrentBallot (f (ballotProtocol s)).
Proof. intros [Hq _ _ _]. unfold coreB in Hq. simpl in Hq. congruence. Qed.

(** The end of [setAcceptCommit] and of [setConfirmCommit]: the ballot is raised
    to the new [h], to which it is compatible. *)
Lemma raised_committed com h ph s s1 s2 f :
  quiet (withB f s) s1 -> raised s1 s2 ->
  coreB (set_mCurrentBallot None (f (ballotProtocol s))) =
    coreB (set_mCurrentBallot None (committedWith com h com ph (ballotProtocol s))) ->
  (forall x, mCurrentBallot (f (ballotProtocol s)) = Some x -> value x = value h) ->
  exists cur, quiet (withB (committedWith com h cur ph) s) s2 /\ LAC h cur /\
    compareBallots_ptr (mCurrentBallot (f (ballotProtocol s))) (Some cur) <= 0.
Proof.
  intros Hq (h' & cur & Eh & Hle & Hcur & Hq') He Hv.
  assert (h' = h) as ->.
  { apply quiet_ballot in Hq. unfold coreB in Hq, He. simpl in Hq, He. congruence. }
  rewrite (quiet_current _ _ _ Hq) in Hcur. exists cur. split_and!.
  - eapply quiet_trans; [|exact Hq'].
    apply (quiet_withB_2 (set_mCurrentBallot (Some cur))) in Hq; [|unfold coreB; simpl; congruence].
    apply (quiet_withB_eq (fun b => set_mCurrentBallot (Some cur) (f b)) _ s _ Hq).
    revert He. unfold coreB. simpl. congruence.
  - destruct Hcur as [Hcur|[_ ->]]; [|done]. apply compare_LAC; [done|]. symmetry. by apply Hv.
  - destruct Hcur as [->|[Hcur ->]]; [|lia]. rewrite compareBallots_ptr_refl. lia.
Qed.

(** The end of [setAcceptCommit]. *)
Definition acceptCommitEnd (h : SCPBallot) : M SlotState bool :=
  updateCurrentIfNeeded c;; tell (acceptedCommit h);; emitCurrentStateStatement c sp;; mret true.

(** The commit, its phase and the ballot, before the ballot is raised. *)
Definition leavePrepare (com h : SCPBallot) (cur : option SCPBallot) (b : BallotProtocol) : BallotProtocol :=
  set_mCurrentBallot cur (set_mPhase SCP_PHASE_CONFIRM
    (set_mHighBallot (Some h) (set_mCommit (Some com) b))).

Section accept_commit.
Context (com h : SCPBallot) (s : SlotState).
Hypothesis Hs : SlotInv s.
Hypothesis H0 : counter com <> 0.
Hypothesis HL : LAC com h.
Hypothesis Hev : commitAccepted c (mStatementsHistory s) com h.

Lemma wp_leavePrepare_end cur0 s2 : mPhase (ballotProtocol s) = SCP_PHASE_PREPARE ->
  (forall x, cur0 = Some x -> value x = value h) -> quiet (withB (leavePrepare com h cur0) s) s2 ->
  wp (ex s) (modifyB (set_mPreparedPrime None);; mret true)
    (fun didWork s' => wp (ex s) (if didWork : bool then acceptCommitEnd h else mret false)
       (fun _ s'' => follows c s s'') s') s2.
Proof.
  intros EP Hv H2. apply wp_modifyB.
  apply (quiet_withB_2 (set_mPreparedPrime None)) in H2; [|unfold coreB; simpl; congruence].
  apply wp_ret, wp_bind, wp_updateCurrentIfNeeded; [auto with scp|]. intros s3 H3.
  destruct (raised_committed com h SCP_PHASE_CONFIRM _ _ _
    (fun b => set_mPreparedPrime None (leavePrepare com h cur0 b)) H2 H3)
    as (cur & Hq & HLc & _); [done|by apply Hv|].
  apply wp_tell_emit; [done|]. eapply follows_quiet; [|exact Hq].
  apply accepted_follows; try done; by rewrite EP.
Qed.

(** The slot leaves the [PREPARE] phase. *)
Lemma wp_leavePrepare s1 : mPhase (ballotProtocol s) = SCP_PHASE_PREPARE ->
  quiet (withB (fun b => set_mHighBallot (Some h) (set_mCommit (Some com) b)) s) s1 ->
  wp (ex s) (modifyB (set_mPhase SCP_PHASE_CONFIRM);;
      match mCurrentBallot (ballotProtocol s) with
      | Some cur => if negb (areBallotsLessAndCompatible h cur) then bumpToBallot c h false else mret ()
      | None => mret ()
      end;; modifyB (set_mPreparedPrime None);; mret true)
    (fun didWork s' => wp (ex s) (if didWork : bool then acceptCommitEnd h else mret false)
       (fun _ s'' => follows c s s'') s') s1.
Proof.
  intros EP H1. apply wp_modifyB, wp_bind.
  apply (quiet_withB_2 (set_mPhase SCP_PHASE_CONFIRM)) in H1; [|unfold coreB; simpl; congruence].
  change (quiet (withB (fun b => set_mPhase SCP_PHASE_CONFIRM
    (set_mHighBallot (Some h) (set_mCommit (Some com) b))) s) (withB (set_mPhase SCP_PHASE_CONFIRM) s1)) in H1.
  destruct (mCurrentBallot (ballotProtocol s)) as [x|] eqn:Ex; [destruct (negb _) eqn:EL|].
  - apply wp_bumpToBallot; [auto with scp|]. intros s2 H2.
    apply (wp_leavePrepare_end (Some h)); [done|congruence|].
    eapply quiet_trans; [|exact H2]. by apply (quiet_withB_2 (set_mCurrentBallot (Some h))) in H1;
      [|unfold coreB; simpl; congruence].
  - apply wp_ret, (wp_leavePrepare_end (Some x)); [done|..].
    + apply negb_false_iff, areBallotsLessAndCompatible_spec in EL as [_ EL]. congruence.
    + eapply (quiet_withB_eq _ _ s); [exact H1|]. unfold coreB; simpl. by rewrite Ex.
  - apply wp_ret, (wp_leavePrepare_end None); [done|done|].
    eapply (quiet_withB_eq _ _ s); [exact H1|]. unfold coreB; simpl. by rewrite Ex.
Qed.

(** The slot is in the [CONFIRM] phase already. *)
Lemma wp_confirm_more s1 : mPhase (ballotProtocol s) = SCP_PHASE_CONFIRM ->
  (forall x, mHighBallot (ballotProtocol s) = Some x -> value x = value h) ->
  quiet (withB (fun b => set_mHighBallot (Some h) (set_mCommit (Some com) b)) s) s1 ->
  wp (ex s) (acceptCommitEnd h) (fun _ s' => follows c s s') s1.
Proof.
  intros EP Hcompat H1.
  destruct (inv_confirm _ _ (inv_ballot _ Hs)) as (Ep' & c0 & h0 & x & Ec & Eh & Ex & L1 & L2);
    [by rewrite EP|].
  pose proof (Hcompat _ Eh) as Ev.
  apply wp_bind, wp_updateCurrentIfNeeded; [auto with scp|]. intros s2 H2.
  destruct (raised_committed com h SCP_PHASE_CONFIRM _ _ _ _ H1 H2) as (cur & Hq & HLc & Hge).
  { unfold coreB; simpl. by rewrite EP, Ep'. }
  { simpl. rewrite Ex. intros ? [= <-]. destruct L2. congruence. }
  apply wp_tell_emit; [done|]. eapply follows_quiet; [|exact Hq].
  apply accepted_follows; try done; [by rewrite EP|]. intros _. split; [|done].
  intros y Ey. destruct L1, HL. congruence.
Qed.

Lemma wp_setAcceptCommit : mPhase (ballotProtocol s) <> SCP_PHASE_EXTERNALIZE ->
  (mPhase (ballotProtocol s) = SCP_PHASE_CONFIRM ->
     forall x, mHighBallot (ballotProtocol s) = Some x -> value x = value h) ->
  wp (ex s) (setAcceptCommit c sp com h) (fun _ s' => follows c s s') s.
Proof.
  intros HP Hcompat. unfold setAcceptCommit. apply wp_getB, wp_write_commit.
  { destruct (mHighBallot (ballotProtocol s)) as [h0|], (mCommit (ballotProtocol s)) as [c0|]; try done.
    intros [E1 E2]%orb_false_iff. propify. apply compareBallots_eq in E1, E2. by subst. }
  intros s1 H1 Hcond. apply wp_bind. destruct (mPhase (ballotProtocol s)) eqn:EP; [| |done].
  - by apply wp_leavePrepare.
  - apply wp_ret. lazymatch type of Hcond with ?x = false -> _ => destruct x end.
    + apply wp_confirm_more; auto.
    + rewrite Hcond by done. by apply follows_refl.
Qed.

End accept_commit.

(** A search for an interval: what is found satisfies the predicate. *)
Lemma wp_findExtendedInterval {A} l pred (k : Z * Z -> M SlotState A) Q s :
  (forall x, readonly (pred x)) ->
  (forall lo hi, (lo <> 0 -> pred (lo, hi) s = Ret true s /\ lo <= hi) -> wp (ex s) (k (lo, hi)) Q s) ->
  wp (ex s) (findExtendedInterval (0, 0) l pred ≫= k) Q s.
Proof.
  intros Hro Hk. apply wp_ro; [auto with scp|by apply readonly_findExtendedInterval|].
  intros [lo hi] Hr. apply Hk.
  apply findExtendedInterval_sound in Hr as [_ Hr]; [|done|done]. done.
Qed.

Lemma steps_attemptAcceptCommit hint : steps c (attemptAcceptCommit c sp hint).
Proof.
  apply steps_getB. intros s Hs. destruct (negb _) eqn:EP; [by apply follows_refl|].
  apply prepareOrConfirm_true in EP.
  destruct (acceptCommitBallot hint) as [ballot|]; [|by apply follows_refl].
  apply wp_ro; [auto with scp|solve_readonly|]. intros [|] Hskip; [by apply follows_refl|].
  cbv zeta. destruct (decide _); [by apply follows_refl|].
  apply wp_findExtendedInterval; [auto with scp|]. intros lo hi Hc. simpl.
  destruct (Z.eqb_spec lo 0); [by apply follows_refl|]. destruct (Hc n0) as [Hacc Hle].
  apply wp_ro; [auto with scp|solve_readonly|]. intros [|] _; [|by apply follows_refl].
  apply wp_setAcceptCommit; [done|done|done|by eapply bp_federatedAccept_true|done|].
  intros E x Ex. rewrite E in Hskip.
  apply readonly_bind_inv in Hskip as (h & [Eh _]%deref_inv & [= Hskip]); [|auto with scp].
  apply negb_false_iff, areBallotsCompatible_spec in Hskip. simpl. congruence.
Qed.

(** *** setConfirmCommit *)

Lemma externalized_follows com h cur s : SlotInv s ->
  mPhase (ballotProtocol s) = SCP_PHASE_CONFIRM -> counter com <> 0 -> LAC com h -> LAC h cur ->
  commitRatified c (mStatementsHistory s) com h ->
  (forall x, mCommit (ballotProtocol s) = Some x -> value com = value x) ->
  compareBallots_ptr (mCurrentBallot (ballotProtocol s)) (Some cur) <= 0 ->
  follows c s (withB (committedWith com h cur SCP_PHASE_EXTERNALIZE) s).
Proof.
  intros Hs HP H0 H1 H2 Hev HC Hcur. apply follows_withB; [done|by apply committed_inv|].
  constructor; simpl; rewrite ?HP; mono_tac.
Qed.

(** Telling the driver of the value, once the slot is externalized. *)
Lemma follows_externalized s s1 s2 com :
  follows c s s1 -> follows c s1 s2 -> mPhase (ballotProtocol s) <> SCP_PHASE_EXTERNALIZE ->
  mPhase (ballotProtocol s1) = SCP_PHASE_EXTERNALIZE ->
  (exists k, events s1 = events s ++ k /\ externalizedValues k = []) ->
  mCommit (ballotProtocol s2) = Some com ->
  follows c s (set_events (events s2 ++ [valueExternalized (value com)]) s2).
Proof.
  intros H1 H2 HP HP1 (k1 & E1 & X1) Hc. pose proof (follows_trans _ _ _ _ H1 H2) as [Hs2 [A B C]].
  destruct Hs2 as [[I1 I2 I3 I4 I5 I6 I7] [J1 J2 J3 J4]]. destruct H2 as [_ [_ M2 _]].
  split; [split; by constructor|]. constructor; [done| |by destruct C; constructor].
  destruct B. constructor; try done. clear - HP HP1 E1 X1 Hc M2. simpl.
  destruct (mono_told _ _ _ _ _ M2) as (k2 & E2 & [X2|[? _]]); [|done].
  exists (k1 ++ k2 ++ [valueExternalized (value com)]). split.
  { by rewrite E2, E1, !(assoc_L (++)). }
  right. split_and!; [done| |].
  - destruct (mono_frozen _ _ _ _ _ M2 HP1) as [-> _]. done.
  - exists com. split; [done|]. by rewrite !externalizedValues_app, X1, X2.
Qed.

Lemma wp_setConfirmCommit com h s : SlotInv s ->
  mPhase (ballotProtocol s) = SCP_PHASE_CONFIRM -> counter com <> 0 -> LAC com h ->
  commitRatified c (mStatementsHistory s) com h ->
  (forall x, mCommit (ballotProtocol s) = Some x -> value com = value x) ->
  wp (ex s) (setConfirmCommit c sp com h) (fun _ s' => follows c s s') s.
Proof.
  intros Hs HP H0 HL Hev HC.
  destruct (inv_confirm _ _ (inv_ballot _ Hs)) as (Ep' & c0 & h0 & x & Ec & Eh & Ex & L1 & L2);
    [by rewrite HP|].
  apply wp_modifyB, wp_modifyB, wp_bind, wp_updateCurrentIfNeeded; [auto with scp|].
  intros s1 H1.
  destruct (raised_committed com h SCP_PHASE_CONFIRM s
    (withB (fun b => set_mHighBallot (Some h) (set_mCommit (Some com) b)) s) s1
    (fun b => set_mHighBallot (Some h) (set_mCommit (Some com) b))) as (cur & Hq & HLc & Hge);
    [apply quiet_refl|done|unfold coreB; simpl; by rewrite HP, Ep'| |].
  { simpl. rewrite Ex. intros ? [= <-]. destruct L1, L2, HL.
    pose proof (HC _ Ec). congruence. }
  apply wp_modifyB, wp_bind.
  apply (quiet_withB_2 (set_mPhase SCP_PHASE_EXTERNALIZE)) in Hq; [|unfold coreB; simpl; congruence].
  change (quiet (withB (committedWith com h cur SCP_PHASE_EXTERNALIZE) s)
    (withB (set_mPhase SCP_PHASE_EXTERNALIZE) s1)) in Hq.
  pose proof (follows_quiet c s _ _ (externalized_follows com h cur s Hs HP H0 HL HLc Hev HC Hge) Hq) as H2.
  eapply wp_conseq; [apply steps_emitCurrentStateStatement, H2| |].
  { intros e s' [?|?]; [by left | right; by eapply follows_trans]. }
  intros u s2 H3. apply wp_bind, wp_modify, wp_getB.
  apply wp_deref; [auto with scp|]. intros com' Hcom'.
  match goal with |- wp _ _ _ ?s3 => assert (follows c (withB (set_mPhase SCP_PHASE_EXTERNALIZE) s1) s3) as H4 end.
  { eapply follows_quiet; [exact H3|]. constructor; [done..|]. exists []. by rewrite app_nil_r. }
  eapply follows_externalized; [exact H2|exact H4|congruence|done| |done].
  destruct Hq as [_ _ _ Hq]. exact Hq.
Qed.

Lemma steps_attemptConfirmCommit hint : steps c (attemptConfirmCommit c sp hint).
Proof.
  apply steps_getB. intros s Hs.
  destruct (mPhase (ballotProtocol s)) eqn:HP; [by apply follows_refl| |by apply follows_refl].
  destruct (mHighBallot (ballotProtocol s)) as [h|]; [|by apply follows_refl].
  destruct (mCommit (ballotProtocol s)) as [com|] eqn:Ec; [|by apply follows_refl].
  destruct (confirmCommitBallot hint) as [ballot|]; [|by apply follows_refl].
  destruct (negb _) eqn:EC; [by apply follows_refl|].
  apply negb_false_iff, areBallotsCompatible_spec in EC.
  apply wp_findExtendedInterval; [auto with scp|]. intros lo hi Hc. simpl.
  destruct (Z.eqb_spec lo 0); [by apply follows_refl|]. destruct (Hc n) as [Hacc Hle].
  apply wp_setConfirmCommit; [done|done|done|done|by eapply bp_federatedRatify_true|].
  intros x Hx. simpl. congruence.
Qed.

(** *** Bumping *)

Lemma bump_follows newb s : SlotInv s -> mPhase (ballotProtocol s) <> SCP_PHASE_EXTERNALIZE ->
  compareBallots_ptr (mCurrentBallot (ballotProtocol s)) (Some newb) < 0 ->
  (forall h, mHighBallot (ballotProtocol s) = Some h -> value newb = value h) ->
  follows c s (withB (set_mCurrentBallot (Some newb)) s).
Proof.
  intros Hs HP Hlt Hv.
  assert (forall h, mHighBallot (ballotProtocol s) = Some h -> compareBallots h newb <= 0) as Hh.
  { intros h Eh. destruct (inv_high _ _ (inv_ballot _ Hs) h Eh) as (cur & Ecur & Hle).
    rewrite Ecur in Hlt. simpl in Hlt. eapply compareBallots_le_trans; [done | lia]. }
  apply follows_withB; [done| |constructor; mono_tac].
  destruct Hs as [[I1 I2 I3 I4 I5 I6 I7] _]. constructor; simpl; auto.
  - intros h Eh. eauto.
  - intros HP'. destruct (I4 HP') as (Ep' & c0 & h0 & x & Ec & Eh & Ex & L1 & L2).
    split; [done|]. exists c0, h0, newb. split_and!; try done.
    apply compare_LAC; [by apply Hh|]. symmetry. by apply Hv.
Qed.

Lemma wp_updateCurrentValue newb s : SlotInv s ->
  (forall h, mHighBallot (ballotProtocol s) = Some h -> value newb = value h) ->
  wp (ex s) (updateCurrentValue c newb) (fun _ s' => follows c s s') s.
Proof.
  intros Hs Hv. apply wp_getB. destruct (negb _) eqn:EP; [by apply follows_refl|].
  apply prepareOrConfirm_true in EP.
  assert (compareBallots_ptr (mCurrentBallot (ballotProtocol s)) (Some newb) < 0 ->
    wp (ex s) (bumpToBallot c newb true;; checkInvariants c;; mret true)
      (fun _ s' => follows c s s') s) as Hbump.
  { intros Hlt. apply wp_bind, wp_bumpToBallot; [auto with scp|]. intros s1 Hq.
    apply wp_ro; [auto with scp..|]. intros _ _. apply wp_ret.
    eapply follows_quiet; [|exact Hq]. by apply bump_follows. }
  destruct (mCurrentBallot (ballotProtocol s)) as [cur|]; [|by apply Hbump].
  apply wp_ro; [auto with scp..|]. intros _ _.
  destruct (match mCommit _ with Some _ => _ | None => _ end); [by apply follows_refl|].
  cbv zeta. destruct (Z.ltb_spec (compareBallots cur newb) 0); [by apply Hbump|].
  destruct (0 <? _); [by apply follows_refl|].
  apply wp_ro; [auto with scp..|]. intros _ _. by apply follows_refl.
Qed.

Lemma steps_bumpState_n v n : steps c (bumpState_n c sp v n).
Proof.
  apply steps_getB. intros s Hs. destruct (negb _) eqn:EP; [by apply follows_refl|].
  cbv zeta. apply wp_bind. eapply wp_mono.
  - apply wp_updateCurrentValue; [done|]. intros h Eh. simpl. by rewrite Eh.
  - intros [|] s1 H1; [by apply wp_tell_emit | done].
Qed.

Lemma steps_bp_bumpState v force : steps c (bp_bumpState c sp v force).
Proof.
  apply steps_getB. intros s Hs. destruct (mCurrentBallot _); [destruct force|];
    [by apply steps_bumpState_n|by apply follows_refl|by apply steps_bumpState_n].
Qed.

Lemma steps_bp_abandonBallot n : steps c (bp_abandonBallot c sp n).
Proof.
  apply steps_bind; [apply steps_readonly; unfold getLatestCompositeCandidate; solve_readonly|].
  intros v. apply steps_getB. intros s Hs. cbv zeta.
  destruct (decide (_ = [])); [by apply follows_refl|].
  destruct (n =? 0); [by apply steps_bp_bumpState | by apply steps_bumpState_n].
Qed.

Lemma steps_startBallotProtocolTimer : steps c startBallotProtocolTimer.
Proof.
  intros s Hs. apply wp_startBallotProtocolTimer; [auto with scp|]. intros s' Hq.
  by apply quiet_follows.
Qed.

Lemma steps_ballotProtocolTimerExpired : steps c (ballotProtocolTimerExpired c sp).
Proof.
  apply steps_getB. intros s Hs. destruct (mHeardFromQuorum _).
  - revert s Hs. apply steps_bind; [apply steps_bp_abandonBallot | intros; apply steps_ret].
  - by apply steps_startBallotProtocolTimer.
Qed.

Lemma steps_bumpLoop target l : steps c (bumpLoop c sp target l).
Proof.
  induction l as [|n l IH]; simpl; [apply steps_ret|].
  destruct (n <? target); [apply steps_ret|]. apply steps_getB. intros s Hs. cbv zeta.
  destruct (n =? target), (isVBlocking_map _ _ _);
    [by apply IH|by apply follows_refl|by apply IH|by apply steps_bp_abandonBallot].
Qed.

Lemma steps_attemptBump : steps c (attemptBump c sp).
Proof.
  apply steps_getB. intros s Hs. destruct (negb _); [by apply follows_refl|].
  by apply steps_bumpLoop.
Qed.

Lemma steps_bumpWhile fuel didWork : steps c (bumpWhile c sp fuel didWork).
Proof.
  revert didWork. induction fuel as [|fuel IH]; intros didWork; simpl; [apply steps_throw|].
  apply steps_bind; [apply steps_attemptBump|]. intros [|]; [apply IH | apply steps_ret].
Qed.

(** *** advanceSlot *)

Lemma steps_checkHeardFromQuorum : steps c (checkHeardFromQuorum c).
Proof.
  apply steps_getB. intros s Hs. destruct (mHeardFromQuorum _); [by apply follows_refl|].
  destruct (mCurrentBallot _) as [cur|]; [|by apply follows_refl].
  apply wp_deref; [auto with scp|]. intros [|] _; [|by apply follows_refl].
  revert s Hs. apply steps_bind; [by apply steps_modifyB_quiet | intros; by apply steps_tell].
Qed.

Definition levelB (f : Z -> Z) (b : BallotProtocol) : BallotProtocol :=
  set_mCurrentMessageLevel (f (mCurrentMessageLevel b)) b.

(** The level may change as long as it does not go below where the call started. *)
Lemma follows_level f s s1 : follows c s s1 ->
  mCurrentMessageLevel (ballotProtocol s) <= f (mCurrentMessageLevel (ballotProtocol s1)) ->
  SlotInv s -> follows c s (withB (levelB f) s1).
Proof.
  intros [[[I1 I2 I3 I4 I5 I6 I7] [J1 J2 J3 J4]] [A B [C1 C2 C3 C4 C5 C6]]] Hf Hs.
  pose proof (inv_level _ _ (inv_ballot _ Hs)).
  split; [split; constructor; simpl; auto; lia|].
  split; [done| |by constructor]. destruct B. constructor; simpl; auto.
Qed.

(** Running [m] in the middle of a call that started at [s] and was at [s1]. *)
Lemma wp_steps_from {A} (m : M SlotState A) (Q : A -> SlotState -> Prop) s s1 s2 :
  steps c m -> follows c s s1 -> follows c s1 s2 -> (forall a s3, follows c s1 s3 -> Q a s3) ->
  wp (ex s) m Q s2.
Proof.
  intros Hm H1 H2 HQ. eapply wp_conseq; [apply (wp_steps c m Q s1 s2 Hm H2 HQ)| |done].
  intros e s' [?|?]; [by left | right; by eapply follows_trans].
Qed.

Lemma steps_advanceSlot hint : steps c (advanceSlot c sp hint).
Proof.
  intros s Hs. apply wp_modifyB.
  assert (follows c s (withB (levelB (fun l => l + 1)) s)) as H1.
  { apply follows_level; [by apply follows_refl|lia|done]. }
  assert (mCurrentMessageLevel (ballotProtocol s) + 1 <=
    mCurrentMessageLevel (ballotProtocol (withB (levelB (fun l => l + 1)) s))) as Hl by (simpl; lia).
  lazymatch goal with |- wp ?E ?m ?Q _ => change (wp E m Q (withB (levelB (fun l => l + 1)) s)) end.
  revert H1 Hl. generalize (withB (levelB (fun l => l + 1)) s) as s1. intros s1 H1 Hl.
  assert (forall l, steps c ((if MAX_ADVANCE_SLOT_RECURSION <=? l
    then throw too_many_transitions else mret () : M SlotState ()))) as Hlvl.
  { intros l. destruct (_ <=? _); [apply steps_throw | apply steps_ret]. }
  assert (forall l f w, steps c (if l =? 1 then bumpWhile c sp f w else mret w)) as Hbump.
  { intros. destruct (_ =? 1); [apply steps_bumpWhile | apply steps_ret]. }
  assert (follows c s1 s1) as H0 by apply follows_refl, H1.
  apply wp_getB, wp_bind, (wp_steps_from _ _ s s1 s1 (Hlvl _) H1 H0). intros _ s2 H2.
  apply wp_bind, (wp_steps_from _ _ s s1 s2 steps_checkHeardFromQuorum H1 H2). intros _ s3 H3.
  apply wp_bind, (wp_steps_from _ _ s s1 s3 (steps_attemptPreparedAccept _) H1 H3). intros w1 s4 H4.
  apply wp_bind, (wp_steps_from _ _ s s1 s4 (steps_attemptPreparedConfirmed _) H1 H4). intros w2 s5 H5.
  apply wp_bind, (wp_steps_from _ _ s s1 s5 (steps_attemptAcceptCommit _) H1 H5). intros w3 s6 H6.
  apply wp_bind, (wp_steps_from _ _ s s1 s6 (steps_attemptConfirmCommit _) H1 H6). intros w4 s7 H7.
  apply wp_getB, wp_bind, (wp_steps_from _ _ s s1 s7 (Hbump _ _ _) H1 H7). intros didWork s8 H8.
  apply wp_modifyB.
  assert (follows c s (withB (levelB (fun l => l - 1)) s8)) as H9.
  { apply follows_level; [by eapply follows_trans| |done].
    destruct H8 as [_ HM]. pose proof (mono_level _ _ _ _ _ (mono_ballot _ _ _ HM)). lia. }
  destruct didWork; [|exact H9]. apply wp_steps; [apply steps_sendLatestEnvelope|exact H9|done].
Qed.

(** *** processEnvelope *)

Lemma shapeSane_self st self : isStatementShapeSane st self = true -> shapeSane st.
Proof.
  unfold shapeSane, isStatementShapeSane. destruct (pledges st); try done. destruct self; [done|].
  simpl. destruct (0 <? _); done.
Qed.

(** Recording a sane statement that is newer than what is known of its node. *)
Lemma recordEnvelope_follows env s : SlotInv s -> shapeSane (statement env) ->
  (forall old, mLatestEnvelopes (ballotProtocol s) !! st_nodeID (statement env) = Some old ->
     isNewerStatement_st (statement old) (statement env) = true) ->
  wp (ex s) (recordEnvelope env) (fun _ s' => follows c s s') s.
Proof.
  intros Hs Hsane Hnew. apply wp_modifyB, wp_modify.
  match goal with |- follows c s ?s' => set (s1 := s') end.
  assert (mStatementsHistory s `prefix_of` mStatementsHistory s1) as Hpre by by eexists.
  destruct Hs as [[I1 I2 I3 I4 I5 I6 I7] [J1 J2 J3 J4]]. split; [split|].
  - constructor; simpl; auto.
    + intros n e He. destruct (decide (n = st_nodeID (statement env))) as [->|Hne].
      * rewrite lookup_insert_eq in He. injection He as <-. split; [done|].
        rewrite fmap_app, elem_of_app. right. simpl. left.
      * rewrite lookup_insert_ne in He by done. exact (recorded_mono _ _ _ Hpre I5 n e He).
    + intros n e He. destruct (decide (n = st_nodeID (statement env))) as [->|Hne].
      * rewrite lookup_insert_eq in He. by injection He as <-.
      * rewrite lookup_insert_ne in He by done. eauto.
  - constructor; auto. by eapply recorded_mono.
  - constructor; [done| |apply NominationMono_refl].
    destruct (BallotMono_refl c s s1 (ballotProtocol s)); [done..|]. constructor; try done.
    intros n e He. simpl. destruct (decide (n = st_nodeID (statement env))) as [->|Hne].
    + exists env. rewrite lookup_insert_eq. auto.
    + exists e. rewrite lookup_insert_ne by done. auto.
Qed.

(** Processing an envelope: it is rejected, recorded once the slot is externalized,
    or recorded and followed by [advanceSlot]. *)
Lemma wp_bp_processEnvelope E envelope self Q s :
  (forall e s', fatal e = true -> E e s') -> Q INVALID s ->
  (forall s1, (SlotInv s -> follows c s s1) ->
     coreB (ballotProtocol s1) = coreB (set_mLatestEnvelopes
       (<[st_nodeID (statement envelope) := envelope]> (mLatestEnvelopes (ballotProtocol s)))
       (ballotProtocol s)) ->
     (mPhase (ballotProtocol s) = SCP_PHASE_EXTERNALIZE -> Q VALID s1) /\
     (mPhase (ballotProtocol s) <> SCP_PHASE_EXTERNALIZE ->
      wp E (advanceSlot c sp (statement envelope)) (fun _ s' => Q VALID s') s1)) ->
  wp E (bp_processEnvelope c sp envelope self) Q s.
Proof.
  intros HE HI HV. apply wp_ro; [done|auto with scp|]. intros _ _.
  apply wp_ro; [done|auto with scp|]. intros [|] Hsane; [|done].
  apply wp_ro; [done|auto with scp|]. intros [|] Hnewer; [|done]. simpl negb. cbv iota.
  assert (shapeSane (statement envelope)) as Hshape.
  { apply readonly_bind_inv in Hsane as (q & _ & Hsane); [|auto with scp].
    destruct (negb _); [done|]. apply (shapeSane_self _ self).
    destruct (pledges (statement envelope)); by inversion Hsane. }
  assert (forall old, mLatestEnvelopes (ballotProtocol s) !! st_nodeID (statement envelope) = Some old ->
     isNewerStatement_st (statement old) (statement envelope) = true) as Hnew.
  { intros old Hold. injection Hnewer. by rewrite Hold. }
  assert (forall s1, quiet s s1 -> ballotProtocol s1 = ballotProtocol s ->
    let s2 := set_mStatementsHistory (mStatementsHistory s1 ++ [(statement envelope, mFullyValidated s1)])
      (withB (fun b => set_mLatestEnvelopes
        (<[st_nodeID (statement envelope) := envelope]> (mLatestEnvelopes b)) b) s1) in
    SlotInv s -> follows c s s2) as Hfol.
  { intros s1 Hq Eb s2 Hs. assert (follows c s s1) as H1 by by apply quiet_follows.
    eapply follows_trans; [exact H1|].
    apply (recordEnvelope_follows envelope s1); [apply H1|done|by rewrite Eb]. }
  assert (quiet s (set_mFullyValidated false s)) as Hq'.
  { constructor; [done..|]. exists []. by rewrite app_nil_r. }
  destruct (validateValues c (statement envelope)); [done| |];
    (apply wp_getB; destruct (mPhase (ballotProtocol s)) eqn:EP; [| |
      apply wp_deref; [done|]; intros com _; destruct (decide _); [|done];
      apply (HV _ (Hfol s (quiet_refl s) eq_refl)); done]).
  all: destruct (decide _); first [
    apply wp_bind, wp_ret, wp_bind, wp_modifyB, wp_modify, wp_bind;
    by apply (HV _ (Hfol s (quiet_refl s) eq_refl)) |
    apply wp_bind, wp_modify, wp_bind, wp_modifyB, wp_modify, wp_bind;
    by apply (HV _ (Hfol (set_mFullyValidated false s) Hq' eq_refl))].
Qed.

Lemma steps_bp_processEnvelope envelope self : steps c (bp_processEnvelope c sp envelope self).
Proof.
  intros s Hs. apply wp_bp_processEnvelope; [by left|by apply follows_refl|].
  intros s1 H1 _. split; [by auto|]. intros _.
  apply wp_steps; [apply steps_advanceSlot|by auto|done].
Qed.

End members.
