(* ===== verification/NominationSteps.v ===== *)
(** * Every member function of NominationProtocol, and the slot, keep the invariant *)

From Stdlib Require Import ZArith Lia String.
From stdpp Require Import base tactics gmap option list.
From S2P Require Import Prelude ScpTypes LocalNode SlotState Ballot Nomination Slot BallotFacts.
From S2P Require Import SlotInv BallotSteps.

Open Scope Z_scope.

Section nomination_steps.
Context (c : Ctx).
Context (sp : SCPEnvelope -> bool -> M SlotState EnvelopeState).
Hypothesis sp_steps : forall e self, steps c (sp e self).

Abbreviation ex s := (fun (e : exn) (s' : SlotState) => fatal e = true \/ follows c s s') (only parsing).

Lemma fatal_exN s e s' : fatal e = true -> ex s e s'.
Proof. by left. Qed.
Hint Resolve fatal_exN : scp.

(** ** What only reads *)

Lemma readonly_hashNode p n : readonly (hashNode c p n).
Proof. unfold hashNode. solve_readonly. Qed.
Lemma readonly_hashValue v : readonly (hashValue c v).
Proof. unfold hashValue. solve_readonly. Qed.
Hint Resolve readonly_hashNode readonly_hashValue : scp.

Lemma readonly_getNodePriority n q : readonly (getNodePriority c n q).
Proof. unfold getNodePriority. solve_readonly. Qed.

Lemma readonly_newValueLoop l v h : readonly (newValueLoop c l v h).
Proof. revert v h. induction l; intros; simpl; solve_readonly. Qed.

Lemma readonly_getNewValueFromNomination nom : readonly (getNewValueFromNomination c nom).
Proof. apply readonly_newValueLoop. Qed.

Lemma readonly_np_isNewerStatement n st : readonly (np_isNewerStatement n st).
Proof. unfold np_isNewerStatement. solve_readonly. Qed.

Lemma readonly_isSane st : readonly (isSane c st).
Proof. unfold isSane. solve_readonly. Qed.
Hint Resolve readonly_getNodePriority readonly_getNewValueFromNomination
  readonly_np_isNewerStatement readonly_isSane : scp.

(** ** Changes of the nomination *)

Definition withN (f : NominationProtocol -> NominationProtocol) (s : SlotState) : SlotState :=
  set_nominationProtocol (f (nominationProtocol s)) s.

Lemma wp_getN {A} E (k : NominationProtocol -> M SlotState A) Q s :
  wp E (k (nominationProtocol s)) Q s -> wp E (getN ≫= k) Q s.
Proof. done. Qed.

Lemma wp_modifyN {A} E f (k : () -> M SlotState A) Q s :
  wp E (k ()) Q (withN f s) -> wp E (modifyN f ≫= k) Q s.
Proof. done. Qed.

Lemma follows_withN f s : SlotInv s ->
  NominationInv (withN f s) (f (nominationProtocol s)) ->
  NominationMono c s (withN f s) (nominationProtocol s) (f (nominationProtocol s)) ->
  follows c s (withN f s).
Proof.
  intros [HB _] HI HM. split; [constructor; [|done]|constructor; [done| |done]].
  - destruct HB. by constructor.
  - by apply BallotMono_refl.
Qed.

Lemma quiet_withN f s : coreN (f (nominationProtocol s)) = coreN (nominationProtocol s) ->
  quiet s (withN f s).
Proof. intros He. constructor; [done..|]. exists []. by rewrite app_nil_r. Qed.

Lemma steps_modifyN_quiet f : (forall n, coreN (f n) = coreN n) -> steps c (modifyN f).
Proof. intros Hf s Hs. apply quiet_follows; [done|]. by apply quiet_withN. Qed.

(** A new vote. *)
Lemma vote_follows v s : SlotInv s ->
  follows c s (withN (fun n => set_mVotes ({[v]} ∪ mVotes n) n) s).
Proof.
  intros Hs. apply follows_withN; [done| |].
  - destruct Hs as [_ [J1 J2 J3 J4]]. constructor; simpl; [|done..]. clear -J1. set_solver.
  - constructor; simpl; auto using sameOrNewer_refl. apply union_subseteq_r.
Qed.

Lemma steps_vote v : steps c (modifyN (fun n => set_mVotes ({[v]} ∪ mVotes n) n)).
Proof. intros s Hs. by apply vote_follows. Qed.

(** A value that becomes accepted, and the vote for it. *)
Lemma accept_follows v s : SlotInv s -> np_validateValue c v = kFullyValidatedValue ->
  acceptedOn c (mStatementsHistory s) (votesNominate v) (acceptPredicate v) ->
  follows c s (withN (fun n => set_mVotes ({[v]} ∪ mVotes n) (set_mAccepted ({[v]} ∪ mAccepted n) n)) s).
Proof.
  intros Hs Hv Hev. apply follows_withN; [done| |].
  - destruct Hs as [_ [J1 J2 J3 J4]]. constructor; simpl; [| |done..]; clear -J1 J2; set_solver.
  - constructor; simpl; auto using sameOrNewer_refl; try apply union_subseteq_r.
    intros x [->%elem_of_singleton|?]%elem_of_union; auto.
Qed.

Lemma steps_promoteVotes votes modified : steps c (promoteVotes c votes modified).
Proof.
  revert modified. induction votes as [|v votes IH]; intros modified; simpl; [apply steps_ret|].
  apply steps_getN. intros s Hs. destruct (decide _); [by apply IH|].
  apply wp_ro; [auto with scp..|]. intros [|] Hacc; [|by apply IH].
  destruct (decide _) as [Hv|].
  - do 2 apply wp_modifyN. apply wp_steps; [apply IH| |done].
    apply (accept_follows v s Hs Hv). exists (mLatestNominations (nominationProtocol s)).
    split; [apply Hs|]. by eapply federatedAccept_true.
  - cbv zeta. destruct (_ || _); [by apply IH|]. apply wp_modifyN, wp_steps; [apply IH| |done].
    by apply vote_follows.
Qed.

(** A value that becomes a candidate. *)
Lemma candidate_follows a s : SlotInv s -> a ∈ mAccepted (nominationProtocol s) ->
  ratifiedOn c (mStatementsHistory s) (acceptPredicate a) ->
  follows c s (withN (fun n => set_mCandidates ({[a]} ∪ mCandidates n) n) s).
Proof.
  intros Hs Ha Hev. apply follows_withN; [done| |].
  - destruct Hs as [_ [J1 J2 J3 J4]]. constructor; simpl; [done| |done..]. clear -J2 Ha. set_solver.
  - constructor; simpl; auto using sameOrNewer_refl; try apply union_subseteq_r.
    intros x [->%elem_of_singleton|?]%elem_of_union; auto.
Qed.

Lemma wp_promoteAccepted l nc s s1 : follows c s s1 ->
  (forall a, a ∈ l -> a ∈ mAccepted (nominationProtocol s1)) ->
  wp (ex s) (promoteAccepted c l nc) (fun _ s' => follows c s s') s1.
Proof.
  revert nc s1. induction l as [|a l IH]; intros nc s1 H1 Hl; simpl; [done|].
  assert (forall x, x ∈ l -> x ∈ mAccepted (nominationProtocol s1)) as Hl' by (intros; apply Hl; by right).
  apply wp_getN. destruct (decide _); [by apply IH|].
  apply wp_ro; [auto with scp..|]. intros [|] Hrat; [|by apply IH].
  apply wp_modifyN, IH; [|done]. eapply follows_trans; [done|].
  apply candidate_follows; [apply H1|apply Hl; left|].
  exists (mLatestNominations (nominationProtocol s1)). split; [apply H1|].
  by apply deref_inv in Hrat as [? _].
Qed.

Lemma steps_emitNomination : steps c (emitNomination c sp).
Proof.
  apply steps_getN. intros s Hs. cbv zeta.
  generalize (mkNomination (mQSetHash (localNode c)) (set_asc (mVotes (nominationProtocol s)))
    (set_asc (mAccepted (nominationProtocol s)))) as nom. intros nom. revert s Hs.
  apply steps_bind; [apply sp_steps|]. intros [|]; [apply steps_throw|]. intros s Hs.
  apply wp_bind. unfold wp at 1, get.
  lazymatch goal with |- wp _ (if ?x then _ else _) _ _ => destruct x end; [|by apply follows_refl].
  apply wp_modifyN.
  match goal with |- wp _ _ _ ?s1 => assert (follows c s s1) as H1 by
    (apply quiet_follows; [done|]; by apply quiet_withN) end.
  destruct (mFullyValidated s); [|exact H1].
  eapply follows_quiet; [exact H1 | by apply quiet_tell].
Qed.

(** Recording a sane nomination that is newer than what is known of its node. *)
Lemma np_recordEnvelope_follows env nom s : SlotInv s ->
  pledges (statement env) = NOMINATE nom -> nomSorted nom ->
  (forall old, mLatestNominations (nominationProtocol s) !! st_nodeID (statement env) = Some old ->
     np_isNewerStatement_nom (nominate_of (statement old)) nom = true) ->
  wp (ex s) (np_recordEnvelope env) (fun _ s' => follows c s s') s.
Proof.
  intros Hs Hnom Hsorted Hnew. apply wp_modifyN, wp_modify.
  match goal with |- follows c s ?s' => set (s1 := s') end.
  assert (mStatementsHistory s `prefix_of` mStatementsHistory s1) as Hpre by by eexists.
  destruct Hs as [[I1 I2 I3 I4 I5 I6 I7] [J1 J2 J3 J4]]. split; [split|].
  - constructor; auto. by eapply recorded_mono.
  - constructor; simpl; [done..| |].
    + intros n e He. destruct (decide (n = st_nodeID (statement env))) as [->|Hne].
      * rewrite lookup_insert_eq in He. injection He as <-. split; [done|].
        rewrite fmap_app, elem_of_app. right. simpl. left.
      * rewrite lookup_insert_ne in He by done. exact (recorded_mono _ _ _ Hpre J3 n e He).
    + intros n e He. destruct (decide (n = st_nodeID (statement env))) as [->|Hne].
      * rewrite lookup_insert_eq in He. injection He as <-. eauto.
      * rewrite lookup_insert_ne in He by done. eauto.
  - constructor; [done|by apply BallotMono_refl|].
    destruct (NominationMono_refl c s s1 (nominationProtocol s)). constructor; try done.
    intros n e He. simpl. destruct (decide (n = st_nodeID (statement env))) as [->|Hne].
    + exists env. rewrite lookup_insert_eq. split; [done|]. right.
      unfold nominationGrows. unfold nominate_of at 2. rewrite Hnom. by apply Hnew.
    + exists e. rewrite lookup_insert_ne by done. auto.
Qed.

Lemma isSane_sorted st s : isSane c st s = Ret true s -> nomSorted (nominate_of st).
Proof.
  unfold isSane. destruct (_ && _ && _) eqn:E; [|done]. intros _. by propify.
Qed.

(** The value to take from a leader. *)
Lemma steps_newVote nom modified : steps c (newVote ← getNewValueFromNomination c nom;
  if decide (newVote = []) then mret modified
  else modifyN (fun n => set_mVotes ({[newVote]} ∪ mVotes n) n);; mret true).
Proof.
  apply steps_bind; [apply steps_readonly; auto with scp|]. intros v.
  destruct (decide _); [apply steps_ret|].
  apply steps_bind; [apply steps_vote | intros; apply steps_ret].
Qed.

Lemma steps_np_processEnvelope envelope nom : pledges (statement envelope) = NOMINATE nom ->
  steps c (np_processEnvelope c sp envelope).
Proof.
  intros Hnom s Hs. assert (nominate_of (statement envelope) = nom) as En
    by (unfold nominate_of; by rewrite Hnom).
  unfold np_processEnvelope. rewrite En.
  apply wp_ro; [auto with scp..|]. intros [|] Hnewer; [|by apply follows_refl].
  apply wp_ro; [auto with scp..|]. intros [|] Hsane; [|by apply follows_refl]. simpl negb. cbv iota.
  apply isSane_sorted in Hsane. rewrite En in Hsane.
  apply wp_bind. eapply wp_mono; [eapply np_recordEnvelope_follows; [done|done|done|]|].
  { intros old Hold. injection Hnewer. by rewrite Hold. }
  intros u s1 H1. cbv beta in H1 |- *. apply wp_getN. destruct (negb _); [done|].
  apply wp_bind, wp_steps; [apply steps_promoteVotes|done|]. intros modified s2 H2.
  apply wp_getN, wp_bind. eapply wp_mono.
  { apply wp_promoteAccepted; [done|]. intros a Ha. by apply elem_of_set_asc in Ha. }
  intros newCandidates s3 H3. cbv beta.
  apply wp_steps; [|done|done]. apply steps_getN. intros s4 Hs4.
  match goal with |- context [bool_decide (?x = ∅) && ?y] =>
    generalize (bool_decide (x = ∅) && y) as cond end.
  intros cond. revert s4 Hs4.
  apply steps_bind; [destruct cond; [apply steps_newVote | apply steps_ret]|]. intros modified'.
  apply steps_bind; [destruct modified'; [apply steps_emitNomination | apply steps_ret]|]. intros _.
  apply steps_bind; [|intros; apply steps_ret]. destruct newCandidates; [|apply steps_ret].
  apply steps_getN. intros s5 Hs5. cbv zeta. generalize (mCandidates (nominationProtocol s5)) as cands.
  intros cands. revert s5 Hs5.
  apply steps_bind; [by apply steps_modifyN_quiet|]. intros _.
  apply steps_bind; [by apply steps_tell|]. intros _.
  apply steps_bind; [by apply steps_bp_bumpState | intros; apply steps_ret].
Qed.

Lemma steps_leadersLoop q l top : steps c (leadersLoop c q l top).
Proof.
  revert top. induction l as [|n l IH]; intros top; simpl; [apply steps_ret|].
  apply steps_bind; [apply steps_readonly; auto with scp|]. intros w.
  apply steps_bind.
  { destruct (_ <? _); [|apply steps_ret].
    apply steps_bind; [by apply steps_modifyN_quiet | intros; apply steps_ret]. }
  intros top'. apply steps_bind; [|intros; apply IH].
  destruct (_ && _); [by apply steps_modifyN_quiet | apply steps_ret].
Qed.

Lemma steps_leaderVotes l v u : steps c (leaderVotes c l v u).
Proof.
  revert v u. induction l as [|n l IH]; intros v u; simpl; [apply steps_ret|].
  apply steps_getN. intros s Hs. destruct (_ !! n) as [e|]; [|by apply IH]. revert s Hs.
  apply steps_bind; [apply steps_readonly; auto with scp|]. intros v'.
  destruct (decide _); [apply IH|]. apply steps_bind; [apply steps_vote | intros; apply IH].
Qed.

Lemma steps_np_nominate v prev timedout : steps c (np_nominate c sp v prev timedout).
Proof.
  apply steps_getN. intros s Hs. destruct (_ && _); [by apply follows_refl|]. revert s Hs.
  apply steps_bind; [by apply steps_modifyN_quiet|]. intros _.
  apply steps_bind; [by apply steps_modifyN_quiet|]. intros _.
  apply steps_bind; [by apply steps_modifyN_quiet|]. intros _.
  apply steps_bind.
  { apply steps_bind; [by apply steps_modifyN_quiet | intros; apply steps_leadersLoop]. }
  intros _. apply steps_getN. intros s Hs. apply wp_bind.
  assert (forall r : Value * bool, steps c (n ← getN; tell (nominatingValue r.1);;
    tell (setupTimer NOMINATION_TIMER (computeTimeout (u32 (mRoundNumber n))));;
    (if (r.2 : bool) then emitNomination c sp else mret ());; mret r.2)) as Hrest.
  { intros r. apply steps_getN. intros s1 Hs1.
    generalize (mRoundNumber (nominationProtocol s1)) as rn. intros rn. revert s1 Hs1.
    apply steps_bind; [by apply steps_tell|]. intros _.
    apply steps_bind; [by apply steps_tell|]. intros _.
    apply steps_bind; [|intros; apply steps_ret].
    destruct (r.2); [apply steps_emitNomination | apply steps_ret]. }
  destruct (decide _).
  - apply wp_modifyN, wp_ret, wp_steps; [apply Hrest| |done]. by apply vote_follows.
  - apply wp_steps; [apply steps_leaderVotes|by apply follows_refl|]. intros r s1 H1.
    by apply wp_steps.
Qed.

End nomination_steps.

(** ** The slot *)

Section slot_steps.
Context (c : Ctx).

Lemma steps_slot_processEnvelope fuel e self : steps c (slot_processEnvelope fuel c e self).
Proof.
  revert e self. induction fuel as [|fuel IH]; intros e self; simpl; [apply steps_throw|].
  apply steps_bind; [apply steps_readonly; auto with scp|]. intros _.
  destruct (pledges (statement e)) eqn:E; try (by apply steps_bp_processEnvelope).
  by eapply steps_np_processEnvelope.
Qed.

Lemma steps_slot_abandonBallot fuel : steps c (slot_abandonBallot fuel c).
Proof. apply steps_bp_abandonBallot, steps_slot_processEnvelope. Qed.

Lemma steps_slot_bumpState fuel v force : steps c (slot_bumpState fuel c v force).
Proof. apply steps_bp_bumpState, steps_slot_processEnvelope. Qed.

Lemma steps_slot_nominate fuel v prev timedout : steps c (slot_nominate fuel c v prev timedout).
Proof. apply steps_np_nominate, steps_slot_processEnvelope. Qed.

Lemma steps_slot_stopNomination : steps c slot_stopNomination.
Proof. by apply steps_modifyN_quiet. Qed.

Lemma steps_slot_ballotTimer fuel : steps c (slot_ballotTimer fuel c).
Proof. apply steps_ballotProtocolTimerExpired, steps_slot_processEnvelope. Qed.

End slot_steps.
