(* ===== verification/SlotTheorems.v ===== *)
(** * What holds of a slot in every run

    A run starts from a new slot, possibly restored from the node's own last
    messages, and is any sequence of calls, each with the driver's answers and the
    local quorum set of that moment.  A call that throws is part of the run; a
    call that aborts the process ends it. *)

From Stdlib Require Import ZArith Lia String Relations.
From stdpp Require Import base tactics gmap option list relations.
From S2P Require Import Prelude ScpTypes LocalNode LocalNodeFacts SlotState Ballot Nomination.
From S2P Require Import Slot BallotFacts SlotInv BallotSteps NominationSteps.

Open Scope Z_scope.

(** ** Runs *)

(** The calls of a slot that change its state. *)
Inductive SlotOp :=
| OpProcessEnvelope (e : SCPEnvelope)
| OpAbandonBallot
| OpBumpState (v : Value) (force : bool)
| OpNominate (v previousValue : Value) (timedout : bool)
| OpStopNomination
| OpBallotTimer.

Definition runOp (fuel : nat) (c : Ctx) (op : SlotOp) : M SlotState () :=
  match op with
  | OpProcessEnvelope e => slot_processEnvelope fuel c e false;; mret ()
  | OpAbandonBallot => slot_abandonBallot fuel c;; mret ()
  | OpBumpState v force => slot_bumpState fuel c v force;; mret ()
  | OpNominate v prev timedout => slot_nominate fuel c v prev timedout;; mret ()
  | OpStopNomination => slot_stopNomination
  | OpBallotTimer => slot_ballotTimer fuel c
  end.

(** One call. *)
Definition slotStep (s s' : SlotState) : Prop :=
  exists fuel c op, survivor (runOp fuel c op s) = Some s'.

(** The own messages a slot can be restored from: those [createStatement] and
    [emitNomination] make when the invariant holds. *)
Definition restorable (st : SCPStatement) : Prop :=
  match pledges st with
  | PREPARE p =>
      match prep_prepared p, prep_preparedPrime p with
      | Some x, Some x' => compareBallots x' x <= 0 /\ value x' <> value x
      | None, Some _ => False
      | _, None => True
      end /\
      prep_nH p <= counter (prep_ballot p) /\ (prep_nC p <> 0 -> prep_nH p <> 0) /\ shapeSane st
  | CONFIRM p =>
      con_nCommit p <> 0 /\ con_nCommit p <= con_nH p <= counter (con_ballot p) /\ shapeSane st
  | EXTERNALIZE p =>
      counter (ext_commit p) <> 0 /\ counter (ext_commit p) <= ext_nH p <= UINT32_MAX /\ shapeSane st
  | NOMINATE n =>
      nomSorted n /\ (forall v, v ∈ nom_accepted n -> v ∈ nom_votes n)
  end.

(** Where a run starts. *)
Inductive started : SlotState -> Prop :=
| started_new c : started (initSlot c)
| started_restored c e s s' : started s -> restorable (statement e) ->
    (exists n, pledges (statement e) = NOMINATE n) \/ ballotProtocol s = initBallotProtocol ->
    slot_setStateFromEnvelope c e s = Ret () s' -> started s'.

Definition reachable (s : SlotState) : Prop := exists s0, started s0 /\ rtc slotStep s0 s.

Lemma runOp_steps fuel c op : steps c (runOp fuel c op).
Proof.
  destruct op; simpl;
    try (apply steps_bind; [|intros; apply steps_ret]);
    auto using steps_slot_processEnvelope, steps_slot_abandonBallot, steps_slot_bumpState,
      steps_slot_nominate, steps_slot_stopNomination, steps_slot_ballotTimer.
Qed.

Lemma runOp_follows fuel c op s s' : SlotInv s -> survivor (runOp fuel c op s) = Some s' ->
  follows c s s'.
Proof.
  intros Hs. pose proof (runOp_steps fuel c op s Hs) as H. unfold wp in H.
  destruct (runOp fuel c op s) as [a s1|e s1]; simpl.
  - by intros [= <-].
  - destruct (fatal e); [done|]. intros [= <-]. by destruct H.
Qed.

(** ** Restoring *)

Lemma initSlot_inv c : SlotInv (initSlot c).
Proof.
  split; constructor; simpl; try done.
Qed.

(** The history and the events of a slot that was just created or restored. *)
Definition silent (s : SlotState) : Prop := externalizedValues (events s) = [].

(** The start of [bp_setStateFromEnvelope], up to the new ballot. *)
Lemma wp_restore_ballot {A} c e bal (k : M SlotState A) s Q : SlotInv s -> silent s ->
  ballotProtocol s = initBallotProtocol ->
  (forall s', coreB (ballotProtocol s') = (SCP_PHASE_PREPARE, Some bal, None, None, None, None,
      {[st_nodeID (statement e) := e]}, 0) ->
     statement e ∈ (mStatementsHistory s').*1 -> NominationInv s' (nominationProtocol s') ->
     silent s' -> wp (fun _ _ => True) k Q s') ->
  wp (fun _ _ => True) (recordEnvelope e;; storeLastEnvelope e;;
    modifyB (fun b => set_mLastEnvelopeEmit (mLastEnvelope b) b);; bumpToBallot c bal true;; k) Q s.
Proof.
  intros Hs Hsil Hb Hk.
  change (wp (fun _ _ => True) (bumpToBallot c bal true;; k) Q
    (withB (fun b => set_mLastEnvelopeEmit (mLastEnvelope b) b)
      (withB (set_mLastEnvelope (Some (nextPtr s, e)))
        (set_nextPtr (S (nextPtr s))
          (set_mStatementsHistory (mStatementsHistory s ++ [(statement e, mFullyValidated s)])
            (withB (fun b => set_mLatestEnvelopes
              (<[st_nodeID (statement e) := e]> (mLatestEnvelopes b)) b) s)))))).
  apply wp_bind, wp_bumpToBallot; [done|]. intros s' [A1 A2 A3 (l & A4 & A5)].
  unfold coreB, coreN in A1, A2. simpl in A1, A2, A3, A4. rewrite Hb in A1. apply Hk.
  - exact A1.
  - rewrite A3, fmap_app, elem_of_app. right. left.
  - injection A2 as F1 F2 F3 F4. destruct Hs as [_ [J1 J2 J3 J4]].
    constructor; rewrite ?F1, ?F2, ?F3, ?F4, ?A3; try done.
    eapply recorded_mono; [|done]. by eexists.
  - unfold silent. by rewrite A4, externalizedValues_app, A5, app_nil_r.
Qed.

Lemma bp_restored_inv c e s s' : SlotInv s -> silent s -> restorable (statement e) ->
  ballotProtocol s = initBallotProtocol ->
  (forall n, pledges (statement e) <> NOMINATE n) ->
  bp_setStateFromEnvelope c e s = Ret () s' -> SlotInv s' /\ silent s'.
Proof.
  intros Hs Hsil Hr Hb Hn Hrun.
  cut (wp (fun _ _ => True) (bp_setStateFromEnvelope c e) (fun _ s' => SlotInv s' /\ silent s') s).
  { unfold wp. by rewrite Hrun. }
  clear Hrun s'. unfold bp_setStateFromEnvelope. apply wp_getB. rewrite Hb.
  destruct (decide _) as [[? ?]|_]; [done|]. unfold restorable in Hr.
  destruct (pledges (statement e)) as [p|p|p|n] eqn:Ep; [| | |by destruct (Hn n)].
  all: apply wp_bind, wp_ret, wp_restore_ballot; [done..|]; intros s' [= E1 E2 E3 E4 E5 E6 E7 E8] Hin HN Hsil'.
  all: repeat first [apply wp_modifyB | apply wp_modify]; (split; [|exact Hsil']).
  all: assert (recorded {[st_nodeID (statement e) := e]} (mStatementsHistory s')) as HR
    by (intros n x [<- <-]%lookup_singleton_Some; done).
  all: (split; [|by destruct HN; constructor]).
  all: constructor; simpl; rewrite ?E2, ?E3, ?E4, ?E5, ?E6, ?E7, ?E8; try done.
  all: try (by intros n x [<- <-]%lookup_singleton_Some; naive_solver).
  - destruct Hr as [Hr _]. by destruct (prep_prepared p), (prep_preparedPrime p).
  - intros h. unfold ballot_if. destruct (Z.eqb_spec (prep_nH p) 0); [done|]. intros [= <-].
    eexists. split; [done|]. apply LAC_compare. split; [|done]. simpl. lia.
  - intros com. unfold ballot_if. destruct (Z.eqb_spec (prep_nC p) 0); [done|]. intros [= <-].
    split; [done|]. destruct (Z.eqb_spec (prep_nH p) 0); [tauto | eauto].
  - intros h [= <-]. eexists. split; [done|]. apply LAC_compare. split; [|done]. simpl. lia.
  - intros com [= <-]. split; [simpl; lia | eauto].
  - intros _. split; [done|]. do 3 eexists. split_and!; [done..| |]; (split; [simpl; lia | done]).
  - intros h [= <-]. eexists. split; [done|]. apply LAC_compare. split; [|done]. simpl. lia.
  - intros com [= <-]. split; [simpl; lia | eauto].
  - intros _. split; [done|]. do 3 eexists. split_and!; [done..| |]; (split; [simpl; lia | done]).
Qed.

Lemma np_restored_inv e n s s' : SlotInv s -> silent s -> pledges (statement e) = NOMINATE n ->
  restorable (statement e) -> np_setStateFromEnvelope e s = Ret () s' -> SlotInv s' /\ silent s'.
Proof.
  intros Hs Hsil Hn Hr Hrun.
  cut (wp (fun _ _ => True) (np_setStateFromEnvelope e) (fun _ s' => SlotInv s' /\ silent s') s).
  { unfold wp. by rewrite Hrun. }
  clear Hrun s'. unfold np_setStateFromEnvelope. apply wp_getN.
  unfold restorable in Hr. unfold nominate_of. rewrite Hn in *. destruct Hr as [Hsort Hsub].
  destruct (mNominationStarted _); [done|]. apply wp_bind, wp_ret.
  match goal with |- wp _ _ _ ?s0 =>
    change (wp (fun _ _ => True) (mret ()) (fun _ s' => SlotInv s' /\ silent s')
      (withN (set_mLastNomination (Some e))
        (withN (fun n0 => set_mVotes (list_to_set (nom_votes n) ∪ mVotes n0) n0)
          (withN (fun n0 => set_mAccepted (list_to_set (nom_accepted n) ∪ mAccepted n0) n0)
            (set_mStatementsHistory (mStatementsHistory s ++ [(statement e, mFullyValidated s)])
              (withN (fun n0 => set_mLatestNominations
                 (<[st_nodeID (statement e) := e]> (mLatestNominations n0)) n0) s)))))) end.
  assert (mStatementsHistory s `prefix_of` mStatementsHistory s ++ [(statement e, mFullyValidated s)])
    as Hpre by by eexists.
  split; [|exact Hsil].
  destruct Hs as [[I1 I2 I3 I4 I5 I6 I7] [J1 J2 J3 J4]]. split; constructor; simpl; try done.
  - by eapply recorded_mono.
  - intros v. rewrite !elem_of_union, !elem_of_list_to_set. naive_solver.
  - intros v Hv. apply elem_of_union. right. auto.
  - intros i x Hx. destruct (decide (i = st_nodeID (statement e))) as [->|Hne].
    + rewrite lookup_insert_eq in Hx. injection Hx as <-. split; [done|].
      rewrite fmap_app, elem_of_app. right. left.
    + rewrite lookup_insert_ne in Hx by done. exact (recorded_mono _ _ _ Hpre J3 i x Hx).
  - intros i x Hx. destruct (decide (i = st_nodeID (statement e))) as [->|Hne].
    + rewrite lookup_insert_eq in Hx. injection Hx as <-. eauto.
    + rewrite lookup_insert_ne in Hx by done. eauto.
Qed.

Lemma started_inv s : started s -> SlotInv s /\ silent s.
Proof.
  induction 1 as [c|c e s s' _ [IH Hsil] Hr Hfresh Hrun].
  - split; [apply initSlot_inv | done].
  - unfold slot_setStateFromEnvelope in Hrun.
    destruct (decide _); [|by injection Hrun as <-]. destruct (_ =? _); [|by injection Hrun as <-].
    destruct (pledges (statement e)) eqn:Ep; [| | |by eapply np_restored_inv].
    all: destruct Hfresh as [[? ?]|Hfresh]; [congruence|].
    all: eapply bp_restored_inv; [..|exact Hrun]; try done; congruence.
Qed.

(** ** Runs *)

Lemma slotStep_follows s s' : SlotInv s -> slotStep s s' -> exists c, follows c s s'.
Proof. intros Hs (fuel & c & op & Hop). exists c. by eapply runOp_follows. Qed.

Lemma steps_inv s s' : SlotInv s -> rtc slotStep s s' -> SlotInv s'.
Proof.
  intros Hs. induction 1 as [|s s1 s' H1 _ IH]; [done|]. apply IH.
  destruct (slotStep_follows _ _ Hs H1) as [c [? _]]. done.
Qed.

Lemma reachable_inv s : reachable s -> SlotInv s.
Proof. intros (s0 & [Hs0 _]%started_inv & Hrun). by eapply steps_inv. Qed.

Lemma steps_phase s s' : SlotInv s -> rtc slotStep s s' ->
  phase_rank (mPhase (ballotProtocol s)) <= phase_rank (mPhase (ballotProtocol s')).
Proof.
  intros Hs. induction 1 as [|s s1 s' H1 _ IH]; [lia|].
  destruct (slotStep_follows _ _ Hs H1) as [c [Hs1 HM]]. specialize (IH Hs1).
  pose proof (mono_phase _ _ _ _ _ (mono_ballot _ _ _ HM)). lia.
Qed.

Lemma steps_current s s' : SlotInv s -> rtc slotStep s s' ->
  mPhase (ballotProtocol s) <> SCP_PHASE_PREPARE \/
    mPhase (ballotProtocol s') = mPhase (ballotProtocol s) ->
  compareBallots_ptr (mCurrentBallot (ballotProtocol s)) (mCurrentBallot (ballotProtocol s')) <= 0.
Proof.
  intros Hs Hrun. revert Hs. induction Hrun as [s|s s1 s' H1 Hrun IH]; intros Hs HP.
  { rewrite compareBallots_ptr_refl. lia. }
  destruct (slotStep_follows _ _ Hs H1) as [c [Hs1 HM]]. apply mono_ballot in HM.
  pose proof (mono_phase _ _ _ _ _ HM) as P1. pose proof (steps_phase _ _ Hs1 Hrun) as P2.
  pose proof (phase_chain _ _ _ P1 P2 HP).
  eapply compareBallots_ptr_le_trans; [apply (mono_current _ _ _ _ _ HM) | apply IH]; tauto.
Qed.

Lemma steps_frozen s s' : SlotInv s -> rtc slotStep s s' ->
  mPhase (ballotProtocol s) = SCP_PHASE_EXTERNALIZE -> frozen (ballotProtocol s) (ballotProtocol s').
Proof.
  intros Hs. induction 1 as [|s s1 s' H1 _ IH]; [done|]. intros HP.
  destruct (slotStep_follows _ _ Hs H1) as [c [Hs1 HM]].
  pose proof (mono_frozen _ _ _ _ _ (mono_ballot _ _ _ HM) HP) as HF.
  eapply frozen_trans; [done|]. apply IH; [done|]. destruct HF. congruence.
Qed.

Lemma steps_told s s' : SlotInv s -> rtc slotStep s s' ->
  toldOnce (ballotProtocol s) (ballotProtocol s') (events s) (events s').
Proof.
  intros Hs Hrun. revert Hs. induction Hrun as [s|s s1 s' H1 Hrun IH]; intros Hs.
  - exists []. rewrite app_nil_r. split; [done | by left].
  - destruct (slotStep_follows _ _ Hs H1) as [c [Hs1 HM]].
    eapply toldOnce_trans; [by apply steps_frozen| |apply (mono_told _ _ _ _ _ (mono_ballot _ _ _ HM))|by apply IH].
    apply (mono_phase _ _ _ _ _ (mono_ballot _ _ _ HM)).
Qed.

(** ** Evidence, in terms of nodes *)

(** The recorded statements of a quorum of the local node, all of which satisfy
    [P]: a set of nodes that contains a slice of the local node and of each of its
    members, by the quorum set of the statement that satisfies [P]. *)
Definition quorumOf (c : Ctx) (hist : list (SCPStatement * bool)) (P : SCPStatement -> bool) : Prop :=
  exists U, isQuorumSlice (mQSet (localNode c)) U = true /\
    forall n, n ∈ U -> exists st q, st ∈ hist.*1 /\ st_nodeID st = n /\ P st = true /\
      getQuorumSetFromStatement c st = Some q /\ isQuorumSlice q U = true.

(** The recorded statements of a v-blocking set of the local node. *)
Definition blockingOf (c : Ctx) (hist : list (SCPStatement * bool)) (P : SCPStatement -> bool) : Prop :=
  exists B, isVBlocking (mQSet (localNode c)) B = true /\
    forall n, n ∈ B -> exists st, st ∈ hist.*1 /\ st_nodeID st = n /\ P st = true.

Lemma isQuorum_quorumOf c hist m P : recorded m hist ->
  isQuorum (mQSet (localNode c)) m (getQuorumSetFromStatement c) P = Some true ->
  quorumOf c hist P.
Proof.
  intros Hm (U & HU & HC & HS)%isQuorum_sound. exists U. split; [done|]. intros n Hn.
  destruct (HC n Hn) as (e & q & He & Hq & Hsl). exists (statement e), q.
  destruct (Hm n e He) as [? ?]. split_and!; try done.
  apply HU, elem_of_filteredNodes in Hn as (e' & He' & ?). congruence.
Qed.

Lemma ratifiedOn_quorumOf c hist P : ratifiedOn c hist P -> quorumOf c hist P.
Proof. intros (m & Hm & H). by eapply isQuorum_quorumOf. Qed.

Lemma acceptedOn_evidence c hist voted acc : acceptedOn c hist voted acc ->
  blockingOf c hist acc \/ quorumOf c hist (fun st => acc st || voted st).
Proof.
  intros (m & Hm & [H|H]); [left|right; by eapply isQuorum_quorumOf].
  exists (filteredNodes m acc). split; [done|].
  intros n (e & He & Ha)%elem_of_filteredNodes. destruct (Hm n e He) as [? ?]. eauto.
Qed.

(** ** Examples: three nodes that trust any two of themselves *)

Definition exampleDriver : SCPDriver :=
  mkDriver (fun _ => Some exampleQSet) (fun _ _ => kFullyValidatedValue) (fun _ v => v)
    (fun _ vs => match set_asc vs with v :: _ => v | [] => [] end) (fun _ => []) (fun _ => true)
    (fun _ _ _ _ n => Z.of_N n) (fun _ _ _ _ => 1).

Definition exampleCtx (ndebug : bool) : Ctx :=
  mkCtx exampleDriver (mkLocalNode 1 true exampleQSet 7) 5 ndebug 20.

Definition prepareFrom (n : NodeID) (b : SCPBallot) (p p' : option SCPBallot) (nC nH : Z) : SCPEnvelope :=
  mkEnvelope (mkStatement n 5 (PREPARE (mkPrepare 7 b p p' nC nH))) [].
Definition confirmFrom (n : NodeID) (b : SCPBallot) (nP nC nH : Z) : SCPEnvelope :=
  mkEnvelope (mkStatement n 5 (CONFIRM (mkConfirm b nP nC nH 7))) [].
Definition externalizeFrom (n : NodeID) (v : Value) : SCPEnvelope :=
  mkEnvelope (mkStatement n 5 (EXTERNALIZE (mkExternalize (mkBallot 1 v) 1 7))) [].

Fixpoint runOps (fuel : nat) (c : Ctx) (ops : list SlotOp) (s : SlotState) : option SlotState :=
  match ops with
  | [] => Some s
  | op :: rest => s' ← survivor (runOp fuel c op s); runOps fuel c rest s'
  end.

Lemma runOps_run fuel c ops s s' : runOps fuel c ops s = Some s' -> rtc slotStep s s'.
Proof.
  revert s. induction ops as [|op ops IH]; intros s; simpl; [intros [= <-]; constructor|].
  destruct (survivor _) as [s1|] eqn:E; simpl; [|done]. intros H.
  eapply rtc_l; [|by apply IH]. by exists fuel, c, op.
Qed.

(** What a list of calls makes of a new slot. *)
Definition after (ndebug : bool) (ops : list SlotOp) : SlotState :=
  default (initSlot (exampleCtx ndebug)) (runOps 60 (exampleCtx ndebug) ops (initSlot (exampleCtx ndebug))).

Lemma after_reachable ndebug ops :
  bool_decide (is_Some (runOps 60 (exampleCtx ndebug) ops (initSlot (exampleCtx ndebug)))) = true ->
  reachable (after ndebug ops).
Proof.
  intros [s Hs]%bool_decide_eq_true. exists (initSlot (exampleCtx ndebug)).
  split; [constructor|]. unfold after. rewrite Hs. by eapply runOps_run.
Qed.

Definition exampleVotes : list SlotOp :=
  [OpBumpState [9%N] false;
   OpProcessEnvelope (prepareFrom 2 (mkBallot 1 [9%N]) None None 0 0);
   OpProcessEnvelope (prepareFrom 2 (mkBallot 1 [9%N]) (Some (mkBallot 1 [9%N])) None 0 0);
   OpProcessEnvelope (prepareFrom 2 (mkBallot 1 [9%N]) (Some (mkBallot 1 [9%N])) None 1 1)].

Definition exampleExternalize : list SlotOp :=
  exampleVotes ++ [OpProcessEnvelope (externalizeFrom 2 [9%N])].

(** ** Theorems *)

(** C13. In every reachable state of a slot: [p'] is below [p] and incompatible with
    it; [h] is never above the current ballot, and [c] never stands without [h];
    once the PREPARE phase is left, there is no [p'], and [c], [h] and the current
    ballot are there, compatible, with [c] <= [h] <= [b]; and every stored envelope
    is one of the node it is stored under, was recorded, and is a well-formed
    ballot statement. *)
Theorem slot_invariant s : reachable s ->
  let b := ballotProtocol s in
  (forall p p', mPrepared b = Some p -> mPreparedPrime b = Some p' ->
     areBallotsLessAndIncompatible p' p = true) /\
  (forall h, mHighBallot b = Some h ->
     exists cur, mCurrentBallot b = Some cur /\ compareBallots h cur <= 0) /\
  (forall com, mCommit b = Some com -> counter com <> 0 /\ is_Some (mHighBallot b)) /\
  (mPhase b <> SCP_PHASE_PREPARE -> mPreparedPrime b = None /\
     exists com h cur, mCommit b = Some com /\ mHighBallot b = Some h /\
       mCurrentBallot b = Some cur /\ areBallotsLessAndCompatible com h = true /\
       areBallotsLessAndCompatible h cur = true) /\
  (forall n e, mLatestEnvelopes b !! n = Some e -> st_nodeID (statement e) = n /\
     statement e ∈ (mStatementsHistory s).*1 /\ isStatementShapeSane (statement e) true = true).
Proof.
  intros [[I1 I2 I3 I4 I5 I6 I7] _]%reachable_inv. split_and!.
  - intros p p' Ep Ep'. rewrite Ep, Ep' in I1. by apply areBallotsLessAndIncompatible_spec.
  - done.
  - intros com Hc. destruct (I3 com Hc) as [? [h ?]]. eauto.
  - intros HP. destruct (I4 HP) as (? & com & h & cur & ? & ? & ? & L1 & L2).
    split; [done|]. exists com, h, cur. by rewrite !areBallotsLessAndCompatible_spec.
  - intros n e He. destruct (I5 n e He). split_and!; [done..|]. by apply (I6 n).
Qed.

Lemma slot_invariant_witness :
  mPhase (ballotProtocol (after false exampleVotes)) <> SCP_PHASE_PREPARE /\
  exists com, mCommit (ballotProtocol (after false exampleVotes)) = Some com /\ counter com <> 0.
Proof.
  destruct (slot_invariant (after false exampleVotes)) as (_ & _ & H3 & H4 & _).
  - apply after_reachable. vm_compute. reflexivity.
  - assert (mPhase (ballotProtocol (after false exampleVotes)) <> SCP_PHASE_PREPARE) as HP
      by (vm_compute; discriminate).
    split; [exact HP|]. destruct (H4 HP) as (_ & com & h & cur & Hc & _).
    exists com. split; [exact Hc|]. apply (H3 com Hc).
Defined.

(** C5. A slot tells the driver of an externalized value at most once in its
    whole life, and only when it is in the EXTERNALIZE phase with a commit of that
    value ([SCPDriver.h]: [valueExternalized] is called at most once per slot). *)
Theorem externalized_once s : reachable s ->
  externalizedValues (events s) = [] \/
  mPhase (ballotProtocol s) = SCP_PHASE_EXTERNALIZE /\
  exists com, mCommit (ballotProtocol s) = Some com /\ externalizedValues (events s) = [value com].
Proof.
  intros (s0 & [Hs0 Hsil]%started_inv & Hrun).
  destruct (steps_told _ _ Hs0 Hrun) as (k & -> & Hk).
  rewrite externalizedValues_app, Hsil. simpl. intuition.
Qed.

Lemma externalized_once_witness :
  externalizedValues (events (after false exampleExternalize)) = [[9%N]] /\
  (externalizedValues (events (after false exampleExternalize)) = [] \/
   mPhase (ballotProtocol (after false exampleExternalize)) = SCP_PHASE_EXTERNALIZE /\
   exists com, mCommit (ballotProtocol (after false exampleExternalize)) = Some com /\
     externalizedValues (events (after false exampleExternalize)) = [value com]).
Proof.
  split; [vm_compute; reflexivity|].
  apply (externalized_once (after false exampleExternalize)).
  apply after_reachable. vm_compute. reflexivity.
Defined.

(** C6. Externalization is final: whatever is called afterwards, the phase, [b],
    [p], [p'], [h] and [c] stay as they are, and the driver is told of no further
    value. *)
Theorem externalized_is_final s s' : reachable s -> rtc slotStep s s' ->
  mPhase (ballotProtocol s) = SCP_PHASE_EXTERNALIZE ->
  frozen (ballotProtocol s) (ballotProtocol s') /\
  externalizedValues (events s') = externalizedValues (events s).
Proof.
  intros Hs%reachable_inv Hrun HP. split; [by apply steps_frozen|].
  destruct (steps_told _ _ Hs Hrun) as (k & -> & [Hk|[? _]]); [|done].
  by rewrite externalizedValues_app, Hk, app_nil_r.
Qed.

(** A statement for another value arrives after the slot has externalized. *)
Definition lateVote : SlotOp := OpProcessEnvelope (confirmFrom 3 (mkBallot 8 [5%N]) 8 8 8).

Lemma externalized_is_final_witness :
  let s := after false exampleExternalize in
  let s' := default s (survivor (runOp 60 (exampleCtx false) lateVote s)) in
  frozen (ballotProtocol s) (ballotProtocol s') /\
  externalizedValues (events s') = externalizedValues (events s).
Proof.
  intros s s'. apply (externalized_is_final s s').
  - apply after_reachable. vm_compute. reflexivity.
  - apply rtc_once. exists 60%nat, (exampleCtx false), lateVote. vm_compute. reflexivity.
  - vm_compute. reflexivity.
Defined.

(** C14. The phase of a slot never goes back; its current ballot never goes down, but
    for the moment it leaves the PREPARE phase; and once it has accepted a commit
    (phases CONFIRM and EXTERNALIZE) the value it commits to never changes. *)
Theorem accepted_value_is_kept s s' : reachable s -> rtc slotStep s s' ->
  let b := ballotProtocol s in let b' := ballotProtocol s' in
  phase_rank (mPhase b) <= phase_rank (mPhase b') /\
  (mPhase b <> SCP_PHASE_PREPARE \/ mPhase b' = mPhase b ->
   compareBallots_ptr (mCurrentBallot b) (mCurrentBallot b') <= 0) /\
  (mPhase b <> SCP_PHASE_PREPARE ->
   exists com com' cur, mCommit b = Some com /\ mCommit b' = Some com' /\
     value com = value com' /\ mCurrentBallot b = Some cur).
Proof.
  intros Hs%reachable_inv Hrun. cbv zeta.
  split_and!; [by apply steps_phase|by apply steps_current|].
  induction Hrun as [s|s s1 s' H1 Hrun IH]; intros HP;
    destruct (inv_confirm _ _ (inv_ballot _ Hs) HP) as (_ & com & h & cur & F1 & F2 & F3 & _).
  - exists com, com, cur. split_and!; done.
  - destruct (slotStep_follows _ _ Hs H1) as [c [Hs1 HM]].
    assert (mPhase (ballotProtocol s1) <> SCP_PHASE_PREPARE) as HP1.
    { intros E. apply HP. eapply phase_prepare_le; [|exact E].
      apply (mono_phase _ _ _ _ _ (mono_ballot _ _ _ HM)). }
    destruct (IH Hs1 HP1) as (com1 & com' & cur1 & E1 & E2 & E3 & E4).
    destruct (mono_commit _ _ _ _ _ (mono_ballot _ _ _ HM) HP com F1) as (com1' & G1 & G2).
    exists com, com', cur. split_and!; try done. congruence.
Qed.

Lemma accepted_value_is_kept_witness :
  let s := after false exampleVotes in
  let s' := default s (survivor (runOp 60 (exampleCtx false) OpAbandonBallot s)) in
  phase_rank (mPhase (ballotProtocol s)) <= phase_rank (mPhase (ballotProtocol s')).
Proof.
  intros s s'. apply (accepted_value_is_kept s s').
  - apply after_reachable. vm_compute. reflexivity.
  - apply rtc_once. exists 60%nat, (exampleCtx false), OpAbandonBallot. vm_compute. reflexivity.
Defined.

(** C1. A slot externalizes only on a quorum: when a call brings it to the
    EXTERNALIZE phase, there is a quorum of the local node (a set of nodes with a
    slice of the local node and of each of its members) whose recorded statements
    all commit its value on the whole interval from [c] to [h]. *)
Theorem externalize_rests_on_quorum fuel c op s s' : reachable s ->
  survivor (runOp fuel c op s) = Some s' ->
  mPhase (ballotProtocol s) <> SCP_PHASE_EXTERNALIZE ->
  mPhase (ballotProtocol s') = SCP_PHASE_EXTERNALIZE ->
  exists com h, mCommit (ballotProtocol s') = Some com /\ mHighBallot (ballotProtocol s') = Some h /\
    areBallotsLessAndCompatible com h = true /\
    quorumOf c (mStatementsHistory s') (commitPredicate h (counter com, counter h)).
Proof.
  intros Hs%reachable_inv [Hs' HM]%runOp_follows HP HP'; [|done].
  destruct (inv_confirm _ _ (inv_ballot _ Hs')) as (_ & com & h & cur & E1 & E2 & E3 & L1 & _);
    [by rewrite HP'|].
  exists com, h. rewrite areBallotsLessAndCompatible_spec. split_and!; try done.
  destruct (ev_externalize _ _ _ _ _ (mono_ballot _ _ _ HM) HP' com h E1 E2) as [?|H]; [done|].
  by apply ratifiedOn_quorumOf.
Qed.

Lemma externalize_rests_on_quorum_witness :
  let s := after false exampleVotes in
  let op := OpProcessEnvelope (externalizeFrom 2 [9%N]) in
  let s' := default s (survivor (runOp 60 (exampleCtx false) op s)) in
  exists com h, mCommit (ballotProtocol s') = Some com /\ mHighBallot (ballotProtocol s') = Some h /\
    areBallotsLessAndCompatible com h = true /\
    quorumOf (exampleCtx false) (mStatementsHistory s') (commitPredicate h (counter com, counter h)).
Proof.
  intros s op s'. apply (externalize_rests_on_quorum 60 (exampleCtx false) op s s').
  - apply after_reachable. vm_compute. reflexivity.
  - vm_compute. reflexivity.
  - vm_compute. discriminate.
  - vm_compute. reflexivity.
Defined.

(** C15. A slot accepts a commit only by the rule of federated voting: when a call
    leaves it in the CONFIRM phase with a [c] or an [h] it did not have there
    before, a v-blocking set has accepted to commit the interval from [c] to [h], or
    a quorum has voted for it or accepted it. *)
Theorem confirm_rests_on_accept fuel c op s s' com h : reachable s ->
  survivor (runOp fuel c op s) = Some s' ->
  mPhase (ballotProtocol s') = SCP_PHASE_CONFIRM ->
  mCommit (ballotProtocol s') = Some com -> mHighBallot (ballotProtocol s') = Some h ->
  ~ (mPhase (ballotProtocol s) = SCP_PHASE_CONFIRM /\ mCommit (ballotProtocol s) = Some com /\
     mHighBallot (ballotProtocol s) = Some h) ->
  let interval := (counter com, counter h) in
  blockingOf c (mStatementsHistory s') (commitPredicate h interval) \/
  quorumOf c (mStatementsHistory s')
    (fun st => commitPredicate h interval st || votesCommit h interval st).
Proof.
  intros Hs%reachable_inv [Hs' HM]%runOp_follows HP Ec Eh Hnew; [|done].
  destruct (ev_confirm _ _ _ _ _ (mono_ballot _ _ _ HM) HP com h Ec Eh) as [?|H]; [done|].
  by apply acceptedOn_evidence.
Qed.

Lemma confirm_rests_on_accept_witness :
  let s := after false (take 3 exampleVotes) in
  let op := OpProcessEnvelope (prepareFrom 2 (mkBallot 1 [9%N]) (Some (mkBallot 1 [9%N])) None 1 1) in
  let s' := default s (survivor (runOp 60 (exampleCtx false) op s)) in
  let interval := (1, 1) in let h := mkBallot 1 [9%N] in
  blockingOf (exampleCtx false) (mStatementsHistory s') (commitPredicate h interval) \/
  quorumOf (exampleCtx false) (mStatementsHistory s')
    (fun st => commitPredicate h interval st || votesCommit h interval st).
Proof.
  intros s op s' interval h.
  apply (confirm_rests_on_accept 60 (exampleCtx false) op s s' h h).
  - apply after_reachable. vm_compute. reflexivity.
  - vm_compute. reflexivity.
  - vm_compute. reflexivity.
  - vm_compute. reflexivity.
  - vm_compute. reflexivity.
  - intros [H _]. vm_compute in H. discriminate.
Defined.

(** C16. Preparing follows the rule of federated voting too: [p] never goes down;
    a new [p] or [p'] is one that a v-blocking set has accepted as prepared or that
    a quorum has voted for or accepted; and while in the PREPARE phase, a new [h]
    or [c] is one that a quorum has accepted as prepared. *)
Theorem prepare_rests_on_votes fuel c op s s' : reachable s ->
  survivor (runOp fuel c op s) = Some s' ->
  let b := ballotProtocol s in let b' := ballotProtocol s' in
  let hist := mStatementsHistory s' in
  compareBallots_ptr (mPrepared b) (mPrepared b') <= 0 /\
  (forall x, mPrepared b' = Some x \/ mPreparedPrime b' = Some x ->
     ~ (mPrepared b = Some x \/ mPreparedPrime b = Some x) ->
     blockingOf c hist (hasPreparedBallot x) \/
     quorumOf c hist (fun st => hasPreparedBallot x st || votesPrepare x st)) /\
  (forall x, mPhase b' = SCP_PHASE_PREPARE ->
     mHighBallot b' = Some x /\ mHighBallot b <> Some x \/ mCommit b' = Some x /\ mCommit b <> Some x ->
     quorumOf c hist (hasPreparedBallot x)).
Proof.
  intros Hs%reachable_inv [Hs' HM]%runOp_follows; [|done].
  destruct (mono_ballot _ _ _ HM) as [_ _ _ _ Hup _ _ Hp Hh Hc _ _]. cbv zeta. split_and!.
  - done.
  - intros x Hx Hnew. destruct (Hp x Hx) as [?|[?|?]]; [by destruct Hnew; auto..|].
    by apply acceptedOn_evidence.
  - intros x HP [[Hx Hnew]|[Hx Hnew]].
    + destruct (Hh HP x Hx) as [?|?]; [done|]. by apply ratifiedOn_quorumOf.
    + destruct (Hc HP x Hx) as [?|?]; [done|]. by apply ratifiedOn_quorumOf.
Qed.

Lemma prepare_rests_on_votes_witness :
  let s := after false (take 2 exampleVotes) in
  let op := OpProcessEnvelope (prepareFrom 2 (mkBallot 1 [9%N]) (Some (mkBallot 1 [9%N])) None 0 0) in
  let s' := default s (survivor (runOp 60 (exampleCtx false) op s)) in
  mHighBallot (ballotProtocol s') = Some (mkBallot 1 [9%N]) /\
  quorumOf (exampleCtx false) (mStatementsHistory s') (hasPreparedBallot (mkBallot 1 [9%N])).
Proof.
  intros s op s'.
  destruct (prepare_rests_on_votes 60 (exampleCtx false) op s s') as (_ & _ & H).
  - apply after_reachable. vm_compute. reflexivity.
  - vm_compute. reflexivity.
  - split; [vm_compute; reflexivity|]. apply H; [vm_compute; reflexivity|].
    left. split; vm_compute; [reflexivity | discriminate].
Defined.

(** What a slot knows of a node only gets newer: in any run, the last ballot
    statement and the last nomination of a node are kept or replaced by a newer
    one, and the history of statements only grows. *)
Theorem statements_get_newer s s' : reachable s -> rtc slotStep s s' ->
  (forall n e, mLatestEnvelopes (ballotProtocol s) !! n = Some e ->
     exists e', mLatestEnvelopes (ballotProtocol s') !! n = Some e' /\
       (e' = e \/ isNewerStatement_st (statement e) (statement e') = true)) /\
  (forall n e, mLatestNominations (nominationProtocol s) !! n = Some e ->
     exists e', mLatestNominations (nominationProtocol s') !! n = Some e' /\
       (e' = e \/ np_isNewerStatement_nom (nominate_of (statement e)) (nominate_of (statement e')) = true)) /\
  mStatementsHistory s `prefix_of` mStatementsHistory s'.
Proof.
  intros Hs%reachable_inv Hrun. induction Hrun as [s|s s1 s' H1 Hrun IH].
  { split_and!; [apply sameOrNewer_refl|apply (sameOrNewer_refl _ nominationGrows)|done]. }
  destruct (slotStep_follows _ _ Hs H1) as [c [Hs1 [HH HB HN]]].
  destruct (IH Hs1) as (H2 & H3 & H4). pose proof (steps_inv _ _ Hs1 Hrun) as Hs'. split_and!.
  - eapply sameOrNewer_trans; [|apply (mono_latest _ _ _ _ _ HB)|exact H2].
    intros. by eapply isNewerStatement_trans.
  - eapply (sameOrNewer_trans _ _ _ nominationGrows); [|apply (mono_nominations _ _ _ _ _ HN)|exact H3].
    intros n e1 e2 e3 _ E2 E3.
    destruct (inv_nomination _ _ (inv_nom _ Hs1) _ _ E2) as (x2 & P2 & S2).
    destruct (inv_nomination _ _ (inv_nom _ Hs') _ _ E3) as (x3 & P3 & S3).
    unfold nominationGrows, nominate_of. rewrite P2, P3. by apply np_isNewer_trans.
  - by etrans.
Qed.

Lemma statements_get_newer_witness :
  let s := after false exampleVotes in
  let op := OpProcessEnvelope (externalizeFrom 2 [9%N]) in
  let s' := default s (survivor (runOp 60 (exampleCtx false) op s)) in
  mStatementsHistory s `prefix_of` mStatementsHistory s'.
Proof.
  intros s op s'. apply (statements_get_newer s s').
  - apply after_reachable. vm_compute. reflexivity.
  - apply rtc_once. exists 60%nat, (exampleCtx false), op. vm_compute. reflexivity.
Defined.

(** C17. Nomination follows the rule of federated voting: in every reachable state
    the candidates are among the accepted values and those among the votes; a call
    never takes a value back; a value becomes accepted only when the driver
    fully validates it and a v-blocking set has accepted it or a quorum has voted
    for it or accepted it; and it becomes a candidate only when a quorum has
    accepted it. *)
Theorem nomination_rests_on_votes fuel c op s s' : reachable s ->
  survivor (runOp fuel c op s) = Some s' ->
  let n := nominationProtocol s in let n' := nominationProtocol s' in
  let hist := mStatementsHistory s' in
  (mCandidates n' ⊆ mAccepted n' /\ mAccepted n' ⊆ mVotes n') /\
  (mVotes n ⊆ mVotes n' /\ mAccepted n ⊆ mAccepted n' /\ mCandidates n ⊆ mCandidates n') /\
  (forall x, x ∈ mAccepted n' -> x ∉ mAccepted n ->
     validateValue (driver c) (mSlotIndex c) x = kFullyValidatedValue /\
     (blockingOf c hist (acceptPredicate x) \/
      quorumOf c hist (fun st => acceptPredicate x st || votesNominate x st))) /\
  (forall x, x ∈ mCandidates n' -> x ∉ mCandidates n -> quorumOf c hist (acceptPredicate x)).
Proof.
  intros Hs%reachable_inv [Hs' HM]%runOp_follows; [|done].
  destruct Hs' as [_ [J1 J2 J3 J4]], HM as [_ _ [M1 M2 M3 M4 M5 M6]]. cbv zeta. split_and!; try done.
  - intros x Hx Hnew. destruct (M5 x Hx) as [?|[Hv Hev]]; [done|]. split; [done|].
    by apply acceptedOn_evidence.
  - intros x Hx Hnew. destruct (M6 x Hx) as [?|?]; [done|]. by apply ratifiedOn_quorumOf.
Qed.

(** Nominations of the value 9 by the other two nodes. *)
Definition nominateFrom (n : NodeID) (votes accepted : list Value) : SCPEnvelope :=
  mkEnvelope (mkStatement n 5 (NOMINATE (mkNomination 7 votes accepted))) [].

Lemma nomination_rests_on_votes_witness :
  let s := after false [OpNominate [9%N] [1%N] false;
    OpProcessEnvelope (nominateFrom 2 [[9%N]] [])] in
  let op := OpProcessEnvelope (nominateFrom 3 [[9%N]] []) in
  let s' := default s (survivor (runOp 60 (exampleCtx false) op s)) in
  mAccepted (nominationProtocol s) ⊆ mAccepted (nominationProtocol s') /\
  mAccepted (nominationProtocol s') = {[ [9%N] ]}.
Proof.
  intros s op s'. split; [|vm_compute; reflexivity].
  apply (nomination_rests_on_votes 60 (exampleCtx false) op s s').
  - apply after_reachable. vm_compute. reflexivity.
  - vm_compute. reflexivity.
Defined.
