(* ===== verification/BallotTermination.v ===== *)
(** * Calls of the ballot protocol return

    The ballot protocol processes its own statements by recursion and follows
    v-blocking sets in a loop.  [advanceSlot] bounds the recursion; the loop ends
    because every bump passes a counter that some node has named, or moves the slot
    to its next phase. *)

From Stdlib Require Import ZArith Lia String.
From stdpp Require Import base tactics gmap option list.
From S2P Require Import Prelude ScpTypes LocalNode SlotState Ballot Nomination Slot BallotFacts.
From S2P Require Import SlotInv BallotSteps NominationSteps SlotTheorems.

Open Scope Z_scope.

Definition level (s : SlotState) : Z := mCurrentMessageLevel (ballotProtocol s).
Definition phaseOf (s : SlotState) : SCPPhase := mPhase (ballotProtocol s).
Definition latestOf (s : SlotState) : gmap NodeID SCPEnvelope := mLatestEnvelopes (ballotProtocol s).
Definition currentOf (s : SlotState) : option SCPBallot := mCurrentBallot (ballotProtocol s).

(** The counter [k] is not above that of a ballot, if there is one. *)
Definition behind (cur : option SCPBallot) (k : Z) : Prop :=
  match cur with Some b => k <= counter b | None => True end.

Definition terminates (e : exn) (s : SlotState) : Prop := e <> OutOfFuel.

Lemma fatal_terminates e s : fatal e = true -> terminates e s.
Proof. by destruct e. Qed.

Lemma wp_and {W A} (E1 E2 : exn -> W -> Prop) (m : M W A) Q1 Q2 w :
  wp E1 m Q1 w -> wp E2 m Q2 w -> wp E2 m (fun a w' => Q1 a w' /\ Q2 a w') w.
Proof. unfold wp. by destruct (m w). Qed.

#[export] Hint Resolve fatal_terminates : scp.

(** ** What a self-processed statement leaves alone *)

Section nested.
Context (c : Ctx).

Abbreviation me := (mNodeID (localNode c)) (only parsing).

(** What is stored of the node itself is not ahead of its ballot. *)
Definition ownBehind (s : SlotState) : Prop :=
  phaseOf s = SCP_PHASE_EXTERNALIZE \/
  forall e, latestOf s !! me = Some e -> behind (currentOf s) (statementCounter (statement e)).

(** What is stored of the other nodes is as it was. *)
Definition sameOthers (s s' : SlotState) : Prop :=
  forall n, n <> me -> latestOf s' !! n = latestOf s !! n.

Lemma sameOthers_trans s1 s2 s3 : sameOthers s1 s2 -> sameOthers s2 s3 -> sameOthers s1 s3.
Proof. intros A B n Hn. by rewrite B, A. Qed.

Record kept (s s' : SlotState) : Prop := {
  kept_level : level s' = level s;
  kept_others : sameOthers s s';
  kept_own : ownBehind s -> ownBehind s' }.

Lemma kept_refl s : kept s s.
Proof. done. Qed.

Lemma kept_trans s1 s2 s3 : kept s1 s2 -> kept s2 s3 -> kept s1 s3.
Proof.
  intros [A1 A2 A3] [B1 B2 B3]. constructor; [congruence|by eapply sameOthers_trans|auto].
Qed.

(** A change of the ballots alone. *)
Record touched (s s' : SlotState) : Prop := {
  touched_level : level s' = level s;
  touched_latest : latestOf s' = latestOf s }.

Lemma touched_refl s : touched s s.
Proof. done. Qed.

Lemma touched_trans s1 s2 s3 : touched s1 s2 -> touched s2 s3 -> touched s1 s3.
Proof. intros [A1 A2] [B1 B2]. constructor; congruence. Qed.

Lemma quiet_touched s s' : quiet s s' -> touched s s'.
Proof. intros [Hq _ _ _]. unfold coreB in Hq. by constructor; unfold level, latestOf; congruence. Qed.

Lemma touched_withB f s : mCurrentMessageLevel (f (ballotProtocol s)) = level s ->
  mLatestEnvelopes (f (ballotProtocol s)) = latestOf s -> touched s (withB f s).
Proof. by constructor. Qed.

Lemma touched_quiet f s s' : quiet (withB f s) s' ->
  mCurrentMessageLevel (f (ballotProtocol s)) = level s ->
  mLatestEnvelopes (f (ballotProtocol s)) = latestOf s -> touched s s'.
Proof. intros H%quiet_touched H1 H2. eapply touched_trans; [by apply touched_withB | done]. Qed.

(** A change of the ballots other than the current one. *)
Lemma touched_kept s s' : touched s s' -> phaseOf s' = phaseOf s -> currentOf s' = currentOf s ->
  kept s s'.
Proof.
  intros [H1 H2] HP Hc. constructor; [done|intros n _; by rewrite H2|]. unfold ownBehind. by rewrite H2, HP, Hc.
Qed.

Lemma quiet_kept s s' : quiet s s' -> kept s s'.
Proof.
  intros Hq. apply touched_kept; [by apply quiet_touched|..]; destruct Hq as [Hq _ _ _];
    unfold coreB in Hq; unfold phaseOf, currentOf; congruence.
Qed.

Lemma touched_own_kept s s1 s2 : touched s s1 -> kept s1 s2 -> ownBehind s2 -> kept s s2.
Proof.
  intros [H1 H2] [K1 K2 _] Ho. constructor; [congruence| |done]. intros n Hn. by rewrite K2, H2.
Qed.

(** An envelope the node makes of its own state. *)
Definition ownEnvelope (env : SCPEnvelope) (s : SlotState) : Prop :=
  st_nodeID (statement env) = me /\ (forall n, pledges (statement env) <> NOMINATE n) /\
  (phaseOf s = SCP_PHASE_EXTERNALIZE \/ behind (currentOf s) (statementCounter (statement env))).

Lemma createStatement_own s st : createStatement c (phaseOf s) s = Ret st s ->
  ownEnvelope (createEnvelope c st) s.
Proof.
  unfold createStatement. intros H.
  apply readonly_bind_inv in H as (? & _ & H); [|auto with scp].
  apply readonly_bind_inv in H as (b & [= <-] & H); [|auto with scp].
  unfold ownEnvelope, currentOf. destruct (phaseOf s) eqn:HP.
  - injection H as <-. split_and!; try done. right. unfold statementCounter. simpl.
    destruct (mCurrentBallot (ballotProtocol s)); simpl; [lia | done].
  - apply readonly_bind_inv in H as (? & _ & H); [|auto with scp].
    apply readonly_bind_inv in H as (cur & [Hcur _]%deref_inv & H); [|auto with scp].
    apply readonly_bind_inv in H as (p & _ & H); [|auto with scp].
    apply readonly_bind_inv in H as (com & _ & H); [|auto with scp].
    apply readonly_bind_inv in H as (h & _ & H); [|auto with scp].
    injection H as <-. rewrite Hcur. split_and!; try done. right. simpl. unfold statementCounter.
    simpl. lia.
  - apply readonly_bind_inv in H as (? & _ & H); [|auto with scp].
    apply readonly_bind_inv in H as (com & _ & H); [|auto with scp].
    apply readonly_bind_inv in H as (h & _ & H); [|auto with scp].
    injection H as <-. split_and!; try done. by left.
Qed.

(** ** Member functions at a positive level *)

Context (lo : Z) (sp : SCPEnvelope -> bool -> M SlotState EnvelopeState).
Hypothesis sp_kept : forall env s, lo <= level s < MAX_ADVANCE_SLOT_RECURSION -> ownEnvelope env s ->
  wp terminates (sp env true) (fun r s' => kept s s' /\ (r = VALID -> ownBehind s')) s.

Definition keeps {A} (m : M SlotState A) : Prop :=
  forall s, lo <= level s < MAX_ADVANCE_SLOT_RECURSION -> wp terminates m (fun _ s' => kept s s') s.

(** From [s], having come to [s1], run [m] and go on. *)
Lemma wp_keeps {A} (m : M SlotState A) (Q : A -> SlotState -> Prop) s s1 :
  keeps m -> lo <= level s < MAX_ADVANCE_SLOT_RECURSION -> kept s s1 ->
  (forall a s2, kept s s2 -> Q a s2) -> wp terminates m Q s1.
Proof.
  intros Hm Hs H1 HQ. eapply wp_mono; [apply Hm; by rewrite (kept_level _ _ H1)|].
  intros a s2 H2. apply HQ. by eapply kept_trans.
Qed.

Lemma keeps_bind {A B} (m : M SlotState A) (k : A -> M SlotState B) :
  keeps m -> (forall a, keeps (k a)) -> keeps (m ≫= k).
Proof.
  intros Hm Hk s Hs. apply wp_bind, (wp_keeps _ _ s); [done|done|apply kept_refl|].
  intros a s2 H2. by apply (wp_keeps _ _ s).
Qed.

Lemma keeps_readonly {A} (m : M SlotState A) : readonly m -> keeps m.
Proof.
  intros Hm s Hs. apply wp_readonly; [done|auto with scp|]. intros. apply kept_refl.
Qed.

Lemma keeps_getB {A} (k : BallotProtocol -> M SlotState A) :
  (forall s, lo <= level s < MAX_ADVANCE_SLOT_RECURSION ->
     wp terminates (k (ballotProtocol s)) (fun _ s' => kept s s') s) -> keeps (getB ≫= k).
Proof. intros H s Hs. apply H, Hs. Qed.

Lemma keeps_throw {A} e : e <> OutOfFuel -> keeps (A := A) (throw e).
Proof. by intros He s Hs. Qed.

Lemma keeps_modifyB f : (forall b, mCurrentMessageLevel (f b) = mCurrentMessageLevel b) ->
  (forall b, mLatestEnvelopes (f b) = mLatestEnvelopes b) -> (forall b, mPhase (f b) = mPhase b) ->
  (forall b, mCurrentBallot (f b) = mCurrentBallot b) -> keeps (modifyB f).
Proof.
  intros H1 H2 H3 H4 s Hs. apply touched_kept; [by apply touched_withB|by apply H3|by apply H4].
Qed.

Lemma keeps_tell e : keeps (tell e).
Proof. intros s Hs. by apply touched_kept. Qed.

Lemma keeps_if {A} (b : bool) (m m' : M SlotState A) : keeps m -> keeps m' -> keeps (if b then m else m').
Proof. by destruct b. Qed.

(** Emitting brings what is stored of the node to its current state. *)
Lemma wp_emit s : lo <= level s < MAX_ADVANCE_SLOT_RECURSION ->
  wp terminates (emitCurrentStateStatement c sp) (fun _ s' => kept s s' /\ ownBehind s') s.
Proof.
  intros Hs. apply wp_getB, wp_ro; [auto with scp..|]. intros st Hst. cbv zeta.
  pose proof (createStatement_own _ _ Hst) as Hown.
  destruct (decide _) as [He|_].
  { split; [apply kept_refl|]. destruct Hown as (_ & _ & [?|Hc]); [by left|]. right.
    intros e E. unfold latestOf in E. rewrite He in E. by injection E as <-. }
  apply wp_bind. eapply wp_mono; [by apply sp_kept|]. intros [|] s1 [H1 Ho]; [done|].
  specialize (Ho eq_refl). apply wp_getB. destruct (_ && _); [|done].
  apply wp_storeLastEnvelope. intros s2 H2%quiet_kept. apply wp_sendLatestEnvelope.
  intros s3 H3%quiet_kept. pose proof (kept_trans _ _ _ H2 H3) as H23.
  split; [by eapply kept_trans | by apply H23].
Qed.

Lemma keeps_emit : keeps (emitCurrentStateStatement c sp).
Proof. intros s Hs. eapply wp_mono; [by apply wp_emit|]. by intros ? ? [? _]. Qed.

(** Changing the ballots, then emitting. *)
Lemma wp_touched_emit {A} (k : () -> M SlotState A) Q s s1 :
  lo <= level s < MAX_ADVANCE_SLOT_RECURSION -> touched s s1 ->
  (forall s2, kept s s2 -> wp terminates (k ()) Q s2) ->
  wp terminates (emitCurrentStateStatement c sp ≫= k) Q s1.
Proof.
  intros Hs H1 Hk. apply wp_bind. eapply wp_mono.
  - apply wp_emit. by rewrite (touched_level _ _ H1).
  - intros [] s2 [H2 Ho]. apply Hk. by eapply touched_own_kept.
Qed.

(** The ballot follows [h], and the new state is emitted. *)
Lemma wp_raise_emit {A} e (r : A) s s1 : lo <= level s < MAX_ADVANCE_SLOT_RECURSION -> touched s s1 ->
  wp terminates (updateCurrentIfNeeded c;; tell e;; emitCurrentStateStatement c sp;; mret r)
    (fun _ s' => kept s s') s1.
Proof.
  intros Hs H1. apply wp_bind, wp_updateCurrentIfNeeded; [auto with scp|].
  intros s2 (h & cur & _ & _ & _ & Hq). apply wp_tell.
  apply (wp_touched_emit _ _ s); [done| |done].
  eapply touched_trans; [exact H1|]. by destruct (touched_quiet _ _ _ Hq).
Qed.

Ltac keeps_step :=
  first
    [ apply keeps_emit
    | apply keeps_tell
    | apply keeps_throw; discriminate
    | apply keeps_modifyB; done
    | apply keeps_readonly; by solve_readonly
    | lazymatch goal with
      | |- keeps (_ ≫= _) => apply keeps_bind; [|intros ?]
      | |- keeps (if ?b then _ else _) => destruct b
      | |- keeps (match ?x with _ => _ end) => destruct x
      end ].
Ltac solve_keeps := repeat keeps_step.

Lemma keeps_setPreparedAccept ballot : keeps (setPreparedAccept c sp ballot).
Proof. unfold setPreparedAccept, setPrepared. solve_keeps. Qed.

Lemma keeps_preparedAcceptLoop l : keeps (preparedAcceptLoop c sp l).
Proof.
  induction l as [|ballot l IH]; simpl; [apply keeps_readonly; auto with scp|].
  apply keeps_bind; [apply keeps_readonly; auto with scp|]. intros b.
  apply keeps_bind; [apply keeps_readonly; by solve_readonly|]. intros [|]; [done|].
  destruct (match mPreparedPrime _ with Some p' => _ | None => _ end); [done|].
  destruct (match mPrepared _ with Some p => _ | None => _ end); [done|].
  apply keeps_bind; [apply keeps_readonly; auto with scp|]. intros [|]; [|done].
  apply keeps_setPreparedAccept.
Qed.

Lemma keeps_attemptPreparedAccept hint : keeps (attemptPreparedAccept c sp hint).
Proof.
  apply keeps_bind; [apply keeps_readonly; auto with scp|]. intros b.
  destruct (negb _); [apply keeps_readonly; auto with scp | apply keeps_preparedAcceptLoop].
Qed.

Lemma keeps_setPreparedConfirmed newC newH : keeps (setPreparedConfirmed c sp newC newH).
Proof.
  apply keeps_bind; [apply keeps_readonly; auto with scp|]. intros b.
  apply keeps_bind; [solve_keeps|]. intros d1. apply keeps_bind; [solve_keeps|]. intros [|]; [|solve_keeps].
  intros s Hs. by apply wp_raise_emit.
Qed.

Lemma keeps_attemptPreparedConfirmed hint : keeps (attemptPreparedConfirmed c sp hint).
Proof.
  apply keeps_bind; [apply keeps_readonly; auto with scp|]. intros b.
  destruct (mPhase b); [|apply keeps_readonly; auto with scp..].
  destruct (mPrepared b); [|apply keeps_readonly; auto with scp].
  apply keeps_bind; [apply keeps_readonly; auto with scp|]. intros [[newH cur]|];
    [|apply keeps_readonly; auto with scp].
  apply keeps_bind; [apply keeps_readonly; by solve_readonly|]. intros newC.
  apply keeps_setPreparedConfirmed.
Qed.

Lemma keeps_setAcceptCommit com h : keeps (setAcceptCommit c sp com h).
Proof.
  apply keeps_bind; [apply keeps_readonly; auto with scp|]. intros b.
  apply keeps_bind; [solve_keeps|]. intros d s Hs. apply wp_bind.
  assert (wp terminates (modifyB (set_mPhase SCP_PHASE_CONFIRM);;
     match mCurrentBallot b with
     | Some cur => if negb (areBallotsLessAndCompatible h cur) then bumpToBallot c h false else mret ()
     | None => mret ()
     end;; modifyB (set_mPreparedPrime None);; mret true)
     (fun r s' => r = true /\ touched s s') s) as Hconfirm.
  { apply wp_modifyB, wp_bind.
    assert (forall s2, touched s s2 -> wp terminates (modifyB (set_mPreparedPrime None);; mret true)
      (fun r s' => r = true /\ touched s s') s2) as Hrest.
    { intros s2 H2. apply wp_modifyB, wp_ret. split; [done|]. eapply touched_trans; [done|].
      by apply touched_withB. }
    destruct (mCurrentBallot b) as [cur|]; [destruct (negb _)|]; try (by apply Hrest).
    apply wp_bumpToBallot; [auto with scp|]. intros s2 Hq. apply Hrest.
    eapply touched_trans; [|by apply (touched_quiet _ _ _ Hq)]. done. }
  destruct (mPhase b).
  - eapply wp_mono; [exact Hconfirm|]. intros r s2 [-> H2]. by apply wp_raise_emit.
  - apply wp_ret. destruct d; [by apply wp_raise_emit | apply wp_ret, kept_refl].
  - apply wp_ret. destruct d; [by apply wp_raise_emit | apply wp_ret, kept_refl].
Qed.

Lemma readonly_findAccepted ballot l :
  readonly (findExtendedInterval (0, 0) l (fun cur =>
    bp_federatedAccept c (votesCommit ballot cur) (commitPredicate ballot cur))).
Proof. apply readonly_findExtendedInterval. intros. apply readonly_bp_federatedAccept. Qed.

Lemma readonly_findRatified ballot l :
  readonly (findExtendedInterval (0, 0) l (fun cur =>
    bp_federatedRatify c (commitPredicate ballot cur))).
Proof. apply readonly_findExtendedInterval. intros. apply readonly_bp_federatedRatify. Qed.

Hint Resolve readonly_findAccepted readonly_findRatified keeps_readonly : scp.

Lemma keeps_attemptAcceptCommit hint : keeps (attemptAcceptCommit c sp hint).
Proof.
  apply keeps_bind; [auto with scp|]. intros b.
  destruct (negb _); [auto with scp|]. destruct (acceptCommitBallot hint) as [ballot|]; [|auto with scp].
  apply keeps_bind; [apply keeps_readonly; by solve_readonly|]. intros [|]; [auto with scp|].
  cbv zeta. destruct (decide _); [auto with scp|]. apply keeps_bind; [auto with scp|].
  intros [c1 c2]. simpl. destruct (c1 =? 0); [auto with scp|].
  apply keeps_bind; [apply keeps_readonly; by solve_readonly|]. intros [|]; [|auto with scp].
  apply keeps_setAcceptCommit.
Qed.

Lemma keeps_setConfirmCommit com h : keeps (setConfirmCommit c sp com h).
Proof.
  intros s Hs. apply wp_modifyB, wp_modifyB, wp_bind, wp_updateCurrentIfNeeded; [auto with scp|].
  intros s2 (h' & cur & _ & _ & _ & Hq). apply wp_modifyB.
  apply (wp_touched_emit _ _ s); [done| |].
  { eapply touched_trans; [|by apply touched_withB].
    eapply touched_trans; [|by apply (touched_quiet _ _ _ Hq)]. done. }
  intros s3 H3. apply wp_bind, wp_modify, wp_getB, wp_deref; [auto with scp|]. intros com' _.
  apply wp_tell, wp_ret. eapply kept_trans; [exact H3|]. by apply touched_kept.
Qed.

Lemma keeps_attemptConfirmCommit hint : keeps (attemptConfirmCommit c sp hint).
Proof.
  apply keeps_bind; [auto with scp|]. intros b.
  destruct (mPhase b); [auto with scp| |auto with scp].
  destruct (mHighBallot b); [|auto with scp]. destruct (mCommit b) as [com|]; [|auto with scp].
  destruct (confirmCommitBallot hint) as [ballot|]; [|auto with scp].
  destruct (negb _); [auto with scp|]. apply keeps_bind; [auto with scp|].
  intros [c1 c2]. simpl. destruct (c1 =? 0); [auto with scp | apply keeps_setConfirmCommit].
Qed.

Lemma keeps_checkHeardFromQuorum : keeps (checkHeardFromQuorum c).
Proof.
  apply keeps_bind; [auto with scp|]. intros b.
  destruct (mHeardFromQuorum b); [auto with scp|]. destruct (mCurrentBallot b); [|auto with scp].
  solve_keeps.
Qed.

(** ** Bumping *)

(** The slot stands at [newb], in the phase it was in. *)
Record bumpedTo (newb : SCPBallot) (s s' : SlotState) : Prop := {
  bumped_touched : touched s s';
  bumped_phase : phaseOf s' = phaseOf s;
  bumped_open : phaseOf s <> SCP_PHASE_EXTERNALIZE;
  bumped_current : currentOf s' = Some newb }.

Lemma wp_updateCurrentValue_bumped newb s :
  wp terminates (updateCurrentValue c newb)
    (fun r s' => if (r : bool) then bumpedTo newb s s' else s' = s) s.
Proof.
  apply wp_getB. destruct (negb _) eqn:EP; [done|]. apply prepareOrConfirm_true in EP.
  assert (wp terminates (bumpToBallot c newb true;; checkInvariants c;; mret true)
    (fun r s' => if (r : bool) then bumpedTo newb s s' else s' = s) s) as Hbump.
  { apply wp_bind, wp_bumpToBallot; [auto with scp|]. intros s1 Hq.
    apply wp_ro; [auto with scp..|]. intros _ _. apply wp_ret.
    constructor; [by apply (touched_quiet _ _ _ Hq)| |done|by apply (quiet_current _ _ _ Hq)].
    destruct Hq as [Hq _ _ _]. unfold coreB in Hq. simpl in Hq. unfold phaseOf. congruence. }
  destruct (mCurrentBallot (ballotProtocol s)) as [cur|]; [|done].
  apply wp_ro; [auto with scp..|]. intros _ _.
  destruct (match mCommit _ with Some _ => _ | None => _ end); [done|].
  cbv zeta. destruct (_ <? 0); [done|]. destruct (0 <? _); [done|].
  apply wp_ro; [auto with scp..|]. done.
Qed.

Hypothesis sp_steps : forall e self, steps c (sp e self).

(** A bump past the counter [n]: the slot came to stand at [n] or above, and went on
    from there. *)
Definition raisedPast (n : Z) (s s' : SlotState) : Prop :=
  exists newb s1, n <= counter newb /\ bumpedTo newb s s1 /\ follows c s1 s' /\ ownBehind s'.

(** What a function that may bump does: when it returns [true], it bumped past a
    counter of [P]. *)
Definition bumps (P : Z -> Prop) (s : SlotState) (r : bool) (s' : SlotState) : Prop :=
  kept s s' /\ SlotInv s' /\ (r = true -> exists n, P n /\ raisedPast n s s').

Lemma bumps_no P s : SlotInv s -> bumps P s false s.
Proof. intros Hs. unfold bumps. split_and!; [apply kept_refl | done | done]. Qed.

Lemma bumps_weaken (P P' : Z -> Prop) s r s' : (forall n, P n -> P' n) ->
  bumps P s r s' -> bumps P' s r s'.
Proof. intros HP (? & ? & Hr). split_and!; [done..|]. intros E. destruct (Hr E) as (n & ? & ?). eauto. Qed.

Lemma wp_bumpState_n v n s : SlotInv s -> lo <= level s < MAX_ADVANCE_SLOT_RECURSION ->
  wp terminates (bumpState_n c sp v n) (bumps (fun k => k = n) s) s.
Proof.
  intros Hs Hl. apply wp_getB. destruct (negb _); [by apply bumps_no|]. cbv zeta. apply wp_bind.
  eapply wp_mono.
  - eapply wp_and; [apply (wp_updateCurrentValue c _ s Hs)|apply wp_updateCurrentValue_bumped].
    intros h Eh. simpl. by rewrite Eh.
  - intros [|] s1 [H1 Hb]; [|subst; by apply bumps_no]. apply wp_tell, wp_bind.
    lazymatch goal with |- wp _ _ _ ?x => set (s2 := x) end.
    assert (follows c s1 s2) as H2.
    { apply quiet_follows; [apply H1|]. by apply quiet_tell. }
    assert (touched s s2) as Ht by (destruct (bumped_touched _ _ _ Hb); by constructor).
    eapply wp_mono.
    + eapply wp_and; [apply (steps_emitCurrentStateStatement c sp sp_steps s2), H2|apply wp_emit].
      by rewrite (touched_level _ _ Ht).
    + intros [] s3 [H3 [H4 H5]]. apply wp_ret. unfold bumps. split_and!.
      * by eapply touched_own_kept.
      * apply H3.
      * intros _. eexists. split; [done|]. eexists _, s1. split_and!; [|exact Hb| |done].
        -- simpl. lia.
        -- by eapply follows_trans.
Qed.

Lemma wp_bp_bumpState v force s : SlotInv s -> lo <= level s < MAX_ADVANCE_SLOT_RECURSION ->
  wp terminates (bp_bumpState c sp v force) (bumps (fun k => 0 <= k) s) s.
Proof.
  intros Hs Hl. apply wp_getB. destruct (mCurrentBallot _) as [cur|]; [destruct force|].
  - eapply wp_mono; [by apply wp_bumpState_n|]. intros r s'. apply bumps_weaken. intros n ->.
    apply u32_range.
  - by apply bumps_no.
  - eapply wp_mono; [by apply wp_bumpState_n|]. intros r s'. apply bumps_weaken. intros n ->. lia.
Qed.

Lemma wp_bp_abandonBallot n s : SlotInv s -> lo <= level s < MAX_ADVANCE_SLOT_RECURSION ->
  wp terminates (bp_abandonBallot c sp n) (bumps (fun k => n <= k \/ n = 0 /\ 0 <= k) s) s.
Proof.
  intros Hs Hl. apply wp_ro; [auto with scp|unfold getLatestCompositeCandidate; solve_readonly|].
  intros v _. apply wp_getB. cbv zeta. destruct (decide _); [by apply bumps_no|].
  destruct (Z.eqb_spec n 0).
  - eapply wp_mono; [by apply wp_bp_bumpState|]. intros r s'. apply bumps_weaken. auto.
  - eapply wp_mono; [by apply wp_bumpState_n|]. intros r s'. apply bumps_weaken. intros k ->. left. lia.
Qed.

Lemma wp_bumpLoop target l s : SlotInv s -> lo <= level s < MAX_ADVANCE_SLOT_RECURSION ->
  wp terminates (bumpLoop c sp target l) (bumps (fun k => exists n, n ∈ l /\ target < n <= k) s) s.
Proof.
  intros Hs Hl. induction l as [|n l IH]; simpl; [by apply bumps_no|].
  destruct (Z.ltb_spec n target); [by apply bumps_no|]. apply wp_getB. cbv zeta.
  assert (wp terminates (bumpLoop c sp target l)
    (bumps (fun k => exists m, m ∈ n :: l /\ target < m <= k) s) s) as IH'.
  { eapply wp_mono; [exact IH|]. intros r s'. apply bumps_weaken. intros k (m & ? & ?).
    exists m. split; [by right | done]. }
  destruct (Z.eqb_spec n target), (isVBlocking_map _ _ _); [done|by apply bumps_no|done|].
  eapply wp_mono; [by apply wp_bp_abandonBallot|]. intros r s'. apply bumps_weaken.
  intros k Hk. exists n. split; [by left | lia].
Qed.

(** [attemptBump] bumps past a counter that some node has named. *)
Lemma wp_attemptBump s : SlotInv s -> lo <= level s < MAX_ADVANCE_SLOT_RECURSION ->
  wp terminates (attemptBump c sp)
    (bumps (fun k => exists i e, latestOf s !! i = Some e /\
       counter_or_0 (currentOf s) < statementCounter (statement e) <= k) s) s.
Proof.
  intros Hs Hl. apply wp_getB. destruct (negb _); [by apply bumps_no|]. cbv zeta.
  eapply wp_mono; [by apply wp_bumpLoop|]. intros r s'. apply bumps_weaken.
  intros k (n & Hn & Hlt). apply elem_of_set_asc, elem_of_union in Hn as [->%elem_of_singleton|Hn].
  { unfold currentOf. lia. }
  apply elem_of_list_to_set, list_elem_of_fmap in Hn as ([i e] & -> & He). simpl in *.
  apply elem_of_map_asc in He. by exists i, e.
Qed.

(** *** The measure of the loop *)

Definition above (cur : option SCPBallot) (k : Z) : Prop :=
  match cur with Some b => counter b < k | None => True end.

#[local] Instance above_dec cur k : Decision (above cur k).
Proof. destruct cur; simpl; apply _. Defined.

(** The nodes whose statements are above the current ballot. *)
Definition ahead (s : SlotState) : gmap NodeID SCPEnvelope :=
  base.filter (fun p => above (currentOf s) (statementCounter (statement p.2))) (latestOf s).

(** The nodes known, the node itself included. *)
Definition known (s : SlotState) : nat := S (size (delete me (latestOf s))).

Definition bumpsLeft (s : SlotState) : nat :=
  Z.to_nat (2 - phase_rank (phaseOf s)) * S (known s) + size (ahead s).

Lemma size_delete_le (m : gmap NodeID SCPEnvelope) i : (size m <= S (size (delete i m)))%nat.
Proof. rewrite map_size_delete. destruct (m !! i); simpl; lia. Qed.

Lemma ahead_le_known s : (size (ahead s) <= known s)%nat.
Proof.
  unfold known. etrans; [|apply size_delete_le]. apply map_subseteq_size, map_filter_subseteq.
Qed.

Lemma sameOthers_known s s' : sameOthers s s' -> known s' = known s.
Proof.
  intros H. unfold known. do 2 f_equal. apply map_eq. intros i.
  destruct (decide (i = me)) as [->|Hi]; [by rewrite !lookup_delete_eq|].
  rewrite !lookup_delete_ne by done. by apply H.
Qed.

Lemma kept_known s s' : kept s s' -> known s' = known s.
Proof. intros H. apply sameOthers_known, H. Qed.

Lemma bumpsLeft_le s : (bumpsLeft s <= 3 * known s + 2)%nat.
Proof.
  unfold bumpsLeft. pose proof (ahead_le_known s).
  assert (Z.to_nat (2 - phase_rank (phaseOf s)) <= 2)%nat by (destruct (phaseOf s); simpl; lia). nia.
Qed.

Lemma ahead_decreases s s' i e newb : kept s s' -> ownBehind s' ->
  phaseOf s' <> SCP_PHASE_EXTERNALIZE -> currentOf s' = Some newb ->
  latestOf s !! i = Some e ->
  counter_or_0 (currentOf s) < statementCounter (statement e) <= counter newb ->
  (size (ahead s') < size (ahead s))%nat.
Proof.
  intros [_ Hk _] [?|Hown] HP Hcur Hi Hn; [done|]. apply map_subset_size.
  assert (above (currentOf s) (statementCounter (statement e))) as Ha
    by (unfold counter_or_0 in Hn; destruct (currentOf s); simpl; [lia | done]).
  split.
  - apply map_subseteq_spec. intros j x. unfold ahead. rewrite !map_lookup_filter_Some. simpl.
    rewrite Hcur in *. simpl. intros [Hx Hc].
    assert (j <> me) as Hj by (intros ->; specialize (Hown _ Hx); simpl in Hown; lia).
    rewrite Hk in Hx by done. split; [done|]. unfold counter_or_0 in Hn.
    destruct (currentOf s); simpl; [lia | done].
  - rewrite map_subseteq_spec. intros Hsub. specialize (Hsub i e). unfold ahead in Hsub.
    rewrite !map_lookup_filter_Some in Hsub. simpl in Hsub. destruct Hsub as [_ Hsub]; [done|].
    rewrite Hcur in Hsub. simpl in Hsub. lia.
Qed.

Lemma bump_decreases s s' k : kept s s' -> raisedPast k s s' ->
  (exists i e, latestOf s !! i = Some e /\
     counter_or_0 (currentOf s) < statementCounter (statement e) <= k) ->
  (bumpsLeft s' < bumpsLeft s)%nat.
Proof.
  intros Hk (newb & s1 & Hn & [_ HP HX Hcur] & [_ HM] & Hown) (i & e & Hi & Hlt).
  unfold bumpsLeft. rewrite (kept_known _ _ Hk). apply mono_ballot in HM.
  pose proof (mono_phase _ _ _ _ _ HM) as Hr. pose proof (mono_current _ _ _ _ _ HM) as Hc.
  fold (phaseOf s1) (phaseOf s') in Hr, Hc. fold (currentOf s1) (currentOf s') in Hc.
  rewrite HP in Hr, Hc. rewrite Hcur in Hc.
  destruct (decide (phaseOf s' = phaseOf s)) as [E|E].
  - rewrite E. destruct (currentOf s') as [b'|] eqn:Ecur; [|by specialize (Hc (or_intror E))].
    specialize (Hc (or_intror E)). apply compareBallots_le_counter in Hc.
    assert (size (ahead s') < size (ahead s))%nat; [|lia].
    eapply (ahead_decreases s s' i e b'); try done; [congruence | lia].
  - pose proof (ahead_le_known s') as Ha. rewrite (kept_known _ _ Hk) in Ha.
    assert (Z.to_nat (2 - phase_rank (phaseOf s')) < Z.to_nat (2 - phase_rank (phaseOf s)))%nat; [|nia].
    destruct (phaseOf s), (phaseOf s'); simpl in *; try done; lia.
Qed.

Lemma wp_bumpWhile fuel didWork s : SlotInv s -> lo <= level s < MAX_ADVANCE_SLOT_RECURSION ->
  (bumpsLeft s < fuel)%nat ->
  wp terminates (bumpWhile c sp fuel didWork) (fun _ s' => kept s s') s.
Proof.
  revert s didWork. induction fuel as [|fuel IH]; intros s didWork Hs Hl Hf; [lia|]. simpl.
  apply wp_bind. eapply wp_mono; [by apply wp_attemptBump|].
  intros [|] s1 (H1 & Hs1 & Hb); [|done]. destruct (Hb eq_refl) as (k & Hk & Hr).
  eapply wp_mono.
  - apply IH; [done|by rewrite (kept_level _ _ H1)|].
    pose proof (bump_decreases s s1 k H1 Hr Hk). lia.
  - intros r s2 H2. by eapply kept_trans.
Qed.

(** ** advanceSlot *)

(** Running [m] in the middle of a call that keeps [s]; [I] is whether the invariant
    is known. *)
Lemma wp_keeps_inv {A} (I : Prop) (m : M SlotState A) (Q : A -> SlotState -> Prop) s s1 :
  keeps m -> steps c m -> lo <= level s < MAX_ADVANCE_SLOT_RECURSION ->
  kept s s1 -> (I -> SlotInv s1) ->
  (forall a s2, kept s s2 -> (I -> SlotInv s2) -> Q a s2) -> wp terminates m Q s1.
Proof.
  intros Hm Hst Hl H1 HI HQ.
  pose proof (Hm s1 ltac:(by rewrite (kept_level _ _ H1))) as Hk. unfold wp in *.
  assert (I -> match m s1 with Ret _ s2 => SlotInv s2 | Exn _ _ => True end) as HI2.
  { intros i. specialize (Hst s1 (HI i)). unfold wp in Hst. destruct (m s1); [apply Hst | done]. }
  destruct (m s1) as [a s2|e s2]; [|done]. apply HQ; [by eapply kept_trans | done].
Qed.

(** Enough rounds for the loop of [advanceSlot] at the outermost level. *)
Definition bumpsEnough (s : SlotState) : Prop :=
  level s = 0 -> SlotInv s /\ (3 * known s + 2 < bumpFuel c)%nat.

Lemma level_kept f s1 s s' : kept s s' -> withB (levelB f) s1 = s ->
  forall g, g (level s) = level s1 -> kept s1 (withB (levelB g) s').
Proof.
  intros [H1 H2 H3] <- g Hg. constructor.
  - unfold level in *. simpl. by rewrite H1, Hg.
  - intros n Hn. by apply H2.
  - exact H3.
Qed.

Lemma wp_advanceSlot hint s : lo <= level s + 1 -> bumpsEnough s ->
  wp terminates (advanceSlot c sp hint) (fun _ s' => kept s s') s.
Proof.
  intros Hlo Hen. apply wp_modifyB.
  lazymatch goal with |- wp ?E ?m ?Q _ => change (wp E m Q (withB (levelB (fun l => l + 1)) s)) end.
  set (s1 := withB (levelB (fun l => l + 1)) s). assert (level s1 = level s + 1) as Hl1 by done.
  assert (withB (levelB (fun l => l + 1)) s = s1) as Es1 by done.
  assert (known s1 = known s) as Hkn by done.
  assert (level s = 0 -> SlotInv s1) as HI.
  { intros E. destruct (Hen E) as [Hs _]. apply (follows_level c (fun l => l + 1) s s);
      [by apply follows_refl|lia|done]. }
  apply wp_getB. fold (level s1). destruct (Z.leb_spec MAX_ADVANCE_SLOT_RECURSION (level s1)); [done|].
  apply wp_bind, wp_ret.
  assert (lo <= level s1 < MAX_ADVANCE_SLOT_RECURSION) as Hl by lia. clearbody s1.
  apply wp_bind, (wp_keeps_inv (level s = 0) _ _ s1); auto using kept_refl, keeps_checkHeardFromQuorum,
    steps_checkHeardFromQuorum. intros _ s3 H3 I3.
  apply wp_bind, (wp_keeps_inv (level s = 0) _ _ s1); auto using keeps_attemptPreparedAccept,
    steps_attemptPreparedAccept. intros w1 s4 H4 I4.
  apply wp_bind, (wp_keeps_inv (level s = 0) _ _ s1); auto using keeps_attemptPreparedConfirmed,
    steps_attemptPreparedConfirmed. intros w2 s5 H5 I5.
  apply wp_bind, (wp_keeps_inv (level s = 0) _ _ s1); auto using keeps_attemptAcceptCommit,
    steps_attemptAcceptCommit. intros w3 s6 H6 I6.
  apply wp_bind, (wp_keeps_inv (level s = 0) _ _ s1); auto using keeps_attemptConfirmCommit,
    steps_attemptConfirmCommit. intros w4 s7 H7 I7.
  apply wp_getB. fold (level s7). apply wp_bind.
  assert (forall w s8, kept s1 s8 -> wp terminates
    (modifyB (fun b => set_mCurrentMessageLevel (mCurrentMessageLevel b - 1) b);;
     if (w : bool) then sendLatestEnvelope else mret ()) (fun _ s' => kept s s') s8) as Hend.
  { intros w s8 H8. apply wp_modifyB.
    assert (kept s (withB (levelB (fun l => l - 1)) s8)) as H9
      by (apply (level_kept _ _ _ _ H8 Es1); lia).
    destruct w; [|exact H9]. apply wp_sendLatestEnvelope. intros s9 H10%quiet_kept.
    by eapply kept_trans. }
  destruct (Z.eqb_spec (level s7) 1) as [E|E]; [|by apply Hend].
  assert (level s = 0) as E0 by (rewrite (kept_level _ _ H7) in E; lia).
  eapply wp_mono.
  - apply wp_bumpWhile; [by apply I7|by rewrite (kept_level _ _ H7)|].
    pose proof (bumpsLeft_le s7). rewrite (kept_known _ _ H7), Hkn in *.
    destruct (Hen E0) as [_ ?]. lia.
  - intros w s8 H8. apply Hend. by eapply kept_trans.
Qed.

(** ** processEnvelope *)

Lemma insert_known s s1 env : coreB (ballotProtocol s1) = coreB (set_mLatestEnvelopes
    (<[st_nodeID (statement env) := env]> (latestOf s)) (ballotProtocol s)) ->
  level s1 = level s /\ phaseOf s1 = phaseOf s /\ currentOf s1 = currentOf s /\
  latestOf s1 = <[st_nodeID (statement env) := env]> (latestOf s) /\
  (known s1 <= S (known s))%nat.
Proof.
  unfold coreB. simpl. intros H. unfold known, level, phaseOf, currentOf, latestOf in *.
  split_and!; try congruence.
  assert (mLatestEnvelopes (ballotProtocol s1) =
    <[st_nodeID (statement env) := env]> (mLatestEnvelopes (ballotProtocol s))) as -> by congruence.
  destruct (decide (st_nodeID (statement env) = me)) as [->|Hne].
  - rewrite delete_insert_eq. lia.
  - rewrite delete_insert_ne, map_size_insert by done. destruct (_ !! _); simpl; lia.
Qed.

(** A statement of the node itself, in a nested call. *)
Lemma wp_process_own env s : lo <= level s + 1 -> 1 <= level s -> ownEnvelope env s ->
  wp terminates (bp_processEnvelope c sp env true)
    (fun r s' => kept s s' /\ (r = VALID -> ownBehind s')) s.
Proof.
  intros Hlo Hl (Hid & _ & Hown). apply wp_bp_processEnvelope; [auto with scp| |].
  { split; [apply kept_refl | done]. }
  intros s1 _ (E1 & E2 & E3 & E4 & _)%insert_known.
  assert (ownBehind s1) as Ho1.
  { unfold ownBehind. rewrite E2, E3, E4, Hid. destruct Hown as [?|Hown]; [by left|]. right.
    intros e. rewrite lookup_insert_eq. by intros [= <-]. }
  assert (kept s s1) as H1.
  { constructor; [done| |done]. intros n Hn. rewrite E4, Hid. by apply lookup_insert_ne. }
  split; [done|]. intros _. eapply wp_mono.
  - apply wp_advanceSlot; [lia|]. intros E. lia.
  - intros [] s2 H2. split; [by eapply kept_trans|]. intros _. by apply H2.
Qed.

(** Any statement, at any level. *)
Lemma wp_process_any env self s : lo <= level s + 1 -> SlotInv s ->
  (3 * known s + 5 < bumpFuel c)%nat ->
  wp terminates (bp_processEnvelope c sp env self)
    (fun _ s' => st_nodeID (statement env) = me -> sameOthers s s') s.
Proof.
  intros Hlo Hs Hf. apply wp_bp_processEnvelope; [auto with scp|done|].
  intros s1 H1 (E1 & _ & _ & El & Hk)%insert_known.
  assert (st_nodeID (statement env) = me -> sameOthers s s1) as Ho.
  { intros E n Hn. rewrite El, E. by apply lookup_insert_ne. }
  split; [done|]. intros _. eapply wp_mono.
  - apply wp_advanceSlot; [lia|]. intros _. split; [by apply H1 | lia].
  - intros [] s2 [_ H2 _] E. eapply sameOthers_trans; [by apply Ho | done].
Qed.

End nested.

(** ** The slot *)

Definition isNomination (st : SCPStatement) : bool :=
  match pledges st with NOMINATE _ => true | _ => false end.

(** The fuels that are enough from a state. *)
Definition fuelsEnough (fuel : nat) (c : Ctx) (s : SlotState) : Prop :=
  MAX_ADVANCE_SLOT_RECURSION <= Z.of_nat fuel /\ (3 * known c s + 5 < bumpFuel c)%nat.

Section slot.
Context (c : Ctx).

Lemma wp_slot_ballot E fuel env self Q s : (forall e s', fatal e = true -> E e s') ->
  isNomination (statement env) = false ->
  wp E (bp_processEnvelope c (slot_processEnvelope fuel c) env self) Q s ->
  wp E (slot_processEnvelope (S fuel) c env self) Q s.
Proof.
  intros HE Hn H. apply wp_ro; [done|auto with scp|]. intros _ _.
  unfold isNomination in Hn. by destruct (pledges (statement env)).
Qed.

Lemma wp_slot_own fuel env s : 1 <= level s < MAX_ADVANCE_SLOT_RECURSION ->
  MAX_ADVANCE_SLOT_RECURSION - level s <= Z.of_nat fuel -> ownEnvelope c env s ->
  wp terminates (slot_processEnvelope fuel c env true)
    (fun r s' => kept c s s' /\ (r = VALID -> ownBehind c s')) s.
Proof.
  revert env s. induction fuel as [|fuel IH]; intros env s Hl Hf Hown; [lia|].
  apply wp_slot_ballot; [auto with scp| |].
  { destruct Hown as (_ & Hn & _). unfold isNomination. destruct (pledges _); naive_solver. }
  apply (wp_process_own c (level s + 1)); [|apply steps_slot_processEnvelope|lia|lia|done].
  intros env' s' Hl' Hown'. apply IH; [lia|lia|done].
Qed.

Lemma wp_slot_any fuel env self s : SlotInv s -> isNomination (statement env) = false ->
  fuelsEnough fuel c s ->
  wp terminates (slot_processEnvelope fuel c env self)
    (fun _ s' => st_nodeID (statement env) = mNodeID (localNode c) -> sameOthers c s s') s.
Proof.
  intros Hs Hn [Hf Hb]. pose proof (inv_level _ _ (inv_ballot _ Hs)). fold (level s) in *.
  destruct fuel as [|fuel]; [done|]. apply wp_slot_ballot; [auto with scp|done|].
  apply (wp_process_any c (level s + 1)); [|apply steps_slot_processEnvelope|lia|done|done].
  intros env' s' Hl' Hown'. apply wp_slot_own; [lia|lia|done].
Qed.

Lemma wp_slot_emit fuel s : SlotInv s -> fuelsEnough fuel c s ->
  wp terminates (emitCurrentStateStatement c (slot_processEnvelope fuel c))
    (fun _ s' => sameOthers c s s') s.
Proof.
  intros Hs Hf. apply wp_getB, wp_ro; [auto with scp..|]. intros st Hst. cbv zeta.
  pose proof (createStatement_own _ _ _ Hst) as (Hid & Hn & _).
  destruct (decide _); [by intros ? ?|]. apply wp_bind. eapply wp_mono.
  - apply wp_slot_any; [done| |done]. unfold isNomination. destruct (pledges _); naive_solver.
  - intros [|] s1 H1; [done|]. specialize (H1 Hid). apply wp_getB. destruct (_ && _); [|done].
    apply wp_storeLastEnvelope. intros s2 H2%(quiet_kept c). apply wp_sendLatestEnvelope.
    intros s3 H3%(quiet_kept c). eapply sameOthers_trans; [done|].
    eapply sameOthers_trans; [apply H2 | apply H3].
Qed.

Lemma wp_slot_bumpState_n fuel v n s : SlotInv s -> fuelsEnough fuel c s ->
  wp terminates (bumpState_n c (slot_processEnvelope fuel c) v n) (fun _ s' => sameOthers c s s') s.
Proof.
  intros Hs Hf. apply wp_getB. destruct (negb _); [by intros ? ?|]. cbv zeta. apply wp_bind. eapply wp_mono.
  - eapply wp_and; [apply (wp_updateCurrentValue c _ s Hs)|apply wp_updateCurrentValue_bumped].
    intros h Eh. simpl. by rewrite Eh.
  - intros [|] s1 [H1 Hb]; [|subst; by intros ? ?]. apply wp_tell, wp_bind.
    assert (sameOthers c s s1) as Ho by (intros k _; by rewrite (touched_latest _ _ (bumped_touched _ _ _ Hb))).
    eapply wp_mono; [apply wp_slot_emit|].
    + eapply (quiet_follows c s1); [apply H1 | by apply quiet_tell].
    + destruct Hf as [Hf Hb']. split; [done|]. by rewrite (sameOthers_known c s).
    + intros [] s2 H2. by eapply (sameOthers_trans c s s1).
Qed.

Lemma wp_slot_bumpState fuel v force s : SlotInv s -> fuelsEnough fuel c s ->
  wp terminates (slot_bumpState fuel c v force) (fun _ s' => sameOthers c s s') s.
Proof.
  intros Hs Hf. apply wp_getB. destruct (mCurrentBallot _); [destruct force|];
    [by apply wp_slot_bumpState_n|by intros ? ?|by apply wp_slot_bumpState_n].
Qed.

Lemma wp_slot_abandonBallot fuel s : SlotInv s -> fuelsEnough fuel c s ->
  wp terminates (slot_abandonBallot fuel c) (fun _ s' => sameOthers c s s') s.
Proof.
  intros Hs Hf. apply wp_ro; [auto with scp|unfold getLatestCompositeCandidate; solve_readonly|].
  intros v _. apply wp_getB. cbv zeta. destruct (decide _); [by intros ? ?|]. by apply wp_slot_bumpState.
Qed.

Lemma wp_slot_ballotTimer fuel s : SlotInv s -> fuelsEnough fuel c s ->
  wp terminates (slot_ballotTimer fuel c) (fun _ _ => True) s.
Proof.
  intros Hs Hf. apply wp_getB. destruct (mHeardFromQuorum _).
  - apply wp_bind. eapply wp_mono; [by apply wp_slot_abandonBallot | done].
  - by apply wp_startBallotProtocolTimer; [auto with scp|].
Qed.

End slot.
