(* ===== verification/SlotTermination.v ===== *)
(** * Every call of a slot returns

    A nomination that changes is emitted, and processing it can change it again.
    Votes and accepted values only grow, and they come from a finite set as long as
    the driver keeps its promise: the value [extractValidValue] gives is one the
    node would agree to.  With [BallotTermination.v], every call of a slot ends. *)

From Stdlib Require Import ZArith Lia String.
From stdpp Require Import base tactics gmap option list.
From S2P Require Import Prelude ScpTypes LocalNode SlotState Ballot Nomination Slot BallotFacts.
From S2P Require Import SlotInv BallotSteps NominationSteps SlotTheorems.
From S2P Require Import BallotTermination.

Open Scope Z_scope.

Definition votesOf (s : SlotState) : gset Value := mVotes (nominationProtocol s).
Definition acceptedOf (s : SlotState) : gset Value := mAccepted (nominationProtocol s).

Section nomination.
Context (c : Ctx).

(** The values that nomination can come to vote for. *)
Context (U : gset Value).

(** How often votes and accepted values can still grow. *)
Definition roomLeft (s : SlotState) : nat := size (U ∖ votesOf s) + size (U ∖ acceptedOf s).

(** Votes and accepted values grow within [U], the ballots stay; the result tells
    whether they did grow, or it was [m] already. *)
Record grows (m r : bool) (s s' : SlotState) : Prop := mkGrows {
  grows_ballot : ballotProtocol s' = ballotProtocol s;
  grows_votes : votesOf s ⊆ votesOf s';
  grows_accepted : acceptedOf s ⊆ acceptedOf s';
  grows_in : votesOf s' ⊆ U;
  grows_room : r = true -> m = true \/ (roomLeft s' < roomLeft s)%nat }.

Lemma roomLeft_le s s' : votesOf s ⊆ votesOf s' -> acceptedOf s ⊆ acceptedOf s' ->
  (roomLeft s' <= roomLeft s)%nat.
Proof. intros H1 H2. unfold roomLeft. apply Nat.add_le_mono; apply subseteq_size; set_solver. Qed.

Lemma roomLeft_vote s s' v : votesOf s ⊆ votesOf s' -> acceptedOf s ⊆ acceptedOf s' ->
  v ∈ U -> v ∉ votesOf s -> v ∈ votesOf s' -> (roomLeft s' < roomLeft s)%nat.
Proof.
  intros H1 H2 Hv Hn Hv'. unfold roomLeft. apply Nat.add_lt_le_mono.
  - apply subset_size. set_solver.
  - apply subseteq_size. set_solver.
Qed.

Lemma roomLeft_accept s s' v : votesOf s ⊆ votesOf s' -> acceptedOf s ⊆ acceptedOf s' ->
  v ∈ U -> v ∉ acceptedOf s -> v ∈ acceptedOf s' -> (roomLeft s' < roomLeft s)%nat.
Proof.
  intros H1 H2 Hv Hn Hv'. unfold roomLeft. apply Nat.add_le_lt_mono.
  - apply subseteq_size. set_solver.
  - apply subset_size. set_solver.
Qed.

Lemma roomLeft_max s : (roomLeft s <= 2 * size U)%nat.
Proof.
  unfold roomLeft. assert (forall X : gset Value, size (U ∖ X) <= size U)%nat as H
    by (intros X; apply subseteq_size; set_solver).
  pose proof (H (votesOf s)). pose proof (H (acceptedOf s)). lia.
Qed.

Hypothesis closed : forall v, v ∈ U -> valueToNominate c v = [] \/ valueToNominate c v ∈ U.

Lemma grows_refl m s : votesOf s ⊆ U -> grows m m s s.
Proof. by constructor; auto. Qed.

Lemma grows_trans m1 m2 m3 s1 s2 s3 : grows m1 m2 s1 s2 -> grows m2 m3 s2 s3 -> grows m1 m3 s1 s3.
Proof.
  intros [A1 A2 A3 A4 A5] [B1 B2 B3 B4 B5].
  pose proof (roomLeft_le _ _ A2 A3). pose proof (roomLeft_le _ _ B2 B3).
  constructor; [congruence|by etrans|by etrans|done|].
  intros E. destruct (B5 E) as [E2|?]; [|lia]. destruct (A5 E2) as [?|?]; [by left | right; lia].
Qed.

(** A new vote of [U]. *)
Lemma grows_vote m v s : votesOf s ⊆ U -> v ∈ U -> v ∉ votesOf s ->
  grows m true s (withN (fun n => set_mVotes ({[v]} ∪ mVotes n) n) s).
Proof.
  intros Hs Hv Hn. constructor; [done|apply union_subseteq_r|done|unfold votesOf in *; simpl; set_solver|].
  intros _. right. apply (roomLeft_vote _ _ v); [apply union_subseteq_r|done|done|done|].
  unfold votesOf. simpl. set_solver.
Qed.

Lemma wp_promoteVotes votes m s : votesOf s ⊆ U -> (forall v, v ∈ votes -> v ∈ U) ->
  wp terminates (promoteVotes c votes m) (fun r s' => grows m r s s') s.
Proof.
  revert m s. induction votes as [|v votes IH]; intros m s Hs Hl; simpl.
  { by apply grows_refl. }
  assert (v ∈ U) as Hv by (apply Hl; left).
  assert (forall x, x ∈ votes -> x ∈ U) as Hl' by (intros; apply Hl; by right).
  assert (forall s1, grows m true s s1 ->
    wp terminates (promoteVotes c votes true) (fun r s' => grows m r s s') s1) as Hgo.
  { intros s1 H1. eapply wp_mono; [by apply IH; [apply H1|]|]. intros r s2 H2.
    by eapply grows_trans. }
  apply wp_getN. destruct (decide _) as [|Hna]; [by apply IH|].
  apply wp_ro; [auto with scp..|]. intros [|] _; [|by apply IH].
  destruct (decide _) as [Hval|Hval].
  - do 2 apply wp_modifyN. apply Hgo. constructor.
    + done.
    + apply union_subseteq_r.
    + apply union_subseteq_r.
    + unfold votesOf in *. simpl. set_solver.
    + intros _. right. apply (roomLeft_accept _ _ v); [apply union_subseteq_r..|done|done|].
      unfold acceptedOf. simpl. set_solver.
  - cbv zeta. destruct (bool_decide_reflect (np_extractValidValue c v = [])); [by apply IH|].
    destruct (bool_decide_reflect (np_extractValidValue c v ∈ mVotes (nominationProtocol s)));
      [by apply IH|]. apply wp_modifyN, Hgo, grows_vote; [done| |done].
    destruct (closed v Hv) as [E|E]; unfold valueToNominate in E; rewrite decide_False in E by done; done.
Qed.

Lemma wp_promoteAccepted_room l nc s : votesOf s ⊆ U ->
  wp terminates (promoteAccepted c l nc) (fun _ s' => grows false false s s') s.
Proof.
  revert nc s. induction l as [|a l IH]; intros nc s Hs; simpl; [by apply grows_refl|].
  apply wp_getN. destruct (decide _); [by apply IH|].
  apply wp_ro; [auto with scp..|]. intros [|] _; [|by apply IH].
  apply wp_modifyN. eapply wp_mono; [by apply IH|]. intros r s' H. eapply grows_trans; [|exact H].
  by constructor.
Qed.

(** What is found to vote for is new, and of [U]. *)
Lemma newValueLoop_in values v h s r : (forall x, x ∈ values -> x ∈ U) ->
  (v = [] \/ v ∈ U /\ v ∉ votesOf s) ->
  newValueLoop c values v h s = Ret r s -> r = [] \/ r ∈ U /\ r ∉ votesOf s.
Proof.
  revert v h. induction values as [|x values IH]; intros v h Hl Hv; simpl; [by intros [= <-]|].
  assert (forall y, y ∈ values -> y ∈ U) as Hl' by (intros; apply Hl; by right).
  intros (n & [= <-] & H)%readonly_bind_inv; [|auto with scp]. cbv zeta in H.
  destruct (bool_decide_reflect (valueToNominate c x = [])); [by apply (IH v h)|].
  destruct (bool_decide_reflect (valueToNominate c x ∈ mVotes (nominationProtocol s)));
    [by apply (IH v h)|].
  apply readonly_bind_inv in H as (k & _ & H); [|apply readonly_hashValue].
  destruct (_ <=? _); [|by apply (IH v h)]. eapply IH; [done| |exact H].
  right. split; [|done]. destruct (closed x); [apply Hl; left|done|done].
Qed.

Lemma wp_newVote nom m s : votesOf s ⊆ U -> (forall v, v ∈ applyAll nom -> v ∈ U) ->
  wp terminates (newVote ← getNewValueFromNomination c nom;
     if decide (newVote = []) then mret m
     else modifyN (fun n => set_mVotes ({[newVote]} ∪ mVotes n) n);; mret true)
    (fun r s' => grows m r s s') s.
Proof.
  intros Hs Hl. apply wp_ro; [auto with scp|apply readonly_getNewValueFromNomination|].
  intros v Hv. apply newValueLoop_in in Hv; [|done|by left].
  destruct (decide (v = [])); [by apply grows_refl|]. destruct Hv as [|[? ?]]; [done|].
  apply wp_modifyN, wp_ret. by apply grows_vote.
Qed.

(** ** Emitting *)

(** The fuel for the nominations the node can still emit, and the ballot calls
    after them. *)
Definition nominationFuel (fuel : nat) (s : SlotState) : Prop :=
  MAX_ADVANCE_SLOT_RECURSION + Z.of_nat (roomLeft s) < Z.of_nat fuel /\
  (3 * known c s + 5 < bumpFuel c)%nat.

Definition nominates (env : SCPEnvelope) : Prop := exists nom,
  pledges (statement env) = NOMINATE nom /\ forall v, v ∈ applyAll nom -> v ∈ U.

Definition nominationReturns (sp : SCPEnvelope -> bool -> M SlotState EnvelopeState) (fuel : nat) : Prop :=
  forall env self s, SlotInv s -> votesOf s ⊆ U -> nominates env -> nominationFuel fuel s ->
  wp terminates (sp env self) (fun _ s' => sameOthers c s s') s.

Lemma wp_emitNomination sp fuel s : nominationReturns sp fuel -> SlotInv s -> votesOf s ⊆ U ->
  nominationFuel fuel s -> wp terminates (emitNomination c sp) (fun _ s' => sameOthers c s s') s.
Proof.
  intros Hsp Hs Hv Hf. apply wp_getN. cbv zeta. apply wp_bind. eapply wp_mono.
  - apply Hsp; [done|done| |done]. eexists. split; [done|]. intros v. unfold applyAll. simpl.
    rewrite elem_of_app, !elem_of_set_asc. pose proof (inv_accepted _ _ (inv_nom _ Hs)).
    unfold votesOf in Hv. set_solver.
  - intros [|] s1 H1; [done|]. apply wp_bind. unfold wp at 1, get.
    lazymatch goal with |- wp _ (if ?x then _ else _) _ _ => destruct x end; [|done].
    apply wp_modifyN. by destruct (mFullyValidated s1).
Qed.

(** Candidates are combined and handed to the ballot protocol. *)
Lemma wp_newCandidates fuel s (nc : bool) : SlotInv s -> fuelsEnough fuel c s ->
  wp terminates (if nc then
      n ← getN;
      let composite := combineCandidates (driver c) (mSlotIndex c) (mCandidates n) in
      modifyN (set_mLatestCompositeCandidate composite);;
      tell (updatedCandidateValue composite);;
      bp_bumpState c (slot_processEnvelope fuel c) composite false;; mret ()
    else mret ()) (fun _ s' => sameOthers c s s') s.
Proof.
  intros Hs Hf. destruct nc; [|by intros ? ?]. apply wp_getN, wp_modifyN, wp_tell, wp_bind.
  eapply wp_mono; [apply wp_slot_bumpState|done]; [|done].
  eapply (quiet_follows c s); [done|]. eapply quiet_trans; [|by apply quiet_tell]. by apply quiet_withN.
Qed.

Lemma grows_nominationFuel fuel s s' : grows false true s s' -> nominationFuel (S fuel) s ->
  nominationFuel fuel s'.
Proof.
  intros [E _ _ _ Hr] [H1 H2]. destruct (Hr eq_refl) as [|Hr']; [done|]. split; [lia|].
  by rewrite (sameOthers_known c s) by (intros n _; unfold latestOf; by rewrite E).
Qed.

Lemma grows_sameOthers m r s s' : grows m r s s' -> sameOthers c s s'.
Proof. intros [E _ _ _ _] n _. unfold latestOf. by rewrite E. Qed.

(** The end of [np_processEnvelope]: what changed is emitted, and new candidates are
    handed over. *)
Lemma wp_nomination_end fuel (m nc : bool) s s1 : nominationReturns (slot_processEnvelope fuel c) fuel ->
  SlotInv s1 -> grows false m s s1 -> nominationFuel (S fuel) s ->
  wp terminates ((if m then emitNomination c (slot_processEnvelope fuel c) else mret ());;
    (if nc then
      n ← getN;
      let composite := combineCandidates (driver c) (mSlotIndex c) (mCandidates n) in
      modifyN (set_mLatestCompositeCandidate composite);;
      tell (updatedCandidateValue composite);;
      bp_bumpState c (slot_processEnvelope fuel c) composite false;; mret ()
     else mret ());; mret VALID) (fun _ s' => sameOthers c s s') s1.
Proof.
  intros Hsp Hs1 G1 Hf. apply wp_bind.
  lazymatch goal with |- wp _ _ ?R _ =>
    assert (forall s2, SlotInv s2 -> sameOthers c s s2 -> R () s2) as Hend end.
  { intros s2 Hs2 O2. apply wp_bind. eapply wp_mono; [apply wp_newCandidates; [done|]|].
    - destruct Hf as [Hf1 Hf2]. split; [lia|]. by rewrite (sameOthers_known c s).
    - intros [] s3 H3. apply wp_ret. by eapply sameOthers_trans. }
  pose proof (grows_sameOthers _ _ _ _ G1) as O1. destruct m; [|by apply Hend].
  eapply wp_mono.
  - eapply wp_and; [apply (steps_emitNomination c _ (steps_slot_processEnvelope c fuel)), Hs1|].
    apply (wp_emitNomination _ fuel); [done|done|apply G1|by eapply grows_nominationFuel].
  - intros [] s2 [[H2 _] O2]. apply Hend; [done|]. by eapply sameOthers_trans.
Qed.

Lemma wp_np_processEnvelope fuel env s : nominationReturns (slot_processEnvelope fuel c) fuel ->
  SlotInv s -> votesOf s ⊆ U -> nominates env -> nominationFuel (S fuel) s ->
  wp terminates (np_processEnvelope c (slot_processEnvelope fuel c) env)
    (fun _ s' => sameOthers c s s') s.
Proof.
  intros Hsp Hs Hv (nom & Hnom & Hl) Hf.
  assert (nominate_of (statement env) = nom) as En by (unfold nominate_of; by rewrite Hnom).
  unfold np_processEnvelope. rewrite En.
  apply wp_ro; [auto with scp|apply readonly_np_isNewerStatement|]. intros [|] Hnewer; [|by intros ? ?].
  apply wp_ro; [auto with scp|apply readonly_isSane|]. intros [|] Hsane; [|by intros ? ?].
  simpl negb. cbv iota. apply isSane_sorted in Hsane. rewrite En in Hsane.
  apply wp_bind. eapply wp_mono.
  { eapply wp_and; [apply (np_recordEnvelope_follows c env nom s Hs Hnom Hsane)|].
    - intros old Hold. injection Hnewer. by rewrite Hold.
    - assert (wp terminates (np_recordEnvelope env) (fun _ s' => grows false false s s') s) as H
        by by constructor. exact H. }
  intros u s1 [H1 G1]. apply wp_getN. destruct (negb _); [by eapply grows_sameOthers|].
  apply wp_bind. eapply wp_mono.
  { eapply wp_and; [apply (steps_promoteVotes c), H1|apply wp_promoteVotes; [apply G1|]].
    intros v Hin. apply Hl. unfold applyAll. apply elem_of_app. by left. }
  intros modified s2 [H2 G2]. apply wp_getN, wp_bind. eapply wp_mono.
  { eapply wp_and; [apply (wp_promoteAccepted c _ _ s2); [apply follows_refl, H2|]|
      apply wp_promoteAccepted_room, G2]. intros a Ha. by apply elem_of_set_asc in Ha. }
  intros nc s3 [H3 G3]. apply wp_getN, wp_bind.
  assert (grows false modified s s3) as G.
  { eapply grows_trans; [exact G1|]. eapply grows_trans; [exact G2|]. destruct G3. constructor; auto. }
  destruct (_ && _); [|apply wp_ret; eapply wp_nomination_end; [done|apply H3|exact G|done]].
  eapply wp_mono.
  - eapply wp_and; [apply (steps_newVote c nom modified), H3|]. apply wp_newVote; [apply G3 | done].
  - intros m' s4 [H4 G4]. eapply wp_nomination_end; [done|apply H4| |done]. by eapply grows_trans.
Qed.

Lemma slot_nominationReturns fuel : nominationReturns (slot_processEnvelope fuel c) fuel.
Proof.
  induction fuel as [|fuel IH]; intros env self s Hs Hv He Hf.
  { destruct Hf as [Hf _]. unfold MAX_ADVANCE_SLOT_RECURSION in Hf. lia. }
  apply wp_ro; [auto with scp..|]. intros _ _. pose proof He as (nom & Hnom & _). rewrite Hnom.
  by apply wp_np_processEnvelope.
Qed.

(** ** Nominating *)

Lemma wp_leaderVotes l v u s : votesOf s ⊆ U ->
  (forall i e x, mLatestNominations (nominationProtocol s) !! i = Some e ->
     x ∈ applyAll (nominate_of (statement e)) -> x ∈ U) ->
  wp terminates (leaderVotes c l v u) (fun _ s' => grows true true s s') s.
Proof.
  revert v u s. induction l as [|n l IH]; intros v u s Hs Hm; simpl; [by apply grows_refl|].
  apply wp_getN. destruct (mLatestNominations (nominationProtocol s) !! n) as [e|] eqn:Ee; [|by apply IH].
  apply wp_ro; [auto with scp|apply readonly_getNewValueFromNomination|]. intros x Hx.
  apply newValueLoop_in in Hx; [|by eauto|by left]. destruct (decide (x = [])); [by apply IH|].
  destruct Hx as [|[Hx1 Hx2]]; [done|]. apply wp_modifyN.
  pose proof (grows_vote true x s Hs Hx1 Hx2) as G. eapply wp_mono; [apply IH; [apply G|done]|].
  intros r s' G'. by eapply grows_trans.
Qed.

Lemma wp_leadersLoop q l top s : wp terminates (leadersLoop c q l top) (fun _ s' => quiet s s') s.
Proof.
  revert top s. induction l as [|n l IH]; intros top s; simpl; [apply quiet_refl|].
  apply wp_ro; [auto with scp|apply readonly_getNodePriority|]. intros w _.
  assert (forall top' s1, quiet s s1 -> wp terminates
    ((if (w =? top') && (0 <? w)
      then modifyN (fun n0 => set_mRoundLeaders ({[n]} ∪ mRoundLeaders n0) n0) else mret ());;
     leadersLoop c q l top') (fun _ s' => quiet s s') s1) as Hrest.
  { intros top' s1 H1. apply wp_bind.
    assert (forall s2, quiet s s2 -> wp terminates (leadersLoop c q l top') (fun _ s' => quiet s s') s2) as Hgo.
    { intros s2 H2. eapply wp_mono; [apply IH|]. intros r s3 H3. by eapply quiet_trans. }
    destruct (_ && _); [|by apply Hgo]. apply wp_modify, Hgo.
    eapply quiet_trans; [exact H1|]. by apply quiet_withN. }
  apply wp_bind. destruct (top <? w); [apply wp_modifyN, wp_ret|apply wp_ret]; apply Hrest.
  - by apply quiet_withN.
  - apply quiet_refl.
Qed.

(** The end of [np_nominate]. *)
Lemma wp_nominate_end fuel (r : Value * bool) s : SlotInv s -> votesOf s ⊆ U ->
  nominationFuel fuel s ->
  wp terminates (n ← getN; tell (nominatingValue r.1);;
    tell (setupTimer NOMINATION_TIMER (computeTimeout (u32 (mRoundNumber n))));;
    (if (r.2 : bool) then emitNomination c (slot_processEnvelope fuel c) else mret ());; mret r.2)
    (fun _ _ => True) s.
Proof.
  intros Hs Hv Hf. apply wp_getN, wp_tell, wp_tell, wp_bind. destruct r.2; [|done].
  eapply wp_mono; [|done]. apply (wp_emitNomination _ fuel); [apply slot_nominationReturns| |done|done].
  eapply (quiet_follows c s); [done|]. eapply quiet_trans; by apply quiet_tell.
Qed.

Lemma wp_slot_nominate fuel v prev timedout s : SlotInv s -> votesOf s ⊆ U -> v ∈ U ->
  (forall i e x, mLatestNominations (nominationProtocol s) !! i = Some e ->
     x ∈ applyAll (nominate_of (statement e)) -> x ∈ U) ->
  MAX_ADVANCE_SLOT_RECURSION + 2 * Z.of_nat (size U) < Z.of_nat fuel ->
  (3 * known c s + 5 < bumpFuel c)%nat ->
  wp terminates (slot_nominate fuel c v prev timedout) (fun _ _ => True) s.
Proof.
  intros Hs Hv HvU Hm Hf Hb. apply wp_getN. destruct (_ && _); [done|].
  do 3 apply wp_modifyN. apply wp_bind, wp_modifyN. eapply wp_mono; [apply wp_leadersLoop|].
  intros [] s1 Hq.
  assert (quiet s s1) as H1.
  { eapply quiet_trans; [|exact Hq].
    repeat (eapply quiet_trans; [|by apply quiet_withN]). apply quiet_refl. }
  clear Hq. pose proof (quiet_follows c s s1 Hs H1) as [Hs1 _].
  pose proof (quiet_nomination _ _ H1) as Hn. unfold coreN in Hn.
  assert (sameOthers c s s1) as O1 by apply quiet_kept, H1.
  assert (votesOf s1 = votesOf s) as Ev by (unfold votesOf; congruence).
  assert (votesOf s1 ⊆ U) as Hv1 by by rewrite Ev.
  assert (forall s2, sameOthers c s1 s2 -> nominationFuel fuel s2) as Hf2.
  { intros s2 O2. pose proof (roomLeft_max s2). split; [lia|].
    rewrite (sameOthers_known c s s2); [done|]. by eapply sameOthers_trans. }
  apply wp_getN, wp_bind. destruct (decide _).
  - apply wp_modifyN, wp_ret, wp_nominate_end.
    + by apply (vote_follows c v s1).
    + unfold votesOf in *. simpl. set_solver.
    + by apply Hf2.
  - eapply wp_mono.
    + eapply wp_and; [by apply (steps_leaderVotes c)|]. apply wp_leaderVotes; [done|].
      assert (mLatestNominations (nominationProtocol s1) = mLatestNominations (nominationProtocol s)) as ->
        by congruence. done.
    + intros r s2 [H2 G2]. apply wp_nominate_end; [apply H2|apply G2|].
      by eapply Hf2, grows_sameOthers.
Qed.

End nomination.

(** ** Every call *)

(** [extractValidValue], by its documentation: the value it gives is one the local
    node would agree to, and the empty value says that there is none. *)
Definition extractsValid (c : Ctx) : Prop := forall v,
  np_validateValue c v <> kFullyValidatedValue ->
  np_extractValidValue c v = [] \/ np_validateValue c (np_extractValidValue c v) = kFullyValidatedValue.

(** The values and their valid variations. *)
Definition variations (c : Ctx) (X : gset Value) : gset Value :=
  X ∪ (set_map (valueToNominate c) X ∖ {[ [] ]}).

Lemma valueToNominate_valid c v : extractsValid c -> valueToNominate c v <> [] ->
  valueToNominate c (valueToNominate c v) = valueToNominate c v.
Proof.
  intros Hd Hne. unfold valueToNominate at 1. rewrite decide_True; [done|]. unfold valueToNominate in *.
  destruct (decide _) as [E|E]; [done|]. by destruct (Hd v E).
Qed.

Lemma variations_closed c X : extractsValid c ->
  forall v, v ∈ variations c X -> valueToNominate c v = [] \/ valueToNominate c v ∈ variations c X.
Proof.
  intros Hd v Hv. destruct (decide (valueToNominate c v = [])) as [|Hne]; [by left|]. right.
  unfold variations in *. apply elem_of_union in Hv as [Hv|[Hv Hv']%elem_of_difference].
  - apply elem_of_union. right. apply elem_of_difference. split; [by apply elem_of_map_2 | set_solver].
  - apply elem_of_map in Hv as (w & -> & Hw).
    rewrite valueToNominate_valid in Hne |- * by (done || set_solver).
    apply elem_of_union. right. apply elem_of_difference. split; [by apply elem_of_map_2 | set_solver].
Qed.

Lemma size_list_to_set_le {A} `{Countable A} (l : list A) :
  (size (list_to_set l : gset A) <= length l)%nat.
Proof.
  induction l as [|x l IH]; [by rewrite list_to_set_nil, size_empty|].
  rewrite list_to_set_cons, size_union_alt, size_singleton. simpl length.
  assert (size ((list_to_set l : gset A) ∖ {[x]}) <= size (list_to_set l : gset A))%nat
    by (apply subseteq_size; set_solver). lia.
Qed.

Lemma variations_size c X : (size (variations c X) <= 2 * size X)%nat.
Proof.
  unfold variations. rewrite size_union_alt.
  pose proof (size_list_to_set_le (valueToNominate c <$> elements X)) as H1.
  rewrite length_fmap in H1. change (length (elements X)) with (size X) in H1.
  assert (size ((set_map (valueToNominate c) X ∖ {[ [] ]}) ∖ X : gset Value) <=
    size (set_map (D := gset Value) (valueToNominate c) X))%nat by (apply subseteq_size; set_solver).
  unfold set_map in *. lia.
Qed.

(** The values a slot has heard of. *)
Definition nominatedValues (m : gmap NodeID SCPEnvelope) : gset Value :=
  list_to_set (map_to_list m ≫= fun p => applyAll (nominate_of (statement p.2))).

(** Those a call brings. *)
Definition opValues (op : SlotOp) : gset Value :=
  match op with
  | OpProcessEnvelope e => list_to_set (applyAll (nominate_of (statement e)))
  | OpNominate v _ _ => {[v]}
  | _ => ∅
  end.

Definition heardValues (op : SlotOp) (s : SlotState) : gset Value :=
  votesOf s ∪ nominatedValues (mLatestNominations (nominationProtocol s)) ∪ opValues op.

(** A run that was cut short. *)
Definition cutShort {W A} (o : outcome W A) : bool :=
  match o with Exn OutOfFuel _ => true | _ => false end.

(** C18. Every call of a slot ends: the call returns, throws one of the code's own
    exceptions or aborts, and neither the recursion through self-processed
    statements nor the loop that follows v-blocking sets goes on for ever.  The
    recursion is at most 50 calls deep for the ballots and four times the number of
    values heard of for the nominations before; the loop runs at most three times
    per node known, and a few more.  The driver keeps its promise that what
    [extractValidValue] gives is valid. *)
Theorem every_call_ends fuel c op s : reachable s -> extractsValid c ->
  50 + 4 * Z.of_nat (size (heardValues op s)) < Z.of_nat fuel ->
  (3 * known c s + 5 < bumpFuel c)%nat ->
  cutShort (runOp fuel c op s) = false.
Proof.
  intros Hs%reachable_inv Hd Hf Hb.
  set (U := variations c (heardValues op s)).
  pose proof (variations_closed c (heardValues op s) Hd) as Hcl. fold U in Hcl.
  pose proof (variations_size c (heardValues op s)) as Hsz. fold U in Hsz.
  assert (heardValues op s ⊆ U) as HX by (unfold U, variations; apply union_subseteq_l).
  assert (votesOf s ⊆ U) as Hv by (unfold heardValues in HX; set_solver).
  assert (fuelsEnough fuel c s) as Hfe by (split; [unfold MAX_ADVANCE_SLOT_RECURSION; lia | done]).
  cut (wp terminates (runOp fuel c op) (fun _ _ => True) s).
  { unfold wp, terminates. destruct (runOp fuel c op s) as [|[]]; naive_solver. }
  destruct op as [e| |v force|v prev timedout| |]; simpl.
  - apply wp_bind, (wp_mono _ _ (fun _ _ => True)); [|done].
    destruct (pledges (statement e)) as [| | |nom] eqn:Ep;
      try (by eapply wp_mono; [apply wp_slot_any; [done|unfold isNomination; by rewrite Ep|done]|]).
    eapply wp_mono; [apply (slot_nominationReturns c U Hcl fuel); [done|done| |]|done].
    + exists nom. split; [done|]. intros v Hin. apply HX. unfold heardValues, opValues, nominate_of.
      rewrite Ep. apply elem_of_union. right. by apply elem_of_list_to_set.
    + split; [|done]. pose proof (roomLeft_max U s). unfold MAX_ADVANCE_SLOT_RECURSION. lia.
  - apply wp_bind. eapply wp_mono; [by apply wp_slot_abandonBallot | done].
  - apply wp_bind. eapply wp_mono; [by apply wp_slot_bumpState | done].
  - apply wp_bind, (wp_mono _ _ (fun _ _ => True)); [|done]. apply (wp_slot_nominate c U Hcl); try done.
    + apply HX. unfold heardValues, opValues. set_solver.
    + intros i x y Hx Hy. apply HX. unfold heardValues, nominatedValues.
      apply elem_of_union. left. apply elem_of_union. right. apply elem_of_list_to_set, list_elem_of_bind.
      exists (i, x). split; [done | by apply elem_of_map_to_list].
    + unfold MAX_ADVANCE_SLOT_RECURSION. lia.
  - done.
  - by apply wp_slot_ballotTimer.
Qed.

Lemma every_call_ends_witness :
  cutShort (runOp 60 (exampleCtx false) (OpNominate [9%N] [1%N] false)
    (after false exampleVotes)) = false.
Proof.
  apply every_call_ends.
  - apply after_reachable. vm_compute. reflexivity.
  - intros v Hv. destruct Hv. reflexivity.
  - vm_compute. reflexivity.
  - apply Nat.ltb_lt. vm_compute. reflexivity.
Defined.
