(* ===== verification/EnvelopeTheorems.v ===== *)
(** * What a slot does with a single envelope

    Rejected envelopes change nothing, replayed ones are rejected, and the state of
    the ballot protocol survives a crash through the node's own last envelope. *)

From Stdlib Require Import ZArith Lia String.
From stdpp Require Import base tactics gmap option list.
From S2P Require Import Prelude ScpTypes LocalNode LocalNodeFacts SlotState Ballot Nomination.
From S2P Require Import Slot BallotFacts SlotInv BallotSteps NominationSteps.
From S2P Require Import SlotTheorems.

Open Scope Z_scope.

(** ** Rejected envelopes *)

Section rejected.
Context (c : Ctx) (sp : SCPEnvelope -> bool -> M SlotState EnvelopeState).

Lemma bp_invalid_unchanged e self s s' :
  bp_processEnvelope c sp e self s = Ret INVALID s' -> s' = s.
Proof.
  unfold bp_processEnvelope. intros (? & _ & H)%readonly_bind_inv; [|auto with scp].
  apply readonly_bind_inv in H as (sane & _ & H); [|auto with scp].
  destruct (negb sane); [by injection H|].
  apply readonly_bind_inv in H as (newer & _ & H); [|auto with scp].
  destruct (negb newer); [by injection H|].
  destruct (validateValues c (statement e)); [by injection H| |];
    (apply readonly_bind_inv in H as (b & _ & H); [|auto with scp]; destruct (mPhase b)).
  all: try (apply readonly_bind_inv in H as (com & _ & H); [|auto with scp];
    destruct (decide _); [|by injection H]; apply bind_inv in H as (? & ? & _ & H); discriminate).
  all: repeat (apply bind_inv in H as (? & ? & _ & H)); discriminate.
Qed.

Lemma np_invalid_unchanged e s s' : np_processEnvelope c sp e s = Ret INVALID s' -> s' = s.
Proof.
  unfold np_processEnvelope. intros (newer & _ & H)%readonly_bind_inv; [|apply readonly_np_isNewerStatement].
  destruct (negb newer); [by injection H|].
  apply readonly_bind_inv in H as (sane & _ & H); [|apply readonly_isSane].
  destruct (negb sane); [by injection H|].
  apply bind_inv in H as (? & ? & _ & H). apply bind_inv in H as (n & ? & _ & H).
  destruct (negb (mNominationStarted n)); [discriminate|].
  repeat (apply bind_inv in H as (? & ? & _ & H)); discriminate.
Qed.

End rejected.

(** An envelope that the slot rejects leaves no trace: when processing returns
    [INVALID], the slot is exactly as before, whatever made it invalid (a quorum
    set that is not sane, a malformed statement, one that is not newer, an invalid
    value, or a value other than the externalized one). *)
Theorem invalid_envelope_changes_nothing fuel c e self s s' :
  slot_processEnvelope fuel c e self s = Ret INVALID s' -> s' = s.
Proof.
  destruct fuel as [|fuel]; simpl; [done|].
  intros (? & _ & H)%readonly_bind_inv; [|auto with scp].
  destruct (pledges (statement e)).
  1,2,3: by eapply bp_invalid_unchanged. by eapply np_invalid_unchanged.
Qed.

Lemma invalid_envelope_changes_nothing_witness :
  exists s', slot_processEnvelope 60 (exampleCtx false)
      (confirmFrom 3 (mkBallot 8 [5%N]) 8 8 8) false (after false exampleExternalize) = Ret INVALID s' /\
    s' = after false exampleExternalize.
Proof.
  eexists. split; [vm_compute; reflexivity|].
  apply (invalid_envelope_changes_nothing 60 (exampleCtx false)
    (confirmFrom 3 (mkBallot 8 [5%N]) 8 8 8) false (after false exampleExternalize)).
  vm_compute. reflexivity.
Defined.

(** The envelope is not newer than what is stored of its node. *)
Definition stale (s : SlotState) (e : SCPEnvelope) : Prop :=
  let n := st_nodeID (statement e) in
  match pledges (statement e) with
  | NOMINATE nom => exists old, mLatestNominations (nominationProtocol s) !! n = Some old /\
      np_isNewerStatement_nom (nominate_of (statement old)) nom = false
  | _ => exists old, mLatestEnvelopes (ballotProtocol s) !! n = Some old /\
      isNewerStatement_st (statement old) (statement e) = false
  end.

Lemma slot_assert_ok c i s : i = mSlotIndex c ->
  dbgAssert c (mret (i =? mSlotIndex c)) s = Ret () s.
Proof. intros ->. unfold dbgAssert. rewrite Z.eqb_refl. by destruct (NDEBUG c). Qed.

Lemma bp_stale c sp e self s q old : (forall n, pledges (statement e) <> NOMINATE n) ->
  mLatestEnvelopes (ballotProtocol s) !! st_nodeID (statement e) = Some old ->
  isNewerStatement_st (statement old) (statement e) = false ->
  st_slotIndex (statement e) = mSlotIndex c -> getQuorumSetFromStatement c (statement e) = Some q ->
  bp_processEnvelope c sp e self s = Ret INVALID s.
Proof.
  intros Hn Ho Hold Hslot Hq.
  assert (dbgAssert c (mret (st_slotIndex (statement e) =? mSlotIndex c)) s = Ret () s) as Hdbg
    by (by apply slot_assert_ok).
  assert (exists b, isStatementSane c (statement e) self s = Ret b s) as [b Hsane].
  { unfold isStatementSane. rewrite Hq. unfold deref, mbind, M_bind, mret, M_ret.
    destruct (negb _); [eauto|]. destruct (pledges (statement e)) as [| | |n]; eauto.
    by destruct (Hn n). }
  assert (isNewerStatement (st_nodeID (statement e)) (statement e) s = Ret false s) as Hnewer.
  { unfold isNewerStatement, getB, mbind, M_bind, mret, M_ret. by rewrite Ho, Hold. }
  unfold bp_processEnvelope, mbind, M_bind. rewrite Hdbg, Hsane. destruct b; [|done].
  cbv beta iota delta [negb]. by rewrite Hnewer.
Qed.

(** A replayed or outdated envelope is rejected: for an envelope of this slot
    whose quorum set is known, when it is not newer than the statement of the same
    kind the slot has of its node, processing returns [INVALID] (it neither throws
    nor aborts) and the slot is as before. *)
Theorem stale_envelope_rejected fuel c e self s q : stale s e ->
  st_slotIndex (statement e) = mSlotIndex c -> getQuorumSetFromStatement c (statement e) = Some q ->
  slot_processEnvelope (S fuel) c e self s = Ret INVALID s.
Proof.
  intros Hst Hslot Hq. cbn [slot_processEnvelope]. unfold mbind at 1, M_bind at 1.
  rewrite slot_assert_ok by done.
  unfold stale in Hst. destruct (pledges (statement e)) as [| | |nom] eqn:Ep.
  1,2,3: destruct Hst as (old & Ho & Hold); eapply bp_stale; try done; congruence.
  destruct Hst as (old & Ho & Hold).
  unfold np_processEnvelope, np_isNewerStatement, getN, mbind, M_bind, mret, M_ret.
  rewrite Ho. unfold nominate_of at 2. rewrite Ep, Hold. done.
Qed.

Lemma stale_envelope_rejected_witness :
  slot_processEnvelope 1 (exampleCtx false)
    (prepareFrom 2 (mkBallot 1 [9%N]) (Some (mkBallot 1 [9%N])) None 1 1) false
    (after false exampleVotes) = Ret INVALID (after false exampleVotes).
Proof.
  apply (stale_envelope_rejected 0 (exampleCtx false)
    (prepareFrom 2 (mkBallot 1 [9%N]) (Some (mkBallot 1 [9%N])) None 1 1) false
    (after false exampleVotes) exampleQSet).
  - exists (prepareFrom 2 (mkBallot 1 [9%N]) (Some (mkBallot 1 [9%N])) None 1 1).
    split; vm_compute; reflexivity.
  - reflexivity.
  - reflexivity.
Defined.

(** ** Restoring after a crash *)

(** The ballots that a statement only gives the counter of have the value of the
    current ballot. *)
Definition oneValue (b : BallotProtocol) : Prop :=
  exists cur, mCurrentBallot b = Some cur /\
    (forall h, mHighBallot b = Some h -> value h = value cur /\ counter h <> 0) /\
    (forall com, mCommit b = Some com -> value com = value cur) /\
    (mPhase b = SCP_PHASE_CONFIRM -> forall p, mPrepared b = Some p -> value p = value cur).

Lemma createStatement_prepare c s st : createStatement c SCP_PHASE_PREPARE s = Ret st s ->
  let b := ballotProtocol s in
  pledges st = PREPARE (mkPrepare (mQSetHash (localNode c)) (default emptyBallot (mCurrentBallot b))
    (mPrepared b) (mPreparedPrime b) (counter_or_0 (mCommit b)) (counter_or_0 (mHighBallot b))).
Proof.
  intros (? & _ & H)%readonly_bind_inv; [|auto with scp].
  apply readonly_bind_inv in H as (b & [= <-] & H); [|auto with scp]. by injection H as <-.
Qed.

Lemma createStatement_confirm c s st : createStatement c SCP_PHASE_CONFIRM s = Ret st s ->
  let b := ballotProtocol s in
  exists cur p com h, mCurrentBallot b = Some cur /\ mPrepared b = Some p /\ mCommit b = Some com /\
    mHighBallot b = Some h /\
    pledges st = CONFIRM (mkConfirm cur (counter p) (counter com) (counter h) (mQSetHash (localNode c))).
Proof.
  intros (? & _ & H)%readonly_bind_inv; [|auto with scp].
  apply readonly_bind_inv in H as (b & [= <-] & H); [|auto with scp].
  apply readonly_bind_inv in H as (? & _ & H); [|auto with scp].
  apply readonly_bind_inv in H as (cur & [Ecur _]%deref_inv & H); [|auto with scp].
  apply readonly_bind_inv in H as (p & [Ep _]%deref_inv & H); [|auto with scp].
  apply readonly_bind_inv in H as (com & [Ecom _]%deref_inv & H); [|auto with scp].
  apply readonly_bind_inv in H as (h & [Eh _]%deref_inv & H); [|auto with scp].
  injection H as <-. cbv zeta. eauto 10.
Qed.

Lemma createStatement_externalize c s st : createStatement c SCP_PHASE_EXTERNALIZE s = Ret st s ->
  let b := ballotProtocol s in
  exists com h, mCommit b = Some com /\ mHighBallot b = Some h /\
    pledges st = EXTERNALIZE (mkExternalize com (counter h) (mQSetHash (localNode c))).
Proof.
  intros (? & _ & H)%readonly_bind_inv; [|auto with scp].
  apply readonly_bind_inv in H as (b & [= <-] & H); [|auto with scp].
  apply readonly_bind_inv in H as (? & _ & H); [|auto with scp].
  apply readonly_bind_inv in H as (com & [Ecom _]%deref_inv & H); [|auto with scp].
  apply readonly_bind_inv in H as (h & [Eh _]%deref_inv & H); [|auto with scp].
  injection H as <-. cbv zeta. eauto 10.
Qed.

(** The ballots of a slot restored from a statement. *)
Definition restoredBallots (st : SCPStatement) : option (SCPPhase * option SCPBallot *
    option SCPBallot * option SCPBallot * option SCPBallot * option SCPBallot) :=
  match pledges st with
  | PREPARE p =>
      let v := value (prep_ballot p) in
      Some (SCP_PHASE_PREPARE, Some (prep_ballot p), prep_prepared p, prep_preparedPrime p,
            ballot_if (prep_nH p) v None, ballot_if (prep_nC p) v None)
  | CONFIRM p =>
      let v := value (con_ballot p) in
      Some (SCP_PHASE_CONFIRM, Some (con_ballot p), Some (mkBallot (con_nPrepared p) v), None,
            Some (mkBallot (con_nH p) v), Some (mkBallot (con_nCommit p) v))
  | EXTERNALIZE p =>
      let v := value (ext_commit p) in
      Some (SCP_PHASE_EXTERNALIZE, Some (mkBallot UINT32_MAX v), Some (mkBallot UINT32_MAX v), None,
            Some (mkBallot (ext_nH p) v), Some (ext_commit p))
  | NOMINATE _ => None
  end.

Definition ballots (b : BallotProtocol) :=
  (mPhase b, mCurrentBallot b, mPrepared b, mPreparedPrime b, mHighBallot b, mCommit b).

(** The first ballot of a slot. *)
Lemma bumpToBallot_first c bal s : mPhase (ballotProtocol s) = SCP_PHASE_PREPARE ->
  mCurrentBallot (ballotProtocol s) = None ->
  bumpToBallot c bal true s = Ret () (set_events (events s ++
      [setupTimer BALLOT_PROTOCOL_TIMER (computeTimeout (counter bal))])
    (withB (fun b => set_mHeardFromQuorum false (set_mCurrentBallot (Some bal) b)) s)).
Proof.
  intros HP Hcur. unfold bumpToBallot. erewrite run_bind by reflexivity. rewrite HP, Hcur.
  unfold dbgAssert. by destruct (NDEBUG c).
Qed.

(** Restoring a new slot, up to its ballot. *)
Definition restoring (e : SCPEnvelope) (bal : SCPBallot) (c : Ctx) : SlotState :=
  mkSlotState (mkBallotProtocol false SCP_PHASE_PREPARE (Some bal) None None None None
      {[st_nodeID (statement e) := e]} 0 (Some (0%nat, e)) (Some (0%nat, e)))
    initNominationProtocol [(statement e, mIsValidator (localNode c))] (mIsValidator (localNode c)) 1
    [setupTimer BALLOT_PROTOCOL_TIMER (computeTimeout (counter bal))].

Lemma restore_start c e bal (k : M SlotState ()) :
  (recordEnvelope e;; storeLastEnvelope e;;
   modifyB (fun b => set_mLastEnvelopeEmit (mLastEnvelope b) b);; bumpToBallot c bal true;; k)
    (initSlot c) = k (restoring e bal c).
Proof.
  erewrite run_bind by reflexivity. erewrite run_bind by reflexivity.
  erewrite run_bind by reflexivity. erewrite run_bind by (by apply bumpToBallot_first). done.
Qed.

(** Restoring a new slot from an own ballot envelope always succeeds. *)
Lemma restore_run c st r : restoredBallots st = Some r ->
  let e := createEnvelope c st in
  exists s', slot_setStateFromEnvelope c e (initSlot c) = Ret () s' /\ ballots (ballotProtocol s') = r /\
    slot_getLatestMessagesSend s' = (if mIsValidator (localNode c) then [e] else []).
Proof.
  intros Hr e. unfold slot_setStateFromEnvelope.
  change (st_nodeID (statement e)) with (mNodeID (localNode c)).
  change (st_slotIndex (statement e)) with (mSlotIndex c).
  rewrite decide_True by done. rewrite Z.eqb_refl.
  unfold restoredBallots in Hr. unfold bp_setStateFromEnvelope.
  change (pledges (statement e)) with (pledges st).
  destruct (pledges st) as [p|p|p|n]; try discriminate; injection Hr as <-;
    erewrite run_bind by reflexivity; erewrite run_bind by reflexivity;
    rewrite restore_start; (eexists; split; [reflexivity|]); split; try done.
  unfold ballots. simpl. by destruct (prep_prepared p), (prep_preparedPrime p).
Qed.

Lemma ballot_if_counter x v :
  (forall y, x = Some y -> value y = v /\ counter y <> 0) -> ballot_if (counter_or_0 x) v None = x.
Proof.
  intros Hx. destruct x as [[n w]|]; [|done]. destruct (Hx _ eq_refl) as [<- Hn].
  unfold ballot_if. simpl in *. by destruct (Z.eqb_spec n 0).
Qed.

(** The own statement of a state whose ballots have one value says what they are. *)
Lemma createStatement_ballots c s st : SlotInv s -> oneValue (ballotProtocol s) ->
  createStatement c (mPhase (ballotProtocol s)) s = Ret st s ->
  exists cur p p', restoredBallots st = Some (mPhase (ballotProtocol s), cur, p, p',
      mHighBallot (ballotProtocol s), mCommit (ballotProtocol s)) /\
    (mPhase (ballotProtocol s) <> SCP_PHASE_EXTERNALIZE ->
       cur = mCurrentBallot (ballotProtocol s) /\ p = mPrepared (ballotProtocol s) /\
       p' = mPreparedPrime (ballotProtocol s)).
Proof.
  intros Hs (cur & Ecur & Hh & Hc & Hp) Hst. destruct (inv_ballot _ Hs) as [_ _ I3 I4 _ _].
  unfold restoredBallots. destruct (mPhase (ballotProtocol s)) eqn:EP.
  - rewrite (createStatement_prepare _ _ _ Hst), Ecur. simpl.
    rewrite !ballot_if_counter.
    + do 3 eexists. split; done.
    + intros x Hx. split; [by apply Hc | by apply (I3 x)].
    + done.
  - apply createStatement_confirm in Hst as (cur' & p & com & h & E1 & E2 & E3 & E4 & ->).
    destruct (Hh _ E4) as [Hv _]. pose proof (Hc _ E3) as Hv'. pose proof (Hp eq_refl _ E2) as Hv''.
    destruct (I4 ltac:(done)) as [Ep' _]. simplify_eq. do 3 eexists. rewrite E2, E3, E4, Ep'.
    destruct p, h, com; simpl in *; subst. split; done.
  - apply createStatement_externalize in Hst as (com & h & E1 & E2 & ->).
    destruct (Hh _ E2) as [Hv _]. pose proof (Hc _ E1) as Hv'. do 3 eexists. rewrite E1, E2.
    destruct h, com; simpl in *; subst. split; [reflexivity | by intros []].
Qed.

(** A slot survives a crash: from any reachable state whose ballots have one
    value, the statement the node would emit restores, on a new slot, the phase,
    [h] and [c], and unless the slot is externalized also [b], [p] and [p'];
    the restored slot has that envelope as its last message. *)
Theorem restore_roundtrip c s st : reachable s -> oneValue (ballotProtocol s) ->
  createStatement c (mPhase (ballotProtocol s)) s = Ret st s ->
  let b := ballotProtocol s in
  exists s', slot_setStateFromEnvelope c (createEnvelope c st) (initSlot c) = Ret () s' /\
    let b' := ballotProtocol s' in
    mPhase b' = mPhase b /\ mHighBallot b' = mHighBallot b /\ mCommit b' = mCommit b /\
    (mPhase b <> SCP_PHASE_EXTERNALIZE ->
       mCurrentBallot b' = mCurrentBallot b /\ mPrepared b' = mPrepared b /\
       mPreparedPrime b' = mPreparedPrime b) /\
    slot_getLatestMessagesSend s' =
      (if mIsValidator (localNode c) then [createEnvelope c st] else []).
Proof.
  intros Hs%reachable_inv Hv Hst.
  destruct (createStatement_ballots c s st Hs Hv Hst) as (cur & p & p' & Hr & Hsame).
  destruct (restore_run c st _ Hr) as (s' & Hrun & [= E1 E2 E3 E4 E5 E6] & Hlast).
  exists s'. cbv zeta. split_and!; try done. intros HP. destruct (Hsame HP) as (-> & -> & ->). done.
Qed.

Lemma restore_roundtrip_witness :
  exists st s', createStatement (exampleCtx false) SCP_PHASE_CONFIRM (after false exampleVotes) =
      Ret st (after false exampleVotes) /\
    slot_setStateFromEnvelope (exampleCtx false) (createEnvelope (exampleCtx false) st)
      (initSlot (exampleCtx false)) = Ret () s' /\
    mCommit (ballotProtocol s') = Some (mkBallot 1 [9%N]).
Proof.
  set (st := mkStatement 0 0 (CONFIRM (mkConfirm (mkBallot 1 [9%N]) 1 1 1 7))).
  destruct (restore_roundtrip (exampleCtx false) (after false exampleVotes) st)
    as (s' & Hrun & _ & _ & Hc & _).
  - apply after_reachable. vm_compute. reflexivity.
  - exists (mkBallot 1 [9%N]). split_and!.
    + vm_compute. reflexivity.
    + intros h Hh. vm_compute in Hh. injection Hh as <-. done.
    + intros h Hh. vm_compute in Hh. injection Hh as <-. done.
    + intros _ h Hh. vm_compute in Hh. injection Hh as <-. done.
  - vm_compute. reflexivity.
  - exists st, s'. split_and!; [vm_compute; reflexivity | exact Hrun |].
    rewrite Hc. vm_compute. reflexivity.
Defined.
