(* ===== verification/Scenarios.v ===== *)
(** * Runs in which the ballot protocol does not do what it means to

    Concrete runs of the definitions, each of which shows a behaviour that the
    code's own assertions or comments exclude.  [ndebug] is whether [dbgAssert] is
    compiled away. *)

From Stdlib Require Import ZArith Lia String.
From stdpp Require Import base tactics gmap option list.
From S2P Require Import Prelude ScpTypes LocalNode LocalNodeFacts SlotState Ballot Nomination.
From S2P Require Import Slot BallotFacts SlotInv SlotTheorems EnvelopeTheorems.

Open Scope Z_scope.

Definition bal (n : Z) (v : N) : SCPBallot := mkBallot n [v].

(** A node at (1, 1) sees two others vote to prepare (1, 20), then (1, 30), and
    then one of them say that both are prepared. *)
Definition lowerCommit : list SlotOp :=
  [OpBumpState [1%N] false;
   OpProcessEnvelope (prepareFrom 2 (bal 1 20) None None 0 0);
   OpProcessEnvelope (prepareFrom 3 (bal 1 20) None None 0 0);
   OpProcessEnvelope (prepareFrom 2 (bal 1 30) None None 0 0);
   OpProcessEnvelope (prepareFrom 3 (bal 1 30) None None 0 0);
   OpProcessEnvelope (prepareFrom 2 (bal 1 30) (Some (bal 1 30)) (Some (bal 1 20)) 0 0)].

(** [attemptPreparedConfirmed] takes for [c] the lowest confirmed candidate that is
    not below [b], compatible with [h] or not: a release build ends with [c] and [h]
    of different values, a debug build aborts in [checkInvariants]. *)
Theorem commit_incompatible_with_high :
  (mHighBallot (ballotProtocol (after true lowerCommit)) = Some (bal 1 30) /\
   mCommit (ballotProtocol (after true lowerCommit)) = Some (bal 1 20)) /\
  runOps 60 (exampleCtx false) lowerCommit (initSlot (exampleCtx false)) = None.
Proof. vm_compute. auto. Qed.

(** Two [CONFIRM] statements with all their counters 0. *)
Definition zeroConfirm : list SlotOp :=
  [OpProcessEnvelope (confirmFrom 2 (bal 1 20) 0 0 0);
   OpProcessEnvelope (confirmFrom 3 (bal 1 20) 0 0 0)].

(** [isStatementSane] takes a [CONFIRM] statement whose [nPrepared] is 0: a node
    that follows such statements accepts the ballot of counter 0 as prepared, confirms
    it and makes it [h] (release build), or aborts in [checkInvariants], which
    requires the current ballot to have a counter (debug build). *)
Theorem zero_counter_confirmed :
  mHighBallot (ballotProtocol (after true zeroConfirm)) = Some (bal 0 20) /\
  runOps 60 (exampleCtx false) zeroConfirm (initSlot (exampleCtx false)) = None.
Proof. vm_compute. auto. Qed.

(** A node whose v-blocking sets are at the highest counter follows them there. *)
Definition highestCounter : list SlotOp :=
  [OpProcessEnvelope (externalizeFrom 2 [9%N]);
   OpProcessEnvelope (prepareFrom 3 (bal UINT32_MAX 8) None None 0 0);
   OpBumpState [1%N] false].

(** At the highest counter the next bump wraps around to 0: a release build keeps
    its ballot for ever, a debug build aborts when the ballot timer fires. *)
Theorem bump_wraps_around :
  mCurrentBallot (ballotProtocol (after true highestCounter)) = Some (bal UINT32_MAX 1) /\
  mCurrentBallot (ballotProtocol (after true (highestCounter ++ [OpAbandonBallot]))) =
    Some (bal UINT32_MAX 1) /\
  runOps 60 (exampleCtx false) (highestCounter ++ [OpAbandonBallot]) (initSlot (exampleCtx false)) = None.
Proof. vm_compute. auto. Qed.

(** A driver for which the value 1 is invalid and the value 2 cannot be told. *)
Definition undecidedCtx : Ctx :=
  mkCtx (mkDriver (fun _ => Some exampleQSet)
      (fun _ v => if decide (v = [1%N]) then kInvalidValue else kMaybeValidValue) (fun _ v => v)
      (fun _ _ => []) (fun _ => []) (fun _ => true) (fun _ _ _ _ n => Z.of_N n) (fun _ _ _ _ => 1))
    (mkLocalNode 1 true exampleQSet 7) 5 false 20.

(** [validateValues] keeps the verdict on the last value that is not fully valid: a
    statement with an invalid value and a higher one that may be valid passes. *)
Theorem invalid_value_passes :
  validateValue (driver undecidedCtx) 5 [1%N] = kInvalidValue /\
  validateValues undecidedCtx
    (statement (prepareFrom 2 (bal 1 1) (Some (bal 1 2)) None 0 0)) = kMaybeValidValue.
Proof. vm_compute. auto. Qed.

(** A node moves on to the value 40 before it confirms (1, 20) prepared. *)
Definition otherHigh : list SlotOp :=
  [OpBumpState [1%N] false;
   OpProcessEnvelope (prepareFrom 2 (bal 1 20) None None 0 0);
   OpProcessEnvelope (prepareFrom 3 (bal 1 20) None None 0 0);
   OpBumpState [40%N] true;
   OpProcessEnvelope (prepareFrom 2 (bal 1 20) (Some (bal 1 20)) None 0 0)].

(** In the PREPARE phase [h] may have another value than [b], and a statement has
    only its counter: restored from its own statement, the node takes (1, 40) for
    confirmed prepared where it had (1, 20). *)
Theorem restored_high_differs :
  let s := after false otherHigh in
  mHighBallot (ballotProtocol s) = Some (bal 1 20) /\
  match createStatement (exampleCtx false) (mPhase (ballotProtocol s)) s with
  | Ret st _ =>
      match slot_setStateFromEnvelope (exampleCtx false) (createEnvelope (exampleCtx false) st)
              (initSlot (exampleCtx false)) with
      | Ret _ s' => mHighBallot (ballotProtocol s') = Some (bal 1 40)
      | Exn _ _ => False
      end
  | Exn _ _ => False
  end.
Proof. vm_compute. auto. Qed.
