(* ===== verification/ScpTheorems.v ===== *)
(** * What holds of the SCP object

    Its slots are independent of one another, each of them runs as [SlotTheorems.v]
    says, and purging, recording and restoring act as documented in [SCP.h]. *)

From Stdlib Require Import ZArith Lia String.
From stdpp Require Import sorting.
From stdpp Require Import base tactics gmap option list relations.
From S2P Require Import Prelude ScpTypes LocalNode LocalNodeFacts SlotState Ballot Nomination.
From S2P Require Import Slot Scp BallotFacts SlotInv SlotTheorems.

Open Scope Z_scope.

Section scp_theorems.
Context (d : SCPDriver) (ndebug : bool) (loopFuel fuel : nat) (qSetHash : SCPQuorumSet -> Hash).

(** The calls of [SCP] that change its state, and the timers it set up. *)
Inductive ScpOp :=
| ScpReceive (e : SCPEnvelope)
| ScpAbandon (slotIndex : Z)
| ScpNominate (slotIndex : Z) (v previousValue : Value)
| ScpStopNomination (slotIndex : Z)
| ScpUpdateQuorumSet (q : SCPQuorumSet)
| ScpPurge (maxSlotIndex : Z)
| ScpBallotTimer (slotIndex : Z)
| ScpNominationTimer (slotIndex : Z) (v previousValue : Value).

Definition runScpOp (op : ScpOp) : M SCP () :=
  match op with
  | ScpReceive e => receiveEnvelope d ndebug loopFuel fuel e;; mret ()
  | ScpAbandon i => abandonBallot d ndebug loopFuel fuel i;; mret ()
  | ScpNominate i v prev => nominate d ndebug loopFuel fuel i v prev;; mret ()
  | ScpStopNomination i => stopNomination d ndebug loopFuel i
  | ScpUpdateQuorumSet q => updateLocalQuorumSet qSetHash q
  | ScpPurge i => purgeSlots i
  | ScpBallotTimer i => ballotTimerExpired d ndebug loopFuel fuel i
  | ScpNominationTimer i v prev => nominationTimerExpired d ndebug loopFuel fuel i v prev;; mret ()
  end.

(** The slot a call is about. *)
Definition opSlot (op : ScpOp) : option Z :=
  match op with
  | ScpReceive e => Some (st_slotIndex (statement e))
  | ScpAbandon i | ScpNominate i _ _ | ScpStopNomination i | ScpBallotTimer i
  | ScpNominationTimer i _ _ => Some i
  | ScpUpdateQuorumSet _ | ScpPurge _ => None
  end.

(** ** Purging *)

Lemma purge_fold maxSlotIndex (l : list (Z * SlotState)) (m : gmap Z SlotState) i :
  foldl (fun m e => if e.1 <? maxSlotIndex then delete e.1 m else m) m l !! i =
  if bool_decide (i ∈ l.*1) && (i <? maxSlotIndex) then None else m !! i.
Proof.
  revert m. induction l as [|[k v] l IH]; intros m; simpl; [done|].
  rewrite IH. clear IH. simpl.
  destruct (decide (i ∈ l.*1)) as [Hin|Hin].
  - rewrite !bool_decide_true by (done || by right). destruct (Z.ltb_spec i maxSlotIndex); [done|].
    simpl. destruct (Z.ltb_spec k maxSlotIndex); [|done]. rewrite lookup_delete_ne by lia. done.
  - rewrite bool_decide_false by done. destruct (decide (i = k)) as [->|Hne].
    + rewrite bool_decide_true by left. simpl. destruct (k <? maxSlotIndex); [apply lookup_delete_eq | done].
    + rewrite bool_decide_false by (rewrite elem_of_cons; naive_solver). simpl.
      destruct (k <? maxSlotIndex); [by rewrite lookup_delete_ne | done].
Qed.

Lemma purgeSlots_lookup maxSlotIndex s i : exists s', purgeSlots maxSlotIndex s = Ret () s' /\
  mLocalNode s' = mLocalNode s /\
  mKnownSlots s' !! i = if i <? maxSlotIndex then None else mKnownSlots s !! i.
Proof.
  eexists. split; [reflexivity|]. split; [done|]. simpl. rewrite purge_fold.
  destruct (mKnownSlots s !! i) as [sl|] eqn:E.
  - rewrite bool_decide_true; [done|]. apply list_elem_of_fmap. exists (i, sl).
    split; [done|]. by apply elem_of_map_asc.
  - by destruct (_ && _), (_ <? _).
Qed.

(** ** One slot at a time *)

(** The known slots a call on slot [i] can change. *)
Definition onlySlot (i : Z) (s s' : SCP) : Prop :=
  mLocalNode s' = mLocalNode s /\ forall j, j <> i -> mKnownSlots s' !! j = mKnownSlots s !! j.

Lemma onlySlot_trans i s1 s2 s3 : onlySlot i s1 s2 -> onlySlot i s2 s3 -> onlySlot i s1 s3.
Proof.
  intros [A1 A2] [B1 B2]. split; [congruence|]. intros j Hj. by rewrite B2, A2.
Qed.

Definition stays {A} (i : Z) (m : M SCP A) : Prop :=
  forall s, wp (fun _ s' => onlySlot i s s') m (fun _ s' => onlySlot i s s') s.

Lemma stays_bind {A B} i (m : M SCP A) (k : A -> M SCP B) :
  stays i m -> (forall a, stays i (k a)) -> stays i (m ≫= k).
Proof.
  intros Hm Hk s. apply wp_bind. eapply wp_mono; [apply Hm|]. intros a s1 H1.
  eapply wp_conseq; [apply Hk|..]; intros ? ? H2; exact (onlySlot_trans _ _ _ _ H1 H2).
Qed.

Lemma stays_ret {A} i (a : A) : stays i (mret a).
Proof. intros s. by split. Qed.

Lemma stays_getSlot i create : stays i (getSlot d ndebug loopFuel i create).
Proof.
  intros s. unfold wp, getSlot. destruct (mKnownSlots s !! i); [by split|].
  destruct create; [|by split]. split; [done|]. intros j Hj. simpl. by rewrite lookup_insert_ne.
Qed.

Lemma stays_onSlot {A} i (f : Ctx -> M SlotState A) : stays i (onSlot d ndebug loopFuel i f).
Proof.
  intros s. unfold wp, onSlot. destruct (mKnownSlots s !! i) as [sl|]; [|by split].
  destruct (f _ sl); (split; [done|]); intros j Hj; simpl; by rewrite lookup_insert_ne.
Qed.

Lemma stays_assertValidator i : stays i (assertValidator ndebug).
Proof. intros s. unfold wp, assertValidator, mbind, M_bind, get. by destruct (_ || _). Qed.

Lemma runScpOp_stays op i : opSlot op = Some i -> stays i (runScpOp op).
Proof.
  destruct op; simpl; intros [= <-]; unfold receiveEnvelope, abandonBallot, nominate, stopNomination,
    ballotTimerExpired, nominationTimerExpired;
    repeat (first [apply stays_ret | apply stays_getSlot | apply stays_onSlot | apply stays_assertValidator
      | apply stays_bind; [|intros ?]
      | match goal with |- stays _ (if ?b then _ else _) => destruct b end]).
Qed.

(** ** The slots of a running SCP object *)

Lemma survivor_unit {W A} (m : M W A) w : survivor ((m;; mret ()) w) = survivor (m w).
Proof. unfold mbind, M_bind. by destruct (m w). Qed.

(** Every known slot is in a state that a run of a slot can reach. *)
Definition slotsReachable (s : SCP) : Prop :=
  forall i sl, mKnownSlots s !! i = Some sl -> reachable sl.

Definition alive {A} (m : M SCP A) : Prop := forall s, slotsReachable s ->
  wp (fun e s' => fatal e = true \/ slotsReachable s') m (fun _ s' => slotsReachable s') s.

Lemma alive_bind {A B} (m : M SCP A) (k : A -> M SCP B) :
  alive m -> (forall a, alive (k a)) -> alive (m ≫= k).
Proof.
  intros Hm Hk s Hs. apply wp_bind. eapply wp_mono; [by apply Hm|]. intros a s1 H1. by apply Hk.
Qed.

Lemma alive_ret {A} (a : A) : alive (mret a).
Proof. by intros s Hs. Qed.

Lemma reachable_step s s' : reachable s -> slotStep s s' -> reachable s'.
Proof. intros (s0 & H0 & Hrun) Hst. exists s0. split; [done|]. by eapply rtc_r. Qed.

Lemma slotsReachable_insert s i sl : slotsReachable s -> reachable sl ->
  slotsReachable (set_mKnownSlots (<[i := sl]> (mKnownSlots s)) s).
Proof.
  intros Hs Hsl j sl'. simpl. destruct (decide (j = i)) as [->|Hne].
  - rewrite lookup_insert_eq. by intros [= <-].
  - rewrite lookup_insert_ne by done. apply Hs.
Qed.

Lemma alive_getSlot i create : alive (getSlot d ndebug loopFuel i create).
Proof.
  intros s Hs. unfold wp, getSlot. destruct (mKnownSlots s !! i); [done|]. destruct create; [|done].
  apply slotsReachable_insert; [done|]. eexists. split; [apply started_new|]. apply rtc_refl.
Qed.

Lemma alive_onSlot {A} i (f : Ctx -> M SlotState A) op :
  (forall c sl, survivor (f c sl) = survivor (runOp fuel c op sl)) ->
  alive (onSlot d ndebug loopFuel i f).
Proof.
  intros Hf s Hs. unfold wp, onSlot. destruct (mKnownSlots s !! i) as [sl|] eqn:E; [|by left].
  specialize (Hf (slotCtx d ndebug loopFuel s i) sl).
  destruct (f _ sl) as [a sl'|e sl']; simpl in Hf.
  - apply slotsReachable_insert; [done|]. eapply reachable_step; [by eapply Hs|].
    by exists fuel, (slotCtx d ndebug loopFuel s i), op.
  - destruct (fatal e); [by left|]. right.
    apply slotsReachable_insert; [done|]. eapply reachable_step; [by eapply Hs|].
    by exists fuel, (slotCtx d ndebug loopFuel s i), op.
Qed.

Lemma alive_assertValidator : alive (assertValidator ndebug).
Proof.
  intros s Hs. unfold wp, assertValidator, mbind, M_bind, get. destruct (_ || _); [done | by left].
Qed.

Lemma runScpOp_alive op : alive (runScpOp op).
Proof.
  destruct op as [e|i|i v prev|i|q|i|i|i v prev]; simpl.
  - apply alive_bind; [|intros; apply alive_ret]. unfold receiveEnvelope.
    destruct (negb _); [apply alive_ret|]. apply alive_bind; [apply alive_getSlot|]. intros _.
    apply (alive_onSlot _ _ (OpProcessEnvelope e)). intros. simpl. by rewrite survivor_unit.
  - apply alive_bind; [|intros; apply alive_ret].
    apply alive_bind; [apply alive_assertValidator|]. intros _.
    apply alive_bind; [apply alive_getSlot|]. intros _.
    apply (alive_onSlot _ _ OpAbandonBallot). intros. simpl. by rewrite survivor_unit.
  - apply alive_bind; [|intros; apply alive_ret].
    apply alive_bind; [apply alive_assertValidator|]. intros _.
    apply alive_bind; [apply alive_getSlot|]. intros _.
    apply (alive_onSlot _ _ (OpNominate v prev false)). intros. simpl. by rewrite survivor_unit.
  - apply alive_bind; [apply alive_getSlot|]. intros [|]; [|apply alive_ret].
    by apply (alive_onSlot _ _ OpStopNomination).
  - by intros s Hs.
  - intros s Hs. destruct (purgeSlots_lookup i s 0) as (s' & Hr & _ & _). unfold wp. rewrite Hr.
    intros j sl Hj. destruct (purgeSlots_lookup i s j) as (s'' & Hr' & _ & Hj').
    assert (s'' = s') as -> by congruence. rewrite Hj' in Hj.
    destruct (j <? i); [done|]. by eapply Hs.
  - by apply (alive_onSlot _ _ OpBallotTimer).
  - apply alive_bind; [|intros; apply alive_ret].
    apply (alive_onSlot _ _ (OpNominate v prev true)). intros. simpl. by rewrite survivor_unit.
Qed.

(** One call, and runs of calls. *)
Definition scpStep (s s' : SCP) : Prop := exists op, survivor (runScpOp op s) = Some s'.

Lemma scpStep_reachable s s' : slotsReachable s -> scpStep s s' -> slotsReachable s'.
Proof.
  intros Hs [op Hop]. pose proof (runScpOp_alive op s Hs) as H. unfold wp in H.
  destruct (runScpOp op s) as [a s1|e s1]; simpl in Hop.
  - by injection Hop as <-.
  - destruct (fatal e); [done|]. injection Hop as <-. by destruct H.
Qed.

Lemma scp_run_reachable nodeID isValidator qSet s :
  rtc scpStep (makeSCP qSetHash nodeID isValidator qSet) s -> slotsReachable s.
Proof.
  intros Hrun. remember (makeSCP _ _ _ _) as s0 eqn:E0.
  assert (slotsReachable s0) as H0 by (subst; intros i sl H; done).
  clear E0. induction Hrun; [done|]. apply IHHrun. by eapply scpStep_reachable.
Qed.

(** In any run of the SCP object, through any mix of received envelopes,
    nominations, abandoned ballots, timers, quorum set updates and purges over any
    slots, every slot object tells its driver of at most one externalized value. *)
Theorem scp_externalizes_once nodeID isValidator qSet s i sl :
  rtc scpStep (makeSCP qSetHash nodeID isValidator qSet) s -> mKnownSlots s !! i = Some sl ->
  (length (externalizedValues (events sl)) <= 1)%nat.
Proof.
  intros Hrun Hi. pose proof (scp_run_reachable _ _ _ _ Hrun i sl Hi) as (s0 & [Hs0 Hsil]%started_inv & Hr).
  destruct (steps_told _ _ Hs0 Hr) as (k & -> & Hk).
  rewrite externalizedValues_app, Hsil. simpl.
  destruct Hk as [->|(_ & _ & com & _ & ->)]; simpl; lia.
Qed.

(** Slots are independent: a call about one slot, whether it returns or throws,
    leaves the local node and every other slot as they were. *)
Theorem scp_slots_independent op i s j : opSlot op = Some i -> j <> i ->
  match runScpOp op s with
  | Ret _ s' | Exn _ s' =>
      mLocalNode s' = mLocalNode s /\ mKnownSlots s' !! j = mKnownSlots s !! j
  end.
Proof.
  intros Hop Hj. pose proof (runScpOp_stays op i Hop s) as H. unfold wp in H.
  destruct (runScpOp op s) as [a s'|e s']; destruct H as [H1 H2]; auto.
Qed.

(** [purgeSlots] drops exactly the slots below its argument: the others stay as
    they were, and nothing else changes. *)
Theorem purgeSlots_exact maxSlotIndex s : exists s', purgeSlots maxSlotIndex s = Ret () s' /\
  mLocalNode s' = mLocalNode s /\
  forall i sl, mKnownSlots s' !! i = Some sl <-> maxSlotIndex <= i /\ mKnownSlots s !! i = Some sl.
Proof.
  destruct (purgeSlots_lookup maxSlotIndex s 0) as (s' & Hr & HL & _). exists s'. split_and!; try done.
  intros i sl. destruct (purgeSlots_lookup maxSlotIndex s i) as (s'' & Hr' & _ & Hi).
  assert (s'' = s') as -> by congruence. rewrite Hi.
  destruct (Z.ltb_spec i maxSlotIndex); [split; [done | lia] | naive_solver].
Qed.

(** An envelope that does not verify is ignored: [receiveEnvelope] returns
    [INVALID] and the whole object is as before (no slot is created). *)
Theorem unsigned_envelope_ignored e s : verifyEnvelope d e = false ->
  receiveEnvelope d ndebug loopFuel fuel e s = Ret INVALID s.
Proof. intros Hv. unfold receiveEnvelope. by rewrite Hv. Qed.

End scp_theorems.

(** The example network: two envelopes for slot 5 and one for slot 6. *)
Definition exampleSCP : SCP := makeSCP (fun _ => 7%N) 1 true exampleQSet.

Definition exampleScpOps : list ScpOp :=
  [ScpReceive (externalizeFrom 2 [9%N]); ScpReceive (externalizeFrom 3 [9%N]);
   ScpNominate 6 [4%N] [9%N]].

Fixpoint runScpOps (ops : list ScpOp) (s : SCP) : option SCP :=
  match ops with
  | [] => Some s
  | op :: rest => s' ← survivor (runScpOp exampleDriver false 20 60 (fun _ => 7%N) op s); runScpOps rest s'
  end.

Lemma runScpOps_run ops s s' : runScpOps ops s = Some s' ->
  rtc (scpStep exampleDriver false 20 60 (fun _ => 7%N)) s s'.
Proof.
  revert s. induction ops as [|op ops IH]; intros s; simpl; [intros [= <-]; apply rtc_refl|].
  destruct (survivor _) as [s1|] eqn:E; simpl; [|done]. intros H.
  eapply rtc_l; [|by apply IH]. by exists op.
Qed.

Lemma scp_externalizes_once_witness :
  exists s sl, rtc (scpStep exampleDriver false 20 60 (fun _ => 7%N)) exampleSCP s /\
    mKnownSlots s !! 5 = Some sl /\ externalizedValues (events sl) = [[9%N]] /\
    (length (externalizedValues (events sl)) <= 1)%nat.
Proof.
  set (s := default exampleSCP (runScpOps exampleScpOps exampleSCP)).
  assert (Hrun : rtc (scpStep exampleDriver false 20 60 (fun _ => 7%N)) exampleSCP s)
    by (apply (runScpOps_run exampleScpOps); vm_compute; reflexivity).
  exists s, (default (initSlot (exampleCtx false)) (mKnownSlots s !! 5)).
  assert (Hl : mKnownSlots s !! 5 = Some (default (initSlot (exampleCtx false)) (mKnownSlots s !! 5)))
    by (vm_compute; reflexivity).
  split; [exact Hrun|]. split; [exact Hl|]. split; [vm_compute; reflexivity|].
  exact (scp_externalizes_once exampleDriver false 20 60 (fun _ => 7%N) 1 true exampleQSet s 5 _ Hrun Hl).
Defined.

Lemma scp_slots_independent_witness :
  match runScpOp exampleDriver false 20 60 (fun _ => 7%N) (ScpReceive (externalizeFrom 2 [9%N])) exampleSCP with
  | Ret _ s' | Exn _ s' =>
      mLocalNode s' = mLocalNode exampleSCP /\ mKnownSlots s' !! 6 = mKnownSlots exampleSCP !! 6
  end.
Proof.
  apply (scp_slots_independent exampleDriver false 20 60 (fun _ => 7%N)
    (ScpReceive (externalizeFrom 2 [9%N])) 5 exampleSCP 6); [reflexivity | lia].
Defined.

(** A driver that verifies nothing. *)
Definition distrustful : SCPDriver :=
  mkDriver (fun _ => None) (fun _ _ => kMaybeValidValue) (fun _ v => v) (fun _ _ => [])
    (fun _ => []) (fun _ => false) (fun _ _ _ _ _ => 0) (fun _ _ _ _ => 0).

Lemma unsigned_envelope_ignored_witness :
  receiveEnvelope distrustful false 20 60 (externalizeFrom 2 [9%N]) exampleSCP = Ret INVALID exampleSCP.
Proof. apply (unsigned_envelope_ignored distrustful false 20 60). reflexivity. Defined.
