(* ===== verification/NominationTheorems.v ===== *)
(** * Round leaders, weights and new votes

    What the nomination protocol computes before it votes: the weight of a node in
    a quorum set, the leaders of a round, and the value to take from a leader. *)

From Stdlib Require Import ZArith Lia String.
From stdpp Require Import base tactics gmap option list.
From S2P Require Import Prelude UtilTypes ScpTypes LocalNode LocalNodeFacts SlotState Ballot.
From S2P Require Import Nomination BallotFacts SlotInv BallotSteps NominationSteps.

Open Scope Z_scope.

(** ** Leaders *)

Section leaders.
Context (c : Ctx) (s0 : SlotState).

Let n0 := nominationProtocol s0.

(** The priority of a node in the current round. *)
Definition priority (n : NodeID) : Z :=
  let h p := computeHashNode (driver c) (mSlotIndex c) (mPreviousValue n0) p (mRoundNumber n0) n in
  if h false <? getNodeWeight n (mQSet (localNode c)) then h true else 0.

(** The nodes of [l] with the highest priority, if any has one. *)
Definition topNodes (l : list NodeID) : gset NodeID :=
  list_to_set (base.filter (fun n => 0 < priority n /\ Forall (fun k => priority k <= priority n) l) l).

Definition withLeaders (L : gset NodeID) : SlotState :=
  set_nominationProtocol (set_mRoundLeaders L n0) s0.

Lemma elem_of_topNodes l n : n ∈ topNodes l <->
  n ∈ l /\ 0 < priority n /\ forall k, k ∈ l -> priority k <= priority n.
Proof.
  unfold topNodes. rewrite elem_of_list_to_set, list_elem_of_filter, Forall_forall. tauto.
Qed.

Hypothesis previous : NDEBUG c = true \/ mPreviousValue n0 <> [].

Lemma hashNode_run p n L : hashNode c p n (withLeaders L) =
  Ret (computeHashNode (driver c) (mSlotIndex c) (mPreviousValue n0) p (mRoundNumber n0) n) (withLeaders L).
Proof.
  unfold hashNode, dbgAssert. destruct previous as [->|Hp]; [done|].
  destruct (NDEBUG c); [done|]. unfold mbind, M_bind, getN, mret, M_ret. simpl.
  by rewrite bool_decide_false by exact Hp.
Qed.

Lemma getNodePriority_run n L :
  getNodePriority c n (mQSet (localNode c)) (withLeaders L) = Ret (priority n) (withLeaders L).
Proof.
  unfold getNodePriority, priority. erewrite run_bind by apply hashNode_run.
  destruct (_ <? _); [apply hashNode_run | done].
Qed.

(** [top] is the highest priority of the nodes of [l]. *)
Definition isTop (l : list NodeID) (top : Z) : Prop :=
  0 <= top /\ (forall k, k ∈ l -> priority k <= top) /\ (top = 0 \/ exists k, k ∈ l /\ priority k = top).

Lemma elem_of_topNodes_top l top n : isTop l top ->
  n ∈ topNodes l <-> n ∈ l /\ priority n = top /\ 0 < top.
Proof.
  intros (H0 & Hle & Hex). rewrite elem_of_topNodes. split.
  - intros (Hn & Hpos & Hmax). assert (priority n <= top) by auto.
    destruct Hex as [->|(k & Hk & <-)]; [lia|]. specialize (Hmax k Hk). split; [done | lia].
  - intros (Hn & <- & Hpos). auto.
Qed.

Lemma isTop_snoc l top n : isTop l top -> isTop (l ++ [n]) (Z.max top (priority n)).
Proof.
  intros (H0 & Hle & Hex). split_and!; [lia| |].
  - intros k [Hk| ->%list_elem_of_singleton]%elem_of_app; [specialize (Hle k Hk)|]; lia.
  - destruct (Z.max_spec top (priority n)) as [[Hlt ->]|[Hge ->]].
    + right. exists n. split; [|done]. apply elem_of_app. right. by apply list_elem_of_singleton.
    + destruct Hex as [->|(k & Hk & <-)]; [by left|]. right. exists k. split; [|done].
      apply elem_of_app. by left.
Qed.

Lemma topNodes_snoc l top n : isTop l top ->
  topNodes (l ++ [n]) =
    (let L := if top <? priority n then ∅ else topNodes l in
     if (priority n =? Z.max top (priority n)) && (0 <? priority n) then {[n]} ∪ L else L).
Proof.
  intros Ht. apply set_eq. intros k.
  rewrite (elem_of_topNodes_top _ _ _ (isTop_snoc _ _ n Ht)), elem_of_app, list_elem_of_singleton.
  pose proof Ht as (H0 & Hle & _).
  destruct (Z.ltb_spec top (priority n)).
  - rewrite Z.max_r by lia. rewrite Z.eqb_refl. destruct (Z.ltb_spec 0 (priority n)); [|lia].
    simpl. rewrite elem_of_union, elem_of_singleton. split.
    + intros ([Hk|Hk] & E & _); [|by left]. specialize (Hle k Hk). lia.
    + intros [->|Hk]; [by auto | by apply elem_of_empty in Hk].
  - rewrite Z.max_l by lia.
    destruct (Z.eqb_spec (priority n) top), (Z.ltb_spec 0 (priority n)); simpl;
      rewrite ?elem_of_union, ?elem_of_singleton, (elem_of_topNodes_top _ _ _ Ht).
    + split; [intros ([Hk|Hk] & ?); auto | intros [->|(? & ? & ?)]; split_and!; auto; lia].
    + split; [intros (_ & ? & ?); lia | intros (_ & ? & ?); lia].
    + split; [intros ([Hk| ->] & ? & ?); [auto | lia] | intros (? & ? & ?); auto].
    + split; [intros ([Hk| ->] & ? & ?); [auto | lia] | intros (? & ? & ?); auto].
Qed.

Lemma leadersLoop_run l pre top : isTop pre top ->
  leadersLoop c (mQSet (localNode c)) l top (withLeaders (topNodes pre)) =
    Ret () (withLeaders (topNodes (pre ++ l))).
Proof.
  revert pre top. induction l as [|n l IH]; intros pre top Ht; simpl.
  { by rewrite app_nil_r. }
  erewrite run_bind by apply getNodePriority_run.
  assert ((if top <? priority n then modifyN (set_mRoundLeaders ∅);; mret (priority n) else mret top)
    (withLeaders (topNodes pre)) = Ret (Z.max top (priority n))
      (withLeaders (if top <? priority n then ∅ else topNodes pre))) as Hstep.
  { destruct (Z.ltb_spec top (priority n)); [rewrite Z.max_r by lia | rewrite Z.max_l by lia]; done. }
  rewrite (run_bind _ _ _ _ _ Hstep).
  pose proof (topNodes_snoc pre top n Ht) as Hs. cbv zeta in Hs.
  match goal with |- (?m;; ?k) ?w = _ =>
    assert (m w = Ret () (withLeaders (topNodes (pre ++ [n])))) as Hins end.
  { rewrite Hs. by destruct (_ && _). }
  rewrite (run_bind _ _ _ _ _ Hins). erewrite IH by (by apply isTop_snoc).
  by rewrite <- (assoc_L (++)).
Qed.

End leaders.

(** The leaders of a round are the nodes of the local quorum set with the
    highest priority, if any node has a priority at all: the nodes whose hash falls
    below their weight, ordered by a second hash.  Computing them changes nothing
    else of the slot.  (In a debug build the previous value must not be empty.) *)
Theorem roundLeaders_correct c s :
  NDEBUG c = true \/ mPreviousValue (nominationProtocol s) <> [] ->
  exists s', updateRoundLeaders c s = Ret () s' /\
    s' = set_nominationProtocol (set_mRoundLeaders (mRoundLeaders (nominationProtocol s')) (nominationProtocol s)) s /\
    forall n, n ∈ mRoundLeaders (nominationProtocol s') <->
      n ∈ forAllNodes (mQSet (localNode c)) /\ 0 < priority c s n /\
      forall k, k ∈ forAllNodes (mQSet (localNode c)) -> priority c s k <= priority c s n.
Proof.
  intros Hp. exists (withLeaders s (topNodes c s (forAllNodes (mQSet (localNode c))))). split_and!.
  - unfold updateRoundLeaders.
    change (modifyN (set_mRoundLeaders ∅)) with (modifyN (set_mRoundLeaders (topNodes c s []))).
    rewrite (run_bind _ _ _ () (withLeaders s (topNodes c s []))) by done.
    rewrite (leadersLoop_run c s Hp _ [] 0); [done|].
    split_and!; [lia| |by left]. intros k Hk. by apply elem_of_nil in Hk.
  - done.
  - intros n. apply elem_of_topNodes.
Qed.

Lemma roundLeaders_correct_witness :
  exists s', updateRoundLeaders (mkCtx
      (mkDriver (fun _ => None) (fun _ _ => kFullyValidatedValue) (fun _ v => v) (fun _ _ => [])
        (fun _ => []) (fun _ => true) (fun _ _ p _ n => if p then 3 - Z.of_N n mod 2 else 0) (fun _ _ _ _ => 0))
      (mkLocalNode 1 true exampleQSet 7) 5 true 20) freshSlot = Ret () s' /\
    2%N ∈ mRoundLeaders (nominationProtocol s').
Proof.
  edestruct (roundLeaders_correct (mkCtx
      (mkDriver (fun _ => None) (fun _ _ => kFullyValidatedValue) (fun _ v => v) (fun _ _ => [])
        (fun _ => []) (fun _ => true) (fun _ _ p _ n => if p then 3 - Z.of_N n mod 2 else 0) (fun _ _ _ _ => 0))
      (mkLocalNode 1 true exampleQSet 7) 5 true 20) freshSlot) as (s' & Hr & _ & _).
  - left. reflexivity.
  - exists s'. split; [exact Hr|]. vm_compute in Hr. injection Hr as <-.
    refine (proj1 (bool_decide_eq_true _) _). vm_compute. reflexivity.
Defined.

(** ** Weights *)

Lemma bigDivideResult_exact A t d : 0 <= A <= UINT64_MAX -> 0 <= t <= d -> 0 < d <= UINT64_MAX ->
  bigDivideResult A t d = A * t / d /\ 0 <= A * t / d <= A.
Proof.
  intros HA Ht Hd.
  assert (0 <= A * t / d <= A) as Hb.
  { split; [apply Z.div_pos; nia|]. apply Z.div_le_upper_bound; nia. }
  split; [|done]. unfold bigDivideResult.
  rewrite bigDivide_u64_quotient by (unfold is_u64 in *; lia). simpl. apply u64_id. lia.
Qed.

Lemma totEntries_u64 t v i : Z.of_nat (length v + length i) <= 2147483647 ->
  u64 (totEntries (mkQSet t v i)) = Z.of_nat (length v + length i).
Proof. intros. unfold totEntries. simpl. rewrite u64_id; unfold UINT64_MAX; lia. Qed.

Lemma weightLoop_first {A} (w : A -> Z) t d l :
  (forall x, x ∈ l -> 0 <= w x <= UINT64_MAX) -> 0 <= t <= d -> 0 < d <= UINT64_MAX ->
  (weightLoop w t d l = 0 /\ forall x, x ∈ l -> w x = 0) \/
  exists l1 q l2, l = l1 ++ q :: l2 /\ (forall x, x ∈ l1 -> w x = 0) /\ 0 < w q /\
    weightLoop w t d l = w q * t / d /\ 0 <= weightLoop w t d l <= UINT64_MAX.
Proof.
  intros Hw Ht Hd. induction l as [|x l IH]; simpl.
  { left. split; [done|]. intros x Hx. by apply elem_of_nil in Hx. }
  assert (0 <= w x <= UINT64_MAX) as Hx by (apply Hw; left).
  destruct (Z.eqb_spec (w x) 0) as [E|E].
  - destruct IH as [[IH1 IH2]|(l1 & q & l2 & -> & H1 & H2 & H3)]; [intros; apply Hw; by right| |].
    + left. split; [done|]. intros y [->|Hy]%elem_of_cons; auto.
    + right. exists (x :: l1), q, l2. split_and!; try done; [|apply H3..].
      intros y [->|Hy]%elem_of_cons; auto.
  - right. exists [], x, l. destruct (bigDivideResult_exact (w x) t d Hx Ht Hd) as [-> Hb].
    split_and!; try done; try lia. intros y Hy. by apply elem_of_nil in Hy.
Qed.

Lemma getNodeWeight_range n q : thresholdsOk q = true -> 0 <= getNodeWeight n q <= UINT64_MAX.
Proof.
  induction q as [t v i IH] using SCPQuorumSet_nested_ind.
  intros [[Hlen Ht] Hi]%thresholdsOk_unfold. simpl. rewrite totEntries_u64 by done.
  rewrite Forall_forall in IH, Hi.
  assert (0 < Z.of_nat (length v + length i) <= UINT64_MAX) by (unfold UINT64_MAX; lia).
  destruct (decide _).
  - destruct (bigDivideResult_exact UINT64_MAX t (Z.of_nat (length v + length i))) as [-> Hb];
      [unfold UINT64_MAX; lia | lia | done | lia].
  - destruct (weightLoop_first (getNodeWeight n) t (Z.of_nat (length v + length i)) i)
      as [[-> _]|(? & ? & ? & _ & _ & _ & _ & ?)]; [auto | lia | done | unfold UINT64_MAX; lia | done].
Qed.

(** The weight of a node in a well-formed quorum set is exact and never
    overflows: for a validator of the top level it is 2^64 - 1 times the threshold
    over the number of entries, rounded down; otherwise it is the weight in the
    first inner set in which the node has one, scaled the same way; a node
    without a weight in any of them has weight 0. *)
Theorem getNodeWeight_exact n q : thresholdsOk q = true ->
  0 <= getNodeWeight n q <= UINT64_MAX /\
  (n ∈ validators q -> getNodeWeight n q = UINT64_MAX * threshold q / totEntries q) /\
  (n ∉ validators q ->
     (getNodeWeight n q = 0 /\ forall x, x ∈ innerSets q -> getNodeWeight n x = 0) \/
     exists l1 x l2, innerSets q = l1 ++ x :: l2 /\ (forall y, y ∈ l1 -> getNodeWeight n y = 0) /\
       0 < getNodeWeight n x /\
       getNodeWeight n q = getNodeWeight n x * threshold q / totEntries q).
Proof.
  intros Hok. split; [by apply getNodeWeight_range|]. destruct q as [t v i].
  apply thresholdsOk_unfold in Hok as [[Hlen Ht] Hi]. simpl. rewrite totEntries_u64 by done.
  rewrite Forall_forall in Hi. unfold totEntries. simpl.
  assert (0 < Z.of_nat (length v + length i) <= UINT64_MAX) by (unfold UINT64_MAX; lia). split; intros Hin.
  - rewrite decide_True by done. apply bigDivideResult_exact; [unfold UINT64_MAX; lia | lia | done].
  - rewrite decide_False by done.
    destruct (weightLoop_first (getNodeWeight n) t (Z.of_nat (length v + length i)) i)
      as [?|(l1 & x & l2 & ? & ? & ? & ? & ?)]; [|lia|done|by left|].
    + intros x Hx. apply getNodeWeight_range. auto.
    + right. exists l1, x, l2. auto.
Qed.

Lemma getNodeWeight_exact_witness :
  getNodeWeight 2 exampleQSet = UINT64_MAX * 2 / 3 /\ getNodeWeight 2 exampleQSet = 12297829382473034410.
Proof.
  destruct (getNodeWeight_exact 2 exampleQSet) as (_ & H & _); [reflexivity|].
  split; [|vm_compute; reflexivity]. apply H. simpl. right. left.
Defined.

(** ** Taking a value from a leader *)

Section new_value.
Context (c : Ctx) (s : SlotState).

Let n := nominationProtocol s.

(** The values that can be taken from a nomination: made valid, not empty and not
    yet voted for. *)
Definition eligible (v : Value) : Prop := valueToNominate c v <> [] /\ valueToNominate c v ∉ mVotes n.

Definition valueHash (v : Value) : Z :=
  computeValueHash (driver c) (mSlotIndex c) (mPreviousValue n) (mRoundNumber n) v.

Hypothesis previous : NDEBUG c = true \/ mPreviousValue n <> [].
Hypothesis hash_nonneg : forall v, 0 <= valueHash v.

Lemma hashValue_run v : hashValue c v s = Ret (valueHash v) s.
Proof.
  unfold hashValue, dbgAssert. destruct previous as [->|Hp]; [done|].
  destruct (NDEBUG c); [done|]. unfold mbind, M_bind, getN, mret, M_ret. simpl.
  by rewrite bool_decide_false by exact Hp.
Qed.

(** [r] has the highest hash of the values taken from [l], or there is none. *)
Definition bestOf (l : list Value) (r : Value) : Prop :=
  (r = [] /\ forall v, v ∈ l -> ~ eligible v) \/
  (exists v, v ∈ l /\ eligible v /\ r = valueToNominate c v) /\
  (forall v, v ∈ l -> eligible v -> valueHash (valueToNominate c v) <= valueHash r).

(** The hash that goes with the best value so far. *)
Definition bestHash (r : Value) : Z := if decide (r = []) then 0 else valueHash r.

Lemma bestOf_skip l r v : bestOf l r -> ~ eligible v -> bestOf (l ++ [v]) r.
Proof.
  intros [[-> H]|[(w & Hw & He & ->) H]] Hv; [left|right].
  - split; [done|]. intros x [Hx| ->%list_elem_of_singleton]%elem_of_app; auto.
  - split; [exists w; split; [apply elem_of_app; by left | done]|].
    intros x [Hx| ->%list_elem_of_singleton]%elem_of_app ?; [by apply H | done].
Qed.

Lemma bestOf_take l r v : bestOf l r -> eligible v -> bestHash r <= valueHash (valueToNominate c v) ->
  bestOf (l ++ [v]) (valueToNominate c v).
Proof.
  intros Hb Hv Hle. right. split.
  { exists v. split; [|done]. apply elem_of_app. right. by apply list_elem_of_singleton. }
  intros x [Hx| ->%list_elem_of_singleton]%elem_of_app He; [|lia].
  destruct Hb as [[-> H]|[(w & Hw & [Hne _] & ->) H]]; [by destruct (H x Hx)|].
  unfold bestHash in Hle. rewrite decide_False in Hle by done. specialize (H x Hx He). lia.
Qed.

Lemma bestOf_keep l r v : bestOf l r -> eligible v -> valueHash (valueToNominate c v) < bestHash r ->
  bestOf (l ++ [v]) r.
Proof.
  intros [[-> H]|[(w & Hw & [Hne Hnv] & ->) H]] Hv Hlt.
  - unfold bestHash in Hlt. rewrite decide_True in Hlt by done.
    pose proof (hash_nonneg (valueToNominate c v)). lia.
  - unfold bestHash in Hlt. rewrite decide_False in Hlt by done. right. split.
    + exists w. split; [apply elem_of_app; by left | done].
    + intros x [Hx| ->%list_elem_of_singleton]%elem_of_app ?; [by apply H | lia].
Qed.

Lemma newValueLoop_run l pre r : bestOf pre r ->
  exists r', newValueLoop c l r (bestHash r) s = Ret r' s /\ bestOf (pre ++ l) r'.
Proof.
  revert pre r. induction l as [|v l IH]; intros pre r Hb; simpl.
  { exists r. by rewrite app_nil_r. }
  replace (pre ++ v :: l) with ((pre ++ [v]) ++ l) by (by rewrite <- (assoc_L (++))).
  erewrite run_bind by reflexivity. cbv zeta.
  destruct (_ || _) eqn:Hskip.
  - apply IH, bestOf_skip; [done|]. intros [H1 H2].
    apply orb_true_iff in Hskip as [Hk|Hk]; by apply bool_decide_eq_true in Hk.
  - apply orb_false_iff in Hskip as [H1%bool_decide_eq_false H2%bool_decide_eq_false].
    assert (eligible v) as Hv by done.
    erewrite run_bind by apply hashValue_run.
    destruct (Z.leb_spec (bestHash r) (valueHash (valueToNominate c v))).
    + replace (valueHash (valueToNominate c v)) with (bestHash (valueToNominate c v)).
      * by apply IH, (bestOf_take _ r).
      * unfold bestHash. by rewrite decide_False.
    + by apply IH, bestOf_keep.
Qed.

End new_value.

(** Of the values of a leader's nomination, the one taken is the one with the
    highest hash among those that are valid (or can be made so), not empty and not
    voted for yet; the empty value is returned exactly when there is none. *)
Theorem newValue_has_highest_hash c s nom :
  NDEBUG c = true \/ mPreviousValue (nominationProtocol s) <> [] ->
  (forall v, 0 <= valueHash c s v) ->
  exists r, getNewValueFromNomination c nom s = Ret r s /\
    ((r = [] /\ forall v, v ∈ nom_votes nom ++ nom_accepted nom -> ~ eligible c s v) \/
     (exists v, v ∈ nom_votes nom ++ nom_accepted nom /\ eligible c s v /\ r = valueToNominate c v) /\
     forall v, v ∈ nom_votes nom ++ nom_accepted nom -> eligible c s v ->
       valueHash c s (valueToNominate c v) <= valueHash c s r).
Proof.
  intros Hp Hh. apply (newValueLoop_run c s Hp Hh _ []). left. split; [done|].
  intros v Hv. by apply elem_of_nil in Hv.
Qed.

Lemma newValue_has_highest_hash_witness :
  exists r, getNewValueFromNomination (mkCtx
      (mkDriver (fun _ => None) (fun _ _ => kFullyValidatedValue) (fun _ v => v) (fun _ _ => [])
        (fun _ => []) (fun _ => true) (fun _ _ _ _ _ => 0) (fun _ _ _ v => Z.of_nat (length v)))
      (mkLocalNode 1 true exampleQSet 7) 5 true 20) (mkNomination 0 [[1%N]; [2%N; 3%N]] [[4%N]])
      freshSlot = Ret r freshSlot /\ r = [2%N; 3%N].
Proof.
  edestruct (newValue_has_highest_hash (mkCtx
      (mkDriver (fun _ => None) (fun _ _ => kFullyValidatedValue) (fun _ v => v) (fun _ _ => [])
        (fun _ => []) (fun _ => true) (fun _ _ _ _ _ => 0) (fun _ _ _ v => Z.of_nat (length v)))
      (mkLocalNode 1 true exampleQSet 7) 5 true 20) freshSlot (mkNomination 0 [[1%N]; [2%N; 3%N]] [[4%N]]))
    as (r & Hr & _).
  - left. reflexivity.
  - intros v. unfold valueHash. simpl. lia.
  - exists r. split; [exact Hr|]. vm_compute in Hr. congruence.
Defined.
