(* ===== verification/LedgerTypes.v ===== *)
(** * Ledger entries, their keys and the order of identities

    The entries of the ledger as the code of [src/src/ledger] and
    [src/src/bucket] looks at them: their type, the fields that identify them and
    the rest as bytes.  [LedgerEntryIdCmp] is the comparison of
    [bucket/LedgerCmp.h] that orders every [std::map] of entries and every bucket.

    The values of the enumeration [LedgerEntryType] and the hexadecimal encoding
    are code outside the tree (the XDR definitions, libsodium): [LedgerExterns] is
    what is used of them. *)

From Stdlib Require Import ZArith Lia String.
From stdpp Require Import base tactics gmap option list.
From S2P Require Import Prelude ScpTypes.

Open Scope Z_scope.

Create HintDb ledger.

(** ** Types and keys *)

Inductive LedgerEntryType :=
| ACCOUNT | FEE | BALANCE | ASSET | ACCOUNT_TYPE_LIMITS | STATISTICS | REFERENCE_ENTRY | TRUST
| ACCOUNT_LIMITS | ASSET_PAIR | OFFER_ENTRY | REVIEWABLE_REQUEST | EXTERNAL_SYSTEM_ACCOUNT_ID
| SALE | KEY_VALUE | ACCOUNT_KYC | EXTERNAL_SYSTEM_ACCOUNT_ID_POOL_ENTRY | LIMITS_V2
| STATISTICS_V2 | PENDING_STATISTICS | SALE_ANTE | CONTRACT | ACCOUNT_ROLE
| ACCOUNT_ROLE_PERMISSION | PAYMENT_REQUEST.

#[export] Instance LedgerEntryType_eq_dec : EqDecision LedgerEntryType.
Proof. solve_decision. Defined.

(** The declaration order, for [Countable]. *)
Definition type_index (t : LedgerEntryType) : nat :=
  match t with
  | ACCOUNT => 0 | FEE => 1 | BALANCE => 2 | ASSET => 3 | ACCOUNT_TYPE_LIMITS => 4
  | STATISTICS => 5 | REFERENCE_ENTRY => 6 | TRUST => 7 | ACCOUNT_LIMITS => 8 | ASSET_PAIR => 9
  | OFFER_ENTRY => 10 | REVIEWABLE_REQUEST => 11 | EXTERNAL_SYSTEM_ACCOUNT_ID => 12 | SALE => 13
  | KEY_VALUE => 14 | ACCOUNT_KYC => 15 | EXTERNAL_SYSTEM_ACCOUNT_ID_POOL_ENTRY => 16
  | LIMITS_V2 => 17 | STATISTICS_V2 => 18 | PENDING_STATISTICS => 19 | SALE_ANTE => 20
  | CONTRACT => 21 | ACCOUNT_ROLE => 22 | ACCOUNT_ROLE_PERMISSION => 23
  | PAYMENT_REQUEST => 24
  end.

Definition index_type (n : nat) : option LedgerEntryType :=
  nth_error [ACCOUNT; FEE; BALANCE; ASSET; ACCOUNT_TYPE_LIMITS; STATISTICS; REFERENCE_ENTRY; TRUST;
    ACCOUNT_LIMITS; ASSET_PAIR; OFFER_ENTRY; REVIEWABLE_REQUEST; EXTERNAL_SYSTEM_ACCOUNT_ID; SALE;
    KEY_VALUE; ACCOUNT_KYC; EXTERNAL_SYSTEM_ACCOUNT_ID_POOL_ENTRY; LIMITS_V2; STATISTICS_V2;
    PENDING_STATISTICS; SALE_ANTE; CONTRACT; ACCOUNT_ROLE; ACCOUNT_ROLE_PERMISSION;
    PAYMENT_REQUEST] n.

#[export] Instance LedgerEntryType_countable : Countable LedgerEntryType.
Proof. apply (inj_countable type_index index_type). by intros []. Defined.

Abbreviation AccountID := N (only parsing).
Abbreviation BalanceID := N (only parsing).
Abbreviation Bytes := (list N) (only parsing).

(** [LedgerKey]: one arm per type of entry.  The version of the key of a trust
    entry is that of the entry. *)
Inductive LedgerKey :=
| KAccount (accountID : AccountID)
| KFee (hash : Bytes) (lowerBound upperBound : Z)
| KBalance (balanceID : BalanceID)
| KAsset (code : Bytes)
| KAccountTypeLimits (accountType : Z)
| KStatistics (accountID : AccountID)
| KReference (reference : Bytes) (sender : AccountID)
| KTrust (balanceToUse : BalanceID) (allowedAccount : AccountID) (ext_v : Z)
| KAccountLimits (accountID : AccountID)
| KAssetPair (base quote : Bytes)
| KOffer (offerID : Z) (ownerID : AccountID)
| KReviewableRequest (requestID : Z)
| KExternalSystemAccountID (accountID : AccountID) (externalSystemType : Z)
| KSale (saleID : Z)
| KKeyValue (key : Bytes)
| KAccountKYC (accountID : AccountID)
| KPoolEntry (poolEntryID : Z)
| KLimitsV2 (id : Z)
| KStatisticsV2 (id : Z)
| KPendingStatistics (requestID statisticsID : Z)
| KSaleAnte (saleID : Z) (participantBalanceID : BalanceID)
| KContract (contractID : Z)
| KAccountRole (accountRoleID : Z)
| KAccountRolePermission (permissionID : Z).

#[export] Instance LedgerKey_eq_dec : EqDecision LedgerKey.
Proof. solve_decision. Defined.

Definition key_type (k : LedgerKey) : LedgerEntryType :=
  match k with
  | KAccount _ => ACCOUNT | KFee _ _ _ => FEE | KBalance _ => BALANCE | KAsset _ => ASSET
  | KAccountTypeLimits _ => ACCOUNT_TYPE_LIMITS | KStatistics _ => STATISTICS
  | KReference _ _ => REFERENCE_ENTRY | KTrust _ _ _ => TRUST | KAccountLimits _ => ACCOUNT_LIMITS
  | KAssetPair _ _ => ASSET_PAIR | KOffer _ _ => OFFER_ENTRY
  | KReviewableRequest _ => REVIEWABLE_REQUEST
  | KExternalSystemAccountID _ _ => EXTERNAL_SYSTEM_ACCOUNT_ID | KSale _ => SALE
  | KKeyValue _ => KEY_VALUE | KAccountKYC _ => ACCOUNT_KYC
  | KPoolEntry _ => EXTERNAL_SYSTEM_ACCOUNT_ID_POOL_ENTRY | KLimitsV2 _ => LIMITS_V2
  | KStatisticsV2 _ => STATISTICS_V2 | KPendingStatistics _ _ => PENDING_STATISTICS
  | KSaleAnte _ _ => SALE_ANTE | KContract _ => CONTRACT | KAccountRole _ => ACCOUNT_ROLE
  | KAccountRolePermission _ => ACCOUNT_ROLE_PERMISSION
  end.

(** [LedgerEntry]: the identifying fields of its arm are those of the key of the
    same arm; the other fields of the arm are bytes. *)
Record LedgerEntry := mkEntry {
  lastModifiedLedgerSeq : Z;
  data : LedgerKey;
  body : Bytes }.

#[export] Instance LedgerEntry_eq_dec : EqDecision LedgerEntry.
Proof. solve_decision. Defined.

(** ** Helpers

    [EntryHelperProvider::helpers]: the types that have a legacy helper. *)
Definition getHelper (t : LedgerEntryType) : bool :=
  match t with
  | ACCOUNT_ROLE | ACCOUNT_ROLE_PERMISSION | PAYMENT_REQUEST => false
  | _ => true
  end.

Definition no_legacy_helper : exn := RuntimeError "There's no legacy helper for this entry.".

(** [LedgerEntryKey]: the key of an entry, through [getLedgerKey] of its helper,
    which copies the identifying fields. *)
Definition LedgerEntryKey {W} (e : LedgerEntry) : M W LedgerKey :=
  match key_type (data e) with
  | ACCOUNT_ROLE | ACCOUNT_ROLE_PERMISSION => mret (data e)
  | t => if getHelper t then mret (data e) else throw no_legacy_helper
  end.

(** ** The order *)

Class LedgerExterns := {
  enum_value : LedgerEntryType -> Z;
  enum_value_inj :: Inj (=) (=) enum_value;
  binToHex : Bytes -> Bytes;
  binToHex_inj :: Inj (=) (=) binToHex }.

Section cmp.
Context `{LedgerExterns}.

(** [if (a < b) return true; if (b < a) return false; return rest;] *)
Definition ltThen (ab ba rest : bool) : bool :=
  if ab then true else if ba then false else rest.

Definition LedgerEntryIdCmp (a b : LedgerKey) : bool :=
  let aty := enum_value (key_type a) in
  let bty := enum_value (key_type b) in
  if aty <? bty then true
  else if bty <? aty then false
  else match a, b with
  | KAccount x, KAccount y => (x <? y)%N
  | KFee h l u, KFee h' l' u' =>
      ltThen (bytes_ltb (binToHex h) (binToHex h')) (bytes_ltb (binToHex h') (binToHex h))
        (ltThen (l <? l') (l' <? l) (u <? u'))
  | KBalance x, KBalance y => (x <? y)%N
  | KAsset x, KAsset y => bytes_ltb x y
  | KAccountTypeLimits x, KAccountTypeLimits y => x <? y
  | KStatistics x, KStatistics y => (x <? y)%N
  | KReference r _, KReference r' _ => bytes_ltb r r'
  | KTrust x a _, KTrust y a' _ => ltThen (x <? y)%N (y <? x)%N (a <? a')%N
  | KAccountLimits x, KAccountLimits y => (x <? y)%N
  | KAssetPair x q, KAssetPair y q' => ltThen (bytes_ltb x y) (bytes_ltb y x) (bytes_ltb q q')
  | KOffer x o, KOffer y o' => ltThen (x <? y) (y <? x) (o <? o')%N
  | KReviewableRequest x, KReviewableRequest y => x <? y
  | KExternalSystemAccountID x t, KExternalSystemAccountID y t' =>
      ltThen (x <? y)%N (y <? x)%N (t <? t')
  | KSale x, KSale y => x <? y
  | KKeyValue x, KKeyValue y => bytes_ltb x y
  | KAccountKYC x, KAccountKYC y => (x <? y)%N
  | KPoolEntry x, KPoolEntry y => x <? y
  | KLimitsV2 x, KLimitsV2 y => x <? y
  | KStatisticsV2 x, KStatisticsV2 y => x <? y
  | KPendingStatistics x s, KPendingStatistics y s' => ltThen (x <? y) (y <? x) (s <? s')
  | KSaleAnte x p, KSaleAnte y p' => ltThen (x <? y) (y <? x) (p <? p')%N
  | KContract x, KContract y => x <? y
  | KAccountRole x, KAccountRole y => x <? y
  | KAccountRolePermission x, KAccountRolePermission y => x <? y
  | _, _ => false
  end.

(** The operator on whatever has a type: an entry or a key with an arm of the [switch], or one
    of the type that has none and comes to its [default]. *)
Inductive Comparable := Arm (k : LedgerKey) | PaymentRequest.

Definition type_of (x : Comparable) : LedgerEntryType :=
  match x with Arm k => key_type k | PaymentRequest => PAYMENT_REQUEST end.

Definition unknown_type : exn :=
  RuntimeError "Unexpected state. LedgerCmp cannot compare structures. Unknown ledger entry type".

Definition LedgerEntryIdCmp_operator (a b : Comparable) : exn + bool :=
  let aty := enum_value (type_of a) in
  let bty := enum_value (type_of b) in
  if aty <? bty then inr true
  else if bty <? aty then inr false
  else match a, b with
  | Arm a, Arm b => inr (LedgerEntryIdCmp a b)
  | _, _ => inl unknown_type
  end.

End cmp.

(** ** Entries of buckets *)

Inductive BucketEntry :=
| LIVEENTRY (e : LedgerEntry)
| DEADENTRY (k : LedgerKey).

#[export] Instance BucketEntry_eq_dec : EqDecision BucketEntry.
Proof. solve_decision. Defined.

Definition bucketKey (e : BucketEntry) : LedgerKey :=
  match e with LIVEENTRY e => data e | DEADENTRY k => k end.

Definition BucketEntryIdCmp `{LedgerExterns} (a b : BucketEntry) : bool :=
  LedgerEntryIdCmp (bucketKey a) (bucketKey b).

(** ** Identities

    What the comparison looks at. *)

Inductive Field := FZ (x : Z) | FB (x : Bytes).

#[export] Instance Field_eq_dec : EqDecision Field.
Proof. solve_decision. Defined.

#[export] Instance Field_countable : Countable Field.
Proof.
  apply (inj_countable' (fun f => match f with FZ x => inl x | FB x => inr x end)
    (fun s => match s with inl x => FZ x | inr x => FB x end)). by intros [].
Defined.

Definition LedgerId : Type := LedgerEntryType * list Field.

Section ids.
Context `{LedgerExterns}.

Definition idFields (k : LedgerKey) : list Field :=
  match k with
  | KAccount x | KBalance x | KStatistics x | KAccountLimits x | KAccountKYC x => [FZ (Z.of_N x)]
  | KFee h l u => [FB (binToHex h); FZ l; FZ u]
  | KAsset x | KKeyValue x => [FB x]
  | KAccountTypeLimits x | KReviewableRequest x | KSale x | KPoolEntry x | KLimitsV2 x
  | KStatisticsV2 x | KContract x | KAccountRole x | KAccountRolePermission x => [FZ x]
  | KReference r _ => [FB r]
  | KTrust x a _ => [FZ (Z.of_N x); FZ (Z.of_N a)]
  | KAssetPair x q => [FB x; FB q]
  | KOffer x o => [FZ x; FZ (Z.of_N o)]
  | KExternalSystemAccountID x t => [FZ (Z.of_N x); FZ t]
  | KPendingStatistics x s => [FZ x; FZ s]
  | KSaleAnte x p => [FZ x; FZ (Z.of_N p)]
  end.

Definition idOf (k : LedgerKey) : LedgerId := (key_type k, idFields k).

#[global] Arguments idOf : simpl never.

(** Identities in order: by type, then by the fields from left to right. *)

Definition field_le (a b : Field) : Prop :=
  match a, b with
  | FZ x, FZ y => x <= y
  | FZ _, FB _ => True
  | FB _, FZ _ => False
  | FB x, FB y => bytes_leb x y = true
  end.

#[export] Instance field_std_order : StdOrder Field.
Proof.
  refine {| std_le := field_le |}.
  - intros [] []; simpl; apply _.
  - intros [x|x] [y|y] [z|z]; simpl; try done; [lia|apply bytes_leb_trans].
  - intros [x|x] [y|y]; simpl; auto; [lia|apply bytes_leb_total].
  - intros [x|x] [y|y]; simpl; try done; intros; f_equal; [lia|by apply bytes_leb_antisym].
Defined.

Definition id_le (a b : LedgerId) : Prop :=
  enum_value a.1 < enum_value b.1 \/ a.1 = b.1 /\ list_leb a.2 b.2 = true.

#[export] Instance id_std_order : StdOrder LedgerId.
Proof.
  refine {| std_le := id_le |}.
  - intros a b. unfold id_le. apply _.
  - intros [] [] [] [?|[? ?]] [?|[? ?]]; unfold id_le; simpl in *; subst; [left; lia|auto..|].
    right. split; [done|by eapply list_leb_trans].
  - intros a b. unfold id_le.
    destruct (Z.lt_trichotomy (enum_value a.1) (enum_value b.1)) as [?|[E%(inj enum_value)|?]]; auto.
    destruct (list_leb_total a.2 b.2); auto.
  - intros [] [] [?|[? ?]] [?|[? ?]]; simpl in *; subst; try lia.
    f_equal. by apply list_leb_antisym.
Defined.

End ids.
