(* ===== verification/LedgerOrder.v ===== *)
(** * The order of ledger identities

    [LedgerEntryIdCmp] is the strict part of a total order on identities ([idOf]):
    what a [std::map], a [std::set] and [std::sort] ask of a comparison.  Two keys
    it cannot tell apart have the same identity; outside of references and trusts
    that makes them the same key. *)

From Stdlib Require Import ZArith Lia String.
From stdpp Require Import base tactics gmap option list.
From S2P Require Import Prelude ScpTypes LedgerTypes.

Open Scope Z_scope.

(** The strict order of an ordered type. *)
Definition std_lt {A} `{StdOrder A} (a b : A) : Prop := ~ std_le b a.

Section std_lt.
Context {A : Type} `{StdOrder A}.

#[export] Instance std_lt_dec : RelDecision (@std_lt A _).
Proof. intros a b. unfold std_lt. apply _. Defined.

Lemma std_lt_le a b : std_lt a b -> std_le a b.
Proof. unfold std_lt. destruct (total std_le a b); tauto. Qed.

Lemma std_lt_irrefl a : ~ std_lt a a.
Proof. intros Hl. apply Hl. by destruct (total std_le a a). Qed.

#[export] Instance std_lt_trans : Transitive (@std_lt A _).
Proof. intros a b c Hab Hbc Hca. apply Hbc. trans a; [done|]. by apply std_lt_le. Qed.

Lemma std_le_lt_eq a b : std_le a b -> std_lt a b \/ a = b.
Proof.
  intros Hab. destruct (decide (std_le b a)); [right|by left]. by apply (anti_symm std_le).
Qed.

Lemma std_lt_trichotomy a b : std_lt a b \/ a = b \/ std_lt b a.
Proof. destruct (total std_le a b) as [Hl|Hl]; apply std_le_lt_eq in Hl; naive_solver. Qed.

Lemma std_lt_ne a b : std_lt a b -> a <> b.
Proof. intros Hl ->. by apply std_lt_irrefl in Hl. Qed.

Lemma std_lt_asym a b : std_lt a b -> ~ std_lt b a.
Proof. intros Hab Hba. apply (std_lt_irrefl a). by trans b. Qed.

End std_lt.

#[export] Hint Resolve std_lt_irrefl std_lt_asym std_lt_ne : ledger.

Section order.
Context `{LedgerExterns}.

Lemma ltThen_true ab ba r : ltThen ab ba r = true <-> ab = true \/ ba = false /\ r = true.
Proof. destruct ab, ba, r; simpl; intuition congruence. Qed.

Lemma IdCmp_types a b : key_type a <> key_type b ->
  LedgerEntryIdCmp a b = (enum_value (key_type a) <? enum_value (key_type b)).
Proof.
  intros Hne. unfold LedgerEntryIdCmp.
  destruct (Z.ltb_spec (enum_value (key_type a)) (enum_value (key_type b))); [done|].
  destruct (Z.ltb_spec (enum_value (key_type b)) (enum_value (key_type a))); [done|].
  destruct Hne. apply (inj enum_value). lia.
Qed.

Lemma id_lt_types a b : key_type a <> key_type b ->
  std_lt (idOf a) (idOf b) <-> enum_value (key_type a) < enum_value (key_type b).
Proof.
  intros Hne. unfold std_lt. simpl. unfold id_le, idOf; simpl.
  split; [|intros ? [?|[? ?]]; [lia|congruence]].
  destruct (Z.lt_trichotomy (enum_value (key_type a)) (enum_value (key_type b)))
    as [?|[?%(inj enum_value)|?]]; tauto.
Qed.

Lemma id_lt_fields a b : key_type a = key_type b ->
  std_lt (idOf a) (idOf b) <-> list_leb (idFields b) (idFields a) <> true.
Proof.
  intros E. unfold std_lt; simpl; unfold id_le, idOf; simpl. rewrite E.
  split; [tauto|intros ? [?|?]; [lia|tauto]].
Qed.

Lemma IdCmp_lt a b : LedgerEntryIdCmp a b = true <-> std_lt (idOf a) (idOf b).
Proof.
  destruct (decide (key_type a = key_type b)) as [E|Hne];
    [|by rewrite IdCmp_types, Z.ltb_lt, id_lt_types].
  rewrite id_lt_fields by done. unfold LedgerEntryIdCmp. rewrite E, Z.ltb_irrefl.
  destruct a, b; try discriminate E; cbn [idFields];
    rewrite ?list_leb_cons; cbn [std_le field_std_order field_le list_leb];
    rewrite ?ltThen_true; unfold bytes_ltb;
    rewrite ?negb_true_iff, ?negb_false_iff, ?N.ltb_lt, ?N.ltb_ge, ?Z.ltb_lt, ?Z.ltb_ge,
      <- ?not_true_iff_false; try lia;
    repeat match goal with |- context [bytes_leb ?x ?y] => destruct (bytes_leb x y) end;
    (lia || intuition congruence).
Qed.

Lemma IdCmp_ge a b : LedgerEntryIdCmp a b = false <-> std_le (idOf b) (idOf a).
Proof.
  rewrite <- not_true_iff_false, IdCmp_lt. unfold std_lt.
  destruct (decide (std_le (idOf b) (idOf a))); tauto.
Qed.

(** Types whose keys have fields the comparison does not look at. *)
Definition hiddenFields (t : LedgerEntryType) : bool :=
  match t with REFERENCE_ENTRY | TRUST => true | _ => false end.

Lemma idOf_inj a b : idOf a = idOf b -> hiddenFields (key_type a) = false -> a = b.
Proof.
  unfold idOf. intros E Hh. injection E as Et Ef.
  destruct a, b; try discriminate Et; try discriminate Hh; simpl in Ef; simplify_eq;
    try done; f_equal; by apply (inj binToHex).
Qed.

Lemma idOf_key_type a b : idOf a = idOf b -> key_type a = key_type b.
Proof. unfold idOf. congruence. Qed.

(** What the comparison identifies: equal keys, but for the sender of a reference and the version of
    the key of a trust. *)
Definition identified (a b : LedgerKey) : Prop :=
  match a, b with
  | KReference r _, KReference r' _ => r = r'
  | KTrust x y _, KTrust x' y' _ => x = x' /\ y = y'
  | _, _ => a = b
  end.

Lemma idOf_identified a b : idOf a = idOf b <-> identified a b.
Proof.
  split.
  - intros E. destruct (hiddenFields (key_type a)) eqn:Hh.
    + pose proof (idOf_key_type _ _ E) as Et. unfold idOf in E. injection E as _ Ef.
      destruct a, b; try discriminate Hh; try discriminate Et; simpl in *; simplify_eq; [done|]. split; lia.
    + assert (a = b) as -> by (by apply idOf_inj). by destruct b.
  - unfold idOf. intros Hi. destruct a, b; cbn [identified] in Hi; try discriminate Hi; try (by rewrite Hi).
    by destruct Hi as [-> ->].
Qed.

(** The operator throws only in its [default]. *)
Lemma operator_throws x y e : LedgerEntryIdCmp_operator x y = inl e <->
  e = unknown_type /\ x = PaymentRequest /\ y = PaymentRequest.
Proof.
  unfold LedgerEntryIdCmp_operator. split; [|intros (-> & -> & ->); simpl; by rewrite Z.ltb_irrefl].
  destruct (Z.ltb_spec (enum_value (type_of x)) (enum_value (type_of y))); [done|].
  destruct (Z.ltb_spec (enum_value (type_of y)) (enum_value (type_of x))); [done|].
  assert (Et : type_of x = type_of y) by (apply (inj enum_value); lia).
  destruct x as [k|], y as [k'|]; simpl in Et; try (by intros [= <-]); [by destruct k|by destruct k'].
Qed.

Lemma operator_arms a b : LedgerEntryIdCmp_operator (Arm a) (Arm b) = inr (LedgerEntryIdCmp a b).
Proof.
  unfold LedgerEntryIdCmp_operator, LedgerEntryIdCmp. simpl. by repeat case_match.
Qed.

(** C40. The comparison that orders every map of entries and every bucket is a
    strict weak order, the requirement of [std::map], [std::set] and [std::sort]:
    it is irreflexive and transitive, and the keys it cannot tell apart are exactly the equal ones,
    as [LedgerCmp.h] says, with two exceptions: references with another sender, and trusts whose keys
    have another version, are identified ([identified]).  The operator throws exactly when it is
    given two things of the type it has no case for, and is this comparison on all others. *)
Theorem LedgerEntryIdCmp_strict_weak_order a b c :
  LedgerEntryIdCmp a a = false /\
  (LedgerEntryIdCmp a b = true -> LedgerEntryIdCmp b c = true -> LedgerEntryIdCmp a c = true) /\
  (LedgerEntryIdCmp a b = false /\ LedgerEntryIdCmp b a = false <->
   match a, b with
   | KReference r _, KReference r' _ => r = r'
   | KTrust x y _, KTrust x' y' _ => x = x' /\ y = y'
   | _, _ => a = b
   end) /\
  LedgerEntryIdCmp_operator (Arm a) (Arm b) = inr (LedgerEntryIdCmp a b) /\
  (forall x y, (exists e, LedgerEntryIdCmp_operator x y = inl e) <-> x = PaymentRequest /\ y = PaymentRequest).
Proof.
  rewrite !IdCmp_lt, !IdCmp_ge. split_and!.
  - by destruct (total std_le (idOf a) (idOf a)).
  - intros ? ?. by trans (idOf b).
  - change (std_le (idOf b) (idOf a) /\ std_le (idOf a) (idOf b) <-> identified a b). rewrite <- idOf_identified.
    split; [intros [? ?]; by apply (anti_symm std_le)|intros ->].
    by destruct (total std_le (idOf b) (idOf b)).
  - apply operator_arms.
  - intros x y. setoid_rewrite operator_throws. naive_solver.
Qed.

(** References of different senders are one entry to the comparison, although
    their keys differ: [LedgerCmp.h] says that entries are identified exactly when
    their keys are equal.  Of the other types only trusts have a field the
    comparison skips, the version of the key. *)
Theorem references_of_senders_collide r s s' : s <> s' ->
  KReference r s <> KReference r s' /\
  LedgerEntryIdCmp (KReference r s) (KReference r s') = false /\
  LedgerEntryIdCmp (KReference r s') (KReference r s) = false /\
  forall a b, LedgerEntryIdCmp a b = false -> LedgerEntryIdCmp b a = false ->
    a <> b -> key_type a = REFERENCE_ENTRY \/ key_type a = TRUST.
Proof.
  intros Hs. split_and!; [congruence|by apply IdCmp_ge; destruct (total std_le (idOf (KReference r s)) (idOf (KReference r s)))..|].
  intros a b Hab Hba Hne. rewrite IdCmp_ge in Hab, Hba.
  assert (E : idOf a = idOf b) by by apply (anti_symm std_le).
  destruct (hiddenFields (key_type a)) eqn:Hh; [|by destruct Hne; apply idOf_inj].
  destruct (key_type a); naive_solver.
Qed.

End order.
