(* ===== verification/LedgerDelta.v ===== *)
(** * Ledger deltas

    [ledger/LedgerDeltaImpl.cpp]: the changes a transaction, an operation or a whole
    ledger makes to the entries and to the header, in nested scopes.  A delta
    nested in another is merged into it on commit, and forgotten on rollback.

    The deltas are C++ objects that refer to each other by pointer: the world
    [DW] holds them by address, with the header the outermost one writes to and
    the cache of entries of the database.  [mHeader] points to the header of the
    outer delta or to that header.  A [std::map] of entries is a [gmap] by
    identity whose values keep the key they were inserted with, as the nodes of
    the [std::map] do. *)

From Stdlib Require Import ZArith Lia String.
From stdpp Require Import base tactics gmap option list.
From S2P Require Import Prelude ScpTypes LedgerTypes.

Open Scope Z_scope.

(** ** Headers *)

(** [LedgerHeader]: the fields the deltas and the generators of identifiers look
    at; [rest] is the others. *)
Record LedgerHeader := mkHeader {
  ledgerSeq : Z;
  idGenerators : list (LedgerEntryType * Z);
  rest : list N }.

#[export] Instance LedgerHeader_eq_dec : EqDecision LedgerHeader.
Proof. solve_decision. Defined.

Definition set_idGenerators (g : list (LedgerEntryType * Z)) (h : LedgerHeader) : LedgerHeader :=
  mkHeader (ledgerSeq h) g (rest h).

(** [LedgerHeaderFrameImpl::getLastGeneratedID] *)
Fixpoint lastGenerated (t : LedgerEntryType) (gs : list (LedgerEntryType * Z)) : Z :=
  match gs with
  | [] => 0
  | (t', id) :: gs' => if bool_decide (t' = t) then id else lastGenerated t gs'
  end.

Definition getLastGeneratedID (t : LedgerEntryType) (h : LedgerHeader) : Z :=
  lastGenerated t (idGenerators h).

(** [LedgerHeaderFrameImpl::generateID]: [++getIDGenerator(t).idPool], where
    [getIDGenerator] appends a generator at 0 when there is none. *)
Fixpoint bumpGenerator (t : LedgerEntryType) (gs : list (LedgerEntryType * Z)) :
    Z * list (LedgerEntryType * Z) :=
  match gs with
  | [] => (u64 (0 + 1), [(t, u64 (0 + 1))])
  | (t', id) :: gs' =>
      if bool_decide (t' = t) then (u64 (id + 1), (t', u64 (id + 1)) :: gs')
      else let '(r, gs'') := bumpGenerator t gs' in (r, (t', id) :: gs'')
  end.

Definition generateID (t : LedgerEntryType) (h : LedgerHeader) : Z * LedgerHeader :=
  let '(r, gs) := bumpGenerator t (idGenerators h) in (r, set_idGenerators gs h).

(** ** State *)

Inductive LedgerEntryChange :=
| CREATED (e : LedgerEntry)
| UPDATED (e : LedgerEntry)
| REMOVED (k : LedgerKey)
| STATE (e : LedgerEntry).

Inductive HeaderRef := RootHeader | HeaderOf (d : nat).

(** [KeyEntryMap] *)
Abbreviation KeyEntryMap := (gmap LedgerId (LedgerKey * LedgerEntry)) (only parsing).

Record Delta := mkDelta {
  mOuterDelta : option nat;
  mHeader : option HeaderRef;
  mCurrentHeader : LedgerHeader;
  mPreviousHeaderValue : LedgerHeader;
  mNew : KeyEntryMap;
  mMod : KeyEntryMap;
  mDelete : gmap LedgerId LedgerKey;
  mAllChanges : list LedgerEntryChange;
  mPrevious : KeyEntryMap;
  mUpdateLastModified : bool }.

(** The entry cache of [Database]: serialized key to entry, [None] for a key known
    to be absent.  Serialization is injective, the model keeps the keys. *)
Abbreviation EntryCache := (list (LedgerKey * option LedgerEntry)) (only parsing).

Record DW := mkDW {
  deltas : gmap nat Delta;
  rootHeader : LedgerHeader;
  entryCache : EntryCache }.

(** ** Updates of the members *)

Definition set_mOuterDelta o (d : Delta) := mkDelta o (mHeader d) (mCurrentHeader d)
  (mPreviousHeaderValue d) (mNew d) (mMod d) (mDelete d) (mAllChanges d) (mPrevious d)
  (mUpdateLastModified d).
Definition set_mHeader h (d : Delta) := mkDelta (mOuterDelta d) h (mCurrentHeader d)
  (mPreviousHeaderValue d) (mNew d) (mMod d) (mDelete d) (mAllChanges d) (mPrevious d)
  (mUpdateLastModified d).
Definition set_mCurrentHeader h (d : Delta) := mkDelta (mOuterDelta d) (mHeader d) h
  (mPreviousHeaderValue d) (mNew d) (mMod d) (mDelete d) (mAllChanges d) (mPrevious d)
  (mUpdateLastModified d).
Definition set_entries n m del (d : Delta) := mkDelta (mOuterDelta d) (mHeader d)
  (mCurrentHeader d) (mPreviousHeaderValue d) n m del (mAllChanges d) (mPrevious d)
  (mUpdateLastModified d).
Definition push_change c (d : Delta) := mkDelta (mOuterDelta d) (mHeader d)
  (mCurrentHeader d) (mPreviousHeaderValue d) (mNew d) (mMod d) (mDelete d)
  (mAllChanges d ++ [c]) (mPrevious d) (mUpdateLastModified d).
Definition set_mPrevious p (d : Delta) := mkDelta (mOuterDelta d) (mHeader d)
  (mCurrentHeader d) (mPreviousHeaderValue d) (mNew d) (mMod d) (mDelete d)
  (mAllChanges d) p (mUpdateLastModified d).

Definition putDelta (a : nat) (d : Delta) (w : DW) : DW :=
  mkDW (<[a := d]> (deltas w)) (rootHeader w) (entryCache w).
Definition set_rootHeader h (w : DW) : DW := mkDW (deltas w) h (entryCache w).
Definition set_entryCache c (w : DW) : DW := mkDW (deltas w) (rootHeader w) c.
Definition dropDelta (a : nat) (w : DW) : DW :=
  mkDW (delete a (deltas w)) (rootHeader w) (entryCache w).

Definition theDelta (a : nat) : M DW Delta := w ← get; deref (deltas w !! a).

(** [*mHeader] *)
Definition readHeader (r : HeaderRef) : M DW LedgerHeader :=
  match r with
  | RootHeader => w ← get; mret (rootHeader w)
  | HeaderOf a => d ← theDelta a; mret (mCurrentHeader d)
  end.

Definition writeHeader (r : HeaderRef) (h : LedgerHeader) : M DW () :=
  match r with
  | RootHeader => modify (set_rootHeader h)
  | HeaderOf a => d ← theDelta a; modify (putDelta a (set_mCurrentHeader h d))
  end.

Section delta.
Context `{LedgerExterns} (NDEBUG : bool).

(** [std::map::operator[]] followed by an assignment: the node keeps its key. *)
Definition map_assign (k : LedgerKey) (e : LedgerEntry) (m : KeyEntryMap) : KeyEntryMap :=
  match m !! idOf k with
  | Some (k0, _) => <[idOf k := (k0, e)]> m
  | None => <[idOf k := (k, e)]> m
  end.

(** [std::map::insert]: nothing happens when the key is there. *)
Definition map_insert_once (k : LedgerKey) (e : LedgerEntry) (m : KeyEntryMap) : KeyEntryMap :=
  match m !! idOf k with
  | Some _ => m
  | None => <[idOf k := (k, e)]> m
  end.

Definition assert_ (b : bool) : M DW () := if NDEBUG || b then mret () else throw DbgAbort.

Definition checkState (a : nat) : M DW () :=
  d ← theDelta a;
  match mHeader d with
  | None => throw (RuntimeError "Invalid operation: delta is already committed"%string)
  | Some _ => mret ()
  end.

(** ** Constructors *)

(** [LedgerDeltaImpl(LedgerDelta& outerDelta)] at the address [a]. *)
Definition newNested (a outer : nat) : M DW () :=
  o ← theDelta outer;
  modify (putDelta a (mkDelta (Some outer) (Some (HeaderOf outer)) (mCurrentHeader o)
    (mCurrentHeader o) ∅ ∅ ∅ [] ∅ (mUpdateLastModified o))).

(** [LedgerDeltaImpl(LedgerHeader& header, Database& db, bool updateLastModified)] *)
Definition newRoot (a : nat) (updateLastModified : bool) : M DW () :=
  w ← get;
  modify (putDelta a (mkDelta None (Some RootHeader) (rootHeader w) (rootHeader w)
    ∅ ∅ ∅ [] ∅ updateLastModified)).

(** ** Changes of entries *)

Definition addEntry (a : nat) (e : LedgerEntry) : M DW () :=
  checkState a;;
  k ← LedgerEntryKey e;
  d ← theDelta a;
  (match mDelete d !! idOf k with
   | Some _ =>
       modify (putDelta a
         (set_entries (mNew d) (map_assign k e (mMod d)) (delete (idOf k) (mDelete d)) d))
   | None =>
       assert_ (bool_decide (mNew d !! idOf k = None));;
       assert_ (bool_decide (mMod d !! idOf k = None));;
       modify (putDelta a (set_entries (map_assign k e (mNew d)) (mMod d) (mDelete d) d))
   end);;
  d ← theDelta a;
  modify (putDelta a (push_change (CREATED e) d)).

(** [deleteEntry(LedgerKey const&)] *)
Definition deleteEntry (a : nat) (k : LedgerKey) : M DW () :=
  checkState a;;
  d ← theDelta a;
  (match mNew d !! idOf k with
   | Some _ =>
       modify (putDelta a (set_entries (delete (idOf k) (mNew d)) (mMod d) (mDelete d) d))
   | None =>
       let del := match mDelete d !! idOf k with
                  | None => <[idOf k := k]> (mDelete d)
                  | Some _ => mDelete d
                  end in
       modify (putDelta a (set_entries (mNew d) (delete (idOf k) (mMod d)) del d))
   end);;
  d ← theDelta a;
  modify (putDelta a (push_change (REMOVED k) d)).

(** [deleteEntry(EntryFrame::pointer)] *)
Definition deleteEntryFrame (a : nat) (e : LedgerEntry) : M DW () :=
  k ← LedgerEntryKey e;
  deleteEntry a k.

Definition modEntry (a : nat) (e : LedgerEntry) : M DW () :=
  checkState a;;
  k ← LedgerEntryKey e;
  d ← theDelta a;
  (match mMod d !! idOf k with
   | Some _ =>
       modify (putDelta a (set_entries (mNew d) (map_assign k e (mMod d)) (mDelete d) d))
   | None =>
       match mNew d !! idOf k with
       | Some _ =>
           modify (putDelta a (set_entries (map_assign k e (mNew d)) (mMod d) (mDelete d) d))
       | None =>
           assert_ (bool_decide (mDelete d !! idOf k = None));;
           modify (putDelta a (set_entries (mNew d) (map_assign k e (mMod d)) (mDelete d) d))
       end
   end);;
  d ← theDelta a;
  modify (putDelta a (push_change (UPDATED e) d)).

Definition recordEntry (a : nat) (e : LedgerEntry) : M DW () :=
  checkState a;;
  k ← LedgerEntryKey e;
  d ← theDelta a;
  modify (putDelta a (set_mPrevious (map_insert_once k e (mPrevious d)) d)).

(** ** The end of a scope *)

(** The record of a previous value that [mergeEntries] passes on. *)
Definition propagatePrevious (a : nat) (prev : KeyEntryMap) (i : LedgerId) : M DW () :=
  match prev !! i with
  | Some (_, e) => recordEntry a e
  | None => mret ()
  end.

Fixpoint mergeDeletes (a : nat) (prev : KeyEntryMap) (l : list (LedgerId * LedgerKey)) : M DW () :=
  match l with
  | [] => mret ()
  | (i, k) :: l' => deleteEntry a k;; propagatePrevious a prev i;; mergeDeletes a prev l'
  end.

Fixpoint mergeCreations (a : nat) (l : list (LedgerId * (LedgerKey * LedgerEntry))) : M DW () :=
  match l with
  | [] => mret ()
  | (_, (_, e)) :: l' => addEntry a e;; mergeCreations a l'
  end.

Fixpoint mergeModifications (a : nat) (prev : KeyEntryMap)
    (l : list (LedgerId * (LedgerKey * LedgerEntry))) : M DW () :=
  match l with
  | [] => mret ()
  | (i, (_, e)) :: l' => modEntry a e;; propagatePrevious a prev i;; mergeModifications a prev l'
  end.

(** [mergeEntries]: [other] is a delta different from [a]. *)
Definition mergeEntries (a other : nat) : M DW () :=
  checkState a;;
  o ← theDelta other;
  mergeDeletes a (mPrevious o) (map_asc (mDelete o));;
  mergeCreations a (map_asc (mNew o));;
  mergeModifications a (mPrevious o) (map_asc (mMod o)).

Definition commit (a : nat) : M DW () :=
  checkState a;;
  d ← theDelta a;
  r ← deref (mHeader d);
  h ← readHeader r;
  if negb (bool_decide (mPreviousHeaderValue d = h))
  then throw (RuntimeError "unexpected header state"%string)
  else
    (match mOuterDelta d with
     | Some o =>
         mergeEntries o a;;
         d ← theDelta a;
         modify (putDelta a (set_mOuterDelta None d))
     | None => mret ()
     end);;
    writeHeader r (mCurrentHeader d);;
    d ← theDelta a;
    modify (putDelta a (set_mHeader None d)).

(** [EntryHelperLegacy::flushCachedEntry], through the helper of the type; the
    pointer is null when there is none. *)
Definition flushCachedEntry (k : LedgerKey) : M DW () :=
  if getHelper (key_type k)
  then modify (fun w => set_entryCache (filter (fun p => p.1 <> k) (entryCache w)) w)
  else throw NullDeref.

Fixpoint flushAll (l : list LedgerKey) : M DW () :=
  match l with
  | [] => mret ()
  | k :: l' => flushCachedEntry k;; flushAll l'
  end.

Definition rollback (a : nat) : M DW () :=
  checkState a;;
  d ← theDelta a;
  modify (putDelta a (set_mHeader None d));;
  flushAll (map_asc (mDelete d)).*2;;
  flushAll ((map_asc (mNew d)).*2).*1;;
  flushAll ((map_asc (mMod d)).*2).*1.

(** [~LedgerDeltaImpl], and the object is gone. *)
Definition destroy (a : nat) : M DW () :=
  d ← theDelta a;
  (if bool_decide (mHeader d = None) then mret () else rollback a);;
  modify (dropDelta a).

(** ** Reading a delta *)

Definition addCurrentMeta (d : Delta) (i : LedgerId) : list LedgerEntryChange :=
  match mPrevious d !! i with
  | Some (_, e) =>
      if lastModifiedLedgerSeq e =? ledgerSeq (mCurrentHeader d) then [] else [STATE e]
  | None => []
  end.

Definition getChanges (d : Delta) : list LedgerEntryChange :=
  map (fun p => CREATED p.2.2) (map_asc (mNew d))
  ++ concat (map (fun p => addCurrentMeta d p.1 ++ [UPDATED p.2.2]) (map_asc (mMod d)))
  ++ concat (map (fun p => addCurrentMeta d p.1 ++ [REMOVED p.2]) (map_asc (mDelete d))).

Definition getAllChanges (d : Delta) : list LedgerEntryChange := mAllChanges d.

Definition getLiveEntries (d : Delta) : list LedgerEntry :=
  map (fun p => p.2.2) (map_asc (mNew d)) ++ map (fun p => p.2.2) (map_asc (mMod d)).

Definition getDeadEntries (d : Delta) : list LedgerKey :=
  map snd (map_asc (mDelete d)).

Definition isStateActive (d : Delta) : bool := negb (bool_decide (mHeader d = None)).

End delta.
