(* ===== verification/LedgerDeltaFacts.v ===== *)
(** * Facts on ledger deltas

    What a delta means: a map from the entries of the enclosing scope to those of
    its own ([eff]).  The operations of [LedgerDelta.v] act on it as updates of a
    map do, and merging a delta into the outer one composes their effects. *)

From Stdlib Require Import ZArith Lia String.
From stdpp Require Import base tactics gmap option list.
From S2P Require Import Prelude ScpTypes LedgerTypes LedgerOrder LedgerDelta.

Open Scope Z_scope.

(** The entries of a ledger by identity. *)
Abbreviation Ledger := (gmap LedgerId LedgerEntry) (only parsing).

(** ** The meaning of a delta *)

(** Entries of the scope of [d] when those of the enclosing scope are [L]. *)
Definition eff (d : Delta) (L : Ledger) : Ledger :=
  (snd <$> mNew d) ∪ ((snd <$> mMod d) ∪ filter (fun p => mDelete d !! p.1 = None) L).

(** Playing a list of changes. *)
Definition replay1 `{LedgerExterns} (L : Ledger) (c : LedgerEntryChange) : Ledger :=
  match c with
  | CREATED e | UPDATED e => <[idOf (data e) := e]> L
  | REMOVED k => delete (idOf k) L
  | STATE _ => L
  end.

Definition replay `{LedgerExterns} (cs : list LedgerEntryChange) (L : Ledger) : Ledger :=
  foldl replay1 L cs.

Section facts.
Context `{LedgerExterns} {NDEBUG : bool} {ok : LedgerId -> Prop}.

(** Stored under its identity. *)
Definition stored (i : LedgerId) (p : LedgerKey * LedgerEntry) : Prop :=
  idOf p.1 = i /\ idOf (data p.2) = i.

(** What a delta may hold of one identity, [l] being its entry in the enclosing
    scope: a new entry where there is none, a modified or deleted one where there
    is one, and one of the three at most; and that only of identities that are [ok]. *)
Definition wf_at (i : LedgerId) (n m : option (LedgerKey * LedgerEntry)) (del : option LedgerKey)
    (l : option LedgerEntry) : Prop :=
  match n, m, del with
  | Some p, None, None => stored i p /\ l = None /\ ok i
  | None, Some p, None => stored i p /\ is_Some l /\ ok i
  | None, None, Some k => idOf k = i /\ is_Some l /\ ok i
  | None, None, None => True
  | _, _, _ => False
  end.

Definition wfd (d : Delta) (L : Ledger) : Prop :=
  forall i, wf_at i (mNew d !! i) (mMod d !! i) (mDelete d !! i) (L !! i).

(** [d] turns [L] into [M], and so does the list of all its changes. *)
Definition views (d : Delta) (L M : Ledger) : Prop :=
  wfd d L /\ eff d L = M /\ replay (mAllChanges d) L = M.

(** The members the changes of entries leave alone. *)
Definition same_frame (d d' : Delta) : Prop :=
  mOuterDelta d' = mOuterDelta d /\ mHeader d' = mHeader d /\
  mCurrentHeader d' = mCurrentHeader d /\ mPreviousHeaderValue d' = mPreviousHeaderValue d /\
  mUpdateLastModified d' = mUpdateLastModified d.

#[export] Instance same_frame_refl : Reflexive same_frame.
Proof. intros d. by split_and!. Qed.

#[export] Instance same_frame_trans : Transitive same_frame.
Proof. unfold same_frame. intros ???. naive_solver congruence. Qed.

Lemma eff_lookup d L i : eff d L !! i =
  match mNew d !! i with
  | Some p => Some p.2
  | None => match mMod d !! i with
            | Some p => Some p.2
            | None => match mDelete d !! i with Some _ => None | None => L !! i end
            end
  end.
Proof.
  unfold eff. rewrite !lookup_union, !lookup_fmap, map_lookup_filter.
  destruct (mNew d !! i), (mMod d !! i), (L !! i), (mDelete d !! i) eqn:E; simpl; by simplify_option_eq.
Qed.

Lemma map_assign_lookup k e m i : map_assign k e m !! i =
  if decide (i = idOf k)
  then Some (from_option fst k (m !! idOf k), e) else m !! i.
Proof.
  unfold map_assign. destruct (m !! idOf k) as [[k0 e0]|]; case_decide; subst; by simplify_map_eq.
Qed.

Lemma LedgerEntryKey_eq {W} (e : LedgerEntry) (w : W) : LedgerEntryKey e w = Ret (data e) w.
Proof. unfold LedgerEntryKey. by destruct (data e). Qed.

Lemma putDelta_put a d d' w : putDelta a d' (putDelta a d w) = putDelta a d' w.
Proof. unfold putDelta; simpl. by rewrite insert_insert_eq. Qed.

Lemma putDelta_lookup a d w : deltas (putDelta a d w) !! a = Some d.
Proof. simpl. by rewrite lookup_insert_eq. Qed.

Lemma replay_snoc cs c L : replay (cs ++ [c]) L = replay1 (replay cs L) c.
Proof. unfold replay. by rewrite foldl_app. Qed.

(** ** The operations as functions *)

Definition d_add (e : LedgerEntry) (d : Delta) : Delta :=
  let k := data e in
  push_change (CREATED e) (
    match mDelete d !! idOf k with
    | Some _ => set_entries (mNew d) (map_assign k e (mMod d)) (delete (idOf k) (mDelete d)) d
    | None => set_entries (map_assign k e (mNew d)) (mMod d) (mDelete d) d
    end).

Definition d_delete (k : LedgerKey) (d : Delta) : Delta :=
  push_change (REMOVED k) (
    match mNew d !! idOf k with
    | Some _ => set_entries (delete (idOf k) (mNew d)) (mMod d) (mDelete d) d
    | None => set_entries (mNew d) (delete (idOf k) (mMod d))
        (match mDelete d !! idOf k with
         | None => <[idOf k := k]> (mDelete d) | Some _ => mDelete d end) d
    end).

Definition d_mod (e : LedgerEntry) (d : Delta) : Delta :=
  let k := data e in
  push_change (UPDATED e) (
    match mMod d !! idOf k, mNew d !! idOf k with
    | None, Some _ => set_entries (map_assign k e (mNew d)) (mMod d) (mDelete d) d
    | _, _ => set_entries (mNew d) (map_assign k e (mMod d)) (mDelete d) d
    end).

Definition d_record (e : LedgerEntry) (d : Delta) : Delta :=
  set_mPrevious (map_insert_once (data e) e (mPrevious d)) d.

(** The delta [d] at [a] is open. *)
Definition open_at (w : DW) (a : nat) (d : Delta) : Prop :=
  deltas w !! a = Some d /\ mHeader d <> None.

Ltac run_open Ho :=
  let Hl := fresh "Hl" in let Hh := fresh "Hh" in
  destruct Ho as [Hl Hh];
  unfold checkState, theDelta, deref, get, modify, mbind, M_bind, mret, M_ret;
  rewrite ?Hl; cbn beta iota; destruct (mHeader _) eqn:?; [cbn beta iota|congruence];
  rewrite ?LedgerEntryKey_eq, ?Hl; cbn beta iota.

Lemma addEntry_run a e w d : open_at w a d ->
  mDelete d !! idOf (data e) = None ->
  mNew d !! idOf (data e) = None -> mMod d !! idOf (data e) = None ->
  addEntry NDEBUG a e w = Ret () (putDelta a (d_add e d) w).
Proof.
  intros Ho E1 E2 E3. unfold addEntry, d_add. run_open Ho. rewrite E1, E2, E3. unfold assert_.
  rewrite !bool_decide_eq_true_2, orb_true_r by done. cbn.
  by rewrite lookup_insert_eq, putDelta_put.
Qed.

Lemma addEntry_run_deleted a e w d : open_at w a d ->
  is_Some (mDelete d !! idOf (data e)) ->
  addEntry NDEBUG a e w = Ret () (putDelta a (d_add e d) w).
Proof.
  intros Ho [k E1]. unfold addEntry, d_add. run_open Ho. rewrite E1. cbn.
  by rewrite lookup_insert_eq, putDelta_put.
Qed.

Lemma deleteEntry_run a k w d : open_at w a d ->
  deleteEntry a k w = Ret () (putDelta a (d_delete k d) w).
Proof.
  intros Ho. unfold deleteEntry, d_delete. run_open Ho.
  destruct (mNew d !! idOf k); cbn; by rewrite lookup_insert_eq, putDelta_put.
Qed.

Lemma modEntry_run a e w d : open_at w a d ->
  mDelete d !! idOf (data e) = None ->
  modEntry NDEBUG a e w = Ret () (putDelta a (d_mod e d) w).
Proof.
  intros Ho E1. unfold modEntry, d_mod. run_open Ho. rewrite E1. unfold assert_.
  rewrite bool_decide_eq_true_2, orb_true_r by done.
  destruct (mMod d !! idOf (data e)), (mNew d !! idOf (data e)); cbn;
    by rewrite lookup_insert_eq, putDelta_put.
Qed.

Lemma recordEntry_run a e w d : open_at w a d ->
  recordEntry a e w = Ret () (putDelta a (d_record e d) w).
Proof. intros Ho. unfold recordEntry, d_record. by run_open Ho. Qed.

(** ** The operations as updates of a map *)

(** Everything is decided at the identity that changes. *)
Ltac at_id Hw k :=
  let i := fresh "i" in let Hi := fresh "Hi" in
  intros i; simpl; specialize (Hw i);
  rewrite ?map_assign_lookup; destruct (decide (i = idOf k)) as [Hi|Hi];
  [ subst i; rewrite ?lookup_delete_eq, ?lookup_insert_eq
  | rewrite ?lookup_delete_ne, ?lookup_insert_ne by done ].

(** A change at [idOf k]: [HM] says what the scope has there. *)
Ltac change_at Hw Hr HM k :=
  (split; [split_and!|done]);
  try (simpl; by rewrite replay_snoc, Hr);
  try (apply map_eq; let i := fresh in intros i; rewrite eff_lookup; revert i);
  rewrite eff_lookup in HM; at_id Hw k;
  repeat match goal with E : ?x = Some _ |- _ => rewrite E in * | E : ?x = None |- _ => rewrite E in * end;
  rewrite ?eff_lookup in *; try done; revert Hw HM;
  repeat match goal with
  | |- context [mNew ?d !! ?i] => destruct (mNew d !! i) as [[]|]
  | |- context [mMod ?d !! ?i] => destruct (mMod d !! i) as [[]|]
  | |- context [mDelete ?d !! ?i] => destruct (mDelete d !! i)
  end;
  unfold wf_at, stored in *; simpl in *; (intuition congruence || naive_solver).

Lemma views_add e d L M : ok (idOf (data e)) -> views d L M -> M !! idOf (data e) = None ->
  views (d_add e d) L (<[idOf (data e) := e]> M) /\ same_frame d (d_add e d).
Proof.
  intros Hok (Hw & <- & Hr) HM. unfold d_add.
  destruct (mDelete d !! idOf (data e)) eqn:Ed; change_at Hw Hr HM (data e).
Qed.

Lemma views_delete k d L M : ok (idOf k) -> views d L M -> is_Some (M !! idOf k) ->
  views (d_delete k d) L (delete (idOf k) M) /\ same_frame d (d_delete k d).
Proof.
  intros Hok (Hw & <- & Hr) HM. unfold d_delete.
  destruct (mNew d !! idOf k) eqn:En, (mDelete d !! idOf k) eqn:Ed; change_at Hw Hr HM k.
Qed.

Lemma views_mod e d L M : ok (idOf (data e)) -> views d L M -> is_Some (M !! idOf (data e)) ->
  views (d_mod e d) L (<[idOf (data e) := e]> M) /\ same_frame d (d_mod e d).
Proof.
  intros Hok (Hw & <- & Hr) HM. unfold d_mod.
  destruct (mMod d !! idOf (data e)) eqn:Em, (mNew d !! idOf (data e)) eqn:En;
    change_at Hw Hr HM (data e).
Qed.

Lemma views_record e d L M : views d L M ->
  views (d_record e d) L M /\ same_frame d (d_record e d).
Proof. by intros (Hw & HM & Hr). Qed.

(** [m] updates the delta [d] at [a], whose scope [L] encloses, so that its scope
    becomes [M]. *)
Definition updates (m : M DW ()) (w : DW) (a : nat) (d : Delta) (L M : Ledger) : Prop :=
  exists d', m w = Ret () (putDelta a d' w) /\ same_frame d d' /\ views d' L M.

Lemma addEntry_updates a e w d L M : ok (idOf (data e)) -> open_at w a d -> views d L M ->
  M !! idOf (data e) = None ->
  updates (addEntry NDEBUG a e) w a d L (<[idOf (data e) := e]> M).
Proof.
  intros Hok Ho Hv HM. destruct (views_add e d L M Hok Hv HM). exists (d_add e d). split; [|done].
  destruct Hv as (Hw & <- & _). rewrite eff_lookup in HM. specialize (Hw (idOf (data e))).
  destruct (mDelete d !! idOf (data e)) eqn:Ed; [by apply addEntry_run_deleted|].
  destruct (mNew d !! _) eqn:?, (mMod d !! _) eqn:?; try done. by apply addEntry_run.
Qed.

Lemma deleteEntry_updates a k w d L M : ok (idOf k) -> open_at w a d -> views d L M ->
  is_Some (M !! idOf k) ->
  updates (deleteEntry a k) w a d L (delete (idOf k) M).
Proof.
  intros Hok Ho Hv HM. destruct (views_delete k d L M Hok Hv HM). exists (d_delete k d).
  split; [by apply deleteEntry_run|done].
Qed.

Lemma modEntry_updates a e w d L M : ok (idOf (data e)) -> open_at w a d -> views d L M ->
  is_Some (M !! idOf (data e)) ->
  updates (modEntry NDEBUG a e) w a d L (<[idOf (data e) := e]> M).
Proof.
  intros Hok Ho Hv HM. destruct (views_mod e d L M Hok Hv HM). exists (d_mod e d). split; [|done].
  apply modEntry_run; [done|].
  destruct Hv as (Hw & <- & _). rewrite eff_lookup in HM. specialize (Hw (idOf (data e))).
  destruct (mNew d !! _), (mMod d !! _), (mDelete d !! _); by try destruct HM.
Qed.

Lemma recordEntry_updates a e w d L M : open_at w a d -> views d L M ->
  updates (recordEntry a e) w a d L M.
Proof.
  intros Ho Hv. destruct (views_record e d L M Hv). exists (d_record e d).
  split; [by apply recordEntry_run|done].
Qed.

Lemma skip_updates w a d L M : open_at w a d -> views d L M ->
  updates (mret ()) w a d L M.
Proof.
  intros [Hl _] Hv. exists d. split_and!; try done. unfold putDelta. rewrite insert_id by done.
  by destruct w.
Qed.

(** Updates one after the other. *)
Lemma updates_bind m1 m2 w a d L M1 M2 : open_at w a d ->
  updates m1 w a d L M1 ->
  (forall d', open_at (putDelta a d' w) a d' -> views d' L M1 ->
    updates m2 (putDelta a d' w) a d' L M2) ->
  updates (m1;; m2) w a d L M2.
Proof.
  intros [Hl Hh] (d1 & E1 & F1 & V1) H2.
  destruct (H2 d1) as (d2 & E2 & F2 & V2); [|done|].
  { split; [apply putDelta_lookup|]. destruct F1 as (_ & -> & _). done. }
  exists d2. split_and!; [|by trans d1|done].
  unfold mbind, M_bind. rewrite E1. cbn beta iota. rewrite E2. by rewrite putDelta_put.
Qed.

(** ** Merging *)

Lemma propagatePrevious_updates a prev i w d L M : open_at w a d -> views d L M ->
  updates (propagatePrevious a prev i) w a d L M.
Proof.
  intros Ho Hv. unfold propagatePrevious.
  destruct (prev !! i) as [[]|]; [by apply recordEntry_updates|by apply skip_updates].
Qed.

Definition dels (l : list (LedgerId * LedgerKey)) (M : Ledger) : Ledger :=
  foldl (fun M p => delete (idOf p.2) M) M l.

Definition puts (l : list (LedgerId * (LedgerKey * LedgerEntry))) (M : Ledger) : Ledger :=
  foldl (fun M p => <[idOf (data p.2.2) := p.2.2]> M) M l.

Lemma mergeDeletes_updates a prev l w d L M : open_at w a d -> views d L M ->
  NoDup l.*1 -> (forall i k, (i, k) ∈ l -> idOf k = i /\ is_Some (M !! i) /\ ok i) ->
  updates (mergeDeletes a prev l) w a d L (dels l M).
Proof.
  revert w d M. induction l as [|[i k] l IH]; intros w d M Ho Hv Hnd Hl; simpl.
  { by apply skip_updates. }
  apply NoDup_cons in Hnd as [Hi Hnd].
  destruct (Hl i k) as (Hk & HM & Hok); [left|]. subst i.
  eapply updates_bind; [done|by apply deleteEntry_updates|]. intros d1 Ho1 Hv1.
  eapply updates_bind; [done|by apply propagatePrevious_updates|]. intros d2 Ho2 Hv2.
  apply IH; [done..|]. intros j k' Hj. destruct (Hl j k') as (? & ? & ?); [by right|].
  split_and!; [done| |done]. rewrite lookup_delete_ne; [done|]. intros <-. apply Hi.
  apply list_elem_of_fmap. by exists (idOf k, k').
Qed.

Lemma mergeCreations_updates a l w d L M : open_at w a d -> views d L M ->
  NoDup l.*1 -> (forall i p, (i, p) ∈ l -> stored i p /\ M !! i = None /\ ok i) ->
  updates (mergeCreations NDEBUG a l) w a d L (puts l M).
Proof.
  revert w d M. induction l as [|[i [k e]] l IH]; intros w d M Ho Hv Hnd Hl; simpl.
  { by apply skip_updates. }
  apply NoDup_cons in Hnd as [Hi Hnd].
  destruct (Hl i (k, e)) as ([Hk He] & HM & Hok); [left|]. simpl in He. clear Hk. subst i.
  eapply updates_bind; [done|by apply addEntry_updates|]. intros d1 Ho1 Hv1.
  apply IH; [done..|]. intros j p Hj. destruct (Hl j p) as (? & ? & ?); [by right|].
  split_and!; [done| |done]. rewrite lookup_insert_ne; [done|]. intros Heq. apply Hi. rewrite Heq.
  apply list_elem_of_fmap. by exists (j, p).
Qed.

Lemma mergeModifications_updates a prev l w d L M : open_at w a d -> views d L M ->
  (forall i p, (i, p) ∈ l -> stored i p /\ is_Some (M !! i) /\ ok i) ->
  updates (mergeModifications NDEBUG a prev l) w a d L (puts l M).
Proof.
  revert w d M. induction l as [|[i [k e]] l IH]; intros w d M Ho Hv Hl; simpl.
  { by apply skip_updates. }
  destruct (Hl i (k, e)) as ([Hk He] & HM & Hok); [left|]. simpl in He. clear Hk. subst i.
  eapply updates_bind; [done|by apply modEntry_updates|]. intros d1 Ho1 Hv1.
  eapply updates_bind; [done|by apply propagatePrevious_updates|]. intros d2 Ho2 Hv2.
  apply IH; [done..|]. intros j p Hj. destruct (Hl j p) as (? & ? & ?); [by right|].
  split_and!; [done| |done]. destruct (decide (idOf (data e) = j)) as [<-|Hne];
    [by rewrite lookup_insert_eq|by rewrite lookup_insert_ne].
Qed.

Lemma dels_lookup l M i : (forall j k, (j, k) ∈ l -> idOf k = j) ->
  dels l M !! i = if decide (i ∈ l.*1) then None else M !! i.
Proof.
  revert M. induction l as [|[j k] l IH]; intros M Hl; [done|].
  cbn [dels foldl fst snd fmap list_fmap]. fold (dels l (delete (idOf k) M)).
  rewrite IH by (intros; apply Hl; by right). rewrite (Hl j k) by left.
  destruct (decide (i ∈ l.*1)), (decide (i ∈ j :: l.*1)) as [Hc|Hc]; try done.
  - destruct Hc. by right.
  - apply elem_of_cons in Hc as [->|?]; [by rewrite lookup_delete_eq|done].
  - rewrite lookup_delete_ne; [done|]. intros ->. apply Hc. left.
Qed.

Lemma puts_lookup l M i : NoDup l.*1 -> (forall j p, (j, p) ∈ l -> stored j p) ->
  puts l M !! i = match list_to_map (M := gmap LedgerId _) l !! i with
                  | Some p => Some p.2 | None => M !! i end.
Proof.
  revert M. induction l as [|[j p] l IH]; intros M Hnd Hl; simpl; [done|].
  apply NoDup_cons in Hnd as [Hj Hnd].
  rewrite IH by (try done; intros; apply Hl; by right).
  destruct (Hl j p) as [_ Hp]; [left|]. rewrite Hp.
  destruct (decide (j = i)) as [->|Hne]; [|by rewrite !lookup_insert_ne].
  by rewrite not_elem_of_list_to_map_1, !lookup_insert_eq.
Qed.

Lemma map_asc_to_map {V} (m : gmap LedgerId V) : list_to_map (map_asc m) = m.
Proof.
  apply map_eq. intros i. apply option_eq. intros v.
  rewrite <- elem_of_list_to_map by apply NoDup_map_asc. apply elem_of_map_asc.
Qed.

Lemma map_asc_dom {V} (m : gmap LedgerId V) i : i ∈ (map_asc m).*1 <-> is_Some (m !! i).
Proof.
  rewrite list_elem_of_fmap. split.
  - intros ([j v] & -> & Hj). apply elem_of_map_asc in Hj. by exists v.
  - intros [v Hv]. exists (i, v). by rewrite elem_of_map_asc.
Qed.

(** Playing the deletions, the creations and the modifications of a delta. *)
Lemma merge_eff d M : wfd d M ->
  puts (map_asc (mMod d)) (puts (map_asc (mNew d)) (dels (map_asc (mDelete d)) M)) = eff d M.
Proof.
  intros Hw. apply map_eq. intros i. rewrite eff_lookup.
  assert (Hs : forall j p, mNew d !! j = Some p \/ mMod d !! j = Some p -> stored j p).
  { intros j p. specialize (Hw j). unfold wf_at in Hw.
    destruct (mNew d !! j), (mMod d !! j), (mDelete d !! j); naive_solver. }
  assert (Hk : forall j k, mDelete d !! j = Some k -> idOf k = j).
  { intros j k E. specialize (Hw j). unfold wf_at in Hw. rewrite E in Hw.
    destruct (mNew d !! j), (mMod d !! j); naive_solver. }
  rewrite !puts_lookup, !map_asc_to_map, dels_lookup;
    try apply NoDup_map_asc; try (intros j p Hj; apply elem_of_map_asc in Hj; by eauto).
  specialize (Hw i). case_decide as Hd; rewrite map_asc_dom in Hd;
    destruct (mNew d !! i), (mMod d !! i), (mDelete d !! i); try done; by destruct Hd.
Qed.

Lemma wfd_new d L i p : wfd d L -> mNew d !! i = Some p ->
  stored i p /\ L !! i = None /\ mMod d !! i = None /\ mDelete d !! i = None /\ ok i.
Proof.
  intros Hw E. specialize (Hw i). unfold wf_at in Hw. rewrite E in Hw.
  destruct (mMod d !! i), (mDelete d !! i); naive_solver.
Qed.

Lemma wfd_mod d L i p : wfd d L -> mMod d !! i = Some p ->
  stored i p /\ is_Some (L !! i) /\ mNew d !! i = None /\ mDelete d !! i = None /\ ok i.
Proof.
  intros Hw E. specialize (Hw i). unfold wf_at in Hw. rewrite E in Hw.
  destruct (mNew d !! i), (mDelete d !! i); naive_solver.
Qed.

Lemma wfd_del d L i k : wfd d L -> mDelete d !! i = Some k ->
  idOf k = i /\ is_Some (L !! i) /\ mNew d !! i = None /\ mMod d !! i = None /\ ok i.
Proof.
  intros Hw E. specialize (Hw i). unfold wf_at in Hw. rewrite E in Hw.
  destruct (mNew d !! i), (mMod d !! i); naive_solver.
Qed.

Lemma checkState_run a w d : open_at w a d -> checkState a w = Ret () w.
Proof. intros Ho. by run_open Ho. Qed.

Lemma theDelta_bind {A} a w d (k : Delta -> M DW A) : deltas w !! a = Some d ->
  (x ← theDelta a; k x) w = k d w.
Proof. intros E. unfold theDelta, deref, get, mbind, M_bind. by rewrite E. Qed.

Lemma checkState_bind {A} a w d (k : M DW A) : open_at w a d -> (checkState a;; k) w = k w.
Proof. intros Ho. unfold mbind at 1, M_bind at 1. by rewrite (checkState_run _ _ _ Ho). Qed.

Lemma updates_ext m m' w a d L M : m w = m' w -> updates m' w a d L M -> updates m w a d L M.
Proof. unfold updates. by intros ->. Qed.

Lemma mergeEntries_updates a b w da db L M : open_at w a da -> views da L M ->
  deltas w !! b = Some db -> wfd db M ->
  updates (mergeEntries NDEBUG a b) w a da L (eff db M).
Proof.
  intros Ho Hv Hb Hw. rewrite <- merge_eff by done. unfold mergeEntries.
  eapply updates_ext; [rewrite (checkState_bind _ _ da) by done; by apply theDelta_bind|].
  eapply updates_bind; [done|apply mergeDeletes_updates; try done|intros d1 Ho1 Hv1].
  - apply NoDup_map_asc.
  - intros i k Hi%elem_of_map_asc. by destruct (wfd_del _ _ _ _ Hw Hi) as (? & ? & ? & ? & ?).
  - eapply updates_bind; [done|apply mergeCreations_updates; try done|intros d2 Ho2 Hv2].
    + apply NoDup_map_asc.
    + intros i p Hi%elem_of_map_asc.
      destruct (wfd_new _ _ _ _ Hw Hi) as (? & ? & ? & ? & ?). split_and!; [done| |done].
      rewrite dels_lookup; [by case_decide|]. intros j k Hj%elem_of_map_asc.
      by destruct (wfd_del _ _ _ _ Hw Hj).
    + apply mergeModifications_updates; [done..|]. intros i p Hi%elem_of_map_asc.
      destruct (wfd_mod _ _ _ _ Hw Hi) as (? & ? & Hn & Hd & ?). split_and!; [done| |done].
      rewrite puts_lookup, map_asc_to_map, Hn, dels_lookup.
      * rewrite decide_False; [done|]. rewrite map_asc_dom, Hd. by intros [].
      * intros j k Hj%elem_of_map_asc. by destruct (wfd_del _ _ _ _ Hw Hj).
      * apply NoDup_map_asc.
      * intros j q Hj%elem_of_map_asc. by destruct (wfd_new _ _ _ _ Hw Hj).
Qed.

(** ** The end of a scope *)

(** The monad and the accesses, without the arithmetic around them. *)
Ltac run :=
  cbv beta iota delta [mbind M_bind deref readHeader mret M_ret get modify writeHeader theDelta];
  cbn [deltas putDelta set_rootHeader dropDelta].

Lemma commit_root b w db : deltas w !! b = Some db ->
  mHeader db = Some RootHeader -> mOuterDelta db = None ->
  mPreviousHeaderValue db = rootHeader w ->
  commit NDEBUG b w =
    Ret () (putDelta b (set_mHeader None db) (set_rootHeader (mCurrentHeader db) w)).
Proof.
  intros Hb Hh Ho Hp. unfold commit. rewrite (checkState_bind _ _ db) by (split; [done|congruence]).
  rewrite (theDelta_bind _ _ db), Hh, Ho by done. run.
  rewrite bool_decide_eq_true_2 by done. cbn [negb]. by rewrite Hb.
Qed.

Lemma commit_nested a b w da db L M : a <> b ->
  deltas w !! b = Some db -> mHeader db = Some (HeaderOf a) -> mOuterDelta db = Some a ->
  open_at w a da -> views da L M -> wfd db M -> mPreviousHeaderValue db = mCurrentHeader da ->
  exists da' db', same_frame da da' /\ views da' L (eff db M) /\ mHeader db' = None /\
    commit NDEBUG b w =
      Ret () (putDelta b db' (putDelta a (set_mCurrentHeader (mCurrentHeader db) da') w)).
Proof.
  intros Hab Hb Hh Ho Hoa Hv Hw Hp.
  destruct (mergeEntries_updates a b w da db L M Hoa Hv Hb Hw) as (da' & E & Hf & Hv').
  exists da', (set_mHeader None (set_mOuterDelta None db)). split_and!; try done.
  unfold commit. rewrite (checkState_bind _ _ db) by (split; [done|congruence]).
  rewrite (theDelta_bind _ _ db), Hh, Ho by done. destruct Hoa as [Hla Hha].
  run. rewrite Hla. run. rewrite bool_decide_eq_true_2 by done. cbn [negb]. rewrite E. run.
  rewrite lookup_insert_ne, Hb by done. run.
  rewrite lookup_insert_ne, lookup_insert_eq by done. run.
  rewrite lookup_insert_ne, lookup_insert_eq by done.
  unfold putDelta; cbn. do 2 f_equal. apply map_eq. intros i.
  destruct (decide (i = a)), (decide (i = b)); subst; simplify_map_eq; done.
Qed.

(** [rollback] flushes the keys the delta has touched. *)
Definition touchedKeys (d : Delta) : list LedgerKey :=
  (map_asc (mDelete d)).*2 ++ ((map_asc (mNew d)).*2).*1 ++ ((map_asc (mMod d)).*2).*1.

Definition flushed (ks : list LedgerKey) (c : EntryCache) : EntryCache :=
  filter (fun p => p.1 ∉ ks) c.

Lemma flushed_nil c : flushed [] c = c.
Proof.
  unfold flushed. induction c as [|p c IH]; [done|].
  by rewrite filter_cons_True, IH by apply not_elem_of_nil.
Qed.

Lemma flushed_app ks ks' c : flushed ks' (flushed ks c) = flushed (ks ++ ks') c.
Proof.
  unfold flushed. rewrite list_filter_filter. apply list_filter_iff.
  intros p. rewrite not_elem_of_app. tauto.
Qed.

Lemma flushAll_run ks w : Forall (fun k => getHelper (key_type k) = true) ks ->
  flushAll ks w = Ret () (set_entryCache (flushed ks (entryCache w)) w).
Proof.
  intros Hk. revert w. induction Hk as [|k ks Hk Hks IH]; intros w; cbn [flushAll].
  - rewrite flushed_nil. by destruct w.
  - unfold flushCachedEntry. rewrite Hk. run. rewrite IH. unfold set_entryCache; cbn.
    do 2 f_equal. unfold flushed. rewrite list_filter_filter. apply list_filter_iff.
    intros p. rewrite not_elem_of_cons. tauto.
Qed.

Lemma rollback_run a w d : open_at w a d ->
  Forall (fun k => getHelper (key_type k) = true) (touchedKeys d) ->
  rollback a w = Ret () (set_entryCache (flushed (touchedKeys d) (entryCache w))
    (putDelta a (set_mHeader None d) w)).
Proof.
  intros Ho. unfold touchedKeys. rewrite !Forall_app. intros (H1 & H2 & H3).
  unfold rollback. rewrite (checkState_bind _ _ d), (theDelta_bind _ _ d) by first [done|apply Ho].
  run. rewrite !flushAll_run by done.
  unfold set_entryCache; cbn [entryCache deltas rootHeader putDelta].
  by rewrite !flushed_app.
Qed.

End facts.
