(* ===== verification/LedgerDeltaTheorems.v ===== *)
(** * Theorems on ledger deltas

    Nested deltas implement a stack of ledgers ([deltas_refine_ledgers]): the
    specification keeps, for every open scope, the entries and the header as that
    scope sees them.  The three ways a delta is read, as a batch of live and dead
    entries, as the metadata of a transaction and as the list of all changes, are
    its effect. *)

From Stdlib Require Import ZArith Lia String.
From stdpp Require Import base tactics gmap option list.
From S2P Require Import Prelude ScpTypes LedgerTypes LedgerOrder LedgerDelta LedgerDeltaFacts.

Open Scope Z_scope.

(** ** The specification: a stack of ledgers *)

(** What the owner of the innermost scope can do. *)
Inductive scope_op :=
| OAdd (e : LedgerEntry)
| OMod (e : LedgerEntry)
| ODelete (k : LedgerKey)
| ORecord (e : LedgerEntry)
| OHeader (f : LedgerHeader -> LedgerHeader)
| OBegin
| OCommit
| OAbort.

Abbreviation Scope := (gmap LedgerId LedgerEntry * LedgerHeader)%type (only parsing).

Section spec.
Context `{LedgerExterns}.

(** The innermost scope is first, the last element is the ledger itself.  [None]:
    the owner adds an entry that is there, or changes one that is not. *)
Definition spec_step (op : scope_op) (s : list Scope) : option (list Scope) :=
  match op, s with
  | OBegin, (L, h) :: s' => Some ((L, h) :: (L, h) :: s')
  | OAdd e, (L, h) :: o :: s' =>
      if decide (L !! idOf (data e) = None)
      then Some ((<[idOf (data e) := e]> L, h) :: o :: s') else None
  | OMod e, (L, h) :: o :: s' =>
      if decide (L !! idOf (data e) = None)
      then None else Some ((<[idOf (data e) := e]> L, h) :: o :: s')
  | ODelete k, (L, h) :: o :: s' =>
      if decide (L !! idOf k = None) then None else Some ((delete (idOf k) L, h) :: o :: s')
  | ORecord _, _ :: _ :: _ => Some s
  | OHeader f, (L, h) :: o :: s' => Some ((L, f h) :: o :: s')
  | OCommit, t :: _ :: s' => Some (t :: s')
  | OAbort, _ :: o :: s' => Some (o :: s')
  | _, _ => None
  end.

Fixpoint spec_run (ops : list scope_op) (s : list Scope) : option (list Scope) :=
  match ops with
  | [] => Some s
  | op :: ops' => spec_step op s ≫= spec_run ops'
  end.

(** The identity an operation changes. *)
Definition op_id (op : scope_op) : option LedgerId :=
  match op with
  | OAdd e | OMod e => Some (idOf (data e))
  | ODelete k => Some (idOf k)
  | _ => None
  end.

End spec.

(** ** The implementation

    The [n] open deltas are at the addresses below [n], each nested in the one
    before; scopes end with the destructor of their delta. *)

Section impl.
Context `{LedgerExterns} (NDEBUG : bool).

(** [f] applied to [getHeader()]. *)
Definition editHeader (a : nat) (f : LedgerHeader -> LedgerHeader) : M DW () :=
  d ← theDelta a;
  modify (putDelta a (set_mCurrentHeader (f (mCurrentHeader d)) d)).

Definition impl_step (op : scope_op) (n : nat) : M DW nat :=
  match op, n with
  | OBegin, O => newRoot O true;; mret 1%nat
  | OBegin, S a => newNested n a;; mret (S n)
  | OAdd e, S a => addEntry NDEBUG a e;; mret n
  | OMod e, S a => modEntry NDEBUG a e;; mret n
  | ODelete k, S a => deleteEntry a k;; mret n
  | ORecord e, S a => recordEntry a e;; mret n
  | OHeader f, S a => editHeader a f;; mret n
  | OCommit, S a => commit NDEBUG a;; destroy a;; mret a
  | OAbort, S a => destroy a;; mret a
  | _, O => throw NullDeref
  end.

Fixpoint impl_run (ops : list scope_op) (n : nat) : M DW nat :=
  match ops with
  | [] => mret n
  | op :: ops' => n' ← impl_step op n; impl_run ops' n'
  end.

End impl.

(** ** Refinement *)

Section refinement.
Context `{LedgerExterns} {NDEBUG : bool}.

(** Types of entries with a legacy helper. *)
Definition legacy (i : LedgerId) : Prop := getHelper i.1 = true.

Definition headerRef (a : nat) : HeaderRef :=
  match a with O => RootHeader | S o => HeaderOf o end.

Definition outerOf (a : nat) : option nat :=
  match a with O => None | S o => Some o end.

(** The delta [d] at [a] is the scope [t] inside the scope [o]. *)
Definition scope_rel (a : nat) (d : Delta) (t o : Scope) : Prop :=
  mHeader d = Some (headerRef a) /\ mOuterDelta d = outerOf a /\
  mCurrentHeader d = t.2 /\ mPreviousHeaderValue d = o.2 /\
  views (ok := legacy) d o.1 t.1.

Fixpoint refines (w : DW) (n : nat) (s : list Scope) : Prop :=
  match n, s with
  | O, [(_, h)] => rootHeader w = h
  | S a, t :: s' =>
      (exists d o, deltas w !! a = Some d /\ head s' = Some o /\ scope_rel a d t o) /\ refines w a s'
  | _, _ => False
  end.

Lemma refines_cons w a d t o s : deltas w !! a = Some d -> head s = Some o ->
  scope_rel a d t o -> refines w a s -> refines w (S a) (t :: s).
Proof. intros ????. split; [|done]. by exists d, o. Qed.

Lemma refines_uncons w a t s : refines w (S a) (t :: s) ->
  exists d o, deltas w !! a = Some d /\ head s = Some o /\ scope_rel a d t o /\ refines w a s.
Proof. intros [(d & o & ? & ? & ?) ?]. by exists d, o. Qed.

Lemma refines_frame w w' n s : rootHeader w' = rootHeader w ->
  (forall a, (a < n)%nat -> deltas w' !! a = deltas w !! a) ->
  refines w n s -> refines w' n s.
Proof.
  intros Hr. revert s. induction n as [|a IH]; intros s Hd; simpl.
  - destruct s as [|[]]; [done|]. destruct s; [by intros <-|done].
  - destruct s as [|t s]; [done|]. intros [(d & o & Hl & Ho) Hs]. split.
    + exists d, o. by rewrite Hd by lia.
    + apply IH; [|done]. intros b Hb. apply Hd. lia.
Qed.

(** Changing the innermost delta leaves the enclosing scopes as they are. *)
Lemma refines_below w a d s : refines w a s -> refines (putDelta a d w) a s.
Proof.
  apply refines_frame; [done|]. intros b Hb. simpl. rewrite lookup_insert_ne by lia. done.
Qed.

Lemma refines_drop w a s : refines w a s -> refines (dropDelta a w) a s.
Proof.
  apply refines_frame; [done|]. intros b Hb. simpl. rewrite lookup_delete_ne by lia. done.
Qed.

(** A change of the entries of the innermost scope. *)
Lemma update_refines m w a d t o s L' :
  deltas w !! a = Some d -> scope_rel a d t o -> head s = Some o -> refines w a s ->
  updates (ok := legacy) m w a d o.1 L' ->
  exists w', (m;; mret (S a)) w = Ret (S a) w' /\ refines w' (S a) ((L', t.2) :: s).
Proof.
  intros Hl (Hh & Ho & Hc & Hp & Hv) Hs Hr (d' & E & (F1 & F2 & F3 & F4 & F5) & Hv').
  eexists. split; [unfold mbind, M_bind; by rewrite E|].
  eapply refines_cons; [apply putDelta_lookup|done| |by apply refines_below].
  unfold scope_rel. simpl. by rewrite F1, F2, F3, F4.
Qed.

Lemma destroy_closed a w d : deltas w !! a = Some d -> mHeader d = None ->
  destroy a w = Ret () (dropDelta a w).
Proof.
  intros Hl Hh. unfold destroy. rewrite (theDelta_bind _ _ d) by done.
  by rewrite bool_decide_eq_true_2.
Qed.

Lemma touched_legacy d L M : views (ok := legacy) d L M ->
  Forall (fun k => getHelper (key_type k) = true) (touchedKeys d).
Proof.
  intros (Hw & _ & _). unfold touchedKeys. rewrite !Forall_app.
  split_and!; apply Forall_forall; intros k Hk.
  - apply list_elem_of_fmap in Hk as ([i k'] & -> & Hk%elem_of_map_asc).
    by destruct (wfd_del _ _ _ _ Hw Hk) as (<- & _ & _ & _ & ?).
  - apply list_elem_of_fmap in Hk as ([k' e] & -> & Hk).
    apply list_elem_of_fmap in Hk as ([i p] & -> & Hk%elem_of_map_asc).
    by destruct (wfd_new _ _ _ _ Hw Hk) as ([<- _] & _ & _ & _ & ?).
  - apply list_elem_of_fmap in Hk as ([k' e] & -> & Hk).
    apply list_elem_of_fmap in Hk as ([i p] & -> & Hk%elem_of_map_asc).
    by destruct (wfd_mod _ _ _ _ Hw Hk) as ([<- _] & _ & _ & _ & ?).
Qed.

Lemma destroy_open a w d L M : open_at w a d -> views (ok := legacy) d L M ->
  exists c, destroy a w = Ret () (dropDelta a (set_entryCache c (putDelta a (set_mHeader None d) w))).
Proof.
  intros Ho Hv. eexists. unfold destroy.
  rewrite (theDelta_bind _ _ d), bool_decide_eq_false_2 by apply Ho.
  unfold mbind, M_bind. rewrite (rollback_run _ _ d) by (done || by eapply touched_legacy). done.
Qed.

Lemma views_fresh d L : mNew d = ∅ -> mMod d = ∅ -> mDelete d = ∅ -> mAllChanges d = [] ->
  views (ok := legacy) d L L.
Proof.
  intros E1 E2 E3 E4. split_and!.
  - intros i. by rewrite E1, E2, E3, !lookup_empty.
  - apply map_eq. intros i. by rewrite eff_lookup, E1, E2, E3, !lookup_empty.
  - by rewrite E4.
Qed.

Lemma begin_refines w n L h s : refines w n ((L, h) :: s) ->
  exists w', impl_step NDEBUG OBegin n w = Ret (S n) w' /\
    refines w' (S n) ((L, h) :: (L, h) :: s).
Proof.
  intros Hr. assert (Hv : forall d, mNew d = ∅ -> mMod d = ∅ -> mDelete d = ∅ ->
    mAllChanges d = [] -> views (ok := legacy) d L L) by (intros; by apply views_fresh).
  destruct n as [|a]; unfold impl_step.
  - simpl in Hr. destruct s; [|done]. eexists. split; [done|].
    eapply refines_cons; [apply putDelta_lookup|done| |done].
    unfold scope_rel; simpl. split_and!; try done. by apply Hv.
  - assert (Hr' := Hr). apply refines_uncons in Hr' as (d & o & Hl & Ho & Hs & _).
    eexists. unfold newNested.
    split; [unfold mbind at 1, M_bind at 1; rewrite (theDelta_bind _ _ d) by done; done|].
    eapply refines_cons; [apply putDelta_lookup|done| |by apply refines_below].
    destruct Hs as (Hh & Hu & Hc & Hp & Hvs). simpl in Hc.
    unfold scope_rel; simpl. split_and!; try done. by apply Hv.
Qed.

Lemma commit_refines w a t o s : refines w (S a) (t :: o :: s) ->
  exists w', impl_step NDEBUG OCommit (S a) w = Ret a w' /\ refines w' a (t :: s).
Proof.
  intros (d & o' & Hl & [= <-] & (Hh & Ho & Hc & Hp & Hv) & Hr)%refines_uncons.
  assert (Hw := Hv). destruct Hw as (Hw & He & _). unfold impl_step.
  destruct a as [|b].
  - simpl in Hr. destruct o as [L h0], s; try done. eexists.
    unfold mbind at 1, M_bind at 1. rewrite (commit_root _ _ d) by (try done; by rewrite Hp).
    cbn beta iota. unfold mbind, M_bind. erewrite destroy_closed; [|apply putDelta_lookup|done].
    split; [done|]. simpl. by destruct t.
  - apply refines_uncons in Hr as (da & o' & Hla & Hs & (Hha & Hoa & Hca & Hpa & Hva) & Hr).
    assert (Hopen : open_at w b da) by (split; [done|congruence]).
    destruct (commit_nested (NDEBUG := NDEBUG) (ok := legacy) b (S b) w da d o'.1 o.1)
      as (da' & db' & (F1 & F2 & F3 & F4 & F5) & Hv' & Hnone & E); try done; [congruence|].
    eexists. unfold mbind at 1, M_bind at 1. rewrite E. cbn beta iota. unfold mbind, M_bind.
    erewrite destroy_closed; [|apply putDelta_lookup|done]. split; [done|].
    apply refines_drop, refines_below.
    eapply refines_cons; [apply putDelta_lookup|done| |by apply refines_below].
    unfold scope_rel; simpl. rewrite F1, F2, F4. rewrite He in Hv'. by destruct Hv'.
Qed.

Lemma abort_refines w a t o s : refines w (S a) (t :: o :: s) ->
  exists w', impl_step NDEBUG OAbort (S a) w = Ret a w' /\ refines w' a (o :: s).
Proof.
  intros (d & o' & Hl & [= <-] & (Hh & Ho & Hc & Hp & Hv) & Hr)%refines_uncons. unfold impl_step.
  destruct (destroy_open a w d o.1 t.1) as [c E]; [by split; [|congruence]|done|].
  eexists. unfold mbind, M_bind. rewrite E. split; [done|]. apply refines_drop.
  apply (refines_frame (putDelta a (set_mHeader None d) w)); try done. by apply refines_below.
Qed.

Lemma header_refines w a L h o s f : refines w (S a) ((L, h) :: o :: s) ->
  exists w', impl_step NDEBUG (OHeader f) (S a) w = Ret (S a) w' /\
    refines w' (S a) ((L, f h) :: o :: s).
Proof.
  intros (d & o' & Hl & [= <-] & (Hh & Ho & Hc & Hp & Hv) & Hr)%refines_uncons. unfold impl_step, editHeader.
  eexists. unfold mbind at 1, M_bind at 1. rewrite (theDelta_bind _ _ d) by done.
  split; [done|].
  eapply refines_cons; [apply putDelta_lookup|done| |by apply refines_below].
  unfold scope_rel; simpl. simpl in Hc. rewrite Hc. by destruct Hv.
Qed.

(** One operation of the owner of the innermost scope. *)
Lemma step_refines op w n s s' : refines w n s -> spec_step op s = Some s' ->
  (forall i, op_id op = Some i -> legacy i) ->
  exists n' w', impl_step NDEBUG op n w = Ret n' w' /\ refines w' n' s'.
Proof.
  intros Hr Hs Hl.
  destruct op, s as [|[L h] [|o s]]; try discriminate Hs;
    (destruct n as [|a]; [done||idtac|]); cbn in Hs;
    try (case_decide as HL; [|]); simplify_eq;
    try (destruct (begin_refines _ _ _ _ _ Hr) as (? & ? & ?); by eauto);
    try (destruct (commit_refines _ _ _ _ _ Hr) as (? & ? & ?); by eauto);
    try (destruct (abort_refines _ _ _ _ _ Hr) as (? & ? & ?); by eauto);
    try (destruct (header_refines _ _ _ _ _ _ f Hr) as (? & ? & ?); by eauto).
  all: apply refines_uncons in Hr as (d & o' & Hd & [= <-] & Hsc & Hr);
    assert (Ho : open_at w a d) by (split; [done|by rewrite (proj1 Hsc)]);
    assert (Hv := Hsc); destruct Hv as (_ & _ & _ & _ & Hv);
    eexists _; eapply (update_refines _ w a d (L, h) o (o :: s)); try done.
  - apply addEntry_updates; auto.
  - apply modEntry_updates; auto. by apply not_eq_None_Some.
  - apply deleteEntry_updates; auto. by apply not_eq_None_Some.
  - by apply recordEntry_updates.
Qed.

Lemma run_refines ops w n s s' : refines w n s -> spec_run ops s = Some s' ->
  Forall (fun op => forall i, op_id op = Some i -> legacy i) ops ->
  exists n' w', impl_run NDEBUG ops n w = Ret n' w' /\ refines w' n' s'.
Proof.
  revert w n s. induction ops as [|op ops IH]; intros w n s Hr Hs Hf; simpl in *.
  { simplify_eq. by exists n, w. }
  apply Forall_cons in Hf as [Hop Hf].
  destruct (spec_step op s) as [s1|] eqn:E1; [|done].
  destruct (step_refines op w n s s1) as (n1 & w1 & E & Hr1); [done..|].
  unfold mbind, M_bind. rewrite E. by apply IH with s1.
Qed.

(** C4. Nested deltas implement a stack of ledgers.  Whatever the owners of the
    scopes do, as long as they add only entries that are absent and change only
    entries that are present, no call throws or fails an assertion; an operation
    changes the innermost scope only, a commit makes the enclosing scope (in the
    end the ledger and its header) what the inner one was, and a rollback leaves
    the enclosing scope as it was when the inner one began.  This is for entries
    whose type has a legacy helper. *)
Theorem deltas_refine_ledgers ops w n s s' : refines w n s -> spec_run ops s = Some s' ->
  Forall (fun op => forall i, op_id op = Some i -> legacy i) ops ->
  exists n' w', impl_run NDEBUG ops n w = Ret n' w' /\ refines w' n' s'.
Proof. apply run_refines. Qed.

(** ** Reading a delta *)

(** A batch of entries, the way the list of buckets understands it. *)
Definition applyBatch (live : list LedgerEntry) (dead : list LedgerKey)
    (L : gmap LedgerId LedgerEntry) : gmap LedgerId LedgerEntry :=
  foldl (fun L k => delete (idOf k) L) (foldl (fun L e => <[idOf (data e) := e]> L) L live) dead.

Lemma foldl_map {A B C} (f : C -> B -> C) (g : A -> B) l x :
  foldl f x (map g l) = foldl (fun x a => f x (g a)) x l.
Proof. revert x. induction l as [|a l IH]; intros x; simpl; [done|apply IH]. Qed.

Lemma applyBatch_puts d L : applyBatch (getLiveEntries d) (getDeadEntries d) L =
  dels (map_asc (mDelete d)) (puts (map_asc (mMod d)) (puts (map_asc (mNew d)) L)).
Proof.
  unfold applyBatch, getLiveEntries, getDeadEntries, dels, puts.
  by rewrite foldl_app, !foldl_map.
Qed.

(** The order does not matter: the three maps are disjoint. *)
Lemma batch_eff d L : wfd (ok := legacy) d L ->
  dels (map_asc (mDelete d)) (puts (map_asc (mMod d)) (puts (map_asc (mNew d)) L)) = eff d L.
Proof.
  intros Hw. apply map_eq. intros i.
  rewrite dels_lookup, !puts_lookup, !map_asc_to_map, eff_lookup; try apply NoDup_map_asc.
  - specialize (Hw i). case_decide as Hd; rewrite map_asc_dom in Hd;
      destruct (mNew d !! i), (mMod d !! i), (mDelete d !! i); try done; by destruct Hd.
  - intros j p Hj%elem_of_map_asc. by destruct (wfd_new _ _ _ _ Hw Hj).
  - intros j p Hj%elem_of_map_asc. by destruct (wfd_mod _ _ _ _ Hw Hj).
  - intros j k Hj%elem_of_map_asc. by destruct (wfd_del _ _ _ _ Hw Hj).
Qed.

Lemma replay_app cs cs' L : replay (cs ++ cs') L = replay cs' (replay cs L).
Proof. unfold replay. by rewrite foldl_app. Qed.

Lemma replay_meta d i L : replay (addCurrentMeta d i) L = L.
Proof. unfold addCurrentMeta. destruct (mPrevious d !! i) as [[]|]; [|done]. by case_match. Qed.

Lemma getChanges_eff d L : wfd (ok := legacy) d L -> replay (getChanges d) L = eff d L.
Proof.
  intros Hw. rewrite <- batch_eff by done. unfold getChanges. rewrite !replay_app.
  assert (E1 : forall l L, replay (map (fun p : LedgerId * (LedgerKey * LedgerEntry) =>
      CREATED p.2.2) l) L = puts l L).
  { intros l L'. unfold replay, puts. by rewrite foldl_map. }
  assert (E2 : forall l L, replay (concat (map (fun p : LedgerId * (LedgerKey * LedgerEntry) =>
      addCurrentMeta d p.1 ++ [UPDATED p.2.2]) l)) L = puts l L).
  { intros l. induction l as [|p l IH]; intros L'; simpl; [done|].
    by rewrite !replay_app, replay_meta, IH. }
  assert (E3 : forall l L, replay (concat (map (fun p : LedgerId * LedgerKey =>
      addCurrentMeta d p.1 ++ [REMOVED p.2]) l)) L = dels l L).
  { intros l. induction l as [|p l IH]; intros L'; simpl; [done|].
    by rewrite !replay_app, replay_meta, IH. }
  by rewrite E1, E2, E3.
Qed.

(** The three readings of a delta agree with what was done in its scope: for
    every run of the owners, nested scopes included, that starts with opening the
    outermost delta on the ledger [L] and ends in its scope with the entries [M],
    the live and dead entries handed to the list of buckets, the metadata
    ([getChanges]) and the list of all changes ([getAllChanges]) each turn [L] into
    [M]. *)
Theorem delta_readings_agree ops w L h M h' : rootHeader w = h ->
  spec_run (OBegin :: ops) [(L, h)] = Some [(M, h'); (L, h)] ->
  Forall (fun op => forall i, op_id op = Some i -> legacy i) ops ->
  exists w' d, impl_run NDEBUG (OBegin :: ops) 0 w = Ret 1%nat w' /\ deltas w' !! 0%nat = Some d /\
    applyBatch (getLiveEntries d) (getDeadEntries d) L = M /\
    replay (getChanges d) L = M /\ replay (getAllChanges d) L = M.
Proof.
  intros Hw Hs Hf.
  destruct (run_refines (OBegin :: ops) w 0 [(L, h)] [(M, h'); (L, h)]) as (n & w' & E & Hr);
    [done..|by constructor|].
  destruct n as [|[|n]]; [done| |simpl in Hr; naive_solver].
  apply refines_uncons in Hr as (d & o & Hd & [= <-] & (_ & _ & _ & _ & Hwd & He & Ha) & _).
  exists w', d. split_and!; try done.
  - by rewrite applyBatch_puts, batch_eff.
  - by rewrite getChanges_eff.
Qed.

(** ** Errors *)

Lemma closed_throws a w d : deltas w !! a = Some d -> mHeader d = None ->
  checkState a w = Exn (RuntimeError "Invalid operation: delta is already committed"%string) w.
Proof.
  intros Hl Hh. unfold checkState. rewrite (theDelta_bind _ _ d) by done. by rewrite Hh.
Qed.

(** A delta that was committed or rolled back rejects every operation, and
    changes nothing. *)
Theorem closed_delta_rejects a w d e k : deltas w !! a = Some d -> mHeader d = None ->
  let rejected (m : M DW ()) :=
    m w = Exn (RuntimeError "Invalid operation: delta is already committed"%string) w in
  rejected (addEntry NDEBUG a e) /\ rejected (modEntry NDEBUG a e) /\ rejected (deleteEntry a k) /\
  rejected (recordEntry a e) /\ rejected (commit NDEBUG a) /\ rejected (rollback a).
Proof.
  intros Hl Hh rejected. pose proof (closed_throws a w d Hl Hh) as E.
  unfold rejected, addEntry, modEntry, deleteEntry, recordEntry, commit, rollback.
  by split_and!; unfold mbind at 1, M_bind at 1; rewrite E.
Qed.

(** A commit over a header that was changed outside of the delta throws, and
    neither the header nor the outer delta changes. *)
Theorem commit_checks_header a w d r h : deltas w !! a = Some d -> mHeader d = Some r ->
  readHeader r w = Ret h w -> mPreviousHeaderValue d <> h ->
  commit NDEBUG a w = Exn (RuntimeError "unexpected header state"%string) w.
Proof.
  intros Hl Hh Hr Hp. unfold commit.
  rewrite (checkState_bind _ _ d) by (split; [done|congruence]).
  rewrite (theDelta_bind _ _ d), Hh by done.
  unfold mbind at 1, M_bind at 1, deref. unfold mret at 1, M_ret at 1.
  unfold mbind at 1, M_bind at 1. rewrite Hr. by rewrite bool_decide_eq_false_2.
Qed.

(** A rollback closes the delta and removes from the entry cache exactly the
    keys the delta holds as new, modified or deleted, so that what is read next
    comes from the database; the other deltas and the header are as before. *)
Theorem rollback_flushes_cache a w d : deltas w !! a = Some d -> mHeader d <> None ->
  Forall (fun k => getHelper (key_type k) = true) (touchedKeys d) ->
  exists w', rollback a w = Ret () w' /\ rootHeader w' = rootHeader w /\
    deltas w' = <[a := set_mHeader None d]> (deltas w) /\
    forall p, p ∈ entryCache w' <-> p ∈ entryCache w /\ p.1 ∉ touchedKeys d.
Proof.
  intros Hl Hh Hk. eexists. split; [apply rollback_run; by repeat split|].
  split_and!; try done. intros p. simpl. unfold flushed. rewrite list_elem_of_filter. tauto.
Qed.

End refinement.
