(* ===== verification/Bucket.v ===== *)
(** * Buckets

    [bucket/Bucket.cpp]: sorted files of live and dead entries, and the merge of
    two of them into a third.

    A bucket is the list of the entries of its file; that the file is written,
    hashed, adopted by the bucket manager and read back is left out.  An input
    iterator is the rest of the list, from its current entry.  Assertions are
    there unless [NDEBUG] is set. *)

From Stdlib Require Import ZArith Lia String.
From stdpp Require Import sorting.
From stdpp Require Import base tactics gmap option list.
From S2P Require Import Prelude ScpTypes LedgerTypes.

Open Scope Z_scope.

Abbreviation Bucket := (list BucketEntry) (only parsing).

(** [Bucket::OutputIterator]: the buffered entry and what was written. *)
Record OutputIterator := mkOut {
  mBuf : option BucketEntry;
  mOut : list BucketEntry;
  mKeepDead : bool }.

Definition isDead (e : BucketEntry) : bool :=
  match e with DEADENTRY _ => true | LIVEENTRY _ => false end.

(** The state of a merge: the output and the iterators over the shadows. *)
Record MergeState := mkMerge {
  out : OutputIterator;
  shadowIterators : list (list BucketEntry) }.

Section bucket.
Context `{LedgerExterns} (NDEBUG : bool).

Definition set_out (o : OutputIterator) (w : MergeState) : MergeState :=
  mkMerge o (shadowIterators w).
Definition set_shadows (s : list (list BucketEntry)) (w : MergeState) : MergeState :=
  mkMerge (out w) s.

(** [OutputIterator::put] *)
Definition put (e : BucketEntry) : M MergeState () :=
  w ← get;
  let o := out w in
  if negb (mKeepDead o) && isDead e then mret ()
  else match mBuf o with
  | Some b =>
      if negb NDEBUG && BucketEntryIdCmp e b then throw DbgAbort
      else if BucketEntryIdCmp b e
      then modify (set_out (mkOut (Some e) (mOut o ++ [b]) (mKeepDead o)))
      else modify (set_out (mkOut (Some e) (mOut o) (mKeepDead o)))
  | None => modify (set_out (mkOut (Some e) (mOut o) (mKeepDead o)))
  end.

(** [OutputIterator::getBucket] *)
Definition getBucket (o : OutputIterator) : Bucket :=
  match mBuf o with Some b => mOut o ++ [b] | None => mOut o end.

(** [while (si && cmp( *si, *in)) ++si;] *)
Fixpoint advanceShadow (e : BucketEntry) (si : list BucketEntry) : list BucketEntry :=
  match si with
  | x :: si' => if BucketEntryIdCmp x e then advanceShadow e si' else si
  | [] => []
  end.

(** The loop of [maybe_put]: whether the candidate is shadowed, and the iterators
    as they are when the loop ends or returns. *)
Fixpoint shadowLoop (e : BucketEntry) (sis : list (list BucketEntry)) :
    bool * list (list BucketEntry) :=
  match sis with
  | [] => (false, [])
  | si :: rest =>
      let si' := advanceShadow e si in
      match si' with
      | x :: _ =>
          if negb (BucketEntryIdCmp e x) then (true, si' :: rest)
          else let '(r, rest') := shadowLoop e rest in (r, si' :: rest')
      | [] => let '(r, rest') := shadowLoop e rest in (r, si' :: rest')
      end
  end.

Definition maybe_put (e : BucketEntry) : M MergeState () :=
  w ← get;
  let '(shadowed, sis) := shadowLoop e (shadowIterators w) in
  modify (set_shadows sis);;
  if shadowed : bool then mret () else put e.

(** The loop of [merge]. *)
Fixpoint mergeLoop (oi : list BucketEntry) : list BucketEntry -> M MergeState () :=
  fix go (ni : list BucketEntry) : M MergeState () :=
    match oi, ni with
    | [], [] => mret ()
    | o :: oi', [] => maybe_put o;; mergeLoop oi' []
    | [], n :: ni' => maybe_put n;; go ni'
    | o :: oi', n :: ni' =>
        if BucketEntryIdCmp o n then maybe_put o;; mergeLoop oi' (n :: ni')
        else if BucketEntryIdCmp n o then maybe_put n;; go ni'
        else maybe_put n;; mergeLoop oi' ni'
    end.

(** The result of the loop as that of a function that has the state [W]. *)
Definition runOutput {W} (m : M MergeState ()) (keepDead : bool) (shadows : list Bucket) :
    M W Bucket :=
  match m (mkMerge (mkOut None [] keepDead) shadows) with
  | Ret _ w => mret (getBucket (out w))
  | Exn e _ => throw e
  end.

(** [Bucket::merge] *)
Definition merge {W} (oldBucket newBucket : Bucket) (shadows : list Bucket)
    (keepDeadEntries : bool) : M W Bucket :=
  runOutput (mergeLoop oldBucket newBucket) keepDeadEntries shadows.

(** [std::sort] by [BucketEntryIdCmp].  Entries of one identity come out in an
    order the standard does not fix; the model keeps theirs. *)
Definition entry_le (a b : BucketEntry) : Prop := BucketEntryIdCmp b a = false.

#[export] Instance entry_le_dec : RelDecision entry_le.
Proof. intros a b. unfold entry_le. apply _. Defined.

Definition sort_entries (l : list BucketEntry) : list BucketEntry := merge_sort entry_le l.

Fixpoint putAll (l : list BucketEntry) : M MergeState () :=
  match l with
  | [] => mret ()
  | e :: l' => put e;; putAll l'
  end.

(** [Bucket::fresh] *)
Definition fresh {W} (liveEntries : list LedgerEntry) (deadEntries : list LedgerKey) : M W Bucket :=
  let live := sort_entries (map LIVEENTRY liveEntries) in
  let dead := sort_entries (map DEADENTRY deadEntries) in
  liveBucket ← runOutput (putAll live) true [];
  deadBucket ← runOutput (putAll dead) true [];
  merge liveBucket deadBucket [] true.

(** [Bucket::containsBucketIdentity] *)
Fixpoint containsBucketIdentity (id : BucketEntry) (b : Bucket) : bool :=
  match b with
  | [] => false
  | e :: b' =>
      if negb (BucketEntryIdCmp e id || BucketEntryIdCmp id e) then true
      else containsBucketIdentity id b'
  end.

(** [Bucket::countLiveAndDeadEntries] *)
Fixpoint countLiveAndDeadEntries (b : Bucket) : Z * Z :=
  match b with
  | [] => (0, 0)
  | e :: b' =>
      let '(live, dead) := countLiveAndDeadEntries b' in
      if isDead e then (live, u64 (dead + 1)) else (u64 (live + 1), dead)
  end.

End bucket.
