(* ===== verification/BucketFacts.v ===== *)
(** * Facts on buckets

    A bucket in strictly increasing order of identity is a finite map ([look]).
    [Bucket::merge] gives the reference merge ([mergeRef]) without the shadowed and,
    at the last level, the dead entries; [Bucket::fresh] gives the batch. *)

From Stdlib Require Import ZArith Lia String Sorted Permutation.
From stdpp Require Import sorting.
From stdpp Require Import base tactics gmap option list.
From S2P Require Import Prelude ScpTypes LedgerTypes LedgerOrder Bucket.

Open Scope Z_scope.

Section facts.
Context `{LedgerExterns} {NDEBUG : bool}.

Definition bid (e : BucketEntry) : LedgerId := idOf (bucketKey e).

Definition entry_lt (a b : BucketEntry) : Prop := std_lt (bid a) (bid b).

(** Strictly increasing identities. *)
Definition bucket_sorted (b : Bucket) : Prop := StronglySorted entry_lt b.

(** The entry of an identity. *)
Fixpoint look (b : Bucket) (i : LedgerId) : option BucketEntry :=
  match b with
  | [] => None
  | e :: b' => if decide (bid e = i) then Some e else look b' i
  end.

Lemma EntryCmp_lt a b : BucketEntryIdCmp a b = true <-> entry_lt a b.
Proof. apply IdCmp_lt. Qed.

Lemma EntryCmp_ge a b : BucketEntryIdCmp a b = false <-> ~ entry_lt a b.
Proof. rewrite <- EntryCmp_lt. by destruct (BucketEntryIdCmp a b). Qed.

Lemma entry_cases a b :
  BucketEntryIdCmp a b = true /\ entry_lt a b /\ BucketEntryIdCmp b a = false \/
  BucketEntryIdCmp b a = true /\ entry_lt b a /\ BucketEntryIdCmp a b = false \/
  BucketEntryIdCmp a b = false /\ BucketEntryIdCmp b a = false /\ bid a = bid b.
Proof.
  rewrite !EntryCmp_lt, !EntryCmp_ge. unfold entry_lt.
  destruct (std_lt_trichotomy (bid a) (bid b)) as [Hl|[E|Hl]].
  - left. split_and!; try done. by apply std_lt_asym.
  - right; right. rewrite E. split_and!; try done; apply std_lt_irrefl.
  - right; left. split_and!; try done. by apply std_lt_asym.
Qed.

(** ** Sorted buckets as maps *)

Lemma look_bid b i e : look b i = Some e -> bid e = i.
Proof. induction b as [|x b IH]; simpl; [done|]. case_decide; naive_solver. Qed.

Lemma look_elem b i e : look b i = Some e -> e ∈ b.
Proof. induction b as [|x b IH]; simpl; [done|]. case_decide; set_solver. Qed.

Lemma look_None b i : look b i = None <-> Forall (fun e => bid e <> i) b.
Proof. induction b as [|x b IH]; simpl; [done|]. rewrite Forall_cons. case_decide; naive_solver. Qed.

Lemma look_lt_None b i : Forall (fun e => std_lt i (bid e)) b -> look b i = None.
Proof. intros Hb. apply look_None. eapply Forall_impl; [exact Hb|]. cbn. intros e Hl E. rewrite E in Hl. by apply std_lt_irrefl in Hl. Qed.

Lemma look_sorted_elem b e : bucket_sorted b -> e ∈ b -> look b (bid e) = Some e.
Proof.
  induction 1 as [|x b Hb IH Hx]; simpl; [by rewrite elem_of_nil|].
  rewrite elem_of_cons. intros [->|He]; [by rewrite decide_True|].
  rewrite decide_False; [auto|]. rewrite Forall_forall in Hx. by apply std_lt_ne, Hx.
Qed.

Lemma look_app b b' i : look (b ++ b') i = match look b i with Some e => Some e | None => look b' i end.
Proof. induction b as [|x b IH]; simpl; [done|]. by case_decide. Qed.

Lemma look_filter (P : BucketEntry -> bool) b i : bucket_sorted b ->
  look (filter P b) i = match look b i with Some e => if P e then Some e else None | None => None end.
Proof.
  induction 1 as [|x b Hb IH Hx]; [done|]. simpl.
  destruct (P x) eqn:EP.
  - rewrite filter_cons_True by by rewrite EP. simpl. case_decide; [by rewrite EP|done].
  - rewrite filter_cons_False by (rewrite EP; intros []). case_decide as Hi; [|done].
    rewrite EP, IH. subst i. by rewrite look_lt_None.
Qed.

Lemma sorted_filter (P : BucketEntry -> bool) b : bucket_sorted b -> bucket_sorted (filter P b).
Proof.
  induction 1 as [|x b Hb IH Hx]; [constructor|]. rewrite filter_cons. case_decide; [|done].
  constructor; [done|]. apply Forall_forall. intros y Hy%list_elem_of_filter.
  rewrite Forall_forall in Hx. naive_solver.
Qed.

(** ** The reference merge: the new entry of an identity replaces the old one *)

Fixpoint mergeRef (oi : list BucketEntry) : list BucketEntry -> list BucketEntry :=
  fix go (ni : list BucketEntry) : list BucketEntry :=
    match oi, ni with
    | [], _ => ni
    | _, [] => oi
    | o :: oi', n :: ni' =>
        if BucketEntryIdCmp o n then o :: mergeRef oi' ni
        else if BucketEntryIdCmp n o then n :: go ni'
        else n :: mergeRef oi' ni'
    end.

Lemma mergeRef_nil_r oi : mergeRef oi [] = oi.
Proof. by destruct oi. Qed.

Lemma mergeRef_cons o oi n ni : mergeRef (o :: oi) (n :: ni) =
  if BucketEntryIdCmp o n then o :: mergeRef oi (n :: ni)
  else if BucketEntryIdCmp n o then n :: mergeRef (o :: oi) ni
  else n :: mergeRef oi ni.
Proof. done. Qed.

Lemma mergeRef_elem oi ni e : e ∈ mergeRef oi ni -> e ∈ oi \/ e ∈ ni.
Proof.
  revert ni. induction oi as [|o oi IHo]; intros ni.
  { destruct ni; simpl; auto. }
  induction ni as [|n ni IHn]; [by rewrite mergeRef_nil_r; auto|]. rewrite mergeRef_cons.
  repeat case_match; rewrite !elem_of_cons; intros [->|He]; auto.
  - apply IHo in He. rewrite elem_of_cons in He. tauto.
  - apply IHn in He. rewrite elem_of_cons in He. tauto.
  - apply IHo in He. tauto.
Qed.

Lemma mergeRef_bound x oi ni : Forall (entry_lt x) oi -> Forall (entry_lt x) ni ->
  Forall (entry_lt x) (mergeRef oi ni).
Proof. rewrite !Forall_forall. intros ?? e [?|?]%mergeRef_elem; auto. Qed.

Lemma sorted_cons_bound x y b : bucket_sorted (y :: b) -> std_le (bid x) (bid y) -> 
  Forall (entry_lt x) b.
Proof.
  inversion_clear 1 as [|? ? _ Hy]. intros Hxy. eapply Forall_impl; [exact Hy|].
  intros z Hyz Hzx. apply Hyz. by trans (bid x).
Qed.

Lemma mergeRef_sorted oi ni : bucket_sorted oi -> bucket_sorted ni ->
  bucket_sorted (mergeRef oi ni).
Proof.
  revert ni. induction oi as [|o oi IHo]; intros ni Ho Hn.
  { by destruct ni. }
  induction ni as [|n ni IHn]; [by rewrite mergeRef_nil_r|].
  assert (Ho' := Ho). assert (Hn' := Hn). inversion_clear Ho'. inversion_clear Hn'.
  rewrite mergeRef_cons. destruct (entry_cases o n) as [(-> & Hl & _)|[(-> & Hl & ->)|(-> & -> & E)]].
  - constructor; [by apply IHo|]. apply mergeRef_bound; [done|].
    constructor; [done|]. apply (sorted_cons_bound _ n); [done|]. by apply std_lt_le.
  - constructor; [by apply IHn|]. apply mergeRef_bound; [|done].
    constructor; [done|]. apply (sorted_cons_bound _ o); [done|]. by apply std_lt_le.
  - constructor; [by apply IHo|]. apply mergeRef_bound; [|done].
    apply (sorted_cons_bound _ o); [done|]. rewrite E. by destruct (total std_le (bid n) (bid n)).
Qed.

Lemma look_mergeRef oi ni i : bucket_sorted oi -> bucket_sorted ni ->
  look (mergeRef oi ni) i = match look ni i with Some e => Some e | None => look oi i end.
Proof.
  revert ni. induction oi as [|o oi IHo]; intros ni Ho Hn.
  { destruct ni; simpl; [done|]. case_decide; [done|]. by destruct (look ni i). }
  induction ni as [|n ni IHn]; [by rewrite mergeRef_nil_r|].
  assert (Ho' := Ho). assert (Hn' := Hn). inversion_clear Ho'. inversion_clear Hn'.
  rewrite mergeRef_cons. destruct (entry_cases o n) as [(-> & Hl & _)|[(-> & Hl & ->)|(-> & -> & E)]].
  - cbn [look]. rewrite IHo by done. cbn [look]. destruct (decide (bid o = i)) as [Ei|]; [|done].
    subst i. rewrite decide_False by (symmetry; by apply std_lt_ne).
    rewrite look_lt_None; [done|]. apply (sorted_cons_bound o n); [done|]. by apply std_lt_le.
  - cbn [look]. rewrite IHn by done. cbn [look]. by destruct (decide (bid n = i)).
  - cbn [look]. rewrite IHo by done. cbn [look]. rewrite E. by destruct (decide (bid n = i)).
Qed.

(** ** The code merges as the reference does *)

Fixpoint putMany (l : list BucketEntry) : M MergeState () :=
  match l with
  | [] => mret ()
  | e :: l' => maybe_put NDEBUG e;; putMany l'
  end.

Lemma bind_ext {W A B} (m : M W A) (k k' : A -> M W B) w : (forall a w', k a w' = k' a w') ->
  (m ≫= k) w = (m ≫= k') w.
Proof. intros E. unfold mbind, M_bind. destruct (m w); auto. Qed.

Lemma mergeLoop_candidates oi ni w : mergeLoop NDEBUG oi ni w = putMany (mergeRef oi ni) w.
Proof.
  revert ni w. induction oi as [|o oi IHo]; intros ni.
  { induction ni as [|n ni IHn]; intros w; [done|]. simpl. apply bind_ext. intros _ w'.
    by rewrite IHn; destruct ni. }
  induction ni as [|n ni IHn]; intros w.
  { simpl. apply bind_ext. intros _ w'. by rewrite IHo, mergeRef_nil_r. }
  rewrite mergeRef_cons. simpl. repeat case_match; simpl; apply bind_ext; intros _ w'; auto.
Qed.

(** Some shadow has the identity. *)
Definition shadowedBy (sis : list (list BucketEntry)) (i : LedgerId) : bool :=
  existsb (fun si => negb (bool_decide (look si i = None))) sis.

Lemma advanceShadow_sorted e si : bucket_sorted si -> bucket_sorted (advanceShadow e si).
Proof. induction 1; simpl; [constructor|]. case_match; [done|by constructor]. Qed.

Lemma advanceShadow_look e si i : std_le (bid e) i ->
  look (advanceShadow e si) i = look si i.
Proof.
  intros Hi. induction si as [|x si IH]; simpl; [done|].
  destruct (BucketEntryIdCmp x e) eqn:E; [|done].
  apply EntryCmp_lt in E. rewrite IH, decide_False; [done|]. intros Hx. apply E. by rewrite Hx.
Qed.

Lemma advanceShadow_head e si : bucket_sorted si ->
  look si (bid e) = match advanceShadow e si with
                    | x :: _ => if BucketEntryIdCmp e x then None else Some x
                    | [] => None
                    end.
Proof.
  intros Hs. rewrite <- (advanceShadow_look e) by by destruct (total std_le (bid e) (bid e)).
  apply (advanceShadow_sorted e) in Hs.
  destruct (advanceShadow e si) as [|x r] eqn:Ea; [done|]. simpl.
  assert (Hx : ~ entry_lt x e).
  { rewrite <- EntryCmp_ge. clear Hs. revert Ea. induction si as [|y si IH]; simpl; [done|].
    destruct (BucketEntryIdCmp y e) eqn:?; [done|naive_solver]. }
  destruct (entry_cases e x) as [(-> & Hl & _)|[(_ & Hl & _)|(-> & _ & E)]]; [|done|].
  - rewrite decide_False by (symmetry; by apply std_lt_ne). apply look_lt_None.
    apply (sorted_cons_bound _ x); [done|]. by apply std_lt_le.
  - by rewrite decide_True by done.
Qed.

Lemma shadowLoop_spec e sis : Forall bucket_sorted sis ->
  (shadowLoop e sis).1 = shadowedBy sis (bid e) /\
  Forall bucket_sorted (shadowLoop e sis).2 /\
  forall i, std_le (bid e) i -> shadowedBy (shadowLoop e sis).2 i = shadowedBy sis i.
Proof.
  induction 1 as [|si sis Hs Hss (IH1 & IH2 & IH3)]; [done|]. unfold shadowedBy in *. simpl.
  pose proof (advanceShadow_head e si Hs) as Hh.
  pose proof (advanceShadow_sorted e si Hs) as Ha.
  pose proof (fun i => advanceShadow_look e si i) as Hl.
  destruct (advanceShadow e si) as [|x r] eqn:Ea;
    [|destruct (BucketEntryIdCmp e x) eqn:Ec; cbn [negb]];
    try destruct (shadowLoop e sis) as [b rest]; simpl in *; rewrite Hh; simpl;
    (split_and!; [done|by constructor|]); intros i Hi; rewrite <- Hl by done; try rewrite IH3 by done;
    done.
Qed.

(** What a merge keeps of the candidates. *)
Definition kept (sis : list (list BucketEntry)) (keepDead : bool) (e : BucketEntry) : bool :=
  negb (shadowedBy sis (bid e)) && (keepDead || negb (isDead e)).

(** The entry in the buffer is before those to come. *)
Definition buffer_before (o : OutputIterator) (l : list BucketEntry) : Prop :=
  match mBuf o with Some b => Forall (entry_lt b) l | None => True end.

Lemma put_run e w l : buffer_before (out w) (e :: l) -> bucket_sorted (e :: l) ->
  exists o, put NDEBUG e w = Ret () (set_out o w) /\ mKeepDead o = mKeepDead (out w) /\
    buffer_before o l /\
    getBucket o = getBucket (out w) ++ (if mKeepDead (out w) || negb (isDead e) then [e] else []).
Proof.
  intros Hb Hs. unfold put, get, modify, mbind, M_bind, mret, M_ret. cbn beta iota.
  inversion_clear Hs. unfold buffer_before in *.
  destruct (mKeepDead (out w)) eqn:Ek, (isDead e) eqn:Ed; cbn [negb andb orb];
    [| |exists (out w); rewrite app_nil_r; destruct w; split_and!; try done|];
    try (destruct (mBuf (out w)) as [b|] eqn:Eb;
      [apply Forall_cons in Hb as [Hbe Hbl]; assert (Hbe' := Hbe);
       apply EntryCmp_lt in Hbe; apply std_lt_asym in Hbe'; apply EntryCmp_ge in Hbe';
       rewrite Hbe, Hbe', andb_false_r|];
      eexists; (split; [done|]); unfold getBucket; rewrite Eb; split_and!; done).
  simpl in *. destruct (mBuf out); [|done]. by apply Forall_cons in Hb as [_ Hb].
Qed.

Lemma filter_cons_bool (P : BucketEntry -> bool) e l :
  filter P (e :: l) = if P e then e :: filter P l else filter P l.
Proof. rewrite filter_cons. by destruct (P e). Qed.

Lemma filter_ext_Forall (P Q : BucketEntry -> bool) l : Forall (fun e => P e = Q e) l ->
  filter P l = filter Q l.
Proof.
  induction 1 as [|e l E _ IH]; [done|]. by rewrite !filter_cons_bool, IH, E.
Qed.

Lemma putMany_run l w : bucket_sorted l -> buffer_before (out w) l ->
  Forall bucket_sorted (shadowIterators w) ->
  exists w', putMany l w = Ret () w' /\
    getBucket (out w') =
      getBucket (out w) ++ filter (kept (shadowIterators w) (mKeepDead (out w))) l.
Proof.
  revert w. induction l as [|e l IH]; intros w Hl Hb Hs.
  { exists w. by rewrite filter_nil, app_nil_r. }
  assert (Hl' := Hl). inversion_clear Hl' as [|? ? Hl1 Hel].
  destruct (shadowLoop_spec e (shadowIterators w) Hs) as (E1 & E2 & E3).
  destruct (shadowLoop e (shadowIterators w)) as [b sis] eqn:El. cbn [fst snd] in E1, E2, E3.
  assert (Hk : filter (kept sis (mKeepDead (out w))) l
    = filter (kept (shadowIterators w) (mKeepDead (out w))) l).
  { apply filter_ext_Forall. eapply Forall_impl; [exact Hel|]. intros x Hx. unfold kept.
    rewrite E3; [done|]. by apply std_lt_le. }
  unfold putMany at 1; fold putMany. unfold maybe_put.
  unfold mbind, M_bind, get, modify, mret, M_ret. cbn beta iota. rewrite El. cbn beta iota.
  rewrite filter_cons_bool. unfold kept at 1. rewrite <- E1. destruct b.
  - destruct (IH (set_shadows sis w)) as (w' & E & Ew); [done| |done|].
    { unfold buffer_before in *. simpl. destruct (mBuf (out w)); [by apply Forall_cons in Hb as [_ Hb]|done]. }
    exists w'. split; [done|]. rewrite Ew. simpl. by rewrite Hk.
  - destruct (put_run e (set_shadows sis w) l) as (o & E & Ek & Hb' & Eg); [done..|].
    destruct (IH (set_out o (set_shadows sis w))) as (w' & E' & Ew); [done..|].
    exists w'. split; [by rewrite E|]. rewrite Ew. simpl. rewrite Eg, Ek. simpl. rewrite Hk.
    by destruct (mKeepDead (out w)), (isDead e); simpl; rewrite <- ?app_assoc.
Qed.

Lemma merge_run {W} (oi ni : Bucket) (sis : list Bucket) keep (w : W) :
  bucket_sorted oi -> bucket_sorted ni -> Forall bucket_sorted sis ->
  merge NDEBUG oi ni sis keep w = Ret (filter (kept sis keep) (mergeRef oi ni)) w.
Proof.
  intros Ho Hn Hs. unfold merge, runOutput. rewrite mergeLoop_candidates.
  destruct (putMany_run (mergeRef oi ni) (mkMerge (mkOut None [] keep) sis)) as (w' & -> & E);
    [by apply mergeRef_sorted|done..|]. by rewrite E.
Qed.

(** The result of a merge at one identity. *)
Definition merged_at (keep : bool) (shadowed : bool) (o n : option BucketEntry) : option BucketEntry :=
  if shadowed then None
  else match (match n with Some e => Some e | None => o end) with
       | Some e => if keep || negb (isDead e) then Some e else None
       | None => None
       end.

Definition merge_out (oi ni : Bucket) (sis : list Bucket) (keep : bool) : Bucket :=
  filter (kept sis keep) (mergeRef oi ni).

Lemma merge_out_sorted oi ni sis keep : bucket_sorted oi -> bucket_sorted ni ->
  bucket_sorted (merge_out oi ni sis keep).
Proof. intros. by apply sorted_filter, mergeRef_sorted. Qed.

Lemma look_merge_out oi ni sis keep i : bucket_sorted oi -> bucket_sorted ni ->
  look (merge_out oi ni sis keep) i =
    merged_at keep (shadowedBy sis i) (look oi i) (look ni i).
Proof.
  intros Ho Hn. unfold merge_out. rewrite look_filter, look_mergeRef by first [done|by apply mergeRef_sorted].
  assert (Hk : forall b e, look b i = Some e ->
    (if kept sis keep e then Some e else None) = merged_at keep (shadowedBy sis i) None (Some e)).
  { intros b e E. unfold kept, merged_at. rewrite (look_bid _ _ _ E). by destruct (shadowedBy sis i). }
  destruct (look ni i) as [e|] eqn:E; [by erewrite Hk|].
  destruct (look oi i) as [e|] eqn:E'; [by erewrite Hk|]. unfold merged_at. by destruct (shadowedBy sis i).
Qed.

(** ** Fresh buckets *)

Lemma putAll_putMany l w : shadowIterators w = [] -> putAll NDEBUG l w = putMany l w.
Proof.
  revert w. induction l as [|e l IH]; intros w Hw; [done|]. simpl. unfold maybe_put.
  unfold mbind, M_bind, get, modify. cbn beta iota. rewrite Hw. cbn.
  replace (set_shadows [] w) with w by (destruct w; simpl in *; by subst).
  destruct (put NDEBUG e w) as [[] w1|] eqn:E; [|done]. apply IH.
  revert E. unfold put, mbind, M_bind, get, modify, mret, M_ret, throw. cbn.
  repeat case_match; intros; simplify_eq; done.
Qed.

Lemma putAll_run {W} (l : list BucketEntry) (w : W) : bucket_sorted l ->
  runOutput (putAll NDEBUG l) true [] w = Ret l w.
Proof.
  intros Hl. unfold runOutput. rewrite putAll_putMany by done.
  destruct (putMany_run l (mkMerge (mkOut None [] true) [])) as (w' & -> & E); [done..|].
  rewrite E. simpl. unfold mret, M_ret. f_equal. clear. induction l as [|e l IH]; [done|].
  by rewrite filter_cons_True, IH by done.
Qed.

#[export] Instance entry_le_trans : Transitive entry_le.
Proof. intros a b c. unfold entry_le, BucketEntryIdCmp. rewrite !IdCmp_ge. intros. by trans (idOf (bucketKey b)). Qed.

#[export] Instance entry_le_total : Total entry_le.
Proof. intros a b. unfold entry_le, BucketEntryIdCmp. rewrite !IdCmp_ge. apply total, _. Qed.

Lemma sort_entries_sorted l : NoDup (map bid l) -> bucket_sorted (sort_entries l).
Proof.
  intros Hnd. unfold sort_entries.
  pose proof (StronglySorted_merge_sort entry_le l) as Hs.
  rewrite <- (merge_sort_Permutation entry_le l) in Hnd.
  induction Hs as [|e r Hr IH He]; [constructor|]. simpl in Hnd.
  apply NoDup_cons in Hnd as [Hn Hnd]. constructor; [by apply IH|].
  rewrite Forall_forall in *. intros x Hx. specialize (He x Hx).
  unfold entry_le, BucketEntryIdCmp in He. rewrite IdCmp_ge in He.
  apply std_le_lt_eq in He as [?|E]; [done|]. destruct Hn. apply list_elem_of_fmap.
  exists x. split; [exact E|done].
Qed.

Lemma look_perm b b' i : b ≡ₚ b' -> NoDup (map bid b) -> look b i = look b' i.
Proof.
  intros Hp Hnd. apply option_eq. intros e.
  assert (Hl : forall b, NoDup (map bid b) -> look b i = Some e <-> e ∈ b /\ bid e = i).
  { clear. intros b Hnd. split; [intros E; split; [by eapply look_elem|by eapply look_bid]|].
    intros [He <-]. induction b as [|x b IH]; [by apply elem_of_nil in He|]. simpl in *.
    apply NoDup_cons in Hnd as [Hx Hnd]. apply elem_of_cons in He as [->|He];
      [by rewrite decide_True|]. rewrite decide_False; [auto|]. intros E. destruct Hx.
    rewrite E. apply list_elem_of_fmap. by exists e. }
  rewrite !Hl by (done || by rewrite <- Hp). by rewrite Hp.
Qed.

(** A batch has one entry per identity among the live and among the dead. *)
Definition batch_ok (live : list LedgerEntry) (dead : list LedgerKey) : Prop :=
  NoDup (map (fun e => idOf (data e)) live) /\ NoDup (map idOf dead).

Lemma fresh_run live dead : batch_ok live dead ->
  exists F, bucket_sorted F /\ (forall W (w : W), fresh NDEBUG live dead w = Ret F w) /\
    forall k, look F k = match look (map DEADENTRY dead) k with
                         | Some e => Some e | None => look (map LIVEENTRY live) k end.
Proof.
  intros [Hl Hd].
  assert (Hl' : NoDup (map bid (map LIVEENTRY live))) by by rewrite map_map.
  assert (Hd' : NoDup (map bid (map DEADENTRY dead))) by by rewrite map_map.
  pose proof (sort_entries_sorted _ Hl') as Sl. pose proof (sort_entries_sorted _ Hd') as Sd.
  exists (merge_out (sort_entries (map LIVEENTRY live)) (sort_entries (map DEADENTRY dead)) [] true).
  split_and!; [by apply merge_out_sorted|..].
  - intros W w. unfold fresh, mbind, M_bind. rewrite putAll_run by done. cbn beta iota.
    rewrite putAll_run by done. cbn beta iota. by apply merge_run.
  - intros k. rewrite look_merge_out by done.
    assert (Hp : forall l, NoDup (map bid l) -> look (sort_entries l) k = look l k).
    { intros l Hnd. apply look_perm; [apply merge_sort_Permutation|].
      unfold sort_entries. by rewrite merge_sort_Permutation. }
    rewrite !Hp by done. unfold merged_at. cbn. by destruct (look (map DEADENTRY dead) k), (look (map LIVEENTRY live) k).
Qed.

End facts.
