(* ===== verification/FutureBucket.v ===== *)
(** * Future buckets

    [bucket/FutureBucket.cpp]: a merge that runs on a worker thread, as a state
    machine with the saved form of its states.

    The future [mOutputBucket] is the bucket it will have: the merge is a function
    of its inputs, and [resolve] waits for it.  Whether the worker has finished
    ([mOutputReady]) is what [mergeComplete] asks.  The hash of a bucket, in
    hexadecimal, is code outside the tree (libsodium): [BucketExterns].  The bucket
    manager is the function [getBucketByHash]. *)

From Stdlib Require Import ZArith Lia String.
From stdpp Require Import base tactics gmap option list.
From S2P Require Import Prelude ScpTypes LedgerTypes LedgerOrder Bucket BucketFacts.

Open Scope Z_scope.

Abbreviation HexHash := (list N) (only parsing).

Class BucketExterns := {
  hexHash : list BucketEntry -> HexHash;
  hexHash_nonempty b : hexHash b <> [] }.

Inductive FutureState :=
| FB_CLEAR
| FB_HASH_OUTPUT
| FB_HASH_INPUTS
| FB_LIVE_OUTPUT
| FB_LIVE_INPUTS.

#[export] Instance FutureState_eq_dec : EqDecision FutureState.
Proof. solve_decision. Defined.

Record FutureBucket := mkFuture {
  mState : FutureState;
  mInputCurrBucket : option Bucket;
  mInputSnapBucket : option Bucket;
  mInputShadowBuckets : list Bucket;
  mOutputBucket : option Bucket;
  mOutputReady : bool;
  mInputCurrBucketHash : HexHash;
  mInputSnapBucketHash : HexHash;
  mInputShadowBucketHashes : list HexHash;
  mOutputBucketHash : HexHash;
  mKeepDeadEntries : bool }.

(** [FutureBucket() = default]: [mKeepDeadEntries] has no initializer, its value is
    whatever the memory held. *)
Definition emptyFuture (uninitialized : bool) : FutureBucket :=
  mkFuture FB_CLEAR None None [] None false [] [] [] [] uninitialized.

(** The serialized form: the state and the hashes of that state. *)
Inductive SavedFuture :=
| SavedClear
| SavedInputs (curr snap : HexHash) (shadow : list HexHash)
| SavedOutput (output : HexHash)
| SavedOther (state : Z).

Section future.
Context `{LedgerExterns} `{BucketExterns} (NDEBUG : bool).
Context (getBucketByHash : HexHash -> option Bucket).
Context {W : Type}.

Definition assertW (b : bool) : M W () := if NDEBUG || b then mret () else throw DbgAbort.

(** ** Queries *)

Definition isLive (f : FutureBucket) : bool :=
  bool_decide (mState f = FB_LIVE_INPUTS) || bool_decide (mState f = FB_LIVE_OUTPUT).

Definition isMerging (f : FutureBucket) : bool := bool_decide (mState f = FB_LIVE_INPUTS).

Definition hasHashes (f : FutureBucket) : bool :=
  bool_decide (mState f = FB_HASH_INPUTS) || bool_decide (mState f = FB_HASH_OUTPUT).

Definition mergeComplete (f : FutureBucket) : M W bool :=
  assertW (isLive f);; mret (mOutputReady f).

Definition hasOutputHash (f : FutureBucket) : M W bool :=
  if bool_decide (mState f = FB_LIVE_OUTPUT) || bool_decide (mState f = FB_HASH_OUTPUT)
  then assertW (negb (bool_decide (mOutputBucketHash f = [])));; mret true
  else mret false.

Definition getOutputHash (f : FutureBucket) : M W HexHash :=
  assertW (bool_decide (mState f = FB_LIVE_OUTPUT) || bool_decide (mState f = FB_HASH_OUTPUT));;
  assertW (negb (bool_decide (mOutputBucketHash f = [])));;
  mret (mOutputBucketHash f).

(** ** Checks *)

Definition checkHashEq (b : Bucket) (h : HexHash) : M W () := assertW (bool_decide (hexHash b = h)).

Fixpoint checkShadows (bs : list Bucket) (hs : list HexHash) : M W () :=
  match bs, hs with
  | [], _ => mret ()
  | _ :: _, [] => throw (RuntimeError "vector::at"%string)
  | b :: bs', h :: hs' => checkHashEq b h;; checkShadows bs' hs'
  end.

Definition checkOpt (b : option Bucket) (h : HexHash) : M W () :=
  match b with Some b => checkHashEq b h | None => mret () end.

Definition checkHashesMatch (f : FutureBucket) : M W () :=
  (if bool_decide (mInputShadowBuckets f = []) then mret ()
   else assertW (bool_decide (length (mInputShadowBuckets f) = length (mInputShadowBucketHashes f)));;
        checkShadows (mInputShadowBuckets f) (mInputShadowBucketHashes f));;
  checkOpt (mInputSnapBucket f) (mInputSnapBucketHash f);;
  checkOpt (mInputCurrBucket f) (mInputCurrBucketHash f);;
  match mOutputBucket f with
  | Some b =>
      done ← mergeComplete f;
      if (done : bool) && negb (bool_decide (mOutputBucketHash f = []))
      then checkHashEq b (mOutputBucketHash f) else mret ()
  | None => mret ()
  end.

Definition isNone {A} (o : option A) : bool := match o with None => true | Some _ => false end.
Definition isNil {A} (l : list A) : bool := match l with [] => true | _ => false end.

Definition checkFutureState (f : FutureBucket) : M W () :=
  match mState f with
  | FB_CLEAR =>
      assertW (isNil (mInputShadowBuckets f));; assertW (isNone (mInputSnapBucket f));;
      assertW (isNone (mInputCurrBucket f));; assertW (isNone (mOutputBucket f));;
      assertW (isNil (mInputShadowBucketHashes f));; assertW (isNil (mInputSnapBucketHash f));;
      assertW (isNil (mInputCurrBucketHash f));; assertW (isNil (mOutputBucketHash f))
  | FB_LIVE_INPUTS =>
      assertW (negb (isNone (mInputSnapBucket f)));; assertW (negb (isNone (mInputCurrBucket f)));;
      assertW (negb (isNone (mOutputBucket f)));; assertW (isNil (mOutputBucketHash f));;
      checkHashesMatch f
  | FB_LIVE_OUTPUT =>
      done ← mergeComplete f;
      assertW done;; assertW (negb (isNone (mOutputBucket f)));;
      assertW (negb (isNil (mOutputBucketHash f)));; checkHashesMatch f
  | FB_HASH_INPUTS =>
      assertW (isNone (mInputSnapBucket f));; assertW (isNone (mInputCurrBucket f));;
      assertW (isNone (mOutputBucket f));; assertW (negb (isNil (mInputSnapBucketHash f)));;
      assertW (negb (isNil (mInputCurrBucketHash f)));; assertW (isNil (mOutputBucketHash f))
  | FB_HASH_OUTPUT =>
      assertW (isNone (mInputSnapBucket f));; assertW (isNone (mInputCurrBucket f));;
      assertW (isNone (mOutputBucket f));; assertW (isNil (mInputSnapBucketHash f));;
      assertW (isNil (mInputCurrBucketHash f));; assertW (negb (isNil (mOutputBucketHash f)))
  end.

(** ** Transitions *)

Definition clearInputs (f : FutureBucket) : FutureBucket :=
  mkFuture (mState f) None None [] (mOutputBucket f) (mOutputReady f) [] [] []
    (mOutputBucketHash f) (mKeepDeadEntries f).

Definition clearOutput (f : FutureBucket) : FutureBucket :=
  mkFuture (mState f) (mInputCurrBucket f) (mInputSnapBucket f) (mInputShadowBuckets f) None false
    (mInputCurrBucketHash f) (mInputSnapBucketHash f) (mInputShadowBucketHashes f) []
    (mKeepDeadEntries f).

Definition setState (s : FutureState) (f : FutureBucket) : FutureBucket :=
  mkFuture s (mInputCurrBucket f) (mInputSnapBucket f) (mInputShadowBuckets f) (mOutputBucket f)
    (mOutputReady f) (mInputCurrBucketHash f) (mInputSnapBucketHash f)
    (mInputShadowBucketHashes f) (mOutputBucketHash f) (mKeepDeadEntries f).

Definition setOutput (b : option Bucket) (ready : bool) (h : HexHash) (f : FutureBucket) :
    FutureBucket :=
  mkFuture (mState f) (mInputCurrBucket f) (mInputSnapBucket f) (mInputShadowBuckets f) b ready
    (mInputCurrBucketHash f) (mInputSnapBucketHash f) (mInputShadowBucketHashes f) h
    (mKeepDeadEntries f).

Definition setInputs (curr snap : option Bucket) (shadows : list Bucket) (f : FutureBucket) :
    FutureBucket :=
  mkFuture (mState f) curr snap shadows (mOutputBucket f) (mOutputReady f)
    (mInputCurrBucketHash f) (mInputSnapBucketHash f) (mInputShadowBucketHashes f)
    (mOutputBucketHash f) (mKeepDeadEntries f).

(** [FutureBucket::clear] *)
Definition clear (f : FutureBucket) : FutureBucket := clearOutput (clearInputs (setState FB_CLEAR f)).

(** [FutureBucket::setLiveOutput] *)
Definition setLiveOutput (output : option Bucket) (f : FutureBucket) : M W FutureBucket :=
  b ← deref output;
  let f := setOutput (Some b) true (hexHash b) (setState FB_LIVE_OUTPUT f) in
  checkFutureState f;; mret f.

(** [FutureBucket::startMerge]; the worker has not run yet. *)
Definition startMerge (f : FutureBucket) : M W FutureBucket :=
  assertW (bool_decide (mState f = FB_LIVE_INPUTS));;
  assertW (negb (isNone (mInputCurrBucket f)));;
  assertW (negb (isNone (mInputSnapBucket f)));;
  assertW (isNone (mOutputBucket f));;
  curr ← deref (mInputCurrBucket f);
  snap ← deref (mInputSnapBucket f);
  res ← merge NDEBUG curr snap (mInputShadowBuckets f) (mKeepDeadEntries f);
  let f := setOutput (Some res) false (mOutputBucketHash f) f in
  checkFutureState f;; mret f.

(** The worker finishes. *)
Definition workerDone (f : FutureBucket) : FutureBucket :=
  setOutput (mOutputBucket f) (negb (isNone (mOutputBucket f))) (mOutputBucketHash f) f.

(** The constructor with inputs. *)
Definition newFuture (curr snap : Bucket) (shadows : list Bucket) (keepDeadEntries : bool) :
    M W FutureBucket :=
  startMerge (mkFuture FB_LIVE_INPUTS (Some curr) (Some snap) shadows None false
    (hexHash curr) (hexHash snap) (map hexHash shadows) [] keepDeadEntries).

(** [FutureBucket::resolve]: the bucket and the future after it. *)
Definition resolve (f : FutureBucket) : M W (Bucket * FutureBucket) :=
  checkFutureState f;;
  assertW (isLive f);;
  let f := clearInputs f in
  bucket ← deref (mOutputBucket f);
  h ← (if bool_decide (mOutputBucketHash f = []) then mret (hexHash bucket)
       else checkHashEq bucket (mOutputBucketHash f);; mret (mOutputBucketHash f));
  let f := setState FB_LIVE_OUTPUT (setOutput (Some bucket) true h f) in
  checkFutureState f;; mret (bucket, f).

Fixpoint findShadows (hs : list HexHash) : M W (list Bucket) :=
  match hs with
  | [] => mret []
  | h :: hs' =>
      assertW (negb (isNone (getBucketByHash h)));;
      b ← deref (getBucketByHash h);
      bs ← findShadows hs';
      mret (b :: bs)
  end.

(** [FutureBucket::makeLive] *)
Definition makeLive (f : FutureBucket) : M W FutureBucket :=
  checkFutureState f;;
  assertW (negb (isLive f));;
  assertW (hasHashes f);;
  hasOut ← hasOutputHash f;
  if hasOut : bool then
    h ← getOutputHash f;
    setLiveOutput (getBucketByHash h) f
  else
    assertW (bool_decide (mState f = FB_HASH_INPUTS));;
    assertW (isNil (mInputShadowBuckets f));;
    shadows ← findShadows (mInputShadowBucketHashes f);
    let f := setState FB_LIVE_INPUTS
      (setInputs (getBucketByHash (mInputCurrBucketHash f))
        (getBucketByHash (mInputSnapBucketHash f)) (mInputShadowBuckets f ++ shadows) f) in
    f ← startMerge f;
    assertW (isLive f);; mret f.

(** [FutureBucket::getHashes] *)
Definition getHashes (f : FutureBucket) : list HexHash :=
  (if isNil (mInputCurrBucketHash f) then [] else [mInputCurrBucketHash f])
  ++ (if isNil (mInputSnapBucketHash f) then [] else [mInputSnapBucketHash f])
  ++ mInputShadowBucketHashes f
  ++ (if isNil (mOutputBucketHash f) then [] else [mOutputBucketHash f]).

(** ** Serialization *)

Definition save (f : FutureBucket) : M W SavedFuture :=
  checkFutureState f;;
  mret (match mState f with
        | FB_LIVE_INPUTS | FB_HASH_INPUTS =>
            SavedInputs (mInputCurrBucketHash f) (mInputSnapBucketHash f) (mInputShadowBucketHashes f)
        | FB_LIVE_OUTPUT | FB_HASH_OUTPUT => SavedOutput (mOutputBucketHash f)
        | FB_CLEAR => SavedClear
        end).

(** [load] into the object [f]. *)
Definition load (s : SavedFuture) (f : FutureBucket) : M W FutureBucket :=
  let f := clear f in
  f ← (match s with
       | SavedInputs c sn sh =>
           mret (mkFuture FB_HASH_INPUTS (mInputCurrBucket f) (mInputSnapBucket f)
             (mInputShadowBuckets f) (mOutputBucket f) (mOutputReady f) c sn sh
             (mOutputBucketHash f) (mKeepDeadEntries f))
       | SavedOutput o => mret (setState FB_HASH_OUTPUT (setOutput (mOutputBucket f) (mOutputReady f) o f))
       | SavedClear => mret f
       | SavedOther _ => throw (RuntimeError "deserialized unexpected FutureBucket state"%string)
       end);
  checkFutureState f;; mret f.

End future.

(** ** Facts on future buckets

    The five forms a future takes in its lifecycle ([future_wf]), and every
    transition as a function on them: no assertion fails, with or without
    [NDEBUG], and what a merge resolves to is the merge of its inputs. *)

Section facts.
Context `{LedgerExterns} `{BucketExterns} {NDEBUG : bool}.
Context (getBucketByHash : list N -> option Bucket).

(** ** The forms *)

Definition running (curr snap : Bucket) (shadows : list Bucket) (keep ready : bool) : FutureBucket :=
  mkFuture FB_LIVE_INPUTS (Some curr) (Some snap) shadows
    (Some (merge_out curr snap shadows keep)) ready
    (hexHash curr) (hexHash snap) (map hexHash shadows) [] keep.

Definition resolved (b : Bucket) (keep : bool) : FutureBucket :=
  mkFuture FB_LIVE_OUTPUT None None [] (Some b) true [] [] [] (hexHash b) keep.

Definition hashInputs (curr snap : list N) (shadows : list (list N)) (keep : bool) : FutureBucket :=
  mkFuture FB_HASH_INPUTS None None [] None false curr snap shadows [] keep.

Definition hashOutput (h : list N) (keep : bool) : FutureBucket :=
  mkFuture FB_HASH_OUTPUT None None [] None false [] [] [] h keep.

Inductive future_wf : FutureBucket -> Prop :=
| wf_clear u : future_wf (emptyFuture u)
| wf_running curr snap shadows keep ready :
    bucket_sorted curr -> bucket_sorted snap -> Forall bucket_sorted shadows ->
    future_wf (running curr snap shadows keep ready)
| wf_resolved b keep : bucket_sorted b -> future_wf (resolved b keep)
| wf_hash_inputs c s sh keep : c <> [] -> s <> [] -> future_wf (hashInputs c s sh keep)
| wf_hash_output h keep : h <> [] -> future_wf (hashOutput h keep).

(** ** The checks pass *)

Lemma assertW_true {W} (w : W) : assertW NDEBUG true w = Ret () w.
Proof. unfold assertW. by rewrite orb_true_r. Qed.

Lemma assertW_bind {W A} b (k : M W A) w : b = true -> (assertW NDEBUG b;; k) w = k w.
Proof. intros ->. unfold mbind, M_bind. by rewrite assertW_true. Qed.

Lemma unit_bind {W A} (m : M W ()) (k : M W A) w : m w = Ret () w -> (m;; k) w = k w.
Proof. unfold mbind, M_bind. by intros ->. Qed.

Lemma ret_bind {W A B} (m : M W A) (k : A -> M W B) w a : m w = Ret a w -> (x ← m; k x) w = k a w.
Proof. unfold mbind, M_bind. by intros ->. Qed.

Lemma checkHashEq_run {W} b (w : W) : checkHashEq NDEBUG b (hexHash b) w = Ret () w.
Proof. unfold checkHashEq. by rewrite bool_decide_eq_true_2, assertW_true. Qed.

Lemma checkShadows_run {W} bs (w : W) : checkShadows NDEBUG bs (map hexHash bs) w = Ret () w.
Proof.
  induction bs as [|b bs IH]; simpl; [done|].
  by rewrite unit_bind by apply checkHashEq_run.
Qed.

Lemma isNil_hexHash b : isNil (hexHash b) = false.
Proof. pose proof (hexHash_nonempty b). by destruct (hexHash b). Qed.

Lemma isNil_ne {A} (l : list A) : l <> [] -> isNil l = false.
Proof. by destruct l. Qed.

(** Assertions whose condition computes to [true]. *)
Ltac asserts :=
  repeat (rewrite assertW_bind by (simpl; rewrite ?isNil_hexHash, ?isNil_ne by done; done));
  rewrite ?assertW_true.

Lemma check_wf {W} f (w : W) : future_wf f -> checkFutureState NDEBUG f w = Ret () w.
Proof.
  destruct 1 as [u|curr snap shadows keep ready|b keep|c s sh keep Hc Hs|h keep Hh];
    unfold checkFutureState; cbn [mState running resolved hashInputs hashOutput emptyFuture].
  - asserts. done.
  - asserts. unfold checkHashesMatch. cbn [mInputShadowBuckets running].
    rewrite unit_bind; [rewrite unit_bind; [rewrite unit_bind|]|].
    + cbn [mOutputBucket running].
      rewrite (ret_bind _ _ w ready) by by unfold mergeComplete; rewrite assertW_bind by done.
      cbn [mOutputBucketHash running]. by rewrite bool_decide_eq_true_2, andb_false_r.
    + apply checkHashEq_run.
    + apply checkHashEq_run.
    + case_bool_decide; [done|]. cbn [mInputShadowBucketHashes running].
      rewrite assertW_bind by (apply bool_decide_eq_true_2; by rewrite length_map).
      apply checkShadows_run.
  - rewrite (ret_bind _ _ w true); [|by unfold mergeComplete; rewrite assertW_bind by done].
    asserts. unfold checkHashesMatch. rewrite !unit_bind by done. cbn [mOutputBucket resolved].
    rewrite (ret_bind _ _ w true) by by unfold mergeComplete; rewrite assertW_bind by done.
    cbn [mOutputBucketHash resolved].
    rewrite bool_decide_eq_false_2 by apply hexHash_nonempty. apply checkHashEq_run.
  - by asserts.
  - asserts. cbn [mOutputBucketHash hashOutput]. rewrite isNil_ne by done. apply assertW_true.
Qed.

(** ** The transitions *)

Lemma clear_wf f : clear f = emptyFuture (mKeepDeadEntries f).
Proof. done. Qed.

Lemma newFuture_run {W} curr snap shadows keep (w : W) :
  bucket_sorted curr -> bucket_sorted snap -> Forall bucket_sorted shadows ->
  newFuture NDEBUG curr snap shadows keep w = Ret (running curr snap shadows keep false) w.
Proof.
  intros. unfold newFuture, startMerge. asserts.
  rewrite (ret_bind _ _ w curr), (ret_bind _ _ w snap) by done.
  rewrite (ret_bind _ _ w (merge_out curr snap shadows keep)) by by apply merge_run.
  rewrite unit_bind; [done|]. by apply check_wf, wf_running.
Qed.

Lemma workerDone_running curr snap shadows keep ready :
  workerDone (running curr snap shadows keep ready) = running curr snap shadows keep true.
Proof. done. Qed.

Lemma resolve_running {W} curr snap shadows keep ready (w : W) :
  bucket_sorted curr -> bucket_sorted snap -> Forall bucket_sorted shadows ->
  let b := merge_out curr snap shadows keep in
  resolve NDEBUG (running curr snap shadows keep ready) w = Ret (b, resolved b keep) w.
Proof.
  intros Hc Hs Hsh b. unfold resolve. rewrite unit_bind by (by apply check_wf, wf_running).
  asserts. rewrite (ret_bind _ _ w b) by done.
  rewrite (ret_bind _ _ w (hexHash b)) by done. rewrite unit_bind; [done|].
  apply (check_wf (resolved b keep)), wf_resolved. by apply merge_out_sorted.
Qed.

Lemma resolve_resolved {W} b keep (w : W) : bucket_sorted b ->
  resolve NDEBUG (resolved b keep) w = Ret (b, resolved b keep) w.
Proof.
  intros Hb. unfold resolve. rewrite unit_bind by (by apply check_wf, wf_resolved).
  asserts. rewrite (ret_bind _ _ w b) by done. cbn [mOutputBucketHash resolved clearInputs].
  rewrite bool_decide_eq_false_2 by apply hexHash_nonempty.
  rewrite (ret_bind _ _ w (hexHash b)) by by rewrite unit_bind by apply checkHashEq_run.
  rewrite unit_bind; [done|]. by apply (check_wf (resolved b keep)), wf_resolved.
Qed.

(** Making a future live again finds its buckets by their hashes. *)
Definition known (b : Bucket) : Prop := getBucketByHash (hexHash b) = Some b.

Lemma findShadows_run {W} bs (w : W) : Forall known bs ->
  findShadows NDEBUG getBucketByHash (map hexHash bs) w = Ret bs w.
Proof.
  induction 1 as [|b bs Hb Hbs IH]; simpl; [done|]. rewrite Hb. asserts.
  rewrite (ret_bind _ _ w b), (ret_bind _ _ w bs) by done. done.
Qed.

Lemma makeLive_inputs {W} curr snap shadows u (w : W) :
  bucket_sorted curr -> bucket_sorted snap -> Forall bucket_sorted shadows ->
  known curr -> known snap -> Forall known shadows ->
  makeLive NDEBUG getBucketByHash (hashInputs (hexHash curr) (hexHash snap) (map hexHash shadows) u) w
  = Ret (running curr snap shadows u false) w.
Proof.
  intros Hc Hs Hsh Kc Ks Ksh. unfold makeLive.
  rewrite unit_bind by (apply check_wf, wf_hash_inputs; apply hexHash_nonempty).
  asserts. rewrite (ret_bind _ _ w false) by done. cbn beta iota. asserts.
  rewrite (ret_bind _ _ w shadows) by by apply findShadows_run.
  cbn [mInputCurrBucketHash mInputSnapBucketHash mInputShadowBuckets hashInputs app].
  rewrite Kc, Ks.
  rewrite (ret_bind _ _ w (running curr snap shadows u false)); [by asserts|].
  by apply newFuture_run.
Qed.

Lemma makeLive_output {W} b u (w : W) : bucket_sorted b -> known b ->
  makeLive NDEBUG getBucketByHash (hashOutput (hexHash b) u) w = Ret (resolved b u) w.
Proof.
  intros Hb Kb. unfold makeLive.
  rewrite unit_bind by (apply check_wf, wf_hash_output; apply hexHash_nonempty).
  asserts. rewrite (ret_bind _ _ w true).
  2:{ unfold hasOutputHash. cbn [mState mOutputBucketHash hashOutput].
      rewrite bool_decide_eq_false_2, bool_decide_eq_true_2, orb_true_r by done.
      by rewrite bool_decide_eq_false_2, assertW_bind by (done || apply hexHash_nonempty). }
  cbn beta iota. rewrite (ret_bind _ _ w (hexHash b)).
  2:{ unfold getOutputHash. asserts. cbn [mOutputBucketHash hashOutput].
      by rewrite bool_decide_eq_false_2, assertW_bind by (done || apply hexHash_nonempty). }
  rewrite Kb. unfold setLiveOutput. rewrite (ret_bind _ _ w b) by done.
  rewrite unit_bind; [done|]. by apply (check_wf (resolved b u)), wf_resolved.
Qed.

End facts.
