(* ===== verification/BucketList.v ===== *)
(** * The list of buckets

    [bucket/BucketList.cpp]: eleven levels of buckets, each four times as large as
    the one before.  Every closed ledger adds a batch of entries to level 0, and a
    level that is half full spills its current bucket into the next one. *)

From Stdlib Require Import ZArith Lia String.
From stdpp Require Import base tactics gmap option list.
From S2P Require Import Prelude ScpTypes LedgerTypes Bucket FutureBucket.

Open Scope Z_scope.

(** ** Sizes *)

Definition kNumLevels : nat := 11.

(** [1UL << (2 * (level + 1))], as a [uint32_t]; called for levels below
    [kNumLevels], as the code asserts. *)
Definition levelSize (level : nat) : Z := u32 (Z.shiftl 1 (2 * (Z.of_nat level + 1))).

Definition levelHalf (level : nat) : Z := Z.shiftr (levelSize level) 1.

(** [v & ~(m - 1)] on [uint32_t]. *)
Definition mask (v m : Z) : Z := Z.land v (Z.lxor UINT32_MAX (u32 (m - 1))).

Definition levelShouldSpill (ledger : Z) (level : nat) : bool :=
  if (level =? kNumLevels - 1)%nat then false
  else (ledger =? mask ledger (levelHalf level)) || (ledger =? mask ledger (levelSize level)).

(** ** Levels *)

Record BucketLevel := mkLevel {
  mLevel : nat;
  mNextCurr : FutureBucket;
  mCurr : Bucket;
  mSnap : Bucket }.

Definition set_mNextCurr f (l : BucketLevel) := mkLevel (mLevel l) f (mCurr l) (mSnap l).

(** [BucketLevel::setCurr] *)
Definition setCurr (b : Bucket) (l : BucketLevel) : BucketLevel :=
  mkLevel (mLevel l) (clear (mNextCurr l)) b (mSnap l).

(** [BucketLevel::setSnap] *)
Definition setSnap (b : Bucket) (l : BucketLevel) : BucketLevel :=
  mkLevel (mLevel l) (mNextCurr l) (mCurr l) b.

(** [BucketLevel::snap]: the level after it; the result of the call is its
    [mSnap]. *)
Definition snapLevel (l : BucketLevel) : BucketLevel :=
  mkLevel (mLevel l) (mNextCurr l) [] (mCurr l).

Section list.
Context `{LedgerExterns} `{BucketExterns} (NDEBUG : bool).

(** [BucketLevel::commit] *)
Definition commitLevel {W} (l : BucketLevel) : M W BucketLevel :=
  l ← (if isLive (mNextCurr l) then
         r ← resolve NDEBUG (mNextCurr l);
         mret (setCurr r.1 (set_mNextCurr r.2 l))
       else mret l);
  assertW NDEBUG (negb (isMerging (mNextCurr l)));;
  mret l.

(** [BucketLevel::prepare] *)
Definition prepareLevel {W} (currLedger : Z) (snap : Bucket) (shadows : list Bucket)
    (l : BucketLevel) : M W BucketLevel :=
  assertW NDEBUG (negb (isMerging (mNextCurr l)));;
  let curr :=
    match mLevel l with
    | O => mCurr l
    | S below =>
        let nextChangeLedger := u32 (currLedger + levelHalf below) in
        if levelShouldSpill nextChangeLedger (mLevel l) then [] else mCurr l
    end in
  let keepDeadEntries := (mLevel l <? kNumLevels - 1)%nat in
  f ← newFuture NDEBUG curr snap shadows keepDeadEntries;
  assertW NDEBUG (isMerging f);;
  mret (set_mNextCurr f l).

(** ** The list *)

Abbreviation BucketList := (list BucketLevel) (only parsing).

(** [BucketList::BucketList] *)
Definition newBucketList (uninitialized : bool) : BucketList :=
  map (fun i => mkLevel i (emptyFuture uninitialized) [] []) (seq 0 kNumLevels).

(** [mLevels[i]] *)
Definition theLevel (i : nat) : M BucketList BucketLevel := bl ← get; deref (bl !! i).
Definition putLevel (i : nat) (l : BucketLevel) : M BucketList () := modify (fun bl => <[i := l]> bl).

(** Two calls of [shadows.pop_back()]. *)
Definition pop2 (shadows : list Bucket) : M BucketList (list Bucket) :=
  assertW NDEBUG (2 <=? length shadows)%nat;;
  mret (take (length shadows - 2) shadows).

(** The loop of [addBatch], from the level [i] down. *)
Fixpoint spillLoop (currLedger : Z) (i : nat) (shadows : list Bucket) : M BucketList (list Bucket) :=
  match i with
  | O => mret shadows
  | S below =>
      shadows ← pop2 shadows;
      (if levelShouldSpill currLedger below then
         l ← theLevel below;
         let l := snapLevel l in
         putLevel below l;;
         let snap := mSnap l in
         l ← theLevel i;
         l ← commitLevel l;
         putLevel i l;;
         l ← theLevel i;
         l ← prepareLevel currLedger snap shadows l;
         putLevel i l
       else mret ());;
      spillLoop currLedger below shadows
  end.

(** [BucketList::addBatch] *)
Definition addBatch (currLedger : Z) (liveEntries : list LedgerEntry)
    (deadEntries : list LedgerKey) : M BucketList () :=
  assertW NDEBUG (0 <? currLedger);;
  bl ← get;
  let shadows := concat (map (fun l => [mCurr l; mSnap l]) bl) in
  shadows ← pop2 shadows;
  shadows ← spillLoop currLedger (length bl - 1) shadows;
  assertW NDEBUG (isNil shadows);;
  l ← theLevel 0;
  b ← fresh NDEBUG liveEntries deadEntries;
  l ← prepareLevel currLedger b shadows l;
  putLevel 0 l;;
  l ← theLevel 0;
  l ← commitLevel l;
  putLevel 0 l.

(** ** Restarts *)

Context (getBucketByHash : list N -> option Bucket).

Fixpoint restartLoop (bl : BucketList) : M BucketList BucketList :=
  match bl with
  | [] => mret []
  | l :: bl' =>
      l ← (if hasHashes (mNextCurr l) && negb (isLive (mNextCurr l)) then
             f ← makeLive NDEBUG getBucketByHash (mNextCurr l);
             mret (set_mNextCurr f l)
           else mret l);
      rest ← restartLoop bl';
      mret (l :: rest)
  end.

(** [BucketList::restartMerges] *)
Definition restartMerges : M BucketList () :=
  bl ← get;
  bl' ← restartLoop bl;
  modify (fun _ => bl').

(** [HistoryStateBucket]: a level in the state that is saved with every ledger. *)
Record HistoryStateBucket := mkStateBucket {
  hsCurr : list N;
  hsNext : FutureBucket;
  hsSnap : list N }.

(** [HistoryArchiveState(ledgerSeq, buckets)] *)
Definition archiveState (bl : BucketList) : list HistoryStateBucket :=
  map (fun l => mkStateBucket (hexHash (mCurr l)) (mNextCurr l) (hexHash (mSnap l))) bl.

(** Writing the state as JSON and reading it back into new objects; the
    [mKeepDeadEntries] of the one of level [i] is [uninitialized i]. *)
Fixpoint reloadState {W} (uninitialized : nat -> bool) (has : list HistoryStateBucket) :
    M W (list HistoryStateBucket) :=
  match has with
  | [] => mret []
  | b :: has' =>
      s ← save NDEBUG (hsNext b);
      f ← load NDEBUG s (emptyFuture (uninitialized 0%nat));
      rest ← reloadState (fun i => uninitialized (S i)) has';
      mret (mkStateBucket (hsCurr b) f (hsSnap b) :: rest)
  end.

(** [BucketManagerImpl::assumeState]: the loop over the [n] levels from [i] on, and
    the merges. *)
Fixpoint assumeLoop (has : list HistoryStateBucket) (n i : nat) : M BucketList () :=
  match n with
  | O => mret ()
  | S n' =>
      match has !! i with
      | None => throw (RuntimeError "vector::at"%string)
      | Some b =>
          match getBucketByHash (hsCurr b), getBucketByHash (hsSnap b) with
          | Some curr, Some snap =>
              l ← theLevel i;
              putLevel i (set_mNextCurr (hsNext b) (setSnap snap (setCurr curr l)));;
              assumeLoop has n' (S i)
          | _, _ =>
              throw (RuntimeError "Missing bucket files while assuming saved BucketList state"%string)
          end
      end
  end.

Definition assumeState (has : list HistoryStateBucket) : M BucketList () :=
  assumeLoop has kNumLevels 0;; restartMerges.

End list.
