(* ===== verification/BucketManager.v ===== *)
(** * The bucket manager

    [bucket/BucketManagerImpl.cpp]: the buckets in memory, by hash, and the files of the
    bucket directory; adopting the file a merge has written, finding a bucket by
    its hash, forgetting the buckets nothing refers to, and the skip list of the
    ledger header.

    A file is its contents.  A [Bucket] object deletes its file when it is destroyed
    and not retained ([mRetain]); how many [shared_ptr]s there are to a bucket of the
    map ([use_count]) is an argument, it depends on the worker threads. *)

From Stdlib Require Import ZArith Lia String.
From stdpp Require Import base tactics gmap option list.
From S2P Require Import Prelude ScpTypes LedgerTypes LedgerDelta Bucket FutureBucket BucketList.

Open Scope Z_scope.

Record SharedBucket := mkShared { sbEntries : Bucket; sbRetain : bool }.

Record BucketManager := mkManager {
  mSharedBuckets : gmap HexHash SharedBucket;
  mFiles : gmap HexHash Bucket }.

Definition set_shared s (m : BucketManager) := mkManager s (mFiles m).
Definition set_files f (m : BucketManager) := mkManager (mSharedBuckets m) f.

Section manager.
Context `{LedgerExterns} `{BucketExterns}.

(** [isZero(hash)]: the empty bucket has the hash 0. *)
Definition isZeroHash (h : HexHash) : bool := bool_decide (h = hexHash []).

(** [BucketManagerImpl::getBucketByHash] *)
Definition getBucketByHash (h : HexHash) : M BucketManager (option Bucket) :=
  if isZeroHash h then mret (Some [])
  else
    m ← get;
    match mSharedBuckets m !! h with
    | Some b => mret (Some (sbEntries b))
    | None =>
        match mFiles m !! h with
        | Some b =>
            modify (set_shared (<[h := mkShared b false]> (mSharedBuckets m)));;
            mret (Some b)
        | None => mret None
        end
    end.

(** [BucketManagerImpl::adoptFileAsBucket], of a temporary file with the entries
    [b]. *)
Definition adoptFileAsBucket (b : Bucket) : M BucketManager Bucket :=
  let h := hexHash b in
  existing ← getBucketByHash h;
  match existing with
  | Some b' => mret b'
  | None =>
      modify (fun m => set_files (<[h := b]> (mFiles m)) m);;
      modify (fun m => set_shared
        (match mSharedBuckets m !! h with
         | Some _ => mSharedBuckets m
         | None => <[h := mkShared b false]> (mSharedBuckets m)
         end) m);;
      mret b
  end.

(** The hashes the list and the publish queue refer to. *)
Definition referencedHashes (bl : list BucketLevel) (pub : list HexHash) : list HexHash :=
  concat (map (fun l => hexHash (mCurr l) :: hexHash (mSnap l) :: getHashes (mNextCurr l)) bl) ++ pub.

(** [BucketManagerImpl::forgetUnreferencedBuckets]: an entry is erased, and its file
    deleted with the object, or retained. *)
Fixpoint forgetLoop (referenced : list HexHash) (useCount : HexHash -> Z)
    (l : list (HexHash * SharedBucket)) : M BucketManager () :=
  match l with
  | [] => mret ()
  | (h, b) :: l' =>
      (if negb (bool_decide (h ∈ referenced)) && (useCount h =? 1) then
         modify (fun m => mkManager (delete h (mSharedBuckets m)) (delete h (mFiles m)))
       else
         modify (fun m => set_shared (<[h := mkShared (sbEntries b) true]> (mSharedBuckets m)) m));;
      forgetLoop referenced useCount l'
  end.

Definition forgetUnreferencedBuckets (bl : list BucketLevel) (pub : list HexHash)
    (useCount : HexHash -> Z) : M BucketManager () :=
  m ← get;
  forgetLoop (referencedHashes bl pub) useCount (map_asc (mSharedBuckets m)).

(** ** The skip list *)

Definition SKIP_1 : Z := 50.
Definition SKIP_2 : Z := 5000.
Definition SKIP_3 : Z := 50000.
Definition SKIP_4 : Z := 500000.

(** [skipList], [bucketListHash] of the header. *)
Record SkipHeader := mkSkip {
  skipSeq : Z;
  bucketListHash : HexHash;
  skip0 : HexHash;
  skip1 : HexHash;
  skip2 : HexHash;
  skip3 : HexHash }.

(** [BucketManagerImpl::calculateSkipValues]: [ledgerSeq] is a [uint32_t], [v] an [int]. *)
Definition calculateSkipValues (h : SkipHeader) : SkipHeader :=
  if skipSeq h mod SKIP_1 =? 0 then
    let v := s32 (u32 (skipSeq h - SKIP_1)) in
    let h :=
      if (0 <? v) && (Z.rem v SKIP_2 =? 0) then
        let v := s32 (u32 (skipSeq h - SKIP_2 - SKIP_1)) in
        let h :=
          if (0 <? v) && (Z.rem v SKIP_3 =? 0) then
            let v := s32 (u32 (skipSeq h - SKIP_3 - SKIP_2 - SKIP_1)) in
            let h :=
              if (0 <? v) && (Z.rem v SKIP_4 =? 0)
              then mkSkip (skipSeq h) (bucketListHash h) (skip0 h) (skip1 h) (skip2 h) (skip2 h)
              else h in
            mkSkip (skipSeq h) (bucketListHash h) (skip0 h) (skip1 h) (skip1 h) (skip3 h)
          else h in
        mkSkip (skipSeq h) (bucketListHash h) (skip0 h) (skip0 h) (skip2 h) (skip3 h)
      else h in
    mkSkip (skipSeq h) (bucketListHash h) (bucketListHash h) (skip1 h) (skip2 h) (skip3 h)
  else h.

(** [BucketManagerImpl::snapshotLedger]; [getHash] is [BucketList::getHash], a SHA-256 of
    the hashes of the buckets. *)
Definition snapshotLedger (getHash : list BucketLevel -> HexHash) (bl : list BucketLevel)
    (h : SkipHeader) : SkipHeader :=
  calculateSkipValues (mkSkip (skipSeq h) (getHash bl) (skip0 h) (skip1 h) (skip2 h) (skip3 h)).

End manager.
