(* ===== verification/BucketListFacts.v ===== *)
(** * The steps of the list of buckets

    When levels spill; and that [addBatch] computes every level of the new list from the
    levels of the old one ([newLevel]): the loop that goes down the levels and takes its
    shadows off a stack is gone. *)

From Stdlib Require Import ZArith Lia String Znumtheory.
From stdpp Require Import base tactics gmap option list.
From S2P Require Import Prelude ScpTypes LedgerTypes LedgerOrder Bucket BucketFacts FutureBucket.
From S2P Require Import BucketList.

Open Scope Z_scope.

(** ** When levels spill *)

Lemma levelSize_pow j : (j <= 10)%nat -> levelSize j = 2 ^ (2 * (Z.of_nat j + 1)).
Proof. intros Hj. do 11 (destruct j as [|j]; [reflexivity|]). lia. Qed.

Lemma levelHalf_pow j : (j <= 10)%nat -> levelHalf j = 2 ^ (2 * Z.of_nat j + 1).
Proof. intros Hj. do 11 (destruct j as [|j]; [reflexivity|]). lia. Qed.

Lemma mask_pow n k : 0 <= n <= UINT32_MAX -> 0 <= k < 32 -> mask n (2 ^ k) = n - n mod 2 ^ k.
Proof.
  intros Hn Hk. unfold mask.
  assert (0 < 2 ^ k) by (apply Z.pow_pos_nonneg; lia).
  assert (2 ^ k <= 2 ^ 32) by (apply Z.pow_le_mono_r; lia).
  rewrite u32_id by (unfold UINT32_MAX; lia).
  change UINT32_MAX with (Z.ones 32). replace (2 ^ k - 1) with (Z.ones k) by (rewrite Z.ones_equiv; lia).
  assert (E : Z.land n (Z.lxor (Z.ones 32) (Z.ones k)) = Z.ldiff n (Z.ones k)).
  { apply Z.bits_inj'. intros i Hi. rewrite Z.land_spec, Z.lxor_spec, Z.ldiff_spec.
    rewrite !Z.testbit_ones_nonneg by lia.
    destruct (Z.ltb_spec i 32), (Z.ltb_spec i k); simpl; try lia; try done.
    rewrite (Z.bits_above_log2 n i); [done|lia|].
    destruct (Z.eq_dec n 0) as [->|]; [simpl; lia|]. apply Z.log2_lt_pow2; [lia|].
    unfold UINT32_MAX in Hn. apply Z.lt_le_trans with (2 ^ 32); [lia|].
    apply Z.pow_le_mono_r; lia. }
  rewrite E, Z.ldiff_ones_r, Z.shiftl_mul_pow2, Z.shiftr_div_pow2 by lia.
  pose proof (Z.div_mod n (2 ^ k)). lia.
Qed.

Lemma divide_half_size j : (j <= 10)%nat -> (levelHalf j | levelSize j).
Proof. intros Hj. do 11 (destruct j as [|j]; [by exists 2|]). lia. Qed.

(** A level spills at the multiples of its half; the last one never does. *)
Lemma spill_divide n j : 0 <= n <= UINT32_MAX -> (j < 10)%nat ->
  levelShouldSpill n j = true <-> (levelHalf j | n).
Proof.
  intros Hn Hj. unfold levelShouldSpill, kNumLevels.
  destruct (Nat.eqb_spec j (11 - 1)) as [->|_]; [lia|].
  rewrite orb_true_iff, !Z.eqb_eq.
  assert (Hm : forall k, 0 <= k < 32 -> n = mask n (2 ^ k) <-> (2 ^ k | n)).
  { intros k Hk. rewrite mask_pow by done. rewrite <- Z.mod_divide by lia. lia. }
  pose proof (divide_half_size j ltac:(lia)) as Hd.
  rewrite levelHalf_pow, levelSize_pow in * by lia. rewrite !Hm by lia.
  split; [|by left]. intros [?|?]; [done|by etrans].
Qed.

Lemma spill_top n : levelShouldSpill n 10 = false.
Proof. done. Qed.

Lemma half_pos j : (j <= 10)%nat -> 0 < levelHalf j.
Proof. intros. rewrite levelHalf_pow by done. apply Z.pow_pos_nonneg; lia. Qed.

Lemma half_divide j : (j < 10)%nat -> (levelHalf j | levelHalf (S j)).
Proof. intros Hj. do 10 (destruct j as [|j]; [by exists 4|]). lia. Qed.

(** A level that spills empties all the levels before it into each other. *)
Lemma spill_down n j : 0 <= n <= UINT32_MAX -> (j < 10)%nat ->
  levelShouldSpill n (S j) = true -> levelShouldSpill n j = true.
Proof.
  intros Hn Hj. destruct (decide (S j = 10%nat)) as [->|]; [done|].
  rewrite !spill_divide by lia. pose proof (half_divide j ltac:(lia)). intros. by etrans.
Qed.

(** The last ledger up to [n] at which level [j] has spilled. *)
Definition lastSpill (n : Z) (j : nat) : Z := n - n mod levelHalf j.

Lemma lastSpill_at n j : (j < 10)%nat -> 0 <= n <= UINT32_MAX ->
  levelShouldSpill n j = true -> lastSpill n j = n.
Proof.
  intros Hj Hn. rewrite spill_divide by lia. intros Hd. unfold lastSpill.
  pose proof (half_pos j ltac:(lia)). rewrite (proj2 (Z.mod_divide n (levelHalf j) ltac:(lia)) Hd). lia.
Qed.

Lemma lastSpill_keep n j : (j < 10)%nat -> 0 <= n -> n + 1 <= UINT32_MAX ->
  levelShouldSpill (n + 1) j = false -> lastSpill (n + 1) j = lastSpill n j.
Proof.
  intros Hj Hn Hm. rewrite <- not_true_iff_false, spill_divide by lia. unfold lastSpill. intros Hd.
  pose proof (half_pos j ltac:(lia)) as Hp. rewrite <- Z.mod_divide in Hd by lia.
  pose proof (Z.mod_pos_bound n (levelHalf j) Hp). pose proof (Z.mod_pos_bound (n + 1) (levelHalf j) Hp).
  rewrite <- (Z.add_mod_idemp_l n 1) in * by lia.
  destruct (Z.eq_dec (n mod levelHalf j + 1) (levelHalf j)) as [E|].
  - rewrite E, Z.mod_same in Hd by lia. done.
  - rewrite (Z.mod_small (n mod levelHalf j + 1)) by lia. lia.
Qed.

Lemma lastSpill_next n j : (j < 10)%nat -> 0 <= n -> n + 1 <= UINT32_MAX ->
  levelShouldSpill (n + 1) j = true -> u32 (lastSpill n j + levelHalf j) = n + 1.
Proof.
  intros Hj Hn Hm. rewrite spill_divide by lia. unfold lastSpill. intros Hd.
  pose proof (half_pos j ltac:(lia)) as Hp. rewrite <- Z.mod_divide in Hd by lia.
  pose proof (Z.mod_pos_bound n (levelHalf j) Hp).
  rewrite <- (Z.add_mod_idemp_l n 1) in Hd by lia.
  destruct (Z.eq_dec (n mod levelHalf j + 1) (levelHalf j)) as [E|].
  - rewrite u32_id; lia.
  - rewrite (Z.mod_small (n mod levelHalf j + 1)) in Hd by lia. lia.
Qed.

Section step.
Context `{LedgerExterns} `{BucketExterns} {NDEBUG : bool}.

(** What the merge of a level gives, nothing when there is none. *)
Definition outOf (f : FutureBucket) : Bucket := default [] (mOutputBucket f).

Lemma outOf_running curr snap shadows keep ready :
  outOf (running curr snap shadows keep ready) = merge_out curr snap shadows keep.
Proof. done. Qed.

(** A future between calls: clear, or a merge of sorted buckets. *)
Definition next_wf (f : FutureBucket) : Prop := future_wf f /\ hasHashes f = false.

Record level_wf (i : nat) (l : BucketLevel) : Prop := {
  lw_level : mLevel l = i;
  lw_curr : bucket_sorted (mCurr l);
  lw_snap : bucket_sorted (mSnap l);
  lw_next : next_wf (mNextCurr l) }.

Lemma next_wf_cases f : next_wf f ->
  (exists u, f = emptyFuture u) \/
  isLive f = true /\ bucket_sorted (outOf f) /\
  forall W (w : W), resolve NDEBUG f w = Ret (outOf f, resolved (outOf f) (mKeepDeadEntries f)) w.
Proof.
  intros [Hf Hh]. destruct Hf; try discriminate Hh; [by left; eexists|right..].
  - split_and!; [done|by apply merge_out_sorted|]. intros. by apply resolve_running.
  - split_and!; [done..|]. intros. by apply resolve_resolved.
Qed.

(** ** Commit and prepare as functions *)

Definition committed (l : BucketLevel) : BucketLevel :=
  if isLive (mNextCurr l)
  then mkLevel (mLevel l) (emptyFuture (mKeepDeadEntries (mNextCurr l))) (outOf (mNextCurr l)) (mSnap l)
  else l.

Lemma commitLevel_run {W} i l (w : W) : level_wf i l ->
  commitLevel NDEBUG l w = Ret (committed l) w.
Proof.
  intros [_ _ _ Hn]. unfold commitLevel, committed.
  destruct (next_wf_cases _ Hn) as [[u E]|(E & _ & Hr)].
  - rewrite E. rewrite (ret_bind _ _ w l) by done. rewrite E. by rewrite assertW_bind.
  - rewrite E. erewrite ret_bind; [|by erewrite ret_bind by apply Hr]. by rewrite assertW_bind.
Qed.

Lemma committed_wf i l : level_wf i l -> level_wf i (committed l).
Proof.
  intros Hl. assert (Hl' := Hl). destruct Hl as [Hi Hc Hs Hn]. unfold committed.
  destruct (next_wf_cases _ Hn) as [[u E]|(E & Ho & _)]; [by rewrite E|]. rewrite E.
  split; simpl; try done. by split; [constructor|].
Qed.

Lemma committed_clear l i : level_wf i l -> exists u, mNextCurr (committed l) = emptyFuture u.
Proof.
  intros [_ _ _ Hn]. unfold committed.
  destruct (next_wf_cases _ Hn) as [[u E]|(E & _)]; rewrite E; by eexists.
Qed.

(** The bucket of its own a level merges. *)
Definition ownInput (n : Z) (l : BucketLevel) : Bucket :=
  match mLevel l with
  | O => mCurr l
  | S below => if levelShouldSpill (u32 (n + levelHalf below)) (mLevel l) then [] else mCurr l
  end.

Definition prepared (n : Z) (snap : Bucket) (shadows : list Bucket) (l : BucketLevel) : BucketLevel :=
  set_mNextCurr (running (ownInput n l) snap shadows (mLevel l <? kNumLevels - 1)%nat false) l.

Lemma ownInput_sorted n l i : level_wf i l -> bucket_sorted (ownInput n l).
Proof.
  intros [_ Hc _ _]. unfold ownInput. destruct (mLevel l); [done|]. case_match; [constructor|done].
Qed.

Lemma prepareLevel_run {W} n i snap shadows l u (w : W) : level_wf i l ->
  mNextCurr l = emptyFuture u -> bucket_sorted snap -> Forall bucket_sorted shadows ->
  prepareLevel NDEBUG n snap shadows l w = Ret (prepared n snap shadows l) w.
Proof.
  intros Hl Hu Hs Hsh. unfold prepareLevel. rewrite Hu. rewrite assertW_bind by done.
  fold (ownInput n l).
  rewrite (ret_bind _ _ w (running (ownInput n l) snap shadows (mLevel l <? kNumLevels - 1)%nat false)).
  - by rewrite assertW_bind.
  - apply newFuture_run; try done. by eapply ownInput_sorted.
Qed.

Lemma prepared_wf n i snap shadows l : level_wf i l -> bucket_sorted snap ->
  Forall bucket_sorted shadows -> level_wf i (prepared n snap shadows l).
Proof.
  intros Hl Hs Hsh. assert (Hl' := Hl). destruct Hl'. split; try done.
  split; [|done]. constructor; try done. by eapply ownInput_sorted.
Qed.

(** ** The new levels *)

Definition snapIf (n : Z) (j : nat) (l : BucketLevel) : BucketLevel :=
  if levelShouldSpill n j then snapLevel l else l.

(** The buckets of the levels below [j]. *)
Definition shadowsOf (old : nat -> BucketLevel) (j : nat) : list Bucket :=
  concat (map (fun i => [mCurr (old i); mSnap (old i)]) (seq 0 j)).

(** The level [j] after the loop. *)
Definition spilledLevel (n : Z) (old : nat -> BucketLevel) (j : nat) : BucketLevel :=
  let l := snapIf n j (old j) in
  match j with
  | O => l
  | S b => if levelShouldSpill n b
           then prepared n (mCurr (old b)) (shadowsOf old b) (committed l) else l
  end.

(** The level [j] after the batch, whose bucket is [F]. *)
Definition newLevel (n : Z) (F : Bucket) (old : nat -> BucketLevel) (j : nat) : BucketLevel :=
  match j with
  | O => committed (prepared n F [] (spilledLevel n old 0))
  | S _ => spilledLevel n old j
  end.

Definition tabulate (f : nat -> BucketLevel) : list BucketLevel := map f (seq 0 kNumLevels).

Lemma tabulate_lookup f i : (i < kNumLevels)%nat -> tabulate f !! i = Some (f i).
Proof.
  intros Hi. unfold tabulate. rewrite list_lookup_fmap, lookup_seq_lt by lia. done.
Qed.

Lemma tabulate_ext f g : (forall i, (i < kNumLevels)%nat -> f i = g i) -> tabulate f = tabulate g.
Proof.
  intros E. unfold tabulate. apply map_ext_in. intros i Hi. apply E. apply in_seq in Hi. lia.
Qed.

Lemma tabulate_insert f i l : (i < kNumLevels)%nat ->
  <[i := l]> (tabulate f) = tabulate (fun j => if decide (j = i) then l else f j).
Proof.
  intros Hi. apply list_eq. intros j. destruct (decide (j < kNumLevels)%nat) as [Hj|Hj].
  - rewrite tabulate_lookup by done. case_decide as E.
    + subst j. apply list_lookup_insert_eq. unfold tabulate. by rewrite length_map, length_seq.
    + by rewrite list_lookup_insert_ne, tabulate_lookup by done.
  - rewrite !lookup_ge_None_2; [done|..];
      rewrite ?length_insert; unfold tabulate; rewrite length_map, length_seq; lia.
Qed.

Lemma shadowsOf_sorted old j : (forall i, (i < j)%nat -> level_wf i (old i)) ->
  Forall bucket_sorted (shadowsOf old j).
Proof.
  intros Hw. unfold shadowsOf. apply Forall_concat, Forall_map, Forall_forall.
  intros i Hi%elem_of_seq. destruct (Hw i); [lia|]. by repeat constructor.
Qed.

Lemma pop2_run old b w : pop2 NDEBUG (shadowsOf old (S b)) w = Ret (shadowsOf old b) w.
Proof.
  unfold pop2, shadowsOf. rewrite seq_S, map_app, concat_app.
  set (x := concat (map _ (seq 0 b))). cbn [map concat app].
  rewrite assertW_bind by (apply Nat.leb_le; rewrite length_app; simpl; lia).
  rewrite take_app_length'; [done|]. rewrite length_app. simpl. lia.
Qed.

(** The levels when the loop has come down to [i]. *)
Definition loopLevel (n : Z) (old : nat -> BucketLevel) (i j : nat) : BucketLevel :=
  if decide (i < j)%nat then spilledLevel n old j
  else if decide (j = i) then snapIf n j (old j) else old j.

Lemma loopLevel_step n old b j : loopLevel n old b j =
  if decide (j = S b) then spilledLevel n old (S b)
  else if decide (j = b) then snapIf n b (old b) else loopLevel n old (S b) j.
Proof.
  unfold loopLevel. repeat case_decide; subst; try done; lia.
Qed.

Lemma snapIf_wf n j l : level_wf j l -> level_wf j (snapIf n j l).
Proof. intros [? ? ? ?]. unfold snapIf. case_match; [|done]. split; try done. constructor. Qed.

Lemma theLevel_bind {A} i l (k : BucketLevel -> M (list BucketLevel) A) bl : bl !! i = Some l ->
  (x ← theLevel i; k x) bl = k l bl.
Proof. intros E. unfold theLevel, mbind, M_bind, get, deref. by rewrite E. Qed.

Lemma putLevel_bind {A} i l (k : M (list BucketLevel) A) bl :
  (putLevel i l;; k) bl = k (<[i := l]> bl).
Proof. done. Qed.

(** One turn of the loop. *)
Lemma spill_turn n old b : (b < 10)%nat -> (forall j, (j < kNumLevels)%nat -> level_wf j (old j)) ->
  (if levelShouldSpill n b then
     l ← theLevel b;
     let l := snapLevel l in
     putLevel b l;;
     let snap := mSnap l in
     l ← theLevel (S b);
     l ← commitLevel NDEBUG l;
     putLevel (S b) l;;
     l ← theLevel (S b);
     l ← prepareLevel NDEBUG n snap (shadowsOf old b) l;
     putLevel (S b) l
   else mret ()) (tabulate (loopLevel n old (S b))) = Ret () (tabulate (loopLevel n old b)).
Proof.
  intros Hb Hw. destruct (levelShouldSpill n b) eqn:Es; last first.
  { unfold mret, M_ret. f_equal. apply tabulate_ext. intros j Hj. rewrite (loopLevel_step n old b).
    unfold loopLevel, spilledLevel, snapIf. rewrite Es. repeat case_decide; subst; try done; lia. }
  assert (Hlt : (S b < kNumLevels)%nat) by (unfold kNumLevels; lia).
  assert (HS : loopLevel n old (S b) (S b) = snapIf n (S b) (old (S b))).
  { unfold loopLevel. by rewrite decide_False, decide_True by lia. }
  assert (Hb' : loopLevel n old (S b) b = old b).
  { unfold loopLevel. by rewrite !decide_False by lia. }
  pose proof (snapIf_wf n (S b) _ (Hw (S b) Hlt)) as HwS.
  rewrite (theLevel_bind b (old b)) by (rewrite tabulate_lookup, Hb' by lia; done).
  cbn zeta. rewrite putLevel_bind, tabulate_insert by lia.
  rewrite (theLevel_bind (S b) (snapIf n (S b) (old (S b))))
    by (rewrite tabulate_lookup, decide_False, HS by lia; done).
  erewrite ret_bind by by eapply commitLevel_run. rewrite putLevel_bind, tabulate_insert by lia.
  rewrite (theLevel_bind (S b) (committed (snapIf n (S b) (old (S b)))))
    by (rewrite tabulate_lookup, decide_True by done; done).
  destruct (committed_clear _ _ HwS) as [u Hu].
  erewrite ret_bind; [|eapply prepareLevel_run; [by apply committed_wf|exact Hu|..]].
  - unfold putLevel, modify. f_equal. rewrite tabulate_insert by lia. apply tabulate_ext.
    intros j Hj. rewrite (loopLevel_step n old b).
    assert (E1 : spilledLevel n old (S b) =
      prepared n (mCurr (old b)) (shadowsOf old b) (committed (snapIf n (S b) (old (S b)))))
      by (unfold spilledLevel; by rewrite Es).
    assert (E2 : snapIf n b (old b) = snapLevel (old b)) by (unfold snapIf; by rewrite Es).
    rewrite E1, E2. repeat case_decide; subst; done.
  - apply (Hw b). lia.
  - apply shadowsOf_sorted. intros i Hi. apply Hw. lia.
Qed.

Lemma spillLoop_run n old i : (i <= 10)%nat ->
  (forall j, (j < kNumLevels)%nat -> level_wf j (old j)) ->
  spillLoop NDEBUG n i (shadowsOf old i) (tabulate (loopLevel n old i))
  = Ret [] (tabulate (spilledLevel n old)).
Proof.
  intros Hi Hw. induction i as [|b IH].
  - done.
  - cbn [spillLoop]. rewrite (ret_bind _ _ _ (shadowsOf old b)) by apply pop2_run.
    pose proof (spill_turn n old b ltac:(lia) Hw) as Ht.
    etrans; [exact (run_bind _ _ _ _ _ Ht)|]. apply IH. lia.
Qed.

(** The whole batch. *)
Lemma addBatch_run n old live dead F : 0 < n ->
  (forall j, (j < kNumLevels)%nat -> level_wf j (old j)) ->
  (exists u, mNextCurr (old 0%nat) = emptyFuture u) ->
  fresh NDEBUG live dead (tabulate (spilledLevel n old)) = Ret F (tabulate (spilledLevel n old)) ->
  bucket_sorted F ->
  addBatch NDEBUG n live dead (tabulate old) = Ret () (tabulate (newLevel n F old)).
Proof.
  intros Hn Hw [u Hu] HF HsF. unfold addBatch. rewrite assertW_bind by by apply Z.ltb_lt.
  rewrite (ret_bind _ _ _ (tabulate old)) by done. cbn zeta.
  change (concat _) with (shadowsOf old 11).
  rewrite (ret_bind _ _ _ (shadowsOf old 10)) by apply pop2_run.
  change (tabulate old) with (tabulate (loopLevel n old 10)).
  etrans; [apply (run_bind _ _ _ _ _ (spillLoop_run n old 10 ltac:(lia) Hw))|].
  rewrite assertW_bind by done.
  rewrite (theLevel_bind 0 (spilledLevel n old 0)) by done.
  rewrite (ret_bind _ _ _ F) by done.
  pose proof (snapIf_wf n 0 _ (Hw 0%nat ltac:(unfold kNumLevels; lia))) as Hw0.
  assert (Hu0 : mNextCurr (spilledLevel n old 0) = emptyFuture u).
  { unfold spilledLevel, snapIf. by case_match. }
  erewrite ret_bind by (eapply prepareLevel_run; eauto).
  rewrite putLevel_bind, tabulate_insert by (unfold kNumLevels; lia).
  rewrite (theLevel_bind 0 (prepared n F [] (spilledLevel n old 0))) by done.
  erewrite ret_bind by (eapply commitLevel_run, prepared_wf; eauto).
  unfold putLevel, modify. rewrite tabulate_insert by (unfold kNumLevels; lia). done.
Qed.

End step.
