(* ===== verification/BucketListTheorems.v ===== *)
(** * Theorems on buckets and the list of buckets

    [Bucket::merge] and [Bucket::fresh] against their specifications, the lifecycle of
    a future bucket, and the theorem the list exists for: whatever the levels have
    spilled, shadowed and dropped, looking an entry up in the list from the newest
    bucket to the oldest gives the ledger that the batches have made
    ([bucket_list_refines_ledger]). *)

From Stdlib Require Import ZArith Lia String.
From stdpp Require Import base tactics gmap option list.
From S2P Require Import Prelude ScpTypes LedgerTypes LedgerOrder LedgerDelta LedgerDeltaFacts LedgerDeltaTheorems.
From S2P Require Import Bucket BucketFacts FutureBucket BucketList BucketListFacts.

Open Scope Z_scope.

Definition orElse {A} (a b : option A) : option A := match a with Some _ => a | None => b end.

(** What an entry of a bucket says of the ledger. *)
Definition liveOf (o : option BucketEntry) : option LedgerEntry :=
  match o with Some (LIVEENTRY e) => Some e | _ => None end.

Lemma orElse_assoc {A} (a b c : option A) : orElse (orElse a b) c = orElse a (orElse b c).
Proof. by destruct a. Qed.

Lemma orElse_None_r {A} (a : option A) : orElse a None = a.
Proof. by destruct a. Qed.

Lemma orElse_None {A} (a b : option A) : orElse a b = None <-> a = None /\ b = None.
Proof. destruct a; simpl; naive_solver. Qed.

Section theorems.
Context `{LedgerExterns} `{BucketExterns} {NDEBUG : bool}.

(** ** Looking up in several buckets *)

(** The entry of an identity in the first bucket that has one. *)
Fixpoint lookAll (bs : list Bucket) (k : LedgerId) : option BucketEntry :=
  match bs with
  | [] => None
  | b :: bs' => orElse (look b k) (lookAll bs' k)
  end.

Lemma lookAll_app bs bs' k : lookAll (bs ++ bs') k = orElse (lookAll bs k) (lookAll bs' k).
Proof. induction bs as [|b bs IH]; simpl; [done|]. by rewrite IH, orElse_assoc. Qed.

Lemma shadowedBy_lookAll bs k : shadowedBy bs k = negb (bool_decide (lookAll bs k = None)).
Proof.
  induction bs as [|b bs IH]; [done|]. unfold shadowedBy in *. simpl. rewrite IH.
  by destruct (look b k).
Qed.

(** The ledger the list stands for: the newest entry of every identity. *)
Definition visible (bl : list BucketLevel) (k : LedgerId) : option LedgerEntry :=
  liveOf (lookAll (concat (map (fun l => [mCurr l; mSnap l]) bl)) k).

(** ** The invariant *)

Section level.
Context (lv : nat -> BucketLevel) (k : LedgerId).

Definition lookCurr (j : nat) := look (mCurr (lv j)) k.
Definition lookSnap (j : nat) := look (mSnap (lv j)) k.

(** In the levels below [j]; and there or in the current bucket of [j]. *)
Definition lookBelow (j : nat) := lookAll (shadowsOf lv j) k.
Definition lookUpto (j : nat) := orElse (lookBelow j) (lookCurr j).

Lemma lookBelow_0 : lookBelow 0 = None.
Proof. done. Qed.

Lemma lookBelow_S j : lookBelow (S j) = orElse (lookUpto j) (lookSnap j).
Proof.
  unfold lookBelow, lookUpto, shadowsOf. rewrite seq_S, map_app, concat_app, lookAll_app. simpl.
  by rewrite orElse_None_r, orElse_assoc.
Qed.

End level.

(** Dead entries are dropped at the last level. *)
Definition dropDead (j : nat) (o : option BucketEntry) : option BucketEntry :=
  match o with
  | Some e => if (j <? kNumLevels - 1)%nat || negb (isDead e) then Some e else None
  | None => None
  end.

(** Whether the pending merge of level [b + 1], begun when level [b] has last
    spilled, takes in the level's own current bucket. *)
Definition includesOwn (n : Z) (b : nat) : bool :=
  negb (levelShouldSpill (u32 (lastSpill n b + levelHalf b)) (S b)).

Record list_inv (n : Z) (lv : nat -> BucketLevel) : Prop := {
  li_wf j : (j < kNumLevels)%nat -> level_wf j (lv j);
  li_next0 : exists u, mNextCurr (lv 0%nat) = emptyFuture u;
  li_top : mSnap (lv 10%nat) = [];
  li_clear b u : (b < 10)%nat -> mNextCurr (lv (S b)) = emptyFuture u ->
    mSnap (lv b) = [] /\ mCurr (lv (S b)) = [];
  li_merge b k : (b < 10)%nat -> lookUpto lv k b = None ->
    look (outOf (mNextCurr (lv (S b)))) k =
    dropDead (S b) (orElse (lookSnap lv k b) (if includesOwn n b then lookCurr lv k (S b) else None)) }.

Lemma list_inv_init u : list_inv 0 (fun i => mkLevel i (emptyFuture u) [] []).
Proof.
  split.
  - intros j Hj. split; try done; try constructor; constructor.
  - by exists u.
  - done.
  - done.
  - intros b k Hb _. unfold lookSnap, lookCurr. simpl. by case_match.
Qed.

(** ** The new levels *)

Section new.
Context (n : Z) (F : Bucket) (lv : nat -> BucketLevel).
Hypothesis Hn : 0 <= n.
Hypothesis Hmax : n + 1 <= UINT32_MAX.
Hypothesis Hinv : list_inv n lv.
Hypothesis HF : bucket_sorted F.

Abbreviation spill := (levelShouldSpill (n + 1)) (only parsing).
Abbreviation new := (newLevel (n + 1) F lv) (only parsing).

Lemma new_snap j : mSnap (new j) = if spill j then mCurr (lv j) else mSnap (lv j).
Proof.
  assert (E : mSnap (spilledLevel (n + 1) lv j) = if spill j then mCurr (lv j) else mSnap (lv j)).
  { unfold spilledLevel, snapIf, prepared, committed.
    destruct j as [|b]; repeat case_match; done. }
  destruct j as [|b]; [|done]. rewrite <- E. unfold newLevel, committed. by case_match.
Qed.

Lemma new_curr_0 : mCurr (new 0%nat) = merge_out (if spill 0%nat then [] else mCurr (lv 0%nat)) F [] true.
Proof.
  pose proof (lw_level _ _ (li_wf _ _ Hinv 0%nat ltac:(unfold kNumLevels; lia))) as Hl.
  assert (E : mLevel (spilledLevel (n + 1) lv 0) = 0%nat) by (unfold spilledLevel, snapIf; by case_match).
  assert (Eo : ownInput (n + 1) (spilledLevel (n + 1) lv 0)
    = if levelShouldSpill (n + 1) 0 then [] else mCurr (lv 0%nat)).
  { unfold ownInput. rewrite E. unfold spilledLevel, snapIf. by case_match. }
  unfold newLevel, committed, prepared. rewrite Eo, E. done.
Qed.

Lemma new_curr_S b : (b < 10)%nat ->
  mCurr (new (S b)) = if spill b then outOf (mNextCurr (lv (S b))) else mCurr (lv (S b)).
Proof.
  intros Hb. unfold newLevel, spilledLevel.
  pose proof (lw_next _ _ (li_wf _ _ Hinv (S b) ltac:(unfold kNumLevels; lia))) as Hw.
  destruct (levelShouldSpill (n + 1) b) eqn:Es.
  - simpl. unfold committed.
    assert (E : mNextCurr (snapIf (n + 1) (S b) (lv (S b))) = mNextCurr (lv (S b)))
      by (unfold snapIf; by case_match).
    rewrite E. destruct (next_wf_cases (NDEBUG := NDEBUG) _ Hw) as [[u Eu]|(-> & _)]; [|done].
    rewrite Eu. simpl. destruct (li_clear _ _ Hinv b u Hb Eu) as [_ Ec].
    unfold snapIf. by case_match.
  - unfold snapIf. destruct (levelShouldSpill (n + 1) (S b)) eqn:Es'; [|done].
    apply spill_down in Es'; [congruence|lia..].
Qed.

Lemma new_next_S b : (b < 10)%nat ->
  mNextCurr (new (S b)) =
    if spill b
    then running (if levelShouldSpill (u32 (n + 1 + levelHalf b)) (S b) then [] else mCurr (new (S b)))
      (mCurr (lv b)) (shadowsOf lv b) (S b <? kNumLevels - 1)%nat false
    else mNextCurr (lv (S b)).
Proof.
  intros Hb. unfold newLevel at 1, spilledLevel. destruct (levelShouldSpill (n + 1) b) eqn:Es.
  - unfold prepared. cbn [mNextCurr set_mNextCurr].
    assert (El : mLevel (committed (snapIf (n + 1) (S b) (lv (S b)))) = S b).
    { apply lw_level, (committed_wf (NDEBUG := NDEBUG)), snapIf_wf, (li_wf _ _ Hinv). unfold kNumLevels; lia. }
    unfold ownInput. rewrite El. unfold newLevel, spilledLevel. by rewrite Es.
  - unfold snapIf. by case_match.
Qed.

Lemma new_wf j : (j < kNumLevels)%nat -> level_wf j (new j).
Proof.
  intros Hj. pose proof (snapIf_wf (n + 1) j _ (li_wf _ _ Hinv j Hj)) as Hw.
  destruct j as [|b]; unfold newLevel, spilledLevel.
  - apply (committed_wf (NDEBUG := NDEBUG)), prepared_wf; [done|done|constructor].
  - case_match; [|done]. apply prepared_wf; [by apply (committed_wf (NDEBUG := NDEBUG))| |].
    + apply (li_wf _ _ Hinv). lia.
    + apply shadowsOf_sorted. intros i Hi. apply (li_wf _ _ Hinv). lia.
Qed.

Lemma dropDead_below j o : (j < 10)%nat -> dropDead j o = o.
Proof.
  intros Hj. unfold dropDead. destruct o as [e|]; [|done].
  by replace (j <? kNumLevels - 1)%nat with true by (symmetry; apply Nat.ltb_lt; unfold kNumLevels; lia).
Qed.

(** A merge about to be committed has taken the level's own bucket in unless the
    level spills as well. *)
Lemma includesOwn_spill b : (b < 10)%nat -> spill b = true -> includesOwn n b = negb (spill (S b)).
Proof. intros Hb Es. unfold includesOwn. by rewrite lastSpill_next by done. Qed.

(** What is found in the new levels: the batch first, then what the old levels had;
    the current bucket of a level that spills is found one bucket later. *)
Lemma new_upto k j : (j < 10)%nat ->
  lookUpto new k j =
    orElse (look F k) (if spill j then lookBelow lv k j else lookUpto lv k j).
Proof.
  intros Hj. induction j as [|b IH].
  - unfold lookUpto at 1, lookCurr. rewrite lookBelow_0, new_curr_0, look_merge_out; [|case_match|done].
    2: constructor. 2: apply (li_wf _ _ Hinv); unfold kNumLevels; lia.
    unfold merged_at, lookUpto. rewrite !lookBelow_0. cbn [shadowedBy existsb orElse].
    destruct (look F k); [done|]. unfold lookCurr. destruct (levelShouldSpill (n + 1) 0); [done|]. by destruct (look _ k).
  - unfold lookUpto at 1. rewrite lookBelow_S, IH by lia. unfold lookSnap at 1, lookCurr at 1.
    rewrite new_snap, new_curr_S by lia. rewrite (lookBelow_S lv).
    destruct (levelShouldSpill (n + 1) b) eqn:Es.
    + fold (lookCurr lv k b). rewrite !orElse_assoc.
      rewrite <- (orElse_assoc (lookBelow lv k b)). fold (lookUpto lv k b).
      f_equal. unfold lookUpto at 3. rewrite lookBelow_S, orElse_assoc.
      destruct (lookUpto lv k b) eqn:Eu; [by case_match|].
      rewrite (li_merge _ _ Hinv), dropDead_below, includesOwn_spill by (done || lia).
      destruct (levelShouldSpill (n + 1) (S b)); simpl; by rewrite ?orElse_None_r.
    + assert (Es' : levelShouldSpill (n + 1) (S b) = false).
      { apply not_true_iff_false. intros E. apply spill_down in E; [congruence|lia..]. }
      rewrite Es'. unfold lookUpto at 2. rewrite lookBelow_S. by rewrite !orElse_assoc.
Qed.

Lemma new_upto_None k j : (j < 10)%nat -> lookUpto new k j = None ->
  look F k = None /\ lookBelow lv k j = None /\ (spill j = false -> lookUpto lv k j = None).
Proof.
  intros Hj. rewrite new_upto, orElse_None by done. intros [HFk Hb]. split; [done|].
  destruct (levelShouldSpill (n + 1) j); [done|]. split; [|done].
  unfold lookUpto in Hb. by apply orElse_None in Hb as [? _].
Qed.

(** The invariant is preserved. *)
Lemma new_inv : list_inv (n + 1) new.
Proof.
  split.
  - apply new_wf.
  - by eexists.
  - rewrite new_snap, spill_top. apply Hinv.
  - intros b u Hb. rewrite new_next_S, new_snap, new_curr_S by done.
    destruct (levelShouldSpill (n + 1) b) eqn:Es; [done|]. by apply (li_clear _ _ Hinv).
  - intros b k Hb Hu. apply new_upto_None in Hu as (HFk & Hbel & Hup); [|lia].
    rewrite new_next_S by done. unfold lookSnap, includesOwn. rewrite new_snap.
    destruct (levelShouldSpill (n + 1) b) eqn:Es.
    + rewrite lastSpill_at by (done || lia). rewrite outOf_running, look_merge_out.
      * rewrite shadowedBy_lookAll. fold (lookBelow lv k b). rewrite Hbel.
        unfold merged_at, dropDead, lookCurr. cbn [bool_decide negb].
        destruct (levelShouldSpill (u32 (n + 1 + levelHalf b)) (S b));
          destruct (look (mCurr (lv b)) k); simpl; try done; by destruct (look _ k).
      * case_match; [constructor|]. apply new_wf. unfold kNumLevels; lia.
      * apply (li_wf _ _ Hinv). unfold kNumLevels; lia.
    + rewrite lastSpill_keep by (done || lia). unfold lookCurr. rewrite new_curr_S, Es by done.
      apply (li_merge _ _ Hinv); auto.
Qed.

(** The ledger the list stands for changes by the batch alone. *)
Lemma new_visible k : visible (tabulate new) k =
  match look F k with Some e => liveOf (Some e) | None => visible (tabulate lv) k end.
Proof.
  change (visible (tabulate new) k) with (liveOf (lookBelow new k 11)).
  change (visible (tabulate lv) k) with (liveOf (lookBelow lv k 11)).
  rewrite !(lookBelow_S _ k 10). unfold lookSnap. rewrite new_snap, spill_top, (li_top _ _ Hinv).
  simpl. rewrite !orElse_None_r. unfold lookUpto. rewrite !(lookBelow_S _ k 9), new_upto by lia.
  unfold lookSnap at 1, lookCurr at 1. rewrite new_snap, new_curr_S by lia.
  destruct (look F k) as [e|]; [done|]. cbn [orElse].
  destruct (levelShouldSpill (n + 1) 9) eqn:Es; [|by rewrite !orElse_assoc].
  fold (lookCurr lv k 9). fold (lookUpto lv k 9). rewrite orElse_assoc.
  destruct (lookUpto lv k 9) eqn:Eu; [done|]. cbn [orElse].
  rewrite (li_merge _ _ Hinv), includesOwn_spill, spill_top by (done || lia). cbn [negb].
  unfold dropDead. destruct (orElse _ _) as [[e|d]|]; done.
Qed.

End new.

(** ** Batches *)

Lemma look_dead dead k : look (map DEADENTRY dead) k = None <-> k ∉ map idOf dead.
Proof.
  induction dead as [|d dead IH]; simpl; [split; [intros _; apply not_elem_of_nil|done]|].
  rewrite not_elem_of_cons. change (bid (DEADENTRY d)) with (idOf d). case_decide; naive_solver.
Qed.

Lemma dead_lookup (dead : list LedgerKey) (L : gmap LedgerId LedgerEntry) k :
  (foldl (fun L k => delete (idOf k) L) L dead) !! k =
  if decide (k ∈ map idOf dead) then None else L !! k.
Proof.
  revert L. induction dead as [|d dead IH]; intros L; [done|]. cbn [foldl map]. rewrite IH.
  destruct (decide (k ∈ map idOf dead)), (decide (k ∈ idOf d :: map idOf dead)) as [Hc|Hc]; try done.
  - destruct Hc. by right.
  - apply elem_of_cons in Hc as [->|?]; [apply lookup_delete_eq|done].
  - rewrite lookup_delete_ne; [done|]. intros <-. apply Hc. left.
Qed.

Lemma live_lookup (live : list LedgerEntry) (L : gmap LedgerId LedgerEntry) k :
  NoDup (map (fun e => idOf (data e)) live) ->
  (foldl (fun L e => <[idOf (data e) := e]> L) L live) !! k =
  match look (map LIVEENTRY live) k with Some e => liveOf (Some e) | None => L !! k end.
Proof.
  revert L. induction live as [|e live IH]; intros L Hnd; [done|]. cbn [foldl map look].
  apply NoDup_cons in Hnd as [He Hnd]. rewrite IH by done.
  change (bid (LIVEENTRY e)) with (idOf (data e)). case_decide as E.
  - rewrite (proj2 (look_None _ _)), <- E; [apply lookup_insert_eq|].
    apply Forall_map, Forall_forall. intros x Hx Ex. apply He. rewrite E, <- Ex.
    apply list_elem_of_fmap. by exists x.
  - destruct (look _ k); [done|]. by apply lookup_insert_ne.
Qed.

Lemma look_live live k e : look (map LIVEENTRY live) k = Some e -> exists x, e = LIVEENTRY x.
Proof. intros (x & -> & _)%look_elem%list_elem_of_fmap. by exists x. Qed.

(** The bucket of a batch does to the ledger what the batch does. *)
Lemma batch_lookup F live dead L k : batch_ok live dead ->
  look F k = orElse (look (map DEADENTRY dead) k) (look (map LIVEENTRY live) k) ->
  applyBatch live dead L !! k =
    match look F k with Some e => liveOf (Some e) | None => L !! k end.
Proof.
  intros [Hl Hd] HF. unfold applyBatch. rewrite dead_lookup, live_lookup, HF by done.
  destruct (look (map DEADENTRY dead) k) as [e|] eqn:E.
  - rewrite decide_True.
    + simpl. by apply look_elem, list_elem_of_fmap in E as (d & -> & _).
    + apply dec_stable. rewrite <- look_dead, E. done.
  - rewrite decide_False; [|by apply look_dead]. simpl. done.
Qed.

(** A list of buckets that stands for a ledger after [n] batches. *)
Definition represents (n : Z) (bl : list BucketLevel) (L : gmap LedgerId LedgerEntry) : Prop :=
  exists lv, bl = tabulate lv /\ list_inv n lv /\ forall k, visible bl k = L !! k.

Lemma addBatch_represents n bl L live dead : 0 <= n -> n + 1 <= UINT32_MAX ->
  represents n bl L -> batch_ok live dead ->
  exists bl', addBatch NDEBUG (n + 1) live dead bl = Ret () bl' /\
    represents (n + 1) bl' (applyBatch live dead L).
Proof.
  intros Hn Hm (lv & -> & Hi & Hv) Hb.
  destruct (fresh_run (NDEBUG := NDEBUG) live dead Hb) as (F & HF & Hf & Hl).
  eexists. split.
  - apply (addBatch_run _ _ _ _ F); [lia|apply Hi|apply Hi|apply Hf|done].
  - eexists. split; [done|]. split; [by apply new_inv|]. intros k.
    rewrite new_visible by done. rewrite (batch_lookup F), Hv; [done..|].
    rewrite Hl. by destruct (look (map DEADENTRY dead) k).
Qed.

(** One batch per ledger, from ledger [n + 1] on. *)
Fixpoint addBatches (n : Z) (batches : list (list LedgerEntry * list LedgerKey)) :
    M (list BucketLevel) () :=
  match batches with
  | [] => mret ()
  | (live, dead) :: rest => addBatch NDEBUG (n + 1) live dead;; addBatches (n + 1) rest
  end.

Definition ledgerAfter (batches : list (list LedgerEntry * list LedgerKey))
    (L : gmap LedgerId LedgerEntry) : gmap LedgerId LedgerEntry :=
  foldl (fun L b => applyBatch b.1 b.2 L) L batches.

Lemma addBatches_represents batches n bl L : 0 <= n ->
  n + Z.of_nat (length batches) <= UINT32_MAX -> represents n bl L ->
  Forall (fun b => batch_ok b.1 b.2) batches ->
  exists bl', addBatches n batches bl = Ret () bl' /\
    represents (n + Z.of_nat (length batches)) bl' (ledgerAfter batches L).
Proof.
  revert n bl L. induction batches as [|[live dead] batches IH]; intros n bl L Hn Hm Hr Hf.
  { exists bl. split; [done|]. simpl. by rewrite Z.add_0_r. }
  apply Forall_cons in Hf as [Hb Hf]. cbn [length] in Hm.
  destruct (addBatch_represents n bl L live dead) as (bl1 & E1 & H1); [lia..|done|done|].
  destruct (IH (n + 1) bl1 (applyBatch live dead L)) as (bl' & E & H2); [lia..|done|done|].
  exists bl'. split.
  - cbn [addBatches]. unfold mbind, M_bind. by rewrite E1.
  - cbn [length ledgerAfter foldl]. replace (n + Z.of_nat (S (length batches)))
      with (n + 1 + Z.of_nat (length batches)) by lia. done.
Qed.

Lemma newBucketList_represents u : represents 0 (newBucketList u) ∅.
Proof.
  exists (fun i => mkLevel i (emptyFuture u) [] []). split; [done|]. split; [apply list_inv_init|].
  intros k. by rewrite lookup_empty.
Qed.

(** ** The theorems *)

(** C27. [Bucket::merge] of sorted buckets returns (no assertion fails) and its result
    is sorted: every identity once, in increasing order.  An identity has the new
    entry if there is one and the old one otherwise, except that it has none when
    one of the shadows has it, or when the entry is dead and dead entries are not
    kept. *)
Theorem merge_semantics {W} (oldB newB : list BucketEntry) (shadows : list (list BucketEntry))
    (keep : bool) (w : W) :
  bucket_sorted oldB -> bucket_sorted newB -> Forall bucket_sorted shadows ->
  exists b, merge NDEBUG oldB newB shadows keep w = Ret b w /\ bucket_sorted b /\
    forall k, look b k =
      if bool_decide (lookAll shadows k = None) then
        match orElse (look newB k) (look oldB k) with
        | Some e => if keep || negb (isDead e) then Some e else None
        | None => None
        end
      else None.
Proof.
  intros Ho Hn Hs. exists (merge_out oldB newB shadows keep).
  split_and!; [by apply merge_run|by apply merge_out_sorted|]. intros k.
  rewrite look_merge_out, shadowedBy_lookAll by done. unfold merged_at.
  case_bool_decide; simpl; [|done]. by destruct (look newB k).
Qed.

(** [Bucket::fresh] of a batch with at most one live and one dead entry per
    identity returns a sorted bucket that does to any ledger what the batch does:
    live entries are put, dead ones deleted. *)
Theorem fresh_semantics (live : list LedgerEntry) (dead : list LedgerKey)
    (L : gmap LedgerId LedgerEntry) : batch_ok live dead ->
  exists F, (forall W (w : W), fresh NDEBUG live dead w = Ret F w) /\ bucket_sorted F /\
    forall k, applyBatch live dead L !! k =
      match look F k with Some e => liveOf (Some e) | None => L !! k end.
Proof.
  intros Hb. destruct (fresh_run (NDEBUG := NDEBUG) live dead Hb) as (F & HF & Hf & Hl).
  exists F. split_and!; [done..|]. intros k. apply batch_lookup; [done|].
  rewrite Hl. by destruct (look (map DEADENTRY dead) k).
Qed.

(** A level of the list spills exactly at the multiples of half its size, 2 for
    level 0 and four times more for each level after it; the last level never
    spills; a level spills only together with all the levels before it. *)
Theorem spill_schedule n j : 0 <= n <= UINT32_MAX -> (j < kNumLevels)%nat ->
  (levelShouldSpill n j = true <->
    (j < kNumLevels - 1)%nat /\ (2 * 4 ^ Z.of_nat j | n)) /\
  (levelShouldSpill n j = true -> forall i, (i <= j)%nat -> levelShouldSpill n i = true).
Proof.
  intros Hn Hj. unfold kNumLevels in *.
  assert (E : (j <= 10)%nat -> levelHalf j = 2 * 4 ^ Z.of_nat j).
  { intros Hj'. rewrite levelHalf_pow, Z.add_comm, Z.pow_add_r, Z.pow_mul_r by lia. done. }
  split.
  - destruct (decide (j = 10%nat)) as [->|Hne]; [rewrite spill_top; intuition (lia || done)|].
    rewrite spill_divide, E by lia. intuition lia.
  - intros Hs i Hi. remember (j - i)%nat as d eqn:Hd. revert i Hi Hd.
    induction d as [|d IH]; intros i Hi Hd; [by replace i with j by lia|].
    apply spill_down; [done|lia|]. apply IH; lia.
Qed.

(** C2. The list of buckets is a faithful representation of the ledger.  Start with
    an empty list and add one batch per ledger, with at most one live and one dead
    entry per identity in each: no call throws or fails an assertion, and after it
    looking up any identity from the newest bucket to the oldest, a dead entry
    counting as absent, gives the ledger that results from applying the batches in
    order.  Spilling, the merges that are still pending, the shadowing of newer
    levels and the dropping of dead entries at the last level lose nothing and
    bring nothing back. *)
Theorem bucket_list_refines_ledger u batches :
  Z.of_nat (length batches) <= UINT32_MAX -> Forall (fun b => batch_ok b.1 b.2) batches ->
  exists bl, addBatches 0 batches (newBucketList u) = Ret () bl /\
    forall k, visible bl k = ledgerAfter batches ∅ !! k.
Proof.
  intros Hl Hb.
  destruct (addBatches_represents batches 0 (newBucketList u) ∅) as (bl & E & _ & _ & _ & Hv);
    [done|lia|apply newBucketList_represents|done|]. by exists bl.
Qed.

(** ** Restarts *)

Context (getBucketByHash : list N -> option Bucket).

(** The transitions of a future in the program. *)
Inductive future_step : FutureBucket -> FutureBucket -> Prop :=
| fs_worker f : isLive f = true -> future_step f (workerDone f)
| fs_clear f : future_step f (clear f)
| fs_resolve f b f' : isLive f = true -> resolve NDEBUG f () = Ret (b, f') () -> future_step f f'
| fs_start f curr snap shadows keep f' :
    bucket_sorted curr -> bucket_sorted snap -> Forall bucket_sorted shadows ->
    newFuture NDEBUG curr snap shadows keep () = Ret f' () -> future_step f f'
| fs_reload f s g f' : save NDEBUG f () = Ret s () -> load NDEBUG s g () = Ret f' () ->
    future_step f f'.

Lemma save_wf {W} f (w : W) : future_wf f -> save NDEBUG f w = Ret (match mState f with
  | FB_LIVE_INPUTS | FB_HASH_INPUTS =>
      SavedInputs (mInputCurrBucketHash f) (mInputSnapBucketHash f) (mInputShadowBucketHashes f)
  | FB_LIVE_OUTPUT | FB_HASH_OUTPUT => SavedOutput (mOutputBucketHash f)
  | FB_CLEAR => SavedClear end) w.
Proof. intros Hf. unfold save. by rewrite unit_bind by by apply check_wf. Qed.

(** What a saved future is when it is loaded into the object [g]. *)
Definition reloaded (f g : FutureBucket) : FutureBucket :=
  match mState f with
  | FB_LIVE_INPUTS | FB_HASH_INPUTS =>
      hashInputs (mInputCurrBucketHash f) (mInputSnapBucketHash f) (mInputShadowBucketHashes f)
        (mKeepDeadEntries g)
  | FB_LIVE_OUTPUT | FB_HASH_OUTPUT => hashOutput (mOutputBucketHash f) (mKeepDeadEntries g)
  | FB_CLEAR => emptyFuture (mKeepDeadEntries g)
  end.

Lemma reloaded_wf f g : future_wf f -> future_wf (reloaded f g).
Proof. destruct 1; simpl; constructor; try done; apply hexHash_nonempty. Qed.

Lemma reload_run {W} f g s (w : W) : future_wf f -> save NDEBUG f w = Ret s w ->
  load NDEBUG s g w = Ret (reloaded f g) w.
Proof.
  intros Hf. rewrite save_wf by done. intros [= <-].
  pose proof (reloaded_wf f g Hf) as Hr. unfold load, reloaded in *.
  destruct (mState f); (erewrite ret_bind; [|done]); rewrite unit_bind; try done; by apply check_wf.
Qed.

Lemma resolve_wf f b f' : future_wf f -> isLive f = true ->
  resolve NDEBUG f () = Ret (b, f') () -> f' = resolved b (mKeepDeadEntries f) /\ bucket_sorted b.
Proof.
  intros Hf Hl. assert (Hn : next_wf f) by (split; [done|by destruct Hf]).
  destruct (next_wf_cases (NDEBUG := NDEBUG) f Hn) as [[u ->]|(_ & Hs & Hr)]; [done|].
  rewrite Hr. by intros [= <- <-].
Qed.

Lemma future_step_wf f f' : future_wf f -> future_step f f' -> future_wf f'.
Proof.
  intros Hf Hstep. revert Hf.
  destruct Hstep as [g Hl|g|g b g' Hl Hr|g curr snap shadows keep g' Hc Hs Hsh Hn|g s h g' Hs Hl];
    intros Hf.
  - destruct Hf; try discriminate Hl; by constructor.
  - rewrite clear_wf. constructor.
  - apply resolve_wf in Hr as [-> ?]; [by constructor|done..].
  - rewrite newFuture_run in Hn by done. injection Hn as <-. by constructor.
  - rewrite (reload_run _ _ _ _ Hf Hs) in Hl. injection Hl as <-. by apply reloaded_wf.
Qed.

(** The lifecycle of a future bucket.  Whatever sequence of steps an object has
    gone through since it was constructed (merges started on sorted buckets, the
    worker finishing, resolving, clearing, saving and loading), it is in one of
    the five combinations of state and members that [FutureBucket.h] lists, so
    that [checkState] passes; and when it is live, [resolve] returns. *)
Theorem future_lifecycle u f : rtc future_step (emptyFuture u) f ->
  future_wf f /\ checkFutureState NDEBUG f () = Ret () () /\
  (isLive f = true -> exists b f', resolve NDEBUG f () = Ret (b, f') () /\ bucket_sorted b /\
    mOutputBucket f = Some b).
Proof.
  intros Hr. assert (Hf : future_wf f).
  { revert Hr. apply (rtc_ind_r (fun f => future_wf f)); [constructor|].
    intros x y _ Hs Hx. by apply (future_step_wf x). }
  split_and!; [done|by apply check_wf|]. intros Hl.
  destruct Hf; try discriminate Hl.
  - eexists _, _. split; [by apply resolve_running|]. split; [by apply merge_out_sorted|done].
  - eexists _, _. split; [by apply resolve_resolved|done].
Qed.

(** Saving a running merge, loading it into a new object and making it live
    again restarts the merge on the same inputs, but with the [mKeepDeadEntries] of
    the new object: [load] does not restore it and nothing initializes it.  The
    restarted merge is the saved one exactly when that value happens to be right. *)
Theorem restart_of_merge curr snap shadows keep ready u :
  bucket_sorted curr -> bucket_sorted snap -> Forall bucket_sorted shadows ->
  known getBucketByHash curr -> known getBucketByHash snap ->
  Forall (known getBucketByHash) shadows ->
  exists s f, save NDEBUG (running curr snap shadows keep ready) () = Ret s () /\
    (g ← load NDEBUG s (emptyFuture u); makeLive NDEBUG getBucketByHash g) () = Ret f () /\
    f = running curr snap shadows u false /\
    (f = running curr snap shadows keep false <-> u = keep).
Proof.
  intros Hc Hs Hsh Kc Ks Ksh.
  assert (Hw : future_wf (running curr snap shadows keep ready)) by by constructor.
  eexists _, (running curr snap shadows u false). split; [by apply save_wf|].
  erewrite ret_bind; [|by apply (reload_run _ (emptyFuture u) _ _ Hw), save_wf].
  split_and!; [by apply makeLive_inputs|done|]. unfold running. split; [congruence|by intros ->].
Qed.

End theorems.
