(* ===== verification/HistoryState.v ===== *)
(** * The stored state of the list of buckets

    [history/HistoryArchive.cpp]: the state that is stored with every ledger and
    published in the archives, the hashes it refers to and the ones another state
    lacks; [BucketManagerImpl::checkForMissingBucketsFiles]; how [LedgerManagerImpl] stores
    the state and loads it again; and [differingBuckets] against its specification in
    [HistoryArchive.h]: the buckets to fetch to turn one state into another. *)

From Stdlib Require Import ZArith Lia String.
From stdpp Require Import base tactics gmap option list.
From S2P Require Import Prelude ScpTypes LedgerTypes LedgerOrder LedgerDelta Bucket BucketFacts FutureBucket.
From S2P Require Import BucketList BucketManager BucketListFacts.

Open Scope Z_scope.

Section state.
Context `{LedgerExterns} `{BucketExterns} (NDEBUG : bool).

Definition set_hsNext f (b : HistoryStateBucket) := mkStateBucket (hsCurr b) f (hsSnap b).

(** ** Futures *)

Fixpoint futuresAllResolved (has : list HistoryStateBucket) : bool :=
  match has with
  | [] => true
  | b :: has' => if isMerging (hsNext b) then false else futuresAllResolved has'
  end.

Fixpoint resolveAllFutures {W : Type} (has : list HistoryStateBucket) : M W (list HistoryStateBucket) :=
  match has with
  | [] => mret []
  | b :: has' =>
      b ← (if isMerging (hsNext b) then
             r ← resolve NDEBUG (hsNext b); mret (set_hsNext r.2 b)
           else mret b);
      rest ← resolveAllFutures has';
      mret (b :: rest)
  end.

Fixpoint resolveAnyReadyFutures {W : Type} (has : list HistoryStateBucket) : M W (list HistoryStateBucket) :=
  match has with
  | [] => mret []
  | b :: has' =>
      ready ← (if isMerging (hsNext b) then mergeComplete NDEBUG (hsNext b) else mret false);
      b ← (if ready : bool then
             r ← resolve NDEBUG (hsNext b); mret (set_hsNext r.2 b)
           else mret b);
      rest ← resolveAnyReadyFutures has';
      mret (b :: rest)
  end.

(** ** The buckets of a state *)

(** [std::set<std::string>], in ascending order. *)
Definition allBuckets (has : list HistoryStateBucket) : list HexHash :=
  set_asc (list_to_set (concat (map (fun b =>
    hsCurr b :: hsSnap b :: getHashes (hsNext b)) has)) : gset HexHash).

(** The hash of the output of a future that has one. *)
Definition outputHash {W : Type} (f : FutureBucket) : M W (option HexHash) :=
  hasOut ← hasOutputHash NDEBUG f;
  if hasOut : bool then h ← getOutputHash NDEBUG f; mret (Some h) else mret None.

(** The hashes of [other] in [differingBuckets]. *)
Fixpoint inhibitLoop {W : Type} (other : list HistoryStateBucket) (inhibit : gset HexHash) : M W (gset HexHash) :=
  match other with
  | [] => mret inhibit
  | b :: other' =>
      let inhibit := {[hsCurr b]} ∪ inhibit in
      next ← (if isLive (hsNext b) then r ← resolve NDEBUG (hsNext b); mret r.2 else mret (hsNext b));
      o ← outputHash next;
      let inhibit := match o with Some h => {[h]} ∪ inhibit | None => inhibit end in
      inhibitLoop other' ({[hsSnap b]} ∪ inhibit)
  end.

(** The innermost loop: the hashes that are new, and the set after them. *)
Fixpoint pushNew (bs : list HexHash) (ret : list HexHash) (inhibit : gset HexHash) :
    list HexHash * gset HexHash :=
  match bs with
  | [] => (ret, inhibit)
  | j :: bs' =>
      if bool_decide (j ∈ inhibit) then pushNew bs' ret inhibit
      else pushNew bs' (ret ++ [j]) ({[j]} ∪ inhibit)
  end.

Fixpoint differLoop {W : Type} (this : list HistoryStateBucket) (i : nat) (ret : list HexHash)
    (inhibit : gset HexHash) : M W (list HexHash) :=
  match i with
  | O => mret ret
  | S i' =>
      b ← deref (this !! i');
      let s := hsSnap b in
      o ← outputHash (hsNext b);
      let n := default s o in
      let c := hsCurr b in
      let r := pushNew [s; n; c] ret inhibit in
      differLoop this i' r.1 r.2
  end.

(** [HistoryArchiveState::differingBuckets] *)
Definition differingBuckets {W : Type} (this other : list HistoryStateBucket) : M W (list HexHash) :=
  assertW NDEBUG (futuresAllResolved this);;
  inhibit ← inhibitLoop other {[hexHash []]};
  differLoop this kNumLevels [] inhibit.

(** [BucketManagerImpl::checkForMissingBucketsFiles] *)
Definition checkForMissingBucketsFiles (m : BucketManager) (has : list HistoryStateBucket) : list HexHash :=
  base.filter (fun h => isZeroHash h = false /\ mFiles m !! h = None) (allBuckets has).

(** ** Storing and loading the state *)

(** The end of [LedgerManagerImpl::closeLedgerHelper]. *)
Definition storedState {W : Type} (pessimizeMerges : bool) (bl : list BucketLevel) :
    M W (list HistoryStateBucket) :=
  if pessimizeMerges then mret (archiveState bl) else resolveAnyReadyFutures (archiveState bl).

(** [LedgerManagerImpl::loadLastKnownLedger], from the stored state on: whether the
    state was assumed, or files are missing and are left to a download.
    [pubmissing] is what the publish queue misses.  [getBucketByHash] only adds objects
    for files that are there, so that every call of it is on the same [m]. *)
Definition loadLastKnown (uninitialized : nat -> bool) (m : BucketManager) (pubmissing : list HexHash)
    (stored : list HistoryStateBucket) : M (list BucketLevel) bool :=
  has ← reloadState NDEBUG uninitialized stored;
  assertW NDEBUG (futuresAllResolved has);;
  if isNil (checkForMissingBucketsFiles m has ++ pubmissing) then
    assumeState NDEBUG (fun h =>
      match getBucketByHash h m with Ret b _ => b | Exn _ _ => None end) has;;
    mret true
  else mret false.

End state.

Section state.
Context `{LedgerExterns} `{BucketExterns} {NDEBUG : bool}.

(** ** The hashes of a level *)

Definition outHash (f : FutureBucket) : option HexHash :=
  match mState f with
  | FB_LIVE_OUTPUT | FB_HASH_OUTPUT => Some (mOutputBucketHash f)
  | _ => None
  end.

Lemma outputHash_run {W : Type} f (w : W) : future_wf f -> outputHash NDEBUG f w = Ret (outHash f) w.
Proof.
  intros Hf. unfold outputHash, hasOutputHash, getOutputHash.
  assert (Hne : outHash f <> None -> bool_decide (mOutputBucketHash f = []) = false).
  { intros Hn. apply bool_decide_eq_false_2. destruct Hf; try done. apply hexHash_nonempty. }
  unfold outHash in *. destruct (mState f); try done.
  all: rewrite ?(bool_decide_eq_true_2 (FB_LIVE_OUTPUT = FB_LIVE_OUTPUT)),
    ?(bool_decide_eq_true_2 (FB_HASH_OUTPUT = FB_HASH_OUTPUT)), ?orb_true_r, ?orb_true_l by done.
  all: rewrite Hne by done; erewrite ret_bind by by rewrite assertW_bind.
  all: cbn beta iota; erewrite ret_bind by by rewrite !assertW_bind. all: done.
Qed.

(** What [differingBuckets] takes from a level of the state itself, in its order. *)
Definition ownHashes (b : HistoryStateBucket) : list HexHash :=
  [hsSnap b; default (hsSnap b) (outHash (hsNext b)); hsCurr b].

(** What the other state already has: a merge that runs counts as its result. *)
Definition otherHashes (b : HistoryStateBucket) : list HexHash :=
  hsCurr b :: hsSnap b ::
    (if isLive (hsNext b) then [hexHash (outOf (hsNext b))] else option_list (outHash (hsNext b))).

Lemma inhibitLoop_run {W : Type} (other : list HistoryStateBucket) (s : gset HexHash) (w : W) :
  Forall (fun b => future_wf (hsNext b)) other ->
  exists s', inhibitLoop NDEBUG other s w = Ret s' w /\
    forall h, h ∈ s' <-> h ∈ s \/ h ∈ concat (map otherHashes other).
Proof.
  intros Hf. revert s. induction Hf as [|b other Hb Ho IH]; intros s.
  { exists s. split; [done|]. intros h. simpl. rewrite elem_of_nil. tauto. }
  set (next := if isLive (hsNext b) then resolved (outOf (hsNext b)) (mKeepDeadEntries (hsNext b))
               else hsNext b).
  assert (Hn : (if isLive (hsNext b) then r ← resolve NDEBUG (hsNext b); mret r.2
                else mret (hsNext b)) w = Ret next w /\ future_wf next).
  { unfold next. destruct (isLive (hsNext b)) eqn:El; [|done].
    assert (Hw : next_wf (hsNext b)) by (split; [done|by destruct Hb]).
    destruct (next_wf_cases (NDEBUG := NDEBUG) _ Hw) as [[u Eu]|(_ & Hs & Hr)]; [by rewrite Eu in El|].
    split; [by erewrite ret_bind by apply Hr|by constructor]. }
  assert (Ho' : option_list (outHash next) =
    if isLive (hsNext b) then [hexHash (outOf (hsNext b))] else option_list (outHash (hsNext b))).
  { unfold next. by destruct (isLive (hsNext b)). }
  destruct Hn as [En Hnw]. cbn [inhibitLoop]. erewrite ret_bind by apply En.
  erewrite ret_bind by by apply outputHash_run.
  destruct (IH ({[hsSnap b]} ∪ (match outHash next with
    Some h => {[h]} ∪ ({[hsCurr b]} ∪ s) | None => {[hsCurr b]} ∪ s end))) as (s' & E & Hs').
  exists s'. split; [done|]. intros h. rewrite Hs'. cbn [map concat]. unfold otherHashes at 2.
  rewrite <- Ho', elem_of_app, !elem_of_cons. destruct (outHash next); simpl; set_solver.
Qed.

(** [resolveAllFutures] leaves no merge, and the buckets as they were. *)
Lemma resolveAll_run {W : Type} (has : list HistoryStateBucket) (w : W) :
  Forall (fun b => future_wf (hsNext b)) has ->
  exists has', resolveAllFutures NDEBUG has w = Ret has' w /\ futuresAllResolved has' = true /\
    map hsCurr has' = map hsCurr has /\ map hsSnap has' = map hsSnap has.
Proof.
  induction 1 as [|b has Hb Hh (has' & E & Hr & Ec & Es)]; [by exists []|]. cbn [resolveAllFutures].
  destruct (isMerging (hsNext b)) eqn:Em.
  - assert (Hw : next_wf (hsNext b)) by (split; [done|by destruct Hb]).
    destruct (next_wf_cases (NDEBUG := NDEBUG) _ Hw) as [[u Eu]|(_ & _ & Hres)]; [by rewrite Eu in Em|].
    eexists. erewrite ret_bind by (erewrite ret_bind by apply Hres; done).
    erewrite ret_bind by apply E. split; [done|]. simpl. by rewrite Ec, Es.
  - exists (b :: has'). erewrite ret_bind by done. erewrite ret_bind by apply E.
    simpl. by rewrite Em, Ec, Es.
Qed.

(** ** Collecting the new ones *)

Lemma pushNew_spec (bs : list HexHash) (ret : list HexHash) (s : gset HexHash) :
  exists new, (pushNew bs ret s).1 = ret ++ new /\ new `sublist_of` bs /\ NoDup new /\
    forall h, h ∈ new <-> h ∈ bs /\ h ∉ s.
Proof.
  revert ret s. induction bs as [|j bs IH]; intros ret s.
  { exists []. simpl. rewrite app_nil_r. split_and!; [done|done|constructor|]. set_solver. }
  cbn [pushNew]. case_bool_decide as Hj.
  - destruct (IH ret s) as (new & E & Hs & Hn & Hm). exists new.
    split_and!; [done|by apply sublist_cons|done|]. set_solver.
  - destruct (IH (ret ++ [j]) ({[j]} ∪ s)) as (new & E & Hs & Hn & Hm). exists (j :: new).
    rewrite E, <- app_assoc. split_and!; [done|by apply sublist_skip| |].
    + constructor; [|done]. rewrite Hm. set_solver.
    + intros h. rewrite !elem_of_cons, Hm. destruct (decide (h = j)); set_solver.
Qed.

Lemma pushNew_app (bs bs' : list HexHash) (ret : list HexHash) (s : gset HexHash) :
  pushNew (bs ++ bs') ret s = pushNew bs' (pushNew bs ret s).1 (pushNew bs ret s).2.
Proof.
  revert ret s. induction bs as [|j bs IH]; intros ret s; [done|]. cbn [app pushNew]. by case_match.
Qed.

Lemma differLoop_run {W : Type} (this : list HistoryStateBucket) (i : nat) (ret : list HexHash) (s : gset HexHash) (w : W) :
  (i <= length this)%nat -> Forall (fun b => future_wf (hsNext b)) this ->
  differLoop NDEBUG this i ret s w =
  Ret (pushNew (concat (map ownHashes (reverse (take i this)))) ret s).1 w.
Proof.
  intros Hi Hf. revert ret s. induction i as [|i IH]; intros ret s; [done|].
  destruct (lookup_lt_is_Some_2 this i) as [b Hb]; [lia|]. cbn [differLoop].
  rewrite Hb, (ret_bind _ _ w b) by done.
  erewrite ret_bind by (apply outputHash_run; by apply (Forall_lookup_1 _ _ _ _ Hf Hb)).
  rewrite IH by lia. rewrite (take_S_r _ _ _ Hb), reverse_app, map_app, concat_app, pushNew_app.
  done.
Qed.

(** [HistoryArchive.h] on [differingBuckets]: no hash twice, from the last level to
    the first and within a level the snapshot, the finished merge and the current
    bucket; exactly the hashes of this state that the other does not have, neither
    as a bucket nor as the result of a merge, finished or not; the hash of the
    empty bucket is left out. *)
Theorem differing_buckets_exact (this other : list HistoryStateBucket) :
  length this = kNumLevels -> futuresAllResolved this = true ->
  Forall (fun b => future_wf (hsNext b)) this -> Forall (fun b => future_wf (hsNext b)) other ->
  exists r, differingBuckets NDEBUG this other () = Ret r () /\ NoDup r /\
    r `sublist_of` concat (map ownHashes (reverse this)) /\
    forall h, h ∈ r <-> h ∈ concat (map ownHashes this) /\ h <> hexHash [] /\
      h ∉ concat (map otherHashes other).
Proof.
  intros Hl Hr Ht Ho. unfold differingBuckets. rewrite assertW_bind by done.
  destruct (inhibitLoop_run other {[hexHash []]} () Ho) as (s & Es & Hs).
  erewrite ret_bind by apply Es. rewrite differLoop_run by (done || lia).
  rewrite <- Hl, take_ge by lia.
  destruct (pushNew_spec (concat (map ownHashes (reverse this))) [] s) as (new & E & Hsub & Hn & Hm).
  exists new. rewrite E. split_and!; [done|done|done|]. intros h. rewrite Hm, Hs.
  assert (Hc : h ∈ concat (map ownHashes (reverse this)) <-> h ∈ concat (map ownHashes this)).
  { by rewrite reverse_Permutation. }
  rewrite Hc. set_solver.
Qed.

End state.
