(* ===== verification/BucketManagerTheorems.v ===== *)
(** * Theorems on the bucket manager

    What the directory of buckets promises to the list: looking a bucket up by hash
    is a pure query, adopting a file makes it known, forgetting drops exactly what
    nothing refers to; and what the skip list of the header holds. *)

From Stdlib Require Import ZArith Lia String Znumtheory.
From stdpp Require Import base tactics gmap option list.
From S2P Require Import Prelude ScpTypes LedgerTypes LedgerOrder LedgerDelta LedgerDeltaFacts LedgerDeltaTheorems.
From S2P Require Import Bucket BucketFacts FutureBucket BucketList BucketListFacts.
From S2P Require Import BucketListTheorems BucketManager.

Open Scope Z_scope.

Section manager.
Context `{LedgerExterns} `{BucketExterns} {NDEBUG : bool}.

(** ** The directory *)

(** Every bucket in memory is that of its file, and every file is named by the hash
    of what it holds. *)
Record manager_ok (m : BucketManager) : Prop := {
  mo_shared h s : mSharedBuckets m !! h = Some s -> mFiles m !! h = Some (sbEntries s);
  mo_files h b : mFiles m !! h = Some b -> hexHash b = h;
  mo_zero : mFiles m !! hexHash [] = None }.

(** The directory as a function: what [getBucketByHash] answers. *)
Definition findBucket (m : BucketManager) (h : HexHash) : option Bucket :=
  if isZeroHash h then Some [] else mFiles m !! h.

Definition stored (m : BucketManager) (b : Bucket) : Prop := findBucket m (hexHash b) = Some b.

Lemma isZeroHash_true h : isZeroHash h = true <-> h = hexHash [].
Proof. apply bool_decide_eq_true. Qed.

Lemma isZeroHash_false h : isZeroHash h = false <-> h <> hexHash [].
Proof. apply bool_decide_eq_false. Qed.

Lemma findBucket_files m m' : mFiles m = mFiles m' -> findBucket m = findBucket m'.
Proof. unfold findBucket. by intros ->. Qed.

Lemma findBucket_hash m h b : manager_ok m -> findBucket m h = Some b -> hexHash b = h.
Proof.
  intros Hm. unfold findBucket. destruct (isZeroHash h) eqn:E; [|apply Hm].
  apply isZeroHash_true in E as ->. by intros [= <-].
Qed.

Lemma getBucketByHash_run m h : manager_ok m ->
  exists m', getBucketByHash h m = Ret (findBucket m h) m' /\ manager_ok m' /\ mFiles m' = mFiles m /\
    (findBucket m h <> None -> h <> hexHash [] -> is_Some (mSharedBuckets m' !! h)).
Proof.
  intros Hm. unfold getBucketByHash, findBucket. destruct (isZeroHash h) eqn:Ez.
  { exists m. split_and!; try done. intros _ []. by apply isZeroHash_true. }
  unfold mbind, M_bind, get.
  destruct (mSharedBuckets m !! h) as [s|] eqn:Es.
  { exists m. rewrite (mo_shared _ Hm _ _ Es). split_and!; eauto. }
  destruct (mFiles m !! h) as [b|] eqn:Ef; [|by exists m].
  eexists. split; [done|]. split_and!; [|done|intros; simpl; by rewrite lookup_insert_eq].
  split; simpl; [|apply Hm..]. intros h' s'. rewrite lookup_insert_Some.
  intros [[<- <-]|[_ E]]; [done|by apply Hm].
Qed.

Lemma adoptFile_run m b : manager_ok m -> hexHash b <> hexHash [] ->
  exists m' b', adoptFileAsBucket b m = Ret b' m' /\ manager_ok m' /\ hexHash b' = hexHash b /\
    findBucket m' (hexHash b) = Some b' /\ (findBucket m (hexHash b) = None -> b' = b) /\
    forall h, h <> hexHash b \/ findBucket m h <> None -> findBucket m' h = findBucket m h.
Proof.
  intros Hm Hz. unfold adoptFileAsBucket.
  destruct (getBucketByHash_run m (hexHash b) Hm) as (m1 & E1 & H1 & Hf & _).
  erewrite run_bind by done. destruct (findBucket m (hexHash b)) as [b'|] eqn:E.
  { exists m1, b'. rewrite (findBucket_files m1 m) by done. split_and!; try done.
    by apply (findBucket_hash m). }
  assert (Ef : mFiles m1 !! hexHash b = None).
  { rewrite Hf. revert E. unfold findBucket. by rewrite (proj2 (isZeroHash_false _)) by done. }
  assert (Es : mSharedBuckets m1 !! hexHash b = None).
  { destruct (mSharedBuckets m1 !! hexHash b) eqn:Es; [|done].
    apply (mo_shared _ H1) in Es. congruence. }
  eexists _, b. split; [done|]. simpl. rewrite Es. split_and!; try done.
  - destruct H1 as [Hs Hh Hz0]. split; simpl.
    + intros h s. rewrite !lookup_insert_Some. intros [[<- <-]|[? ?]]; [by left|right; eauto].
    + intros h b'. rewrite lookup_insert_Some. intros [[<- <-]|[? ?]]; [done|eauto].
    + by rewrite lookup_insert_ne.
  - unfold findBucket. simpl. by rewrite (proj2 (isZeroHash_false _)), lookup_insert_eq.
  - intros h Hh. unfold findBucket in *. simpl. destruct (isZeroHash h); [done|].
    rewrite lookup_insert_ne; [by rewrite Hf|]. intros <-. destruct Hh as [?|Hh]; [done|].
    by rewrite <- Hf in Hh.
Qed.

(** ** Forgetting *)

(** The buckets a turn of the loop drops. *)
Definition dropped (ref : list HexHash) (useCount : HexHash -> Z) (h : HexHash) : bool :=
  negb (bool_decide (h ∈ ref)) && (useCount h =? 1).

Definition forgetOne (ref : list HexHash) (useCount : HexHash -> Z) (h : HexHash) (s : SharedBucket)
    (m : BucketManager) : BucketManager :=
  if dropped ref useCount h
  then mkManager (delete h (mSharedBuckets m)) (delete h (mFiles m))
  else set_shared (<[h := mkShared (sbEntries s) true]> (mSharedBuckets m)) m.

Lemma forgetLoop_cons ref useCount h s l m :
  forgetLoop ref useCount ((h, s) :: l) m = forgetLoop ref useCount l (forgetOne ref useCount h s m).
Proof. cbn [forgetLoop]. unfold forgetOne, dropped. by destruct (_ && _). Qed.

Lemma forgetOne_ne ref useCount h s m h' : h' <> h ->
  mFiles (forgetOne ref useCount h s m) !! h' = mFiles m !! h' /\
  mSharedBuckets (forgetOne ref useCount h s m) !! h' = mSharedBuckets m !! h'.
Proof.
  intros Hne. unfold forgetOne. destruct (dropped _ _ h); simpl;
    by rewrite ?lookup_delete_ne, ?lookup_insert_ne by done.
Qed.

Lemma forgetOne_ok ref useCount h s m : manager_ok m -> mSharedBuckets m !! h = Some s ->
  manager_ok (forgetOne ref useCount h s m).
Proof.
  intros [Hs Hf Hz] Es. unfold forgetOne. destruct (dropped _ _ h); split; simpl; try done.
  - intros h' s'. rewrite !lookup_delete_Some. intros [? ?]. eauto.
  - intros h' b'. rewrite lookup_delete_Some. intros [_ ?]. eauto.
  - destruct (decide (h = hexHash [])) as [<-|]; [apply lookup_delete_eq|by rewrite lookup_delete_ne].
  - intros h' s'. rewrite lookup_insert_Some. intros [[<- <-]|[_ ?]]; simpl; eauto.
Qed.

Lemma forgetLoop_run ref useCount l m : NoDup l.*1 -> manager_ok m ->
  (forall h s, (h, s) ∈ l -> mSharedBuckets m !! h = Some s) ->
  exists m', forgetLoop ref useCount l m = Ret () m' /\ manager_ok m' /\
    (forall h, mFiles m' !! h =
      if bool_decide (h ∈ l.*1) && dropped ref useCount h then None else mFiles m !! h) /\
    (forall h, mSharedBuckets m' !! h =
      if bool_decide (h ∈ l.*1) then
        if dropped ref useCount h then None
        else (fun s => mkShared (sbEntries s) true) <$> mSharedBuckets m !! h
      else mSharedBuckets m !! h).
Proof.
  revert m. induction l as [|[h s] l IH]; intros m Hnd Hm Hl.
  { exists m. split_and!; try done; intros h;
      by rewrite bool_decide_eq_false_2 by apply not_elem_of_nil. }
  rewrite fmap_cons in Hnd. apply NoDup_cons in Hnd as [Hh Hnd]. cbn [fst] in Hh.
  assert (Es : mSharedBuckets m !! h = Some s) by (apply Hl; left).
  destruct (IH (forgetOne ref useCount h s m)) as (m' & E & H2 & HF & HS);
    [done|by apply forgetOne_ok| |].
  { intros h' s' Hin. assert (Hne : h' <> h).
    { intros ->. apply Hh. by apply (list_elem_of_fmap_2 fst) in Hin. }
    rewrite (proj2 (forgetOne_ne _ _ _ _ _ _ Hne)). apply Hl. by right. }
  exists m'. rewrite forgetLoop_cons. rewrite fmap_cons. cbn [fst].
  split_and!; [done|done|intros h'..]; destruct (decide (h' = h)) as [->|Hn].
  1,3: rewrite ?HF, ?HS, bool_decide_eq_false_2, bool_decide_eq_true_2 by (done || left);
    unfold forgetOne; destruct (dropped _ _ h); simpl;
    rewrite ?lookup_delete_eq, ?lookup_insert_eq, ?Es; done.
  all: assert (Hb : bool_decide (h' ∈ h :: l.*1) = bool_decide (h' ∈ l.*1))
    by (apply bool_decide_ext; rewrite elem_of_cons; naive_solver);
    destruct (forgetOne_ne ref useCount h s m h' Hn) as [F1 F2];
    by rewrite Hb, ?HF, ?HS, ?F1, ?F2.
Qed.

(** [forgetUnreferencedBuckets] drops a bucket and its file exactly when the bucket
    is in memory, nothing refers to its hash and nobody else holds it; all the
    others in memory are retained, and no file that is not in memory is touched. *)
Theorem forget_exact bl pub useCount m : manager_ok m ->
  exists m', forgetUnreferencedBuckets bl pub useCount m = Ret () m' /\ manager_ok m' /\
    (forall h, mFiles m' !! h =
      if bool_decide (is_Some (mSharedBuckets m !! h)) &&
         dropped (referencedHashes bl pub) useCount h then None else mFiles m !! h) /\
    (forall h, mSharedBuckets m' !! h =
      if dropped (referencedHashes bl pub) useCount h then None
      else (fun s => mkShared (sbEntries s) true) <$> mSharedBuckets m !! h).
Proof.
  intros Hm. unfold forgetUnreferencedBuckets. rewrite (run_bind _ _ m m m) by done.
  assert (Hin : forall h, bool_decide (h ∈ (map_asc (mSharedBuckets m)).*1) =
    bool_decide (is_Some (mSharedBuckets m !! h))).
  { intros h. apply bool_decide_ext. rewrite list_elem_of_fmap. split.
    - intros ([h' s] & -> & Hs%elem_of_map_asc). by exists s.
    - intros [s Hs]. exists (h, s). by rewrite elem_of_map_asc. }
  destruct (forgetLoop_run (referencedHashes bl pub) useCount (map_asc (mSharedBuckets m)) m)
    as (m' & E & H1 & HF & HS); [apply NoDup_map_asc|done|by intros h s ?%elem_of_map_asc|].
  exists m'. split_and!; [done|done|intros h..].
  - by rewrite HF, Hin.
  - rewrite HS, Hin. case_bool_decide as Hs; [done|].
    rewrite <- eq_None_not_Some in Hs. rewrite Hs. by case_match.
Qed.

Lemma forget_keeps bl pub useCount m : manager_ok m ->
  exists m', forgetUnreferencedBuckets bl pub useCount m = Ret () m' /\ manager_ok m' /\
    forall h, h ∈ referencedHashes bl pub \/ useCount h <> 1 -> findBucket m' h = findBucket m h.
Proof.
  intros Hm. destruct (forget_exact bl pub useCount m Hm) as (m' & E & H1 & HF & _).
  exists m'. split_and!; try done. intros h Hh. unfold findBucket. rewrite HF.
  assert (Hd : dropped (referencedHashes bl pub) useCount h = false).
  { unfold dropped. destruct Hh as [Hh|Hh]; [by rewrite bool_decide_eq_true_2|].
    by rewrite (proj2 (Z.eqb_neq _ _)), andb_false_r. }
  by rewrite Hd, andb_false_r.
Qed.

(** ** The skip list *)

Section skip.
Context (getHash : list BucketLevel -> HexHash) (zero : HexHash).

(** The list of buckets of every ledger, and its hash. *)
Context (lists : nat -> list BucketLevel).

Definition hashAt (v : Z) : HexHash := getHash (lists (Z.to_nat v)).

(** The header of ledger [n], when the header of every ledger starts with the skip
    list of the one before and goes through [snapshotLedger]. *)
Fixpoint headerAt (n : nat) : SkipHeader :=
  match n with
  | O => mkSkip 0 zero zero zero zero zero
  | S n' =>
      let h := headerAt n' in
      snapshotLedger getHash (lists n)
        (mkSkip (Z.of_nat n) (bucketListHash h) (skip0 h) (skip1 h) (skip2 h) (skip3 h))
  end.

(** The hash of the last ledger that is a multiple of [d] and at least [off] ledgers
    back. *)
Definition lastMultiple (d off n : Z) : HexHash :=
  let v := d * ((n - off) / d) in if 0 <? v then hashAt v else zero.

Lemma lastMultiple_at d off n v : 0 < v -> (d | v) -> v + off <= n < v + off + d ->
  lastMultiple d off n = hashAt v.
Proof.
  intros Hv [q ->] Hn. unfold lastMultiple.
  replace ((n - off) / d) with q; [rewrite Z.mul_comm; by rewrite (proj2 (Z.ltb_lt _ _))|].
  apply Z.div_unique with (n - off - q * d); lia.
Qed.

(** Whether the slot of [d] and [off] changes at ledger [s]. *)
Definition slotChanges (d off s : Z) : bool := (off <? s) && ((s - off) mod d =? 0).

Lemma slotChanges_true d off s : 0 < d -> slotChanges d off s = true -> off < s /\ (d | s - off).
Proof.
  intros Hd. unfold slotChanges. rewrite andb_true_iff, Z.ltb_lt, Z.eqb_eq. intros [? ?].
  split; [done|]. apply Z.mod_divide; lia.
Qed.

Lemma slotChanges_false d off s : 0 < d -> slotChanges d off s = false ->
  lastMultiple d off s = lastMultiple d off (s - 1).
Proof.
  intros Hd. unfold slotChanges. rewrite andb_false_iff, Z.ltb_ge, Z.eqb_neq. intros Hs.
  unfold lastMultiple. set (x := s - off) in *. replace (s - 1 - off) with (x - 1) by lia.
  destruct Hs as [Hs|Hs].
  - assert (x / d <= 0) by (apply Z.div_le_upper_bound; lia).
    assert ((x - 1) / d <= 0) by (apply Z.div_le_upper_bound; lia).
    rewrite !(proj2 (Z.ltb_ge _ _)); [done|nia..].
  - replace ((x - 1) / d) with (x / d); [done|].
    pose proof (Z.div_mod x d). pose proof (Z.mod_pos_bound x d Hd).
    apply Z.div_unique with (x mod d - 1); lia.
Qed.

Lemma slotChanges_lt d off s : s <= off -> slotChanges d off s = false.
Proof. intros. unfold slotChanges. by rewrite (proj2 (Z.ltb_ge _ _)). Qed.

(** A slot changes only together with the one before it. *)
Lemma slotChanges_prev d d' off off' s : 0 < d -> 0 < d' -> (d | d') -> (d | off' - off) -> off <= off' ->
  slotChanges d' off' s = true -> slotChanges d off s = true.
Proof.
  intros Hd Hd' H1 H2 Ho [Hs H3]%slotChanges_true; [|done]. unfold slotChanges.
  rewrite andb_true_iff, Z.ltb_lt, Z.eqb_eq. split; [lia|]. apply Z.mod_divide; [lia|].
  replace (s - off) with ((s - off') + (off' - off)) by lia. apply Z.divide_add_r; [by apply Z.divide_trans with d'|done].
Qed.

(** The guard of the code on a slot. *)
Lemma slot_guard d off s : 0 < d -> 0 <= s - off <= 2147483647 ->
  (0 <? s32 (u32 (s - off))) && (Z.rem (s32 (u32 (s - off))) d =? 0) = slotChanges d off s.
Proof.
  intros Hd Hs. unfold slotChanges. rewrite u32_id, s32_id by (unfold UINT32_MAX; lia).
  rewrite Z.rem_mod_nonneg by lia. f_equal.
  destruct (Z.ltb_spec 0 (s - off)), (Z.ltb_spec off s); lia.
Qed.

(** A slot that changes does so a whole period of the slot before it later. *)
Lemma slotChanges_ge d off s : 0 < d -> slotChanges d off s = true -> off + d <= s.
Proof. intros Hd [Hs [q E]]%slotChanges_true; [|done]. assert (0 < q) by nia. nia. Qed.

Lemma slots_nest s :
  (slotChanges SKIP_4 (SKIP_3 + SKIP_2 + SKIP_1) s = true -> slotChanges SKIP_3 (SKIP_2 + SKIP_1) s = true) /\
  (slotChanges SKIP_3 (SKIP_2 + SKIP_1) s = true -> slotChanges SKIP_2 SKIP_1 s = true) /\
  (slotChanges SKIP_2 SKIP_1 s = true -> slotChanges SKIP_1 0 s = true).
Proof.
  split_and!; apply slotChanges_prev; try done;
    first [by exists 10|by exists 1|by exists 100].
Qed.

Lemma calculateSkip_slots s B z0 z1 z2 z3 : 0 < s <= 2147483647 ->
  calculateSkipValues (mkSkip s B z0 z1 z2 z3) = mkSkip s B
    (if slotChanges SKIP_1 0 s then B else z0)
    (if slotChanges SKIP_2 SKIP_1 s then z0 else z1)
    (if slotChanges SKIP_3 (SKIP_2 + SKIP_1) s then z1 else z2)
    (if slotChanges SKIP_4 (SKIP_3 + SKIP_2 + SKIP_1) s then z2 else z3).
Proof.
  intros Hs. destruct (slots_nest s) as (N3 & N2 & N1). unfold calculateSkipValues. cbn [skipSeq].
  replace (s mod SKIP_1 =? 0) with (slotChanges SKIP_1 0 s).
  2:{ unfold slotChanges. rewrite Z.sub_0_r. by rewrite (proj2 (Z.ltb_lt 0 s) ltac:(lia)). }
  destruct (slotChanges SKIP_1 0 s) eqn:E0.
  2:{ destruct (slotChanges SKIP_2 SKIP_1 s); [by specialize (N1 eq_refl)|].
      destruct (slotChanges SKIP_3 _ s); [by specialize (N2 eq_refl)|].
      destruct (slotChanges SKIP_4 _ s); [by specialize (N3 eq_refl)|done]. }
  apply slotChanges_ge in E0; [|done]. unfold SKIP_1 in E0 at 1.
  rewrite slot_guard by (unfold SKIP_1, SKIP_2 in *; lia).
  destruct (slotChanges SKIP_2 SKIP_1 s) eqn:E1.
  2:{ destruct (slotChanges SKIP_3 _ s); [by specialize (N2 eq_refl)|].
      destruct (slotChanges SKIP_4 _ s); [by specialize (N3 eq_refl)|done]. }
  apply slotChanges_ge in E1; [|done].
  replace (s - SKIP_2 - SKIP_1) with (s - (SKIP_2 + SKIP_1)) by lia.
  rewrite slot_guard by (unfold SKIP_1, SKIP_2, SKIP_3 in *; lia).
  destruct (slotChanges SKIP_3 _ s) eqn:E2.
  2:{ destruct (slotChanges SKIP_4 _ s); [by specialize (N3 eq_refl)|done]. }
  apply slotChanges_ge in E2; [|done].
  replace (s - SKIP_3 - SKIP_2 - SKIP_1) with (s - (SKIP_3 + SKIP_2 + SKIP_1)) by lia.
  rewrite slot_guard by (unfold SKIP_1, SKIP_2, SKIP_3, SKIP_4 in *; lia).
  by destruct (slotChanges SKIP_4 _ s).
Qed.

(** Beyond that, the difference is negative as an [int]: slots 1 to 3 stay what they
    are for ever. *)
Lemma skip_list_freezes s B z0 z1 z2 z3 : 2147483648 + SKIP_1 <= s <= UINT32_MAX ->
  calculateSkipValues (mkSkip s B z0 z1 z2 z3) =
  mkSkip s B (if s mod SKIP_1 =? 0 then B else z0) z1 z2 z3.
Proof.
  unfold SKIP_1, UINT32_MAX. intros Hs. unfold calculateSkipValues, SKIP_1. cbn [skipSeq].
  assert (E : s32 (u32 (s - 50)) = s - 50 - 4294967296).
  { rewrite u32_id by (unfold UINT32_MAX; lia). unfold s32.
    replace (s - 50 + 2147483648) with (s - 50 - 2147483648 + 1 * 4294967296) by lia.
    rewrite Z.mod_add, Z.mod_small by lia. lia. }
  rewrite E, (proj2 (Z.ltb_ge 0 _)) by lia. by destruct (s mod 50 =? 0).
Qed.

(** One slot, from the slot before it. *)
Lemma slot_step d off d' off' s : 0 < d -> 0 < d' -> off' = d + off -> (d | d') ->
  (if slotChanges d' off' s then lastMultiple d off (s - 1) else lastMultiple d' off' (s - 1)) =
  lastMultiple d' off' s.
Proof.
  intros Hd Hd' -> Hdd. destruct (slotChanges d' _ s) eqn:E; [|symmetry; by apply slotChanges_false].
  apply slotChanges_true in E as [Hs Hdiv]; [|done].
  rewrite (lastMultiple_at d' _ s (s - (d + off))) by (done || lia).
  apply lastMultiple_at; [lia|by apply Z.divide_trans with d'|lia].
Qed.

Lemma slot_first s : (if slotChanges SKIP_1 0 s then hashAt s else lastMultiple SKIP_1 0 (s - 1)) =
  lastMultiple SKIP_1 0 s.
Proof.
  destruct (slotChanges SKIP_1 0 s) eqn:E; [|symmetry; by apply slotChanges_false].
  apply slotChanges_true in E as [Hs Hd]; [|done]. rewrite Z.sub_0_r in Hd.
  symmetry. apply lastMultiple_at; [done|done|unfold SKIP_1; lia].
Qed.

(** The skip list of a header, up to the ledger whose number no longer fits an [int]:
    slot 0 has the hash of the list at the last multiple of 50; the slots after it
    have that at the last multiple of 5000, 50000 and 500000, once that is 50,
    5050 and 55050 ledgers old; a slot without such a ledger is still zero. *)
Theorem skip_list_values n : Z.of_nat n <= 2147483647 ->
  skip0 (headerAt n) = lastMultiple 50 0 (Z.of_nat n) /\
  skip1 (headerAt n) = lastMultiple 5000 50 (Z.of_nat n) /\
  skip2 (headerAt n) = lastMultiple 50000 5050 (Z.of_nat n) /\
  skip3 (headerAt n) = lastMultiple 500000 55050 (Z.of_nat n).
Proof.
  induction n as [|n IH]; intros Hn; [done|].
  destruct IH as (I0 & I1 & I2 & I3); [lia|]. cbn [headerAt]. unfold snapshotLedger.
  cbn [skipSeq skip0 skip1 skip2 skip3]. rewrite calculateSkip_slots by lia.
  replace (getHash (lists (S n))) with (hashAt (Z.of_nat (S n))) by (unfold hashAt; by rewrite Nat2Z.id). cbn [skip0 skip1 skip2 skip3]. rewrite I0, I1, I2, I3.
  replace (Z.of_nat n) with (Z.of_nat (S n) - 1) by lia.
  split_and!; [apply slot_first|apply (slot_step 50 0)|apply (slot_step 5000 50)|
    apply (slot_step 50000 5050)]; try done; first [by exists 100|by exists 10].
Qed.

End skip.

End manager.
