(* ===== verification/RestartTheorems.v ===== *)
(** * Restarts

    The state that is stored with every ledger, the buckets that are forgotten and
    the state that is loaded when the node starts again, together: the new list
    stands for the same ledger. *)

From Stdlib Require Import ZArith Lia String.
From stdpp Require Import base tactics gmap option list.
From S2P Require Import Prelude ScpTypes LedgerTypes LedgerOrder LedgerDelta LedgerDeltaFacts LedgerDeltaTheorems.
From S2P Require Import Bucket BucketFacts FutureBucket BucketList BucketListFacts.
From S2P Require Import BucketListTheorems BucketManager HistoryState BucketManagerTheorems.

Open Scope Z_scope.

Section restarts.
Context `{LedgerExterns} `{BucketExterns} {NDEBUG : bool}.

(** ** Restarting the list *)

(** The buckets a level needs to be restarted: its own, the inputs of a merge that
    is still running, the output of one that is not. *)
Definition futureBuckets (f : FutureBucket) : list Bucket :=
  match mState f with
  | FB_LIVE_INPUTS =>
      option_list (mInputCurrBucket f) ++ option_list (mInputSnapBucket f) ++ mInputShadowBuckets f
  | FB_LIVE_OUTPUT => option_list (mOutputBucket f)
  | _ => []
  end.

Definition levelBuckets (l : BucketLevel) : list Bucket :=
  mCurr l :: mSnap l :: futureBuckets (mNextCurr l).

Lemma future_referenced f b : next_wf f -> b ∈ futureBuckets f -> hexHash b ∈ getHashes f.
Proof.
  intros [Hf Hh]. unfold futureBuckets, getHashes.
  destruct Hf; try discriminate Hh; cbn; rewrite ?isNil_hexHash; cbn [app].
  - by intros ?%not_elem_of_nil.
  - rewrite app_nil_r, !elem_of_cons. intros [->|[->|Hb]]; [by left|by right; left|].
    right. right. by apply list_elem_of_fmap_2.
  - rewrite !elem_of_cons. intros [->|?%not_elem_of_nil]; [by left|done].
Qed.

Lemma level_referenced lv pub i b : (i < kNumLevels)%nat -> level_wf i (lv i) ->
  b ∈ levelBuckets (lv i) -> hexHash b ∈ referencedHashes (tabulate lv) pub.
Proof.
  intros Hi Hw Hb. unfold referencedHashes. apply elem_of_app. left.
  rewrite list_elem_of_In, in_concat. eexists. split.
  { apply in_map, list_elem_of_In, (list_elem_of_lookup_2 _ i). by apply tabulate_lookup. }
  rewrite <- list_elem_of_In. revert Hb. unfold levelBuckets. rewrite !elem_of_cons. intros [->|[->|Hb]]; [by left|by right; left|].
  right. right. apply future_referenced; [apply Hw|done].
Qed.

(** The future of a level after a restart, when the new object happens to have the
    right [mKeepDeadEntries]. *)
Definition restarted (u : bool) (f : FutureBucket) : FutureBucket :=
  match mState f with
  | FB_LIVE_INPUTS => setOutput (mOutputBucket f) false (mOutputBucketHash f) f
  | FB_LIVE_OUTPUT => resolved (outOf f) u
  | _ => emptyFuture u
  end.

Definition goodFlag (u : bool) (f : FutureBucket) : Prop :=
  isMerging f = true -> u = mKeepDeadEntries f.

Lemma restarted_future u f : next_wf f ->
  next_wf (restarted u f) /\ outOf (restarted u f) = outOf f /\ isLive (restarted u f) = isLive f.
Proof. intros [Hf Hh]. destruct Hf; try discriminate Hh; split_and!; try done; split; try done; by constructor. Qed.

Lemma next_clear f : next_wf f -> isLive f = false -> exists u, f = emptyFuture u.
Proof. intros [Hf Hh]. destruct Hf; try discriminate Hh; try discriminate. by eexists. Qed.

(** The invariant of the list only asks of a future whether it is live and what it
    gives. *)
Lemma replace_futures n lv g : list_inv n lv ->
  (forall i, (i < kNumLevels)%nat -> next_wf (g i) /\ outOf (g i) = outOf (mNextCurr (lv i)) /\
    isLive (g i) = isLive (mNextCurr (lv i))) ->
  list_inv n (fun i => mkLevel i (g i) (mCurr (lv i)) (mSnap (lv i))).
Proof.
  intros Hi Hg. unfold kNumLevels in Hg. split.
  - intros j Hj. destruct (li_wf _ _ Hi j Hj). split; try done. by apply Hg.
  - destruct (li_next0 _ _ Hi) as [v E]. destruct (Hg 0%nat) as (Hw & _ & Hl); [lia|].
    apply next_clear; [done|]. cbn. by rewrite Hl, E.
  - apply Hi.
  - intros b v Hb Hv. cbn in Hv. destruct (Hg (S b)) as (_ & _ & Hl); [lia|]. rewrite Hv in Hl.
    destruct (next_clear (mNextCurr (lv (S b)))) as [v' E];
      [apply Hi; unfold kNumLevels; lia|done|]. by apply (li_clear _ _ Hi b v').
  - intros b k Hb Hk. cbn [mNextCurr]. destruct (Hg (S b)) as (_ & -> & _); [lia|]. by apply Hi.
Qed.

(** The future of a level in the stored state: a merge that is ready is resolved. *)
Definition settled (pessimize : bool) (f : FutureBucket) : FutureBucket :=
  if negb pessimize && isMerging f && mOutputReady f
  then resolved (outOf f) (mKeepDeadEntries f) else f.

Definition settledLevel (pessimize : bool) (l : BucketLevel) : BucketLevel :=
  set_mNextCurr (settled pessimize (mNextCurr l)) l.

Lemma settled_future p f : next_wf f ->
  next_wf (settled p f) /\ outOf (settled p f) = outOf f /\ isLive (settled p f) = isLive f.
Proof.
  intros [Hf Hh]. destruct Hf as [u|curr snap shadows keep ready|b keep| |];
    try discriminate Hh; unfold settled; cbn; rewrite ?andb_false_r; try done.
  - split_and!; try done. split; [constructor|done].
  - destruct p, ready; cbn; split_and!; try done; split; try done; constructor; try done.
    by apply merge_out_sorted.
  - split_and!; try done. by split; [constructor|].
Qed.

Lemma settledLevel_wf p i l : level_wf i l -> level_wf i (settledLevel p l).
Proof. intros [? ? ? Hn]. split; try done. by apply settled_future. Qed.

Lemma ready_run {W} f (w : W) :
  (if isMerging f then mergeComplete NDEBUG f else mret false) w = Ret (isMerging f && mOutputReady f) w.
Proof.
  destruct (isMerging f) eqn:E; [|done]. unfold mergeComplete. rewrite assertW_bind; [done|].
  unfold isLive, isMerging in *. by rewrite E.
Qed.

Lemma settle_run {W} b (w : W) : next_wf (hsNext b) ->
  (if isMerging (hsNext b) && mOutputReady (hsNext b)
   then r ← resolve NDEBUG (hsNext b); mret (set_hsNext r.2 b) else mret b) w =
  Ret (set_hsNext (settled false (hsNext b)) b) w.
Proof.
  intros Hn. unfold settled. simpl negb. rewrite andb_true_l.
  destruct (isMerging (hsNext b) && mOutputReady (hsNext b)) eqn:E; [|by destruct b].
  destruct (next_wf_cases (NDEBUG := NDEBUG) _ Hn) as [[u Ef]|(_ & _ & Hr)]; [by rewrite Ef in E|].
  by rewrite (ret_bind _ _ w _ (Hr _ w)).
Qed.

Lemma resolveReady_run {W} lv k n (w : W) : (forall i, (i < k + n)%nat -> level_wf i (lv i)) ->
  resolveAnyReadyFutures NDEBUG (archiveState (map lv (seq k n))) w =
  Ret (archiveState (map (fun i => settledLevel false (lv i)) (seq k n))) w.
Proof.
  revert k. induction n as [|n IH]; intros k Hw; [done|].
  cbn [seq map archiveState resolveAnyReadyFutures]. unfold archiveState in IH.
  rewrite (ret_bind _ _ w _ (ready_run _ w)).
  erewrite ret_bind by (apply settle_run, Hw; lia).
  by rewrite (ret_bind _ _ w _ (IH (S k) ltac:(intros; apply Hw; lia))).
Qed.

Lemma storedState_run {W} p lv (w : W) : (forall i, (i < kNumLevels)%nat -> level_wf i (lv i)) ->
  storedState NDEBUG p (tabulate lv) w = Ret (archiveState (tabulate (fun i => settledLevel p (lv i)))) w.
Proof.
  intros Hw. unfold storedState. destruct p; [done|by apply resolveReady_run].
Qed.

(** The hashes a stored level refers to are those of its buckets. *)
Lemma settled_kept p lv pub (useCount : HexHash -> Z) i b : (i < kNumLevels)%nat -> level_wf i (lv i) ->
  (isMerging (mNextCurr (lv i)) = true -> mOutputReady (mNextCurr (lv i)) = true ->
    useCount (hexHash (outOf (mNextCurr (lv i)))) <> 1) ->
  b ∈ levelBuckets (settledLevel p (lv i)) ->
  hexHash b ∈ referencedHashes (tabulate lv) pub \/ useCount (hexHash b) <> 1.
Proof.
  intros Hi Hw Hc. unfold levelBuckets, settledLevel, settled. cbn [set_mNextCurr mCurr mSnap mNextCurr].
  destruct (negb p && isMerging _ && mOutputReady _) eqn:E.
  - apply andb_true_iff in E as [[_ E1]%andb_true_iff E2]. intros Hb.
    assert (Hb' : b = mCurr (lv i) \/ b = mSnap (lv i) \/ b = outOf (mNextCurr (lv i))).
    { revert Hb. cbn. rewrite !elem_of_cons. intros [?|[?|[?|Hn%not_elem_of_nil]]]; [by left|by right; left|by right; right|done]. }
    destruct Hb' as [Eb|[Eb|Eb]]; subst b; [left|left|right; by apply Hc].
    all: apply (level_referenced _ _ i); [done..|]. 1: by left. right. left.
  - intros Hb. left. by apply (level_referenced _ _ i).
Qed.

Section restart.
Context (find : HexHash -> option Bucket) (u : nat -> bool) (lv : nat -> BucketLevel).
Hypothesis Hwf : forall i, (i < kNumLevels)%nat -> level_wf i (lv i).
Hypothesis Hflag : forall i, (i < kNumLevels)%nat -> goodFlag (u i) (mNextCurr (lv i)).
Hypothesis Hknown : forall i, (i < kNumLevels)%nat -> Forall (known find) (levelBuckets (lv i)).

Definition savedLevel (i : nat) : HistoryStateBucket :=
  mkStateBucket (hexHash (mCurr (lv i))) (mNextCurr (lv i)) (hexHash (mSnap (lv i))).

Definition reloadedFuture (i : nat) : FutureBucket :=
  reloaded (mNextCurr (lv i)) (emptyFuture (u i)).

Definition reloadedState (i : nat) : HistoryStateBucket :=
  mkStateBucket (hexHash (mCurr (lv i))) (reloadedFuture i) (hexHash (mSnap (lv i))).

Definition reloadedLevel (i : nat) : BucketLevel :=
  mkLevel i (reloadedFuture i) (mCurr (lv i)) (mSnap (lv i)).

Definition restartedLevel (i : nat) : BucketLevel :=
  mkLevel i (restarted (u i) (mNextCurr (lv i))) (mCurr (lv i)) (mSnap (lv i)).

Lemma makeLive_reloaded {W} i (w : W) : (i < kNumLevels)%nat ->
  (if hasHashes (reloadedFuture i) && negb (isLive (reloadedFuture i))
   then makeLive NDEBUG find (reloadedFuture i) else mret (reloadedFuture i)) w =
  Ret (restarted (u i) (mNextCurr (lv i))) w.
Proof.
  intros Hi. specialize (Hflag i Hi). specialize (Hknown i Hi).
  destruct (lw_next _ _ (Hwf i Hi)) as [Hf Hh]. revert Hflag Hknown.
  unfold levelBuckets, reloadedFuture, goodFlag.
  destruct Hf; try discriminate Hh; intros Hg [_ [_ Hk]%Forall_cons]%Forall_cons; cbn in Hk; cbn.
  - done.
  - rewrite Hg by done. apply Forall_cons in Hk as [Kc [Ks Ksh]%Forall_cons].
    by apply makeLive_inputs.
  - apply Forall_cons in Hk as [Kb _]. by apply makeLive_output.
Qed.

Lemma reloadState_run {W} k n u' (w : W) : (k + n <= kNumLevels)%nat -> (forall i, u' i = u (k + i)%nat) ->
  reloadState NDEBUG u' (map savedLevel (seq k n)) w =
  Ret (map reloadedState (seq k n)) w.
Proof.
  revert k u'. induction n as [|n IH]; intros k u' Hk Hu; [done|]. cbn [seq map reloadState].
  destruct (lw_next _ _ (Hwf k ltac:(lia))) as [Hf _].
  erewrite ret_bind by by apply save_wf.
  erewrite ret_bind by (apply (reload_run _ (emptyFuture (u' 0%nat)) _ _ Hf); by apply save_wf).
  erewrite ret_bind.
  2:{ apply IH; [lia|]. intros i. rewrite Hu. f_equal. lia. }
  rewrite (Hu 0%nat), Nat.add_0_r. done.
Qed.

(** The list while [assumeState] has done the first [k] levels. *)
Definition assumedLevel (old : nat -> BucketLevel) (k j : nat) : BucketLevel :=
  if decide (j < k)%nat then reloadedLevel j else old j.

Lemma assumeLoop_run old n k : (k + n = kNumLevels)%nat -> (forall j, mLevel (old j) = j) ->
  assumeLoop find (map reloadedState (seq 0 kNumLevels)) n k (tabulate (assumedLevel old k)) =
  Ret () (tabulate reloadedLevel).
Proof.
  intros Hk Hold. revert k Hk. induction n as [|n IH]; intros k Hk.
  { simpl. f_equal. apply tabulate_ext. intros i Hi. unfold assumedLevel.
    rewrite decide_True by lia. done. }
  cbn [assumeLoop]. rewrite list_lookup_fmap, lookup_seq_lt by lia. cbn [fmap option_fmap option_map Nat.add].
  cbn [reloadedState hsCurr hsSnap hsNext].
  pose proof (Hknown k ltac:(lia)) as [Kc [Ks _]%Forall_cons]%Forall_cons.
  rewrite Kc, Ks. rewrite (theLevel_bind _ (old k)).
  2:{ rewrite tabulate_lookup by lia. unfold assumedLevel. by rewrite decide_False by lia. }
  rewrite putLevel_bind, tabulate_insert by lia. rewrite <- (IH (S k)) by lia. f_equal.
  apply tabulate_ext. intros j Hj. unfold assumedLevel.
  destruct (decide (j = k)) as [->|Hne].
  - rewrite decide_True by lia. unfold reloadedLevel, set_mNextCurr, setSnap, setCurr. cbn [mLevel mCurr mSnap]. by rewrite Hold.
  - destruct (decide (j < k)%nat), (decide (j < S k)%nat); try done; lia.
Qed.

Lemma restartLoop_run n k w : (k + n <= kNumLevels)%nat ->
  restartLoop NDEBUG find (map reloadedLevel (seq k n)) w = Ret (map restartedLevel (seq k n)) w.
Proof.
  revert k. induction n as [|n IH]; intros k Hk; [done|]. cbn [seq map restartLoop].
  rewrite (ret_bind _ _ w (restartedLevel k)).
  { by rewrite (ret_bind _ _ w (map restartedLevel (seq (S k) n))) by (apply IH; lia). }
  pose proof (makeLive_reloaded k w ltac:(lia)) as E. cbn [mNextCurr reloadedLevel].
  destruct (_ && _).
  - by erewrite ret_bind by apply E.
  - injection E as E. unfold restartedLevel. by rewrite <- E.
Qed.

Lemma reload_archive {W} (w : W) : reloadState NDEBUG u (archiveState (tabulate lv)) w =
  Ret (map reloadedState (seq 0 kNumLevels)) w.
Proof.
  rewrite <- (reloadState_run 0 kNumLevels u) by done. done.
Qed.

Lemma assume_run v : assumeState NDEBUG find (map reloadedState (seq 0 kNumLevels)) (newBucketList v) =
  Ret () (tabulate restartedLevel).
Proof.
  unfold assumeState. erewrite run_bind.
  2:{ rewrite <- (assumeLoop_run (fun i => mkLevel i (emptyFuture v) [] []) kNumLevels 0) by done.
      f_equal. }
  unfold restartMerges. erewrite run_bind by done.
  by erewrite run_bind by by apply (restartLoop_run kNumLevels 0).
Qed.

(** Every hash of the reloaded state is that of a bucket of its levels. *)
Lemma reloaded_hashes h : h ∈ allBuckets (map reloadedState (seq 0 kNumLevels)) ->
  exists i b, (i < kNumLevels)%nat /\ b ∈ levelBuckets (lv i) /\ h = hexHash b.
Proof.
  unfold allBuckets. rewrite elem_of_set_asc, elem_of_list_to_set, list_elem_of_In, in_concat.
  intros (hs & Hs & Hh). rewrite map_map in Hs. apply in_map_iff in Hs as (i & <- & Hi%in_seq).
  exists i. revert Hh. rewrite <- list_elem_of_In. unfold levelBuckets, reloadedState, reloadedFuture.
  cbn [hsCurr hsSnap hsNext]. destruct (lw_next _ _ (Hwf i ltac:(lia))) as [Hf Hh'].
  rewrite !elem_of_cons. intros [->|[->|Hh]]; [exists (mCurr (lv i))|exists (mSnap (lv i))|].
  1: by split; [lia|]; split; [left|]. 1: by split; [lia|]; split; [right; left|].
  revert Hh. destruct Hf; try discriminate Hh'; unfold futureBuckets, getHashes; cbn;
    rewrite ?isNil_hexHash; cbn [app]; rewrite ?app_nil_r, ?elem_of_cons.
  - by intros ?%not_elem_of_nil.
  - intros [->|[->|(b & -> & Hb)%list_elem_of_fmap]]; [exists curr|exists snap|exists b].
    all: split; [lia|]; split; [|done]; do 2 right; rewrite ?elem_of_cons; auto.
  - intros [->|?%not_elem_of_nil]; [|done]. exists b. split; [lia|]. split; [|done]. do 2 right. left.
Qed.

Lemma nothing_missing m : manager_ok m -> (forall h, find h = findBucket m h) ->
  checkForMissingBucketsFiles m (map reloadedState (seq 0 kNumLevels)) = [].
Proof.
  intros Hm Hfind. apply elem_of_nil_inv. intros h. unfold checkForMissingBucketsFiles.
  rewrite list_elem_of_filter. intros [[Hz Hf] (i & b & Hi & Hb & ->)%reloaded_hashes].
  pose proof (Hknown i Hi) as Hk. rewrite Forall_forall in Hk. specialize (Hk b Hb).
  unfold known in Hk. rewrite Hfind in Hk. unfold findBucket in Hk. by rewrite Hz, Hf in Hk.
Qed.

Lemma reloaded_resolved l : futuresAllResolved (map reloadedState l) = true.
Proof.
  induction l as [|i l IH]; [done|]. cbn [map futuresAllResolved reloadedState hsNext].
  replace (isMerging (reloadedFuture i)) with false; [done|].
  unfold reloadedFuture, reloaded. by destruct (mState _).
Qed.

End restart.

(** ** The theorem *)

(** [getBucketByHash] on the directory, as [loadLastKnown] calls it. *)
Lemma query_find m h : manager_ok m ->
  match getBucketByHash h m with Ret b _ => b | Exn _ _ => None end = findBucket m h.
Proof. intros Hm. by destruct (getBucketByHash_run m h Hm) as (m' & -> & _). Qed.

(** C37. A restart keeps the ledger.  Take a list of buckets that stands for a ledger
    and store its state as closing a ledger does, with the merges that are ready
    resolved or not; then call [forgetUnreferencedBuckets], with whatever publish
    queue.  If the files of the buckets that the stored state refers to were there,
    and a bucket that a finished merge still holds has more than one reference,
    loading the state into a new list throws nothing, misses no file and gives a
    list with the same buckets in every level that stands for the same ledger.  For
    a merge that was still running this needs the [mKeepDeadEntries] of its new
    object to be right, which the code leaves to chance. *)
Theorem restart_keeps_ledger (n : Z) (bl : list BucketLevel) (L : gmap LedgerId LedgerEntry)
    (m : BucketManager) (pub : list (list N)) (useCount : list N -> Z) (u : nat -> bool)
    (pessimize v : bool) :
  represents n bl L -> manager_ok m ->
  Forall (fun l => Forall (known (findBucket m)) (levelBuckets (settledLevel pessimize l))) bl ->
  Forall (fun l => isMerging (mNextCurr l) = true -> mOutputReady (mNextCurr l) = true ->
    useCount (hexHash (outOf (mNextCurr l))) <> 1) bl ->
  (forall i l, bl !! i = Some l -> isMerging (settled pessimize (mNextCurr l)) = true ->
    u i = mKeepDeadEntries (mNextCurr l)) ->
  exists has m' bl', storedState NDEBUG pessimize bl () = Ret has () /\
    forgetUnreferencedBuckets bl pub useCount m = Ret () m' /\ manager_ok m' /\
    loadLastKnown NDEBUG u m' [] has (newBucketList v) = Ret true bl' /\
    map mCurr bl' = map mCurr bl /\ map mSnap bl' = map mSnap bl /\ represents n bl' L.
Proof.
  intros (lv & -> & Hi & Hv) Hm Hk Hc Hu.
  destruct (forget_keeps (tabulate lv) pub useCount m Hm) as (m' & E & Hm' & Hkeep).
  set (lw := fun i => settledLevel pessimize (lv i)).
  assert (Hw : forall i, (i < kNumLevels)%nat -> level_wf i (lw i)).
  { intros i Hlt. by apply settledLevel_wf, Hi. }
  set (find := fun h => match getBucketByHash h m' with Ret b _ => b | Exn _ _ => None end).
  assert (Hlw : forall i, (i < kNumLevels)%nat -> Forall (known find) (levelBuckets (lw i))).
  { intros i Hlt. rewrite Forall_lookup in Hk, Hc.
    specialize (Hk i _ (tabulate_lookup lv i Hlt)). specialize (Hc i _ (tabulate_lookup lv i Hlt)).
    rewrite Forall_forall in *. intros b Hb. unfold known, find. rewrite query_find by done.
    rewrite Hkeep by (apply (settled_kept pessimize _ _ _ i); try done; by apply Hi). by apply Hk. }
  assert (Hflag : forall i, (i < kNumLevels)%nat -> goodFlag (u i) (mNextCurr (lw i))).
  { intros i Hlt Hg. rewrite (Hu i _ (tabulate_lookup lv i Hlt) Hg).
    unfold lw, settledLevel, settled. cbn [set_mNextCurr mNextCurr]. by case_match. }
  eexists _, m', (tabulate (restartedLevel u lw)).
  split; [by apply storedState_run; apply Hi|]. split_and!; [done|done| |done|done|].
  - unfold loadLastKnown. erewrite ret_bind by by apply reload_archive.
    rewrite assertW_bind by apply reloaded_resolved.
    rewrite (nothing_missing find u lw) by (done || intros; by apply query_find). cbn [app isNil].
    by rewrite (run_bind _ _ _ _ _ (assume_run find u lw Hw Hflag Hlw v)).
  - exists (restartedLevel u lw). split; [done|]. split; [|apply Hv].
    apply (replace_futures n lv (fun i => restarted (u i) (settled pessimize (mNextCurr (lv i))))); [done|].
    intros i Hlt. destruct (settled_future pessimize (mNextCurr (lv i))) as (H1 & H2 & H3); [by apply Hi|].
    destruct (restarted_future (u i) _ H1) as (G1 & G2 & G3).
    split_and!; [done|by rewrite G2|by rewrite G3].
Qed.

End restarts.
