(* ===== verification/BucketApply.v ===== *)
(** * Buckets and the database

    [bucket/BucketApplicator.cpp] writes a bucket to the database in transactions of
    at most 256 entries; [ApplyBucketsWork] of [history/HistoryWork.cpp] writes a whole
    list of buckets, from the oldest bucket to the newest;
    [checkDBAgainstBuckets] of [bucket/Bucket.cpp] compares the database with the list.

    The database is a map of rows by the primary keys of the tables ([rowOf]), which
    are the identities of the entries but for two tables: a reference has its sender
    in the key, an offer has not its owner.  What [exists], [storeAdd], [storeChange],
    [storeDelete], [storeLoad] and [countObjects] of the helpers do with SQL is written out, with
    the differences between the helpers.  The bodies of entries are bytes here: whether a frame is
    valid and a row keeps the constraints of its columns ([isValid]) is a parameter.  The cache of entries
    is not modelled, nor are constraints of uniqueness on other columns than the keys. *)

From Stdlib Require Import ZArith Lia String.
From stdpp Require Import base tactics gmap option list.
From S2P Require Import Prelude ScpTypes LedgerTypes Bucket FutureBucket BucketList.

Open Scope Z_scope.

Abbreviation DB := (gmap LedgerId LedgerEntry) (only parsing).

(** ** Rows *)

Section rows.
Context `{LedgerExterns}.

(** The primary key of the row of an entry. *)
Definition rowOf (k : LedgerKey) : LedgerId :=
  match k with
  | KReference r s => (REFERENCE_ENTRY, [FB r; FZ (Z.of_N s)])
  | KOffer x _ => (OFFER_ENTRY, [FZ x])
  | _ => idOf k
  end.

(** [existsEntry]: the helpers of limits answer no, that of the statistics of the second version looks for an account with
    the identifier of the row; an offer is looked for with its owner. *)
Definition existsEntry (k : LedgerKey) (db : DB) : bool :=
  match k with
  | KAccountLimits _ | KAccountTypeLimits _ | KStatisticsV2 _ => false
  | KOffer _ _ => match db !! rowOf k with Some e => bool_decide (data e = k) | None => false end
  | _ => bool_decide (is_Some (db !! rowOf k))
  end.

Definition uniqueViolation : exn := RuntimeError "duplicate key value violates unique constraint"%string.
Definition notUpdated : exn := RuntimeError "could not update SQL"%string.
Definition invalidEntry : exn := RuntimeError "Unexpected state: entry is invalid"%string.
Definition notDeleted : exn := RuntimeError "AccountLimitsFrame is not supposed to be deleted"%string.

(** [storeUpdateHelper] of the helpers: an [INSERT] or an [UPDATE] of one row. *)
Definition storeUpdateHelper (isValid : LedgerEntry -> bool) (insert : bool) (e : LedgerEntry) (db : DB) : exn + DB :=
  if isValid e then
    match insert, db !! rowOf (data e) with
    | true, Some _ => inl uniqueViolation
    | false, None => inl notUpdated
    | _, _ => inr (<[rowOf (data e) := e]> db)
    end
  else inl invalidEntry.

(** [storeDelete] of the helpers: a [DELETE] of a row by its key, which need not be there; the rows of some tables
    stay. *)
Definition storeDelete (k : LedgerKey) (db : DB) : exn + DB :=
  match k with
  | KAccountTypeLimits _ | KStatistics _ | KStatisticsV2 _ => inr db
  | KAccountLimits _ => inl notDeleted
  | _ => inr (delete (rowOf k) db)
  end.

End rows.

Section apply.
Context `{LedgerExterns} `{BucketExterns} (NDEBUG : bool) (isValid : LedgerEntry -> bool).

(** ** [BucketApplicator] *)

(** The stream: the entries still to be read, and [mIn.good()]. *)
Record Applicator := mkApplicator {
  aIn : list BucketEntry;
  aGood : bool;
  aSize : Z;
  aDb : DB }.

Definition newApplicator (b : Bucket) (db : DB) : Applicator := mkApplicator b true 0 db.

Definition set_aDb db (a : Applicator) := mkApplicator (aIn a) (aGood a) (aSize a) db.

(** The helper of a type; calling through a null one ends the process. *)
Definition theHelper (t : LedgerEntryType) : M Applicator () :=
  if getHelper t then mret () else throw NullDeref.

Definition onRows (f : DB -> exn + DB) : M Applicator () :=
  a ← get; db ← lift (f (aDb a)); modify (set_aDb db).

(** [storeAddOrChangeEntry] *)
Definition storeAddOrChangeEntry (e : LedgerEntry) : M Applicator () :=
  k ← LedgerEntryKey e;
  a ← get;
  let insert := negb (existsEntry k (aDb a)) in
  theHelper (key_type (data e));;
  onRows (storeUpdateHelper isValid insert e).

(** [storeDeleteEntry] *)
Definition storeDeleteEntry (k : LedgerKey) : M Applicator () :=
  theHelper (key_type k);;
  onRows (storeDelete k).

Definition applyEntry (e : BucketEntry) : M Applicator () :=
  match e with
  | LIVEENTRY e => theHelper (key_type (data e));; storeAddOrChangeEntry e
  | DEADENTRY k => storeDeleteEntry k
  end.

(** The loop of [advance]: it ends when the stream does, or after [0xff] entries
    of a block of [0x100]. *)
Fixpoint advanceLoop (l : list BucketEntry) : M Applicator () :=
  match l with
  | [] => modify (fun a => mkApplicator [] false (aSize a) (aDb a))
  | e :: l' =>
      applyEntry e;;
      modify (fun a => mkApplicator l' true (u64 (aSize a + 1)) (aDb a));;
      a ← get;
      if Z.land (aSize a) 255 =? 255 then mret () else advanceLoop l'
  end.

(** [BucketApplicator::advance]: what throws is rolled back. *)
Definition advance : M Applicator () := fun a =>
  if aGood a then
    match advanceLoop (aIn a) a with
    | Ret _ a' => Ret () a'
    | Exn e a' => Exn e (set_aDb (aDb a) a')
    end
  else Ret () a.

(** [Bucket::apply]: [while (applicator) applicator.advance();] *)
Fixpoint applyLoop (fuel : nat) : M Applicator () :=
  match fuel with
  | O => throw OutOfFuel
  | S fuel' =>
      a ← get;
      if aGood a then advance;; applyLoop fuel' else mret ()
  end.

Definition applyBucket (b : Bucket) : M DB () :=
  fun db => match applyLoop (S (S (length b))) (newApplicator b db) with
            | Ret _ a => Ret () (aDb a)
            | Exn e a => Exn e (aDb a)
            end.

(** ** [ApplyBucketsWork]

    The steps of one level: [onStart] chooses the buckets, [onRun] advances the
    applicator of the snapshot to its end and then that of the current bucket. *)

Record ApplyState := mkApplyState { mApplying : bool; apDb : DB }.

Definition onDb (m : M DB ()) : M ApplyState () :=
  fun s => match m (apDb s) with
           | Ret _ db => Ret () (mkApplyState (mApplying s) db)
           | Exn e db => Exn e (mkApplyState (mApplying s) db)
           end.

(** [wanted] is the bucket the archive has, [local] the one of the local list. *)
Definition applyIfNew (wanted local : Bucket) : M ApplyState () :=
  s ← get;
  if mApplying s || negb (bool_decide (hexHash wanted = hexHash local)) then
    modify (fun s => mkApplyState true (apDb s));;
    onDb (applyBucket wanted)
  else mret ().

(** The levels, from the last one down. *)
Fixpoint applyLevels (levels : list ((Bucket * Bucket) * (Bucket * Bucket))) : M ApplyState () :=
  match levels with
  | [] => mret ()
  | ((curr, snap), (localCurr, localSnap)) :: rest =>
      applyIfNew snap localSnap;;
      applyIfNew curr localCurr;;
      applyLevels rest
  end.

(** ** [checkDBAgainstBuckets] *)

(** Step 1: the buckets of the list, newest first; pending merges are resolved in
    place. *)
Fixpoint collectBuckets (bl : list BucketLevel) : M () (list Bucket * list BucketLevel) :=
  match bl with
  | [] => mret ([], [])
  | l :: bl' =>
      r ← (if isLive (mNextCurr l) then
             r ← resolve NDEBUG (mNextCurr l);
             mret ([r.1], set_mNextCurr r.2 l)
           else mret ([], l));
      rest ← collectBuckets bl';
      mret (r.1 ++ [mCurr l; mSnap l] ++ rest.1, r.2 :: rest.2)
  end.

(** Step 2: one bucket of them all. *)
Fixpoint superLoop (super : Bucket) (bs : list Bucket) : M () Bucket :=
  match bs with
  | [] => mret super
  | b :: bs' => super ← merge NDEBUG b super [] true; superLoop super bs'
  end.

Definition inconsistent : exn := RuntimeError "Inconsistent state between objects: "%string.
Definition countMismatch : exn :=
  RuntimeError "{} object count mismatch: DB has {}, BucketList has {}"%string.

(** [EntryHelperProvider::checkAgainstDatabase], with [storeLoad] by the key; an offer of another owner, which is not
    loaded, is not the entry either. *)
Definition checkAgainstDatabase (e : LedgerEntry) (db : DB) : M () () :=
  k ← LedgerEntryKey e;
  match db !! rowOf k with
  | Some e' => if bool_decide (e' = e) then mret () else throw inconsistent
  | None => throw inconsistent
  end.

(** Step 3: every live entry against the database, counted by type. *)
Fixpoint scanLoop (db : DB) (counters : gmap LedgerEntryType Z) (l : list BucketEntry) :
    M () (gmap LedgerEntryType Z) :=
  match l with
  | [] => mret counters
  | LIVEENTRY e :: l' =>
      let t := key_type (data e) in
      let counters := match counters !! t with
                      | None => <[t := 1]> counters
                      | Some c => <[t := u64 (c + 1)]> counters
                      end in
      checkAgainstDatabase e db;; scanLoop db counters l'
  | DEADENTRY _ :: l' => scanLoop db counters l'
  end.

(** [countObjects]: the rows of a table; the helper of account limits counts those of account types. *)
Definition countedTable (t : LedgerEntryType) : LedgerEntryType :=
  match t with ACCOUNT_LIMITS => ACCOUNT_TYPE_LIMITS | _ => t end.

Definition countObjects (t : LedgerEntryType) (db : DB) : Z :=
  Z.of_nat (length (filter (fun p => p.1.1 = countedTable t) (map_to_list db))).

Definition countObjectsEntry (t : LedgerEntryType) (db : DB) : M () Z :=
  if getHelper t then mret (countObjects t db) else throw NullDeref.

(** Step 4: the counts of the types found, in the order of the types. *)

#[export] Instance type_std_order : StdOrder LedgerEntryType.
Proof.
  refine {| std_le := fun a b => enum_value a <= enum_value b |}.
  - intros a b. apply _.
  - intros a b c ? ?. by etrans.
  - intros a b. cbn. lia.
  - intros a b ? ?. by apply enum_value_inj, Z.le_antisymm.
Defined.

Fixpoint countLoop (db : DB) (l : list (LedgerEntryType * Z)) : M () () :=
  match l with
  | [] => mret ()
  | (t, c) :: l' =>
      n ← countObjectsEntry t db;
      if n =? c then countLoop db l' else throw countMismatch
  end.

Definition checkDBAgainstBuckets (db : DB) (bl : list BucketLevel) : M () (list BucketLevel) :=
  r ← collectBuckets bl;
  match r.1 with
  | [] => mret r.2
  | b :: bs =>
      super ← superLoop b bs;
      counters ← scanLoop db ∅ super;
      countLoop db (map_asc counters);;
      mret r.2
  end.

End apply.
