(* ===== verification/BucketApplyTheorems.v ===== *)
(** * Theorems on buckets and the database

    Applying a list of buckets gives the database the ledger the list stands for;
    the comparison of the database with the list decides their equality, type by
    type; closing a ledger keeps the list and the deltas together. *)

From Stdlib Require Import ZArith Lia String.
From stdpp Require Import base tactics gmap option list.
From S2P Require Import Prelude ScpTypes LedgerTypes LedgerOrder LedgerDelta LedgerDeltaFacts LedgerDeltaTheorems.
From S2P Require Import Bucket BucketFacts FutureBucket BucketList BucketListFacts.
From S2P Require Import BucketListTheorems BucketApply.

Open Scope Z_scope.

Section theorems.
Context `{LedgerExterns} `{BucketExterns} {NDEBUG : bool} {isValid : LedgerEntry -> bool}.

(** ** Rows *)

Lemma rowOf_type k : (rowOf k).1 = key_type k.
Proof. by destruct k. Qed.

(** Identities and rows agree but for references and offers. *)
Lemma rowOf_id k k' : key_type k <> REFERENCE_ENTRY -> key_type k <> OFFER_ENTRY -> rowOf k = rowOf k' <-> idOf k = idOf k'.
Proof.
  intros H1 H2. destruct k; try done; (split; intros E;
    [pose proof (f_equal fst E) as Et|pose proof (idOf_key_type _ _ E) as Et]; rewrite ?rowOf_type in Et; by destruct k').
Qed.

Lemma row_of_reference k k' : key_type k = REFERENCE_ENTRY -> rowOf k = rowOf k' -> idOf k = idOf k'.
Proof.
  intros Hk E. pose proof (f_equal fst E) as Et. rewrite !rowOf_type in Et. destruct k; try done. destruct k'; try done.
  simpl in E. injection E as -> _. done.
Qed.

Lemma row_of_offer k k' : key_type k = OFFER_ENTRY -> idOf k = idOf k' -> rowOf k = rowOf k'.
Proof.
  intros Hk E. pose proof (idOf_key_type _ _ E) as Et. destruct k; try done. destruct k'; try done.
  unfold idOf in E. injection E as -> _. done.
Qed.

(** ** Applying one bucket *)

Abbreviation rows := (gmap LedgerId LedgerEntry).

(** Tables whose rows are only ever inserted, and tables nothing is deleted from. *)
Definition addOnly (t : LedgerEntryType) : bool :=
  match t with ACCOUNT_LIMITS | ACCOUNT_TYPE_LIMITS | STATISTICS_V2 => true | _ => false end.
Definition neverDeleted (t : LedgerEntryType) : bool :=
  match t with ACCOUNT_LIMITS | ACCOUNT_TYPE_LIMITS | STATISTICS | STATISTICS_V2 => true | _ => false end.

Definition rowId (e : BucketEntry) : LedgerId := rowOf (bucketKey e).

Definition applyOne (db : rows) (e : BucketEntry) : rows :=
  match e with
  | LIVEENTRY e => <[rowOf (data e) := e]> db
  | DEADENTRY k => delete (rowOf k) db
  end.

(** The type of the entry has a legacy helper. *)
Definition legacyEntry (e : BucketEntry) : Prop := getHelper (key_type (bucketKey e)) = true.

(** The entry can be applied to some database: its type has a helper, it is valid, and it removes no row of a table
    nothing is deleted from. *)
Definition storable (e : BucketEntry) : Prop :=
  legacyEntry e /\ match e with LIVEENTRY e => isValid e = true | DEADENTRY k => neverDeleted (key_type k) = false end.

(** The row [e'] lets the live entry [e] in: it can be changed, and belongs to the same owner. *)
Definition lets (e' e : LedgerEntry) : Prop :=
  addOnly (key_type (data e)) = false /\ (key_type (data e) = OFFER_ENTRY -> data e' = data e).

Definition fits (db : rows) (e : BucketEntry) : Prop :=
  match e with LIVEENTRY e => forall e', db !! rowOf (data e) = Some e' -> lets e' e | DEADENTRY _ => True end.

Lemma exists_row (e : LedgerEntry) (db : rows) : (forall e', db !! rowOf (data e) = Some e' -> lets e' e) ->
  existsEntry (data e) db = bool_decide (is_Some (db !! rowOf (data e))).
Proof.
  intros Hf. destruct (db !! rowOf (data e)) as [e'|] eqn:Er.
  - destruct (Hf e' eq_refl) as [Ha Ho]. rewrite bool_decide_true by eauto. unfold existsEntry.
    destruct (data e) eqn:Ed; try done; rewrite Er; rewrite bool_decide_true; eauto.
  - rewrite bool_decide_false by (intros [? ?]; done). unfold existsEntry.
    destruct (data e) eqn:Ed; try done; rewrite Er; try done; by rewrite bool_decide_false by (intros [? ?]).
Qed.

Lemma applyEntry_run e a : storable e -> fits (aDb a) e ->
  applyEntry isValid e a = Ret () (set_aDb (applyOne (aDb a) e) a).
Proof.
  intros [Hl Hv] Hf. unfold legacyEntry in Hl. destruct e as [e|k]; simpl in Hl, Hv |- *;
    unfold storeAddOrChangeEntry, storeDeleteEntry, theHelper, onRows; rewrite Hl.
  - rewrite (ret_bind _ _ _ tt) by done. rewrite (ret_bind _ _ _ (data e)) by apply LedgerEntryKey_eq.
    unfold get, modify, mbind, M_bind, mret, M_ret, lift, storeUpdateHelper. cbn beta iota. rewrite Hv.
    rewrite exists_row by exact Hf. by destruct (aDb a !! rowOf (data e)).
  - unfold get, modify, mbind, M_bind, mret, M_ret, lift, storeDelete. cbn beta iota. by destruct k.
Qed.

(** A list of entries that can be applied one after another. *)
Fixpoint fitting (db : rows) (l : list BucketEntry) : Prop :=
  match l with [] => True | e :: l' => storable e /\ fits db e /\ fitting (applyOne db e) l' end.

Lemma fitting_app db l l' : fitting db (l ++ l') <-> fitting db l /\ fitting (foldl applyOne db l) l'.
Proof. revert db. induction l as [|e l IH]; intros db; simpl; [tauto|]. rewrite IH. tauto. Qed.

(** A call of [advance] applies a part of what is left, all of it when the stream
    ends. *)
Lemma advanceLoop_run l a : fitting (aDb a) l ->
  exists l1 l2 a', l = l1 ++ l2 /\ advanceLoop isValid l a = Ret () a' /\
    aDb a' = foldl applyOne (aDb a) l1 /\ aIn a' = l2 /\
    (aGood a' = true /\ l1 <> [] \/ aGood a' = false /\ l2 = []).
Proof.
  revert a. induction l as [|e l IH]; intros a.
  { intros _. exists [], []. eexists. split_and!; try done. by right. }
  intros (Hs & Hf & Hl). cbn [advanceLoop]. unfold mbind at 1, M_bind at 1. rewrite applyEntry_run by done.
  unfold modify, get, mbind at 1, M_bind at 1. cbn beta iota. unfold mbind, M_bind. cbn beta iota.
  case_match.
  - exists [e], l. eexists. split_and!; try done. by left.
  - destruct (IH (mkApplicator l true (u64 (aSize a + 1)) (applyOne (aDb a) e)))
      as (l1 & l2 & a' & -> & E & Hd & Hi & Hg); [done|].
    exists (e :: l1), l2, a'. split_and!; try done. naive_solver.
Qed.

Lemma applyLoop_run fuel a : fitting (aDb a) (aIn a) -> aGood a = true ->
  (length (aIn a) + 1 < fuel)%nat ->
  exists a', applyLoop isValid fuel a = Ret () a' /\ aDb a' = foldl applyOne (aDb a) (aIn a).
Proof.
  revert a. induction fuel as [|fuel IH]; intros a Hl Hg Hf; [lia|].
  cbn [applyLoop]. unfold advance, get, mbind, M_bind. cbn beta iota. rewrite Hg. cbn beta iota. rewrite Hg.
  destruct (advanceLoop_run (aIn a) a Hl) as (l1 & l2 & a' & El & E & Hd & Hi & Hc).
  rewrite E. rewrite El in *. destruct Hc as [[Hg' Hne]|[Hg' ->]].
  - apply fitting_app in Hl as [_ Hl]. rewrite <- Hi, <- Hd in Hl.
    destruct (IH a') as (a2 & E2 & Hd2); [done..| |].
    { rewrite Hi. rewrite length_app in Hf. destruct l1; [done|]. simpl in Hf. lia. }
    exists a2. split; [exact E2|]. by rewrite Hd2, Hd, Hi, foldl_app.
  - exists a'. rewrite app_nil_r. split; [|done]. destruct fuel; [lia|]. cbn [applyLoop].
    unfold get, mbind, M_bind. by rewrite Hg'.
Qed.

Lemma applyBucket_run b db : fitting db b ->
  applyBucket isValid b db = Ret () (foldl applyOne db b).
Proof.
  intros Hl. unfold applyBucket.
  destruct (applyLoop_run (S (S (length b))) (newApplicator b db)) as (a' & -> & Hd);
    [done|done|simpl; lia|]. by rewrite Hd.
Qed.

(** A bucket that holds an entry of a type without a legacy helper (account
    roles and their permissions) ends the process when it is applied: the helper
    is used without a check for null. *)
Theorem apply_role_null_helper (b1 : list BucketEntry) (e : BucketEntry) (b2 : list BucketEntry) (db : rows) :
  fitting db b1 -> ~ legacyEntry e -> (length b1 < 255)%nat ->
  applyBucket isValid (b1 ++ e :: b2) db = Exn NullDeref db.
Proof.
  intros Hb He Hlen. unfold applyBucket. cbn [applyLoop]. unfold advance, get, mbind, M_bind.
  cbn beta iota. cbn [aGood aIn newApplicator].
  assert (Ha : forall a, 0 <= aSize a -> aSize a + Z.of_nat (length b1) < 255 -> fitting (aDb a) b1 ->
    exists a', advanceLoop isValid (b1 ++ e :: b2) a = Exn NullDeref a').
  { clear Hb. induction b1 as [|x b1 IH]; intros a H0a Hsz Hb; cbn [advanceLoop app].
    - exists a. unfold mbind at 1, M_bind at 1. unfold legacyEntry in He.
      destruct e; simpl in *; unfold storeDeleteEntry, theHelper;
        destruct (getHelper _); done.
    - destruct Hb as (Hs & Hf & Hb). cbn [length] in *. unfold mbind at 1, M_bind at 1. rewrite applyEntry_run by done.
      unfold modify, get, mbind, M_bind. cbn beta iota. cbn [aSize set_aDb].
      rewrite u64_id by (unfold UINT64_MAX; lia).
      assert (Hland : (Z.land (aSize a + 1) 255 =? 255) = false).
      { change 255 with (Z.ones 8) at 1. rewrite Z.land_ones by lia.
        rewrite Z.mod_small by lia. apply Z.eqb_neq. lia. }
      rewrite Hland. apply IH; cbn [aSize aDb set_aDb]; [lia|lia|lia|done]. }
  destruct (Ha (newApplicator (b1 ++ e :: b2) db)) as [a' ->]; [simpl; lia..|done|]. done.
Qed.

(** ** Applying a list *)

(** The last entry of a list for a row. *)
Definition lastFor (l : list BucketEntry) (r : LedgerId) : option BucketEntry := last (filter (fun e => rowId e = r) l).

Lemma last_app_or {A} (l l' : list A) : last (l ++ l') = orElse (last l') (last l).
Proof.
  destruct l' as [|x l' _] using rev_ind; [by rewrite app_nil_r|]. by rewrite app_assoc, !last_snoc.
Qed.

Lemma lastFor_app l l' r : lastFor (l ++ l') r = orElse (lastFor l' r) (lastFor l r).
Proof. unfold lastFor. by rewrite filter_app, last_app_or. Qed.

Lemma lastFor_elem l r e : lastFor l r = Some e -> e ∈ l /\ rowId e = r.
Proof. unfold lastFor. intros Hl%last_Some_elem_of. by apply list_elem_of_filter in Hl as [? ?]. Qed.

Lemma foldl_applyOne l db r :
  foldl applyOne db l !! r = match lastFor l r with Some e => liveOf (Some e) | None => db !! r end.
Proof.
  induction l as [|e l IH] using rev_ind; [done|]. rewrite foldl_app, lastFor_app. cbn [foldl].
  unfold lastFor at 1. rewrite filter_cons, filter_nil.
  destruct (decide (rowId e = r)) as [<-|Hne]; cbn [last orElse].
  - destruct e; unfold rowId; simpl; [apply lookup_insert_eq|apply lookup_delete_eq].
  - rewrite <- IH. unfold rowId in Hne. destruct e; simpl in *; [by apply lookup_insert_ne|by apply lookup_delete_ne].
Qed.

(** What can be applied to a database, oldest first: every entry is storable; offers of one number have one
    owner; a row of a table that only takes new rows comes once, and is not there. *)
Record applicable (db : rows) (l : list BucketEntry) : Prop := {
  ap_storable : Forall storable l;
  ap_owner : forall e e', e ∈ l -> e' ∈ l -> rowId e = rowId e' -> key_type (bucketKey e) = OFFER_ENTRY ->
    bucketKey e = bucketKey e';
  ap_once : NoDup (map rowId (filter (fun e => addOnly (key_type (bucketKey e)) = true) l));
  ap_db : Forall (fits db) l }.

Lemma applicable_app db l l' : applicable db (l ++ l') -> applicable db l.
Proof.
  intros [H1 H2 H3 H4]. apply Forall_app in H1 as [? _], H4 as [? _]. rewrite filter_app, map_app in H3.
  apply NoDup_app in H3 as [? _]. split; try done. intros e e' He He'. apply H2; by apply elem_of_app; left.
Qed.

Lemma applicable_fitting db l : applicable db l -> fitting db l.
Proof.
  induction l as [|e l IH] using rev_ind; [done|]. intros Ha. apply fitting_app. split; [by eapply IH, applicable_app|].
  destruct Ha as [H1 H2 H3 H4]. apply Forall_app in H1 as [_ H1], H4 as [_ H4]. rewrite Forall_singleton in H1, H4.
  cbn [fitting]. split; [exact H1|]. split; [|done]. destruct e as [e|k]; [|done]. intros e' He'. rewrite foldl_applyOne in He'.
  destruct (lastFor l (rowOf (data e))) as [x|] eqn:Ex; [|by apply H4].
  destruct (lastFor_elem _ _ _ Ex) as [Hx Hr]. destruct x as [x|]; [|done]. injection He' as ->. split.
  - destruct (addOnly (key_type (data e))) eqn:Eo; [|done]. exfalso.
    rewrite filter_app, map_app in H3. apply NoDup_app in H3 as (_ & Hd & _). apply (Hd (rowOf (data e))).
    + apply list_elem_of_fmap. exists (LIVEENTRY e'). split; [done|]. apply list_elem_of_filter. split; [|done].
      unfold rowId in Hr. simpl in *. pose proof (f_equal fst Hr) as Et. rewrite !rowOf_type in Et. by rewrite Et.
    + rewrite filter_cons, decide_True by done. left.
  - intros Ho. assert (E : bucketKey (LIVEENTRY e) = bucketKey (LIVEENTRY e')); [|by simpl in E].
    apply H2; [set_solver|set_solver|by rewrite Hr|done].
Qed.

Definition bucketsOf (l : (Bucket * Bucket) * (Bucket * Bucket)) : list Bucket := [l.1.2; l.1.1].

(** Applied, or skipped because the local bucket has its hash and is empty. *)
Lemma applyIfNew_run `{!Inj (=) (=) hexHash} (b : Bucket) s : fitting (apDb s) b ->
  exists s', applyIfNew isValid b [] s = Ret () s' /\ apDb s' = foldl applyOne (apDb s) b.
Proof.
  intros Hl. unfold applyIfNew, get, mbind at 1, M_bind at 1. cbn beta iota.
  destruct (mApplying s || negb (bool_decide (hexHash b = hexHash []))) eqn:E.
  - unfold modify, onDb, mbind, M_bind. cbn beta iota. cbn [apDb]. rewrite applyBucket_run by done.
    by eexists.
  - exists s. split; [done|]. propify. apply (inj hexHash) in H2. by subst b.
Qed.

Lemma applyLevels_run `{!Inj (=) (=) hexHash} ls s : Forall (fun l => l.2 = ([], [])) ls ->
  fitting (apDb s) (concat (concat (map bucketsOf ls))) ->
  exists s', applyLevels isValid ls s = Ret () s' /\
    apDb s' = foldl applyOne (apDb s) (concat (concat (map bucketsOf ls))).
Proof.
  intros Hl. revert s. induction Hl as [|[[curr snap] [lc ls']] ls E Hls IH]; intros s; [by exists s|].
  simpl in E. injection E as -> ->. cbn [map concat bucketsOf fst snd app]. intros [Fs [Fc Fr]%fitting_app]%fitting_app.
  destruct (applyIfNew_run snap s) as (s1 & E1 & O1); [done..|]. rewrite <- O1 in Fc, Fr.
  destruct (applyIfNew_run curr s1) as (s2 & E2 & O2); [done..|]. rewrite <- O2 in Fr.
  destruct (IH s2) as (s3 & E3 & O3); [done|].
  exists s3. split; [cbn [applyLevels]; unfold mbind, M_bind; by rewrite E1, E2|].
  by rewrite O3, O2, O1, !foldl_app.
Qed.

(** The levels as [ApplyBucketsWork] visits them, over an empty local list. *)
Definition worklist (bl : list BucketLevel) : list ((Bucket * Bucket) * (Bucket * Bucket)) :=
  rev (map (fun l => ((mCurr l, mSnap l), ([], []))) bl).

(** The buckets of a list, newest first. *)
Definition allBuckets (bl : list BucketLevel) : list Bucket := concat (map (fun l => [mCurr l; mSnap l]) bl).

(** What the newest bucket that has the row says of it. *)
Fixpoint newestFor (bs : list Bucket) (r : LedgerId) : option BucketEntry :=
  match bs with [] => None | b :: bs' => orElse (lastFor b r) (newestFor bs' r) end.

Lemma worklist_buckets bl : concat (map bucketsOf (worklist bl)) = rev (allBuckets bl).
Proof.
  unfold worklist, allBuckets. induction bl as [|l bl IH]; [done|]. cbn [map rev concat]. rewrite map_app, concat_app, IH.
  simpl. by rewrite <- app_assoc.
Qed.

Lemma newestFor_last bs r : newestFor bs r = lastFor (concat (rev bs)) r.
Proof.
  induction bs as [|b bs IH]; [done|]. cbn [rev newestFor]. rewrite concat_app, lastFor_app, IH. simpl. by rewrite app_nil_r.
Qed.

(** Identities and rows agree in a list: no reference has two senders. *)
Definition sendersAgree (l : list BucketEntry) : Prop :=
  forall e e', e ∈ l -> e' ∈ l -> bid e = bid e' -> rowId e = rowId e'.

Lemma elem_of_all (bs : list Bucket) (e : BucketEntry) : e ∈ concat (rev bs) <-> exists b : Bucket, b ∈ bs /\ e ∈ b.
Proof.
  rewrite list_elem_of_In, in_concat. setoid_rewrite <- in_rev. setoid_rewrite <- list_elem_of_In. done.
Qed.

Definition idsAgree (l : list BucketEntry) : Prop :=
  forall x y, x ∈ l -> y ∈ l -> bid x = bid y <-> rowId x = rowId y.

(** The newest entry of a row and that of the identity are the same, in one bucket and in all. *)
Lemma last_of_id (b : Bucket) l e : bucket_sorted b -> b ⊆ l -> e ∈ l -> idsAgree l -> look b (bid e) = lastFor b (rowId e).
Proof.
  intros Hsb Hsub He Hag.
  assert (Hlast : forall y, lastFor b (rowId e) = Some y -> look b (bid e) = Some y).
  { intros y [Hy Hr]%lastFor_elem. rewrite <- (proj2 (Hag y e (Hsub _ Hy) He) Hr). by apply look_sorted_elem. }
  destruct (lastFor b (rowId e)) as [y|] eqn:Ey; [by apply Hlast|].
  destruct (look b (bid e)) as [x|] eqn:El; [|done]. exfalso. unfold lastFor in Ey. apply last_None in Ey.
  pose proof (look_elem _ _ _ El) as Hx.
  assert (Hin : x ∈ filter (fun e' => rowId e' = rowId e) b).
  { apply list_elem_of_filter. split; [|done]. apply (Hag x e (Hsub _ Hx) He). by apply look_bid in El. }
  rewrite Ey in Hin. by apply elem_of_nil in Hin.
Qed.

Lemma newest_of_id bs l e : Forall (fun b : Bucket => bucket_sorted b /\ b ⊆ l) bs -> e ∈ l -> idsAgree l ->
  lookAll bs (bid e) = newestFor bs (rowId e).
Proof.
  intros Hs He Hag. induction Hs as [|b bs [Hb Hsub] Hbs IH]; [done|]. simpl. rewrite IH. f_equal. by eapply last_of_id.
Qed.

Lemma lookAll_elem (bs : list Bucket) k e : lookAll bs k = Some e -> e ∈ concat (rev bs) /\ bid e = k.
Proof.
  rewrite elem_of_all. induction bs as [|b bs IH]; [done|]. simpl. destruct (look b k) as [x|] eqn:El; simpl.
  - intros [= ->]. split; [exists b; split; [left|by eapply look_elem]|by eapply look_bid].
  - intros (H1 & H2)%IH. split; [|done]. destruct H1 as (c & Hc & ?). exists c. split; [by right|done].
Qed.

(** Rows and identities determine each other in what can be applied. *)
Lemma applicable_agree db l : applicable db l -> sendersAgree l -> idsAgree l.
Proof.
  intros Ha Hs x y Hx Hy. split; [by apply Hs|]. intros E. unfold bid, rowId in *.
  destruct (decide (key_type (bucketKey x) = REFERENCE_ENTRY)) as [Er|Er]; [by apply row_of_reference|].
  destruct (decide (key_type (bucketKey x) = OFFER_ENTRY)) as [Eo|Eo]; [by rewrite (ap_owner _ _ Ha x y)|].
  by apply rowOf_id.
Qed.

(** The ledger of a list, when its rows and identities agree, in the rows of the newest entries. *)
Lemma visible_rows bl e : Forall bucket_sorted (allBuckets bl) -> idsAgree (concat (rev (allBuckets bl))) ->
  (exists i, visible bl i = Some e) <-> liveOf (newestFor (allBuckets bl) (rowOf (data e))) = Some e.
Proof.
  intros Hs Hag. unfold visible. fold (allBuckets bl).
  assert (Hall : Forall (fun b : Bucket => bucket_sorted b /\ b ⊆ concat (rev (allBuckets bl))) (allBuckets bl)).
  { apply Forall_forall. intros b Hb. rewrite Forall_forall in Hs. split; [by apply Hs|].
    intros x Hx. apply elem_of_all. by exists b. }
  split.
  - intros [i Hi]. destruct (lookAll _ i) as [x|] eqn:El; [|done]. destruct (lookAll_elem _ _ _ El) as [Hx <-].
    rewrite (newest_of_id _ _ x Hall Hx Hag) in El. destruct x as [x|]; [|done]. injection Hi as ->.
    unfold rowId in El. simpl in El. by rewrite El.
  - intros Hn. destruct (newestFor _ _) as [x|] eqn:En; [|done]. destruct x as [x|]; [|done]. injection Hn as ->.
    pose proof En as Hin. rewrite newestFor_last in Hin. apply lastFor_elem in Hin as [Hx _].
    exists (bid (LIVEENTRY e)). rewrite (newest_of_id _ _ (LIVEENTRY e) Hall Hx Hag). unfold rowId. simpl. by rewrite En.
Qed.


(** ** Closing a ledger *)

Lemma live_ids d L : wfd (ok := legacy) d L ->
  map (fun e => idOf (data e)) (getLiveEntries d) = (map_asc (mNew d)).*1 ++ (map_asc (mMod d)).*1.
Proof.
  intros Hw. unfold getLiveEntries. rewrite map_app, !map_map. f_equal;
    (apply map_ext_in; intros [i p] Hin%list_elem_of_In%elem_of_map_asc; simpl).
  - by destruct (wfd_new _ _ _ _ Hw Hin) as ([_ ?] & _).
  - by destruct (wfd_mod _ _ _ _ Hw Hin) as ([_ ?] & _).
Qed.

Lemma dead_ids d L : wfd (ok := legacy) d L ->
  map idOf (getDeadEntries d) = (map_asc (mDelete d)).*1.
Proof.
  intros Hw. unfold getDeadEntries. rewrite map_map.
  apply map_ext_in. intros [i k] Hin%list_elem_of_In%elem_of_map_asc. simpl.
  by destruct (wfd_del _ _ _ _ Hw Hin).
Qed.

Lemma delta_batch_ok d L : wfd (ok := legacy) d L ->
  batch_ok (getLiveEntries d) (getDeadEntries d).
Proof.
  intros Hw. split.
  - rewrite (live_ids d L) by done. apply NoDup_app. split_and!; try apply NoDup_map_asc.
    intros i [p Hp]%map_asc_dom Hi. rewrite map_asc_dom in Hi.
    destruct (wfd_new _ _ _ _ Hw Hp) as (_ & _ & Hm & _). rewrite Hm in Hi. by destruct Hi.
  - rewrite (dead_ids d L) by done. apply NoDup_map_asc.
Qed.

(** [closeLedgerHelper] on the list of buckets: the batch of the delta at [a]. *)
Definition closeLedgerBatch (currLedger : Z) (d : Delta) : M (list BucketLevel) () :=
  addBatch NDEBUG currLedger (getLiveEntries d) (getDeadEntries d).

(** C7. Deltas and buckets together.  A ledger [L] is in the list of buckets after
    ledger [n]; the changes of ledger [n + 1], in whatever nesting of scopes,
    committed or rolled back, are made in a delta over [L] and end with the entries
    [M]; its live and dead entries are given to the list.  Then the calls return
    and the list stands for [M], with its invariant, so that the next ledger can
    be closed in the same way. *)
Theorem close_ledger_in_step ops w L h M h' n bl : rootHeader w = h ->
  spec_run (OBegin :: ops) [(L, h)] = Some [(M, h'); (L, h)] ->
  Forall (fun op => forall i, op_id op = Some i -> legacy i) ops ->
  0 <= n -> n + 1 <= UINT32_MAX -> represents n bl L ->
  exists w' d bl', impl_run NDEBUG (OBegin :: ops) 0 w = Ret 1%nat w' /\
    deltas w' !! 0%nat = Some d /\
    closeLedgerBatch (n + 1) d bl = Ret () bl' /\ represents (n + 1) bl' M.
Proof.
  intros Hw Hs Hf Hn Hm Hr.
  destruct (run_refines (NDEBUG := NDEBUG) (OBegin :: ops) w 0 [(L, h)] [(M, h'); (L, h)])
    as (n' & w' & E & Hrf); [done..|by constructor|].
  destruct n' as [|[|n']]; [done| |simpl in Hrf; naive_solver].
  apply refines_uncons in Hrf as (d & o & Hd & [= <-] & (_ & _ & _ & _ & Hwd & He & _) & _).
  destruct (addBatch_represents (NDEBUG := NDEBUG) n bl L (getLiveEntries d) (getDeadEntries d))
    as (bl' & Eb & Hb); [done..|by eapply delta_batch_ok|].
  rewrite applyBatch_puts, batch_eff in Hb by done. simpl in He. rewrite He in Hb.
  by exists w', d, bl'.
Qed.

End theorems.
