(* ===== verification/BucketCheckTheorems.v ===== *)
(** * The comparison of the database with the buckets

    [checkDBAgainstBuckets] of [bucket/Bucket.cpp]: merging all the buckets of the list,
    the pending merges included, gives the ledger the list stands for; the scan
    and the counts decide whether the database agrees with it, for the types of
    which the ledger has an entry. *)

From Stdlib Require Import ZArith Lia String Permutation.
From stdpp Require Import base tactics gmap option list.
From S2P Require Import Prelude ScpTypes LedgerTypes LedgerOrder LedgerDelta LedgerDeltaFacts LedgerDeltaTheorems.
From S2P Require Import Bucket BucketFacts FutureBucket BucketList BucketListFacts.
From S2P Require Import BucketListTheorems BucketApply BucketApplyTheorems.

Open Scope Z_scope.

Section check.
Context `{LedgerExterns} `{BucketExterns} {NDEBUG : bool}.

(** ** One bucket of them all *)

Definition levelBuckets (l : BucketLevel) : list Bucket :=
  (if isLive (mNextCurr l) then [outOf (mNextCurr l)] else []) ++ [mCurr l; mSnap l].

Lemma collectBuckets_run (ls : list BucketLevel) : Forall (fun l => next_wf (mNextCurr l)) ls ->
  exists bl', collectBuckets NDEBUG ls () = Ret (concat (map levelBuckets ls), bl') ().
Proof.
  induction 1 as [|l ls Hl Hls (bl' & IH)]; [by eexists|]. cbn [collectBuckets map concat].
  unfold levelBuckets at 1.
  destruct (next_wf_cases (NDEBUG := NDEBUG) _ Hl) as [[u Eu]|(El & _ & Hr)].
  - rewrite Eu. eexists. erewrite ret_bind by done. by erewrite ret_bind by done.
  - eexists. rewrite El. erewrite ret_bind; [|by erewrite ret_bind by apply Hr].
    by erewrite ret_bind by done.
Qed.

(** Pending merges hide nothing: they lie between the buckets they come from. *)
Lemma lookAll_levels n lv k j : list_inv n lv -> (j <= kNumLevels)%nat ->
  lookAll (concat (map (fun i => levelBuckets (lv i)) (seq 0 j))) k = lookBelow lv k j.
Proof.
  intros Hi Hj. induction j as [|j IH]; [done|].
  rewrite seq_S, map_app, concat_app, lookAll_app, IH by lia. rewrite lookBelow_S. simpl.
  rewrite app_nil_r. unfold levelBuckets. rewrite lookAll_app. simpl.
  fold (lookCurr lv k j) (lookSnap lv k j). rewrite orElse_None_r. unfold lookUpto.
  rewrite !orElse_assoc. destruct (lookBelow lv k j) eqn:Eb; [done|]. cbn [orElse].
  destruct j as [|b].
  { destruct (li_next0 _ _ Hi) as [u ->]. done. }
  rewrite lookBelow_S, orElse_None in Eb. destruct Eb as [Eu Es].
  destruct (isLive (mNextCurr (lv (S b)))); [|done]. simpl. rewrite orElse_None_r.
  rewrite (li_merge _ _ Hi), Es by (done || unfold kNumLevels in *; lia). simpl.
  case_match; [|done]. unfold dropDead. destruct (lookCurr lv k (S b)) as [e|]; [|done].
  by case_match.
Qed.

Lemma superLoop_run (b : Bucket) (bs : list Bucket) : bucket_sorted b -> Forall bucket_sorted bs ->
  exists su, superLoop NDEBUG b bs () = Ret su () /\ bucket_sorted su /\
    forall k, look su k = lookAll (b :: bs) k.
Proof.
  intros Hb Hbs. revert b Hb. induction Hbs as [|x bs Hx Hbs IH]; intros b Hb.
  { exists b. split_and!; try done. intros k. simpl. by rewrite orElse_None_r. }
  cbn [superLoop]. rewrite (ret_bind _ _ () (merge_out x b [] true)) by by apply merge_run.
  destruct (IH (merge_out x b [] true)) as (su & E & Hs & Hl); [by apply merge_out_sorted|].
  exists su. split_and!; [done..|]. intros k. rewrite Hl. simpl. rewrite look_merge_out by done.
  unfold merged_at. simpl. rewrite <- orElse_assoc. f_equal.
  destruct (look b k); simpl; [done|]. by destruct (look x k).
Qed.

Lemma levels_sorted n lv : list_inv n lv ->
  Forall bucket_sorted (concat (map (fun i => levelBuckets (lv i)) (seq 0 kNumLevels))).
Proof.
  intros Hi. apply Forall_concat, Forall_map, Forall_forall. intros j Hj%elem_of_seq.
  destruct (li_wf _ _ Hi j) as [_ Hc Hs Hn]; [lia|]. unfold levelBuckets.
  destruct (next_wf_cases (NDEBUG := NDEBUG) _ Hn) as [[u ->]|(-> & Ho & _)];
    repeat constructor; done.
Qed.

(** Steps 1 and 2: a sorted bucket of the whole ledger. *)
Lemma super_of_list n lv : list_inv n lv -> exists b bs bl' su,
  collectBuckets NDEBUG (tabulate lv) () = Ret (b :: bs, bl') () /\
  superLoop NDEBUG b bs () = Ret su () /\ bucket_sorted su /\
  forall k, liveOf (look su k) = visible (tabulate lv) k.
Proof.
  intros Hi. destruct (collectBuckets_run (tabulate lv)) as [bl' Ec].
  { apply Forall_map, Forall_forall. intros j Hj%elem_of_seq. apply (li_wf _ _ Hi). lia. }
  pose proof (levels_sorted n lv Hi) as Hs. pose proof (fun k => lookAll_levels n lv k 11 Hi) as Hl.
  unfold tabulate in Ec. rewrite map_map in Ec.
  destruct (concat (map (fun i => levelBuckets (lv i)) (seq 0 kNumLevels))) as [|b bs] eqn:El.
  { exfalso. revert El. unfold kNumLevels. cbn [seq map concat]. unfold levelBuckets at 1.
    by case_match. }
  apply Forall_cons in Hs as [Hb Hbs].
  destruct (superLoop_run b bs Hb Hbs) as (su & E & Hsu & Hlook).
  exists b, bs, bl', su. split_and!; try done. intros k. rewrite Hlook.
  change (visible (tabulate lv) k) with (liveOf (lookBelow lv k 11)). f_equal.
  rewrite <- Hl by (unfold kNumLevels; lia). by rewrite <- El.
Qed.

(** ** The scan *)

(** The rows of the type [t] a bucket stands for. *)
Fixpoint rowsOf (t : LedgerEntryType) (l : list BucketEntry) : list (LedgerId * LedgerEntry) :=
  match l with
  | [] => []
  | LIVEENTRY x :: l' =>
      if decide (key_type (data x) = t) then (rowOf (data x), x) :: rowsOf t l' else rowsOf t l'
  | DEADENTRY _ :: l' => rowsOf t l'
  end.

(** The live entry is in the database as it is. *)
Definition inDb (db : gmap LedgerId LedgerEntry) (e : BucketEntry) : Prop :=
  match e with LIVEENTRY x => db !! rowOf (data x) = Some x | DEADENTRY _ => True end.

Lemma checkAgainstDatabase_ok (e : LedgerEntry) (db : gmap LedgerId LedgerEntry) r :
  checkAgainstDatabase e db () = Ret r () <-> db !! rowOf (data e) = Some e.
Proof.
  destruct r. unfold checkAgainstDatabase. rewrite (ret_bind _ _ () (data e)) by apply LedgerEntryKey_eq.
  destruct (db !! rowOf (data e)) as [e'|]; [|done]. case_bool_decide; naive_solver.
Qed.

(** The counter of a type after [n] more entries. *)
Definition countUp (c : option Z) (n : nat) : option Z :=
  match n with O => c | S _ => Some (u64 (default 0 c + Z.of_nat n)) end.

Lemma scanLoop_run (db : gmap LedgerId LedgerEntry) l cs : Forall (inDb db) l ->
  exists cs', scanLoop db cs l () = Ret cs' () /\
    forall t, cs' !! t = countUp (cs !! t) (length (rowsOf t l)).
Proof.
  intros Hl. revert cs. induction Hl as [|e l He Hl IH]; intros cs; [by exists cs|].
  destruct e as [e|k]; [|by apply IH]. cbn [scanLoop].
  set (cs1 := match cs !! key_type (data e) with None => _ | Some c => _ end).
  destruct (IH cs1) as (cs' & E & Ht). exists cs'. split.
  { rewrite unit_bind; [done|]. by apply checkAgainstDatabase_ok. }
  intros t. rewrite Ht. unfold cs1. cbn [rowsOf].
  destruct (decide (key_type (data e) = t)) as [<-|Hne]; simpl.
  - assert (E1 : (match cs !! key_type (data e) with
      | Some c => <[key_type (data e):=u64 (c + 1)]> cs
      | None => <[key_type (data e):=1]> cs end) !! key_type (data e)
      = Some (u64 (default 0 (cs !! key_type (data e)) + 1))).
    { destruct (cs !! key_type (data e)); by rewrite lookup_insert_eq. }
    rewrite E1. destruct (length (rowsOf _ l)); [done|]. simpl.
    unfold u64. rewrite Zplus_mod_idemp_l. do 2 f_equal. lia.
  - destruct (cs !! key_type (data e)); by rewrite lookup_insert_ne.
Qed.

Lemma scanLoop_inv (db : gmap LedgerId LedgerEntry) l cs cs' : scanLoop db cs l () = Ret cs' () ->
  Forall (inDb db) l.
Proof.
  revert cs. induction l as [|[e|k] l IH]; intros cs; [by constructor| |].
  - cbn [scanLoop]. intros ([] & [] & Ec & Er)%bind_inv. constructor; [|by eapply IH].
    by apply checkAgainstDatabase_ok in Ec.
  - intros E. constructor; [done|by eapply IH].
Qed.

(** ** The counts *)

Lemma countLoop_ok (db : gmap LedgerId LedgerEntry) l r : countLoop db l () = Ret r () <->
  Forall (fun p => getHelper p.1 = true /\ countObjects p.1 db = p.2) l.
Proof.
  destruct r. induction l as [|[t c] l IH]; [by split; [constructor|]|].
  rewrite Forall_cons, <- IH. cbn [countLoop fst snd]. unfold countObjectsEntry.
  destruct (getHelper t); [|split; [done|by intros [[? _] _]]].
  rewrite (ret_bind _ _ () (countObjects t db)) by done. simpl.
  destruct (Z.eqb_spec (countObjects t db) c); naive_solver.
Qed.

Lemma rowsOf_elem t l r e : (r, e) ∈ rowsOf t l <->
  LIVEENTRY e ∈ l /\ rowOf (data e) = r /\ key_type (data e) = t.
Proof.
  induction l as [|[x|d] l IH]; cbn [rowsOf].
  - rewrite !elem_of_nil. tauto.
  - destruct (decide (key_type (data x) = t)) as [Et|Et]; rewrite ?elem_of_cons, IH; [naive_solver|].
    split; [naive_solver|]. intros ([[= ->]|?] & <- & E); [done|naive_solver].
  - rewrite elem_of_cons, IH. naive_solver.
Qed.

Lemma rowsOf_NoDup t l : bucket_sorted l -> NoDup (rowsOf t l).
Proof.
  induction 1 as [|[x|d] l Hl IH Hx]; cbn [rowsOf]; [constructor| |done].
  case_decide; [|done]. constructor; [|done]. intros (Hin & _ & _)%rowsOf_elem.
  rewrite Forall_forall in Hx. apply Hx in Hin. by apply std_lt_irrefl in Hin.
Qed.

(** The rows of a type in the database. *)
Definition dbRows (t : LedgerEntryType) (db : gmap LedgerId LedgerEntry) : list (LedgerId * LedgerEntry) :=
  filter (fun p => p.1.1 = t) (map_to_list db).

Lemma dbRows_elem (t : LedgerEntryType) (db : gmap LedgerId LedgerEntry) k e :
  (k, e) ∈ dbRows t db <-> db !! k = Some e /\ k.1 = t.
Proof. unfold dbRows. rewrite list_elem_of_filter, elem_of_map_to_list. simpl. tauto. Qed.

Lemma dbRows_NoDup (t : LedgerEntryType) (db : gmap LedgerId LedgerEntry) : NoDup (dbRows t db).
Proof. apply NoDup_filter, NoDup_map_to_list. Qed.

(** A database whose rows have the columns of their keys. *)
Definition rowsInPlace (db : gmap LedgerId LedgerEntry) : Prop := forall r e, db !! r = Some e -> rowOf (data e) = r.

(** The rows of a type are the live entries of the bucket. *)
Definition sameRows (t : LedgerEntryType) (db : gmap LedgerId LedgerEntry) (l : list BucketEntry) : Prop :=
  forall e, key_type (data e) = t -> db !! rowOf (data e) = Some e <-> LIVEENTRY e ∈ l.

(** Rows that are all there are all the rows exactly when there are as many. *)
Lemma rows_count (t : LedgerEntryType) (l : list BucketEntry) (db : gmap LedgerId LedgerEntry) : bucket_sorted l -> Forall (inDb db) l ->
  rowsInPlace db ->
  (length (rowsOf t l) <= length (dbRows t db))%nat /\
  (length (dbRows t db) = length (rowsOf t l) <-> sameRows t db l).
Proof.
  intros Hs Hin Hdb. rewrite Forall_forall in Hin.
  assert (Hsub : rowsOf t l ⊆+ dbRows t db).
  { apply NoDup_submseteq; [by apply rowsOf_NoDup|]. intros [r e] (He & <- & Ht)%rowsOf_elem.
    apply dbRows_elem. split; [by apply (Hin (LIVEENTRY e))|by rewrite rowOf_type]. }
  split; [by apply submseteq_length|]. split.
  - intros Hlen e Ht. assert (Hp : rowsOf t l ≡ₚ dbRows t db).
    { apply submseteq_length_Permutation; [done|lia]. }
    split; [|intros He; by apply (Hin (LIVEENTRY e))]. intros He.
    assert (Hr : (rowOf (data e), e) ∈ dbRows t db) by (apply dbRows_elem; by rewrite rowOf_type).
    rewrite <- Hp in Hr. by apply rowsOf_elem in Hr as (? & _).
  - intros Hsame. symmetry. apply Permutation_length, NoDup_Permutation;
      [by apply rowsOf_NoDup|apply dbRows_NoDup|].
    intros [r e]. rewrite dbRows_elem, rowsOf_elem. split.
    + intros (He & <- & Ht). split; [by apply Hsame|by rewrite rowOf_type].
    + intros [Hd Ht]. pose proof (Hdb _ _ Hd) as <-. rewrite rowOf_type in Ht. split_and!; [by apply Hsame|done|done].
Qed.

(** The type has an entry in the ledger of the list. *)
Definition typePresent (bl : list BucketLevel) (t : LedgerEntryType) : Prop :=
  exists k e, k.1 = t /\ visible bl k = Some e.

Lemma countUp_len (m : nat) : m <> 0%nat -> Z.of_nat m <= UINT64_MAX ->
  countUp None m = Some (Z.of_nat m).
Proof. intros Hm Hu. destruct m; [done|]. unfold countUp. simpl default. by rewrite u64_id by lia. Qed.

Lemma dbRows_size (t : LedgerEntryType) (db : gmap LedgerId LedgerEntry) :
  (length (dbRows t db) <= size db)%nat.
Proof.
  unfold dbRows. rewrite <- length_map_to_list. apply length_filter.
Qed.

Lemma rowsOf_nonempty t l e : LIVEENTRY e ∈ l -> key_type (data e) = t -> rowsOf t l <> [].
Proof.
  intros He Ht Hn. assert (Hin : (rowOf (data e), e) ∈ rowsOf t l) by by apply rowsOf_elem.
  rewrite Hn in Hin. by apply elem_of_nil in Hin.
Qed.

(** What the check of a type decides: the live entries of the type are in their rows, and the table that is counted
    has as many. *)
Definition typeChecked (t : LedgerEntryType) (db : gmap LedgerId LedgerEntry) (l : list BucketEntry) : Prop :=
  (forall e, LIVEENTRY e ∈ l -> key_type (data e) = t -> db !! rowOf (data e) = Some e) /\
  length (dbRows (countedTable t) db) = length (rowsOf t l).

(** Steps 3 and 4 on a sorted bucket. *)
Lemma scan_and_count (su : list BucketEntry) (db : gmap LedgerId LedgerEntry) : bucket_sorted su ->
  rowsInPlace db -> Z.of_nat (size db) <= UINT64_MAX ->
  (exists cs, scanLoop db ∅ su () = Ret cs () /\ countLoop db (map_asc cs) () = Ret () ()) <->
  (forall t, rowsOf t su <> [] -> getHelper t = true /\ typeChecked t db su).
Proof.
  intros Hs Hdb Hsz.
  assert (Hlen : forall t, Forall (inDb db) su -> rowsOf t su <> [] ->
    countUp None (length (rowsOf t su)) = Some (Z.of_nat (length (rowsOf t su)))).
  { intros t Hin Hne. destruct (rows_count t su db Hs Hin Hdb) as [Hle _].
    pose proof (dbRows_size t db). apply countUp_len; [by destruct (rowsOf t su)|lia]. }
  split.
  - intros (cs & Ecs & Hc). pose proof (scanLoop_inv _ _ _ _ Ecs) as Hin.
    destruct (scanLoop_run db su ∅ Hin) as (cs' & Ecs' & Hcs). rewrite Ecs in Ecs'. injection Ecs' as <-.
    rewrite countLoop_ok, Forall_forall in Hc. intros t Hne. specialize (Hcs t).
    rewrite lookup_empty, Hlen in Hcs by done. apply elem_of_map_asc, Hc in Hcs as [Hg Hn].
    split; [done|]. split; [|by apply Nat2Z.inj in Hn].
    rewrite Forall_forall in Hin. intros e He _. by apply (Hin (LIVEENTRY e)).
  - intros Hall. assert (Hin : Forall (inDb db) su).
    { apply Forall_forall. intros [e|d] He; [|done]. simpl.
      destruct (Hall (key_type (data e))) as [_ [Hrow _]]; [by eapply rowsOf_nonempty|]. by apply Hrow. }
    destruct (scanLoop_run db su ∅ Hin) as (cs & Ecs & Hcs). exists cs. split; [done|].
    apply countLoop_ok, Forall_forall. intros [t c] Ht%elem_of_map_asc. simpl.
    rewrite Hcs, lookup_empty in Ht.
    destruct (decide (rowsOf t su = [])) as [E|Hne]; [by rewrite E in Ht|].
    rewrite Hlen in Ht by done. injection Ht as <-. destruct (Hall t Hne) as [Hg [_ Hn]].
    split; [done|]. unfold countObjects. by rewrite <- Hn.
Qed.

(** For a type whose own table is counted: the rows are the entries. *)
Lemma typeChecked_same t db su : bucket_sorted su -> rowsInPlace db -> countedTable t = t ->
  typeChecked t db su <-> sameRows t db su.
Proof.
  intros Hs Hdb Ht. unfold typeChecked. rewrite Ht. set (su' := filter (fun e => key_type (bucketKey e) = t) su).
  assert (Hs' : bucket_sorted su').
  { subst su'. clear -Hs. induction Hs as [|e l Hl IH He]; [constructor|]. rewrite filter_cons. case_decide; [|done].
    constructor; [done|]. rewrite Forall_forall in He |- *. intros x [_ Hx]%list_elem_of_filter. by apply He. }
  assert (Er : rowsOf t su' = rowsOf t su).
  { subst su'. clear. induction su as [|[x|k] su IH]; [done| |]; rewrite filter_cons; case_decide as E; simpl in *;
      rewrite ?IH; by rewrite ?decide_True, ?decide_False by done. }
  assert (Hl : forall e, key_type (data e) = t -> LIVEENTRY e ∈ su' <-> LIVEENTRY e ∈ su).
  { intros e He. unfold su'. rewrite list_elem_of_filter. simpl. tauto. }
  assert (Hin : (forall e, LIVEENTRY e ∈ su -> key_type (data e) = t -> db !! rowOf (data e) = Some e) -> Forall (inDb db) su').
  { intros Hr. apply Forall_forall. intros [e|k] [He Hx]%list_elem_of_filter; [by apply Hr|done]. }
  rewrite <- Er. split.
  - intros [Hr Hn] e He. destruct (rows_count t su' db Hs' (Hin Hr) Hdb) as [_ Hc]. rewrite <- Hl by done. by apply Hc.
  - intros Hsame. assert (Hr : forall e, LIVEENTRY e ∈ su -> key_type (data e) = t -> db !! rowOf (data e) = Some e).
    { intros e He Hk. by apply Hsame. }
    split; [done|]. apply (rows_count t su' db Hs' (Hin Hr) Hdb). intros e He. rewrite Hl by done. by apply Hsame.
Qed.

(** The entries of a type in the ledger of a list. *)
Definition entriesOf (bl : list BucketLevel) (t : LedgerEntryType) (es : list LedgerEntry) : Prop :=
  NoDup es /\ forall e, e ∈ es <-> key_type (data e) = t /\ exists i, visible bl i = Some e.

Lemma live_visible su bl : bucket_sorted su -> (forall k, liveOf (look su k) = visible bl k) ->
  forall e, LIVEENTRY e ∈ su <-> exists i, visible bl i = Some e.
Proof.
  intros Hs Hv e. setoid_rewrite <- Hv. split.
  - intros He. exists (bid (LIVEENTRY e)). by rewrite (look_sorted_elem _ _ Hs He).
  - intros [i Hi]. destruct (look su i) as [[x|]|] eqn:El; try done. injection Hi as ->. by eapply look_elem.
Qed.

Lemma rowsOf_entries t su bl : bucket_sorted su -> (forall k, liveOf (look su k) = visible bl k) ->
  entriesOf bl t (rowsOf t su).*2.
Proof.
  intros Hs Hv. split.
  - apply NoDup_fmap_2_strong; [|by apply rowsOf_NoDup].
    intros [r e] [r' e'] (_ & <- & _)%rowsOf_elem (_ & <- & _)%rowsOf_elem. simpl. by intros ->.
  - intros e. rewrite <- (live_visible su bl Hs Hv), list_elem_of_fmap. split.
    + intros ([r x] & -> & (He & _ & Ht)%rowsOf_elem). done.
    + intros [Ht He]. exists (rowOf (data e), e). split; [done|]. by apply rowsOf_elem.
Qed.

Lemma checked_limits su bl db : bucket_sorted su -> (forall k, liveOf (look su k) = visible bl k) ->
  typeChecked ACCOUNT_LIMITS db su <->
  exists es, entriesOf bl ACCOUNT_LIMITS es /\ Forall (fun e => db !! rowOf (data e) = Some e) es /\
    length (dbRows ACCOUNT_TYPE_LIMITS db) = length es.
Proof.
  intros Hs Hv. pose proof (rowsOf_entries ACCOUNT_LIMITS su bl Hs Hv) as Hent. unfold typeChecked. simpl. split.
  - intros [Hr Hn]. exists (rowsOf ACCOUNT_LIMITS su).*2. split_and!; [done| |by rewrite length_fmap].
    apply Forall_forall. intros e ([r x] & -> & (He & _ & Ht)%rowsOf_elem)%list_elem_of_fmap. by apply Hr.
  - intros (es & [Hnd Hes] & Hr & Hn). rewrite Forall_forall in Hr. split.
    + intros e He Ht. apply Hr, Hes. split; [done|]. by apply (live_visible su bl Hs Hv).
    + rewrite Hn, <- (length_fmap snd). apply Permutation_length, NoDup_Permutation; [done|apply Hent|].
      intros e. rewrite Hes. symmetry. apply Hent.
Qed.

(** C34. What [checkDBAgainstBuckets] decides.  For a list of buckets that stands for a ledger, and entries whose
    types have a legacy helper, the check returns exactly when, for every type of which the ledger has an
    entry, the rows of its table are the entries of that type of the ledger, no more and no less; for account limits,
    whose helper counts another table, when every entry is in its row and there are as many rows of account type limits
    as there are entries.  Of a type the ledger has no entry of, nothing is checked: rows of it may be left in the
    database. *)
Theorem check_db_decides (n : Z) (lv : nat -> BucketLevel) (db : gmap LedgerId LedgerEntry) :
  list_inv n lv -> rowsInPlace db -> Z.of_nat (size db) <= UINT64_MAX ->
  (forall t, typePresent (tabulate lv) t -> getHelper t = true) ->
  (exists r, checkDBAgainstBuckets NDEBUG db (tabulate lv) () = Ret r ()) <->
  (forall t, typePresent (tabulate lv) t ->
    if decide (t = ACCOUNT_LIMITS)
    then exists es, entriesOf (tabulate lv) t es /\ Forall (fun e => db !! rowOf (data e) = Some e) es /\
      length (dbRows ACCOUNT_TYPE_LIMITS db) = length es
    else forall e, key_type (data e) = t -> db !! rowOf (data e) = Some e <-> exists i, visible (tabulate lv) i = Some e).
Proof.
  intros Hi Hdb Hsz Hleg. destruct (super_of_list n lv Hi) as (b & bs & bl' & su & Ec & Es & Hs & Hv).
  pose proof (live_visible su _ Hs Hv) as Hlive.
  assert (Hrows : forall t, rowsOf t su <> [] <-> typePresent (tabulate lv) t).
  { intros t. unfold typePresent. split.
    - destruct (rowsOf t su) as [|[r e] l] eqn:E; [done|]. intros _.
      assert (Hin : (r, e) ∈ rowsOf t su) by (rewrite E; left).
      apply rowsOf_elem in Hin as (He & _ & Ht). exists (bid (LIVEENTRY e)), e. split; [done|].
      by rewrite <- Hv, (look_sorted_elem _ _ Hs He).
    - intros (k & e & Hk & Hl). rewrite <- Hv in Hl. destruct (look su k) as [[x|]|] eqn:El; try done.
      injection Hl as ->. apply (rowsOf_nonempty t su e); [by eapply look_elem|]. apply look_bid in El. by rewrite <- Hk, <- El. }
  assert (Hcase : forall t, typeChecked t db su <->
    if decide (t = ACCOUNT_LIMITS)
    then exists es, entriesOf (tabulate lv) t es /\ Forall (fun e => db !! rowOf (data e) = Some e) es /\
      length (dbRows ACCOUNT_TYPE_LIMITS db) = length es
    else forall e, key_type (data e) = t -> db !! rowOf (data e) = Some e <-> exists i, visible (tabulate lv) i = Some e).
  { intros t. case_decide as Et; [subst t; by apply checked_limits|].
    rewrite typeChecked_same by (done || by destruct t). unfold sameRows. by setoid_rewrite Hlive. }
  unfold checkDBAgainstBuckets. rewrite (ret_bind _ _ () _ Ec). cbn [fst snd].
  rewrite (ret_bind _ _ () _ Es). pose proof (scan_and_count su db Hs Hdb Hsz) as Hsc. split.
  - intros (r & ([] & [] & Ecs & ([] & [] & Ect & _)%bind_inv)%bind_inv) t Ht.
    apply Hcase, (proj1 Hsc); [eauto|by apply Hrows].
  - intros Hall. destruct (proj2 Hsc) as (cs & Ecs & Ect).
    { intros t Ht%Hrows. split; [by apply Hleg|]. by apply Hcase, Hall. }
    exists bl'. rewrite (ret_bind _ _ () _ Ecs). by rewrite unit_bind.
Qed.

End check.
