(* ===== verification/LedgerScenarios.v ===== *)
(** * Scenarios on ledgers and buckets

    Concrete runs, on concrete stand-ins for the functions outside the tree: the
    witnesses that the theorems apply, and the runs that show where the code does
    not do what it means to. *)

From Stdlib Require Import ZArith Lia String.
From stdpp Require Import base tactics gmap option list.
From S2P Require Import Prelude ScpTypes LedgerTypes LedgerOrder LedgerDelta LedgerDeltaFacts LedgerDeltaTheorems.
From S2P Require Import Bucket BucketFacts FutureBucket BucketList BucketListFacts.
From S2P Require Import BucketListTheorems BucketApply BucketApplyTheorems BucketCheckTheorems BucketManager HistoryState BucketManagerTheorems RestartTheorems.

Open Scope Z_scope.

(** ** Stand-ins *)

Definition hexDigit (d : N) : N := if (d <? 10)%N then (48 + d)%N else (87 + d)%N.

Lemma hexDigit_inj d d' : hexDigit d = hexDigit d' -> d = d'.
Proof. unfold hexDigit. destruct (N.ltb_spec d 10), (N.ltb_spec d' 10); lia. Qed.

(** Two digits per byte. *)
Fixpoint exHex (l : list N) : list N :=
  match l with
  | [] => []
  | x :: l' => hexDigit (x / 16) :: hexDigit (x mod 16) :: exHex l'
  end.

#[local] Instance exHex_inj : Inj (=) (=) exHex.
Proof.
  intros l. induction l as [|x l IH]; intros [|y l']; simpl; try done.
  intros [= E1%hexDigit_inj E2%hexDigit_inj E3%IH]. f_equal; [|done].
  rewrite (N.div_mod x 16), (N.div_mod y 16) by done. congruence.
Qed.

#[local] Instance exExterns : LedgerExterns.
Proof.
  refine {| enum_value := fun t => Z.of_nat (type_index t); binToHex := exHex |}.
  intros a b E%Nat2Z.inj. by destruct a, b.
Defined.

(** All the fields of a key. *)
Definition keyFields (k : LedgerKey) : list Field :=
  match k with
  | KReference r s => [FB r; FZ (Z.of_N s)]
  | KTrust x a v => [FZ (Z.of_N x); FZ (Z.of_N a); FZ v]
  | KFee h l u => [FB h; FZ l; FZ u]
  | k => idFields k
  end.

Lemma keyFields_inj k k' : key_type k = key_type k' -> keyFields k = keyFields k' -> k = k'.
Proof.
  intros Et Ef. destruct k, k'; try discriminate Et; simpl in Ef; simplify_eq; done.
Qed.

Definition entryCode (e : BucketEntry) : bool * LedgerEntryType * list Field * Z * list N :=
  match e with
  | LIVEENTRY e =>
      (true, key_type (data e), keyFields (data e), lastModifiedLedgerSeq e, body e)
  | DEADENTRY k => (false, key_type k, keyFields k, 0, [])
  end.

Lemma entryCode_inj e e' : entryCode e = entryCode e' -> e = e'.
Proof.
  destruct e as [[]|], e' as [[]|]; simpl; intros E; simplify_eq; f_equal; try f_equal;
    by apply keyFields_inj.
Qed.

(** A hash without collisions: the number of the encoded bucket. *)
#[local] Instance exBucketExterns : BucketExterns.
Proof. by refine {| hexHash := fun b => [Npos (encode (map entryCode b))] |}. Defined.

#[local] Instance exHash_inj : Inj (=) (=) hexHash.
Proof.
  intros b b'. simpl. intros [= E%(inj encode)]. revert b' E.
  induction b as [|e b IH]; intros [|e' b']; simpl; try done.
  intros [= E1%entryCode_inj E2%IH]. by subst.
Qed.

(** ** Tombstones after a restart *)

Definition exKey : LedgerKey := KAccount 7.
Definition exEntry : LedgerEntry := mkEntry 1 exKey [1%N].

(** Account 7 is created in ledger 1 and removed in ledger 8. *)
Definition exBatches : list (list LedgerEntry * list LedgerKey) :=
  [([exEntry], [])] ++ replicate 6 ([], []) ++ [([], [exKey]); ([], []); ([], [])].

Definition bucketsIn (bl : list BucketLevel) : list Bucket :=
  concat (map (fun l => mCurr l :: mSnap l :: mInputShadowBuckets (mNextCurr l)
    ++ match mInputCurrBucket (mNextCurr l) with Some b => [b] | None => [] end
    ++ match mInputSnapBucket (mNextCurr l) with Some b => [b] | None => [] end) bl).

(** The bucket files of the node. *)
Definition filesOf (bl : list BucketLevel) (h : list N) : option Bucket :=
  head (filter (fun b => hexHash b = h) (bucketsIn bl)).

(** Ten ledgers, a restart, two more ledgers. *)
Definition restartRun (NDEBUG uninitialized : bool) : option (option LedgerEntry) :=
  match addBatches (NDEBUG := NDEBUG) 0 exBatches (newBucketList true) with
  | Ret _ bl =>
      match (has ← reloadState NDEBUG (fun _ => uninitialized) (archiveState bl);
             assumeState NDEBUG (filesOf bl) has;;
             addBatches (NDEBUG := NDEBUG) 10 [([], []); ([], [])]) (newBucketList uninitialized) with
      | Ret _ bl' => Some (visible bl' (idOf exKey))
      | Exn _ _ => None
      end
  | Exn _ _ => None
  end.

(** A restart can bring an entry back.  Account 7 is created in ledger 1 and removed
    in ledger 8; the node restarts after ledger 10, while the merge that carries
    the removal is pending.  When the [mKeepDeadEntries] of the reloaded future,
    which nothing initializes, is [false], the merge drops the removal, and two
    ledgers later the list of buckets has the account again; when it is [true], it
    has not.  No assertion notices. *)
Theorem restart_revives_entry NDEBUG :
  restartRun NDEBUG true = Some None /\ restartRun NDEBUG false = Some (Some exEntry).
Proof. destruct NDEBUG; split; vm_compute; reflexivity. Qed.

(** ** The theorems apply *)

Definition exHeader : LedgerHeader := mkHeader 9 [] [].
Definition exWorld : DW := mkDW ∅ exHeader [(exKey, None)].
Definition exEntry2 : LedgerEntry := mkEntry 2 exKey [2%N].
Definition exEntry3 : LedgerEntry := mkEntry 2 (KSale 5) [3%N].

(** Two nested scopes, one committed and one rolled back. *)
Definition exOps : list scope_op :=
  [OAdd exEntry; OBegin; OMod exEntry2; OHeader (fun h => (generateID SALE h).2); OCommit;
   OBegin; ODelete exKey; OAdd exEntry3; OAbort].

Definition exLedger : gmap LedgerId LedgerEntry := {[idOf exKey := exEntry2]}.
Definition exHeader2 : LedgerHeader := mkHeader 9 [(SALE, 1)] [].

Ltac legacy_ops := repeat constructor; intros i; simpl; intros [= <-]; reflexivity.

Lemma deltas_refine_ledgers_witness : exists n' w',
  impl_run false (OBegin :: exOps ++ [OCommit]) 0 exWorld = Ret n' w' /\
  refines w' n' [(exLedger, exHeader2)].
Proof.
  apply (deltas_refine_ledgers (NDEBUG := false) _ _ _ [(∅, exHeader)]).
  - reflexivity.
  - vm_compute. reflexivity.
  - legacy_ops.
Defined.

Lemma delta_readings_agree_witness : exists w' d,
  impl_run false (OBegin :: exOps) 0 exWorld = Ret 1%nat w' /\ deltas w' !! 0%nat = Some d /\
  applyBatch (getLiveEntries d) (getDeadEntries d) ∅ = exLedger /\
  replay (getChanges d) ∅ = exLedger /\ replay (getAllChanges d) ∅ = exLedger.
Proof.
  apply (delta_readings_agree (NDEBUG := false) exOps exWorld ∅ exHeader exLedger exHeader2).
  - reflexivity.
  - vm_compute. reflexivity.
  - legacy_ops.
Defined.

(** An open delta over the header [exHeader], with one entry modified. *)
Definition exDelta : Delta :=
  mkDelta None (Some RootHeader) exHeader exHeader ∅ {[idOf exKey := (exKey, exEntry2)]} ∅
    [UPDATED exEntry2] ∅ true.

Lemma commit_checks_header_witness :
  let w := mkDW {[0%nat := exDelta]} exHeader2 [] in
  commit false 0 w = Exn (RuntimeError "unexpected header state"%string) w.
Proof.
  intros w. apply (commit_checks_header (NDEBUG := false) 0 w exDelta RootHeader exHeader2).
  - reflexivity.
  - reflexivity.
  - reflexivity.
  - discriminate.
Defined.

Lemma rollback_flushes_cache_witness :
  let w := mkDW {[0%nat := exDelta]} exHeader [(exKey, Some exEntry2)] in
  exists w', rollback 0 w = Ret () w' /\ rootHeader w' = rootHeader w /\
    deltas w' = <[0%nat := set_mHeader None exDelta]> (deltas w) /\
    forall p, p ∈ entryCache w' <-> p ∈ entryCache w /\ p.1 ∉ touchedKeys exDelta.
Proof.
  intros w. apply (rollback_flushes_cache 0 w exDelta).
  - reflexivity.
  - discriminate.
  - vm_compute. repeat constructor.
Defined.

Lemma closed_delta_rejects_witness :
  let w := mkDW {[0%nat := set_mHeader None exDelta]} exHeader [] in
  let rejected (m : M DW ()) :=
    m w = Exn (RuntimeError "Invalid operation: delta is already committed"%string) w in
  rejected (addEntry false 0 exEntry) /\ rejected (modEntry false 0 exEntry) /\
  rejected (deleteEntry 0 exKey) /\ rejected (recordEntry 0 exEntry) /\
  rejected (commit false 0) /\ rejected (rollback 0).
Proof.
  intros w. apply (closed_delta_rejects (NDEBUG := false) 0 w (set_mHeader None exDelta)).
  - reflexivity.
  - reflexivity.
Defined.

(** Two keys in order, and buckets of them. *)
Definition exLive : BucketEntry := LIVEENTRY exEntry.
Definition exDead : BucketEntry := DEADENTRY exKey.
Definition exLive3 : BucketEntry := LIVEENTRY exEntry3.

Lemma exKey_lt : entry_lt exLive exLive3.
Proof. apply EntryCmp_lt. reflexivity. Qed.

Lemma exSorted1 e : bucket_sorted [e].
Proof. repeat constructor. Qed.

Lemma exSorted2 : bucket_sorted [exLive; exLive3].
Proof. repeat constructor. apply exKey_lt. Qed.

Lemma merge_semantics_witness : exists b,
  merge false [exLive; exLive3] [exDead] [[exLive3]] false () = Ret b () /\ bucket_sorted b /\
  forall k, look b k =
    if bool_decide (lookAll [[exLive3]] k = None) then
      match orElse (look [exDead] k) (look [exLive; exLive3] k) with
      | Some e => if false || negb (isDead e) then Some e else None
      | None => None
      end
    else None.
Proof.
  apply (merge_semantics (NDEBUG := false)).
  - apply exSorted2.
  - apply exSorted1.
  - repeat constructor.
Defined.

Lemma fresh_semantics_witness : exists F,
  (forall W (w : W), fresh false [exEntry3; exEntry] [exKey] w = Ret F w) /\ bucket_sorted F /\
  forall k, applyBatch [exEntry3; exEntry] [exKey] exLedger !! k =
    match look F k with Some e => liveOf (Some e) | None => exLedger !! k end.
Proof.
  apply (fresh_semantics (NDEBUG := false)). apply (bool_decide_unpack _). vm_compute. exact I.
Defined.

Lemma spill_schedule_witness :
  (levelShouldSpill 32 2 = true <-> (2 < kNumLevels - 1)%nat /\ (2 * 4 ^ Z.of_nat 2 | 32)) /\
  (levelShouldSpill 32 2 = true -> forall i, (i <= 2)%nat -> levelShouldSpill 32 i = true).
Proof. apply (spill_schedule 32 2); [unfold UINT32_MAX|unfold kNumLevels]; lia. Defined.

Lemma bucket_list_refines_ledger_witness : exists bl,
  addBatches (NDEBUG := false) 0 exBatches (newBucketList true) = Ret () bl /\
  forall k, visible bl k = ledgerAfter exBatches ∅ !! k.
Proof.
  apply (bucket_list_refines_ledger (NDEBUG := false)).
  - vm_compute. discriminate.
  - repeat (constructor; [apply (bool_decide_unpack _); vm_compute; exact I|]). constructor.
Defined.

Lemma future_lifecycle_witness :
  let f := running [exLive] [exDead] [] true true in
  future_wf f /\ checkFutureState false f () = Ret () () /\
  (isLive f = true -> exists b f', resolve false f () = Ret (b, f') () /\ bucket_sorted b /\
    mOutputBucket f = Some b).
Proof.
  intros f. apply (future_lifecycle (NDEBUG := false) true f).
  apply rtc_l with (running [exLive] [exDead] [] true false).
  - apply (fs_start (NDEBUG := false) _ [exLive] [exDead] [] true);
      [apply exSorted1|apply exSorted1|constructor|reflexivity].
  - apply rtc_once. exact (fs_worker (NDEBUG := false) (running [exLive] [exDead] [] true false) eq_refl).
Defined.

Lemma restart_of_merge_witness : exists s f,
  save false (running [exLive] [exDead] [] true true) () = Ret s () /\
  (g ← load false s (emptyFuture false);
   makeLive false (filesOf (tabulate (fun i => mkLevel i (emptyFuture true) [exLive] [exDead]))) g) ()
    = Ret f () /\
  f = running [exLive] [exDead] [] false false /\
  (f = running [exLive] [exDead] [] true false <-> false = true).
Proof.
  apply (restart_of_merge (NDEBUG := false)).
  - apply exSorted1.
  - apply exSorted1.
  - constructor.
  - vm_compute. reflexivity.
  - vm_compute. reflexivity.
  - constructor.
Defined.

(** Every frame is valid. *)
Definition anyValid (e : LedgerEntry) : bool := true.

Definition exRole : BucketEntry := LIVEENTRY (mkEntry 1 (KAccountRole 3) []).

Lemma apply_role_null_helper_witness : applyBucket anyValid ([exLive] ++ exRole :: []) ∅ = Exn NullDeref ∅.
Proof.
  apply apply_role_null_helper.
  - repeat split; done.
  - discriminate.
  - simpl. lia.
Defined.

Definition exBucketList : list BucketLevel := [mkLevel 0 (emptyFuture true) [exLive3] [exLive]].


(** *** Rows that are not the ledger *)

(** The same reference of two senders: one entry of the ledger, two rows of the table. *)
Definition reference1 : LedgerEntry := mkEntry 1 (KReference [1%N] 1) [].
Definition reference2 : LedgerEntry := mkEntry 2 (KReference [1%N] 2) [].
Definition exReferences : list BucketLevel :=
  [mkLevel 0 (emptyFuture true) [LIVEENTRY reference2] [LIVEENTRY reference1]].

Theorem references_of_senders_both_stay :
  visible exReferences (idOf (data reference1)) = Some reference2 /\
  exists s, applyLevels anyValid (worklist exReferences) (mkApplyState false ∅) = Ret () s /\
    apDb s !! rowOf (data reference1) = Some reference1 /\ apDb s !! rowOf (data reference2) = Some reference2.
Proof. split; [by vm_compute|]. eexists. split; [vm_compute; reflexivity|]. by vm_compute. Qed.

(** Limits of an account type that have changed: an older bucket has the old ones, a newer one the new ones, and catching
    up inserts the row twice. *)
Definition typeLimits (n : Z) : LedgerEntry := mkEntry n (KAccountTypeLimits 5) [Z.to_N n].
Definition exLimitsChanged : list BucketLevel :=
  [mkLevel 0 (emptyFuture true) [LIVEENTRY (typeLimits 2)] [LIVEENTRY (typeLimits 1)]].

Theorem changed_limits_stop_catchup :
  exists s, applyLevels anyValid (worklist exLimitsChanged) (mkApplyState false ∅) = Exn uniqueViolation s.
Proof. eexists. vm_compute. reflexivity. Qed.

Lemma close_ledger_in_step_witness : exists w' d bl',
  impl_run false (OBegin :: exOps) 0 exWorld = Ret 1%nat w' /\ deltas w' !! 0%nat = Some d /\
  closeLedgerBatch (NDEBUG := false) (0 + 1) d (newBucketList true) = Ret () bl' /\
  represents (0 + 1) bl' exLedger.
Proof.
  apply (close_ledger_in_step (NDEBUG := false) exOps exWorld ∅ exHeader exLedger exHeader2).
  - reflexivity.
  - vm_compute. reflexivity.
  - legacy_ops.
  - lia.
  - unfold UINT32_MAX. lia.
  - apply newBucketList_represents.
Defined.

(** The list after one ledger that creates account 7. *)
Definition exLevels : nat -> BucketLevel :=
  newLevel (0 + 1) [exLive] (fun i => mkLevel i (emptyFuture true) [] []).

Lemma exLevels_inv : list_inv (0 + 1) exLevels.
Proof.
  apply (new_inv (NDEBUG := false)); [lia|unfold UINT32_MAX; lia|apply list_inv_init|apply exSorted1].
Qed.

Lemma exLevels_types t : typePresent (tabulate exLevels) t -> t = ACCOUNT.
Proof.
  intros (k & e & <- & Hv). unfold exLevels in Hv.
  rewrite (new_visible (NDEBUG := false)) in Hv;
    [|lia|unfold UINT32_MAX; lia|apply list_inv_init|apply exSorted1].
  simpl in Hv. case_decide as E; [by subst k|done].
Qed.

Lemma check_db_decides_witness :
  (exists r, checkDBAgainstBuckets false exLedger (tabulate exLevels) () = Ret r ()) <->
  (forall t, typePresent (tabulate exLevels) t ->
    if decide (t = ACCOUNT_LIMITS)
    then exists es, entriesOf (tabulate exLevels) t es /\ Forall (fun e => exLedger !! rowOf (data e) = Some e) es /\
      length (dbRows ACCOUNT_TYPE_LIMITS exLedger) = length es
    else forall e, key_type (data e) = t ->
      exLedger !! rowOf (data e) = Some e <-> exists i, visible (tabulate exLevels) i = Some e).
Proof.
  apply (check_db_decides (NDEBUG := false) (0 + 1)).
  - apply exLevels_inv.
  - intros r e He. unfold exLedger in He. apply lookup_singleton_Some in He as [<- <-]. reflexivity.
  - vm_compute. discriminate.
  - intros t Ht. rewrite (exLevels_types t Ht). reflexivity.
Defined.

Lemma references_of_senders_collide_witness :
  KReference [1%N] 1 <> KReference [1%N] 2 /\
  LedgerEntryIdCmp (KReference [1%N] 1) (KReference [1%N] 2) = false /\
  LedgerEntryIdCmp (KReference [1%N] 2) (KReference [1%N] 1) = false /\
  forall a b, LedgerEntryIdCmp a b = false -> LedgerEntryIdCmp b a = false ->
    a <> b -> key_type a = REFERENCE_ENTRY \/ key_type a = TRUST.
Proof. apply references_of_senders_collide. discriminate. Defined.

(** ** A restart while a merge runs *)

(** The list after a second ledger, which changes nothing: level 0 has spilled, the
    merge of level 1 runs. *)
Definition exLevels2 : nat -> BucketLevel := newLevel (0 + 1 + 1) [] exLevels.

Definition exLedger1 : gmap LedgerId LedgerEntry := {[idOf exKey := exEntry]}.

Lemma exLevels2_represents : represents (0 + 1 + 1) (tabulate exLevels2) exLedger1.
Proof.
  exists exLevels2. split; [done|]. split.
  - apply (new_inv (NDEBUG := false)); [lia|unfold UINT32_MAX; lia|apply exLevels_inv|constructor].
  - intros k. unfold exLevels2.
    rewrite (new_visible (NDEBUG := false));
      [|lia|unfold UINT32_MAX; lia|apply exLevels_inv|constructor].
    unfold exLevels. rewrite (new_visible (NDEBUG := false));
      [|lia|unfold UINT32_MAX; lia|apply list_inv_init|apply exSorted1].
    simpl. unfold exLedger1. case_decide as E.
    + subst k. by rewrite lookup_singleton_eq.
    + by rewrite lookup_singleton_ne.
Qed.

Definition exManager : BucketManager :=
  mkManager {[hexHash [exLive] := mkShared [exLive] false]} {[hexHash [exLive] := [exLive]]}.

Lemma exManager_ok : manager_ok exManager.
Proof.
  split; simpl mFiles; simpl mSharedBuckets.
  - intros h s. rewrite lookup_singleton_Some. intros [<- <-]. apply lookup_singleton_eq.
  - intros h b. rewrite lookup_singleton_Some. by intros [<- <-].
  - apply lookup_singleton_ne. intros E. by apply (exHash_inj [exLive] []) in E.
Qed.

Lemma restart_keeps_ledger_witness : exists has m' bl',
  storedState false false (tabulate exLevels2) () = Ret has () /\
  forgetUnreferencedBuckets (tabulate exLevels2) [] (fun _ => 1) exManager = Ret () m' /\ manager_ok m' /\
  loadLastKnown false (fun _ => true) m' [] has (newBucketList false) = Ret true bl' /\
  map mCurr bl' = map mCurr (tabulate exLevels2) /\ map mSnap bl' = map mSnap (tabulate exLevels2) /\
  represents (0 + 1 + 1) bl' exLedger1.
Proof.
  apply (restart_keeps_ledger (NDEBUG := false)).
  - apply exLevels2_represents.
  - apply exManager_ok.
  - unfold known. apply (bool_decide_unpack _). vm_compute. exact I.
  - apply (bool_decide_unpack _). vm_compute. exact I.
  - assert (Hf : Forall (fun l => isMerging (settled false (mNextCurr l)) = true ->
      mKeepDeadEntries (mNextCurr l) = true) (tabulate exLevels2))
      by (apply (bool_decide_unpack _); vm_compute; exact I).
    intros i l Hl Hm. symmetry. exact (proj1 (Forall_lookup _ _) Hf i l Hl Hm).
Defined.

Lemma archive_futures (lv : nat -> BucketLevel) : (forall i, (i < kNumLevels)%nat -> level_wf i (lv i)) ->
  Forall (fun b => future_wf (hsNext b)) (archiveState (tabulate lv)).
Proof.
  intros Hw. apply Forall_map, Forall_map, Forall_forall. intros i [_ Hi]%elem_of_seq. by apply Hw.
Qed.

Lemma exLevels2_wf i : (i < kNumLevels)%nat -> level_wf i (exLevels2 i).
Proof.
  apply (li_wf (0 + 1 + 1)). apply (new_inv (NDEBUG := false));
    [lia|unfold UINT32_MAX; lia|apply exLevels_inv|constructor].
Qed.

Lemma differing_buckets_exact_witness :
  let this := archiveState (tabulate exLevels) in
  let other := archiveState (tabulate exLevels2) in
  exists r, differingBuckets false this other () = Ret r () /\ NoDup r /\
    r `sublist_of` concat (map ownHashes (reverse this)) /\
    forall h, h ∈ r <-> h ∈ concat (map ownHashes this) /\ h <> hexHash [] /\
      h ∉ concat (map otherHashes other).
Proof.
  intros this other. apply (differing_buckets_exact (NDEBUG := false) this other).
  - reflexivity.
  - vm_compute. reflexivity.
  - apply archive_futures, exLevels_inv.
  - apply archive_futures, exLevels2_wf.
Defined.
