(* ===== verification/Balance.v ===== *)
(** * Balances

    [ledger/BalanceFrame.cpp]: an account holds an asset in a balance, whose amount
    can be spent and whose locked part backs offers and requests.  Both are
    [uint64_t]; the deprecated operations take [int64_t] deltas, and their sums are
    unsigned before they are compared or converted.  [signed + signed] that
    overflows is undefined in C++: here it wraps, and the theorems show the bounds
    within which it does not happen. *)

From Stdlib Require Import ZArith Lia String.
From stdpp Require Import base tactics gmap option list.
From S2P Require Import Prelude UtilTypes.

Open Scope Z_scope.

Abbreviation AccountID := N (only parsing).
Abbreviation BalanceID := N (only parsing).
Abbreviation AssetCode := (list N) (only parsing).

Record Balance := mkBalance {
  balanceID : BalanceID;
  balanceAccount : AccountID;
  balanceAsset : AssetCode;
  amount : Z;
  locked : Z }.

#[export] Instance Balance_eq_dec : EqDecision Balance.
Proof. solve_decision. Defined.

Definition set_amount (x : Z) (b : Balance) : Balance :=
  mkBalance (balanceID b) (balanceAccount b) (balanceAsset b) x (locked b).
Definition set_locked (x : Z) (b : Balance) : Balance :=
  mkBalance (balanceID b) (balanceAccount b) (balanceAsset b) (amount b) x.

Inductive BalanceResult := BAL_SUCCESS | LINE_FULL | UNDERFUNDED.

#[export] Instance BalanceResult_eq_dec : EqDecision BalanceResult.
Proof. solve_decision. Defined.

(** [BalanceFrame::createNew] *)
Definition createNewBalance (id : BalanceID) (owner : AccountID) (asset : AssetCode) : Balance :=
  mkBalance id owner asset 0 0.

(** [BalanceFrame::getTotal] *)
Definition getTotal (b : Balance) : exn + Z :=
  let (ok, total) := safeSum (amount b) (locked b) in
  if ok then inr total
  else inl (RuntimeError "Unexpected state: total balance amount overflows UINT64_MAX").

(** ** The deprecated operations *)

(** The sum of the two parts as an [int64_t]. *)
Definition totalFunds (b : Balance) : Z := s64 (u64 (amount b + locked b)).

(** [BalanceFrame::addBalance]: the result, and the balance after it, which is
    changed even when the last check fails. *)
Definition addBalance (delta : Z) (b : Balance) : bool * Balance :=
  if s64 (s64 (amount b) + delta) <? 0 then (false, b)
  else if u64 (amount b + delta) <? 0 then (false, b)
  else
    let b := set_amount (u64 (amount b + delta)) b in
    if totalFunds b <? 0 then (false, b) else (true, b).

(** [BalanceFrame::addLocked] *)
Definition addLocked (delta : Z) (b : Balance) : bool * Balance :=
  if u64 (locked b + delta) <? 0 then (false, b)
  else
    let b := set_locked (u64 (locked b + delta)) b in
    if totalFunds b <? 0 then (false, b) else (true, b).

(** [BalanceFrame::lockBalance] *)
Definition lockBalance (delta : Z) (b : Balance) : BalanceResult * Balance :=
  if s64 (s64 (amount b) - delta) <? 0 then (UNDERFUNDED, b)
  else if u64 (locked b + delta) <? 0 then (LINE_FULL, b)
  else (BAL_SUCCESS, set_locked (u64 (locked b + delta)) (set_amount (u64 (amount b - delta)) b)).

(** ** The current operations *)

(** [BalanceFrame::tryFundAccount] *)
Definition tryFundAccount (x : Z) (b : Balance) : bool * Balance :=
  let (ok, updated) := safeSum (amount b) x in
  if ok then
    let (ok, _) := safeSum updated (locked b) in
    if ok then (true, set_amount updated b) else (false, b)
  else (false, b).

(** [BalanceFrame::tryLock]: the amount is already taken when the sum overflows. *)
Definition tryLock (x : Z) (b : Balance) : BalanceResult * Balance :=
  if amount b <? x then (UNDERFUNDED, b)
  else
    let b := set_amount (u64 (amount b - x)) b in
    let (ok, updated) := safeSum (locked b) x in
    if ok then (BAL_SUCCESS, set_locked updated b) else (LINE_FULL, b).

(** [BalanceFrame::tryChargeFromLocked] *)
Definition tryChargeFromLocked (x : Z) (b : Balance) : bool * Balance :=
  if locked b <? x then (false, b) else (true, set_locked (u64 (locked b - x)) b).

(** [BalanceFrame::unlock] *)
Definition unlock (x : Z) (b : Balance) : bool * Balance :=
  if locked b <? x then (false, b)
  else tryFundAccount x (set_locked (u64 (locked b - x)) b).

(** [BalanceFrame::tryCharge] *)
Definition tryCharge (x : Z) (b : Balance) : bool * Balance :=
  if amount b <? x then (false, b) else (true, set_amount (u64 (amount b - x)) b).

(** ** What they do *)

(** Everything that belongs to the balance. *)
Definition worth (b : Balance) : Z := amount b + locked b.

(** A balance of the database: its columns are [BIGINT]s that are not negative. *)
Definition balance_ok (b : Balance) : Prop := 0 <= amount b /\ 0 <= locked b /\ worth b <= INT64_MAX.

Ltac balance_arith :=
  unfold is_u64, balance_ok, worth, INT64_MAX, UINT64_MAX in *; simpl in *; lia.

Lemma totalFunds_ok b : balance_ok b -> totalFunds b = worth b.
Proof.
  intros Hb. unfold totalFunds. rewrite u64_id, s64_id; balance_arith.
Qed.

Lemma addBalance_ok d b : balance_ok b -> 0 <= amount b + d -> worth b + d <= INT64_MAX ->
  addBalance d b = (true, set_amount (amount b + d) b).
Proof.
  intros Hb H1 H2. unfold addBalance.
  rewrite (s64_id (amount b)), s64_id, u64_id by balance_arith.
  rewrite (proj2 (Z.ltb_ge (amount b + d) 0)), totalFunds_ok by balance_arith.
  by rewrite (proj2 (Z.ltb_ge _ _)) by balance_arith.
Qed.

Lemma addLocked_ok d b : balance_ok b -> 0 <= locked b + d -> worth b + d <= INT64_MAX ->
  addLocked d b = (true, set_locked (locked b + d) b).
Proof.
  intros Hb H1 H2. unfold addLocked. rewrite u64_id by balance_arith.
  rewrite (proj2 (Z.ltb_ge (locked b + d) 0)), totalFunds_ok by balance_arith.
  by rewrite (proj2 (Z.ltb_ge _ _)) by balance_arith.
Qed.

(** Locking a positive delta and unlocking a negative one. *)
Lemma lockBalance_ok d b : balance_ok b -> d <= amount b -> 0 <= locked b + d ->
  lockBalance d b = (BAL_SUCCESS, set_locked (locked b + d) (set_amount (amount b - d) b)).
Proof.
  intros Hb H1 H2. unfold lockBalance.
  rewrite (s64_id (amount b)), s64_id, !u64_id by balance_arith.
  by rewrite (proj2 (Z.ltb_ge (amount b - d) 0)), (proj2 (Z.ltb_ge _ _)) by balance_arith.
Qed.

Lemma lockBalance_underfunded d b : balance_ok b -> amount b < d <= INT64_MAX ->
  lockBalance d b = (UNDERFUNDED, b).
Proof.
  intros Hb H1. unfold lockBalance. rewrite (s64_id (amount b)), s64_id by balance_arith.
  by rewrite (proj2 (Z.ltb_lt _ _)) by lia.
Qed.

Lemma tryFund_ok x b : balance_ok b -> 0 <= x -> worth b + x <= UINT64_MAX ->
  tryFundAccount x b = (true, set_amount (amount b + x) b).
Proof.
  intros Hb Hx Hs. unfold tryFundAccount. rewrite safeSum_spec by balance_arith.
  rewrite (proj2 (Z.leb_le _ _)), u64_id by balance_arith.
  rewrite safeSum_spec by balance_arith. by rewrite (proj2 (Z.leb_le _ _)) by balance_arith.
Qed.

Lemma unlock_ok x b : balance_ok b -> 0 <= x <= locked b ->
  unlock x b = (true, set_amount (amount b + x) (set_locked (locked b - x) b)).
Proof.
  intros Hb Hx. unfold unlock. rewrite (proj2 (Z.ltb_ge (locked b) x)) by lia.
  rewrite u64_id by balance_arith.
  by rewrite tryFund_ok by balance_arith.
Qed.
