(* ===== verification/Offer.v ===== *)
(** * Offers, asset pairs and fees

    [ledger/OfferFrame.cpp], [ledger/AssetPairFrame.cpp], [ledger/FeeFrame.cpp],
    [transactions/FeesManager.cpp], [AssetFrame::isAssetCodeValid], the part of
    [transactions/dex/OfferManager.cpp] that computes, and the tables of balances and
    offers.  The amounts of an offer are [int64_t]. *)

From Stdlib Require Import ZArith Lia String.
From stdpp Require Import sorting.
From stdpp Require Import base tactics gmap option list.
From S2P Require Import Prelude UtilTypes Balance.

Open Scope Z_scope.

(** [ONE]: the unit of prices and of percents. *)
Definition ONE : Z := 1000000.

(** [100 * ONE]: all of an amount. *)
Definition HUNDRED : Z := 100 * ONE.

(** ** Offers *)

Record Offer := mkOffer {
  offerID : Z;
  orderBookID : Z;
  ownerID : AccountID;
  isBuy : bool;
  baseAsset : AssetCode;
  quoteAsset : AssetCode;
  baseBalance : BalanceID;
  quoteBalance : BalanceID;
  baseAmount : Z;
  quoteAmount : Z;
  price : Z;
  fee : Z;
  percentFee : Z;
  createdAt : Z }.

Definition set_offerID (i : Z) (o : Offer) : Offer :=
  mkOffer i (orderBookID o) (ownerID o) (isBuy o) (baseAsset o) (quoteAsset o) (baseBalance o)
    (quoteBalance o) (baseAmount o) (quoteAmount o) (price o) (fee o) (percentFee o) (createdAt o).
Definition set_amounts (b q f : Z) (o : Offer) : Offer :=
  mkOffer (offerID o) (orderBookID o) (ownerID o) (isBuy o) (baseAsset o) (quoteAsset o)
    (baseBalance o) (quoteBalance o) b q (price o) f (percentFee o) (createdAt o).
Definition set_fees (pf f : Z) (o : Offer) : Offer :=
  mkOffer (offerID o) (orderBookID o) (ownerID o) (isBuy o) (baseAsset o) (quoteAsset o)
    (baseBalance o) (quoteBalance o) (baseAmount o) (quoteAmount o) (price o) f pf (createdAt o).
Definition set_createdAt (t : Z) (o : Offer) : Offer :=
  mkOffer (offerID o) (orderBookID o) (ownerID o) (isBuy o) (baseAsset o) (quoteAsset o)
    (baseBalance o) (quoteBalance o) (baseAmount o) (quoteAmount o) (price o) (fee o)
    (percentFee o) t.

(** [std::isalnum] in the C locale. *)
Definition isalnum (c : N) : bool :=
  ((48 <=? c) && (c <=? 57) || (65 <=? c) && (c <=? 90) || (97 <=? c) && (c <=? 122))%N.

(** The loop of [AssetFrame::isAssetCodeValid]. *)
Fixpoint assetCodeLoop (code : AssetCode) (zeros onechar : bool) : bool :=
  match code with
  | [] => onechar
  | b :: code' =>
      if (b =? 0)%N then assetCodeLoop code' true onechar
      else if zeros then false
      else if (127 <? b)%N || negb (isalnum b) then false
      else assetCodeLoop code' zeros true
  end.

Definition isAssetCodeValid (code : AssetCode) : bool := assetCodeLoop code false false.

(** [OfferFrame::isValid] *)
Definition isOfferValid (o : Offer) : bool :=
  isAssetCodeValid (baseAsset o) && isAssetCodeValid (quoteAsset o) &&
  (0 <? baseAmount o) && (0 <? quoteAmount o) && (0 <? price o) && (0 <=? fee o).

(** [BalanceFrame::isValid]: the amounts are unsigned. *)
Definition isBalanceValid (b : Balance) : bool :=
  isAssetCodeValid (balanceAsset b) && (0 <=? locked b) && (0 <=? amount b).

(** [OfferFrame::getLockedAmount]: the amounts become [uint64_t]. *)
Definition getLockedAmount (o : Offer) : exn + Z :=
  if isBuy o then
    let (ok, result) := safeSum (u64 (quoteAmount o)) (u64 (fee o)) in
    if ok then inr result else inl (RuntimeError "Overflow on locked amount canculation")
  else inr (u64 (baseAmount o)).

(** [OfferFrame::getLockedBalance] *)
Definition getLockedBalance (o : Offer) : BalanceID := if isBuy o then quoteBalance o else baseBalance o.

(** [OfferManager::calculateQuoteAmount] *)
Definition calculateQuoteAmount (base p : Z) : exn + Z :=
  match bigDivide_s64 0 base p ONE ROUND_DOWN with
  | inl e => inl e
  | inr (false, _) => inr 0
  | inr (true, result) =>
      if result =? 0 then inr 0
      else match bigDivide_s64 result base p ONE ROUND_UP with
           | inl e => inl e
           | inr (false, _) => inr 0
           | inr (true, result) => inr result
           end
  end.

(** ** Asset pairs *)

(** Of the policies, the two the exchange asks for. *)
Record AssetPair := mkPair {
  pairBase : AssetCode;
  pairQuote : AssetCode;
  currentPrice : Z;
  physicalPrice : Z;
  physicalPriceCorrection : Z;
  tradeableSecondaryMarket : bool;
  physicalPriceRestriction : bool }.

Definition setCurrentPrice (p : Z) (a : AssetPair) : AssetPair :=
  mkPair (pairBase a) (pairQuote a) p (physicalPrice a) (physicalPriceCorrection a)
    (tradeableSecondaryMarket a) (physicalPriceRestriction a).

(** [AssetPairFrame::getMinPriceInTermsOfPhysical] *)
Definition getMinPriceInTermsOfPhysical (a : AssetPair) : exn + Z :=
  if physicalPriceRestriction a then
    match bigDivide_s64 0 (physicalPrice a) (physicalPriceCorrection a) HUNDRED ROUND_UP with
    | inl e => inl e
    | inr (true, r) => inr r
    | inr (false, _) => inl (RuntimeError "Physical price calculation overflow")
    end
  else inr 0.

(** [AssetPairFrame::getMinAllowedPrice] *)
Definition getMinAllowedPrice (a : AssetPair) : exn + Z := getMinPriceInTermsOfPhysical a.

(** [AssetPairFrame::convertAmount] *)
Definition convertAmount (a : AssetPair) (dest : AssetCode) (x : Z) (rounding : Rounding) : exn + (bool * Z) :=
  let current := u64 (currentPrice a) in
  if decide (pairQuote a = dest) then bigDivide_u64 x current ONE rounding
  else bigDivide_u64 x ONE current rounding.

(** ** Fees *)

Record FeeEntry := mkFee { fixedFee : Z; feePercent : Z }.

(** [FeeFrame::calculatePercentFee] *)
Definition calculatePercentFee (f : FeeEntry) (x : Z) (rounding : Rounding) : exn + (bool * Z) :=
  if feePercent f =? 0 then inr (true, 0)
  else bigDivide_u64 x (u64 (feePercent f)) HUNDRED rounding.

Record FeeResult := mkFeeResult {
  resFixed : Z;
  resPercent : Z;
  calculatedPercentFee : Z;
  isOverflow : bool }.

(** [FeeManager::calculateFeeForAccount] of the fee entry that was found. *)
Definition calculateFeeForAccount (f : option FeeEntry) (x : Z) : exn + FeeResult :=
  match f with
  | None => inr (mkFeeResult 0 0 0 false)
  | Some f =>
      match calculatePercentFee f x ROUND_UP with
      | inl e => inl e
      | inr (ok, r) => inr (mkFeeResult (u64 (fixedFee f)) (u64 (feePercent f)) r (negb ok))
      end
  end.

(** ** The tables *)

Record Db := mkDb {
  dbBalances : gmap BalanceID Balance;
  dbOffers : gmap Z Offer;
  dbPairs : gmap (AssetCode * AssetCode) AssetPair }.

Definition set_balances m (d : Db) := mkDb m (dbOffers d) (dbPairs d).
Definition set_offers m (d : Db) := mkDb (dbBalances d) m (dbPairs d).
Definition set_pairs m (d : Db) := mkDb (dbBalances d) (dbOffers d) m.

Definition sqlError : exn := RuntimeError "could not update SQL".

(** [BalanceHelperLegacy::storeChange]: an [UPDATE] of the row with the id. *)
Definition storeChangeBalance (b : Balance) (d : Db) : exn + Db :=
  if isBalanceValid b then
    match dbBalances d !! balanceID b with
    | Some _ => inr (set_balances (<[balanceID b := b]> (dbBalances d)) d)
    | None => inl sqlError
    end
  else inl (RuntimeError "Invalid balance").

Definition storeAddBalance (b : Balance) (d : Db) : exn + Db :=
  if isBalanceValid b then
    match dbBalances d !! balanceID b with
    | Some _ => inl sqlError
    | None => inr (set_balances (<[balanceID b := b]> (dbBalances d)) d)
    end
  else inl (RuntimeError "Invalid balance").

(** [OfferHelper::storeUpdateHelper] *)
Definition storeOffer (insert : bool) (o : Offer) (d : Db) : exn + Db :=
  if isOfferValid o then
    match insert, dbOffers d !! offerID o with
    | true, None | false, Some _ => inr (set_offers (<[offerID o := o]> (dbOffers d)) d)
    | _, _ => inl sqlError
    end
  else inl (RuntimeError "Unexpected state - offer is invalid").

(** [OfferHelper::storeDelete] *)
Definition storeDeleteOffer (id : Z) (d : Db) : Db := set_offers (delete id (dbOffers d)) d.

(** The order of [loadBestOffers]: [ORDER BY price] descending for offers that buy and
    ascending for offers that sell, then by id. *)
Definition better (buy : bool) (a b : Offer) : bool :=
  if price a =? price b then offerID a <=? offerID b
  else if buy then price b <? price a else price a <? price b.

Definition better_le (buy : bool) : relation Offer := fun a b => better buy a b = true.

#[export] Instance better_le_dec buy : RelDecision (better_le buy).
Proof. intros a b. unfold better_le. apply _. Defined.

(** [OfferHelper::loadBestOffers] *)
Definition loadBestOffers (n offset : nat) (base quote : AssetCode) (book : Z) (buy : bool) (d : Db) :
    list Offer :=
  take n (drop offset (merge_sort (better_le buy)
    (base.filter (fun o => baseAsset o = base /\ quoteAsset o = quote /\ orderBookID o = book /\ isBuy o = buy)
      (map snd (map_to_list (dbOffers d)))))).
