(* ===== verification/OfferExchange.v ===== *)
(** * Matching offers

    [transactions/dex/OfferExchange.cpp].  An incoming offer, A, is matched with the
    best offers of the book on the other side, each of them B in its turn.

    The frames of A, its two balances and the balance for commissions are objects
    outside the database, copies of rows that are written back later: they are
    fields of the state next to the tables.  The frames of B are loaded and written
    back inside [crossOffer].  The delta records what the tables get. *)

From Stdlib Require Import ZArith Lia String.
From stdpp Require Import base tactics gmap option list.
From S2P Require Import Prelude UtilTypes Balance Offer.

Open Scope Z_scope.

Inductive ExchangeResultType := NORMAL | RESULT_OVERFLOW.

#[export] Instance ExchangeResultType_eq_dec : EqDecision ExchangeResultType.
Proof. solve_decision. Defined.

Record ExchangeResult := mkResult {
  baseDelta : Z;
  quoteDelta : Z;
  buyerFee : Z;
  sellerFee : Z;
  matchPrice : Z;
  exType : ExchangeResultType }.

(** [ExchangeResult result{}] *)
Definition emptyResult (t : ExchangeResultType) : ExchangeResult := mkResult 0 0 0 0 0 t.

Record ClaimOfferAtom := mkClaim {
  claimAccount : AccountID;
  claimOfferID : Z;
  claimBase : Z;
  claimQuote : Z;
  bFeePaid : Z;
  aFeePaid : Z;
  claimBaseBalance : BalanceID;
  claimQuoteBalance : BalanceID;
  claimPrice : Z }.

(** ** Computing a match *)

(** [OfferExchange::getQuoteAmountBasedOnFee]: how much the locked fee is enough for. *)
Definition getQuoteAmountBasedOnFee (o : Offer) : exn + (bool * Z) :=
  if percentFee o =? 0 then inr (true, INT64_MAX)
  else bigDivide_s64 0 (fee o) HUNDRED (percentFee o) ROUND_DOWN.

(** [OfferExchange::getMatchPrice] *)
Definition getMatchPrice (buy sell : Offer) : Z :=
  if baseAmount buy =? baseAmount sell then price buy
  else if baseAmount sell <? baseAmount buy then price buy
  else price sell.

(** [OfferExchange::setFeeToPay] *)
Definition setFeeToPay (x percent : Z) : exn + (bool * Z) := bigDivide_s64 0 x percent HUNDRED ROUND_UP.

(** [OfferExchange::exchange] of amounts; [bigDivide] writes its result when it
    overflows an [int64_t] but not a [uint64_t], as a negative number. *)
Definition exchangeAmounts (buyerBase buyerQuote sellerBase sellerQuote matchPrice : Z) :
    exn + ExchangeResult :=
  let base := Z.min buyerBase sellerBase in
  match bigDivide_s64 0 base matchPrice ONE ROUND_UP with
  | inl e => inl e
  | inr (false, q) => inr (mkResult base (s64 q) 0 0 matchPrice RESULT_OVERFLOW)
  | inr (true, q) =>
      if q <=? buyerQuote then inr (mkResult base q 0 0 matchPrice NORMAL)
      else
        let quote := buyerQuote in
        match bigDivide_s64 base quote ONE matchPrice ROUND_DOWN with
        | inl e => inl e
        | inr (false, b) => inr (mkResult (s64 b) quote 0 0 matchPrice RESULT_OVERFLOW)
        | inr (true, base) =>
            match bigDivide_s64 0 base matchPrice ONE ROUND_UP with
            | inl e => inl e
            | inr (false, _) => inr (mkResult base quote 0 0 matchPrice RESULT_OVERFLOW)
            | inr (true, candidate) =>
                let quote := if candidate <? quote then candidate else quote in
                inr (mkResult base quote 0 0 matchPrice NORMAL)
            end
        end
  end.

Definition feeTooHigh : exn := RuntimeError "Fee to be charged can't be >= quote delta".

(** [OfferExchange::exchange] of offers. *)
Definition exchangeOffers (a b : Offer) : exn + ExchangeResult :=
  let buying := if isBuy a then a else b in
  let selling := if isBuy a then b else a in
  let p := getMatchPrice buying selling in
  match getQuoteAmountBasedOnFee buying with
  | inl e => inl e
  | inr (false, _) => inr (emptyResult RESULT_OVERFLOW)
  | inr (true, onLockedFee) =>
      let buyingQuote := Z.min onLockedFee (quoteAmount buying) in
      match exchangeAmounts (baseAmount buying) buyingQuote (baseAmount selling) (quoteAmount selling) p with
      | inl e => inl e
      | inr m =>
          match setFeeToPay (quoteDelta m) (percentFee buying) with
          | inl e => inl e
          | inr (false, _) => inr (emptyResult RESULT_OVERFLOW)
          | inr (true, bf) =>
              match setFeeToPay (quoteDelta m) (percentFee selling) with
              | inl e => inl e
              | inr (false, _) => inr (emptyResult RESULT_OVERFLOW)
              | inr (true, sf) =>
                  if quoteDelta m <=? sf then inl feeTooHigh
                  else inr (mkResult (baseDelta m) (quoteDelta m) bf sf (matchPrice m) (exType m))
              end
          end
      end
  end.

(** [OfferExchange::offerNeedsMore] *)
Definition offerNeedsMore (o : Offer) : exn + bool :=
  let rest := inr ((0 <? baseAmount o) && (0 <? quoteAmount o)) in
  if isBuy o then
    match getQuoteAmountBasedOnFee o with
    | inl e => inl e
    | inr (false, _) => inr false
    | inr (true, onFee) =>
        match bigDivide_s64 0 (Z.min onFee (quoteAmount o)) ONE (price o) ROUND_DOWN with
        | inl e => inl e
        | inr (false, _) => inr false
        | inr (true, canBuy) => if canBuy =? 0 then inr false else rest
        end
    end
  else rest.

(** [OfferExchange::isOfferPriceMeetAssetPairRestrictions] *)
Definition isOfferPriceMeetAssetPairRestrictions (pair : AssetPair) (offerPrice : Z) : exn + bool :=
  match getMinAllowedPrice pair with inl e => inl e | inr m => inr (m <=? offerPrice) end.

(** [OfferExchange::unlockBalancesForTakenOffer]: the balances after it. *)
Definition unlockBalancesForTakenOffer (o : Offer) (bb qb : Balance) : exn + (Balance * Balance) :=
  if isBuy o then
    let lockedAmount := s64 (quoteAmount o + fee o) in
    match lockBalance (s64 (- lockedAmount)) qb with
    | (BAL_SUCCESS, qb) => inr (bb, qb)
    | _ => inl (RuntimeError "Failed to mark offer as taken")
    end
  else
    match lockBalance (s64 (- baseAmount o)) bb with
    | (BAL_SUCCESS, bb) => inr (bb, qb)
    | _ => inl (RuntimeError "Failed to mark offer as taken")
    end.

Section exchange.
Context (NDEBUG : bool).

Definition assertX {A} (c : bool) (k : exn + A) : exn + A := if NDEBUG || c then k else inl DbgAbort.

(** [OfferExchange::offerMatched]: the offer and its balances after it. *)
Definition offerMatched (o : Offer) (bb qb : Balance) (m : ExchangeResult) :
    exn + (Offer * Balance * Balance) :=
  let base := s64 (baseAmount o - baseDelta m) in
  let quote := s64 (quoteAmount o - quoteDelta m) in
  let finish (valid : bool) (o : Offer) (bb qb : Balance) : exn + (Offer * Balance * Balance) :=
    if negb valid then
      inl (RuntimeError "Failed to handel offer match - unable to unlock balace")
    else if (baseAmount o <? 0) || (quoteAmount o <? 0) || (fee o <? 0) then
      inl (RuntimeError "Failed to handel offer match - unable to update base or quote amount for offer")
    else inr (o, bb, qb) in
  if isBuy o then
    assertX (0 <=? buyerFee m)
      (let amountToCharge := s64 (quoteDelta m + buyerFee m) in
       let o' := set_amounts base quote (s64 (fee o - buyerFee m)) o in
       let (ok, bb) := addBalance (baseDelta m) bb in
       if ok then let (ok, qb) := addLocked (s64 (- amountToCharge)) qb in finish ok o' bb qb
       else finish false o' bb qb)
  else
    let quote := Z.max quote 0 in
    assertX (0 <=? sellerFee m)
      (let amountToAdd := s64 (quoteDelta m - sellerFee m) in
       assertX (0 <? amountToAdd)
         (let o' := set_amounts base quote (fee o) o in
          let (ok, bb) := addLocked (s64 (- baseDelta m)) bb in
          if ok then let (ok, qb) := addBalance amountToAdd qb in finish ok o' bb qb
          else finish false o' bb qb)).

(** [OfferExchange::createOfferClaim] *)
Definition createOfferClaim (b : Offer) (m : ExchangeResult) : ClaimOfferAtom :=
  mkClaim (ownerID b) (offerID b) (baseDelta m) (quoteDelta m)
    (if isBuy b then buyerFee m else sellerFee m) (if negb (isBuy b) then buyerFee m else sellerFee m)
    (baseBalance b) (quoteBalance b) (matchPrice m).

(** ** The state of a match *)

Inductive ManageOfferResultCode :=
| MO_SUCCESS
| MO_MALFORMED
| MO_BALANCE_NOT_FOUND
| MO_ASSET_PAIR_NOT_TRADABLE
| MO_REQUIRES_VERIFICATION
| MO_REQUIRES_KYC
| MO_OFFER_OVERFLOW
| MO_UNDERFUNDED
| MO_CROSS_SELF
| MO_INVALID_AMOUNT
| MO_PRICE_IS_INVALID
| MO_INVALID_PERCENT_FEE
| MO_NOT_FOUND.

#[global] Instance ManageOfferResultCode_eq_dec : EqDecision ManageOfferResultCode.
Proof. solve_decision. Defined.

Record Ex := mkEx {
  exDb : Db;
  exOffer : Offer;
  exBase : Balance;
  exQuote : Balance;
  exCommission : Balance;
  exTrail : list ClaimOfferAtom;
  exFeePaidByA : Z;
  exCode : ManageOfferResultCode }.

Definition set_exDb d (x : Ex) :=
  mkEx d (exOffer x) (exBase x) (exQuote x) (exCommission x) (exTrail x) (exFeePaidByA x) (exCode x).
Definition set_exA o bb qb (x : Ex) :=
  mkEx (exDb x) o bb qb (exCommission x) (exTrail x) (exFeePaidByA x) (exCode x).
Definition set_exCommission c (x : Ex) :=
  mkEx (exDb x) (exOffer x) (exBase x) (exQuote x) c (exTrail x) (exFeePaidByA x) (exCode x).
Definition add_claim c f (x : Ex) :=
  mkEx (exDb x) (exOffer x) (exBase x) (exQuote x) (exCommission x) (exTrail x ++ [c])
    (s64 (exFeePaidByA x + f)) (exCode x).
Definition set_exCode c (x : Ex) :=
  mkEx (exDb x) (exOffer x) (exBase x) (exQuote x) (exCommission x) (exTrail x) (exFeePaidByA x) c.

(** Writing to the tables. *)
Definition onDb (f : Db -> exn + Db) : M Ex () :=
  d ← gets exDb; d' ← lift (f d); modify (set_exDb d').

(** [OfferExchange::loadBalance] *)
Definition loadBalance (id : BalanceID) : M Ex Balance :=
  d ← gets exDb;
  match dbBalances d !! id with
  | Some b => mret b
  | None => throw (RuntimeError "invalid database state: offer must have matching balance")
  end.

(** [OfferExchange::markOfferAsTaken] *)
Definition markOfferAsTaken (o : Offer) (bb qb : Balance) : M Ex (Balance * Balance) :=
  onDb (fun d => inr (storeDeleteOffer (offerID o) d));;
  lift (unlockBalancesForTakenOffer o bb qb).

(** [assert(mCommissionBalance->addBalance(fee))]: with [NDEBUG] nothing is left of it. *)
Definition assertCommission (f : Z) : M Ex () :=
  if NDEBUG then mret ()
  else
    c ← gets exCommission;
    let (ok, c) := addBalance f c in
    modify (set_exCommission c);;
    if ok then mret () else throw DbgAbort.

Inductive CrossOfferResult := eOfferPartial | eOfferTaken | eOfferCantConvert.

#[global] Instance CrossOfferResult_eq_dec : EqDecision CrossOfferResult.
Proof. solve_decision. Defined.

(** [OfferExchange::crossOffer] *)
Definition crossOffer (pair : AssetPair) (b : Offer) : M Ex CrossOfferResult :=
  bb ← loadBalance (baseBalance b);
  qb ← loadBalance (quoteBalance b);
  valid ← lift (isOfferPriceMeetAssetPairRestrictions pair (price b));
  if negb valid then
    r ← markOfferAsTaken b bb qb;
    onDb (storeChangeBalance r.1);;
    onDb (storeChangeBalance r.1);;
    mret eOfferTaken
  else
    a ← gets exOffer;
    m ← lift (exchangeOffers a b);
    if bool_decide (exType m = RESULT_OVERFLOW) then mret eOfferCantConvert
    else if (baseDelta m =? 0) || (quoteDelta m =? 0) then
      throw (RuntimeError "After match baseDelta or quoteDelta is zero")
    else
      x ← get;
      ra ← lift (offerMatched (exOffer x) (exBase x) (exQuote x) m);
      modify (set_exA ra.1.1 ra.1.2 ra.2);;
      rb ← lift (offerMatched b bb qb m);
      let '(b, bb, qb) := rb in
      modify (add_claim (createOfferClaim b m) (if isBuy ra.1.1 then buyerFee m else sellerFee m));;
      assertCommission (buyerFee m);;
      assertCommission (sellerFee m);;
      more ← lift (offerNeedsMore b);
      if negb more then
        r ← markOfferAsTaken b bb qb;
        onDb (storeChangeBalance r.1);;
        onDb (storeChangeBalance r.2);;
        mret eOfferTaken
      else
        onDb (storeOffer false b);;
        onDb (storeChangeBalance bb);;
        onDb (storeChangeBalance qb);;
        mret eOfferPartial.

Inductive OfferFilterResult := eKeep | eStop | eSkip.
Inductive ConvertResult := eOK | ePartial | eFilterStop.

Context (filterOffer : Offer -> M Ex OfferFilterResult).

(** The loop over one batch: the result of the whole call, or the offset after it. *)
Fixpoint batchLoop (pair : AssetPair) (batch : list Offer) (offset : nat) : M Ex (ConvertResult + nat) :=
  match batch with
  | [] => mret (inr offset)
  | b :: batch' =>
      r ← filterOffer b;
      match r with
      | eStop => mret (inl eFilterStop)
      | eSkip => batchLoop pair batch' offset
      | eKeep =>
          cor ← crossOffer pair b;
          match cor with
          | eOfferCantConvert => mret (inl ePartial)
          | _ =>
              (if bool_decide (cor = eOfferTaken) && negb NDEBUG && (offset =? 0)%nat then throw DbgAbort
               else mret ());;
              let offset := if bool_decide (cor = eOfferTaken) then (offset - 1)%nat else offset in
              a ← gets exOffer;
              more ← lift (offerNeedsMore a);
              if negb more then mret (inl eOK)
              else if bool_decide (cor = eOfferPartial) then mret (inl ePartial)
              else batchLoop pair batch' offset
          end
      end
  end.

Definition OFFERS_TO_TAKE : nat := 5.

(** [OfferExchange::convertWithOffers]; [fuel] bounds the number of batches. *)
Fixpoint convertWithOffers (fuel : nat) (pair : AssetPair) (book : Z) (offset : nat) : M Ex ConvertResult :=
  match fuel with
  | O => throw OutOfFuel
  | S fuel' =>
      a ← gets exOffer;
      more ← lift (offerNeedsMore a);
      if negb more then mret eOK
      else
        d ← gets exDb;
        let batch := loadBestOffers OFFERS_TO_TAKE offset (pairBase pair) (pairQuote pair) book
          (negb (isBuy a)) d in
        if forallb isOfferValid batch then
          r ← batchLoop pair batch (offset + length batch);
          match r with
          | inl res => mret res
          | inr offset =>
              a ← gets exOffer;
              more ← lift (offerNeedsMore a);
              if more && (length batch <? OFFERS_TO_TAKE)%nat then mret eOK
              else convertWithOffers fuel' pair book offset
          end
        else throw (RuntimeError "Unexpected state - offer is invalid")
  end.

End exchange.
