(* ===== verification/CreateOffer.v ===== *)
(** * Operations on offers

    [transactions/dex/CreateOfferOpFrame.cpp], [DeleteOfferOpFrame.cpp] and
    [OfferManager.cpp].  What the operations read of accounts, assets and fees is
    the record [OfferEnv]; balances, offers and asset pairs are the tables. *)

From Stdlib Require Import ZArith Lia String.
From stdpp Require Import base tactics gmap option list.
From S2P Require Import Prelude ScpTypes LedgerTypes LedgerDelta UtilTypes Balance Offer OfferExchange.

Open Scope Z_scope.

Inductive AccountType :=
| NOT_VERIFIED | VERIFIED | GENERAL | MASTER | OPERATIONAL | COMMISSION | SYNDICATE | EXCHANGE
| ACCREDITED_INVESTOR | INSTITUTIONAL_INVESTOR.

#[export] Instance AccountType_eq_dec : EqDecision AccountType.
Proof. solve_decision. Defined.

Record AssetInfo := mkAsset { isRequireVerification : bool; isRequireKYC : bool; isTransferable : bool }.

(** The rest of the database and of the application, as far as the operations read
    it: [loadFee] is [FeeHelper::loadForAccount] for the source account and the fee
    type of the operation, [forAccount] makes the identifier of a new balance from a
    generated number, [strKey] is the text of an identifier. *)
Record OfferEnv := mkEnv {
  sourceID : AccountID;
  commissionID : AccountID;
  closeTime : Z;
  accountTypeOf : AccountID -> option AccountType;
  assetOf : AssetCode -> option AssetInfo;
  loadFee : AssetCode -> Z -> option FeeEntry;
  forAccount : AccountID -> Z -> BalanceID;
  strKey : BalanceID -> list N }.

Record ManageOfferOp := mkManage {
  opBaseBalance : BalanceID;
  opQuoteBalance : BalanceID;
  opIsBuy : bool;
  opAmount : Z;
  opPrice : Z;
  opFee : Z;
  opOfferID : Z;
  opOrderBookID : Z }.

Inductive ManageOfferEffect := CREATED_EFFECT | DELETED_EFFECT.

Record ManageOfferSuccess := mkSuccess {
  offersClaimed : list ClaimOfferAtom;
  effect : ManageOfferEffect }.

(** What an operation reads and writes: the tables, the header with its generators
    and the result code. *)
Record OpState := mkOpState {
  stDb : Db;
  stHeader : LedgerHeader;
  stCode : ManageOfferResultCode }.

Definition set_stDb d (s : OpState) := mkOpState d (stHeader s) (stCode s).
Definition set_stHeader h (s : OpState) := mkOpState (stDb s) h (stCode s).
Definition set_stCode c (s : OpState) := mkOpState (stDb s) (stHeader s) c.

Section operations.
Context (NDEBUG : bool) (env : OfferEnv) (op : ManageOfferOp).

Definition fail (c : ManageOfferResultCode) : M OpState bool := modify (set_stCode c);; mret false.

Definition onTables (f : Db -> exn + Db) : M OpState () :=
  d ← gets stDb; d' ← lift (f d); modify (set_stDb d').

(** [delta.getHeaderFrame().generateID] *)
Definition nextID (t : LedgerEntryType) : M OpState Z :=
  h ← gets stHeader; let '(i, h) := generateID t h in modify (set_stHeader h);; mret i.

(** ** Checks *)

(** [CreateOfferOpFrame::doCheckValid]: the code, when the operation is refused. *)
Definition doCheckValid : exn + option ManageOfferResultCode :=
  if opAmount op <=? 0 then inr (Some MO_INVALID_AMOUNT)
  else if opPrice op <=? 0 then inr (Some MO_PRICE_IS_INVALID)
  else
    match calculateQuoteAmount (opAmount op) (opPrice op) with
    | inl e => inl e
    | inr q =>
        if negb (0 <? q) then inr (Some MO_OFFER_OVERFLOW)
        else if opFee op <? 0 then inr (Some MO_INVALID_PERCENT_FEE)
        else if decide (opBaseBalance op = opQuoteBalance op) then inr (Some MO_ASSET_PAIR_NOT_TRADABLE)
        else inr None
    end.

(** [CreateOfferOpFrame::loadBalanceValidForTrading] *)
Definition loadBalanceValidForTrading (id : BalanceID) : M OpState (option Balance) :=
  d ← gets stDb;
  match dbBalances d !! id with
  | Some b =>
      if decide (balanceAccount b = sourceID env) then mret (Some b)
      else modify (set_stCode MO_BALANCE_NOT_FOUND);; mret None
  | None => modify (set_stCode MO_BALANCE_NOT_FOUND);; mret None
  end.

(** [AccountManager::isAllowedToReceive] and the codes for its results; a missing
    account or asset throws. *)
Definition isAllowedToReceive (id : BalanceID) : M OpState bool :=
  d ← gets stDb;
  match dbBalances d !! id with
  | None => fail MO_BALANCE_NOT_FOUND
  | Some b =>
      match accountTypeOf env (balanceAccount b) with
      | None => throw (RuntimeError "Unexpected state: expected account to exist")
      | Some t =>
          match assetOf env (balanceAsset b) with
          | None => throw (RuntimeError "Unexpected state: expected asset to exist")
          | Some a =>
              if isRequireVerification a && bool_decide (t = NOT_VERIFIED)
              then fail MO_REQUIRES_VERIFICATION
              else if isRequireKYC a && (bool_decide (t = NOT_VERIFIED) || bool_decide (t = VERIFIED))
              then fail MO_REQUIRES_KYC
              else mret true
          end
      end
  end.

Definition SECONDARY_MARKET_ORDER_BOOK_ID : Z := 0.

(** [CreateOfferOpFrame::loadTradableAssetPair] *)
Definition loadTradableAssetPair (base quote : AssetCode) : M OpState (option AssetPair) :=
  d ← gets stDb;
  match dbPairs d !! (base, quote) with
  | None => mret None
  | Some p =>
      if negb (opOrderBookID op =? SECONDARY_MARKET_ORDER_BOOK_ID) then mret (Some p)
      else if tradeableSecondaryMarket p then mret (Some p)
      else mret None
  end.

(** [CreateOfferOpFrame::checkOfferValid]: the frames it sets. *)
Definition checkOfferValid : M OpState (option (Balance * Balance * AssetPair)) :=
  (if NDEBUG || negb (opAmount op =? 0) then mret () else throw DbgAbort);;
  bb ← loadBalanceValidForTrading (opBaseBalance op);
  match bb with
  | None => mret None
  | Some bb =>
      qb ← loadBalanceValidForTrading (opQuoteBalance op);
      match qb with
      | None => mret None
      | Some qb =>
          if decide (balanceAsset bb = balanceAsset qb)
          then modify (set_stCode MO_ASSET_PAIR_NOT_TRADABLE);; mret None
          else
            let receiving := if opIsBuy op then opBaseBalance op else opQuoteBalance op in
            allowed ← isAllowedToReceive receiving;
            if negb allowed then mret None
            else
              ap ← loadTradableAssetPair (balanceAsset bb) (balanceAsset qb);
              match ap with
              | None => modify (set_stCode MO_ASSET_PAIR_NOT_TRADABLE);; mret None
              | Some p => mret (Some (bb, qb, p))
              end
      end
  end.

(** ** Creating an offer *)

(** [OfferManager::buildOffer]; a null pointer when the quote amount is 0. *)
Definition buildOffer (base quote : AssetCode) : exn + option Offer :=
  match calculateQuoteAmount (opAmount op) (opPrice op) with
  | inl e => inl e
  | inr q =>
      if q =? 0 then inr None
      else inr (Some (mkOffer (opOfferID op) (opOrderBookID op) (sourceID env) (opIsBuy op) base quote
        (opBaseBalance op) (opQuoteBalance op) (opAmount op) q (opPrice op) 0 0 0))
  end.

(** [CreateOfferOpFrame::lockSellingAmount]: whether it has locked, and the balances
    after it. *)
Definition lockSellingAmount (o : Offer) (bb qb : Balance) : bool * Balance * Balance :=
  let sellingAmount := if isBuy o then s64 (quoteAmount o + fee o) else baseAmount o in
  if sellingAmount <=? 0 then (false, bb, qb)
  else if isBuy o then
    let (r, qb) := lockBalance sellingAmount qb in (bool_decide (r = BAL_SUCCESS), bb, qb)
  else
    let (r, bb) := lockBalance sellingAmount bb in (bool_decide (r = BAL_SUCCESS), bb, qb).

(** [ORDER BY balance_id DESC LIMIT 1] over the balances of an account in an asset. *)
Definition loadBalanceOf (account : AccountID) (asset : AssetCode) (d : Db) : option Balance :=
  foldr (fun b acc =>
    match acc with
    | None => Some b
    | Some c => if bytes_leb (strKey env (balanceID b)) (strKey env (balanceID c)) then Some c else Some b
    end) None
    (base.filter (fun b => balanceAccount b = account /\ balanceAsset b = asset)
      (map snd (map_to_list (dbBalances d)))).

(** [AccountManager::loadOrCreateBalanceFrameForAsset] *)
Definition loadOrCreateBalanceFrameForAsset (account : AccountID) (asset : AssetCode) : M OpState Balance :=
  d ← gets stDb;
  match loadBalanceOf account asset d with
  | Some b => mret b
  | None =>
      match assetOf env asset with
      | None => throw (RuntimeError "Unexpected db state: expected asset to exist")
      | Some _ =>
          i ← nextID BALANCE;
          let b := createNewBalance (forAccount env account i) account asset in
          onTables (storeAddBalance b);;
          mret b
      end
  end.

(** [CreateOfferOpFrame::filterOffer] *)
Definition filterOffer (p : Z) (o : Offer) : M Ex OfferFilterResult :=
  let isPriceBetter := if isBuy o then p <=? price o else price o <=? p in
  if negb isPriceBetter then mret eStop
  else if decide (ownerID o = sourceID env) then
    modify (set_exCode MO_CROSS_SELF);; mret eStop
  else mret eKeep.

(** Running the exchange on its frames, over the same tables and result code. *)
Definition exchangeIn {A} (o : Offer) (bb qb c : Balance) (m : M Ex A) : M OpState (A * Ex) :=
  fun s =>
    match m (mkEx (stDb s) o bb qb c [] 0 (stCode s)) with
    | Ret a x => Ret (a, x) (mkOpState (exDb x) (stHeader s) (exCode x))
    | Exn e x => Exn e (mkOpState (exDb x) (stHeader s) (exCode x))
    end.

Definition storeChangePair (p : AssetPair) (d : Db) : exn + Db :=
  match dbPairs d !! (pairBase p, pairQuote p) with
  | Some _ => inr (set_pairs (<[(pairBase p, pairQuote p) := p]> (dbPairs d)) d)
  | None => inl sqlError
  end.

(** The end of [doApply], when the exchange has run. *)
Definition finishOffer (ap : AssetPair) (x : Ex) : M OpState (option ManageOfferSuccess) :=
  match last (exTrail x) with
  | Some claim =>
      onTables (storeChangePair (setCurrentPrice (claimPrice claim) ap));;
      onTables (storeChangeBalance (exCommission x))
  | None => mret ()
  end;;
  more ← lift (offerNeedsMore (exOffer x));
  r ← (if more : bool then
         i ← nextID OFFER_ENTRY;
         onTables (storeOffer true (set_offerID i (exOffer x)));;
         mret (exBase x, exQuote x, CREATED_EFFECT)
       else
         r ← lift (unlockBalancesForTakenOffer (exOffer x) (exBase x) (exQuote x));
         mret (r.1, r.2, DELETED_EFFECT));
  let '(bb, qb, eff) := r in
  onTables (storeChangeBalance bb);;
  onTables (storeChangeBalance qb);;
  mret (Some (mkSuccess (exTrail x) eff)).

(** [CreateOfferOpFrame::doApply]; [fuel] is that of [convertWithOffers]. *)
Definition doApply (fuel : nat) : M OpState (option ManageOfferSuccess) :=
  frames ← checkOfferValid;
  match frames with
  | None => mret None
  | Some (bb, qb, ap) =>
      o ← lift (buildOffer (balanceAsset bb) (balanceAsset qb));
      match o with
      | None => throw (RuntimeError "Unexpected state: quote amount overflows")
      | Some o =>
          let o := set_createdAt (closeTime env) o in
          f ← lift (calculateFeeForAccount (loadFee env (balanceAsset qb) (quoteAmount o)) (u64 (quoteAmount o)));
          if isOverflow f then modify (set_stCode MO_OFFER_OVERFLOW);; mret None
          else if negb (s64 (calculatedPercentFee f) <=? opFee op)
          then modify (set_stCode MO_MALFORMED);; mret None
          else
            let o := set_fees (s64 (resPercent f)) (opFee op) o in
            if quoteAmount o <=? fee o then modify (set_stCode MO_MALFORMED);; mret None
            else
              let '(ok, bb, qb) := lockSellingAmount o bb qb in
              if negb ok then modify (set_stCode MO_UNDERFUNDED);; mret None
              else
                modify (set_stCode MO_SUCCESS);;
                c ← loadOrCreateBalanceFrameForAsset (commissionID env) (pairQuote ap);
                r ← exchangeIn o bb qb c
                  (convertWithOffers NDEBUG (filterOffer (price o)) fuel ap (opOrderBookID op) 0);
                let '(res, x) := r in
                match res with
                | eFilterStop =>
                    if bool_decide (exCode x = MO_SUCCESS) then finishOffer ap x else mret None
                | _ => finishOffer ap x
                end
      end
  end.

(** ** Deleting an offer *)

(** [OfferManager::deleteOffer] *)
Definition deleteOffer (o : Offer) : M OpState () :=
  d ← gets stDb;
  match dbBalances d !! getLockedBalance o with
  | None => throw (RuntimeError "Invalid database state: failed to load balance to cancel order")
  | Some b =>
      amountToUnlock ← lift (getLockedAmount o);
      let (ok, b) := unlock amountToUnlock b in
      if ok then
        onTables (fun d => inr (storeDeleteOffer (offerID o) d));;
        onTables (storeChangeBalance b)
      else throw (RuntimeError "Invalid database state: failed to unlocked locked amount for offer")
  end.

(** [OfferManager::deleteOffers] *)
Fixpoint deleteOffers (os : list Offer) : M OpState () :=
  match os with
  | [] => mret ()
  | o :: os' => deleteOffer o;; deleteOffers os'
  end.

(** [DeleteOfferOpFrame::doCheckValid]: the code, when the operation is refused. *)
Definition doCheckValidDelete : exn + option ManageOfferResultCode :=
  if negb (opAmount op =? 0) then inl (RuntimeError "DeleteOffer: expected amount to be 0")
  else if opOfferID op =? 0 then inr (Some MO_NOT_FOUND)
  else inr None.

(** [DeleteOfferOpFrame::doApply]; [loadOffer] selects by owner and id. *)
Definition doApplyDelete : M OpState bool :=
  d ← gets stDb;
  match dbOffers d !! opOfferID op with
  | Some o =>
      if bool_decide (ownerID o = sourceID env) && (orderBookID o =? opOrderBookID op) then
        deleteOffer o;; modify (set_stCode MO_SUCCESS);; mret true
      else fail MO_NOT_FOUND
  | None => fail MO_NOT_FOUND
  end.

End operations.
