(* ===== verification/ExchangeFacts.v ===== *)
(** * Facts on matching

    The arithmetic of a match: what [exchange] gives for two offers that both need
    more and whose prices cross, and what [offerMatched] and the unlocking of an
    offer do to balances.  Divisions are handled through their adjunctions
    ([ceil_le], [floor_ge]). *)

From Stdlib Require Import ZArith Lia String.
From stdpp Require Import base tactics gmap option list.
From S2P Require Import Prelude UtilTypes Balance Offer OfferExchange.

Open Scope Z_scope.

(** ** Division *)

Lemma ceil_le A B C x : 0 < C -> quotient A B C ROUND_UP <= x <-> A * B <= x * C.
Proof.
  intros HC. cbn [quotient]. set (y := A * B).
  pose proof (Z.div_mod (- y) C ltac:(lia)). pose proof (Z.mod_pos_bound (- y) C HC).
  split; intros; nia.
Qed.

Lemma floor_ge A B C x : 0 < C -> x <= quotient A B C ROUND_DOWN <-> x * C <= A * B.
Proof.
  intros HC. cbn [quotient]. set (y := A * B).
  pose proof (Z.div_mod y C ltac:(lia)). pose proof (Z.mod_pos_bound y C HC).
  split; intros; nia.
Qed.

Lemma bigDivide_s64_quotient r A B C rounding :
  0 <= A <= INT64_MAX -> 0 <= B <= INT64_MAX -> 0 < C <= INT64_MAX ->
  bigDivide_s64 r A B C rounding =
    let q := quotient A B C rounding in
    inr (if q <=? INT64_MAX then (true, q)
         else if q <=? UINT64_MAX then (false, q) else (false, r)).
Proof.
  intros HA HB HC. unfold bigDivide_s64.
  rewrite !u64_id by (unfold INT64_MAX, UINT64_MAX in *; lia).
  rewrite bigDivide_u64_quotient by (unfold is_u64, INT64_MAX, UINT64_MAX in *; lia).
  pose proof (quotient_nonneg A B C rounding ltac:(lia) ltac:(lia) ltac:(lia)).
  rewrite !(proj2 (Z.leb_le 0 _)), (proj2 (Z.ltb_lt 0 C)) by lia. cbn zeta. simpl.
  set (q := quotient A B C rounding) in *.
  destruct (Z.leb_spec q UINT64_MAX), (Z.leb_spec q INT64_MAX); try done;
    rewrite ?u64_id by lia; try (unfold INT64_MAX, UINT64_MAX in *; lia).
  - by rewrite (proj2 (Z.leb_le _ _)).
  - by rewrite (proj2 (Z.leb_gt _ _)).
Qed.

(** When the quotient fits. *)
Lemma bigDivide_fits r A B C rounding :
  0 <= A <= INT64_MAX -> 0 <= B <= INT64_MAX -> 0 < C <= INT64_MAX ->
  quotient A B C rounding <= INT64_MAX ->
  bigDivide_s64 r A B C rounding = inr (true, quotient A B C rounding).
Proof. intros. rewrite bigDivide_s64_quotient by done. simpl. by rewrite (proj2 (Z.leb_le _ _)). Qed.

Lemma bigDivide_true r A B C rounding q :
  0 <= A <= INT64_MAX -> 0 <= B <= INT64_MAX -> 0 < C <= INT64_MAX ->
  bigDivide_s64 r A B C rounding = inr (true, q) -> q = quotient A B C rounding /\ q <= INT64_MAX.
Proof.
  intros HA HB HC. rewrite bigDivide_s64_quotient by done. simpl.
  destruct (Z.leb_spec (quotient A B C rounding) INT64_MAX); [intros [= <-]; lia|].
  by destruct (_ <=? _).
Qed.

(** ** Offers *)

(** An offer of the book, or the incoming one between two matches. *)
Record offer_ok (o : Offer) : Prop := {
  oo_base : 0 <= baseAmount o <= INT64_MAX;
  oo_quote : 0 <= quoteAmount o <= INT64_MAX;
  oo_price : 0 < price o <= INT64_MAX;
  oo_fee : 0 <= fee o <= INT64_MAX;
  oo_percent : 0 <= percentFee o <= HUNDRED;
  oo_locked : isBuy o = true -> quoteAmount o + fee o <= INT64_MAX;
  oo_value : baseAmount o * price o <= INT64_MAX * ONE }.

Lemma HUNDRED_bound : 0 < HUNDRED <= INT64_MAX.
Proof. by vm_compute. Qed.

Lemma ONE_bound : 0 < ONE <= INT64_MAX.
Proof. by vm_compute. Qed.

#[local] Hint Resolve HUNDRED_bound ONE_bound : core.

(** How much of its quote amount an offer that buys can spend. *)
Definition spendable (o : Offer) : Z :=
  if percentFee o =? 0 then quoteAmount o
  else Z.min (quotient (fee o) HUNDRED (percentFee o) ROUND_DOWN) (quoteAmount o).

Lemma getQuote_run o ok q : offer_ok o -> getQuoteAmountBasedOnFee o = inr (ok, q) -> ok = true ->
  Z.min q (quoteAmount o) = spendable o.
Proof.
  intros Ho E ->. unfold getQuoteAmountBasedOnFee, spendable in *. destruct Ho.
  destruct (Z.eqb_spec (percentFee o) 0); [injection E as <-; lia|].
  apply bigDivide_true in E as [-> _]; [done|lia|destruct HUNDRED_bound; lia|].
  destruct HUNDRED_bound; lia.
Qed.

Lemma getQuote_total o : offer_ok o -> exists ok q, getQuoteAmountBasedOnFee o = inr (ok, q).
Proof.
  intros Ho. unfold getQuoteAmountBasedOnFee. destruct Ho.
  destruct (Z.eqb_spec (percentFee o) 0); [by eexists _, _|].
  rewrite bigDivide_s64_quotient; [|destruct HUNDRED_bound; lia..].
  simpl. by repeat destruct (_ <=? _); eexists _, _.
Qed.

Lemma spendable_bound o : offer_ok o -> 0 <= spendable o <= quoteAmount o /\
  (spendable o * percentFee o <= fee o * HUNDRED).
Proof.
  intros []. unfold spendable. destruct (Z.eqb_spec (percentFee o) 0) as [E|]; [rewrite E; nia|].
  pose proof (quotient_nonneg (fee o) HUNDRED (percentFee o) ROUND_DOWN ltac:(lia) ltac:(done) ltac:(lia)).
  split; [lia|]. set (q := quotient _ _ _ _) in *.
  assert (q * percentFee o <= fee o * HUNDRED) by (apply floor_ge; lia). nia.
Qed.

(** [offerNeedsMore] is total on such offers, and decides this. *)
Definition needs_more (o : Offer) : Prop :=
  0 < baseAmount o /\ 0 < quoteAmount o /\
  (isBuy o = true -> price o <= spendable o * ONE /\ (exists q, getQuoteAmountBasedOnFee o = inr (true, q))).

Lemma needsMore_true o : offer_ok o -> offerNeedsMore o = inr true -> needs_more o.
Proof.
  intros Ho. unfold offerNeedsMore, needs_more. destruct (isBuy o) eqn:Eb.
  - destruct (getQuote_total o Ho) as (ok & q & Eq). rewrite Eq.
    destruct ok; [|done]. rewrite (getQuote_run o true q) by done.
    pose proof (spendable_bound o Ho) as [Hs _]. destruct Ho.
    rewrite bigDivide_s64_quotient; [|lia|destruct ONE_bound; lia|lia]. cbn zeta.
    destruct (Z.leb_spec (quotient (spendable o) ONE (price o) ROUND_DOWN) INT64_MAX);
      [|by destruct (_ <=? UINT64_MAX)].
    destruct (Z.eqb_spec (quotient (spendable o) ONE (price o) ROUND_DOWN) 0); [done|].
    intros [= E]. propify. split_and!; [done..|]. intros _. split; [|by exists q].
    assert (0 <= quotient (spendable o) ONE (price o) ROUND_DOWN)
      by (apply quotient_nonneg; [lia|done|lia]).
    pose proof (proj1 (floor_ge (spendable o) ONE (price o) 1 ltac:(lia)) ltac:(lia)). lia.
  - intros [= E]. propify. done.
Qed.

Lemma needsMore_total o : offer_ok o -> exists b, offerNeedsMore o = inr b.
Proof.
  intros Ho. unfold offerNeedsMore. destruct (isBuy o); [|by eexists].
  destruct (getQuote_total o Ho) as (ok & q & Eq). rewrite Eq. destruct ok; [|by eexists].
  rewrite (getQuote_run o true q) by done. pose proof (spendable_bound o Ho) as [Hs _]. destruct Ho.
  rewrite bigDivide_s64_quotient; [|lia|destruct ONE_bound; lia|lia]. simpl.
  repeat case_match; by eexists.
Qed.

(** ** A match *)

(** The conditions under which two offers are crossed. *)
Record crossing (buy sell : Offer) : Prop := {
  cr_buy : offer_ok buy;
  cr_sell : offer_ok sell;
  cr_isBuy : isBuy buy = true;
  cr_isSell : isBuy sell = false;
  cr_moreB : needs_more buy;
  cr_moreS : needs_more sell;
  cr_price : price sell <= price buy }.

(** What a match of them is. *)
Record match_ok (buy sell : Offer) (m : ExchangeResult) : Prop := {
  mk_base : 0 < baseDelta m <= Z.min (baseAmount buy) (baseAmount sell);
  mk_quote : 0 < quoteDelta m <= quoteAmount buy;
  mk_match : matchPrice m = getMatchPrice buy sell;
  mk_price : price sell <= matchPrice m <= price buy;
  mk_value : quoteDelta m = quotient (baseDelta m) (matchPrice m) ONE ROUND_UP;
  mk_buyerFee : 0 <= buyerFee m <= fee buy;
  mk_buyerPct : buyerFee m = quotient (quoteDelta m) (percentFee buy) HUNDRED ROUND_UP;
  mk_sellerFee : 0 <= sellerFee m <= quoteDelta m;
  mk_sellerPct : sellerFee m = quotient (quoteDelta m) (percentFee sell) HUNDRED ROUND_UP;
  mk_type : exType m = NORMAL }.

Lemma getMatchPrice_bound buy sell : price sell <= price buy ->
  price sell <= getMatchPrice buy sell <= price buy.
Proof. intros. unfold getMatchPrice. repeat case_match; lia. Qed.

Lemma getMatchPrice_value buy sell : offer_ok buy -> offer_ok sell ->
  Z.min (baseAmount buy) (baseAmount sell) * getMatchPrice buy sell <= INT64_MAX * ONE.
Proof.
  intros [] []. unfold getMatchPrice.
  destruct (Z.eqb_spec (baseAmount buy) (baseAmount sell)), (Z.ltb_spec (baseAmount sell) (baseAmount buy));
    try lia; nia.
Qed.

Lemma exchangeAmounts_spec bb lim sb sq p :
  0 < bb <= INT64_MAX -> 0 < sb <= INT64_MAX -> 0 < lim <= INT64_MAX -> 0 < p <= INT64_MAX ->
  p <= lim * ONE -> Z.min bb sb * p <= INT64_MAX * ONE ->
  exists bd qd, exchangeAmounts bb lim sb sq p = inr (mkResult bd qd 0 0 p NORMAL) /\
    0 < bd <= Z.min bb sb /\ 0 < qd <= lim /\ qd = quotient bd p ONE ROUND_UP.
Proof.
  intros Hb Hs Hl Hp Hpl Hv. pose proof ONE_bound as H1. unfold exchangeAmounts.
  assert (Hpos : forall b, 0 < b -> 0 < quotient b p ONE ROUND_UP).
  { intros b Hb0. destruct (Z.lt_ge_cases 0 (quotient b p ONE ROUND_UP)) as [|Hn]; [done|].
    apply ceil_le in Hn; [nia|lia]. }
  set (base := Z.min bb sb) in *.
  rewrite bigDivide_fits by (try lia; apply ceil_le; lia).
  destruct (Z.leb_spec (quotient base p ONE ROUND_UP) lim) as [Hq|Hq].
  { eexists _, _. split; [done|]. split; [lia|]. split; [|done]. split; [apply Hpos; lia|lia]. }
  assert (Hlt : lim * ONE < base * p).
  { destruct (Z.lt_ge_cases (lim * ONE) (base * p)) as [|Hn]; [done|].
    assert (quotient base p ONE ROUND_UP <= lim) by (apply ceil_le; lia). lia. }
  set (bd := quotient lim ONE p ROUND_DOWN).
  assert (Hbd1 : 1 <= bd) by (apply floor_ge; lia).
  assert (Hbd2 : bd * p <= lim * ONE) by (apply floor_ge; lia).
  assert (Hbd3 : bd < base) by nia.
  rewrite bigDivide_fits by lia. fold bd.
  assert (Hc : quotient bd p ONE ROUND_UP <= lim) by (apply ceil_le; lia).
  rewrite bigDivide_fits by lia.
  eexists _, _. split; [done|]. specialize (Hpos bd ltac:(lia)).
  destruct (Z.ltb_spec (quotient bd p ONE ROUND_UP) lim); split_and!; lia.
Qed.

(** [exchange] of two offers that cross gives a match, unless the fee of the seller
    eats all of it. *)
Lemma exchange_spec a b buy sell :
  buy = (if isBuy a then a else b) -> sell = (if isBuy a then b else a) -> crossing buy sell ->
  exists m, match_ok buy sell m /\
    exchangeOffers a b = if quoteDelta m <=? sellerFee m then inl feeTooHigh else inr m.
Proof.
  intros Eb Es [Hb Hs Ib _ Nb Ns Hp]. unfold exchangeOffers. rewrite <- Eb, <- Es.
  destruct Nb as (Nb1 & Nb2 & Nb3). destruct Ns as (Ns1 & _ & _).
  destruct (Nb3 Ib) as [Hsp [q Eq]]. rewrite Eq, (getQuote_run buy true q) by done.
  pose proof (spendable_bound buy Hb) as [Hl Hf].
  pose proof (getMatchPrice_bound buy sell Hp) as Hm.
  pose proof (getMatchPrice_value buy sell Hb Hs) as Hv.
  destruct Hb as [B1 B2 B3 B4 B5 B6 _], Hs as [S1 S2 S3 S4 S5 S6 _].
  set (p := getMatchPrice buy sell) in *. pose proof HUNDRED_bound. pose proof ONE_bound.
  assert (0 < spendable buy) by nia.
  destruct (exchangeAmounts_spec (baseAmount buy) (spendable buy) (baseAmount sell) (quoteAmount sell) p)
    as (bd & qd & E & Hbd & Hqd & Hval); [lia..|].
  rewrite E. cbn [quoteDelta baseDelta matchPrice exType]. unfold setFeeToPay.
  assert (Hbf : quotient qd (percentFee buy) HUNDRED ROUND_UP <= fee buy) by (apply ceil_le; nia).
  assert (Hsf : quotient qd (percentFee sell) HUNDRED ROUND_UP <= qd) by (apply ceil_le; nia).
  rewrite !bigDivide_fits by lia.
  exists (mkResult bd qd (quotient qd (percentFee buy) HUNDRED ROUND_UP)
    (quotient qd (percentFee sell) HUNDRED ROUND_UP) p NORMAL).
  pose proof (quotient_nonneg qd (percentFee buy) HUNDRED ROUND_UP ltac:(lia) ltac:(lia) ltac:(lia)).
  pose proof (quotient_nonneg qd (percentFee sell) HUNDRED ROUND_UP ltac:(lia) ltac:(lia) ltac:(lia)).
  split; [|done]. split; cbn [baseDelta quoteDelta buyerFee sellerFee matchPrice exType]; done || lia.
Qed.

(** ** What a match does to offers and balances *)

(** What an offer has locked. *)
Definition lockedOf (o : Offer) : Z := if isBuy o then quoteAmount o + fee o else baseAmount o.

(** What a match takes from it, and what its owner gets and gives. *)
Definition charge (o : Offer) (m : ExchangeResult) : Z :=
  if isBuy o then quoteDelta m + buyerFee m else baseDelta m.
Definition baseGain (o : Offer) (m : ExchangeResult) : Z := if isBuy o then baseDelta m else - baseDelta m.
Definition quoteGain (o : Offer) (m : ExchangeResult) : Z :=
  if isBuy o then - (quoteDelta m + buyerFee m) else quoteDelta m - sellerFee m.

(** The offer and its balances after a match. *)
Definition matchedOffer (o : Offer) (m : ExchangeResult) : Offer :=
  if isBuy o
  then set_amounts (baseAmount o - baseDelta m) (quoteAmount o - quoteDelta m) (fee o - buyerFee m) o
  else set_amounts (baseAmount o - baseDelta m) (Z.max (quoteAmount o - quoteDelta m) 0) (fee o) o.

Definition matchedBase (o : Offer) (m : ExchangeResult) (b : Balance) : Balance :=
  if isBuy o then set_amount (amount b + baseDelta m) b else set_locked (locked b - baseDelta m) b.

Definition matchedQuote (o : Offer) (m : ExchangeResult) (b : Balance) : Balance :=
  if isBuy o then set_locked (locked b - (quoteDelta m + buyerFee m)) b
  else set_amount (amount b + (quoteDelta m - sellerFee m)) b.

(** When the numbers of a match suit an offer. *)
Record suits (o : Offer) (m : ExchangeResult) : Prop := {
  su_base : 0 < baseDelta m <= baseAmount o;
  su_quote : 0 < quoteDelta m <= INT64_MAX;
  su_buyer : isBuy o = true -> quoteDelta m <= quoteAmount o /\ 0 <= buyerFee m <= fee o;
  su_seller : isBuy o = false -> 0 <= sellerFee m < quoteDelta m }.

Lemma suits_of_match buy sell m : crossing buy sell -> match_ok buy sell m -> sellerFee m < quoteDelta m ->
  suits buy m /\ suits sell m.
Proof.
  intros [Hb _ Ib Is _ _ _] [] Hf. destruct Hb. split; split; rewrite ?Ib, ?Is; try done; lia.
Qed.

Lemma charge_bound o m : offer_ok o -> suits o m -> 0 < charge o m <= lockedOf o.
Proof.
  intros [] []. unfold charge, lockedOf. destruct (isBuy o) eqn:E; [|lia].
  destruct (su_buyer0 eq_refl). lia.
Qed.

Lemma matched_locked o m : lockedOf (matchedOffer o m) = lockedOf o - charge o m.
Proof. unfold lockedOf, matchedOffer, charge. destruct (isBuy o) eqn:E; simpl; rewrite E; lia. Qed.

Lemma matched_ok o m : offer_ok o -> suits o m -> offer_ok (matchedOffer o m).
Proof.
  intros [] []. unfold matchedOffer. destruct (isBuy o) eqn:E.
  - destruct (su_buyer0 eq_refl). specialize (oo_locked0 eq_refl).
    split; simpl; intros; lia || nia.
  - split; simpl; intros; congruence || lia || nia.
Qed.

Lemma offerMatched_run NDEBUG o bb qb m : offer_ok o -> suits o m -> balance_ok bb -> balance_ok qb ->
  charge o m <= locked (if isBuy o then qb else bb) ->
  worth bb + baseGain o m <= INT64_MAX -> worth qb + quoteGain o m <= INT64_MAX ->
  offerMatched NDEBUG o bb qb m = inr (matchedOffer o m, matchedBase o m bb, matchedQuote o m qb).
Proof.
  intros [] [] Hb Hq Hc H1 H2. unfold offerMatched, assertX, charge, baseGain, quoteGain in *.
  unfold matchedOffer, matchedBase, matchedQuote. destruct (isBuy o) eqn:E.
  - destruct (su_buyer0 eq_refl) as [H3 H4]. specialize (oo_locked0 eq_refl).
    rewrite (proj2 (Z.leb_le 0 (buyerFee m))), orb_true_r by lia.
    rewrite (s64_id (quoteDelta m + buyerFee m)), !s64_id by (unfold INT64_MAX in *; lia).
    rewrite addBalance_ok by (done || (unfold balance_ok in *; lia)).
    rewrite addLocked_ok by (done || (unfold balance_ok in *; lia)). cbn [negb].
    cbn [baseAmount quoteAmount fee set_amounts].
    rewrite !(proj2 (Z.ltb_ge _ 0)) by lia. simpl. by rewrite Z.add_opp_r.
  - destruct (su_seller0 eq_refl) as [H3 H4].
    rewrite (s64_id (quoteDelta m - sellerFee m)) by (unfold INT64_MAX in *; lia).
    rewrite (proj2 (Z.leb_le 0 (sellerFee m))), (proj2 (Z.ltb_lt 0 (quoteDelta m - sellerFee m))),
      !orb_true_r by lia.
    rewrite !s64_id by (unfold INT64_MAX in *; lia).
    rewrite addLocked_ok by (done || (unfold balance_ok in *; lia)).
    rewrite addBalance_ok by (done || (unfold balance_ok in *; lia)). cbn [negb].
    cbn [baseAmount quoteAmount fee set_amounts].
    rewrite !(proj2 (Z.ltb_ge _ 0)) by lia. simpl. by rewrite Z.add_opp_r.
Qed.

(** Unlocking what an offer has locked. *)
Definition unlocked (x : Z) (b : Balance) : Balance := set_locked (locked b - x) (set_amount (amount b + x) b).

Definition unlockedBase (o : Offer) (b : Balance) : Balance := if isBuy o then b else unlocked (lockedOf o) b.
Definition unlockedQuote (o : Offer) (b : Balance) : Balance := if isBuy o then unlocked (lockedOf o) b else b.

Lemma unlockTaken_run o bb qb : offer_ok o -> balance_ok bb -> balance_ok qb ->
  lockedOf o <= locked (if isBuy o then qb else bb) ->
  unlockBalancesForTakenOffer o bb qb = inr (unlockedBase o bb, unlockedQuote o qb).
Proof.
  intros [] Hb Hq Hl. unfold unlockBalancesForTakenOffer, unlockedBase, unlockedQuote, lockedOf, unlocked in *.
  destruct (isBuy o).
  - specialize (oo_locked0 eq_refl).
    rewrite (s64_id (quoteAmount o + fee o)), s64_id by (unfold INT64_MAX in *; lia).
    rewrite lockBalance_ok by (done || (unfold balance_ok in *; lia)).
    by rewrite Z.sub_opp_r, Z.add_opp_r.
  - rewrite !s64_id by (unfold INT64_MAX in *; lia).
    rewrite lockBalance_ok by (done || (unfold balance_ok in *; lia)).
    by rewrite Z.sub_opp_r, Z.add_opp_r.
Qed.

Lemma unlocked_worth x b : worth (unlocked x b) = worth b.
Proof. unfold worth. simpl. lia. Qed.

Lemma matchedBase_worth o m b : worth (matchedBase o m b) = worth b + baseGain o m.
Proof. unfold worth, matchedBase, baseGain. destruct (isBuy o); simpl; lia. Qed.

Lemma matchedQuote_worth o m b : worth (matchedQuote o m b) = worth b + quoteGain o m.
Proof. unfold worth, matchedQuote, quoteGain. destruct (isBuy o); simpl; lia. Qed.
