(* ===== verification/ExchangeInv.v ===== *)
(** * The invariant of the book

    Every offer of the book is backed by what its owner has locked, and there is no
    more of an asset than an [int64_t] holds.  While an offer is matched, the rows of
    four balances are behind the frames: the invariant is about the balances as they
    will be written, [virt]. *)

From Stdlib Require Import ZArith Lia String.
From stdpp Require Import base tactics gmap option list.
From S2P Require Import Prelude UtilTypes Balance Offer OfferExchange ExchangeFacts.

Open Scope Z_scope.

Abbreviation Balances := (gmap N Balance) (only parsing).

(** ** Tables of balances *)

(** All of an asset there is. *)
Definition worthIn (asset : AssetCode) (b : Balance) : Z :=
  if decide (balanceAsset b = asset) then worth b else 0.
Definition total (asset : AssetCode) (m : Balances) : Z := msum (worthIn asset) m.

Record row_ok (i : BalanceID) (b : Balance) : Prop := {
  ro_id : balanceID b = i;
  ro_amount : 0 <= amount b;
  ro_locked : 0 <= locked b;
  ro_code : isAssetCodeValid (balanceAsset b) = true }.

Definition rows_ok (m : Balances) : Prop := forall (i : BalanceID) (b : Balance), m !! i = Some b -> row_ok i b.

Definition supply_ok (m : Balances) : Prop := forall asset : AssetCode, total asset m <= INT64_MAX.

(** The same balance with other amounts. *)
Definition sameRow (b b' : Balance) : Prop :=
  balanceID b' = balanceID b /\ balanceAccount b' = balanceAccount b /\ balanceAsset b' = balanceAsset b.

Definition upd (b : Balance) (m : Balances) : Balances := <[balanceID b := b]> m.

(** [holds m i who asset]: a balance of that account in that asset. *)
Definition holds (m : Balances) (i : BalanceID) (who : AccountID) (asset : AssetCode) : Prop :=
  exists b : Balance, m !! i = Some b /\ balanceAccount b = who /\ balanceAsset b = asset.

(** At least [L i] is locked in every balance. *)
Definition covers (m : Balances) (L : BalanceID -> Z) : Prop :=
  forall (i : BalanceID) (b : Balance), m !! i = Some b -> L i <= locked b.

Lemma sameRow_refl b : sameRow b b.
Proof. done. Qed.

Lemma sameRow_trans b1 b2 b3 : sameRow b1 b2 -> sameRow b2 b3 -> sameRow b1 b3.
Proof. unfold sameRow. intuition congruence. Qed.

Lemma sameRow_amount x b : sameRow b (set_amount x b).
Proof. done. Qed.

Lemma sameRow_locked x b : sameRow b (set_locked x b).
Proof. done. Qed.

Lemma sameRow_matchedBase o m b : sameRow b (matchedBase o m b).
Proof. unfold matchedBase. by case_match. Qed.

Lemma sameRow_matchedQuote o m b : sameRow b (matchedQuote o m b).
Proof. unfold matchedQuote. by case_match. Qed.

Lemma sameRow_unlockedBase o b : sameRow b (unlockedBase o b).
Proof. unfold unlockedBase. by case_match. Qed.

Lemma sameRow_unlockedQuote o b : sameRow b (unlockedQuote o b).
Proof. unfold unlockedQuote. by case_match. Qed.

Create HintDb dex.

#[export] Hint Resolve sameRow_refl sameRow_amount sameRow_locked sameRow_matchedBase sameRow_matchedQuote
  sameRow_unlockedBase sameRow_unlockedQuote : dex.

Section tables.
Implicit Types (m : Balances) (b : Balance).

Lemma upd_Some m b i c : upd b m !! i = Some c ->
  i = balanceID b /\ c = b \/ i <> balanceID b /\ m !! i = Some c.
Proof. unfold upd. intros [[]|[]]%lookup_insert_Some; [left|right]; by split. Qed.

Lemma worthIn_nonneg asset m i b : rows_ok m -> m !! i = Some b -> 0 <= worthIn asset b.
Proof. intros Hm Hi. destruct (Hm i b Hi). unfold worthIn, worth. case_decide; lia. Qed.

Lemma total_upd asset m b b' : m !! balanceID b = Some b -> sameRow b b' ->
  total asset (upd b' m) =
    total asset m + (if decide (balanceAsset b = asset) then worth b' - worth b else 0).
Proof.
  intros Hb (Ei & _ & Ea). unfold total, upd. rewrite Ei, (msum_update _ _ _ b) by done.
  unfold worthIn. rewrite Ea. case_decide; lia.
Qed.

Lemma upd_rows m b b' : rows_ok m -> m !! balanceID b = Some b -> sameRow b b' ->
  0 <= amount b' -> 0 <= locked b' -> rows_ok (upd b' m).
Proof.
  intros Hm Hb (Ei & _ & Ea) H1 H2 i c [[-> ->]|[_ Hc]]%upd_Some; [|by apply Hm].
  destruct (Hm _ _ Hb). by split; rewrite ?Ea.
Qed.

Lemma upd_holds m b b' i who asset : m !! balanceID b = Some b -> sameRow b b' ->
  holds m i who asset -> holds (upd b' m) i who asset.
Proof.
  intros Hb (Ei & Eo & Ea) (c & Hc & E1 & E2). unfold holds, upd.
  destruct (decide (i = balanceID b')) as [->|].
  - exists b'. rewrite lookup_insert_eq, Eo, Ea. replace b with c; [done|]. congruence.
  - exists c. by rewrite lookup_insert_ne.
Qed.

Lemma upd_covers m b b' L : m !! balanceID b = Some b -> sameRow b b' -> covers m L ->
  covers (upd b' m) (fun i => L i + (if decide (i = balanceID b) then locked b' - locked b else 0)).
Proof.
  intros Hb (Ei & _) HL i c [[-> ->]|[Hne Hc]]%upd_Some; cbn beta.
  - rewrite Ei, decide_True by done. specialize (HL _ _ Hb). lia.
  - rewrite decide_False by congruence. specialize (HL _ _ Hc). lia.
Qed.

Lemma covers_mono m L L' : (forall i, L' i <= L i) -> covers m L -> covers m L'.
Proof. intros Hle HL i b Hb. specialize (HL i b Hb). specialize (Hle i). lia. Qed.

(** Two balances of one asset are together within its supply. *)
Lemma total_two asset m b1 b2 : rows_ok m -> m !! balanceID b1 = Some b1 -> m !! balanceID b2 = Some b2 ->
  balanceID b1 <> balanceID b2 -> balanceAsset b1 = asset -> balanceAsset b2 = asset ->
  worth b1 + worth b2 <= total asset m.
Proof.
  intros Hm H1 H2 Hne E1 E2. unfold total. rewrite (msum_lookup _ m _ _ H1).
  assert (worthIn asset b2 <= msum (worthIn asset) (delete (balanceID b1) m)).
  { apply (msum_ge _ _ (balanceID b2)); [|by rewrite lookup_delete_ne].
    intros i b [_ Hb]%lookup_delete_Some. by apply (worthIn_nonneg _ m i). }
  unfold worthIn in *. rewrite !decide_True in * by done. lia.
Qed.

Lemma row_balance_ok m i b : rows_ok m -> supply_ok m -> m !! i = Some b -> balance_ok b.
Proof.
  intros Hm Hs Hi. pose proof (Hm i b Hi) as []. split_and!; [done..|].
  assert (Hge : worthIn (balanceAsset b) b <= total (balanceAsset b) m).
  { apply (msum_ge _ _ i); [|done]. intros j c. by apply worthIn_nonneg. }
  specialize (Hs (balanceAsset b)). unfold worthIn in Hge. rewrite decide_True in Hge by done. lia.
Qed.

End tables.

(** ** Several rows at once *)

(** Pairs of a row and what is written over it. *)
Definition rewriteRows (l : list (Balance * Balance)) (m : Balances) : Balances :=
  foldr (fun p m => upd p.2 m) m l.

Definition lsum {A} (f : A -> Z) (l : list A) : Z := foldr (fun a acc => f a + acc) 0 l.

Lemma lsum_cons {A} (f : A -> Z) a l : lsum f (a :: l) = f a + lsum f l.
Proof. done. Qed.

Record rewrites (l : list (Balance * Balance)) (m : Balances) : Prop := {
  rw_ids : NoDup (map (fun p => balanceID p.1) l);
  rw_rows : Forall (fun p => m !! balanceID p.1 = Some p.1 /\ sameRow p.1 p.2 /\
    0 <= amount p.2 /\ 0 <= locked p.2) l }.

Section rewriting.
Implicit Types (m : Balances) (l : list (Balance * Balance)).

Lemma rewrites_cons (p : Balance * Balance) l m : rewrites (p :: l) m ->
  rewrites l m /\ rewriteRows l m !! balanceID p.1 = Some p.1 /\ sameRow p.1 p.2 /\
  0 <= amount p.2 /\ 0 <= locked p.2.
Proof.
  intros [Hn Hf]. cbn [map] in Hn. apply NoDup_cons in Hn as [Hni Hn].
  apply Forall_cons in Hf as [(Hp & Hr) Hf]. split; [by split|]. split; [|done].
  rewrite <- Hp. clear Hn Hp Hr. induction l as [|q l IH]; [done|].
  cbn [map] in Hni. apply not_elem_of_cons in Hni as [H1 H2].
  apply Forall_cons in Hf as [(_ & (Ei & _) & _) Hf]. cbn [rewriteRows foldr].
  unfold upd. rewrite lookup_insert_ne by congruence. by apply IH.
Qed.

Lemma rewrite_rows l m : rewrites l m -> rows_ok m -> rows_ok (rewriteRows l m).
Proof.
  intros Hl Hm. induction l as [|p l IH]; [done|].
  apply rewrites_cons in Hl as (Hl & Hp & Hk & H1 & H2). cbn [rewriteRows foldr].
  apply (upd_rows _ p.1); [by apply IH|done..].
Qed.

Lemma rewrite_holds l m i who asset : rewrites l m -> holds m i who asset ->
  holds (rewriteRows l m) i who asset.
Proof.
  intros Hl Hm. induction l as [|p l IH]; [done|].
  apply rewrites_cons in Hl as (Hl & Hp & Hk & _). cbn [rewriteRows foldr].
  apply (upd_holds _ p.1); [done..|by apply IH].
Qed.

Lemma rewrite_total asset l m : rewrites l m ->
  total asset (rewriteRows l m) =
    total asset m + lsum (fun p => if decide (balanceAsset p.1 = asset) then worth p.2 - worth p.1 else 0) l.
Proof.
  intros Hl. induction l as [|p l IH]; [cbn [rewriteRows foldr lsum]; lia|].
  apply rewrites_cons in Hl as (Hl & Hp & Hk & _). rewrite lsum_cons.
  change (rewriteRows (p :: l) m) with (upd p.2 (rewriteRows l m)).
  rewrite (total_upd asset _ p.1), IH by done. lia.
Qed.

Lemma rewrite_covers l m L : rewrites l m -> covers m L ->
  covers (rewriteRows l m)
    (fun i => L i + lsum (fun p => if decide (i = balanceID p.1) then locked p.2 - locked p.1 else 0) l).
Proof.
  intros Hl HL. induction l as [|p l IH].
  { apply (covers_mono _ L); [|done]. intros i. cbn [lsum foldr]. lia. }
  apply rewrites_cons in Hl as (Hl & Hp & Hk & _).
  eapply covers_mono; [|apply (upd_covers _ p.1 p.2 _ Hp Hk (IH Hl))].
  intros i. rewrite lsum_cons. lia.
Qed.

End rewriting.

(** ** The book *)

(** What an offer has locked in the balance [i]. *)
Definition lockedOn (i : BalanceID) (o : Offer) : Z :=
  if decide (getLockedBalance o = i) then lockedOf o else 0.

Definition offersOn (i : BalanceID) (os : gmap Z Offer) : Z := msum (lockedOn i) os.

Section book.
Context (com : AccountID).

(** An offer of the book, over the balances [m]; the account for commissions does not
    trade. *)
Record book_offer (m : Balances) (j : Z) (o : Offer) : Prop := {
  bo_id : offerID o = j;
  bo_ok : offer_ok o;
  bo_more : offerNeedsMore o = inr true;
  bo_owner : ownerID o <> com;
  bo_assets : baseAsset o <> quoteAsset o;
  bo_base : holds m (baseBalance o) (ownerID o) (baseAsset o);
  bo_quote : holds m (quoteBalance o) (ownerID o) (quoteAsset o) }.

Record pair_ok (k : AssetCode * AssetCode) (p : AssetPair) : Prop := {
  po_key : (pairBase p, pairQuote p) = k;
  po_price : exists q, getMinAllowedPrice p = inr q }.

(** The tables between two operations. *)
Record book_ok (d : Db) : Prop := {
  bk_rows : rows_ok (dbBalances d);
  bk_supply : supply_ok (dbBalances d);
  bk_offers : forall (j : Z) (o : Offer), dbOffers d !! j = Some o -> book_offer (dbBalances d) j o;
  bk_covers : covers (dbBalances d) (fun i => offersOn i (dbOffers d));
  bk_pairs : forall k p, dbPairs d !! k = Some p -> pair_ok k p }.

(** The balances as they will be written. *)
Definition virt (x : Ex) : Balances :=
  upd (exCommission x) (upd (exBase x) (upd (exQuote x) (dbBalances (exDb x)))).

(** A frame of the balance [i], whose row is there. *)
Record frame_of (x : Ex) (b : Balance) (i : BalanceID) (who : AccountID) (asset : AssetCode) : Prop := {
  fo_id : balanceID b = i;
  fo_owner : balanceAccount b = who;
  fo_asset : balanceAsset b = asset;
  fo_row : holds (dbBalances (exDb x)) i who asset }.

(** The state between two matches. *)
Record ex_inv (x : Ex) : Prop := {
  xi_rows : rows_ok (virt x);
  xi_supply : supply_ok (virt x);
  xi_offers : forall (j : Z) (o : Offer), dbOffers (exDb x) !! j = Some o -> book_offer (virt x) j o;
  xi_covers : covers (virt x) (fun i => offersOn i (dbOffers (exDb x)) + lockedOn i (exOffer x));
  xi_ok : offer_ok (exOffer x);
  xi_owner : ownerID (exOffer x) <> com;
  xi_assets : baseAsset (exOffer x) <> quoteAsset (exOffer x);
  xi_base : frame_of x (exBase x) (baseBalance (exOffer x)) (ownerID (exOffer x)) (baseAsset (exOffer x));
  xi_quote : frame_of x (exQuote x) (quoteBalance (exOffer x)) (ownerID (exOffer x)) (quoteAsset (exOffer x));
  xi_com : frame_of x (exCommission x) (balanceID (exCommission x)) com (quoteAsset (exOffer x));
  xi_trail : exTrail x = [] -> dbBalances (exDb x) !! balanceID (exCommission x) = Some (exCommission x) }.

Lemma holds_inj (m : Balances) i who asset who' asset' : holds m i who asset -> holds m i who' asset' ->
  who = who' /\ asset = asset'.
Proof. intros (b & Hb & <- & <-) (b' & Hb' & <- & <-). by simplify_eq. Qed.

Lemma book_offer_rewrite (m : Balances) l j o : rewrites l m -> book_offer m j o ->
  book_offer (rewriteRows l m) j o.
Proof. intros Hl []. split; try done; by apply rewrite_holds. Qed.

Lemma lockedOn_nonneg i o : offer_ok o -> 0 <= lockedOn i o.
Proof. intros []. unfold lockedOn, lockedOf. repeat case_match; lia. Qed.

(** *** Where the frames are *)

Section frames.
Context (x : Ex) (Hx : ex_inv x).

Lemma frames_distinct : balanceID (exBase x) <> balanceID (exQuote x) /\
  balanceID (exCommission x) <> balanceID (exBase x) /\ balanceID (exCommission x) <> balanceID (exQuote x).
Proof.
  destruct Hx. destruct xi_base0 as [<- _ _ R1], xi_quote0 as [<- _ _ R2], xi_com0 as [_ _ _ R3].
  split_and!; intros E.
  - rewrite E in R1. by destruct (holds_inj _ _ _ _ _ _ R1 R2).
  - rewrite E in R3. destruct (holds_inj _ _ _ _ _ _ R1 R3). by apply xi_owner0.
  - rewrite E in R3. destruct (holds_inj _ _ _ _ _ _ R2 R3). by apply xi_owner0.
Qed.

Lemma virt_frames : virt x !! balanceID (exBase x) = Some (exBase x) /\
  virt x !! balanceID (exQuote x) = Some (exQuote x) /\
  virt x !! balanceID (exCommission x) = Some (exCommission x).
Proof.
  destruct frames_distinct as (H1 & H2 & H3). unfold virt, upd. split_and!.
  - by rewrite lookup_insert_ne, lookup_insert_eq.
  - by rewrite 2!lookup_insert_ne, lookup_insert_eq.
  - by rewrite lookup_insert_eq.
Qed.

(** A balance of anybody else is what its row says. *)
Lemma virt_other i b : balanceAccount b <> ownerID (exOffer x) -> balanceAccount b <> com ->
  virt x !! i = Some b -> dbBalances (exDb x) !! i = Some b /\
    i <> balanceID (exBase x) /\ i <> balanceID (exQuote x) /\ i <> balanceID (exCommission x).
Proof.
  destruct Hx. destruct xi_base0, xi_quote0, xi_com0. intros H1 H2. unfold virt.
  intros [[-> ->]|[N1 Hi]]%upd_Some; [done|].
  apply upd_Some in Hi as [[-> ->]|[N2 Hi]]; [done|].
  by apply upd_Some in Hi as [[-> ->]|[N3 Hi]].
Qed.

(** What the incoming offer has locked is there. *)
Lemma offers_nonneg i : 0 <= offersOn i (dbOffers (exDb x)).
Proof using Hx.
  apply msum_nonneg. intros j o Ho. apply lockedOn_nonneg, (bo_ok _ _ _ (xi_offers _ Hx j o Ho)).
Qed.

Lemma covered_in_flight : lockedOf (exOffer x) <= locked (if isBuy (exOffer x) then exQuote x else exBase x).
Proof using Hx.
  destruct virt_frames as (Vb & Vq & _). pose proof offers_nonneg as Hn.
  pose proof (xi_covers _ Hx) as Hcov. unfold covers, lockedOn, getLockedBalance in Hcov.
  pose proof (fo_id _ _ _ _ _ (xi_base _ Hx)) as Ib. pose proof (fo_id _ _ _ _ _ (xi_quote _ Hx)) as Iq.
  destruct (isBuy (exOffer x)).
  - specialize (Hcov _ _ Vq). specialize (Hn (balanceID (exQuote x))). rewrite decide_True in Hcov by done. lia.
  - specialize (Hcov _ _ Vb). specialize (Hn (balanceID (exBase x))). rewrite decide_True in Hcov by done. lia.
Qed.

End frames.

(** *** One step *)

(** The parts of an offer that matching leaves alone. *)
Record same_terms (o o' : Offer) : Prop := {
  st_id : offerID o' = offerID o;
  st_book : orderBookID o' = orderBookID o;
  st_owner : ownerID o' = ownerID o;
  st_buy : isBuy o' = isBuy o;
  st_base : baseAsset o' = baseAsset o;
  st_quote : quoteAsset o' = quoteAsset o;
  st_baseBalance : baseBalance o' = baseBalance o;
  st_quoteBalance : quoteBalance o' = quoteBalance o;
  st_price : price o' = price o }.

Lemma same_terms_refl o : same_terms o o.
Proof. done. Qed.

Lemma same_terms_trans o1 o2 o3 : same_terms o1 o2 -> same_terms o2 o3 -> same_terms o1 o3.
Proof. intros [] []. split; congruence. Qed.

Lemma matched_terms o m : same_terms o (matchedOffer o m).
Proof. unfold matchedOffer. by case_match. Qed.

Lemma book_offer_terms (m : Balances) j o o' : book_offer m j o -> same_terms o o' -> offer_ok o' ->
  offerNeedsMore o' = inr true -> book_offer m j o'.
Proof. intros [] [] H1 H2. split; congruence. Qed.

Lemma frame_of_kept x x' b b' i who asset : frame_of x b i who asset -> sameRow b b' ->
  (forall i who asset, holds (dbBalances (exDb x)) i who asset -> holds (dbBalances (exDb x')) i who asset) ->
  frame_of x' b' i who asset.
Proof. intros [] (E1 & E2 & E3) Hh. split; try congruence. by apply Hh. Qed.

Lemma ex_inv_step x x' l : ex_inv x -> rewrites l (virt x) -> virt x' = rewriteRows l (virt x) ->
  same_terms (exOffer x) (exOffer x') -> offer_ok (exOffer x') ->
  sameRow (exBase x) (exBase x') -> sameRow (exQuote x) (exQuote x') -> sameRow (exCommission x) (exCommission x') ->
  (forall i who asset, holds (dbBalances (exDb x)) i who asset -> holds (dbBalances (exDb x')) i who asset) ->
  (forall asset, lsum (fun p => if decide (balanceAsset p.1 = asset) then worth p.2 - worth p.1 else 0) l <= 0) ->
  (forall i, offersOn i (dbOffers (exDb x')) + lockedOn i (exOffer x') <=
    offersOn i (dbOffers (exDb x)) + lockedOn i (exOffer x) +
      lsum (fun p => if decide (i = balanceID p.1) then locked p.2 - locked p.1 else 0) l) ->
  (forall j o, dbOffers (exDb x') !! j = Some o ->
    dbOffers (exDb x) !! j = Some o \/ book_offer (virt x) j o) ->
  (exTrail x' = [] -> dbBalances (exDb x') !! balanceID (exCommission x') = Some (exCommission x')) ->
  ex_inv x'.
Proof.
  intros [] Hl Hv Ht Hok Kb Kq Kc Hh Hsum Hcov Hoff Htr. split; rewrite ?Hv; try done.
  - by apply rewrite_rows.
  - intros asset. rewrite rewrite_total by done. specialize (xi_supply0 asset). specialize (Hsum asset). lia.
  - intros j o Ho. apply book_offer_rewrite; [done|]. destruct (Hoff j o Ho); [by apply xi_offers0|done].
  - eapply covers_mono; [exact Hcov|]. by apply rewrite_covers.
  - by destruct Ht; rewrite st_owner0.
  - by destruct Ht; rewrite st_base0, st_quote0.
  - destruct Ht. rewrite st_baseBalance0, st_owner0, st_base0. by apply (frame_of_kept x x' (exBase x)).
  - destruct Ht. rewrite st_quoteBalance0, st_owner0, st_quote0. by apply (frame_of_kept x x' (exQuote x)).
  - destruct Ht. rewrite st_quote0. destruct (Kc) as (-> & _). by apply (frame_of_kept x x' (exCommission x)).
Qed.
End book.
