(* ===== verification/ExchangeSteps.v ===== *)
(** * Crossing offers

    One match keeps the invariant of [ExchangeInv] and moves funds without making
    any: what the base balances gain one loses, and of the quote asset the fees go to
    the account for commissions.  They get there inside an [assert]: compiled with
    [NDEBUG] they are taken from both sides and given to nobody. *)

From Stdlib Require Import ZArith Lia String.
From stdpp Require Import base tactics gmap option list.
From S2P Require Import Prelude UtilTypes Balance Offer OfferExchange ExchangeFacts ExchangeInv.

Open Scope Z_scope.

(** One step of a weakest precondition. *)
Ltac xstep :=
  lazymatch goal with
  | |- wp ?E (mbind _ _) _ _ => apply (wp_bind E)
  | |- wp ?E (gets _) _ _ => apply (wp_gets E)
  | |- wp ?E get _ _ => apply (wp_get E)
  | |- wp ?E (modify _) _ _ => apply (wp_modify E)
  | |- wp ?E (mret _) _ _ => apply (wp_ret E)
  end; cbn beta.

(** Discharges the hypotheses [a = a] of implications. *)
Ltac by_refl := repeat match goal with H : ?a = ?a -> _ |- _ => specialize (H eq_refl) end.

Lemma store_ok b d (row : Balance) : dbBalances d !! balanceID b = Some row -> row_ok (balanceID b) b ->
  storeChangeBalance b d = inr (set_balances (upd b (dbBalances d)) d).
Proof.
  intros Hr []. unfold storeChangeBalance, isBalanceValid.
  by rewrite ro_code, (proj2 (Z.leb_le _ _)), (proj2 (Z.leb_le _ _)), Hr.
Qed.

Lemma wp_store E b Q x (row : Balance) :
  dbBalances (exDb x) !! balanceID b = Some row -> row_ok (balanceID b) b ->
  Q () (set_exDb (set_balances (upd b (dbBalances (exDb x))) (exDb x)) x) ->
  wp E (onDb (storeChangeBalance b)) Q x.
Proof.
  intros Hr Hb HQ. unfold onDb. do 3 xstep. eapply wp_lift; [by apply (store_ok _ _ row)|]. by xstep.
Qed.

Lemma wp_loadBalance E id b Q x : dbBalances (exDb x) !! id = Some b -> Q b x -> wp E (loadBalance id) Q x.
Proof. intros Hb HQ. unfold loadBalance. do 2 xstep. by rewrite Hb. Qed.

Section crossing.
Context (NDEBUG : bool) (com : AccountID).

(** What the account for commissions gets of a fee. *)
Definition commissionGets (f : Z) (c : Balance) : Balance :=
  if NDEBUG then c else set_amount (amount c + f) c.

Lemma wp_assertCommission E f Q x : balance_ok (exCommission x) -> 0 <= f ->
  worth (exCommission x) + f <= INT64_MAX -> Q () (set_exCommission (commissionGets f (exCommission x)) x) ->
  wp E (assertCommission NDEBUG f) Q x.
Proof.
  intros Hc Hf Hw HQ. unfold assertCommission, commissionGets in *. destruct NDEBUG.
  - apply wp_ret. by destruct x.
  - do 2 xstep. rewrite addBalance_ok by (done || (unfold balance_ok in *; lia)). by do 2 xstep.
Qed.

(** The fees of a run, which are lost in a build with [NDEBUG]. *)
Definition feesPaid (cs : list ClaimOfferAtom) : Z := lsum (fun c => bFeePaid c + aFeePaid c) cs.

Definition vanished (asset : AssetCode) (x : Ex) : Z :=
  if NDEBUG && bool_decide (quoteAsset (exOffer x) = asset) then feesPaid (exTrail x) else 0.

Lemma feesPaid_snoc cs c : feesPaid (cs ++ [c]) = feesPaid cs + (bFeePaid c + aFeePaid c).
Proof. unfold feesPaid, lsum. induction cs as [|d cs IH]; simpl in *; lia. Qed.

(** The offer [b] of the book that is crossed next. *)
Record against (x : Ex) (b : Offer) : Prop := {
  ag_in : dbOffers (exDb x) !! offerID b = Some b;
  ag_other : ownerID b <> ownerID (exOffer x);
  ag_base : baseAsset b = baseAsset (exOffer x);
  ag_quote : quoteAsset b = quoteAsset (exOffer x);
  ag_side : isBuy b = negb (isBuy (exOffer x));
  ag_price : if isBuy (exOffer x) then price b <= price (exOffer x) else price (exOffer x) <= price b }.

(** Its balances. *)
Record parties (x : Ex) (b : Offer) (bb qb : Balance) : Prop := {
  pa_bb : dbBalances (exDb x) !! balanceID bb = Some bb;
  pa_qb : dbBalances (exDb x) !! balanceID qb = Some qb;
  pa_vbb : virt x !! balanceID bb = Some bb;
  pa_vqb : virt x !! balanceID qb = Some qb;
  pa_bid : balanceID bb = baseBalance b;
  pa_qid : balanceID qb = quoteBalance b;
  pa_basset : balanceAsset bb = baseAsset b;
  pa_qasset : balanceAsset qb = quoteAsset b;
  pa_ids : NoDup [balanceID (exCommission x); balanceID (exBase x); balanceID (exQuote x);
                  balanceID qb; balanceID bb] }.

Lemma parties_of x b : ex_inv com x -> dbOffers (exDb x) !! offerID b = Some b ->
  ownerID b <> ownerID (exOffer x) -> exists bb qb, parties x b bb qb.
Proof.
  intros Hx Hin Ho. destruct (xi_offers _ _ Hx _ _ Hin).
  destruct bo_base as (bb & Hb & Ob & Ab), bo_quote as (qb & Hq & Oq & Aq).
  pose proof (ro_id _ _ (xi_rows _ _ Hx _ _ Hb)) as Ib. pose proof (ro_id _ _ (xi_rows _ _ Hx _ _ Hq)) as Iq.
  destruct (virt_other com x Hx _ bb ltac:(congruence) ltac:(congruence) Hb) as (Db & B1 & B2 & B3).
  destruct (virt_other com x Hx _ qb ltac:(congruence) ltac:(congruence) Hq) as (Dq & Q1 & Q2 & Q3).
  destruct (frames_distinct com x Hx) as (F1 & F2 & F3).
  assert (baseBalance b <> quoteBalance b).
  { intros E. rewrite E in Hb. assert (bb = qb) by congruence. apply bo_assets. congruence. }
  exists bb, qb. split; rewrite ?Ib, ?Iq; try done.
  repeat (apply NoDup_cons; split; [set_solver|]). apply NoDup_nil_2.
Qed.

(** ** The state after a match *)

Definition paidCommission (m : ExchangeResult) (c : Balance) : Balance :=
  commissionGets (sellerFee m) (commissionGets (buyerFee m) c).

(** After the frames of A and of the commission have changed. *)
Definition matchedEx (x : Ex) (b : Offer) (m : ExchangeResult) : Ex :=
  mkEx (exDb x) (matchedOffer (exOffer x) m) (matchedBase (exOffer x) m (exBase x))
    (matchedQuote (exOffer x) m (exQuote x)) (paidCommission m (exCommission x))
    (exTrail x ++ [createOfferClaim (matchedOffer b m) m])
    (s64 (exFeePaidByA x + (if isBuy (matchedOffer (exOffer x) m) then buyerFee m else sellerFee m))) (exCode x).

(** After the balances of B have been written too. *)
Definition settledEx (x : Ex) (b : Offer) (m : ExchangeResult) (bb qb : Balance) (os : gmap Z Offer) : Ex :=
  set_exDb (mkDb (upd qb (upd bb (dbBalances (exDb x)))) os (dbPairs (exDb x))) (matchedEx x b m).

Lemma sameRow_paid m c : sameRow c (paidCommission m c).
Proof. unfold paidCommission, commissionGets. by destruct NDEBUG. Qed.

Lemma paid_worth m c : worth (paidCommission m c) = worth c + (if NDEBUG then 0 else buyerFee m + sellerFee m).
Proof. unfold paidCommission, commissionGets, worth. destruct NDEBUG; simpl; lia. Qed.

Lemma paid_locked m c : locked (paidCommission m c) = locked c.
Proof. unfold paidCommission, commissionGets. by destruct NDEBUG. Qed.

Lemma paid_amount m c : 0 <= amount c -> 0 <= buyerFee m -> 0 <= sellerFee m -> 0 <= amount (paidCommission m c).
Proof. unfold paidCommission, commissionGets. destruct NDEBUG; simpl; lia. Qed.

(** The rows that a match rewrites. *)
Definition matchRows (x : Ex) (m : ExchangeResult) (bb qb bb' qb' : Balance) : list (Balance * Balance) :=
  [(exCommission x, paidCommission m (exCommission x));
   (exBase x, matchedBase (exOffer x) m (exBase x));
   (exQuote x, matchedQuote (exOffer x) m (exQuote x)); (qb, qb'); (bb, bb')].

Lemma virt_settled x b m bb qb bb' qb' os :
  virt (settledEx x b m bb' qb' os) = rewriteRows (matchRows x m bb qb bb' qb') (virt x).
Proof.
  destruct (sameRow_paid m (exCommission x)) as (Ec & _).
  destruct (sameRow_matchedBase (exOffer x) m (exBase x)) as (Eb & _).
  destruct (sameRow_matchedQuote (exOffer x) m (exQuote x)) as (Eq & _).
  unfold virt, settledEx, matchRows, rewriteRows, upd.
  cbn [foldr fst snd set_exDb matchedEx exDb exCommission exBase exQuote dbBalances].
  rewrite Ec, Eb, Eq. apply map_eq. intros i.
  rewrite !lookup_insert. repeat case_decide; done || congruence.
Qed.

(** What is written for B: [left] stays locked for what is left of the offer. *)
Record written (b : Offer) (m : ExchangeResult) (left : Z) (bb qb bb' qb' : Balance) : Prop := {
  wr_bkept : sameRow bb bb';
  wr_qkept : sameRow qb qb';
  wr_bworth : worth bb' = worth bb + baseGain b m;
  wr_qworth : worth qb' = worth qb + quoteGain b m;
  wr_bamount : 0 <= amount bb';
  wr_qamount : 0 <= amount qb';
  wr_bnonneg : 0 <= locked bb';
  wr_qnonneg : 0 <= locked qb';
  wr_blocked : locked bb' = locked bb - (if isBuy b then 0 else lockedOf b - left);
  wr_qlocked : locked qb' = locked qb - (if isBuy b then lockedOf b - left else 0) }.

Section match_step.
Context (x : Ex) (b : Offer) (m : ExchangeResult) (bb qb bb' qb' : Balance) (os : gmap Z Offer) (left : Z).
Context (Hx : ex_inv com x) (Hag : against x b) (Hpa : parties x b bb qb).
Context (Hsa : suits (exOffer x) m) (Hsb : suits b m) (Hbf : 0 <= buyerFee m) (Hsf : 0 <= sellerFee m).
Context (Hw : written b m left bb qb bb' qb').

Lemma covered_charge : charge (exOffer x) m <= locked (if isBuy (exOffer x) then exQuote x else exBase x).
Proof using Hx Hsa.
  pose proof (charge_bound _ _ (xi_ok _ _ Hx) Hsa) as [_ Hc]. pose proof (covered_in_flight com x Hx). lia.
Qed.

Lemma match_rewrites : rewrites (matchRows x m bb qb bb' qb') (virt x).
Proof using Hx Hpa Hsa Hbf Hsf Hw.
  destruct Hw, Hpa. destruct (virt_frames com x Hx) as (Vb & Vq & Vc).
  pose proof (xi_rows _ _ Hx _ _ Vb) as []. pose proof (xi_rows _ _ Hx _ _ Vq) as [].
  pose proof (xi_rows _ _ Hx _ _ Vc) as []. pose proof covered_charge as Hc.
  split; [exact pa_ids0|]. unfold matchRows. repeat apply Forall_cons_2; cbn [fst snd]; [..|apply Forall_nil_2].
  - split_and!; [done|apply sameRow_paid|by apply paid_amount|by rewrite paid_locked].
  - split; [done|]. split; [apply sameRow_matchedBase|]. destruct Hsa.
    unfold matchedBase, charge in *. destruct (isBuy (exOffer x)); cbn [amount locked set_amount set_locked]; lia.
  - split; [done|]. split; [apply sameRow_matchedQuote|]. destruct Hsa.
    unfold matchedQuote, charge in *. destruct (isBuy (exOffer x)); cbn [amount locked set_amount set_locked].
    + lia.
    + specialize (su_seller eq_refl). lia.
  - done.
  - done.
Qed.

(** Nothing is made; the fees get to the commission, or nowhere. *)
Lemma match_worth asset :
  lsum (fun p => if decide (balanceAsset p.1 = asset) then worth p.2 - worth p.1 else 0)
    (matchRows x m bb qb bb' qb') =
  if NDEBUG && bool_decide (quoteAsset (exOffer x) = asset) then - (buyerFee m + sellerFee m) else 0.
Proof using Hx Hag Hpa Hw.
  destruct Hw, Hpa, Hag. unfold matchRows. rewrite !lsum_cons. cbn [fst snd lsum foldr].
  rewrite paid_worth, matchedBase_worth, matchedQuote_worth, wr_bworth0, wr_qworth0.
  rewrite pa_basset0, pa_qasset0, ag_base0, ag_quote0.
  rewrite (fo_asset _ _ _ _ _ (xi_base _ _ Hx)), (fo_asset _ _ _ _ _ (xi_quote _ _ Hx)),
    (fo_asset _ _ _ _ _ (xi_com _ _ Hx)).
  pose proof (xi_assets _ _ Hx) as Hne. unfold baseGain, quoteGain. rewrite ag_side0.
  destruct NDEBUG; destruct (isBuy (exOffer x)); simpl; repeat case_decide; try congruence;
    try (rewrite bool_decide_true by done); try (rewrite bool_decide_false by done); lia.
Qed.

Lemma match_locked i :
  lsum (fun p => if decide (i = balanceID p.1) then locked p.2 - locked p.1 else 0)
    (matchRows x m bb qb bb' qb') =
  - (if decide (getLockedBalance (exOffer x) = i) then charge (exOffer x) m else 0)
  - (if decide (getLockedBalance b = i) then lockedOf b - left else 0).
Proof using Hx Hag Hpa Hw.
  destruct Hw, Hpa, Hag. unfold matchRows. rewrite !lsum_cons. cbn [fst snd lsum foldr].
  rewrite paid_locked, wr_blocked0, wr_qlocked0, pa_bid0, pa_qid0.
  rewrite (fo_id _ _ _ _ _ (xi_base _ _ Hx)), (fo_id _ _ _ _ _ (xi_quote _ _ Hx)).
  unfold matchedBase, matchedQuote, charge, getLockedBalance. rewrite ag_side0.
  destruct (isBuy (exOffer x)); cbn [negb locked set_amount set_locked];
    repeat case_decide; try congruence; lia.
Qed.

Context (Hos : forall i, offersOn i os =
  offersOn i (dbOffers (exDb x)) - (if decide (getLockedBalance b = i) then lockedOf b - left else 0)).
Context (Hin : forall j o, os !! j = Some o ->
  dbOffers (exDb x) !! j = Some o \/ book_offer com (virt x) j o).

Lemma settled_holds i who asset : holds (dbBalances (exDb x)) i who asset ->
  holds (upd qb' (upd bb' (dbBalances (exDb x)))) i who asset.
Proof using Hpa Hw.
  destruct Hpa, Hw. intros Hh. apply (upd_holds _ qb); [|done|].
  - unfold upd. rewrite lookup_insert_ne; [done|]. destruct wr_bkept0 as [-> _].
    apply NoDup_cons in pa_ids0 as [_ pa_ids0]. do 2 apply NoDup_cons in pa_ids0 as [_ pa_ids0].
    apply NoDup_cons in pa_ids0 as [Hn _]. apply not_elem_of_cons in Hn as [Hn _]. by apply not_eq_sym.
  - by apply (upd_holds _ bb).
Qed.

Lemma settled_inv : ex_inv com (settledEx x b m bb' qb' os).
Proof using All.
  apply (ex_inv_step com x _ (matchRows x m bb qb bb' qb')); try done.
  - by apply match_rewrites.
  - apply virt_settled.
  - apply matched_terms.
  - apply matched_ok; [apply (xi_ok _ _ Hx)|done].
  - apply sameRow_matchedBase.
  - apply sameRow_matchedQuote.
  - apply sameRow_paid.
  - apply settled_holds.
  - intros asset. rewrite match_worth. case_match; lia.
  - intros i. rewrite match_locked. cbn [settledEx set_exDb matchedEx exDb dbOffers exOffer].
    rewrite Hos. unfold lockedOn. destruct (matched_terms (exOffer x) m).
    unfold getLockedBalance. rewrite st_buy, st_quoteBalance, st_baseBalance, matched_locked.
    repeat case_decide; lia.
  - cbn [settledEx set_exDb matchedEx exTrail]. by destruct (exTrail x).
Qed.

Lemma settled_conserves asset :
  total asset (virt (settledEx x b m bb' qb' os)) + vanished asset (settledEx x b m bb' qb' os) =
  total asset (virt x) + vanished asset x.
Proof using All.
  rewrite (virt_settled x b m bb qb), rewrite_total by apply match_rewrites.
  rewrite match_worth. unfold vanished. cbn [settledEx set_exDb matchedEx exTrail exOffer].
  destruct (matched_terms (exOffer x) m). rewrite st_quote, feesPaid_snoc.
  unfold createOfferClaim. cbn [bFeePaid aFeePaid]. repeat case_match; lia.
Qed.

End match_step.

(** ** The funds of both sides *)

(** What an offer of the book has locked is there. *)
Lemma covered_offer x b bb qb : ex_inv com x -> dbOffers (exDb x) !! offerID b = Some b -> parties x b bb qb ->
  lockedOf b <= locked (if isBuy b then qb else bb).
Proof.
  intros Hx Hin [].
  pose proof (lockedOn_nonneg (getLockedBalance b) _ (xi_ok _ _ Hx)) as HA.
  assert (lockedOf b <= offersOn (getLockedBalance b) (dbOffers (exDb x))).
  { replace (lockedOf b) with (lockedOn (getLockedBalance b) b)
      by (unfold lockedOn; by rewrite decide_True).
    apply (msum_ge _ _ (offerID b)); [|done]. intros j o Ho. apply lockedOn_nonneg.
    apply (bo_ok _ _ _ _ (xi_offers _ _ Hx j o Ho)). }
  pose proof (xi_covers _ _ Hx _ _ pa_vbb0) as C1. pose proof (xi_covers _ _ Hx _ _ pa_vqb0) as C2.
  cbn beta in C1, C2. rewrite pa_bid0 in C1. rewrite pa_qid0 in C2. unfold getLockedBalance in *.
  destruct (isBuy b); lia.
Qed.

Section funds.
Context (x : Ex) (b : Offer) (bb qb : Balance) (m : ExchangeResult).
Context (Hx : ex_inv com x) (Hag : against x b) (Hpa : parties x b bb qb).
Context (Hsa : suits (exOffer x) m) (Hsb : suits b m).

Lemma charge_there : charge b m <= locked (if isBuy b then qb else bb).
Proof using Hx Hag Hpa Hsb.
  pose proof (covered_offer x b bb qb Hx (ag_in _ _ Hag) Hpa) as H1.
  pose proof (charge_bound b m (bo_ok _ _ _ _ (xi_offers _ _ Hx _ _ (ag_in _ _ Hag))) Hsb). lia.
Qed.

Lemma gains_fit :
  (worth (exBase x) + baseGain (exOffer x) m <= INT64_MAX /\
   worth (exQuote x) + quoteGain (exOffer x) m <= INT64_MAX) /\
  (worth bb + baseGain b m <= INT64_MAX /\ worth qb + quoteGain b m <= INT64_MAX) /\
  worth (exCommission x) + (buyerFee m + sellerFee m) <= INT64_MAX.
Proof using Hx Hag Hpa Hsa Hsb.
  pose proof charge_there as Cb. pose proof (covered_charge x m Hx Hsa) as Ca.
  destruct (virt_frames com x Hx) as (Vb & Vq & Vc), (frames_distinct com x Hx) as (F1 & F2 & F3).
  destruct Hpa, Hag, Hsa, Hsb. pose proof (xi_rows _ _ Hx) as Hr.
  apply NoDup_cons in pa_ids0 as [N1 [N2 [N3 [N4 _]%NoDup_cons]%NoDup_cons]%NoDup_cons].
  rewrite !not_elem_of_cons in *.
  pose proof (xi_supply _ _ Hx (baseAsset (exOffer x))) as Sb.
  pose proof (xi_supply _ _ Hx (quoteAsset (exOffer x))) as Sq.
  pose proof (fo_asset _ _ _ _ _ (xi_base _ _ Hx)). pose proof (fo_asset _ _ _ _ _ (xi_quote _ _ Hx)).
  pose proof (fo_asset _ _ _ _ _ (xi_com _ _ Hx)).
  pose proof (total_two (baseAsset (exOffer x)) _ (exBase x) bb Hr Vb pa_vbb0 ltac:(tauto) ltac:(done)
    ltac:(congruence)) as T1.
  pose proof (total_two (quoteAsset (exOffer x)) _ (exQuote x) qb Hr Vq pa_vqb0 ltac:(tauto) ltac:(done)
    ltac:(congruence)) as T2.
  pose proof (total_two (quoteAsset (exOffer x)) _ (exCommission x) qb Hr Vc pa_vqb0 ltac:(tauto) ltac:(done)
    ltac:(congruence)) as T3.
  pose proof (total_two (quoteAsset (exOffer x)) _ (exCommission x) (exQuote x) Hr Vc Vq ltac:(tauto)
    ltac:(done) ltac:(congruence)) as T4.
  clear N1 N2 N3 N4 F1 F2 F3. destruct (Hr _ _ Vb), (Hr _ _ Vq), (Hr _ _ Vc), (Hr _ _ pa_vbb0), (Hr _ _ pa_vqb0).
  unfold charge, baseGain, quoteGain, worth in *. rewrite ag_side0 in *.
  destruct (isBuy (exOffer x)); cbn [negb] in *;
    by_refl; lia.
Qed.

(** What B has after the match, and after what is left of it is unlocked. *)
Lemma written_partial : 0 <= sellerFee m ->
  written b m (lockedOf (matchedOffer b m)) bb qb (matchedBase b m bb) (matchedQuote b m qb).
Proof using Hx Hag Hpa Hsb.
  intros Hsf. pose proof charge_there as Hc. destruct Hpa. destruct Hsb.
  destruct (xi_rows _ _ Hx _ _ pa_vbb0), (xi_rows _ _ Hx _ _ pa_vqb0).
  split; rewrite ?matched_locked; try apply sameRow_matchedBase; try apply sameRow_matchedQuote;
    try apply matchedBase_worth; try apply matchedQuote_worth;
    unfold matchedBase, matchedQuote, charge in *; destruct (isBuy b);
    cbn [amount locked set_amount set_locked]; by_refl; lia.
Qed.

Lemma written_taken : 0 <= sellerFee m ->
  written b m 0 bb qb (unlockedBase (matchedOffer b m) (matchedBase b m bb))
    (unlockedQuote (matchedOffer b m) (matchedQuote b m qb)).
Proof using Hx Hag Hpa Hsb.
  intros Hsf. destruct (written_partial Hsf).
  pose proof (covered_offer x b bb qb Hx (ag_in _ _ Hag) Hpa) as Hcov.
  pose proof (charge_bound b m (bo_ok _ _ _ _ (xi_offers _ _ Hx _ _ (ag_in _ _ Hag))) Hsb) as Hch.
  rewrite matched_locked in *. unfold unlockedBase, unlockedQuote. rewrite matched_locked.
  destruct (matched_terms b m). rewrite st_buy.
  destruct (isBuy b) eqn:E; split; rewrite ?E; try done; rewrite ?unlocked_worth; try done;
    cbn [amount locked unlocked set_amount set_locked]; lia.
Qed.

End funds.

(** ** [crossOffer] *)

(** What it has done. *)
Record crossed (x : Ex) (b : Offer) (r : CrossOfferResult) (x' : Ex) : Prop := {
  cs_inv : ex_inv com x';
  cs_terms : same_terms (exOffer x) (exOffer x');
  cs_worth : forall asset, total asset (virt x') + vanished asset x' = total asset (virt x) + vanished asset x;
  cs_taken : r = eOfferTaken -> dbOffers (exDb x') = delete (offerID b) (dbOffers (exDb x));
  cs_new : forall j, dbOffers (exDb x) !! j = None -> dbOffers (exDb x') !! j = None;
  cs_result : r <> eOfferCantConvert;
  cs_pairs : dbPairs (exDb x') = dbPairs (exDb x);
  cs_code : exCode x' = exCode x }.

Lemma offersOn_delete x b i : dbOffers (exDb x) !! offerID b = Some b ->
  offersOn i (delete (offerID b) (dbOffers (exDb x))) =
  offersOn i (dbOffers (exDb x)) - (if decide (getLockedBalance b = i) then lockedOf b - 0 else 0).
Proof.
  intros Hin. unfold offersOn. rewrite (msum_delete _ _ _ b) by done. unfold lockedOn. case_decide; lia.
Qed.

Lemma offersOn_update x b b' i : dbOffers (exDb x) !! offerID b = Some b -> same_terms b b' ->
  offersOn i (<[offerID b := b']> (dbOffers (exDb x))) =
  offersOn i (dbOffers (exDb x)) - (if decide (getLockedBalance b = i) then lockedOf b - lockedOf b' else 0).
Proof.
  intros Hin []. unfold offersOn. rewrite (msum_update _ _ _ b) by done. unfold lockedOn, getLockedBalance.
  rewrite st_buy, st_quoteBalance, st_baseBalance. case_decide; lia.
Qed.

Lemma matched_step x b m bb qb taken : ex_inv com x -> against x b -> parties x b bb qb ->
  suits (exOffer x) m -> suits b m -> 0 <= buyerFee m -> 0 <= sellerFee m ->
  offerNeedsMore (matchedOffer b m) = inr (negb taken) ->
  let b' := matchedOffer b m in
  crossed x b (if taken then eOfferTaken else eOfferPartial)
    (if taken then settledEx x b m (unlockedBase b' (matchedBase b m bb)) (unlockedQuote b' (matchedQuote b m qb))
       (delete (offerID b) (dbOffers (exDb x)))
     else settledEx x b m (matchedBase b m bb) (matchedQuote b m qb) (<[offerID b := b']> (dbOffers (exDb x)))).
Proof.
  intros Hx Hag Hpa Hsa Hsb Hbf Hsf Hmore b'.
  pose proof (xi_offers _ _ Hx _ _ (ag_in _ _ Hag)) as Hbo.
  destruct taken.
  - assert (Hin : forall j o, delete (offerID b) (dbOffers (exDb x)) !! j = Some o ->
      dbOffers (exDb x) !! j = Some o \/ book_offer com (virt x) j o).
    { intros j o [_ Ho]%lookup_delete_Some. by left. }
    pose proof (written_taken x b bb qb m Hx Hag Hpa Hsb Hsf) as Hw.
    pose proof (fun i => offersOn_delete x b i (ag_in _ _ Hag)) as Hos.
    split; try done.
    + by apply (settled_inv x b m bb qb _ _ _ 0).
    + apply matched_terms.
    + intros asset. by apply (settled_conserves x b m bb qb _ _ _ 0).
    + intros j Hj. apply lookup_delete_None. by right.
  - assert (Hin : forall j o, <[offerID b := b']> (dbOffers (exDb x)) !! j = Some o ->
      dbOffers (exDb x) !! j = Some o \/ book_offer com (virt x) j o).
    { intros j o [[<- <-]|[_ Ho]]%lookup_insert_Some; [right|by left].
      apply (book_offer_terms _ _ _ b); [done|apply matched_terms|apply matched_ok; [by destruct Hbo|done]|done]. }
    pose proof (written_partial x b bb qb m Hx Hag Hpa Hsb Hsf) as Hw.
    pose proof (fun i => offersOn_update x b b' i (ag_in _ _ Hag) (matched_terms b m)) as Hos.
    split; try done.
    + by apply (settled_inv x b m bb qb _ _ _ (lockedOf b')).
    + apply matched_terms.
    + intros asset. by apply (settled_conserves x b m bb qb _ _ _ (lockedOf b')).
    + intros j Hj. apply lookup_insert_None. split; [done|]. intros <-. pose proof (ag_in _ _ Hag). congruence.
Qed.

End crossing.
