(* ===== verification/ExchangeTheorems.v ===== *)
(** * Running the exchange

    [crossOffer], the loop over a batch and [convertWithOffers] keep the invariant;
    the only thing they throw is that the fee of a seller eats a whole match. *)

From Stdlib Require Import ZArith Lia String.
From stdpp Require Import sorting.
From stdpp Require Import base tactics gmap option list.
From S2P Require Import Prelude UtilTypes Balance Offer OfferExchange CreateOffer.
From S2P Require Import ExchangeFacts ExchangeInv ExchangeSteps.

Open Scope Z_scope.

(** The one exception of the exchange. *)
Definition onlyFee {W} (e : exn) (_ : W) : Prop := e = feeTooHigh.

(** ** A match *)

(** C28. [OfferExchange::exchange] of an offer that buys and an offer that sells, both
    wanting more and at prices that cross, on either side of the call: it throws that
    the fee is too high, or gives a match in which no more of the base asset changes
    hands than either has left, at a price between the two prices, for the value
    rounded up, which the buyer has left, with the fees that the percents give rounded
    up, of which the buyer has locked its own and the seller gets more than its own;
    it never overflows. *)
Theorem exchange_sound a b buy sell :
  buy = (if isBuy a then a else b) -> sell = (if isBuy a then b else a) -> crossing buy sell ->
  exchangeOffers a b = inl feeTooHigh \/
  exists m, exchangeOffers a b = inr m /\ match_ok buy sell m /\ sellerFee m < quoteDelta m.
Proof.
  intros Eb Es Hc. destruct (exchange_spec a b buy sell Eb Es Hc) as (m & Hm & ->).
  destruct (Z.leb_spec (quoteDelta m) (sellerFee m)); [by left|right]. by exists m.
Qed.

(** A match that is worth at most one unit of the quote asset, against an offer
    that sells and pays a percentage however small, always throws: the fee is rounded
    up to the whole match.  An offer whose rest is that small cannot be bought and,
    being the best, keeps what is behind it from being bought. *)
Theorem dust_match_throws a b buy sell :
  buy = (if isBuy a then a else b) -> sell = (if isBuy a then b else a) -> crossing buy sell ->
  Z.min (baseAmount buy) (baseAmount sell) * getMatchPrice buy sell <= ONE -> 0 < percentFee sell ->
  exchangeOffers a b = inl feeTooHigh.
Proof.
  intros Eb Es Hc Hsmall Hp. destruct (exchange_spec a b buy sell Eb Es Hc) as (m & [] & ->).
  pose proof ONE_bound. pose proof HUNDRED_bound. destruct Hc as [[] [] _ _ _ _ Hcr].
  assert (quoteDelta m <= 1).
  { rewrite mk_value. apply ceil_le; [lia|]. rewrite mk_match. nia. }
  assert (0 < sellerFee m); [|by rewrite (proj2 (Z.leb_le _ _)) by lia].
  destruct (Z.lt_ge_cases 0 (sellerFee m)) as [|Hn]; [done|].
  rewrite mk_sellerPct in Hn. apply ceil_le in Hn; nia.
Qed.

Section crossing.
Context (NDEBUG : bool) (com : AccountID).

(** ** An offer below the minimal price is cancelled *)

Lemma virt_base x b bb qb bb' os : parties x b bb qb -> sameRow bb bb' ->
  virt (set_exDb (mkDb (upd bb' (dbBalances (exDb x))) os (dbPairs (exDb x))) x) =
  rewriteRows [(bb, bb')] (virt x).
Proof.
  intros [] (Ei & _). unfold virt, rewriteRows, upd.
  cbn [foldr fst snd set_exDb exDb exCommission exBase exQuote dbBalances]. rewrite Ei.
  apply NoDup_cons in pa_ids as [N1 [N2 [N3 [N4 _]%NoDup_cons]%NoDup_cons]%NoDup_cons].
  rewrite !not_elem_of_cons in *. apply map_eq. intros i.
  rewrite !lookup_insert. repeat case_decide; naive_solver.
Qed.

Lemma cancelled_step x b bb qb : ex_inv com x -> against x b -> parties x b bb qb ->
  crossed NDEBUG com x b eOfferTaken
    (set_exDb (mkDb (upd (unlockedBase b bb) (dbBalances (exDb x)))
      (delete (offerID b) (dbOffers (exDb x))) (dbPairs (exDb x))) x).
Proof.
  intros Hx Hag Hpa. set (x' := set_exDb _ x). pose proof (sameRow_unlockedBase b bb) as Hk.
  pose proof (virt_base x b bb qb _ (delete (offerID b) (dbOffers (exDb x))) Hpa Hk) as Hv. fold x' in Hv.
  pose proof (covered_offer com x b bb qb Hx (ag_in _ _ Hag) Hpa) as Hcov.
  destruct (bo_ok _ _ _ _ (xi_offers _ _ Hx _ _ (ag_in _ _ Hag))).
  destruct (xi_rows _ _ Hx _ _ (pa_vbb _ _ _ _ Hpa)).
  assert (Hlo : 0 <= lockedOf b) by (unfold lockedOf; case_match; lia).
  assert (Hw : worth (unlockedBase b bb) = worth bb).
  { unfold unlockedBase. case_match; [done|apply unlocked_worth]. }
  assert (Hr : rewrites [(bb, unlockedBase b bb)] (virt x)).
  { split; [apply NoDup_singleton|]. apply Forall_singleton. cbn [fst snd]. split; [by destruct Hpa|].
    split; [done|]. unfold unlockedBase in *.
    destruct (isBuy b); cbn [amount locked unlocked set_amount set_locked]; lia. }
  split; try done.
  - apply (ex_inv_step com x x' [(bb, unlockedBase b bb)]); try done.
    + by destruct Hx.
    + intros i who asset. apply (upd_holds _ bb); [by destruct Hpa|done].
    + intros asset. rewrite lsum_cons. cbn [fst snd lsum foldr]. rewrite Hw. case_decide; lia.
    + intros i. cbn [x' set_exDb exDb dbOffers exOffer].
      rewrite (offersOn_delete x b i (ag_in _ _ Hag)), lsum_cons. cbn [fst snd lsum foldr].
      rewrite (pa_bid _ _ _ _ Hpa). unfold unlockedBase, getLockedBalance, lockedOf in *.
      destruct (isBuy b); cbn [locked unlocked set_amount set_locked]; repeat case_decide; congruence || lia.
    + intros j o Ho. cbn [x' set_exDb exDb dbOffers] in Ho. apply lookup_delete_Some in Ho as [_ Ho]. by left.
    + intros Ht. cbn [x' set_exDb exDb dbBalances exCommission]. unfold upd.
      destruct Hpa, Hk as (-> & _). apply NoDup_cons in pa_ids as [N1 _].
      rewrite lookup_insert_ne by set_solver. by apply (xi_trail _ _ Hx).
  - intros asset. rewrite Hv, rewrite_total by done. rewrite lsum_cons. cbn [fst snd lsum foldr].
    rewrite Hw. unfold vanished. cbn [x' set_exDb exOffer exTrail]. case_decide; lia.
  - intros j Hj. apply lookup_delete_None. by right.
Qed.

(** ** An offer that is matched *)

(** The two offers as a buy offer and a sell offer, and their match. *)
Lemma match_of x b : ex_inv com x -> against x b -> needs_more (exOffer x) ->
  exists m, exchangeOffers (exOffer x) b = (if quoteDelta m <=? sellerFee m then inl feeTooHigh else inr m) /\
    exType m = NORMAL /\ 0 < baseDelta m /\ 0 < quoteDelta m /\ 0 <= buyerFee m /\ 0 <= sellerFee m /\
    (sellerFee m < quoteDelta m -> suits (exOffer x) m /\ suits b m).
Proof.
  intros Hx Hag Hm. pose proof (xi_offers _ _ Hx _ _ (ag_in _ _ Hag)) as [].
  set (buy := if isBuy (exOffer x) then exOffer x else b).
  set (sell := if isBuy (exOffer x) then b else exOffer x).
  assert (Hc : crossing buy sell).
  { pose proof (xi_ok _ _ Hx). destruct Hag. pose proof (needsMore_true b bo_ok bo_more).
    unfold buy, sell. destruct (isBuy (exOffer x)) eqn:E; split; rewrite ?E in *; done. }
  destruct (exchange_spec (exOffer x) b buy sell eq_refl eq_refl Hc) as (m & Hmk & Hex).
  exists m. split; [done|]. pose proof Hmk as []. split_and!; try done || lia.
  intros Hlt. destruct (suits_of_match buy sell m Hc Hmk Hlt) as [S1 S2].
  unfold buy, sell in *. by destruct (isBuy (exOffer x)).
Qed.

Lemma wp_deleteOffer E id Q x : Q () (set_exDb (storeDeleteOffer id (exDb x)) x) ->
  wp E (onDb (fun d => inr (storeDeleteOffer id d))) Q x.
Proof. by intros. Qed.

Lemma row_of_written (m : Balances) b b' : rows_ok m -> m !! balanceID b = Some b -> sameRow b b' ->
  0 <= amount b' -> 0 <= locked b' -> row_ok (balanceID b') b'.
Proof. intros Hr Hb (_ & _ & Ea) H1 H2. destruct (Hr _ _ Hb). by split; rewrite ?Ea. Qed.

(** Writing the balances of B. *)
Lemma wp_writeBoth E x b m left bb qb bb' qb' y (k : M Ex CrossOfferResult) Q :
  ex_inv com x -> parties x b bb qb -> written b m left bb qb bb' qb' ->
  dbBalances (exDb y) = dbBalances (exDb x) ->
  wp E k Q (set_exDb (mkDb (upd qb' (upd bb' (dbBalances (exDb x)))) (dbOffers (exDb y)) (dbPairs (exDb y))) y) ->
  wp E (onDb (storeChangeBalance bb');; onDb (storeChangeBalance qb');; k) Q y.
Proof.
  intros Hx [] [] Ey HQ. pose proof (xi_rows _ _ Hx) as Hr.
  pose proof wr_bkept as (Eb & _). pose proof wr_qkept as (Eq & _).
  xstep. apply (wp_store _ _ _ _ bb); [by rewrite Ey, Eb|by apply (row_of_written _ _ _ Hr pa_vbb)|].
  xstep. apply (wp_store _ _ _ _ qb); [|by apply (row_of_written _ _ _ Hr pa_vqb)|].
  - cbn [set_exDb set_balances exDb dbBalances]. unfold upd. rewrite Ey, Eq, lookup_insert_ne; [done|].
    rewrite Eb. apply NoDup_cons in pa_ids as [_ [_ [_ [N4 _]%NoDup_cons]%NoDup_cons]%NoDup_cons].
    apply not_elem_of_cons in N4 as [N4 _]. by apply not_eq_sym.
  - cbn [set_exDb set_balances exDb dbBalances dbOffers dbPairs]. rewrite Ey. exact HQ.
Qed.

(** After the two sides are matched: B is taken, or what is left of it is written. *)
Lemma crossed_rest x b bb qb m : ex_inv com x -> against x b -> parties x b bb qb ->
  suits (exOffer x) m -> suits b m -> 0 <= buyerFee m -> 0 <= sellerFee m ->
  wp onlyFee
    (more ← lift (offerNeedsMore (matchedOffer b m));
     if negb more then
       r ← markOfferAsTaken (matchedOffer b m) (matchedBase b m bb) (matchedQuote b m qb);
       onDb (storeChangeBalance r.1);; onDb (storeChangeBalance r.2);; mret eOfferTaken
     else
       onDb (storeOffer false (matchedOffer b m));; onDb (storeChangeBalance (matchedBase b m bb));;
       onDb (storeChangeBalance (matchedQuote b m qb));; mret eOfferPartial)
    (crossed NDEBUG com x b) (matchedEx NDEBUG x b m).
Proof.
  intros Hx Hag Hpa Hsa Hsb Hbf Hsf. pose proof (xi_offers _ _ Hx _ _ (ag_in _ _ Hag)) as [].
  pose proof (matched_ok b m bo_ok Hsb) as Hok. destruct (needsMore_total _ Hok) as [more Hmore].
  pose proof (matched_terms b m) as [].
  pose proof (matched_step NDEBUG com x b m bb qb (negb more) Hx Hag Hpa Hsa Hsb Hbf Hsf) as Hstep.
  rewrite negb_involutive in Hstep. specialize (Hstep Hmore). cbn zeta in Hstep.
  pose proof (written_partial com x b bb qb m Hx Hag Hpa Hsb Hsf) as Hwp.
  pose proof (written_taken com x b bb qb m Hx Hag Hpa Hsb Hsf) as Hwt.
  xstep. eapply wp_lift; [exact Hmore|]. destruct more; cbn [negb] in *.
  - xstep. unfold onDb at 1. do 3 xstep.
    apply (wp_lift _ _ (set_offers (<[offerID b := matchedOffer b m]> (dbOffers (exDb x))) (exDb x))).
    { change (exDb (matchedEx NDEBUG x b m)) with (exDb x). unfold storeOffer, isOfferValid. rewrite st_base, st_quote, st_price, st_id.
      destruct bo_base as (c & Hc & _ & <-). destruct (xi_rows _ _ Hx _ _ Hc). rewrite ro_code.
      destruct bo_quote as (c' & Hc' & _ & <-). destruct (xi_rows _ _ Hx _ _ Hc'). rewrite ro_code0.
      destruct (needsMore_true _ Hok Hmore) as (M1 & M2 & _). destruct Hok. rewrite st_price in *.
      rewrite !(proj2 (Z.ltb_lt _ _)), (proj2 (Z.leb_le _ _)) by lia. cbn [andb].
      by rewrite (ag_in _ _ Hag). }
    xstep. eapply (wp_writeBoth _ x b m _ bb qb); [done..|]. by xstep.
  - xstep. unfold markOfferAsTaken. xstep. apply wp_deleteOffer.
    eapply wp_lift.
    { destruct (gains_fit com x b bb qb m Hx Hag Hpa Hsa Hsb) as (_ & (G1 & G2) & _).
      destruct Hwp. apply unlockTaken_run; [done|..]; [split_and!; done || lia..|].
      pose proof (covered_offer com x b bb qb Hx (ag_in _ _ Hag) Hpa). rewrite st_buy, matched_locked.
      rewrite matched_locked in *. destruct (isBuy b); lia. }
    eapply (wp_writeBoth _ x b m _ bb qb); [done..|].
    cbn [set_exDb storeDeleteOffer set_offers exDb dbOffers dbPairs]. rewrite st_id. by xstep.
Qed.

(** Crossing the next offer: it is taken or, if anything of it is left, the incoming
    offer is used up. *)
Lemma crossOffer_ok pr x b : ex_inv com x -> against x b -> offerNeedsMore (exOffer x) = inr true ->
  (exists q, getMinAllowedPrice pr = inr q) ->
  wp onlyFee (crossOffer NDEBUG pr b) (crossed NDEBUG com x b) x.
Proof.
  intros Hx Hag HmA [q Hq]. pose proof (needsMore_true _ (xi_ok _ _ Hx) HmA) as HA.
  destruct (parties_of com x b Hx (ag_in _ _ Hag) (ag_other _ _ Hag)) as (bb & qb & Hpa).
  pose proof Hpa as []. unfold crossOffer.
  xstep. apply (wp_loadBalance _ _ bb); [by rewrite <- pa_bid|].
  xstep. apply (wp_loadBalance _ _ qb); [by rewrite <- pa_qid|].
  xstep. unfold isOfferPriceMeetAssetPairRestrictions. rewrite Hq. eapply wp_lift; [done|].
  destruct (q <=? price b); cbn [negb].
  - destruct (match_of x b Hx Hag HA) as (m & Hex & Hty & Hbd & Hqd & Hbf & Hsf & Hsu).
    do 3 xstep. rewrite Hex. destruct (Z.leb_spec (quoteDelta m) (sellerFee m)) as [|Hlt]; [done|].
    destruct (Hsu Hlt) as [Hsa Hsb].
    destruct (gains_fit com x b bb qb m Hx Hag Hpa Hsa Hsb) as ((G1 & G2) & (G3 & G4) & G5).
    destruct (virt_frames com x Hx) as (Vb & Vq & Vc).
    pose proof (fun i b => row_balance_ok (virt x) i b (xi_rows _ _ Hx) (xi_supply _ _ Hx)) as Hok.
    eapply wp_lift; [done|]. rewrite bool_decide_false by congruence.
    rewrite (proj2 (Z.eqb_neq (baseDelta m) 0)), (proj2 (Z.eqb_neq (quoteDelta m) 0)) by lia. cbn [orb].
    do 3 xstep. eapply wp_lift.
    { apply offerMatched_run; [apply (xi_ok _ _ Hx)|done|by eapply Hok..|by apply (covered_charge com)|done|done]. }
    do 3 xstep. eapply wp_lift.
    { apply offerMatched_run; [|done|by eapply Hok|by eapply Hok|by apply (charge_there com x)|done|done].
      apply (bo_ok _ _ _ _ (xi_offers _ _ Hx _ _ (ag_in _ _ Hag))). }
    pose proof (Hok _ _ Vc) as HcOk. destruct (HcOk) as (C1 & C2 & C3).
    do 2 xstep. xstep. apply wp_assertCommission; [done|done|cbn [set_exA add_claim exCommission]; lia|].
    xstep. apply wp_assertCommission; cbn [set_exA add_claim set_exCommission exCommission].
    + unfold commissionGets. destruct NDEBUG; [done|]. unfold balance_ok, worth in *. simpl. lia.
    + done.
    + unfold commissionGets, worth in *. destruct NDEBUG; simpl; lia.
    + by apply crossed_rest.
  - pose proof (cancelled_step x b bb qb Hx Hag Hpa) as Hstep.
    assert (Hrow : row_ok (balanceID (unlockedBase b bb)) (unlockedBase b bb)).
    { destruct Hstep. apply (xi_rows _ _ cs_inv).
      rewrite (virt_base x b bb qb _ _ Hpa (sameRow_unlockedBase b bb)).
      unfold rewriteRows, upd. cbn [foldr fst snd]. apply lookup_insert_eq. }
    destruct (sameRow_unlockedBase b bb) as (Ei & _).
    xstep. unfold markOfferAsTaken. xstep. apply wp_deleteOffer. eapply wp_lift.
    { apply unlockTaken_run.
      - apply (bo_ok _ _ _ _ (xi_offers _ _ Hx _ _ (ag_in _ _ Hag))).
      - by apply (row_balance_ok (virt x) (balanceID bb)); destruct Hx.
      - by apply (row_balance_ok (virt x) (balanceID qb)); destruct Hx.
      - by apply (covered_offer com x); [|destruct Hag|]. }
    cbn [fst snd]. xstep. apply (wp_store _ _ _ _ bb); [by rewrite Ei|done|].
    xstep. apply (wp_store _ _ _ _ (unlockedBase b bb)); [|done|].
    + cbn [set_exDb set_balances exDb dbBalances]. unfold upd. apply lookup_insert_eq.
    + xstep. cbn [set_exDb set_balances storeDeleteOffer set_offers exDb dbBalances dbOffers dbPairs].
      unfold upd at 1 2. by rewrite insert_insert_eq.
Qed.

(** ** A batch *)

(** What a part of a run has done. *)
Record ran (x x' : Ex) : Prop := {
  rn_inv : ex_inv com x';
  rn_terms : same_terms (exOffer x) (exOffer x');
  rn_worth : forall asset, total asset (virt x') + vanished NDEBUG asset x' =
    total asset (virt x) + vanished NDEBUG asset x;
  rn_new : forall j, dbOffers (exDb x) !! j = None -> dbOffers (exDb x') !! j = None;
  rn_pairs : dbPairs (exDb x') = dbPairs (exDb x) }.

Lemma ran_refl x : ex_inv com x -> ran x x.
Proof. by split. Qed.

Lemma ran_code x c : ex_inv com x -> ran x (set_exCode c x).
Proof.
  intros []. split; try done. split; try done.
  - destruct xi_base. by split.
  - destruct xi_quote. by split.
  - destruct xi_com. by split.
Qed.

Lemma ran_trans x y z : ran x y -> ran y z -> ran x z.
Proof.
  intros [] []. split; [done|by eapply same_terms_trans| |auto|congruence].
  intros asset. by rewrite rn_worth1.
Qed.

Lemma crossed_ran x b r x' : crossed NDEBUG com x b r x' -> ran x x'.
Proof. by intros []. Qed.

(** Offers of the other side of the book. *)
Record batch_ok (x : Ex) (batch : list Offer) : Prop := {
  ba_in : Forall (fun b => dbOffers (exDb x) !! offerID b = Some b /\
    baseAsset b = baseAsset (exOffer x) /\ quoteAsset b = quoteAsset (exOffer x) /\
    isBuy b = negb (isBuy (exOffer x))) batch;
  ba_ids : NoDup (map offerID batch) }.

Lemma batch_next x b batch x' : batch_ok x (b :: batch) -> same_terms (exOffer x) (exOffer x') ->
  dbOffers (exDb x') = delete (offerID b) (dbOffers (exDb x)) -> batch_ok x' batch.
Proof.
  intros [Hf Hn] [] Hd. cbn [map] in Hn. apply NoDup_cons in Hn as [Hni Hn]. split; [|done].
  rewrite Forall_cons in Hf. destruct Hf as [_ Hf]. rewrite Forall_forall in *. intros c Hc.
  destruct (Hf c Hc) as (H1 & H2 & H3 & H4). rewrite Hd, st_base, st_quote, st_buy.
  split_and!; try done. rewrite lookup_delete_ne; [done|]. intros E. apply Hni. rewrite E.
  by apply list_elem_of_fmap_2.
Qed.

Context (env : OfferEnv).

(** How a batch ends: with the result of the run, or with all of its offers gone. *)
Definition batch_post (x : Ex) (n offset : nat) (r : ConvertResult + nat) (x' : Ex) : Prop :=
  ran x x' /\
  match r with
  | inl eFilterStop => True
  | inl _ => exCode x' = exCode x
  | inr o => o = (offset - n)%nat /\ exCode x' = exCode x /\ offerNeedsMore (exOffer x') = inr true /\
      (size (dbOffers (exDb x')) + n = size (dbOffers (exDb x)))%nat
  end.

Lemma batchLoop_ok pr batch : (exists q, getMinAllowedPrice pr = inr q) -> forall x offset,
  ex_inv com x -> batch_ok x batch -> offerNeedsMore (exOffer x) = inr true ->
  ownerID (exOffer x) = sourceID env -> (length batch <= offset)%nat ->
  wp onlyFee (batchLoop NDEBUG (filterOffer env (price (exOffer x))) pr batch offset)
    (batch_post x (length batch) offset) x.
Proof.
  intros Hpr. induction batch as [|b batch IH]; intros x offset Hx Hb Hm Ho Hlen;
    cbn [batchLoop length] in *.
  { xstep. split; [by apply ran_refl|]. split_and!; [lia|done|done|lia]. }
  pose proof (ba_in _ _ Hb) as Hin. apply Forall_cons in Hin as [(I1 & I2 & I3 & I4) _].
  xstep. unfold filterOffer. set (better := if isBuy b then _ else _).
  destruct better eqn:Eb; cbn [negb]; [|do 2 xstep; split; [by apply ran_refl|done]].
  case_decide as Ed; [do 4 xstep; split; [by apply ran_code|done]|].
  do 2 xstep.
  assert (Hag : against x b).
  { split; try done; [congruence|]. unfold better in Eb. rewrite I4 in Eb.
    destruct (isBuy (exOffer x)); cbn [negb] in Eb; by apply Z.leb_le in Eb. }
  eapply wp_mono; [by apply crossOffer_ok|]. intros r x1 Hc. pose proof (crossed_ran _ _ _ _ Hc) as Hr1.
  pose proof Hc as []. destruct (needsMore_total _ (xi_ok _ _ cs_inv)) as [more Hmore].
  rewrite (proj2 (Nat.eqb_neq offset 0)), !andb_false_r by lia.
  destruct r; [..|done]; do 5 xstep; (eapply wp_lift; [exact Hmore|]); destruct more; cbn [negb];
    rewrite ?bool_decide_false, ?bool_decide_true by done; try (by xstep).
  (* taken, and more is wanted *)
  rewrite <- (st_price _ _ cs_terms). specialize (cs_taken eq_refl).
  eapply wp_mono.
  { apply IH; [done|by apply (batch_next x b)|done| |lia]. by rewrite (st_owner _ _ cs_terms). }
  intros r x2 [Hr2 Hp]. split; [by apply (ran_trans x x1)|].
  destruct r as [[]|o]; [congruence..|done|].
  destruct Hp as (-> & E & Hm2 & Hs). split_and!; [lia|congruence|done|].
  rewrite cs_taken, map_size_delete_Some in Hs by (by eexists).
  assert (size (dbOffers (exDb x)) <> 0%nat); [|lia].
  intros E0%map_size_empty_iff. by rewrite E0, lookup_empty in I1.
Qed.

(** ** All batches *)

Section load.
Context (d : Db) (Hid : forall (j : Z) (o : Offer), dbOffers d !! j = Some o -> offerID o = j).
Context (n offset : nat) (bs qs : AssetCode) (bk : Z) (buy : bool).

Definition bookSide : list Offer :=
  merge_sort (better_le buy)
    (base.filter (fun o => baseAsset o = bs /\ quoteAsset o = qs /\ orderBookID o = bk /\ isBuy o = buy)
      (map snd (map_to_list (dbOffers d)))).

Lemma loadBest_sublist : loadBestOffers n offset bs qs bk buy d `sublist_of` bookSide.
Proof. etrans; [apply sublist_take|apply sublist_drop]. Qed.

Lemma bookSide_in o : o ∈ bookSide ->
  dbOffers d !! offerID o = Some o /\ baseAsset o = bs /\ quoteAsset o = qs /\ isBuy o = buy.
Proof using Hid.
  unfold bookSide. rewrite merge_sort_Permutation, list_elem_of_filter.
  intros [(H1 & H2 & _ & H3) ([j o'] & Eo & Hin)%list_elem_of_fmap]. cbn [snd] in Eo. subst o'.
  apply elem_of_map_to_list in Hin. by rewrite (Hid _ _ Hin).
Qed.

Lemma bookSide_nodup : NoDup (map offerID bookSide).
Proof using Hid.
  apply NoDup_fmap_2_strong.
  { intros o o' (Ho & _)%bookSide_in (Ho' & _)%bookSide_in E. rewrite E in Ho. congruence. }
  unfold bookSide. rewrite merge_sort_Permutation. apply NoDup_filter, NoDup_fmap_2_strong;
    [|apply NoDup_map_to_list].
  intros [j o] [j' o'] H1%elem_of_map_to_list H2%elem_of_map_to_list E. cbn [snd] in E. subst o'.
  by rewrite <- (Hid _ _ H1), <- (Hid _ _ H2).
Qed.

Lemma loadBest_nodup : NoDup (map offerID (loadBestOffers n offset bs qs bk buy d)).
Proof using Hid.
  eapply sublist_NoDup; [apply bookSide_nodup|]. apply fmap_sublist, loadBest_sublist.
Qed.

Lemma loadBest_in o : o ∈ loadBestOffers n offset bs qs bk buy d ->
  dbOffers d !! offerID o = Some o /\ baseAsset o = bs /\ quoteAsset o = qs /\ isBuy o = buy.
Proof using Hid.
  intros Ho. apply bookSide_in. eapply elem_of_sublist; [exact Ho|apply loadBest_sublist].
Qed.

End load.

Lemma loadBest_batch x pr bk : ex_inv com x -> pairBase pr = baseAsset (exOffer x) ->
  pairQuote pr = quoteAsset (exOffer x) ->
  let batch := loadBestOffers OFFERS_TO_TAKE 0 (pairBase pr) (pairQuote pr) bk (negb (isBuy (exOffer x))) (exDb x) in
  batch_ok x batch /\ forallb isOfferValid batch = true.
Proof.
  intros Hx Eb Eq batch.
  assert (Hid : forall j o, dbOffers (exDb x) !! j = Some o -> offerID o = j)
    by (intros j o Ho; apply (xi_offers _ _ Hx j o Ho)).
  split; [split; [|by apply loadBest_nodup]|].
  - apply Forall_forall. intros o Ho. destruct (loadBest_in _ Hid _ _ _ _ _ _ _ Ho) as (H1 & H2 & H3 & H4).
    by rewrite <- Eb, <- Eq.
  - apply forallb_forall. intros o Ho%list_elem_of_In.
    destruct (loadBest_in _ Hid _ _ _ _ _ _ _ Ho) as (Hin & _).
    destruct (xi_offers _ _ Hx _ _ Hin). destruct (needsMore_true o bo_ok bo_more) as (M1 & M2 & _).
    destruct bo_base as (c & Hc & _ & Ec), bo_quote as (c' & Hc' & _ & Ec'), bo_ok.
    unfold isOfferValid. rewrite <- Ec, <- Ec', (ro_code _ _ (xi_rows _ _ Hx _ _ Hc)),
      (ro_code _ _ (xi_rows _ _ Hx _ _ Hc')).
    by rewrite !(proj2 (Z.ltb_lt _ _)), (proj2 (Z.leb_le _ _)) by lia.
Qed.

(** [convertWithOffers] ends: a batch that does not end it takes five offers from the
    book.  It keeps the invariant, moves funds without making any, and throws only
    when the fee of a seller eats a match. *)
Lemma convertWithOffers_ok pr bk fuel : (exists q, getMinAllowedPrice pr = inr q) -> forall x,
  ex_inv com x -> pairBase pr = baseAsset (exOffer x) -> pairQuote pr = quoteAsset (exOffer x) ->
  ownerID (exOffer x) = sourceID env -> (size (dbOffers (exDb x)) < fuel)%nat ->
  wp onlyFee (convertWithOffers NDEBUG (filterOffer env (price (exOffer x))) fuel pr bk 0)
    (fun r x' => ran x x' /\ (r <> eFilterStop -> exCode x' = exCode x)) x.
Proof.
  intros Hpr. induction fuel as [|fuel IH]; intros x Hx Eb Eq Ho Hf; [lia|]. cbn [convertWithOffers].
  destruct (needsMore_total _ (xi_ok _ _ Hx)) as [more Hmore]. do 2 xstep.
  xstep. eapply wp_lift; [exact Hmore|].
  destruct more; cbn [negb]; [|xstep; split; [by apply ran_refl|done]].
  do 2 xstep. destruct (loadBest_batch x pr bk Hx Eb Eq) as [Hba ->].
  set (batch := loadBestOffers _ _ _ _ _ _ _) in *. xstep.
  eapply wp_mono; [by apply batchLoop_ok|]. intros r x1 [Hr Hp]. destruct r as [res|offset].
  { xstep. split; [done|]. by destruct res. }
  destruct Hp as (-> & Ec & Hm1 & Hs). do 3 xstep. eapply wp_lift; [exact Hm1|]. cbn [andb].
  destruct (Nat.ltb_spec (length batch) OFFERS_TO_TAKE); [xstep; by split|].
  replace (0 + length batch - length batch)%nat with 0%nat by lia. pose proof Hr as [].
  rewrite <- (st_price _ _ rn_terms0). destruct rn_terms0. eapply wp_mono.
  { apply IH; [done|congruence..|]. unfold OFFERS_TO_TAKE in *. lia. }
  intros r x2 [Hr2 Hc]. split; [by apply (ran_trans x x1)|]. intros Hne. by rewrite Hc.
Qed.

End crossing.
