(* ===== verification/OfferTheorems.v ===== *)
(** * Creating and deleting offers

    [CreateOfferOpFrame::doApply] from tables that are in order gives tables that are
    in order, in which every offer is backed and there is as much of every asset as
    before; [OfferManager::deleteOffer] gives back all that an offer has locked. *)

From Stdlib Require Import ZArith Lia String.
From stdpp Require Import base tactics gmap option list.
From S2P Require Import Prelude ScpTypes LedgerTypes LedgerDelta UtilTypes Balance Offer OfferExchange CreateOffer.
From S2P Require Import ExchangeFacts ExchangeInv ExchangeSteps ExchangeTheorems.

Open Scope Z_scope.

(** ** Identifiers *)

Definition nextGenerated (t : LedgerEntryType) (h : LedgerHeader) : Z := (generateID t h).1.

Lemma bump_other t t' gs : t <> t' -> (bumpGenerator t' (bumpGenerator t gs).2).1 = (bumpGenerator t' gs).1.
Proof.
  intros Hne. induction gs as [|[t0 i] gs IH]; cbn [bumpGenerator snd].
  - by rewrite bool_decide_false.
  - case_bool_decide; cbn [snd bumpGenerator].
    + subst t0. rewrite bool_decide_false by done. by destruct (bumpGenerator t' gs).
    + destruct (bumpGenerator t gs) as [r gs'] eqn:E. cbn [snd bumpGenerator] in *.
      case_bool_decide; [done|]. by destruct (bumpGenerator t' gs'), (bumpGenerator t' gs).
Qed.

Lemma nextGenerated_other t t' h : t <> t' -> nextGenerated t' (generateID t h).2 = nextGenerated t' h.
Proof.
  intros Hne. unfold nextGenerated, generateID. pose proof (bump_other t t' (idGenerators h) Hne) as Hb.
  destruct (bumpGenerator t (idGenerators h)) as [r gs]. cbn [snd idGenerators set_idGenerators] in *.
  by destruct (bumpGenerator t' gs), (bumpGenerator t' (idGenerators h)).
Qed.

(** ** Amounts *)

Lemma calculateQuote_spec b p q : 0 < b <= INT64_MAX -> 0 < p <= INT64_MAX ->
  calculateQuoteAmount b p = inr q -> 0 < q -> q <= INT64_MAX /\ q = quotient b p ONE ROUND_UP /\
    b * p <= INT64_MAX * ONE.
Proof.
  intros Hb Hp. pose proof ONE_bound. unfold calculateQuoteAmount.
  destruct (bigDivide_s64 0 b p ONE ROUND_DOWN) as [|[[] r]] eqn:E1; [done| |intros [= <-]; lia].
  destruct (r =? 0); [intros [= <-]; lia|].
  destruct (bigDivide_s64 r b p ONE ROUND_UP) as [|[[] r']] eqn:E2; [done| |intros [= <-]; lia].
  intros [= <-] Hq. apply bigDivide_true in E2 as [-> Hr]; [|lia..]. split_and!; [done|done|].
  by apply ceil_le.
Qed.

(** ** Locking *)

Definition lockFor (x : Z) (b : Balance) : Balance := set_locked (locked b + x) (set_amount (amount b - x) b).

Definition lockedBase (o : Offer) (b : Balance) : Balance := if isBuy o then b else lockFor (lockedOf o) b.
Definition lockedQuote (o : Offer) (b : Balance) : Balance := if isBuy o then lockFor (lockedOf o) b else b.

Lemma lockFor_worth x b : worth (lockFor x b) = worth b.
Proof. unfold worth. simpl. lia. Qed.

(** It locks all that the offer needs, or nothing. *)
Lemma lockSelling_spec o bb qb : 0 < baseAmount o <= INT64_MAX -> 0 < quoteAmount o <= INT64_MAX ->
  0 <= fee o <= INT64_MAX -> balance_ok bb -> balance_ok qb ->
  lockSellingAmount o bb qb =
    if isBuy o then
      if bool_decide (lockedOf o <= amount qb) then (true, bb, lockFor (lockedOf o) qb) else (false, bb, qb)
    else
      if bool_decide (lockedOf o <= amount bb) then (true, lockFor (lockedOf o) bb, qb) else (false, bb, qb).
Proof.
  intros H1 H2 H3 Hb Hq. unfold lockSellingAmount, lockedOf. destruct (isBuy o).
  - destruct (Z.leb_spec (s64 (quoteAmount o + fee o)) 0) as [Hs|Hs].
    + rewrite bool_decide_false; [done|]. intros Hle. destruct Hq as (Q1 & Q2 & Q3). unfold worth in Q3.
      rewrite s64_id in Hs by (unfold INT64_MAX in *; lia). lia.
    + destruct (Z.le_gt_cases (quoteAmount o + fee o) INT64_MAX) as [Hm|Hm].
      * rewrite s64_id by (unfold INT64_MAX in *; lia). case_bool_decide.
        -- rewrite lockBalance_ok by (done || (unfold balance_ok in *; lia)). by rewrite bool_decide_true.
        -- rewrite lockBalance_underfunded by (done || lia). by rewrite bool_decide_false.
      * exfalso. unfold s64, INT64_MAX in *.
        replace (quoteAmount o + fee o + 9223372036854775808)
          with (quoteAmount o + fee o - 9223372036854775808 + 1 * 18446744073709551616) in Hs by lia.
        rewrite Z.mod_add, Z.mod_small in Hs by lia. lia.
  - rewrite (proj2 (Z.leb_gt _ _)) by lia. case_bool_decide.
    + rewrite lockBalance_ok by (done || (unfold balance_ok in *; lia)). by rewrite bool_decide_true.
    + rewrite lockBalance_underfunded by (done || lia). by rewrite bool_decide_false.
Qed.

(** ** The state when the exchange starts *)

Section start.
Context (com : AccountID) (d : Db) (o : Offer) (bb qb c : Balance) (code : ManageOfferResultCode).
Context (Hd : book_ok com d) (Ho : offer_ok o) (Hown : ownerID o <> com) (Has : baseAsset o <> quoteAsset o).
Context (Hbb : dbBalances d !! baseBalance o = Some bb) (Hqb : dbBalances d !! quoteBalance o = Some qb).
Context (Obb : balanceAccount bb = ownerID o) (Oqb : balanceAccount qb = ownerID o).
Context (Abb : balanceAsset bb = baseAsset o) (Aqb : balanceAsset qb = quoteAsset o).
Context (Hc : dbBalances d !! balanceID c = Some c) (Oc : balanceAccount c = com) (Ac : balanceAsset c = quoteAsset o).
Context (Hfunds : lockedOf o <= amount (if isBuy o then qb else bb)).

Definition startEx : Ex := mkEx d o (lockedBase o bb) (lockedQuote o qb) c [] 0 code.

Definition startRows : list (Balance * Balance) :=
  [(c, c); (bb, lockedBase o bb); (qb, lockedQuote o qb)].

Lemma start_ids : balanceID bb = baseBalance o /\ balanceID qb = quoteBalance o.
Proof using Hd Hbb Hqb. destruct (bk_rows _ _ Hd _ _ Hbb), (bk_rows _ _ Hd _ _ Hqb). done. Qed.

Lemma start_rewrites : rewrites startRows (dbBalances d).
Proof using All.
  destruct start_ids as [Ib Iq]. destruct (bk_rows _ _ Hd _ _ Hbb), (bk_rows _ _ Hd _ _ Hqb),
    (bk_rows _ _ Hd _ _ Hc).
  assert (0 <= lockedOf o) by (destruct Ho; unfold lockedOf; case_match; lia).
  split.
  - unfold startRows. cbn [map fst]. rewrite Ib, Iq.
    repeat (apply NoDup_cons; split; [rewrite ?not_elem_of_cons|]); try apply NoDup_nil_2.
    + split_and!; [..|apply not_elem_of_nil]; intros E; rewrite E in Hc; congruence.
    + split; [intros E; congruence|apply not_elem_of_nil].
    + apply not_elem_of_nil.
  - unfold startRows, lockedBase, lockedQuote. repeat apply Forall_cons_2; cbn [fst snd]; [..|apply Forall_nil_2].
    + done.
    + split; [congruence|]. destruct (isBuy o); cbn [lockFor amount locked set_amount set_locked].
      * done.
      * split; [done|lia].
    + split; [congruence|]. destruct (isBuy o); cbn [lockFor amount locked set_amount set_locked].
      * split; [done|lia].
      * done.
Qed.

Lemma start_worth asset :
  lsum (fun p => if decide (balanceAsset p.1 = asset) then worth p.2 - worth p.1 else 0) startRows = 0.
Proof.
  unfold startRows, lockedBase, lockedQuote. rewrite !lsum_cons. cbn [fst snd lsum foldr].
  destruct (isBuy o); rewrite ?lockFor_worth; repeat case_decide; lia.
Qed.

Lemma start_total asset : total asset (virt startEx) = total asset (dbBalances d).
Proof using All.
  change (virt startEx) with (rewriteRows startRows (dbBalances d)).
  rewrite rewrite_total, start_worth by apply start_rewrites. lia.
Qed.

Lemma start_inv : ex_inv com startEx.
Proof using All.
  pose proof start_rewrites as Hr. destruct start_ids as [Ib Iq]. destruct Hd.
  assert (Hv : virt startEx = rewriteRows startRows (dbBalances d)) by done.
  split; rewrite ?Hv; try done.
  - by apply rewrite_rows.
  - intros asset. rewrite rewrite_total, start_worth by done. specialize (bk_supply asset). lia.
  - intros j b Hb. apply book_offer_rewrite; [done|]. by apply bk_offers.
  - eapply covers_mono; [|by apply rewrite_covers]. intros i.
    unfold startRows, lockedBase, lockedQuote, lockedOn, getLockedBalance.
    rewrite !lsum_cons. cbn [fst snd lsum foldr startEx exDb exOffer]. rewrite Ib, Iq.
    destruct (isBuy o); cbn [lockFor locked set_amount set_locked]; repeat case_decide; congruence || lia.
  - split; try done; [..|by exists bb]; unfold startEx, lockedBase; cbn [exBase]; by destruct (isBuy o).
  - split; try done; [..|by exists qb]; unfold startEx, lockedQuote; cbn [exQuote]; by destruct (isBuy o).
  - split; try done. by exists c.
Qed.

End start.

(** ** The end of an operation *)

Lemma wp_tables E f Q s d' : f (stDb s) = inr d' -> Q () (set_stDb d' s) -> wp E (onTables f) Q s.
Proof. intros Hf HQ. unfold onTables. do 3 xstep. by eapply wp_lift. Qed.

Lemma wp_storeRow E b Q s (row : Balance) : dbBalances (stDb s) !! balanceID b = Some row ->
  row_ok (balanceID b) b -> Q () (set_stDb (set_balances (upd b (dbBalances (stDb s))) (stDb s)) s) ->
  wp E (onTables (storeChangeBalance b)) Q s.
Proof. intros Hr Hb HQ. eapply wp_tables; [by apply (store_ok _ _ row)|done]. Qed.

Section finish.
Context (com : AccountID) (x : Ex) (ap : AssetPair) (E : exn -> OpState -> Prop).
Context (Hx : ex_inv com x) (Hps : forall k p, dbPairs (exDb x) !! k = Some p -> pair_ok k p).
Context (Hap : dbPairs (exDb x) !! (pairBase ap, pairQuote ap) = Some ap).

(** The commission is written, if it has got anything. *)
Definition paidDb (s : OpState) : Prop :=
  dbBalances (stDb s) = upd (exCommission x) (dbBalances (exDb x)) /\
  dbOffers (stDb s) = dbOffers (exDb x) /\
  (forall k p, dbPairs (stDb s) !! k = Some p -> pair_ok k p).

Lemma finish_commission s : stDb s = exDb x ->
  wp E (match last (exTrail x) with
        | Some claim =>
            onTables (storeChangePair (setCurrentPrice (claimPrice claim) ap));;
            onTables (storeChangeBalance (exCommission x))
        | None => mret ()
        end) (fun _ s' => paidDb s' /\ stHeader s' = stHeader s /\ stCode s' = stCode s) s.
Proof using Hx Hps Hap.
  intros Hs. destruct (last (exTrail x)) as [cl|] eqn:El.
  - xstep. eapply wp_tables.
    { unfold storeChangePair. rewrite Hs. cbn [setCurrentPrice pairBase pairQuote]. by rewrite Hap. }
    destruct (fo_row _ _ _ _ _ (xi_com _ _ Hx)) as (row & Hrow & _).
    destruct (virt_frames com x Hx) as (_ & _ & Vc).
    eapply (wp_storeRow _ _ _ _ row); [done|by apply (xi_rows _ _ Hx)|].
    split; [|done]. split_and!; [done..|].
    intros k p Hk. cbn [set_stDb set_balances set_pairs stDb dbPairs] in Hk.
    apply lookup_insert_Some in Hk as [[<- <-]|[_ Hk]]; [|by apply Hps].
    destruct (Hps _ _ Hap). by split.
  - xstep. split; [|done]. apply last_None in El. unfold paidDb. rewrite Hs. split_and!; [|done|done].
    unfold upd. rewrite insert_id; [done|]. by apply (xi_trail _ _ Hx).
Qed.

(** The last two balances. *)
Lemma finish_balances (bb' qb' : Balance) (suc : ManageOfferSuccess) (s : OpState) : rewrites [(exBase x, bb'); (exQuote x, qb')] (virt x) ->
  dbBalances (stDb s) = upd (exCommission x) (dbBalances (exDb x)) ->
  wp E (onTables (storeChangeBalance bb');; onTables (storeChangeBalance qb');; mret (Some suc))
    (fun r s' => r = Some suc /\ s' = set_stDb (set_balances
       (rewriteRows [(exBase x, bb'); (exQuote x, qb')] (virt x)) (stDb s)) s) s.
Proof using Hx.
  intros Hr Hs. pose proof Hr as [_ Hf]. apply Forall_cons in Hf as [(_ & Kb & B1 & B2) Hf].
  apply Forall_cons in Hf as [(_ & Kq & Q1 & Q2) _]. cbn [fst snd] in *.
  destruct (virt_frames com x Hx) as (Vb & Vq & Vc), (frames_distinct com x Hx) as (F1 & F2 & F3).
  destruct (fo_row _ _ _ _ _ (xi_base _ _ Hx)) as (rb & Rb & _), (fo_row _ _ _ _ _ (xi_quote _ _ Hx)) as (rq & Rq & _).
  rewrite <- (fo_id _ _ _ _ _ (xi_base _ _ Hx)) in Rb. rewrite <- (fo_id _ _ _ _ _ (xi_quote _ _ Hx)) in Rq.
  pose proof (Kb) as (Eb & _). pose proof (Kq) as (Eq & _).
  xstep. eapply (wp_storeRow _ _ _ _ rb).
  { rewrite Hs, Eb. unfold upd. by rewrite lookup_insert_ne. }
  { by apply (row_of_written (virt x) (exBase x)); [apply (xi_rows _ _ Hx)|..]. }
  xstep. eapply (wp_storeRow _ _ _ _ rq).
  { cbn [set_stDb set_balances stDb dbBalances]. rewrite Hs, Eq. unfold upd. rewrite Eb. by rewrite !lookup_insert_ne. }
  { by apply (row_of_written (virt x) (exQuote x)); [apply (xi_rows _ _ Hx)|..]. }
  assert (Hm : upd qb' (upd bb' (upd (exCommission x) (dbBalances (exDb x)))) =
    rewriteRows [(exBase x, bb'); (exQuote x, qb')] (virt x)).
  { unfold virt, rewriteRows, upd. cbn [foldr fst snd]. rewrite Eb, Eq. apply map_eq. intros i.
    rewrite !lookup_insert. repeat case_decide; congruence. }
  xstep. split; [done|]. cbn [set_stDb set_balances stDb dbBalances]. by rewrite Hs, Hm.
Qed.

(** The tables in the end. *)
Lemma finish_book (bb' qb' : Balance) (os : gmap Z Offer) (d : Db) :
  let l := [(exBase x, bb'); (exQuote x, qb')] in
  rewrites l (virt x) ->
  dbBalances d = rewriteRows l (virt x) -> dbOffers d = os ->
  (forall k p, dbPairs d !! k = Some p -> pair_ok k p) ->
  worth bb' = worth (exBase x) -> worth qb' = worth (exQuote x) ->
  (forall j o, os !! j = Some o -> dbOffers (exDb x) !! j = Some o \/ book_offer com (virt x) j o) ->
  (forall i, offersOn i os <= offersOn i (dbOffers (exDb x)) + lockedOn i (exOffer x) +
    lsum (fun p => if decide (i = balanceID p.1) then locked p.2 - locked p.1 else 0) l) ->
  book_ok com d /\ forall asset, total asset (dbBalances d) = total asset (virt x).
Proof using Hx.
  intros l Hr Hd <- Hp Wb Wq Hos Hcov.
  assert (Ht : forall asset, total asset (dbBalances d) = total asset (virt x)).
  { intros asset. rewrite Hd, rewrite_total by done. unfold l. rewrite !lsum_cons.
    cbn [fst snd lsum foldr]. repeat case_decide; lia. }
  split; [|done]. split; [..|done].
  - rewrite Hd. apply rewrite_rows; [done|by destruct Hx].
  - intros asset. rewrite Ht. by apply (xi_supply _ _ Hx).
  - intros j o Ho. rewrite Hd. apply book_offer_rewrite; [done|].
    destruct (Hos j o Ho); [by apply (xi_offers _ _ Hx)|done].
  - rewrite Hd. eapply covers_mono; [exact Hcov|]. apply rewrite_covers; [done|by destruct Hx].
Qed.

Lemma frames_rewrites (bb' qb' : Balance) : sameRow (exBase x) bb' -> sameRow (exQuote x) qb' ->
  0 <= amount bb' -> 0 <= locked bb' -> 0 <= amount qb' -> 0 <= locked qb' ->
  rewrites [(exBase x, bb'); (exQuote x, qb')] (virt x).
Proof using Hx.
  intros. destruct (virt_frames com x Hx) as (Vb & Vq & Vc), (frames_distinct com x Hx) as (F1 & _).
  split; cbn [map fst].
  - apply NoDup_cons; split; [|apply NoDup_singleton]. by rewrite list_elem_of_singleton.
  - repeat apply Forall_cons_2; [done..|apply Forall_nil_2].
Qed.

Definition finish_post (s : OpState) (r : option ManageOfferSuccess) (s' : OpState) : Prop :=
  exists suc, r = Some suc /\ offersClaimed suc = exTrail x /\ stCode s' = stCode s /\
    book_ok com (stDb s') /\ forall asset, total asset (dbBalances (stDb s')) = total asset (virt x).

Lemma finish_post_of (bb' qb' : Balance) (os : gmap Z Offer) (eff : ManageOfferEffect) (s1 s : OpState) :
  let l := [(exBase x, bb'); (exQuote x, qb')] in
  rewrites l (virt x) -> dbBalances (stDb s1) = upd (exCommission x) (dbBalances (exDb x)) ->
  dbOffers (stDb s1) = os -> (forall k p, dbPairs (stDb s1) !! k = Some p -> pair_ok k p) ->
  stCode s1 = stCode s ->
  worth bb' = worth (exBase x) -> worth qb' = worth (exQuote x) ->
  (forall j o, os !! j = Some o -> dbOffers (exDb x) !! j = Some o \/ book_offer com (virt x) j o) ->
  (forall i, offersOn i os <= offersOn i (dbOffers (exDb x)) + lockedOn i (exOffer x) +
    lsum (fun p => if decide (i = balanceID p.1) then locked p.2 - locked p.1 else 0) l) ->
  wp E (onTables (storeChangeBalance bb');; onTables (storeChangeBalance qb');;
        mret (Some (mkSuccess (exTrail x) eff))) (finish_post s) s1.
Proof using Hx.
  intros l Hr Hb Ho Hp Hc Wb Wq Hos Hcov. eapply wp_mono; [by apply finish_balances|].
  intros r s' [-> ->]. eexists. split; [done|]. split; [done|]. split; [done|].
  by apply (finish_book bb' qb' os).
Qed.

Lemma set_offerID_locked i j o : lockedOn i (set_offerID j o) = lockedOn i o.
Proof. done. Qed.

(** The offer that is left is a new offer of the book. *)
Lemma new_book_offer i : offerNeedsMore (exOffer x) = inr true ->
  book_offer com (virt x) i (set_offerID i (exOffer x)).
Proof using Hx.
  intros Hm. destruct (virt_frames com x Hx) as (Vb & Vq & _). destruct Hx.
  destruct xi_base, xi_quote. split; try done.
  - by destruct xi_ok.
  - exists (exBase x). cbn [baseBalance set_offerID]. by rewrite <- fo_id at 1.
  - exists (exQuote x). cbn [quoteBalance set_offerID]. by rewrite <- fo_id0 at 1.
Qed.

Lemma new_offer_valid i : offerNeedsMore (exOffer x) = inr true -> isOfferValid (set_offerID i (exOffer x)) = true.
Proof using Hx.
  intros Hm. destruct (virt_frames com x Hx) as (Vb & Vq & _).
  destruct (needsMore_true _ (xi_ok _ _ Hx) Hm) as (M1 & M2 & _). pose proof (xi_ok _ _ Hx) as [].
  unfold isOfferValid. cbn [set_offerID baseAsset quoteAsset baseAmount quoteAmount price fee].
  rewrite <- (fo_asset _ _ _ _ _ (xi_base _ _ Hx)), <- (fo_asset _ _ _ _ _ (xi_quote _ _ Hx)).
  rewrite (ro_code _ _ (xi_rows _ _ Hx _ _ Vb)), (ro_code _ _ (xi_rows _ _ Hx _ _ Vq)).
  by rewrite !(proj2 (Z.ltb_lt _ _)), (proj2 (Z.leb_le _ _)) by lia.
Qed.

Lemma finishOffer_ok s : stDb s = exDb x -> dbOffers (exDb x) !! nextGenerated OFFER_ENTRY (stHeader s) = None ->
  wp E (finishOffer ap x) (finish_post s) s.
Proof using All.
  intros Hs Hnew. unfold finishOffer. xstep.
  eapply wp_mono; [by apply finish_commission|]. intros [] s1 ((P1 & P2 & P3) & Eh & Ec).
  destruct (needsMore_total _ (xi_ok _ _ Hx)) as [more Hmore].
  destruct (virt_frames com x Hx) as (Vb & Vq & _).
  destruct (xi_rows _ _ Hx _ _ Vb), (xi_rows _ _ Hx _ _ Vq).
  xstep. eapply wp_lift; [exact Hmore|]. xstep. destruct more.
  - unfold nextID. do 3 xstep. destruct (generateID OFFER_ENTRY (stHeader s1)) as [i h] eqn:Eg.
    assert (Hi : dbOffers (exDb x) !! i = None).
    { unfold nextGenerated in Hnew. by rewrite <- Eh, Eg in Hnew. }
    do 4 xstep. eapply wp_tables.
    { unfold storeOffer. rewrite new_offer_valid by done. cbn [set_stHeader stDb offerID set_offerID].
      by rewrite P2, Hi. }
    xstep. eapply finish_post_of; try done.
    + by apply frames_rewrites.
    + intros j o Ho. cbn [set_stDb set_stHeader set_offers stDb dbOffers] in Ho.
      apply lookup_insert_Some in Ho as [[<- <-]|[_ Ho]]; [right; by apply new_book_offer|by left].
    + intros k. cbn [set_stDb set_stHeader set_offers stDb dbOffers]. unfold offersOn.
      rewrite msum_fresh by done. rewrite set_offerID_locked, !lsum_cons. cbn [fst snd lsum foldr].
      repeat case_decide; lia.
  - pose proof (covered_in_flight com x Hx) as Hcov.
    assert (Hlo : 0 <= lockedOf (exOffer x)) by (destruct (xi_ok _ _ Hx); unfold lockedOf; case_match; lia).
    pose proof (fun i b => row_balance_ok (virt x) i b (xi_rows _ _ Hx) (xi_supply _ _ Hx)) as Hok.
    xstep. eapply wp_lift.
    { apply unlockTaken_run; [apply (xi_ok _ _ Hx)|by eapply Hok|by eapply Hok|done]. }
    xstep. cbn [fst snd].
    pose proof (fo_id _ _ _ _ _ (xi_base _ _ Hx)) as Ib. pose proof (fo_id _ _ _ _ _ (xi_quote _ _ Hx)) as Iq.
    apply (finish_post_of _ _ (dbOffers (exDb x))); try done.
    + apply frames_rewrites; [apply sameRow_unlockedBase|apply sameRow_unlockedQuote|..];
        unfold unlockedBase, unlockedQuote; destruct (isBuy (exOffer x));
        cbn [amount locked unlocked set_amount set_locked]; lia.
    + unfold unlockedBase. case_match; [done|apply unlocked_worth].
    + unfold unlockedQuote. case_match; [apply unlocked_worth|done].
    + intros j o. by left.
    + intros i. rewrite !lsum_cons. cbn [fst snd lsum foldr]. rewrite Ib, Iq.
      unfold lockedOn, getLockedBalance, unlockedBase, unlockedQuote.
      destruct (isBuy (exOffer x)); cbn [locked unlocked set_amount set_locked]; repeat case_decide; congruence || lia.
Qed.

End finish.

(** ** The balance for commissions *)

Lemma loadBalanceOf_in env account asset d b : loadBalanceOf env account asset d = Some b ->
  exists i, dbBalances d !! i = Some b /\ balanceAccount b = account /\ balanceAsset b = asset.
Proof.
  unfold loadBalanceOf. set (l := base.filter _ _). intros Hl.
  assert (Hin : b ∈ l).
  { clearbody l. revert b Hl. induction l as [|c l IH]; [done|]. cbn [foldr]. intros b.
    destruct (foldr _ None l) as [c'|]; [|intros [= ->]; apply list_elem_of_here].
    case_match; intros [= <-]; [by apply list_elem_of_further, IH|apply list_elem_of_here]. }
  apply list_elem_of_filter in Hin as [Hp Hin]. apply list_elem_of_fmap in Hin as ([i b'] & -> & Hin).
  apply elem_of_map_to_list in Hin. by exists i.
Qed.

Lemma fresh_book com d b : book_ok com d -> dbBalances d !! balanceID b = None ->
  row_ok (balanceID b) b -> amount b = 0 -> locked b = 0 ->
  (forall j o, dbOffers d !! j = Some o -> getLockedBalance o <> balanceID b) ->
  book_ok com (set_balances (upd b (dbBalances d)) d) /\
  forall asset, total asset (upd b (dbBalances d)) = total asset (dbBalances d).
Proof.
  intros [] Hn Hr Ha Hl Hoff.
  assert (Ht : forall asset, total asset (upd b (dbBalances d)) = total asset (dbBalances d)).
  { intros asset. unfold total, upd. rewrite msum_fresh by done. unfold worthIn, worth. case_decide; lia. }
  assert (Hh : forall i who asset, holds (dbBalances d) i who asset -> holds (upd b (dbBalances d)) i who asset).
  { intros i who asset (c & Hc & H1 & H2). exists c. split; [|done]. unfold upd.
    rewrite lookup_insert_ne; [done|]. congruence. }
  split; [|done]. split; cbn [set_balances dbBalances dbOffers dbPairs]; try done.
  - intros i c [[-> ->]|[_ Hc]]%upd_Some; [done|by apply bk_rows].
  - intros asset. rewrite Ht. apply bk_supply.
  - intros j o Ho. destruct (bk_offers j o Ho). split; try done; by apply Hh.
  - intros i c [[-> ->]|[_ Hc]]%upd_Some; [|by apply (bk_covers i)]. rewrite Hl. unfold offersOn.
    rewrite (msum_ext _ (fun _ => 0)); [|intros j o Ho; unfold lockedOn; by rewrite decide_False by eauto].
    clear. induction (dbOffers d) as [|j o m Hj IH] using map_ind; [by rewrite msum_empty|].
    by rewrite msum_fresh.
Qed.

(** What the operations rely on beside the tables: accounts and assets of balances
    exist, fees are valid ([FeeFrame::isValid]), generated identifiers are new. *)
Record world_ok (env : OfferEnv) (s : OpState) : Prop := {
  wo_book : book_ok (commissionID env) (stDb s);
  wo_source : sourceID env <> commissionID env;
  wo_accounts : forall i b, dbBalances (stDb s) !! i = Some b ->
    is_Some (accountTypeOf env (balanceAccount b)) /\ is_Some (assetOf env (balanceAsset b));
  wo_fees : forall asset x f, loadFee env asset x = Some f ->
    0 <= fixedFee f <= INT64_MAX /\ 0 <= feePercent f <= HUNDRED;
  wo_newBalance :
    dbBalances (stDb s) !! forAccount env (commissionID env) (nextGenerated BALANCE (stHeader s)) = None;
  wo_newOffer : dbOffers (stDb s) !! nextGenerated OFFER_ENTRY (stHeader s) = None }.

(** The balance for commissions is there, or is made without touching anything else. *)
Record commission_post (env : OfferEnv) (asset : AssetCode) (s : OpState) (c : Balance) (s' : OpState) : Prop := {
  cp_book : book_ok (commissionID env) (stDb s');
  cp_row : dbBalances (stDb s') !! balanceID c = Some c;
  cp_owner : balanceAccount c = commissionID env;
  cp_asset : balanceAsset c = asset;
  cp_keeps : forall i b, dbBalances (stDb s) !! i = Some b -> dbBalances (stDb s') !! i = Some b;
  cp_offers : dbOffers (stDb s') = dbOffers (stDb s);
  cp_pairs : dbPairs (stDb s') = dbPairs (stDb s);
  cp_total : forall a, total a (dbBalances (stDb s')) = total a (dbBalances (stDb s));
  cp_next : nextGenerated OFFER_ENTRY (stHeader s') = nextGenerated OFFER_ENTRY (stHeader s);
  cp_code : stCode s' = stCode s }.

Lemma loadOrCreate_ok E env asset s : world_ok env s -> is_Some (assetOf env asset) ->
  isAssetCodeValid asset = true ->
  wp E (loadOrCreateBalanceFrameForAsset env (commissionID env) asset) (commission_post env asset s) s.
Proof.
  intros [] [a Ha] Hv. unfold loadOrCreateBalanceFrameForAsset. do 2 xstep.
  destruct (loadBalanceOf _ _ _ _) as [b|] eqn:El.
  - apply loadBalanceOf_in in El as (i & Hi & H1 & H2). xstep.
    pose proof (ro_id _ _ (bk_rows _ _ wo_book0 _ _ Hi)). split; try done. congruence.
  - rewrite Ha. xstep. unfold nextID. do 2 xstep.
    pose proof (nextGenerated_other BALANCE OFFER_ENTRY (stHeader s) ltac:(done)) as Hg.
    unfold nextGenerated at 1 in wo_newBalance0. destruct (generateID BALANCE (stHeader s)) as [i h] eqn:Eg.
    cbn [fst snd] in *. do 4 xstep. set (b := createNewBalance _ _ _).
    assert (Hb : row_ok (balanceID b) b) by done.
    destruct (fresh_book (commissionID env) (stDb s) b wo_book0) as [Hbook Ht]; try done.
    { intros j o Ho E'. destruct (bk_offers _ _ wo_book0 j o Ho).
      unfold getLockedBalance in E'. destruct bo_base as (c & Hc & _), bo_quote as (c' & Hc' & _).
      cbn [b createNewBalance balanceID] in E'.
      destruct (isBuy o); [rewrite E' in Hc'|rewrite E' in Hc]; congruence. }
    eapply wp_tables.
    { unfold storeAddBalance, isBalanceValid. cbn [b createNewBalance balanceAsset locked amount balanceID].
      rewrite Hv. cbn [set_stHeader stDb]. by rewrite wo_newBalance0. }
    xstep. split; try done.
    + cbn [set_stDb stDb set_balances dbBalances]. apply lookup_insert_eq.
    + intros j c Hc. cbn [set_stDb set_stHeader stDb set_balances dbBalances].
      rewrite lookup_insert_ne; [done|]. intros E'. cbn [b createNewBalance balanceID] in E'. congruence.
Qed.

(** ** [doApply] *)

Section apply.
Context (NDEBUG : bool) (env : OfferEnv) (op : ManageOfferOp).

(** An operation that [doCheckValid] has let through, with fields of 64 bits. *)
Record op_ok : Prop := {
  op_valid : doCheckValid op = inr None;
  op_amount : opAmount op <= INT64_MAX;
  op_price : opPrice op <= INT64_MAX;
  op_fee : opFee op <= INT64_MAX }.

Lemma op_ok_inv : op_ok -> 0 < opAmount op <= INT64_MAX /\ 0 < opPrice op <= INT64_MAX /\
  0 <= opFee op <= INT64_MAX /\ exists q, calculateQuoteAmount (opAmount op) (opPrice op) = inr q /\ 0 < q.
Proof.
  intros [H1 H2 H3 H4]. unfold doCheckValid in H1.
  destruct (Z.leb_spec (opAmount op) 0); [done|]. destruct (Z.leb_spec (opPrice op) 0); [done|].
  destruct (calculateQuoteAmount (opAmount op) (opPrice op)) as [|q]; [done|].
  destruct (Z.ltb_spec 0 q); [|done]. cbn [negb] in H1.
  destruct (Z.ltb_spec (opFee op) 0); [done|]. split_and!; try lia. by exists q.
Qed.

Definition checked (s : OpState) (r : option (Balance * Balance * AssetPair)) (s' : OpState) : Prop :=
  match r with
  | None => stCode s' <> MO_SUCCESS
  | Some (bb, qb, ap) => s' = s /\
      dbBalances (stDb s) !! opBaseBalance op = Some bb /\ dbBalances (stDb s) !! opQuoteBalance op = Some qb /\
      balanceAccount bb = sourceID env /\ balanceAccount qb = sourceID env /\
      balanceAsset bb <> balanceAsset qb /\ dbPairs (stDb s) !! (balanceAsset bb, balanceAsset qb) = Some ap
  end.

Lemma wp_loadForTrading E id Q s :
  match dbBalances (stDb s) !! id with
  | Some b => if decide (balanceAccount b = sourceID env) then Q (Some b) s
              else Q None (set_stCode MO_BALANCE_NOT_FOUND s)
  | None => Q None (set_stCode MO_BALANCE_NOT_FOUND s)
  end -> wp E (loadBalanceValidForTrading env id) Q s.
Proof.
  intros HQ. unfold loadBalanceValidForTrading. do 2 xstep.
  destruct (dbBalances (stDb s) !! id); [case_decide; [done|]|]; by do 3 xstep.
Qed.

Lemma wp_allowed E id b Q s : world_ok env s -> dbBalances (stDb s) !! id = Some b ->
  (forall c, c <> MO_SUCCESS -> Q false (set_stCode c s)) -> Q true s -> wp E (isAllowedToReceive env id) Q s.
Proof.
  intros Hw Hb Hf Ht. unfold isAllowedToReceive, fail. do 2 xstep. rewrite Hb.
  destruct (wo_accounts _ _ Hw _ _ Hb) as [[t ->] [a ->]].
  case_match; [do 3 xstep; by apply Hf|]. case_match; [do 3 xstep; by apply Hf|by xstep].
Qed.

Lemma checkOfferValid_ok E s : world_ok env s -> op_ok ->
  wp E (checkOfferValid NDEBUG env op) (checked s) s.
Proof.
  intros Hw Hop. destruct (op_ok_inv Hop) as (Ha & _).
  unfold checkOfferValid. rewrite (proj2 (Z.eqb_neq (opAmount op) 0)), orb_true_r by lia. do 2 xstep.
  xstep. apply wp_loadForTrading. destruct (dbBalances (stDb s) !! opBaseBalance op) as [bb|] eqn:Eb; [|by xstep].
  case_decide; [|by xstep].
  xstep. apply wp_loadForTrading. destruct (dbBalances (stDb s) !! opQuoteBalance op) as [qb|] eqn:Eq; [|by xstep].
  case_decide; [|by xstep]. case_decide; [by do 3 xstep|]. cbn zeta. xstep.
  assert (exists b, dbBalances (stDb s) !! (if opIsBuy op then opBaseBalance op else opQuoteBalance op) = Some b)
    as [b Hb] by (destruct (opIsBuy op); eauto).
  apply (wp_allowed _ _ b); [done|done|intros c Hc; cbn [negb]; by xstep|]. cbn [negb]. xstep.
  unfold loadTradableAssetPair. do 2 xstep.
  destruct (dbPairs (stDb s) !! (balanceAsset bb, balanceAsset qb)) as [p|] eqn:Ep; [|by repeat xstep].
  destruct (negb _); [by do 2 xstep|]. destruct (tradeableSecondaryMarket p); [by do 2 xstep|by do 4 xstep].
Qed.

Lemma fee_total f x : is_u64 x ->
  (forall e, f = Some e -> 0 <= fixedFee e <= INT64_MAX /\ 0 <= feePercent e <= HUNDRED) ->
  exists r, calculateFeeForAccount f x = inr r /\ 0 <= s64 (resPercent r) <= HUNDRED.
Proof.
  intros Hx Hf. pose proof HUNDRED_bound as HH. destruct f as [e|].
  - destruct (Hf e eq_refl) as [F1 F2]. unfold calculateFeeForAccount, calculatePercentFee.
    assert (Hp : s64 (u64 (feePercent e)) = feePercent e).
    { rewrite u64_id, s64_id by (unfold INT64_MAX, UINT64_MAX in *; lia). done. }
    destruct (feePercent e =? 0).
    + eexists. split; [done|]. cbn [resPercent]. by rewrite Hp.
    + rewrite bigDivide_u64_quotient; [|done|apply u64_range|unfold INT64_MAX, UINT64_MAX in *; lia].
      eexists. split; [done|]. cbn [resPercent]. by rewrite Hp.
  - eexists. split; [done|]. cbn [resPercent]. rewrite s64_id by (unfold INT64_MAX; lia). lia.
Qed.

Lemma wp_exchangeIn {A} o bb qb c (m : M Ex A) Q s :
  wp onlyFee m (fun a x => Q (a, x) (mkOpState (exDb x) (stHeader s) (exCode x)))
    (mkEx (stDb s) o bb qb c [] 0 (stCode s)) ->
  wp onlyFee (exchangeIn o bb qb c m) Q s.
Proof. unfold wp, exchangeIn. by destruct (m _). Qed.

(** What is lost of an asset when [doApply] has returned. *)
Definition lost (asset quote : AssetCode) (suc : ManageOfferSuccess) : Z :=
  if NDEBUG && bool_decide (quote = asset) then feesPaid (offersClaimed suc) else 0.

Definition applied (quote : AssetCode) (s : OpState) (r : option ManageOfferSuccess) (s' : OpState) : Prop :=
  match r with
  | None => stCode s' <> MO_SUCCESS
  | Some suc => stCode s' = MO_SUCCESS /\ book_ok (commissionID env) (stDb s') /\
      forall asset, total asset (dbBalances (stDb s')) + lost asset quote suc = total asset (dbBalances (stDb s))
  end.

(** The run of the exchange and the end, once the funds are locked. *)
Lemma exchange_ok fuel o bb qb ap s : world_ok env s -> offer_ok o -> ownerID o = sourceID env ->
  (size (dbOffers (stDb s)) < fuel)%nat ->
  baseAsset o <> quoteAsset o -> dbPairs (stDb s) !! (baseAsset o, quoteAsset o) = Some ap ->
  dbBalances (stDb s) !! baseBalance o = Some bb -> dbBalances (stDb s) !! quoteBalance o = Some qb ->
  balanceAccount bb = ownerID o -> balanceAccount qb = ownerID o ->
  balanceAsset bb = baseAsset o -> balanceAsset qb = quoteAsset o ->
  lockedOf o <= amount (if isBuy o then qb else bb) ->
  wp onlyFee
    (modify (set_stCode MO_SUCCESS);;
     c ← loadOrCreateBalanceFrameForAsset env (commissionID env) (pairQuote ap);
     r ← exchangeIn o (lockedBase o bb) (lockedQuote o qb) c
       (convertWithOffers NDEBUG (filterOffer env (price o)) fuel ap (opOrderBookID op) 0);
     let '(res, x) := r in
     match res with
     | eFilterStop => if bool_decide (exCode x = MO_SUCCESS) then finishOffer ap x else mret None
     | _ => finishOffer ap x
     end)
    (applied (quoteAsset o) s) s.
Proof.
  intros Hw Ho Hown Hf Has Hap Hbb Hqb Ob Oq Ab Aq Hfunds. pose proof (wo_book _ _ Hw) as Hbook.
  pose proof (bk_pairs _ _ Hbook _ _ Hap) as [[= Kb Kq] Hmin].
  do 2 xstep. xstep. eapply wp_mono.
  { apply loadOrCreate_ok; [by destruct Hw|..]; rewrite Kq, <- Aq.
    - by apply (wo_accounts _ _ Hw _ _ Hqb).
    - apply (bk_rows _ _ Hbook _ _ Hqb). }
  intros c s1 []. xstep. apply wp_exchangeIn.
  assert (Hown' : ownerID o <> commissionID env) by (rewrite Hown; apply (wo_source _ _ Hw)).
  pose proof (start_inv (commissionID env) (stDb s1) o bb qb c (stCode s1) cp_book0 Ho Hown' Has
    (cp_keeps0 _ _ Hbb) (cp_keeps0 _ _ Hqb) Ob Oq Ab Aq cp_row0 cp_owner0 ltac:(congruence) Hfunds) as Hinv.
  pose proof (start_total (commissionID env) (stDb s1) o bb qb c (stCode s1) cp_book0 Ho Hown' Has
    (cp_keeps0 _ _ Hbb) (cp_keeps0 _ _ Hqb) Ob Oq Ab Aq cp_row0 cp_owner0 ltac:(congruence) Hfunds) as Htot.
  set (x0 := startEx (stDb s1) o bb qb c (stCode s1)) in *. change (mkEx _ _ _ _ _ _ _ _) with x0.
  eapply wp_mono.
  { change o with (exOffer x0) at 1. apply (convertWithOffers_ok NDEBUG (commissionID env)); try done.
    cbn [x0 startEx exDb]. by rewrite cp_offers0. }
  intros r x [[] Hcode].
  assert (Hfin : exCode x = MO_SUCCESS -> wp onlyFee (finishOffer ap x) (applied (quoteAsset o) s)
    (mkOpState (exDb x) (stHeader s1) (exCode x))).
  { intros Hsuc. eapply wp_mono.
    { apply (finishOffer_ok (commissionID env)); try done.
      - intros k p. rewrite rn_pairs. apply (bk_pairs _ _ cp_book0).
      - rewrite rn_pairs. cbn [x0 startEx exDb]. by rewrite cp_pairs0, Kb, Kq.
      - apply rn_new. cbn [x0 startEx exDb stHeader]. rewrite cp_offers0, cp_next0. by destruct Hw. }
    intros r' s' (suc & -> & Hcl & Hc' & Hb' & Ht'). split_and!; [by rewrite Hc'|done|].
    intros asset. rewrite Ht', <- cp_total0, <- Htot. unfold lost. rewrite Hcl.
    specialize (rn_worth asset). unfold vanished in rn_worth.
    rewrite (st_quote _ _ rn_terms) in rn_worth. cbn [x0 startEx exOffer exTrail] in rn_worth.
    rewrite rn_worth. case_match; unfold feesPaid; cbn [lsum foldr]; lia. }
  destruct r; [apply Hfin; by rewrite Hcode|apply Hfin; by rewrite Hcode|].
  case_bool_decide; [by apply Hfin|by xstep].
Qed.

(** C10. [CreateOfferOpFrame::doApply], from tables in which every offer is backed by
    locked funds and no asset exceeds an [int64_t]: with one more unit of fuel than
    there are offers in the book it returns, unless the fee of a seller eats a whole
    match, and then the tables are in order again (every offer valid, wanted and
    backed, every balance non-negative) and there is exactly as much of every asset as
    before; in a build with [NDEBUG] what is missing is exactly the fees that the
    claims of the result name, of the quote asset.  When it refuses it does so with a
    code that is not [SUCCESS]. *)
Theorem doApply_conserves fuel s qb : world_ok env s -> op_ok ->
  dbBalances (stDb s) !! opQuoteBalance op = Some qb -> (size (dbOffers (stDb s)) < fuel)%nat ->
  wp onlyFee (doApply NDEBUG env op fuel) (applied (balanceAsset qb) s) s.
Proof.
  intros Hw Hop Hq Hf. destruct (op_ok_inv Hop) as (Ha & Hp & Hfe & q & Ec & Hq0).
  destruct (calculateQuote_spec _ _ _ Ha Hp Ec Hq0) as (Hqm & _ & Hval). unfold doApply. xstep.
  eapply wp_mono; [by apply checkOfferValid_ok|]. intros [[[bb qb'] ap]|] s'; [|intros Hn; by xstep].
  intros (-> & Hbb & Hqb & Ob & Oq & Has & Hap). assert (qb' = qb) as -> by congruence.
  pose proof (wo_book _ _ Hw) as Hbook.
  xstep. unfold buildOffer. rewrite Ec, (proj2 (Z.eqb_neq q 0)) by lia. eapply wp_lift; [done|].
  cbn [set_createdAt quoteAmount]. xstep.
  destruct (fee_total (loadFee env (balanceAsset qb) q) (u64 q)) as (f & Ef & Hpct);
    [apply u64_range|by intros e; apply (wo_fees _ _ Hw)|].
  eapply wp_lift; [exact Ef|]. destruct (isOverflow f); [by do 3 xstep|].
  destruct (negb _); [by do 3 xstep|]. cbn zeta. set (o := set_fees (s64 (resPercent f)) (opFee op) _).
  change (quoteAmount o) with q. change (fee o) with (opFee op).
  destruct (Z.leb_spec q (opFee op)); [by do 3 xstep|].
  assert (Hok : forall i b, dbBalances (stDb s) !! i = Some b -> balance_ok b).
  { intros i b. apply row_balance_ok; by destruct Hbook. }
  rewrite lockSelling_spec; [|done|done|done|by eapply Hok..].
  assert (Hend : lockedOf o <= amount (if isBuy o then qb else bb) ->
    wp onlyFee
      (modify (set_stCode MO_SUCCESS);;
       c ← loadOrCreateBalanceFrameForAsset env (commissionID env) (pairQuote ap);
       r ← exchangeIn o (lockedBase o bb) (lockedQuote o qb) c
         (convertWithOffers NDEBUG (filterOffer env (price o)) fuel ap (opOrderBookID op) 0);
       let '(res, x) := r in
       match res with
       | eFilterStop => if bool_decide (exCode x = MO_SUCCESS) then finishOffer ap x else mret None
       | _ => finishOffer ap x
       end) (applied (balanceAsset qb) s) s).
  { intros Hfunds. apply exchange_ok; try done. split; try done.
    { change (baseAmount o) with (opAmount op). lia. }
    { change (quoteAmount o) with q. lia. }
    intros Hb. unfold lockedOf in Hfunds. rewrite Hb in Hfunds.
    destruct (Hok _ _ Hqb) as (B1 & B2 & B3). unfold worth in B3. lia. }
  unfold lockedBase, lockedQuote in Hend.
  destruct (isBuy o); case_bool_decide; cbn [negb]; try (by do 3 xstep); by apply Hend.
Qed.
End apply.

(** ** Deleting offers *)

(** Nothing is thrown. *)
Definition noExn {W} (_ : exn) (_ : W) : Prop := False.

Lemma getLockedAmount_ok o : offer_ok o -> getLockedAmount o = inr (lockedOf o).
Proof.
  intros []. unfold getLockedAmount, lockedOf. destruct (isBuy o).
  - specialize (oo_locked eq_refl).
    rewrite safeSum_spec by (unfold is_u64; apply u64_range).
    rewrite !u64_id by (rewrite ?u64_id; unfold INT64_MAX, UINT64_MAX in *; lia).
    by rewrite (proj2 (Z.leb_le _ _)) by (unfold INT64_MAX, UINT64_MAX in *; lia).
  - by rewrite u64_id by (unfold INT64_MAX, UINT64_MAX in *; lia).
Qed.

(** The tables without an offer, whose funds are unlocked in [b]. *)
Definition deletedDb (o : Offer) (b : Balance) (d : Db) : Db :=
  mkDb (upd (unlocked (lockedOf o) b) (dbBalances d)) (delete (offerID o) (dbOffers d)) (dbPairs d).

Lemma book_covered com d o b : book_ok com d -> dbOffers d !! offerID o = Some o ->
  dbBalances d !! getLockedBalance o = Some b -> 0 <= lockedOf o <= locked b.
Proof.
  intros [] Ho Hb. pose proof (bk_covers _ _ Hb) as Hc. cbn beta in Hc.
  assert (Hn : forall i j p, dbOffers d !! j = Some p -> 0 <= lockedOn i p).
  { intros i j p Hp. apply lockedOn_nonneg, (bo_ok _ _ _ _ (bk_offers j p Hp)). }
  pose proof (Hn (getLockedBalance o) _ _ Ho) as H0.
  pose proof (msum_ge (lockedOn (getLockedBalance o)) _ _ _ (Hn _) Ho) as Hge.
  unfold lockedOn in H0, Hge at 1. rewrite decide_True in H0, Hge by done. unfold offersOn in Hc. lia.
Qed.

Lemma deleted_book com d o b : book_ok com d -> dbOffers d !! offerID o = Some o ->
  dbBalances d !! getLockedBalance o = Some b ->
  book_ok com (deletedDb o b d) /\
  forall asset, total asset (dbBalances (deletedDb o b d)) = total asset (dbBalances d).
Proof.
  intros Hd Ho Hb. pose proof (book_covered _ _ _ _ Hd Ho Hb) as Hc. destruct Hd.
  destruct (bk_rows _ _ Hb). rewrite <- ro_id in Hb.
  assert (Hr : rewrites [(b, unlocked (lockedOf o) b)] (dbBalances d)).
  { split; [apply NoDup_singleton|]. apply Forall_singleton. split; [done|]. split; [done|].
    cbn [fst snd unlocked amount locked set_amount set_locked]. lia. }
  assert (Ht : forall asset, total asset (dbBalances (deletedDb o b d)) = total asset (dbBalances d)).
  { intros asset. change (dbBalances _) with (rewriteRows [(b, unlocked (lockedOf o) b)] (dbBalances d)) at 1.
    rewrite rewrite_total, lsum_cons by done. cbn [fst snd lsum foldr]. rewrite unlocked_worth.
    case_decide; lia. }
  split; [|done]. split; [..|done].
  - by apply (rewrite_rows [(b, unlocked (lockedOf o) b)]).
  - intros asset. rewrite Ht. apply bk_supply.
  - intros j p Hp. cbn [deletedDb dbOffers] in Hp. apply lookup_delete_Some in Hp as [_ Hp]. by apply (book_offer_rewrite _ _ [(b, unlocked (lockedOf o) b)]), bk_offers.
  - eapply covers_mono; [|by apply (rewrite_covers [(b, unlocked (lockedOf o) b)])]. intros i.
    cbn [deletedDb dbOffers]. unfold offersOn. rewrite (msum_delete _ _ _ o) by done.
    rewrite lsum_cons. cbn [fst snd lsum foldr unlocked locked set_amount set_locked]. unfold lockedOn at 2.
    rewrite ro_id. repeat case_decide; congruence || lia.
Qed.

(** [OfferManager::deleteOffer] of an offer of a book that is in order cannot
    fail: it removes the offer, moves all that the offer has locked back into the
    amount of the balance it was locked in, and leaves a book that is in order, with
    as much of every asset as before. *)
Theorem deleteOffer_unlocks com o s : book_ok com (stDb s) -> dbOffers (stDb s) !! offerID o = Some o ->
  wp noExn (deleteOffer o)
    (fun _ s' => exists b, dbBalances (stDb s) !! getLockedBalance o = Some b /\
       s' = set_stDb (deletedDb o b (stDb s)) s /\ book_ok com (stDb s') /\
       forall asset, total asset (dbBalances (stDb s')) = total asset (dbBalances (stDb s))) s.
Proof.
  intros Hd Ho. destruct (bk_offers _ _ Hd _ _ Ho).
  assert (exists b, dbBalances (stDb s) !! getLockedBalance o = Some b) as [b Hb].
  { unfold getLockedBalance. destruct bo_base as (c & Hc & _), bo_quote as (c' & Hc' & _). destruct (isBuy o); eauto. }
  pose proof (book_covered _ _ _ _ Hd Ho Hb) as Hc. pose proof (bk_rows _ _ Hd _ _ Hb) as Hrow.
  pose proof (row_balance_ok _ _ _ (bk_rows _ _ Hd) (bk_supply _ _ Hd) Hb) as Hbok.
  destruct (deleted_book _ _ _ _ Hd Ho Hb) as [Hbook Ht].
  unfold deleteOffer. do 2 xstep. rewrite Hb. xstep. eapply wp_lift; [by apply getLockedAmount_ok|].
  rewrite unlock_ok by done. xstep. eapply wp_tables; [done|].
  eapply (wp_storeRow _ _ _ _ b); [cbn [set_amount set_locked balanceID]; by rewrite (ro_id _ _ Hrow)|..].
  - destruct Hrow. split; cbn [set_amount set_locked balanceID amount locked balanceAsset]; done || lia.
  - by exists b.
Qed.
