(* ===== verification/OfferScenarios.v ===== *)
(** * The exchange on concrete tables

    An executable check of the invariant of the book, with which the theorems are
    applied to concrete tables, and runs in which the code does not do what it is
    meant to do. *)

From Stdlib Require Import ZArith Lia String.
From stdpp Require Import base tactics gmap option list.
From S2P Require Import Prelude ScpTypes LedgerTypes LedgerDelta UtilTypes Balance Offer OfferExchange CreateOffer.
From S2P Require Import ExchangeFacts ExchangeInv ExchangeSteps ExchangeTheorems OfferTheorems.

Open Scope Z_scope.

(** ** Checking a book *)

Definition mapb {K V} `{Countable K} (f : K -> V -> bool) (m : gmap K V) : bool :=
  forallb (fun p => f p.1 p.2) (map_to_list m).

Lemma mapb_spec {K V} `{Countable K} (f : K -> V -> bool) (m : gmap K V) k v :
  mapb f m = true -> m !! k = Some v -> f k v = true.
Proof.
  unfold mapb. rewrite forallb_forall. intros Hf Hk. apply (Hf (k, v)).
  by apply list_elem_of_In, elem_of_map_to_list.
Qed.

Definition offerCheck (o : Offer) : bool :=
  (0 <=? baseAmount o) && (baseAmount o <=? INT64_MAX) && (0 <=? quoteAmount o) && (quoteAmount o <=? INT64_MAX) &&
  (0 <? price o) && (price o <=? INT64_MAX) && (0 <=? fee o) && (fee o <=? INT64_MAX) &&
  (0 <=? percentFee o) && (percentFee o <=? HUNDRED) &&
  (negb (isBuy o) || (quoteAmount o + fee o <=? INT64_MAX)) && (baseAmount o * price o <=? INT64_MAX * ONE).

Definition holdsb (m : gmap N Balance) (i : N) (who : N) (asset : list N) : bool :=
  match m !! i with
  | Some b => bool_decide (balanceAccount b = who) && bool_decide (balanceAsset b = asset)
  | None => false
  end.

Definition bookCheck (com : AccountID) (d : Db) : bool :=
  mapb (fun i b => bool_decide (balanceID b = i) && (0 <=? amount b) && (0 <=? locked b) &&
    isAssetCodeValid (balanceAsset b)) (dbBalances d) &&
  (msum worth (dbBalances d) <=? INT64_MAX) &&
  mapb (fun j o => (offerID o =? j) && offerCheck o &&
    match offerNeedsMore o with inr true => true | _ => false end &&
    negb (bool_decide (ownerID o = com)) && negb (bool_decide (baseAsset o = quoteAsset o)) &&
    holdsb (dbBalances d) (baseBalance o) (ownerID o) (baseAsset o) &&
    holdsb (dbBalances d) (quoteBalance o) (ownerID o) (quoteAsset o)) (dbOffers d) &&
  mapb (fun i b => offersOn i (dbOffers d) <=? locked b) (dbBalances d) &&
  mapb (fun k p => bool_decide ((pairBase p, pairQuote p) = k) &&
    match getMinAllowedPrice p with inr _ => true | inl _ => false end) (dbPairs d).

Lemma offerCheck_sound o : offerCheck o = true -> offer_ok o.
Proof.
  unfold offerCheck. rewrite !andb_true_iff, orb_true_iff, negb_true_iff, !Z.leb_le, Z.ltb_lt.
  intros. split; try lia. intros E. rewrite E in *. intuition congruence.
Qed.

Lemma holdsb_sound (m : gmap N Balance) i who asset : holdsb m i who asset = true -> holds m i who asset.
Proof.
  unfold holdsb. destruct (m !! i) as [b|] eqn:E; [|done].
  rewrite andb_true_iff, !bool_decide_eq_true. intros [H1 H2]. by exists b.
Qed.

Lemma bookCheck_sound com d : bookCheck com d = true -> book_ok com d.
Proof.
  unfold bookCheck. rewrite !andb_true_iff. intros [[[[Hr Hs] Ho] Hc] Hp].
  assert (Hrows : rows_ok (dbBalances d)).
  { intros i b Hi. pose proof (mapb_spec _ _ _ _ Hr Hi) as Hb. cbn beta in Hb.
    rewrite !andb_true_iff, bool_decide_eq_true, !Z.leb_le in Hb. by destruct Hb as [[[]]]. }
  split; [done|..].
  - intros asset. apply Z.leb_le in Hs. etrans; [|exact Hs]. unfold total. apply msum_le. intros i b Hi.
    destruct (Hrows i b Hi). unfold worthIn, worth. case_decide; lia.
  - intros j o Hj. pose proof (mapb_spec _ _ _ _ Ho Hj) as Hb. cbn beta in Hb.
    rewrite !andb_true_iff, !negb_true_iff, !bool_decide_eq_false, Z.eqb_eq in Hb.
    destruct Hb as [[[[[[H1 H2] H3] H4] H5] H6] H7]. split; try done.
    + by apply offerCheck_sound.
    + by destruct (offerNeedsMore o) as [|[]].
    + by apply holdsb_sound.
    + by apply holdsb_sound.
  - intros i b Hi. by apply Z.leb_le, (mapb_spec _ _ i b Hc).
  - intros k p Hk. pose proof (mapb_spec _ _ _ _ Hp Hk) as Hb. cbn beta in Hb.
    rewrite andb_true_iff, bool_decide_eq_true in Hb. destruct Hb as [H1 H2]. split; [done|].
    destruct (getMinAllowedPrice p); [done|]. eauto.
Qed.

(** ** A market *)

Definition BTC : AssetCode := [66; 84; 67]%N.
Definition USD : AssetCode := [85; 83; 68]%N.

(** Accounts 1, 2 and 3 trade, 9 is the one for commissions; every fee is 1%. *)
Definition marketEnv (source : AccountID) : OfferEnv :=
  mkEnv source 9%N 0 (fun _ => Some GENERAL) (fun _ => Some (mkAsset false false true))
    (fun _ _ => Some (mkFee 0 ONE)) (fun _ i => Z.to_N (1000 + i)) (fun i => [i]).

Definition marketPair (restricted : bool) : AssetPair := mkPair BTC USD ONE (2 * ONE) HUNDRED true restricted.

Definition market (restricted : bool) : Db :=
  mkDb (list_to_map (map (fun b => (balanceID b, b))
      [mkBalance 10 1 BTC 1000 0; mkBalance 11 1 USD 1000 0;
       mkBalance 20 2 BTC 1000 0; mkBalance 21 2 USD 1000 0;
       mkBalance 30 3 BTC 1000 0; mkBalance 31 3 USD 1000 0]%N))
    ∅ {[ (BTC, USD) := marketPair restricted ]}.

Definition market0 (restricted : bool) : OpState := mkOpState (market restricted) (mkHeader 9 [] []) MO_SUCCESS.

(** The balances 10, 20, 30 are in BTC, 11, 21, 31 in USD. *)
Definition offer (who : N) (buy : bool) (amount price fee : Z) : ManageOfferOp :=
  mkManage (10 * who) (10 * who + 1) buy amount price fee 0 0.

(** An offer of [who], when the one before it has been applied. *)
Definition place (NDEBUG : bool) (who : N) (buy : bool) (amount price fee : Z) (s : OpState) :
    outcome OpState (option ManageOfferSuccess) :=
  doApply NDEBUG (marketEnv who) (offer who buy amount price fee) 10 s.

Definition after {A} (o : outcome OpState A) : OpState :=
  match o with Ret _ s => s | Exn _ s => s end.

Definition seller1 : OpState := after (place false 1 false 3 ONE 1 (market0 false)).
Definition buyer2 : OpState := after (place false 2 true 2 ONE 1 seller1).

(** What [world_ok] needs of the market. *)
Lemma market_world source (s : OpState) : bookCheck 9 (stDb s) = true -> source <> 9%N ->
  dbBalances (stDb s) !! Z.to_N (1000 + nextGenerated BALANCE (stHeader s)) = None ->
  dbOffers (stDb s) !! nextGenerated OFFER_ENTRY (stHeader s) = None -> world_ok (marketEnv source) s.
Proof.
  intros H1 H2 H3 H4. split; [by apply bookCheck_sound|done|by eauto| |done|done].
  intros asset x f [= <-]. cbn [fixedFee feePercent]. pose proof ONE_bound. unfold HUNDRED. lia.
Qed.

(** The first trade, with the fees to the commission and with the fees lost. *)
Lemma doApply_conserves_witness :
  wp onlyFee (doApply true (marketEnv 2) (offer 2 true 2 ONE 1) 10)
    (applied true (marketEnv 2) USD seller1) seller1 /\
  wp onlyFee (doApply false (marketEnv 2) (offer 2 true 2 ONE 1) 10)
    (applied false (marketEnv 2) USD seller1) seller1.
Proof.
  assert (Hw : world_ok (marketEnv 2) seller1) by (apply market_world; by vm_compute).
  assert (Ho : op_ok (offer 2 true 2 ONE 1)) by (split; by vm_compute).
  split.
  - by apply (doApply_conserves true (marketEnv 2) (offer 2 true 2 ONE 1) 10 seller1 (mkBalance 21 2 USD 1000 0));
      [..|vm_compute; lia].
  - by apply (doApply_conserves false (marketEnv 2) (offer 2 true 2 ONE 1) 10 seller1 (mkBalance 21 2 USD 1000 0));
      [..|vm_compute; lia].
Defined.

(** The offer of the seller is deleted again. *)
Definition restingOffer : Offer :=
  mkOffer 1 0 1 false BTC USD 10 11 3 3 ONE 1 ONE 0.

Lemma deleteOffer_unlocks_witness :
  wp noExn (deleteOffer restingOffer)
    (fun _ s' => exists b, dbBalances (stDb seller1) !! 10%N = Some b /\
       s' = set_stDb (deletedDb restingOffer b (stDb seller1)) seller1 /\ book_ok 9 (stDb s') /\
       forall asset, total asset (dbBalances (stDb s')) = total asset (dbBalances (stDb seller1))) seller1.
Proof.
  apply (deleteOffer_unlocks 9 restingOffer seller1); [apply bookCheck_sound; by vm_compute|by vm_compute].
Defined.

(** A buyer of two units against it, and one of the unit that is left. *)
Definition incoming : Offer := mkOffer 0 0 2 true BTC USD 20 21 2 2 ONE 1 ONE 0.
Definition dust : Offer := mkOffer 1 0 1 false BTC USD 10 11 1 1 ONE 1 ONE 0.

Lemma crossing_of buy sell : offerCheck buy = true -> offerCheck sell = true -> isBuy buy = true ->
  isBuy sell = false -> offerNeedsMore buy = inr true -> offerNeedsMore sell = inr true ->
  price sell <= price buy -> crossing buy sell.
Proof.
  intros H1%offerCheck_sound H2%offerCheck_sound. split; try done; by apply needsMore_true.
Qed.

Lemma exchange_sound_witness :
  exchangeOffers incoming restingOffer = inl feeTooHigh \/
  exists m, exchangeOffers incoming restingOffer = inr m /\ match_ok incoming restingOffer m /\
    sellerFee m < quoteDelta m.
Proof.
  apply (exchange_sound incoming restingOffer incoming restingOffer); [done|done|].
  apply crossing_of; by vm_compute.
Defined.

Lemma dust_match_throws_witness : exchangeOffers incoming dust = inl feeTooHigh.
Proof.
  apply (dust_match_throws incoming dust incoming dust); [done|done|apply crossing_of; by vm_compute|
    by vm_compute|by vm_compute].
Defined.

(** ** Runs that go wrong *)

(** Two units of three are bought; what is left of the offer is worth one unit of the
    quote asset, all of which is the fee of its seller.  Whoever buys at its price
    next gets an exception. *)
Example dust_blocks_the_book :
  (exists o, dbOffers (stDb buyer2) !! 1 = Some o /\ baseAmount o = 1 /\ isBuy o = false) /\
  Forall (fun a => place false 3 true a ONE 1 buyer2 = Exn feeTooHigh (after (place false 3 true a ONE 1 buyer2)))
    [2; 4; 10].
Proof.
  split; [eexists; split; [by vm_compute|done]|]. repeat constructor; by vm_compute.
Qed.

(** The pair has got a minimal price above that of an offer that buys: it is
    cancelled, but its funds stay locked, since [crossOffer] writes the base balance
    twice and the quote balance never. *)
Definition cheapBuyer : OpState := after (place false 2 true 10 ONE 1 (market0 true)).
Definition cancelledBuyer : OpState := after (place false 1 false 10 ONE 1 cheapBuyer).

Example cancelled_buy_keeps_the_lock :
  (exists o, dbOffers (stDb cheapBuyer) !! 1 = Some o /\ lockedOf o = 11) /\
  dbOffers (stDb cancelledBuyer) !! 1 = None /\
  dbBalances (stDb cancelledBuyer) !! 21%N = Some (mkBalance 21 2 USD 989 11) /\
  offersOn 21 (dbOffers (stDb cancelledBuyer)) = 0.
Proof. split; [eexists; split; by vm_compute|]. split_and!; by vm_compute. Qed.

(** With [NDEBUG] the fees of a trade are gone. *)
Example fees_vanish_in_release_builds :
  total USD (dbBalances (stDb seller1)) = 3000 /\
  total USD (dbBalances (stDb (after (place false 2 true 2 ONE 1 seller1)))) = 3000 /\
  total USD (dbBalances (stDb (after (place true 2 true 2 ONE 1 seller1)))) = 2998.
Proof. split_and!; by vm_compute. Qed.
