(* ===== verification/Work.v ===== *)
(** * Units of work

    [work/Work.cpp], [work/WorkParent.cpp] and [work/WorkManagerImpl.cpp].  A work
    waits for its children, runs in steps that are posted to the [io_service], and
    retries after a delay when it fails.

    The works are a heap, [WorkID] being the address of one: a child is made after its
    parent and has a greater one.  Somebody holds every work, so that the weak
    pointers in the closures lock ([HistoryManagerImpl] does, with [mPublishWork] and
    the like).  The members of a subclass are [wData], the virtual functions are
    [Virtuals], and the posted closures are the queue of the [io_service]. *)

From Stdlib Require Import ZArith Lia String.
From stdpp Require Import base tactics gmap option list.
From S2P Require Import Prelude.

Open Scope Z_scope.

Abbreviation WorkID := nat (only parsing).
Abbreviation Name := (list N) (only parsing).

Inductive State :=
| WORK_PENDING
| WORK_RUNNING
| WORK_SUCCESS
| WORK_FAILURE_RETRY
| WORK_FAILURE_RAISE.

#[export] Instance State_eq_dec : EqDecision State.
Proof. solve_decision. Defined.

Inductive Event :=
| EvRun (w : WorkID)
| EvComplete (w : WorkID) (ec : bool).

#[export] Instance Event_eq_dec : EqDecision Event.
Proof. solve_decision. Defined.

(** [for (auto& c : l) f(c)] *)
Fixpoint each {W A} (f : A -> M W ()) (l : list A) : M W () :=
  match l with
  | [] => mret ()
  | a :: l' => f a;; each f l'
  end.

Section work.
Context {D : Type}.

(** [mParent] is nothing for a child of the manager; [wTimer]: the retry timer runs. *)
Record Work := mkWork {
  wParent : option WorkID;
  wName : Name;
  wMaxRetries : Z;
  wRetries : Z;
  wState : State;
  wTimer : bool;
  wChildren : gmap (list N) nat;
  wData : D }.

Definition set_wState st (x : Work) :=
  mkWork (wParent x) (wName x) (wMaxRetries x) (wRetries x) st (wTimer x) (wChildren x) (wData x).
Definition set_wRetries r t (x : Work) :=
  mkWork (wParent x) (wName x) (wMaxRetries x) r (wState x) t (wChildren x) (wData x).
Definition set_wChildren c (x : Work) :=
  mkWork (wParent x) (wName x) (wMaxRetries x) (wRetries x) (wState x) (wTimer x) c (wData x).
Definition set_wData d (x : Work) :=
  mkWork (wParent x) (wName x) (wMaxRetries x) (wRetries x) (wState x) (wTimer x) (wChildren x) d.

(** The works, the children of the manager, what is posted, and the next address. *)
Record WS := mkWS {
  works : gmap nat Work;
  mgrChildren : gmap (list N) nat;
  queue : list Event;
  nextWork : WorkID }.

Definition set_works m (s : WS) := mkWS m (mgrChildren s) (queue s) (nextWork s).
Definition set_mgrChildren m (s : WS) := mkWS (works s) m (queue s) (nextWork s).
Definition set_queue q (s : WS) := mkWS (works s) (mgrChildren s) q (nextWork s).
Definition set_nextWork n (s : WS) := mkWS (works s) (mgrChildren s) (queue s) n.

Definition putWork (w : WorkID) (x : Work) (s : WS) : WS := set_works (<[w := x]> (works s)) s.

(** [this->] *)
Definition getWork (w : WorkID) : M WS Work := s ← get; deref (works s !! w).

Definition onWork (w : WorkID) (f : Work -> Work) : M WS () :=
  x ← getWork w; modify (putWork w (f x)).

(** [getIOService().post] *)
Definition post (e : Event) : M WS () := modify (fun s => set_queue (queue s ++ [e]) s).

(** The virtual functions of a subclass. *)
Record Virtuals := mkVirtuals {
  onReset : WorkID -> M WS ();
  onStart : WorkID -> M WS ();
  onRun : WorkID -> M WS ();
  onFailureRetry : WorkID -> M WS ();
  onFailureRaise : WorkID -> M WS ();
  onSuccess : WorkID -> M WS State }.

(** ** States *)

Definition getState (w : WorkID) : M WS State := x ← getWork w; mret (wState x).

Definition isDone (x : Work) : bool :=
  bool_decide (wState x = WORK_SUCCESS) || bool_decide (wState x = WORK_FAILURE_RAISE).

(** [Work::setState]: past the limit a retry is a failure. *)
Definition limited (st : State) (x : Work) : State :=
  if bool_decide (st = WORK_FAILURE_RETRY) && (wMaxRetries x <=? wRetries x) then WORK_FAILURE_RAISE else st.

Definition setState (st : State) (w : WorkID) : M WS () := onWork w (fun x => set_wState (limited st x) x).

(** [WorkParent::anyChildRaiseFailure], [allChildrenSuccessful], [allChildrenDone] *)
Definition childStates (cs : gmap (list N) nat) (s : WS) : list (option State) :=
  map (fun c => wState <$> works s !! c.2) (map_asc cs).

Definition anyChildRaiseFailure (cs : gmap (list N) nat) (s : WS) : bool :=
  existsb (fun st => bool_decide (st = Some WORK_FAILURE_RAISE)) (childStates cs s).

Definition allChildrenSuccessful (cs : gmap (list N) nat) (s : WS) : bool :=
  forallb (fun st => bool_decide (st = Some WORK_SUCCESS)) (childStates cs s).

Definition allChildrenDone (cs : gmap (list N) nat) (s : WS) : bool :=
  forallb (fun st => bool_decide (st = Some WORK_SUCCESS) || bool_decide (st = Some WORK_FAILURE_RAISE))
    (childStates cs s).

(** ** Scheduling *)

Definition scheduleRun (w : WorkID) : M WS () := post (EvRun w).
Definition scheduleComplete (ec : bool) (w : WorkID) : M WS () := post (EvComplete w ec).
Definition scheduleSuccess : WorkID -> M WS () := scheduleComplete false.
Definition scheduleFailure : WorkID -> M WS () := scheduleComplete true.

(** [Work::scheduleRetry]: a timer that already runs starts again. *)
Definition scheduleRetry (w : WorkID) : M WS () :=
  st ← getState w;
  if decide (st = WORK_FAILURE_RETRY) then onWork w (fun x => set_wRetries (wRetries x) true x)
  else throw (RuntimeError "retrying in a state that is not WORK_FAILURE_RETRY").

(** [Work::advance]; the children are [advanceChildren]. *)
Fixpoint advance (fuel : nat) (w : WorkID) : M WS () :=
  match fuel with
  | O => throw OutOfFuel
  | S fuel' =>
      x ← getWork w;
      if decide (wState x = WORK_PENDING) then
        each (advance fuel') (map snd (map_asc (wChildren x)));;
        s ← get;
        if allChildrenSuccessful (wChildren x) s then scheduleRun w
        else if anyChildRaiseFailure (wChildren x) s then scheduleFailure w
        else mret ()
      else mret ()
  end.

(** A child has a greater address than its parent: this is deep enough. *)
Definition advanceW (w : WorkID) : M WS () := s ← get; advance (S (nextWork s)) w.

Definition advanceChildren (cs : gmap (list N) nat) : M WS () := each advanceW (map snd (map_asc cs)).

(** [WorkParent::clearChildren], which a subclass may call. *)
Definition clearChildren (w : WorkID) : M WS () := onWork w (set_wChildren ∅).

(** [WorkManagerImpl::notify] *)
Definition notifyManager (child : Name) : M WS () :=
  s ← get;
  match mgrChildren s !! child with
  | None => mret ()
  | Some c =>
      x ← getWork c;
      (if isDone x then modify (set_mgrChildren (delete child (mgrChildren s))) else mret ());;
      s ← get;
      advanceChildren (mgrChildren s)
  end.

(** [Work::notifyParent] and [Work::notify] *)
Definition notifyParent (w : WorkID) : M WS () :=
  x ← getWork w;
  match wParent x with
  | None => notifyManager (wName x)
  | Some p => advanceW p
  end.

(** ** What the closures call *)

Section virtual.
Context (v : Virtuals).

Definition reset (w : WorkID) : M WS () := setState WORK_PENDING w;; onReset v w.

Definition run (w : WorkID) : M WS () :=
  st ← getState w;
  (if decide (st = WORK_PENDING) then onStart v w else mret ());;
  setState WORK_RUNNING w;;
  onRun v w.

Definition complete (ec : bool) (w : WorkID) : M WS () :=
  (if ec : bool then setState WORK_FAILURE_RETRY w else st ← onSuccess v w; setState st w);;
  st ← getState w;
  match st with
  | WORK_SUCCESS => notifyParent w
  | WORK_FAILURE_RETRY => onFailureRetry v w;; scheduleRetry w
  | WORK_FAILURE_RAISE => onFailureRaise v w;; notifyParent w
  | WORK_PENDING => advanceW w
  | WORK_RUNNING => scheduleRun w
  end.

(** The callback of the retry timer. *)
Definition retryTimer (w : WorkID) : M WS () :=
  onWork w (fun x => set_wRetries (wRetries x + 1) false x);;
  reset w;;
  advanceW w.

(** [weak.lock()] *)
Definition locked (w : WorkID) (m : M WS ()) : M WS () :=
  s ← get; match works s !! w with Some _ => m | None => mret () end.

Definition handle (e : Event) : M WS () :=
  match e with
  | EvRun w => locked w (run w)
  | EvComplete w ec => locked w (complete ec w)
  end.

(** The [io_service] calls the first of the closures. *)
Definition crank : M WS () :=
  s ← get;
  match queue s with
  | [] => mret ()
  | e :: q => modify (set_queue q);; handle e
  end.

Fixpoint cranks (n : nat) : M WS () :=
  match n with O => mret () | S n' => crank;; cranks n' end.

(** [WorkParent::addWork]: the child is made, entered and reset. *)
Definition addWork (parent : option WorkID) (name : Name) (maxRetries : Z) (d : D) : M WS WorkID :=
  s ← get;
  cs ← match parent with None => mret (mgrChildren s) | Some p => x ← getWork p; mret (wChildren x) end;
  match cs !! name with
  | Some _ => throw (RuntimeError "duplicate child work")
  | None =>
      let w := nextWork s in
      modify (set_nextWork (S w));;
      modify (putWork w (mkWork parent name maxRetries 0 WORK_PENDING false ∅ d));;
      match parent with
      | None => modify (set_mgrChildren (<[name := w]> (mgrChildren s)))
      | Some p => onWork p (fun x => set_wChildren (<[name := w]> (wChildren x)) x)
      end;;
      reset w;;
      mret w
  end.

(** What can happen next: a closure is called, a timer expires, or something
    asynchronous that a work has started ends ([callComplete]). *)
Inductive step (s : WS) : WS -> Prop :=
| step_event e q s' : queue s = e :: q -> handle e (set_queue q s) = Ret () s' -> step s s'
| step_timer w x s' : works s !! w = Some x -> wTimer x = true -> retryTimer w s = Ret () s' -> step s s'
| step_async w ec s' : complete ec w s = Ret () s' -> step s s'
| step_add parent name maxRetries d w s' : 0 <= maxRetries ->
    addWork parent name maxRetries d s = Ret w s' -> step s s'.

End virtual.

(** The virtual functions of [Work] itself. *)
Definition baseWork : Virtuals :=
  mkVirtuals (fun _ => mret ()) (fun _ => mret ()) scheduleSuccess (fun _ => mret ()) (fun _ => mret ())
    (fun _ => mret WORK_SUCCESS).

End work.

Arguments Work : clear implicits.
Arguments WS : clear implicits.
Arguments Virtuals : clear implicits.

Definition noWorks {D} : WS D := mkWS ∅ ∅ [] 0.
