(* ===== verification/WorkTheorems.v ===== *)
(** * Works: the invariant and the bound of retries

    The shape of the heap of works, and what [advance] does: it changes no work and
    posts only runs of works that are pending with all children successful, and
    failures of works with a child that has failed for good; and that retries are bounded
    whatever the subclasses do. *)

From Stdlib Require Import ZArith Lia String.
From stdpp Require Import base tactics gmap option list relations.
From S2P Require Import Prelude Work.

Open Scope Z_scope.

Section facts.
Context {D : Type}.
Implicit Types (s : WS D) (x y : Work D) (w p c : nat) (n : list N) (q evs : list Event).

(** ** The shape *)

Record forest s : Prop := {
  fr_id : forall w x, works s !! w = Some x -> (w < nextWork s)%nat;
  fr_parent : forall w x p, works s !! w = Some x -> wParent x = Some p ->
    (p < w)%nat /\ exists y, works s !! p = Some y /\ wChildren y !! wName x = Some w;
  fr_child : forall p y n c, works s !! p = Some y -> wChildren y !! n = Some c ->
    exists x, works s !! c = Some x /\ wParent x = Some p /\ wName x = n;
  fr_root : forall n c, mgrChildren s !! n = Some c ->
    exists x, works s !! c = Some x /\ wParent x = None /\ wName x = n }.

Lemma fr_lt s p y n c : forest s -> works s !! p = Some y -> wChildren y !! n = Some c -> (p < c)%nat.
Proof.
  intros Hf Hp Hc. destruct (fr_child _ Hf _ _ _ _ Hp Hc) as (x & Hx & Px & _).
  by destruct (fr_parent _ Hf _ _ _ Hx Px).
Qed.

Lemma forest_queue s q : forest s -> forest (set_queue q s).
Proof. by intros []. Qed.

(** [allChildrenSuccessful] as a proposition. *)
Definition childrenDone (cs : gmap (list N) nat) (m : gmap nat (Work D)) : Prop :=
  forall n c, cs !! n = Some c -> exists x, m !! c = Some x /\ wState x = WORK_SUCCESS.

Lemma allChildrenSuccessful_spec cs s : allChildrenSuccessful cs s = true <-> childrenDone cs (works s).
Proof.
  unfold allChildrenSuccessful, childStates. rewrite forallb_forall. split.
  - intros Ha n c Hc. assert (Hs : wState <$> works s !! c = Some WORK_SUCCESS).
    { apply (bool_decide_eq_true _), Ha, in_map_iff. exists (n, c). split; [done|].
      by apply list_elem_of_In, elem_of_map_asc. }
    apply fmap_Some in Hs as (x & Hx & Es). by exists x.
  - intros Hd st Hst. apply in_map_iff in Hst as ([n c] & <- & Hin%list_elem_of_In%elem_of_map_asc).
    destruct (Hd n c Hin) as (x & Hx & Es). apply bool_decide_eq_true. cbn [snd]. by rewrite Hx, <- Es.
Qed.

(** ** What [advance] posts *)

(** A run of a work whose children are successful, or the failure of one with a child
    that failed. *)
Definition fair s (e : Event) : Prop :=
  match e with
  | EvRun w => exists x, works s !! w = Some x /\ wState x = WORK_PENDING /\ childrenDone (wChildren x) (works s)
  | EvComplete w ec => ec = true /\ exists x, works s !! w = Some x /\ wState x = WORK_PENDING /\
      anyChildRaiseFailure (wChildren x) s = true
  end.

(** The works that [advance] of [w] gets to. *)
Inductive under s : nat -> nat -> Prop :=
| under_refl w : under s w w
| under_child w x n c c' : works s !! w = Some x -> wState x = WORK_PENDING -> wChildren x !! n = Some c ->
    under s c c' -> under s w c'.

Definition due s w : Prop :=
  exists x, works s !! w = Some x /\ wState x = WORK_PENDING /\ childrenDone (wChildren x) (works s).

(** [m] only posts events: fair ones, and the runs of [must]. *)
Definition posts s (m : M (WS D) ()) (must : nat -> Prop) : Prop :=
  forall q, exists evs, m (set_queue q s) = Ret () (set_queue (q ++ evs) s) /\ Forall (fair s) evs /\
    forall c, must c -> due s c -> EvRun c ∈ evs.

Lemma posts_nil s (must : nat -> Prop) : (forall c, must c -> due s c -> False) -> posts s (mret ()) must.
Proof.
  intros Hm q. exists []. rewrite app_nil_r. split_and!; [done|by constructor|]. intros c H1 H2. by destruct (Hm c).
Qed.

Lemma posts_one s e (must : nat -> Prop) : fair s e -> (forall c, must c -> due s c -> e = EvRun c) ->
  posts s (post e) must.
Proof.
  intros He Hm q. exists [e]. split_and!; [done|by apply Forall_singleton|].
  intros c H1 H2. rewrite (Hm c H1 H2). by apply list_elem_of_singleton.
Qed.

Lemma posts_seq s m1 m2 (must1 must2 : nat -> Prop) : posts s m1 must1 -> posts s m2 must2 ->
  posts s (m1;; m2) (fun c => must1 c \/ must2 c).
Proof.
  intros H1 H2 q. destruct (H1 q) as (e1 & E1 & F1 & M1). destruct (H2 (q ++ e1)) as (e2 & E2 & F2 & M2).
  exists (e1 ++ e2). rewrite (run_bind _ _ _ _ _ E1), E2, app_assoc.
  split_and!; [done|by apply Forall_app|]. intros c [Hc|Hc] Hd; apply elem_of_app; [left; by apply M1|right; by apply M2].
Qed.

Lemma posts_mono s m (must must' : nat -> Prop) : posts s m must -> (forall c, must' c -> must c) -> posts s m must'.
Proof. intros Hp Hm q. destruct (Hp q) as (evs & E & F & Hin). exists evs. split_and!; auto. Qed.

Lemma posts_each s (f : nat -> M (WS D) ()) (must : nat -> nat -> Prop) l :
  (forall a, a ∈ l -> posts s (f a) (must a)) -> posts s (each f l) (fun c => exists a, a ∈ l /\ must a c).
Proof.
  induction l as [|a l IH]; intros Hf; cbn [each].
  { apply posts_nil. by intros c (a & ?%not_elem_of_nil & _). }
  eapply posts_mono; [apply posts_seq; [apply Hf, list_elem_of_here|apply IH]|].
  - intros b Hb. by apply Hf, list_elem_of_further.
  - intros c (b & [->|Hb]%elem_of_cons & Hc); eauto.
Qed.

(** Reading the state does not depend on the queue. *)
Lemma posts_get s (k : WS D -> M (WS D) ()) (must : nat -> Prop) :
  (forall q, posts s (k (set_queue q s)) must) -> posts s (get ≫= k) must.
Proof. intros Hk q. apply (Hk q q). Qed.

Lemma posts_getWork s w x (k : Work D -> M (WS D) ()) (must : nat -> Prop) : works s !! w = Some x ->
  posts s (k x) must -> posts s (getWork w ≫= k) must.
Proof.
  intros Hx Hk q. destruct (Hk q) as (evs & E & HH). exists evs. split; [|done].
  unfold getWork, mbind, M_bind, get, deref. cbn [set_queue works]. by rewrite Hx.
Qed.

Lemma advance_posts s fuel : forest s -> forall w x, works s !! w = Some x -> (nextWork s < w + fuel)%nat ->
  posts s (advance fuel w) (under s w).
Proof.
  intros Hf. induction fuel as [|fuel IH]; intros w x Hx Hfu; [destruct (fr_id _ Hf _ _ Hx); lia|].
  cbn [advance]. apply (posts_getWork _ _ x); [done|]. case_decide as Hp.
  - eapply posts_mono.
    + apply posts_seq.
      * apply (posts_each s _ (under s)). intros c Hc.
        apply list_elem_of_fmap in Hc as ([n c'] & -> & Hin%elem_of_map_asc). cbn [snd].
        destruct (fr_child _ Hf _ _ _ _ Hx Hin) as (y & Hy & _). pose proof (fr_lt _ _ _ _ _ Hf Hx Hin).
        apply (IH c' y Hy). lia.
      * apply posts_get. intros q.
        instantiate (1 := fun c => c = w).
        destruct (allChildrenSuccessful (wChildren x) (set_queue q s)) eqn:Ea.
        { apply allChildrenSuccessful_spec in Ea. apply posts_one; [by exists x|]. by intros c ->. }
        assert (Hn : ~ childrenDone (wChildren x) (works s)).
        { intros Hd. by rewrite (proj2 (allChildrenSuccessful_spec _ (set_queue q s)) Hd) in Ea. }
        destruct (anyChildRaiseFailure (wChildren x) (set_queue q s)) eqn:Er.
        { apply posts_one; [split; [done|by exists x]|]. intros c -> (x' & Hx' & _ & Hd). destruct Hn. by simplify_eq. }
        apply posts_nil. intros c -> (x' & Hx' & _ & Hd). destruct Hn. by simplify_eq.
    + intros c Hu. destruct Hu as [w|w x' n c c' Hx' Hp' Hc Hu]; [by right|left].
      simplify_eq. exists c. split; [|done]. apply list_elem_of_fmap. exists (n, c). split; [done|].
      by apply elem_of_map_asc.
  - apply posts_nil. intros c Hu (y & Hy & Py & _). destruct Hu as [w|w x' n c c' Hx' Hp' Hc Hu]; simplify_eq.
Qed.

Lemma advanceW_posts s w x : forest s -> works s !! w = Some x -> posts s (advanceW w) (under s w).
Proof.
  intros Hf Hx. unfold advanceW. apply posts_get. intros q. cbn [set_queue nextWork].
  apply (advance_posts s _ Hf w x Hx). lia.
Qed.

Lemma advanceChildren_posts s cs : forest s ->
  (forall n c, cs !! n = Some c -> is_Some (works s !! c)) ->
  posts s (advanceChildren cs) (fun c => exists n r, cs !! n = Some r /\ under s r c).
Proof.
  intros Hf Hcs. unfold advanceChildren. eapply posts_mono.
  - apply (posts_each s _ (under s)). intros c Hc.
    apply list_elem_of_fmap in Hc as ([n c'] & -> & Hin%elem_of_map_asc).
    destruct (Hcs _ _ Hin) as [x Hx]. by apply (advanceW_posts s _ x).
  - intros c (n & r & Hr & Hu). exists r. split; [|done].
    apply list_elem_of_fmap. exists (n, r). split; [done|]. by apply elem_of_map_asc.
Qed.

End facts.

(** Nothing is said of what is thrown. *)
Definition anyExn {W} (_ : exn) (_ : W) : Prop := True.

(** ** Retries *)

Section retries.
Context {D : Type}.
Implicit Types (s : WS D) (x y : Work D) (w p c : nat).

(** A timer runs, and a state says retry, only when there is a retry left. *)
Record retry_ok x : Prop := {
  rk_nonneg : 0 <= wRetries x;
  rk_max : wRetries x <= wMaxRetries x;
  rk_timer : wTimer x = true -> wRetries x < wMaxRetries x;
  rk_state : wState x = WORK_FAILURE_RETRY -> wRetries x < wMaxRetries x }.

Definition retries_ok s : Prop := forall w x, works s !! w = Some x -> retry_ok x.

(** What a subclass may do in its functions: anything that leaves the retries of all
    works in order. *)
Class Polite (v : Virtuals D) := {
  polite_reset w s : retries_ok s -> wp anyExn (onReset v w) (fun _ => retries_ok) s;
  polite_start w s : retries_ok s -> wp anyExn (onStart v w) (fun _ => retries_ok) s;
  polite_run w s : retries_ok s -> wp anyExn (onRun v w) (fun _ => retries_ok) s;
  polite_retry w s : retries_ok s -> wp anyExn (onFailureRetry v w) (fun _ => retries_ok) s;
  polite_raise w s : retries_ok s -> wp anyExn (onFailureRaise v w) (fun _ => retries_ok) s;
  polite_success w s : retries_ok s -> wp anyExn (onSuccess v w) (fun _ => retries_ok) s }.

Lemma wp_getWork w s (Q : Work D -> WS D -> Prop) :
  (forall x, works s !! w = Some x -> Q x s) -> wp anyExn (getWork w) Q s.
Proof.
  intros HQ. unfold wp, getWork, mbind, M_bind, get, deref. destruct (works s !! w) as [x|] eqn:E; [|done].
  by apply HQ.
Qed.

Lemma wp_onWork w f s : retries_ok s -> (forall x, works s !! w = Some x -> retry_ok x -> retry_ok (f x)) ->
  wp anyExn (onWork w f) (fun _ => retries_ok) s.
Proof.
  intros Hs Hf. apply wp_bind, wp_getWork. intros x Hx. apply wp_modify. intros w' x'.
  unfold putWork, set_works. cbn [works]. intros [[<- <-]|[_ Hx']]%lookup_insert_Some; [|by apply (Hs w')].
  apply Hf; [done|]. by apply (Hs w).
Qed.

Lemma setState_ok st w s : retries_ok s -> wp anyExn (setState st w) (fun _ => retries_ok) s.
Proof.
  intros Hs. apply wp_onWork; [done|]. intros x _ []. split; try done.
  cbn [wState set_wState wRetries wMaxRetries]. unfold limited.
  destruct (Z.leb_spec (wMaxRetries x) (wRetries x)); [|done].
  case_bool_decide; cbn [andb]; [done|]. intros ->. done.
Qed.

(** [advance] changes no work. *)
Lemma each_works (f : nat -> M (WS D) ()) l s :
  (forall a s, wp anyExn (f a) (fun _ s' => works s' = works s) s) ->
  wp anyExn (each f l) (fun _ s' => works s' = works s) s.
Proof.
  intros Hf. revert s. induction l as [|a l IH]; intros s; [done|]. cbn [each]. apply wp_bind.
  eapply wp_mono; [apply Hf|]. intros [] s1 <-. apply IH.
Qed.

Lemma advance_works fuel w s : wp anyExn (advance fuel w) (fun _ s' => works s' = works s) s.
Proof.
  revert w s. induction fuel as [|fuel IH]; intros w s; [done|]. cbn [advance].
  apply wp_bind, wp_getWork. intros x _. case_decide; [|done]. apply wp_bind.
  eapply wp_mono; [apply each_works, IH|]. intros [] s1 E. apply wp_bind, wp_get. by repeat case_match.
Qed.

Lemma advanceW_works w s : wp anyExn (advanceW w) (fun _ s' => works s' = works s) s.
Proof. apply wp_bind, wp_get, advance_works. Qed.

Lemma keeps_ok (m : M (WS D) ()) s : wp anyExn m (fun _ s' => works s' = works s) s -> retries_ok s ->
  wp anyExn m (fun _ => retries_ok) s.
Proof. intros Hm Hs. eapply wp_mono; [exact Hm|]. intros [] s' E. unfold retries_ok. by rewrite E. Qed.

Lemma notifyParent_works w s : wp anyExn (notifyParent w) (fun _ s' => works s' = works s) s.
Proof.
  apply wp_bind, wp_getWork. intros x _. destruct (wParent x); [apply advanceW_works|].
  apply wp_bind, wp_get. destruct (mgrChildren s !! wName x); [|done].
  apply wp_bind, wp_getWork. intros y _. apply wp_bind.
  eapply (wp_mono _ _ (fun _ s' => works s' = works s)); [by destruct (isDone y)|].
  intros [] s1 <-. apply wp_bind, wp_get, each_works, advanceW_works.
Qed.

Section virtual.
Context (v : Virtuals D) `{!Polite v}.

Lemma reset_ok w s : retries_ok s -> wp anyExn (reset v w) (fun _ => retries_ok) s.
Proof.
  intros Hs. apply wp_bind. eapply wp_mono; [by apply setState_ok|]. intros [] s1. apply polite_reset.
Qed.

Lemma complete_ok ec w s : retries_ok s -> wp anyExn (complete v ec w) (fun _ => retries_ok) s.
Proof.
  intros Hs. apply wp_bind. eapply (wp_mono _ _ (fun _ => retries_ok)).
  { destruct ec; [by apply setState_ok|]. apply wp_bind. eapply wp_mono; [by apply polite_success|].
    intros st s1 H1. by apply setState_ok. }
  intros [] s1 Hs1. apply wp_bind, wp_bind, wp_getWork. intros x _. apply wp_ret. destruct (wState x).
  - apply keeps_ok; [apply advanceW_works|done].
  - done.
  - apply keeps_ok; [apply notifyParent_works|done].
  - apply wp_bind. eapply wp_mono; [by apply polite_retry|]. intros [] s2 Hs2.
    apply wp_bind, wp_bind, wp_getWork. intros y Hy. apply wp_ret. case_decide as Hst; [|done].
    apply wp_onWork; [done|]. intros z Hz []. simplify_eq. split; try done.
    intros _. cbn [wRetries wMaxRetries set_wRetries]. by apply rk_state0.
  - apply wp_bind. eapply wp_mono; [by apply polite_raise|]. intros [] s2 Hs2.
    apply keeps_ok; [apply notifyParent_works|done].
Qed.

Lemma run_ok w s : retries_ok s -> wp anyExn (run v w) (fun _ => retries_ok) s.
Proof.
  intros Hs. apply wp_bind, wp_bind, wp_getWork. intros x _. apply wp_ret. apply wp_bind.
  eapply (wp_mono _ _ (fun _ => retries_ok)); [case_decide; [by apply polite_start|done]|].
  intros [] s1 H1. apply wp_bind. eapply wp_mono; [by apply setState_ok|]. intros [] s2. apply polite_run.
Qed.

Lemma wp_run (m : M (WS D) ()) (Q : () -> WS D -> Prop) s s' : wp anyExn m Q s -> m s = Ret () s' -> Q () s'.
Proof. unfold wp. intros Hw E. by rewrite E in Hw. Qed.

Lemma locked_ok w m s : retries_ok s -> (retries_ok s -> wp anyExn m (fun _ => retries_ok) s) ->
  wp anyExn (locked w m) (fun _ => retries_ok) s.
Proof. intros Hs Hm. apply wp_bind, wp_get. destruct (works s !! w); [by apply Hm|done]. Qed.

(** The timer is off and the work pending before anything else happens. *)
Lemma retryTimer_ok w x s : retries_ok s -> works s !! w = Some x -> wTimer x = true ->
  wp anyExn (retryTimer v w) (fun _ => retries_ok) s.
Proof using Polite0.
  intros Hs Hx Ht. destruct (Hs _ _ Hx). specialize (rk_timer0 Ht).
  apply wp_bind, wp_bind, wp_getWork. intros x0 Hx0. simplify_eq. apply wp_modify.
  apply wp_bind, wp_bind, wp_bind, wp_getWork. intros y Hy. apply wp_modify.
  cbn [putWork set_works works] in Hy. rewrite lookup_insert_eq in Hy. simplify_eq.
  eapply wp_mono; [apply polite_reset|intros [] s1 Hs1; apply keeps_ok; [apply advanceW_works|done]].
  intros w' z. unfold putWork, set_works. cbn [works]. rewrite insert_insert_eq.
  intros [[<- <-]|[_ Hz]]%lookup_insert_Some; [|by apply (Hs w')].
  split; cbn [set_wState set_wRetries wRetries wMaxRetries wTimer wState limited]; done || lia.
Qed.

Lemma addWork_ok parent name mx d s : 0 <= mx -> retries_ok s ->
  wp anyExn (addWork v parent name mx d) (fun _ => retries_ok) s.
Proof using Polite0.
  intros Hmx Hs. apply wp_bind, wp_get, wp_bind.
  eapply (wp_mono _ _ (fun _ s' => s' = s)).
  { destruct parent; [apply wp_bind, wp_getWork; by intros|done]. }
  intros cs _ ->. destruct (cs !! name); [done|]. apply wp_bind, wp_modify, wp_bind, wp_modify, wp_bind.
  set (s1 := putWork _ _ _). assert (Hs1 : retries_ok s1).
  { intros w x Hx. unfold s1, putWork, set_works in Hx. cbn [works] in Hx.
    apply lookup_insert_Some in Hx as [[_ <-]|[_ Hx]]; [by split|by apply (Hs w)]. }
  clearbody s1. eapply (wp_mono _ _ (fun _ => retries_ok)).
  - destruct parent as [p|]; [|done]. apply wp_onWork; [done|]. by intros x _ [].
  - intros [] s2 Hs2. apply wp_bind. eapply wp_mono; [by apply reset_ok|]. by intros [] s3 Hs3.
Qed.

(** C39. However works fail, and whatever the functions of their classes do that leaves
    the counters of retries in order: after any closures, timers, asynchronous ends
    and additions of works, every work has retried at most as often as it may, and its
    timer runs, or its state says retry, only when it may retry once more. *)
Theorem retries_bounded s s' : retries_ok s -> rtc (step v) s s' -> retries_ok s'.
Proof using Polite0.
  intros Hs Hr. induction Hr as [|s s1 s2 Hstep _ IH]; [done|]. apply IH.
  destruct Hstep as [e q s1 Eq E|w x s1 Hx Ht E|w ec s1 E|parent name mx d w s1 Hmx E].
  - apply (wp_run _ (fun _ => retries_ok) _ _) in E; [done|]. destruct e as [w|w ec]; cbn [handle]; (apply locked_ok; [done|intros ?]);
      [by apply run_ok|by apply complete_ok].
  - apply (wp_run _ (fun _ => retries_ok) _ _) in E; [done|]. by apply (retryTimer_ok _ x).
  - apply (wp_run _ (fun _ => retries_ok) _ _) in E; [done|]. by apply complete_ok.
  - pose proof (addWork_ok parent name mx d s Hmx Hs) as Ha. unfold wp in Ha. by rewrite E in Ha.
Qed.

End virtual.

#[export] Instance baseWork_polite : Polite (baseWork (D := D)).
Proof. by split. Qed.

End retries.
