(* ===== verification/WorkLiveness.v ===== *)
(** * Works end

    Works that end after some number of steps: once they are added and advanced, the
    queue of the [io_service] runs empty, and then every work has succeeded and the
    manager has let go of all of them.  The measure is lexicographic: the pending
    works, then the steps that are left and the weight of the queue. *)

From Stdlib Require Import ZArith Lia String.
From stdpp Require Import base tactics gmap option list relations.
From S2P Require Import Prelude Work WorkTheorems.

Open Scope Z_scope.

(** A class of works that succeed: [onRun] schedules success, and [onSuccess] asks to
    run on only while [left] gets smaller. *)
Class Finishing {D : Type} (v : Virtuals D) (left : D -> nat) := {
  fi_reset w : onReset v w = mret ();
  fi_start w : onStart v w = mret ();
  fi_run w : onRun v w = scheduleSuccess w;
  fi_success w s x : works s !! w = Some x ->
    onSuccess v w s = Ret WORK_SUCCESS s \/
    exists d, onSuccess v w s = Ret WORK_RUNNING (putWork w (set_wData d x) s) /\ (left d < left (wData x))%nat }.

Section live.
Context {D : Type} (v : Virtuals D) (left : D -> nat) `{!Finishing v left}.
Implicit Types (s : WS D) (x y : Work D) (w p c : nat) (n : list N).

(** ** The invariant *)

(** No work has failed. *)
Definition unfailed s : Prop := forall w x, works s !! w = Some x ->
  wState x = WORK_PENDING \/ wState x = WORK_RUNNING \/ wState x = WORK_SUCCESS.

Record live s : Prop := {
  lv_forest : forest s;
  lv_states : unfailed s;
  lv_events : forall e, e ∈ queue s ->
    exists w, is_Some (works s !! w) /\ (e = EvRun w \/ e = EvComplete w false);
  lv_running : forall w x, works s !! w = Some x -> wState x = WORK_RUNNING ->
    EvRun w ∈ queue s \/ EvComplete w false ∈ queue s;
  lv_pending : forall w, due s w -> EvRun w ∈ queue s;
  lv_roots : forall n c x, mgrChildren s !! n = Some c -> works s !! c = Some x -> wState x <> WORK_SUCCESS }.

(** ** The measure *)

Definition pendingOf x : Z := if decide (wState x = WORK_PENDING) then 1 else 0.
Definition leftOf x : Z := 2 * Z.of_nat (left (wData x)).

Definition isPending s w : bool :=
  match works s !! w with Some x => bool_decide (wState x = WORK_PENDING) | None => false end.

Definition weight s (e : Event) : Z :=
  match e with
  | EvRun w => if isPending s w then 0 else 2
  | EvComplete _ _ => 1
  end.

Definition queueWeight s (q : list Event) : Z := foldr (fun e acc => weight s e + acc) 0 q.

Definition pendings s : Z := msum pendingOf (works s).
Definition rest s : Z := msum leftOf (works s) + queueWeight s (queue s).

(** [s'] is less than [s]. *)
Definition shrinks s s' : Prop :=
  pendings s' < pendings s \/ pendings s' = pendings s /\ rest s' < rest s.

(** A step forward, in which no work disappears. *)
Definition progress s s' : Prop := live s' /\ shrinks s s' /\ dom (works s') = dom (works s).

Lemma pendings_nonneg s : 0 <= pendings s.
Proof. apply msum_nonneg. intros w x _. unfold pendingOf. case_decide; lia. Qed.

Lemma weight_nonneg s e : 0 <= weight s e.
Proof. destruct e; cbn [weight]; [destruct (isPending s w)|]; lia. Qed.

Lemma queueWeight_nonneg s q : 0 <= queueWeight s q.
Proof. unfold queueWeight. induction q as [|e q IH]; cbn [foldr]; [lia|]. pose proof (weight_nonneg s e). lia. Qed.

Lemma rest_nonneg s : 0 <= rest s.
Proof.
  unfold rest. pose proof (queueWeight_nonneg s (queue s)).
  assert (0 <= msum leftOf (works s)); [|lia]. apply msum_nonneg. intros w x _. unfold leftOf. lia.
Qed.

Lemma queueWeight_app s q1 q2 : queueWeight s (q1 ++ q2) = queueWeight s q1 + queueWeight s q2.
Proof. unfold queueWeight. induction q1 as [|e q1 IH]; cbn [app foldr]; lia. Qed.

(** Runs of pending works weigh nothing. *)
Lemma pending_weight s evs : Forall (fun e => exists w, e = EvRun w /\ isPending s w = true) evs ->
  queueWeight s evs = 0.
Proof.
  intros Hf. induction Hf as [|e evs (w & -> & Hp) _ IH]; [done|]. cbn [queueWeight foldr].
  unfold queueWeight in IH. rewrite IH. cbn [weight]. by rewrite Hp.
Qed.

(** The states say the same when the works are the same up to their queue. *)
Lemma queueWeight_works s s' q : (forall w, isPending s' w = isPending s w) -> queueWeight s' q = queueWeight s q.
Proof.
  intros Hp. unfold queueWeight. induction q as [|e q IH]; [done|]. cbn [foldr]. rewrite IH.
  destruct e; cbn [weight]; [by rewrite Hp|done].
Qed.

(** No work fails, so that [advance] posts runs only. *)
Lemma unfailed_fair s e : unfailed s -> fair s e -> exists w, e = EvRun w /\ due s w.
Proof.
  intros Hl. destruct e as [w|w ec]; cbn [fair]; [eauto|]. intros (_ & x & Hx & _ & Ha). exfalso.
  unfold anyChildRaiseFailure, childStates in Ha. apply existsb_exists in Ha as (st & Hin & Hst).
  apply in_map_iff in Hin as ([n c] & <- & Hin%list_elem_of_In%elem_of_map_asc). apply bool_decide_eq_true in Hst.
  apply fmap_Some in Hst as (y & Hy & Ey). cbn [snd] in Hy.
  destruct (Hl _ _ Hy) as [|[]]; congruence.
Qed.

(** ** One step *)

(** The same work but for its state and members. *)
Definition moved x x' : Prop :=
  wParent x' = wParent x /\ wName x' = wName x /\ wChildren x' = wChildren x.

Section step.
Context s w x x' (e0 : Event) (q evs : list Event) (mgr : gmap (list N) nat).
Context (Hl : live s) (Hq : queue s = e0 :: q) (Hx : works s !! w = Some x) (Hm : moved x x').
Context (He0 : e0 = EvRun w \/ e0 = EvComplete w false).
Context (Hst : wState x' = WORK_RUNNING \/ wState x' = WORK_SUCCESS).

Definition next : WS D := mkWS (<[w := x']> (works s)) mgr (q ++ evs) (nextWork s).

Lemma next_works c y' : works next !! c = Some y' ->
  exists y, works s !! c = Some y /\ moved y y' /\ (c = w /\ y' = x' \/ c <> w /\ y' = y).
Proof using Hx Hm.
  cbn [next works]. intros [[<- <-]|[Hne Hy]]%lookup_insert_Some.
  - exists x. split_and!; [done|done|by left].
  - exists y'. split_and!; [done|done|]. right. split; [congruence|done].
Qed.

Lemma next_dom : dom (works next) = dom (works s).
Proof using Hx. cbn [next works]. apply dom_insert_lookup_L. by eexists. Qed.

Lemma next_has c y : works s !! c = Some y -> exists y', works next !! c = Some y' /\ moved y y'.
Proof using Hx Hm.
  intros Hy. cbn [next works]. destruct (decide (c = w)) as [->|].
  - exists x'. simplify_eq. by rewrite lookup_insert_eq.
  - exists y. by rewrite lookup_insert_ne by congruence.
Qed.

Lemma next_forest : mgr ⊆ mgrChildren s -> forest next.
Proof using Hl Hx Hm.
  intros Hsub. destruct (lv_forest _ Hl). split.
  - intros c y' (y & Hy & _)%next_works. by apply (fr_id c y).
  - intros c y' p (y & Hy & (E1 & E2 & E3) & _)%next_works Hp. rewrite E1 in Hp.
    destruct (fr_parent _ _ _ Hy Hp) as (Hlt & z & Hz & Hc). split; [done|].
    destruct (next_has _ _ Hz) as (z' & Hz' & (_ & _ & E)). exists z'. by rewrite E, E2.
  - intros p y' n c (y & Hy & (E1 & E2 & E3) & _)%next_works Hc. rewrite E3 in Hc.
    destruct (fr_child _ _ _ _ Hy Hc) as (z & Hz & Pz & Nz).
    destruct (next_has _ _ Hz) as (z' & Hz' & (F1 & F2 & _)). exists z'. by rewrite F1, F2.
  - intros n c Hc. destruct (fr_root n c) as (z & Hz & Pz & Nz); [by eapply lookup_weaken|].
    destruct (next_has _ _ Hz) as (z' & Hz' & (F1 & F2 & _)). exists z'. by rewrite F1, F2.
Qed.

(** Who is due after the step was due before it, or is the parent of a work that has
    just succeeded. *)
Lemma next_due c : due next c -> due s c \/ wParent x = Some c /\ wState x' = WORK_SUCCESS.
Proof using Hl Hx Hm Hst.
  intros (y' & (y & Hy & (_ & _ & Ec) & Hw)%next_works & Hp & Hd).
  assert (Hne : c <> w /\ y' = y).
  { destruct Hw as [[-> ->]|]; [destruct Hst; congruence|done]. }
  destruct Hne as [Hne ->].
  destruct (decide (wParent x = Some c /\ wState x' = WORK_SUCCESS)) as [|Hno]; [by right|left].
  exists y. split_and!; [done|done|]. intros n d Hn. destruct (Hd n d Hn) as (z' & Hz' & Sz').
  apply next_works in Hz' as (z & Hz & _ & [[-> ->]|[_ ->]]); [|by exists z].
  destruct Hno. split; [|done]. destruct (fr_child _ (lv_forest _ Hl) _ _ _ _ Hy Hn) as (z0 & Hz0 & Pz0 & _).
  congruence.
Qed.

Lemma next_live : mgr ⊆ mgrChildren s -> (wState x' = WORK_SUCCESS -> mgr !! wName x <> Some w) ->
  (forall e, e ∈ evs -> exists c, is_Some (works s !! c) /\ (e = EvRun c \/ e = EvComplete c false)) ->
  (wState x' = WORK_RUNNING -> EvRun w ∈ evs \/ EvComplete w false ∈ evs) ->
  (forall p, wParent x = Some p -> wState x' = WORK_SUCCESS -> due next p -> EvRun p ∈ evs) ->
  live next.
Proof using Hl Hq Hx Hm Hst He0.
  intros Hsub Hgone Hev Hrun Hpar. split.
  - by apply next_forest.
  - intros c y' (y & Hy & _ & [[-> ->]|[_ ->]])%next_works; [tauto|by apply (lv_states _ Hl c)].
  - intros e [He|He]%elem_of_app.
    + destruct (lv_events _ Hl e) as (c & [y Hy] & Ec); [rewrite Hq; by apply list_elem_of_further|].
      exists c. split; [|done]. destruct (next_has _ _ Hy) as (y' & Hy' & _). by exists y'.
    + destruct (Hev e He) as (c & [y Hy] & Ec). exists c. split; [|done].
      destruct (next_has _ _ Hy) as (y' & Hy' & _). by exists y'.
  - intros c y' (y & Hy & _ & Hw)%next_works Hr. cbn [next queue]. rewrite !elem_of_app.
    destruct Hw as [[-> ->]|[Hne ->]]; [tauto|].
    destruct (lv_running _ Hl _ _ Hy Hr) as [Hin|Hin]; rewrite Hq, elem_of_cons in Hin;
      destruct Hin as [Hin|Hin]; try tauto; destruct He0; congruence.
  - intros c Hd. cbn [next queue]. apply elem_of_app. destruct (next_due c Hd) as [Hds|[Hp Hs]].
    + pose proof (lv_pending _ Hl c Hds) as Hin. rewrite Hq, elem_of_cons in Hin.
      destruct Hin as [Hin|Hin]; [|by left]. exfalso.
      destruct Hd as (y' & (y & Hy & _ & Hw)%next_works & Hp & _).
      destruct Hw as [[-> ->]|[Hne ->]]; [destruct Hst; congruence|destruct He0; congruence].
    + right. by apply Hpar.
  - intros n c y' Hc (y & Hy & _ & Hw)%next_works Hs. destruct Hw as [[-> ->]|[Hne ->]].
    + destruct (fr_root _ (lv_forest _ Hl) n w) as (z & Hz & _ & Nz); [by eapply lookup_weaken|].
      simplify_eq. by apply Hgone.
    + eapply (lv_roots _ Hl n c); [by eapply lookup_weaken|done|done].
Qed.

Lemma next_shrinks : (wState x <> WORK_PENDING ->
    leftOf x' + queueWeight s evs < leftOf x + weight s e0) -> shrinks s next.
Proof using Hq Hx Hst.
  intros Hw. unfold shrinks, pendings. cbn [next works]. rewrite !(msum_update _ _ _ x) by done.
  assert (pendingOf x' = 0) as -> by (unfold pendingOf; case_decide; [destruct Hst; congruence|done]).
  destruct (decide (wState x = WORK_PENDING)) as [Hp|Hp].
  { left. assert (pendingOf x = 1) by (unfold pendingOf; by rewrite decide_True). lia. }
  right. split; [assert (pendingOf x = 0) by (unfold pendingOf; by rewrite decide_False); lia|].
  specialize (Hw Hp). unfold rest. cbn [next works queue]. rewrite (msum_update _ _ _ x), queueWeight_app by done.
  assert (His : forall c, isPending next c = isPending s c).
  { intros c. unfold isPending. cbn [next works]. destruct (decide (c = w)) as [->|].
    - rewrite lookup_insert_eq, Hx. rewrite !bool_decide_false; [done|done|]. destruct Hst; congruence.
    - by rewrite lookup_insert_ne by congruence. }
  rewrite !(queueWeight_works s next) by done. rewrite Hq. cbn [queueWeight foldr]. unfold queueWeight in *. lia.
Qed.

End step.

(** ** The events *)

Lemma getWork_run s w x : works s !! w = Some x -> getWork w s = Ret x s.
Proof. intros Hx. unfold getWork, mbind, M_bind, get, deref. by rewrite Hx. Qed.

Lemma getState_run s w x : works s !! w = Some x -> getState w s = Ret (wState x) s.
Proof. intros Hx. unfold getState. by rewrite (run_bind _ _ _ _ _ (getWork_run _ _ _ Hx)). Qed.

Lemma setState_run st s w x : works s !! w = Some x ->
  setState st w s = Ret () (putWork w (set_wState (limited st x) x) s).
Proof. intros Hx. unfold setState, onWork. by rewrite (run_bind _ _ _ _ _ (getWork_run _ _ _ Hx)). Qed.

Lemma crank_run s e q : queue s = e :: q -> crank v s = handle v e (set_queue q s).
Proof. intros Hq. unfold crank, mbind, M_bind, get. by rewrite Hq. Qed.

Lemma run_event s w x q : live s -> queue s = EvRun w :: q -> works s !! w = Some x ->
  exists s', crank v s = Ret () s' /\ progress s s'.
Proof using Finishing0.
  intros Hl Hq Hx. set (x' := set_wState WORK_RUNNING x).
  exists (next s w x' q [EvComplete w false] (mgrChildren s)). split; [|split; [|split; [|by apply (next_dom s w x)]]].
  - rewrite (crank_run _ _ _ Hq). cbn [handle]. unfold locked, mbind, M_bind at 1, get.
    cbn [set_queue works]. rewrite Hx. unfold run.
    rewrite (run_bind _ _ _ _ _ (getState_run (set_queue q s) w x Hx)).
    rewrite (run_bind _ _ (set_queue q s) () (set_queue q s)) by (case_decide; [by rewrite fi_start|done]).
    rewrite (run_bind _ _ _ _ _ (setState_run _ (set_queue q s) w x Hx)).
    by rewrite fi_run.
  - apply (next_live s w x x' (EvRun w)); try done; [by left|by left|..].
    + intros e ->%list_elem_of_singleton. exists w. split; [by eexists|by right].
    + intros _. right. by apply list_elem_of_singleton.
  - apply (next_shrinks s w x x' (EvRun w)); try done; [by left|]. intros Hp.
    cbn [queueWeight foldr weight]. unfold isPending. rewrite Hx, bool_decide_false by done.
    unfold leftOf. cbn [x' set_wState wData]. lia.
Qed.

(** A work that has succeeded: what its parent posts. *)
Section success.
Context s w x (q : list Event).
Context (Hl : live s) (Hq : queue s = EvComplete w false :: q) (Hx : works s !! w = Some x).

Definition succeeded : Work D := set_wState WORK_SUCCESS x.

(** The state in which the parent is notified. *)
Definition notifying (mgr : gmap (list N) nat) : WS D := next s w succeeded q [] mgr.

Lemma notifying_queue mgr : set_queue q (notifying mgr) = notifying mgr.
Proof. unfold notifying, next, set_queue. cbn [works mgrChildren nextWork]. by rewrite app_nil_r. Qed.

Lemma notifying_forest mgr : mgr ⊆ mgrChildren s -> forest (notifying mgr).
Proof using Hl Hx. intros Hsub. by apply (next_forest s w x). Qed.

Lemma notifying_unfailed mgr : unfailed (notifying mgr).
Proof using Hl Hx.
  intros c y' Hy'. destruct (next_works s w x succeeded q [] mgr Hx ltac:(done) c y' Hy')
    as (y & Hy & _ & [[-> ->]|[_ ->]]); [by right; right|by apply (lv_states _ Hl c)].
Qed.

(** The events that are posted. *)
Lemma success_event mgr evs : mgr ⊆ mgrChildren s -> mgr !! wName x <> Some w ->
  Forall (fair (notifying mgr)) evs ->
  (forall p, wParent x = Some p -> due (notifying mgr) p -> EvRun p ∈ evs) ->
  progress s (next s w succeeded q evs mgr).
Proof using Hl Hq Hx.
  intros Hsub Hgone Hf Hpar.
  assert (Hev : Forall (fun e => exists c, e = EvRun c /\ isPending s c = true) evs).
  { eapply Forall_impl; [exact Hf|]. intros e He.
    destruct (unfailed_fair _ e (notifying_unfailed mgr) He) as (c & -> & y' & Hy' & Hp & _).
    exists c. split; [done|]. destruct (next_works s w x succeeded q [] mgr Hx ltac:(done) c y' Hy')
      as (y & Hy & _ & [[-> ->]|[_ ->]]); [done|]. unfold isPending. by rewrite Hy, bool_decide_true. }
  split; [|split; [|by apply (next_dom s w x)]].
  - apply (next_live s w x succeeded (EvComplete w false)); try done; [by right|by right| |by intros p Hp _; apply Hpar].
    intros e He. rewrite Forall_forall in Hev. destruct (Hev e He) as (c & -> & Hp). exists c.
    split; [|by left]. unfold isPending in Hp. destruct (works s !! c); [by eexists|done].
  - apply (next_shrinks s w x succeeded (EvComplete w false)); try done; [by right|]. intros _.
    rewrite (pending_weight s evs Hev). unfold leftOf. cbn [weight succeeded set_wState wData]. lia.
Qed.

Lemma notify_run : exists s', notifyParent w (notifying (mgrChildren s)) = Ret () s' /\ progress s s'.
Proof using Hl Hq Hx.
  assert (Hw : works (notifying (mgrChildren s)) !! w = Some succeeded)
    by (cbn [notifying next works]; by rewrite lookup_insert_eq).
  unfold notifyParent. rewrite (run_bind _ _ _ _ _ (getWork_run _ _ _ Hw)). cbn [succeeded set_wState wParent wName].
  pose proof (notifying_forest (mgrChildren s) ltac:(done)) as Hfo.
  assert (Hroot : forall n c, mgrChildren s !! n = Some c -> is_Some (works (notifying (mgrChildren s)) !! c)).
  { intros n c Hc. destruct (fr_root _ Hfo n c Hc) as (y & Hy & _). by eexists. }
  destruct (wParent x) as [p|] eqn:Ep.
  - destruct (fr_parent _ (lv_forest _ Hl) _ _ _ Hx Ep) as (_ & y & Hy & _).
    destruct (next_has s w x succeeded q [] (mgrChildren s) Hx ltac:(done) _ _ Hy) as (y' & Hy' & _).
    destruct (advanceW_posts _ _ _ Hfo Hy' q) as (evs & E & Hf & Hdue).
    exists (next s w succeeded q evs (mgrChildren s)). split.
    { by rewrite <- (notifying_queue (mgrChildren s)). }
    apply success_event; try done.
    + intros Hm. destruct (fr_root _ (lv_forest _ Hl) _ _ Hm) as (z & Hz & Pz & _). congruence.
    + intros p' Hp' Hd. apply Hdue; [|done]. assert (p' = p) as -> by congruence. apply under_refl.
  - unfold notifyManager. rewrite (run_bind _ _ _ (notifying (mgrChildren s)) (notifying (mgrChildren s))) by done.
    change (mgrChildren (notifying (mgrChildren s))) with (mgrChildren s).
    destruct (mgrChildren s !! wName x) as [c|] eqn:Ec.
    + destruct (Hroot _ _ Ec) as [y' Hy']. rewrite (run_bind _ _ _ _ _ (getWork_run _ _ _ Hy')).
      set (mgr := if isDone y' then delete (wName x) (mgrChildren s) else mgrChildren s).
      assert (Hsub : mgr ⊆ mgrChildren s) by (unfold mgr; case_match; [apply delete_subseteq|done]).
      assert (Hgone : mgr !! wName x <> Some w).
      { unfold mgr. destruct (isDone y') eqn:Ed; [by rewrite lookup_delete_eq|]. rewrite Ec. intros [= ->].
        rewrite Hw in Hy'. by simplify_eq. }
      rewrite (run_bind _ _ _ () (notifying mgr)) by (unfold mgr; by destruct (isDone y')).
      rewrite (run_bind _ _ _ (notifying mgr) (notifying mgr)) by done.
      destruct (advanceChildren_posts (notifying mgr) mgr (notifying_forest mgr Hsub)) with (q := q)
        as (evs & E & Hf & _).
      { intros n d Hd. apply (Hroot n d). by eapply lookup_weaken. }
      exists (next s w succeeded q evs mgr). split; [by rewrite notifying_queue in E|].
      apply success_event; try done. intros p Hp. congruence.
    + exists (next s w succeeded q [] (mgrChildren s)). split; [done|].
      apply success_event; [done|congruence|by constructor|]. intros p Hp. congruence.
Qed.

End success.

Lemma complete_event s w x q : live s -> queue s = EvComplete w false :: q -> works s !! w = Some x ->
  exists s', crank v s = Ret () s' /\ progress s s'.
Proof using Finishing0.
  intros Hl Hq Hx. assert (Hx0 : works (set_queue q s) !! w = Some x) by done.
  assert (Hrun : crank v s = complete v false w (set_queue q s)).
  { rewrite (crank_run _ _ _ Hq). cbn [handle]. unfold locked, mbind at 1, M_bind at 1, get. by rewrite Hx0. }
  rewrite Hrun. unfold complete. destruct (fi_success w _ x Hx0) as [E|(d & E & Hd)].
  - destruct (notify_run s w x q Hl Hq Hx) as (s' & En & HH). exists s'. split; [|done].
    rewrite (run_bind _ _ (set_queue q s) () (notifying s w x q (mgrChildren s))).
    + rewrite (run_bind _ _ _ _ _ (getState_run _ w (succeeded x) (lookup_insert_eq _ _ _))). done.
    + rewrite (run_bind _ _ _ _ _ E), (setState_run _ _ _ _ Hx0). unfold notifying, next, putWork.
      by rewrite app_nil_r.
  - set (x' := set_wState WORK_RUNNING (set_wData d x)).
    exists (next s w x' q [EvRun w] (mgrChildren s)). split; [|split; [|split; [|by apply (next_dom s w x)]]].
    + rewrite (run_bind _ _ (set_queue q s) () (putWork w x' (set_queue q s))).
      * by rewrite (run_bind _ _ _ _ _ (getState_run _ w x' (lookup_insert_eq _ _ _))).
      * rewrite (run_bind _ _ _ _ _ E), (setState_run _ _ _ (set_wData d x)) by apply lookup_insert_eq.
        unfold putWork, set_works. cbn [works]. by rewrite insert_insert_eq.
    + apply (next_live s w x x' (EvComplete w false)); try done; [by right|by left|..].
      * intros e ->%list_elem_of_singleton. exists w. split; [by eexists|by left].
      * intros _. left. by apply list_elem_of_singleton.
    + apply (next_shrinks s w x x' (EvComplete w false)); try done; [by left|]. intros Hp.
      cbn [queueWeight foldr weight]. unfold isPending. rewrite Hx, bool_decide_false by done.
      unfold leftOf. cbn [x' set_wState set_wData wData]. lia.
Qed.

Lemma live_crank s e q : live s -> queue s = e :: q -> exists s', crank v s = Ret () s' /\ progress s s'.
Proof using Finishing0.
  intros Hl Hq. destruct (lv_events _ Hl e) as (w & [x Hx] & [->| ->]); [rewrite Hq; apply list_elem_of_here|..].
  - by apply (run_event s w x q).
  - by apply (complete_event s w x q).
Qed.

(** ** Running the queue *)

(** When the queue is empty everything is done. *)
Lemma live_idle s : live s -> queue s = [] -> forall w x, works s !! w = Some x -> wState x = WORK_SUCCESS.
Proof.
  intros Hl Hq.
  assert (Hk : forall k w x, (nextWork s - w < k)%nat -> works s !! w = Some x -> wState x = WORK_SUCCESS).
  { induction k as [|k IH]; [lia|]. intros w x Hk Hx.
    destruct (lv_states _ Hl _ _ Hx) as [Hp|[Hr|]]; [exfalso..|done].
    - assert (EvRun w ∈ queue s) as Hin; [|rewrite Hq in Hin; by apply not_elem_of_nil in Hin].
      apply (lv_pending _ Hl). exists x. split_and!; [done|done|]. intros n c Hc.
      destruct (fr_child _ (lv_forest _ Hl) _ _ _ _ Hx Hc) as (y & Hy & _). exists y. split; [done|].
      pose proof (fr_lt _ _ _ _ _ (lv_forest _ Hl) Hx Hc). pose proof (fr_id _ (lv_forest _ Hl) _ _ Hy).
      apply (IH c y); [lia|done].
    - destruct (lv_running _ Hl _ _ Hx Hr) as [Hin|Hin]; rewrite Hq in Hin; by apply not_elem_of_nil in Hin. }
  intros w x. apply (Hk (S (nextWork s))). lia.
Qed.

Lemma live_ends s : live s ->
  exists k s', cranks v k s = Ret () s' /\ live s' /\ queue s' = [] /\ dom (works s') = dom (works s).
Proof using Finishing0.
  remember (Z.to_nat (pendings s)) as a eqn:Ea. revert s Ea.
  induction (lt_wf a) as [a _ IHa]. intros s Ea.
  remember (Z.to_nat (rest s)) as b eqn:Eb. revert s Ea Eb.
  induction (lt_wf b) as [b _ IHb]. intros s -> -> Hl.
  destruct (queue s) as [|e q] eqn:Eq; [by exists 0%nat, s|].
  destruct (live_crank s e q Hl Eq) as (s1 & E1 & Hl1 & Hsh & Hdom).
  assert (exists k s', cranks v k s1 = Ret () s' /\ live s' /\ queue s' = [] /\ dom (works s') = dom (works s1))
    as (k & s' & Ek & Hl' & Hq' & Hd').
  { pose proof (pendings_nonneg s1). pose proof (rest_nonneg s1). destruct Hsh as [Hlt|[He Hlt]].
    - apply (IHa (Z.to_nat (pendings s1))); [lia|done|done].
    - apply (IHb (Z.to_nat (rest s1))); [lia|by rewrite He|done|done]. }
  exists (S k), s'. split; [|split_and!; [done|done|congruence]]. cbn [cranks]. by rewrite (run_bind _ _ _ _ _ E1).
Qed.

(** ** Adding works *)

(** Works that have only been added. *)
Record just_added s : Prop := {
  fh_forest : forest s;
  fh_pending : forall w x, works s !! w = Some x -> wState x = WORK_PENDING;
  fh_roots : forall w x, works s !! w = Some x -> wParent x = None -> mgrChildren s !! wName x = Some w;
  fh_queue : queue s = [] }.

Lemma noWorks_just_added : just_added noWorks.
Proof. by split; [split|..]. Qed.

(** A new root, and a new child of [p]. *)
Lemma fresh_root s n mx d : just_added s -> mgrChildren s !! n = None ->
  just_added (mkWS (<[nextWork s := mkWork None n mx 0 WORK_PENDING false ∅ d]> (works s))
    (<[n := nextWork s]> (mgrChildren s)) (queue s) (S (nextWork s))).
Proof.
  intros [[] Hp Hr Hq] Hn.
  assert (Hnew : works s !! nextWork s = None).
  { destruct (works s !! nextWork s) eqn:E; [|done]. specialize (fr_id _ _ E). lia. }
  assert (Hkeep : forall w x, works s !! w = Some x -> w <> nextWork s) by (intros w x ? ->; congruence).
  split; [split|..]; cbn [works mgrChildren nextWork queue]; try done.
  - intros w x [[<- _]|[_ Hx]]%lookup_insert_Some; [lia|]. specialize (fr_id _ _ Hx). lia.
  - intros w x p [[_ <-]|[_ Hx]]%lookup_insert_Some Px; [done|].
    destruct (fr_parent _ _ _ Hx Px) as (Hlt & y & Hy & Hc). split; [done|]. exists y.
    by rewrite lookup_insert_ne by (by apply not_eq_sym, (Hkeep _ y)).
  - intros p y n' c [[_ <-]|[_ Hy]]%lookup_insert_Some Hc; [by cbn [wChildren] in Hc; rewrite lookup_empty in Hc|].
    destruct (fr_child _ _ _ _ Hy Hc) as (x & Hx & HH). exists x.
    by rewrite lookup_insert_ne by (by apply not_eq_sym, (Hkeep _ x)).
  - intros n' c [[<- <-]|[_ Hc]]%lookup_insert_Some; [eexists; by rewrite lookup_insert_eq|].
    destruct (fr_root _ _ Hc) as (x & Hx & HH). exists x.
    by rewrite lookup_insert_ne by (by apply not_eq_sym, (Hkeep _ x)).
  - intros w x [[_ <-]|[_ Hx]]%lookup_insert_Some; [done|by apply (Hp w)].
  - intros w x [[<- <-]|[_ Hx]]%lookup_insert_Some Px; [by rewrite lookup_insert_eq|].
    rewrite lookup_insert_ne; [by apply Hr|]. intros E. specialize (Hr _ _ Hx Px). congruence.
Qed.

Lemma fresh_child s p y n mx d : just_added s -> works s !! p = Some y -> wChildren y !! n = None ->
  just_added (mkWS (<[p := set_wChildren (<[n := nextWork s]> (wChildren y)) y]>
      (<[nextWork s := mkWork (Some p) n mx 0 WORK_PENDING false ∅ d]> (works s)))
    (mgrChildren s) (queue s) (S (nextWork s))).
Proof.
  intros [[] Hp Hr Hq] Hy Hn.
  assert (Hlt : (p < nextWork s)%nat) by by apply (fr_id p y).
  set (x' := mkWork (Some p) n mx 0 WORK_PENDING false ∅ d). set (y' := set_wChildren _ y).
  set (m := <[p := y']> (<[nextWork s := x']> (works s))).
  (* a work is the new one, the parent, or an old one *)
  assert (Hm : forall w z, m !! w = Some z -> w = nextWork s /\ z = x' \/ w = p /\ z = y' \/
    w <> p /\ works s !! w = Some z).
  { unfold m. intros w z [[<- <-]|[? [[<- <-]|[? ?]]%lookup_insert_Some]]%lookup_insert_Some; naive_solver. }
  assert (Hk : forall w z, works s !! w = Some z -> exists z', m !! w = Some z' /\ wParent z' = wParent z /\
    wName z' = wName z /\ forall k c, wChildren z !! k = Some c -> wChildren z' !! k = Some c).
  { intros w z Hz. unfold m. destruct (decide (w = p)) as [->|].
    - exists y'. rewrite lookup_insert_eq. simplify_eq. split_and!; try done. intros k c Hc.
      cbn [y' set_wChildren wChildren]. rewrite lookup_insert_ne; [done|]. congruence.
    - exists z. rewrite !lookup_insert_ne; [done| |done]. intros <-. specialize (fr_id _ _ Hz). lia. }
  split; [split|..]; cbn [works mgrChildren nextWork queue]; fold x' y' m; try done.
  - intros w z [[-> _]|[[-> _]|[_ Hz]]]%Hm; [lia|lia|]. specialize (fr_id _ _ Hz). lia.
  - intros w z p' [[-> ->]|[[-> ->]|[_ Hz]]]%Hm Pz.
    + injection Pz as <-. split; [done|]. exists y'. unfold m. rewrite lookup_insert_eq. split; [done|].
      cbn [y' set_wChildren wChildren wName x']. by rewrite lookup_insert_eq.
    + destruct (fr_parent _ _ _ Hy Pz) as (H1 & z' & Hz' & Hc). split; [done|].
      destruct (Hk _ _ Hz') as (z2 & Hz2 & _ & _ & Hc2). eauto.
    + destruct (fr_parent _ _ _ Hz Pz) as (H1 & z' & Hz' & Hc). split; [done|].
      destruct (Hk _ _ Hz') as (z2 & Hz2 & _ & _ & Hc2). eauto.
  - assert (Hold : forall p' z k c, works s !! p' = Some z -> wChildren z !! k = Some c ->
      exists x, m !! c = Some x /\ wParent x = Some p' /\ wName x = k).
    { intros p' z k c Hz Hc. destruct (fr_child _ _ _ _ Hz Hc) as (x & Hx & Px & Nx).
      destruct (Hk _ _ Hx) as (x2 & Hx2 & P2 & N2 & _). exists x2. by rewrite P2, N2. }
    intros w z k c [[-> ->]|[[-> ->]|[_ Hz]]]%Hm Hc; [by cbn [x' wChildren] in Hc; rewrite lookup_empty in Hc| |by eapply Hold].
    cbn [y' set_wChildren wChildren] in Hc. apply lookup_insert_Some in Hc as [[<- <-]|[_ Hc]]; [|by eapply Hold].
    exists x'. unfold m. rewrite lookup_insert_ne by lia. by rewrite lookup_insert_eq.
  - intros k c Hc. destruct (fr_root _ _ Hc) as (x & Hx & Px & Nx).
    destruct (Hk _ _ Hx) as (x2 & Hx2 & P2 & N2 & _). exists x2. by rewrite P2, N2.
  - intros w z [[-> ->]|[[-> ->]|[_ Hz]]]%Hm; [done|exact (Hp p y Hy)|by apply (Hp w)].
  - intros w z [[-> ->]|[[-> ->]|[_ Hz]]]%Hm Pz; [done|exact (Hr p y Hy Pz)|by apply (Hr w)].
Qed.

(** What the program does: it adds works. *)
Inductive built : WS D -> Prop :=
| built_none : built noWorks
| built_add s parent name mx d w s' : built s -> addWork v parent name mx d s = Ret w s' -> built s'.

Lemma getWork_inv s w x s' : getWork w s = Ret x s' -> works s !! w = Some x /\ s' = s.
Proof.
  unfold getWork, mbind, M_bind, get, deref. destruct (works s !! w); [|done]. by intros [= -> ->].
Qed.

Lemma reset_run s w x : works s !! w = Some x -> wState x = WORK_PENDING -> reset v w s = Ret () s.
Proof using Finishing0.
  intros Hx Hp. unfold reset. rewrite (run_bind _ _ _ _ _ (setState_run _ _ _ _ Hx)), fi_reset.
  assert (set_wState (limited WORK_PENDING x) x = x) as -> by (by destruct x; cbn in *; subst).
  unfold putWork. rewrite insert_id by done. by destruct s.
Qed.

Lemma built_fresh s : built s -> just_added s.
Proof using Finishing0.
  induction 1 as [|s parent name mx d w s' _ IH Hadd]; [apply noWorks_just_added|].
  unfold addWork in Hadd. apply bind_inv in Hadd as (s0 & s1 & [= -> ->] & Hadd).
  apply bind_inv in Hadd as (cs & s2 & Hcs & Hadd). destruct parent as [p|].
  - apply bind_inv in Hcs as (y & s3 & [Hp ->]%getWork_inv & [= <- <-]). rename s1 into s3.
    destruct (wChildren y !! name) eqn:Hn; [done|].
    assert (Hne : p <> nextWork s3) by (intros ->; pose proof (fr_id _ (fh_forest _ IH) _ _ Hp); lia).
    pose proof (fresh_child s3 p y name mx d IH Hp Hn) as Hfr. set (sf := mkWS _ _ _ _) in Hfr.
    rewrite (run_bind _ _ s3 () (set_nextWork (S (nextWork s3)) s3)) in Hadd by done.
    rewrite (run_bind _ _ _ () (putWork (nextWork s3) (mkWork (Some p) name mx 0 WORK_PENDING false ∅ d)
      (set_nextWork (S (nextWork s3)) s3))) in Hadd by done.
    rewrite (run_bind _ _ _ () sf) in Hadd.
    2: { unfold onWork. erewrite run_bind; [|apply getWork_run; cbn [putWork set_works works set_nextWork];
           rewrite lookup_insert_ne by congruence; exact Hp]. done. }
    rewrite (run_bind _ _ sf () sf) in Hadd; [by injection Hadd as <- <-|].
    eapply reset_run; [|by apply (fh_pending _ Hfr (nextWork s3)); cbn [sf works];
      rewrite lookup_insert_ne, lookup_insert_eq by congruence].
    cbn [sf works]. by rewrite lookup_insert_ne, lookup_insert_eq by congruence.
  - injection Hcs as <- <-. rename s1 into s2. destruct (mgrChildren s2 !! name) eqn:Hn; [done|].
    pose proof (fresh_root s2 name mx d IH Hn) as Hfr. set (sf := mkWS _ _ _ _) in Hfr.
    rewrite (run_bind _ _ s2 () (set_nextWork (S (nextWork s2)) s2)) in Hadd by done.
    rewrite (run_bind _ _ _ () (putWork (nextWork s2) (mkWork None name mx 0 WORK_PENDING false ∅ d)
      (set_nextWork (S (nextWork s2)) s2))) in Hadd by done.
    rewrite (run_bind _ _ _ () sf) in Hadd by done.
    rewrite (run_bind _ _ sf () sf) in Hadd; [by injection Hadd as <- <-|].
    by eapply reset_run; [apply lookup_insert_eq|].
Qed.

(** *** Starting *)

Lemma under_snoc s r p y n c : under s r p -> works s !! p = Some y -> wState y = WORK_PENDING ->
  wChildren y !! n = Some c -> under s r c.
Proof.
  intros Hu Hy Hp Hc. induction Hu as [w|w x n' c' c'' Hx Hpx Hcx _ IH].
  - eapply under_child; [done..|]. apply under_refl.
  - eapply under_child; [done..|]. by apply IH.
Qed.

(** Every work is below a child of the manager. *)
Lemma fresh_under s : just_added s -> forall w x, works s !! w = Some x ->
  exists n r, mgrChildren s !! n = Some r /\ under s r w.
Proof.
  intros Hf w. induction (lt_wf w) as [w _ IH]. intros x Hx. destruct (wParent x) as [p|] eqn:Ep.
  - destruct (fr_parent _ (fh_forest _ Hf) _ _ _ Hx Ep) as (Hlt & y & Hy & Hc).
    destruct (IH p Hlt y Hy) as (n & r & Hr & Hu). exists n, r. split; [done|].
    eapply under_snoc; [done..|by apply (fh_pending _ Hf p)|done].
  - exists (wName x), w. split; [by apply (fh_roots _ Hf)|apply under_refl].
Qed.

Lemma fresh_start s : just_added s -> exists s1, advanceChildren (mgrChildren s) s = Ret () s1 /\ live s1 /\
  works s1 = works s.
Proof.
  intros Hf. pose proof (fh_forest _ Hf) as Hfo.
  destruct (advanceChildren_posts s (mgrChildren s) Hfo) with (q := queue s) as (evs & E & Hev & Hdue).
  { intros n c Hc. destruct (fr_root _ Hfo _ _ Hc) as (x & Hx & _). by eexists. }
  assert (Hun : unfailed s) by (intros w x Hx; left; by apply (fh_pending _ Hf w)).
  exists (set_queue (queue s ++ evs) s). split; [by destruct s|]. split; [|done]. split; try done.
  - by apply forest_queue.
  - intros e He. cbn [set_queue queue] in He. rewrite (fh_queue _ Hf) in He. cbn [app] in He.
    rewrite Forall_forall in Hev.
    destruct (unfailed_fair s e Hun (Hev e He)) as (w & -> & x & Hx & _). exists w. split; [by eexists|by left].
  - intros w x Hx Hr. by rewrite (fh_pending _ Hf w x Hx) in Hr.
  - intros w Hd. cbn [set_queue queue]. apply elem_of_app. right. destruct (Hd) as (x & Hx & _).
    apply Hdue; [|done]. by eapply fresh_under.
  - intros n c x Hc Hx Hs. cbn [set_queue works] in Hx. by rewrite (fh_pending _ Hf c x Hx) in Hs.
Qed.

(** C20. Works of a class that ends: however they are added below the manager and below
    each other, [advanceChildren] of the manager succeeds, and then the queue of the
    [io_service] runs empty after finitely many closures, none of which throws; then
    all the works are still there, in the state [WORK_SUCCESS], and the manager has no
    children left. *)
Theorem works_all_succeed s : built s -> exists s1 k s',
  advanceChildren (mgrChildren s) s = Ret () s1 /\ cranks v k s1 = Ret () s' /\ queue s' = [] /\
  mgrChildren s' = ∅ /\ dom (works s') = dom (works s) /\
  forall w x, works s' !! w = Some x -> wState x = WORK_SUCCESS.
Proof using Finishing0.
  intros Hb. destruct (fresh_start s (built_fresh s Hb)) as (s1 & E1 & Hl & Ew).
  destruct (live_ends s1 Hl) as (k & s' & Ek & Hl' & Hq & Hd).
  pose proof (live_idle s' Hl' Hq) as Hdone. exists s1, k, s'. split_and!; try done; [|by rewrite Hd, Ew].
  apply map_empty. intros n. destruct (mgrChildren s' !! n) as [c|] eqn:Hc; [exfalso|done].
  destruct (fr_root _ (lv_forest _ Hl') _ _ Hc) as (x & Hx & _).
  apply (lv_roots _ Hl' _ _ _ Hc Hx). by apply (Hdone c).
Qed.

End live.

(** ** Works on concrete trees

    The works of [work/WorkTests.cpp], and a tree on which a work runs twice. *)

#[export] Instance baseWork_finishing {D} : Finishing (baseWork (D := D)) (fun _ => 0%nat).
Proof. split; try done. intros w s x Hx. by left. Qed.

(** [CountDownWork]: [mCount] is the member. *)
Definition countDownWork : Virtuals nat :=
  mkVirtuals (fun _ => mret ()) (fun _ => mret ()) scheduleSuccess (fun _ => mret ()) (fun _ => mret ())
    (fun w =>
      x ← getWork w;
      if (0 <? wData x)%nat then modify (putWork w (set_wData (wData x - 1)%nat x));; mret WORK_RUNNING
      else mret WORK_SUCCESS).

#[export] Instance countDownWork_finishing : Finishing countDownWork (fun d => d).
Proof.
  split; try done. intros w s x Hx. cbn [onSuccess countDownWork].
  rewrite (run_bind _ _ _ _ _ (getWork_run s w x Hx)).
  destruct (Nat.ltb_spec 0 (wData x)); [right|by left]. eexists. split; [done|]. lia.
Qed.

(** The names of works. *)
Definition nm (n : N) : list N := [n].

(** [TEST_CASE("work steps")] *)
Definition workSteps : outcome (WS nat) nat :=
  (w ← addWork countDownWork None (nm 10) 5 10%nat;
   addWork countDownWork (Some w) (nm 5) 5 5%nat;;
   addWork countDownWork (Some w) (nm 7) 5 7%nat) noWorks.

Definition stateOf {D A} (o : outcome (WS D) A) : WS D := match o with Ret _ s => s | Exn _ s => s end.

Lemma workSteps_built : built countDownWork (stateOf workSteps).
Proof.
  eapply (built_add _ (stateOf ((w ← addWork countDownWork None (nm 10) 5 10%nat;
    addWork countDownWork (Some w) (nm 5) 5 5%nat) noWorks)) (Some 0%nat) (nm 7) 5 7%nat);
    [|by vm_compute].
  eapply (built_add _ (stateOf (addWork countDownWork None (nm 10) 5 10%nat noWorks)) (Some 0%nat) (nm 5) 5 5%nat);
    [|by vm_compute].
  eapply (built_add _ noWorks None (nm 10) 5 10%nat); [apply built_none|by vm_compute].
Qed.

Lemma works_all_succeed_witness : exists s1 k s',
  advanceChildren (mgrChildren (stateOf workSteps)) (stateOf workSteps) = Ret () s1 /\
  cranks countDownWork k s1 = Ret () s' /\ queue s' = [] /\ mgrChildren s' = ∅ /\
  dom (works s') = dom (works (stateOf workSteps)) /\
  forall w x, works s' !! w = Some x -> wState x = WORK_SUCCESS.
Proof. apply (works_all_succeed countDownWork (fun d => d) (stateOf workSteps)), workSteps_built. Defined.

(** A work that may retry once has failed. *)
Definition added : WS nat := stateOf (addWork (baseWork (D := nat)) None (nm 1) 1 0%nat noWorks).
Definition failed : WS nat := stateOf (complete (baseWork (D := nat)) true 0%nat added).

Lemma retries_bounded_witness : rtc (step (baseWork (D := nat))) noWorks failed /\ retries_ok failed /\
  works failed !! 0%nat = Some (mkWork None (nm 1) 1 0 WORK_FAILURE_RETRY true ∅ 0%nat).
Proof.
  assert (Hs : rtc (step (baseWork (D := nat))) noWorks failed).
  { apply (rtc_l _ _ added); [|apply rtc_once].
    - apply (step_add _ _ None (nm 1) 1 0%nat 0%nat); [lia|by vm_compute].
    - apply (step_async _ _ 0%nat true). by vm_compute. }
  split; [done|]. split; [|by vm_compute].
  apply (retries_bounded (baseWork (D := nat)) noWorks); [|done].
  intros w x Hx. cbn in Hx. by rewrite lookup_empty in Hx.
Defined.

(** ** Running twice *)

(** A class that counts how often its [onRun] is called. *)
Definition countingWork : Virtuals nat :=
  mkVirtuals (fun _ => mret ()) (fun _ => mret ())
    (fun w => onWork w (fun x => set_wData (S (wData x)) x);; scheduleSuccess w)
    (fun _ => mret ()) (fun _ => mret ()) (fun _ => mret WORK_SUCCESS).

(** A work "p" with the children "a", which has a child "c", and "z". *)
Definition fourWorks : WS nat := stateOf
  ((p ← addWork countingWork None (nm 112) 5 0%nat;
    a ← addWork countingWork (Some p) (nm 97) 5 0%nat;
    addWork countingWork (Some a) (nm 99) 5 0%nat;;
    addWork countingWork (Some p) (nm 122) 5 0%nat;;
    s ← get; advanceChildren (mgrChildren s)) noWorks).

(** "a" is advanced by "c" and again by "p", which "z" has advanced, before it has run:
    both post a run, and though every [onSuccess] says that the work is done [onRun] of
    "a", and then of "p", is called twice. *)
Example onRun_is_called_twice :
  (fun x => (wState x, wData x)) <$> works (stateOf (cranks countingWork 20 fourWorks)) =
  list_to_map [(0, (WORK_SUCCESS, 2)); (1, (WORK_SUCCESS, 2)); (2, (WORK_SUCCESS, 1)); (3, (WORK_SUCCESS, 1))]%nat.
Proof. by vm_compute. Qed.
