(* ===== verification/Calendar.v ===== *)
(** * The calendar

    The part of [util/Timer.cpp] that turns times into dates and counts days and weeks,
    over the calendar of the C library.  A [time_t] is a number of seconds, a
    [time_point] a 64-bit number of nanoseconds, so that dates end in the year 2262. *)

From Stdlib Require Import ZArith Lia String.
From stdpp Require Import base tactics list.
From S2P Require Import Prelude.

Open Scope Z_scope.

(** ** The C library *)

Definition leap (y : Z) : bool := (y mod 4 =? 0) && negb (y mod 100 =? 0) || (y mod 400 =? 0).

(** The days from the epoch to the first of January. *)
Definition yearStart (y : Z) : Z := 365 * (y - 1970) + (y - 1) / 4 - (y - 1) / 100 + (y - 1) / 400 - 477.

(** The year of a day: an estimate by the mean length of a year, corrected. *)
Definition yearOf (day : Z) : Z :=
  let y := 1970 + day * 400 / 146097 in
  if day <? yearStart y then y - 1
  else if yearStart (y + 1) <=? day then y + 1
  else y.

(** The days from the first of January to the first of a month. *)
Definition monthStart (lp : bool) (mon : Z) : Z :=
  let l := Z.b2z lp in
  nth (Z.to_nat mon)
    [0; 31; 59 + l; 90 + l; 120 + l; 151 + l; 181 + l; 212 + l; 243 + l; 273 + l; 304 + l; 334 + l] 0.

Definition monthOf (lp : bool) (yday : Z) : Z :=
  foldr (fun mon n => (if monthStart lp mon <=? yday then 1 else 0) + n) 0
    [1; 2; 3; 4; 5; 6; 7; 8; 9; 10; 11].

(** [struct tm]; the year counts from 1900, months, weekdays (from Sunday) and days of
    the year from 0. *)
Record tm := mkTm {
  tm_year : Z;
  tm_mon : Z;
  tm_mday : Z;
  tm_hour : Z;
  tm_min : Z;
  tm_sec : Z;
  tm_wday : Z;
  tm_yday : Z }.

Definition dayOf (t : Z) : Z := t / 86400.

Definition gmtime (t : Z) : tm :=
  let day := dayOf t in
  let s := t mod 86400 in
  let y := yearOf day in
  let yday := day - yearStart y in
  let mon := monthOf (leap y) yday in
  mkTm (y - 1900) mon (yday - monthStart (leap y) mon + 1)
    (s / 3600) (s mod 3600 / 60) (s mod 60) ((day + 4) mod 7) yday.

(** [timegm]: only the year, the month, the day of the month and the time count. *)
Definition timegm (t : tm) : Z :=
  let y := tm_year t + 1900 + tm_mon t / 12 in
  let mon := tm_mon t mod 12 in
  (yearStart y + monthStart (leap y) mon + tm_mday t - 1) * 86400 +
  tm_hour t * 3600 + tm_min t * 60 + tm_sec t.

(** ** [VirtualClock] *)

Definition from_time_t (t : Z) : Z := s64 (t * 1000000000).
Definition to_time_t (p : Z) : Z := Z.quot p 1000000000.

Definition pointToTm (p : Z) : tm := gmtime (to_time_t p).
Definition tmToPoint (t : tm) : Z := from_time_t (timegm t).
Definition tm_from_time_t (t : Z) : tm := pointToTm (from_time_t t).

(** [VirtualClock::getDaysOfYear]: the day of the year of the 31st of December, and the
    argument, which it changes. *)
Definition getDaysOfYear (t : tm) : Z * tm :=
  let t := mkTm (tm_year t) 11 31 (tm_hour t) (tm_min t) (tm_sec t) (tm_wday t) (tm_yday t) in
  (tm_yday (pointToTm (tmToPoint t)), t).

Definition datesOrder : exn := RuntimeError "Unexpected order of dates for getDaysPassed".

(** [VirtualClock::getDaysPassed], with [from] as it leaves it. *)
Definition getDaysPassed (from to : tm) : exn + (Z * tm) :=
  if tm_year from =? tm_year to then
    if tm_yday to <? tm_yday from then inl datesOrder
    else inr (tm_yday to - tm_yday from, from)
  else if tm_year to <? tm_year from then inl datesOrder
  else
    let (daysOfFirstYear, from) := getDaysOfYear from in
    inr (daysOfFirstYear - tm_yday from + tm_yday to, from).

(** [VirtualClock::weekPassed], with [from] as it leaves it. *)
Definition weekPassed (from to : tm) : exn + (bool * tm) :=
  match getDaysPassed from to with
  | inl e => inl e
  | inr (days, from) =>
      if 7 <=? days then inr (true, from) else inr (tm_wday to <? tm_wday from, from)
  end.

(** ** The calendar is in order *)

Definition yearLen (y : Z) : Z := yearStart (y + 1) - yearStart y.

Ltac cal := unfold yearLen, yearStart in *; Z.div_mod_to_equations; lia.

Lemma yearLen_leap y : yearLen y = 365 + Z.b2z (leap y).
Proof.
  unfold leap. destruct (Z.eqb_spec (y mod 4) 0), (Z.eqb_spec (y mod 100) 0), (Z.eqb_spec (y mod 400) 0);
    cbn [andb orb negb Z.b2z]; cal.
Qed.

Lemma yearStart_mono y y' : y <= y' -> yearStart y + 365 * (y' - y) <= yearStart y'.
Proof. cal. Qed.

Lemma yearStart_le y y' : y <= y' -> yearStart y <= yearStart y'.
Proof. intros H. pose proof (yearStart_mono y y' H). lia. Qed.

Lemma yearOf_spec d : yearStart (yearOf d) <= d < yearStart (yearOf d + 1).
Proof.
  unfold yearOf. set (y := 1970 + d * 400 / 146097).
  assert (Hy : yearStart (y - 1) <= d < yearStart (y + 2)).
  { unfold y. cal. }
  destruct (Z.ltb_spec d (yearStart y)); [replace (y - 1 + 1) with y by lia; lia|].
  destruct (Z.leb_spec (yearStart (y + 1)) d); [|lia]. replace (y + 1 + 1) with (y + 2) by lia. lia.
Qed.

Lemma yearOf_unique d y : yearStart y <= d < yearStart (y + 1) -> yearOf d = y.
Proof.
  intros Hd. pose proof (yearOf_spec d).
  destruct (Z.lt_trichotomy (yearOf d) y) as [Hl|[->|Hl]]; [|done|].
  - pose proof (yearStart_le (yearOf d + 1) y). lia.
  - pose proof (yearStart_le (y + 1) (yearOf d)). lia.
Qed.

Lemma yearOf_mono d d' : d <= d' -> yearOf d <= yearOf d'.
Proof.
  intros Hd. pose proof (yearOf_spec d). pose proof (yearOf_spec d').
  destruct (Z.le_gt_cases (yearOf d) (yearOf d')) as [|Hl]; [done|].
  pose proof (yearStart_le (yearOf d' + 1) (yearOf d)). lia.
Qed.

Lemma monthOf_range lp yday : 0 <= monthOf lp yday <= 11.
Proof.
  unfold monthOf. set (ms := [1; 2; 3; 4; 5; 6; 7; 8; 9; 10; 11]).
  change 11 with (Z.of_nat (length ms)). induction ms as [|m ms IH]; [done|].
  cbn [foldr length]. case_match; lia.
Qed.

Lemma monthOf_mono lp yday yday' : yday <= yday' -> monthOf lp yday <= monthOf lp yday'.
Proof.
  intros Hd. unfold monthOf. set (ms := [1; 2; 3; 4; 5; 6; 7; 8; 9; 10; 11]).
  induction ms as [|m ms IH]; [done|]. cbn [foldr].
  destruct (Z.leb_spec (monthStart lp m) yday), (Z.leb_spec (monthStart lp m) yday'); lia.
Qed.

(** Times whose [time_point] does not overflow. *)
Definition time_ok (t : Z) : Prop := 0 <= t <= 9223372036.

Lemma clock_exact t : time_ok t -> to_time_t (from_time_t t) = t.
Proof.
  intros Ht. unfold time_ok, to_time_t, from_time_t in *.
  rewrite s64_id by (unfold INT64_MAX; lia). by apply Z.quot_mul.
Qed.

Lemma tm_from_time_t_gmtime t : time_ok t -> tm_from_time_t t = gmtime t.
Proof. intros Ht. unfold tm_from_time_t, pointToTm. by rewrite clock_exact. Qed.

Lemma dayOf_mono t t' : t <= t' -> dayOf t <= dayOf t'.
Proof. intros. by apply Z.div_le_mono. Qed.

(** ** Periods *)

Inductive Period := Day | Week | Month | Year.

(** The number of the day, the week (from Sunday to Saturday), the month or the year. *)
Definition periodOf (k : Period) (t : Z) : Z :=
  match k with
  | Day => dayOf t
  | Week => (dayOf t + 4) / 7
  | Month => 12 * yearOf (dayOf t) + tm_mon (gmtime t)
  | Year => yearOf (dayOf t)
  end.

Lemma tm_mon_range t : 0 <= tm_mon (gmtime t) <= 11.
Proof. apply monthOf_range. Qed.

Lemma tm_mon_mono t t' : t <= t' -> yearOf (dayOf t) = yearOf (dayOf t') ->
  tm_mon (gmtime t) <= tm_mon (gmtime t').
Proof.
  intros Ht Hy. cbn [gmtime tm_mon]. rewrite Hy. apply monthOf_mono. pose proof (dayOf_mono t t' Ht). lia.
Qed.

Lemma periodOf_mono k t t' : t <= t' -> periodOf k t <= periodOf k t'.
Proof.
  intros Ht. pose proof (dayOf_mono t t' Ht) as Hd. pose proof (yearOf_mono _ _ Hd) as Hy.
  destruct k; cbn [periodOf]; [done|apply Z.div_le_mono; lia| |done].
  pose proof (tm_mon_range t). pose proof (tm_mon_range t').
  destruct (decide (yearOf (dayOf t) = yearOf (dayOf t'))) as [E|]; [|lia].
  pose proof (tm_mon_mono t t' Ht E). lia.
Qed.

(** A day lies in one week, one month and one year, and a month in one year. *)
Lemma same_day k t t' : periodOf Day t = periodOf Day t' -> periodOf k t = periodOf k t'.
Proof. cbn [periodOf]. intros E. destruct k; cbn [periodOf gmtime tm_mon]; by rewrite E. Qed.

Lemma same_month_iff t t' : periodOf Month t = periodOf Month t' <->
  tm_year (gmtime t) = tm_year (gmtime t') /\ tm_mon (gmtime t) = tm_mon (gmtime t').
Proof.
  cbn [periodOf]. pose proof (tm_mon_range t). pose proof (tm_mon_range t').
  change (tm_year (gmtime t)) with (yearOf (dayOf t) - 1900).
  change (tm_year (gmtime t')) with (yearOf (dayOf t') - 1900). lia.
Qed.

Lemma same_year_iff t t' : periodOf Year t = periodOf Year t' <-> tm_year (gmtime t) = tm_year (gmtime t').
Proof. cbn [periodOf gmtime tm_year]. lia. Qed.

Lemma same_month t t' : periodOf Month t = periodOf Month t' -> periodOf Year t = periodOf Year t'.
Proof. rewrite same_month_iff, same_year_iff. tauto. Qed.

Lemma same_day_iff t t' : periodOf Day t = periodOf Day t' <->
  tm_year (gmtime t) = tm_year (gmtime t') /\ tm_yday (gmtime t) = tm_yday (gmtime t').
Proof.
  cbn [periodOf gmtime tm_year tm_yday]. split; [by intros ->|]. intros [Hy Hd].
  replace (yearOf (dayOf t')) with (yearOf (dayOf t)) in Hd by lia. lia.
Qed.

(** The tests of [clearObsolete]. *)
Lemma year_passed t t' : t <= t' ->
  (tm_year (gmtime t) <? tm_year (gmtime t')) = (periodOf Year t <? periodOf Year t').
Proof.
  intros _. cbn [gmtime tm_year periodOf].
  destruct (Z.ltb_spec (yearOf (dayOf t)) (yearOf (dayOf t'))); [apply Z.ltb_lt|apply Z.ltb_ge]; lia.
Qed.

Lemma month_passed t t' : t <= t' ->
  (tm_year (gmtime t) <? tm_year (gmtime t')) || (tm_mon (gmtime t) <? tm_mon (gmtime t')) =
  (periodOf Month t <? periodOf Month t').
Proof.
  intros Ht. rewrite year_passed by done. pose proof (periodOf_mono Year t t' Ht) as Hy.
  cbn [periodOf] in *. pose proof (tm_mon_range t). pose proof (tm_mon_range t').
  destruct (Z.ltb_spec (yearOf (dayOf t)) (yearOf (dayOf t'))); cbn [orb]; [symmetry; apply Z.ltb_lt; lia|].
  pose proof (tm_mon_mono t t' Ht ltac:(lia)).
  destruct (Z.ltb_spec (tm_mon (gmtime t)) (tm_mon (gmtime t'))); symmetry; [apply Z.ltb_lt|apply Z.ltb_ge]; lia.
Qed.

Lemma day_passed t t' : t <= t' ->
  (tm_year (gmtime t) <? tm_year (gmtime t')) || (tm_yday (gmtime t) <? tm_yday (gmtime t')) =
  (periodOf Day t <? periodOf Day t').
Proof.
  intros Ht. rewrite year_passed by done. pose proof (periodOf_mono Year t t' Ht) as Hy.
  cbn [periodOf gmtime tm_yday] in *. pose proof (yearOf_spec (dayOf t)). pose proof (yearOf_spec (dayOf t')).
  destruct (Z.ltb_spec (yearOf (dayOf t)) (yearOf (dayOf t'))) as [Hl|Hl]; cbn [orb].
  - symmetry. apply Z.ltb_lt. pose proof (yearStart_le (yearOf (dayOf t) + 1) (yearOf (dayOf t'))). lia.
  - replace (yearOf (dayOf t')) with (yearOf (dayOf t)) by lia.
    destruct (Z.ltb_spec (dayOf t) (dayOf t')); [apply Z.ltb_lt|apply Z.ltb_ge]; lia.
Qed.

(** ** Weeks *)

Lemma clock_hms s : s / 3600 * 3600 + s mod 3600 / 60 * 60 + s mod 60 = s.
Proof. Z.div_mod_to_equations. lia. Qed.

(** The last of December, at any time of the day. *)
Lemma timegm_last y s w yd :
  timegm (mkTm (y - 1900) 11 31 (s / 3600) (s mod 3600 / 60) (s mod 60) w yd) =
    (yearStart (y + 1) - 1) * 86400 + s.
Proof.
  unfold timegm. cbn [tm_year tm_mon tm_mday tm_hour tm_min tm_sec].
  change (11 mod 12) with 11. replace (y - 1900 + 1900 + 11 / 12) with y by (change (11 / 12) with 0; lia).
  assert (monthStart (leap y) 11 = 334 + Z.b2z (leap y)) as -> by done.
  pose proof (clock_hms s). pose proof (yearLen_leap y). unfold yearLen in *. lia.
Qed.

Lemma dayOf_plus d s : 0 <= s < 86400 -> dayOf (d * 86400 + s) = d.
Proof. intros Hs. unfold dayOf. Z.div_mod_to_equations. lia. Qed.

Lemma tm_yday_last y s : 0 <= s < 86400 ->
  tm_yday (gmtime ((yearStart (y + 1) - 1) * 86400 + s)) = yearLen y - 1.
Proof.
  intros Hs. cbn [gmtime tm_yday]. rewrite dayOf_plus by done.
  pose proof (yearLen_leap y). rewrite (yearOf_unique _ y); unfold yearLen in *; [lia|].
  destruct (leap y); cbn [Z.b2z] in *; lia.
Qed.

Definition lastOfYear (t : tm) : tm :=
  mkTm (tm_year t) 11 31 (tm_hour t) (tm_min t) (tm_sec t) (tm_wday t) (tm_yday t).

Lemma getDaysOfYear_last t t' : time_ok t -> time_ok t' -> periodOf Year t < periodOf Year t' ->
  getDaysOfYear (gmtime t) = (yearLen (periodOf Year t) - 1, lastOfYear (gmtime t)).
Proof.
  intros Ht Ht' Hy. unfold getDaysOfYear. fold (lastOfYear (gmtime t)). f_equal.
  pose proof (Z.mod_pos_bound t 86400) as Hs. unfold pointToTm, tmToPoint, lastOfYear, gmtime at 2 3 4 5 6 7.
  cbn [tm_year tm_hour tm_min tm_sec tm_wday tm_yday]. rewrite timegm_last.
  rewrite clock_exact; [by rewrite tm_yday_last by lia|].
  pose proof (yearOf_spec (dayOf t)) as H1. pose proof (yearOf_spec (dayOf t')) as H2.
  pose proof (yearStart_le (yearOf (dayOf t) + 1) (yearOf (dayOf t'))). cbn [periodOf] in Hy.
  generalize dependent (yearStart (yearOf (dayOf t) + 1)). intros z **.
  assert (0 <= dayOf t) by (apply Z.div_pos; unfold time_ok in *; lia).
  assert (dayOf t' * 86400 <= t') by (unfold dayOf; Z.div_mod_to_equations; lia).
  unfold time_ok in *. lia.
Qed.

(** Within a year the days are exact, to the next year there is one too few, and over
    more years there are too few. *)
Lemma getDaysPassed_bounds t t' : time_ok t -> time_ok t' -> t <= t' ->
  exists days from, getDaysPassed (gmtime t) (gmtime t') = inr (days, from) /\
    tm_wday from = tm_wday (gmtime t) /\ tm_yday from = tm_yday (gmtime t) /\
    days <= dayOf t' - dayOf t /\
    (periodOf Year t' = periodOf Year t -> days = dayOf t' - dayOf t) /\
    (periodOf Year t' = periodOf Year t + 1 -> days = dayOf t' - dayOf t - 1).
Proof.
  intros Ht Ht' Hle. pose proof (periodOf_mono Year t t' Hle) as Hy. pose proof (dayOf_mono t t' Hle) as Hd.
  unfold getDaysPassed. change (tm_year (gmtime t)) with (periodOf Year t - 1900).
  change (tm_year (gmtime t')) with (periodOf Year t' - 1900).
  change (tm_yday (gmtime t)) with (dayOf t - yearStart (periodOf Year t)).
  change (tm_yday (gmtime t')) with (dayOf t' - yearStart (periodOf Year t')).
  destruct (Z.eqb_spec (periodOf Year t - 1900) (periodOf Year t' - 1900)) as [E|E].
  - replace (periodOf Year t') with (periodOf Year t) by lia.
    rewrite (proj2 (Z.ltb_ge _ _)) by lia. eexists _, (gmtime t). split_and!; [done|done|done|lia..].
  - rewrite (proj2 (Z.ltb_ge _ _)), (getDaysOfYear_last t t') by (done || lia).
    eexists _, _. split_and!; [done|done|done|..]; cbn [lastOfYear tm_yday];
      change (tm_yday (gmtime t)) with (dayOf t - yearStart (periodOf Year t));
      pose proof (yearStart_le (periodOf Year t + 1) (periodOf Year t')); unfold yearLen; [lia..|].
    intros ->. lia.
Qed.

(** The cases in which [weekPassed] is right when it says no. *)
Definition weekSafe (t t' : Z) : Prop :=
  periodOf Year t' = periodOf Year t \/
  periodOf Year t' = periodOf Year t + 1 /\ dayOf t' <> dayOf t + 7.

#[export] Instance weekSafe_dec t t' : Decision (weekSafe t t').
Proof. unfold weekSafe. apply _. Defined.

Lemma weekday_week d d' : d <= d' -> (d' + 4) mod 7 < (d + 4) mod 7 -> (d + 4) / 7 < (d' + 4) / 7.
Proof. Z.div_mod_to_equations. lia. Qed.

Lemma week_weekday d d' : d <= d' < d + 7 -> (d + 4) mod 7 <= (d' + 4) mod 7 -> (d + 4) / 7 = (d' + 4) / 7.
Proof. Z.div_mod_to_equations. lia. Qed.

Lemma weekPassed_spec t t' : time_ok t -> time_ok t' -> t <= t' ->
  exists b from, weekPassed (gmtime t) (gmtime t') = inr (b, from) /\
    tm_yday from = tm_yday (gmtime t) /\
    (b = true -> periodOf Week t < periodOf Week t') /\
    (weekSafe t t' -> b = (periodOf Week t <? periodOf Week t')).
Proof.
  intros Ht Ht' Hle. pose proof (dayOf_mono t t' Hle) as Hd.
  destruct (getDaysPassed_bounds t t') as (days & from & E & Hw & Hyd & Hub & H0 & H1); [done..|].
  unfold weekPassed. rewrite E, Hw. cbn [gmtime tm_wday].
  assert (Hfar : dayOf t + 7 <= dayOf t' -> periodOf Week t < periodOf Week t').
  { cbn [periodOf]. Z.div_mod_to_equations. lia. }
  destruct (Z.leb_spec 7 days) as [H7|H7].
  - exists true, from. split_and!; [done..| |]; intros _; [apply Hfar; lia|].
    symmetry. apply Z.ltb_lt, Hfar. lia.
  - eexists _, from. split_and!; [done..| |].
    + intros Hb%Z.ltb_lt. by apply weekday_week.
    + intros Hs. cbn [periodOf].
      destruct (Z.ltb_spec ((dayOf t' + 4) mod 7) ((dayOf t + 4) mod 7)) as [Hb|Hb]; symmetry.
      * by apply Z.ltb_lt, weekday_week.
      * apply Z.ltb_ge. rewrite (week_weekday (dayOf t) (dayOf t')); [lia| |done].
        unfold weekSafe in Hs. lia.
Qed.
