(* ===== verification/Statistics.v ===== *)
(** * Statistics and limits

    [ledger/StatisticsFrame.cpp], [StatisticsV2Frame.cpp], their helpers, the selection
    of limits in [LimitsV2Helper.cpp] and [transactions/StatisticsV2Processor.cpp]: how
    much an account has spent today, this week, this month and this year, and what it
    may.  The two kinds of frames clear, add and revert with the same code. *)

From Stdlib Require Import ZArith Lia String.
From stdpp Require Import sorting.
From stdpp Require Import base tactics gmap option list.
From S2P Require Import Prelude ScpTypes LedgerTypes LedgerDelta UtilTypes Balance Offer OfferExchange CreateOffer.
From S2P Require Import Calendar.

Open Scope Z_scope.

(** ** What was spent *)

Record Outcomes := mkOutcomes {
  dailyOutcome : Z;
  weeklyOutcome : Z;
  monthlyOutcome : Z;
  annualOutcome : Z;
  updatedAt : Z }.

#[export] Instance Outcomes_eq_dec : EqDecision Outcomes.
Proof. solve_decision. Defined.

Definition noOutcomes : Outcomes := mkOutcomes 0 0 0 0 0.

Definition set_daily x s := mkOutcomes x (weeklyOutcome s) (monthlyOutcome s) (annualOutcome s) (updatedAt s).
Definition set_weekly x s := mkOutcomes (dailyOutcome s) x (monthlyOutcome s) (annualOutcome s) (updatedAt s).
Definition set_monthly x s := mkOutcomes (dailyOutcome s) (weeklyOutcome s) x (annualOutcome s) (updatedAt s).
Definition set_annual x s := mkOutcomes (dailyOutcome s) (weeklyOutcome s) (monthlyOutcome s) x (updatedAt s).
Definition set_updatedAt x s :=
  mkOutcomes (dailyOutcome s) (weeklyOutcome s) (monthlyOutcome s) (annualOutcome s) x.

(** [StatisticsFrame::isValid]; the annual outcome is compared with itself. *)
Definition isValidStats (s : Outcomes) : bool :=
  (0 <=? dailyOutcome s) && (dailyOutcome s <=? monthlyOutcome s) && (annualOutcome s <=? annualOutcome s).

(** [StatisticsV2Frame::isValid] *)
Definition isValidStatsV2 (s : Outcomes) : bool :=
  (0 <=? dailyOutcome s) && (dailyOutcome s <=? weeklyOutcome s) && (dailyOutcome s <=? monthlyOutcome s) &&
  (monthlyOutcome s <=? annualOutcome s).

(** [clearObsolete] *)
Definition clearObsolete (rawCurrentTime : Z) (s : Outcomes) : exn + Outcomes :=
  let currentTime := tm_from_time_t rawCurrentTime in
  let timeUpdated := tm_from_time_t (updatedAt s) in
  let isYear := tm_year timeUpdated <? tm_year currentTime in
  let s := if isYear then set_annual 0 s else s in
  let isMonth := isYear || (tm_mon timeUpdated <? tm_mon currentTime) in
  let s := if isMonth then set_monthly 0 s else s in
  match weekPassed timeUpdated currentTime with
  | inl e => inl e
  | inr (isWeek, timeUpdated) =>
      let s := if isWeek : bool then set_weekly 0 s else s in
      let isDay := isYear || (tm_yday timeUpdated <? tm_yday currentTime) in
      inr (if isDay then set_daily 0 s else s)
  end.

(** [add]: whether it fits, and the outcomes after it; a failed [safeSum] has written the
    wrapped sum. *)
Definition addOutcome (outcome rawCurrentTime : Z) (s : Outcomes) : exn + (bool * Outcomes) :=
  match clearObsolete rawCurrentTime s with
  | inl e => inl e
  | inr s =>
      let s := set_updatedAt rawCurrentTime s in
      let (ok, x) := safeSum (annualOutcome s) outcome in
      let s := set_annual x s in
      if negb ok then inr (false, s)
      else
        let (ok, x) := safeSum (monthlyOutcome s) outcome in
        let s := set_monthly x s in
        if negb ok then inr (false, s)
        else
          let (ok, x) := safeSum (weeklyOutcome s) outcome in
          let s := set_weekly x s in
          if negb ok then inr (false, s)
          else
            let (ok, x) := safeSum (dailyOutcome s) outcome in inr (ok, set_daily x s)
  end.

Definition cannotRevert (which : string) : exn := RuntimeError which.

(** [revert] *)
Definition revertOutcome (outcome rawCurrentTime rawTimePerformed : Z) (s : Outcomes) : exn + Outcomes :=
  match clearObsolete rawCurrentTime s with
  | inl e => inl e
  | inr s =>
      let s := set_updatedAt rawCurrentTime s in
      let currentTime := tm_from_time_t rawCurrentTime in
      let timePerformed := tm_from_time_t rawTimePerformed in
      if negb (tm_year currentTime =? tm_year timePerformed) then inr s
      else if annualOutcome s <? outcome then inl (cannotRevert "Annual outcome can't be negative")
      else
        let s := set_annual (u64 (annualOutcome s - outcome)) s in
        if negb (tm_mon currentTime =? tm_mon timePerformed) then inr s
        else if monthlyOutcome s <? outcome then inl (cannotRevert "Monthly outcome can't be negative")
        else
          let s := set_monthly (u64 (monthlyOutcome s - outcome)) s in
          match weekPassed timePerformed currentTime with
          | inl e => inl e
          | inr (true, _) => inr s
          | inr (false, timePerformed) =>
              if weeklyOutcome s <? outcome then inl (cannotRevert "Weekly outcome can't be negative")
              else
                let s := set_weekly (u64 (weeklyOutcome s - outcome)) s in
                if negb (tm_yday currentTime =? tm_yday timePerformed) then inr s
                else if dailyOutcome s <? outcome then inl (cannotRevert "Daily outcome can't be negative")
                else inr (set_daily (u64 (dailyOutcome s - outcome)) s)
          end
  end.

(** ** Limits *)

Inductive StatsOpType := SPEND | WITHDRAW | PAYMENT_OUT | DEPOSIT | PAYOUT.

#[export] Instance StatsOpType_eq_dec : EqDecision StatsOpType.
Proof. solve_decision. Defined.

Record LimitsV2 := mkLimits {
  limAccountType : option AccountType;
  limAccountID : option AccountID;
  limOpType : StatsOpType;
  limAsset : AssetCode;
  limConvert : bool;
  dailyOut : Z;
  weeklyOut : Z;
  monthlyOut : Z;
  annualOut : Z }.

(** [StatisticsV2Processor::validateStats] *)
Definition validateStats (l : LimitsV2) (s : Outcomes) : bool :=
  if dailyOut l <? dailyOutcome s then false
  else if weeklyOut l <? weeklyOutcome s then false
  else if monthlyOut l <? monthlyOutcome s then false
  else annualOutcome s <=? annualOut l.

Record StatsV2 := mkStatsV2 {
  statsID : Z;
  statsAccount : AccountID;
  statsOpType : StatsOpType;
  statsAsset : AssetCode;
  statsConvert : bool;
  statsOutcomes : Outcomes }.

Definition set_statsOutcomes o (s : StatsV2) :=
  mkStatsV2 (statsID s) (statsAccount s) (statsOpType s) (statsAsset s) (statsConvert s) o.

(** [StatisticsV2Frame::newStatisticsV2]; the time of the update keeps its default. *)
Definition newStatisticsV2 id account op asset convert : StatsV2 :=
  mkStatsV2 id account op asset convert noOutcomes.

Section limits.
Context (opInt : StatsOpType -> N).

(** The [where] of [LimitsV2Helper::loadLimits]. *)
Definition applies (ops : list StatsOpType) (asset : AssetCode) (account : AccountID) (type : AccountType)
    (l : LimitsV2) : Prop :=
  (limAccountType l = Some type \/ limAccountType l = None) /\
  (limAccountID l = Some account \/ limAccountID l = None) /\
  (limAsset l = asset \/ limConvert l = true) /\
  limOpType l ∈ ops.

#[global] Instance applies_dec ops asset account type l : Decision (applies ops asset account type l).
Proof. unfold applies. apply _. Defined.

(** The [order by]: a comparison with a null is null, and nulls are last. *)
Definition rank (l : LimitsV2) : N :=
  ((if limAccountID l is Some _ then 0 else 2) + (if limAccountType l is Some _ then 0 else 1))%N.
Definition limitsKey (l : LimitsV2) : list (list N) :=
  [[opInt (limOpType l)]; limAsset l; [if limConvert l then 1%N else 0%N]].
Definition limits_le : relation LimitsV2 := fun a b =>
  list_leb (limitsKey a ++ [[rank a]]) (limitsKey b ++ [[rank b]]) = true.

#[global] Instance limits_le_dec : RelDecision limits_le.
Proof. intros a b. unfold limits_le. apply _. Defined.

(** [distinct on]: the first row of every group. *)
Fixpoint distinctOn (prev : option (list (list N))) (rows : list LimitsV2) : list LimitsV2 :=
  match rows with
  | [] => []
  | l :: rows' =>
      if decide (prev = Some (limitsKey l)) then distinctOn prev rows'
      else l :: distinctOn (Some (limitsKey l)) rows'
  end.

(** [LimitsV2Helper::loadLimits] of an account and an operation. *)
Definition loadLimits (rows : list LimitsV2) (ops : list StatsOpType) (asset : AssetCode) (account : AccountID)
    (type : AccountType) : list LimitsV2 :=
  distinctOn None (merge_sort limits_le (base.filter (applies ops asset account type) rows)).

End limits.

(** ** The tables *)

Record LState := mkLState {
  lsDb : Db;
  lsStats : gmap AccountID Outcomes;
  lsStatsV2 : gmap Z StatsV2;
  lsPending : gmap (Z * Z) Z;
  lsReferences : gset (AccountID * list N);
  lsHeader : LedgerHeader }.

Definition set_lsDb d s := mkLState d (lsStats s) (lsStatsV2 s) (lsPending s) (lsReferences s) (lsHeader s).
Definition set_lsStats m s := mkLState (lsDb s) m (lsStatsV2 s) (lsPending s) (lsReferences s) (lsHeader s).
Definition set_lsStatsV2 m s := mkLState (lsDb s) (lsStats s) m (lsPending s) (lsReferences s) (lsHeader s).
Definition set_lsPending m s := mkLState (lsDb s) (lsStats s) (lsStatsV2 s) m (lsReferences s) (lsHeader s).
Definition set_lsReferences r s := mkLState (lsDb s) (lsStats s) (lsStatsV2 s) (lsPending s) r (lsHeader s).
Definition set_lsHeader h s := mkLState (lsDb s) (lsStats s) (lsStatsV2 s) (lsPending s) (lsReferences s) h.

(** [delta.getHeaderFrame().generateID] *)
Definition generate (t : LedgerEntryType) : M LState Z :=
  h ← gets lsHeader; let '(i, h) := generateID t h in modify (set_lsHeader h);; mret i.

Definition invalidStats : exn := RuntimeError "Unexpected state - statistics is invalid".

(** [StatisticsV2Helper::loadStatistics] of the rows a [where] selects: all are checked
    and the last one is kept. *)
Fixpoint lastValid (rows : list StatsV2) (last : option StatsV2) : exn + option StatsV2 :=
  match rows with
  | [] => inr last
  | r :: rows' => if isValidStatsV2 (statsOutcomes r) then lastValid rows' (Some r) else inl invalidStats
  end.

Definition statsKeyOf (account : AccountID) (op : StatsOpType) (asset : AssetCode) (convert : bool) (r : StatsV2) :
    Prop :=
  statsAccount r = account /\ statsOpType r = op /\ statsAsset r = asset /\ statsConvert r = convert.

#[export] Instance statsKeyOf_dec account op asset convert r : Decision (statsKeyOf account op asset convert r).
Proof. unfold statsKeyOf. apply _. Defined.

Definition statsRows account op asset convert (m : gmap Z StatsV2) : list StatsV2 :=
  base.filter (statsKeyOf account op asset convert) (map snd (map_to_list m)).

Definition loadStatsByKey account op asset convert : M LState (option StatsV2) :=
  m ← gets lsStatsV2; lift (lastValid (statsRows account op asset convert m) None).

Definition loadStatsByID (id : Z) : M LState (option StatsV2) :=
  m ← gets lsStatsV2; lift (lastValid (option_list (m !! id)) None).

(** [StatisticsV2Helper::storeUpdateHelper]: the id is the primary key, and the account,
    the operation, the asset and the conversion are unique. *)
Definition storeStatsV2 (insert : bool) (r : StatsV2) : M LState () :=
  if isValidStatsV2 (statsOutcomes r) then
    m ← gets lsStatsV2;
    match insert, m !! statsID r with
    | true, None =>
        match statsRows (statsAccount r) (statsOpType r) (statsAsset r) (statsConvert r) m with
        | [] => modify (set_lsStatsV2 (<[statsID r := r]> m))
        | _ => throw sqlError
        end
    | false, Some _ => modify (set_lsStatsV2 (<[statsID r := r]> m))
    | _, _ => throw sqlError
    end
  else throw invalidStats.

(** [PendingStatisticsHelper::storeAdd] of [PendingStatisticsFrame::createNew]. *)
Definition storeAddPending (request stats : Z) (amount : Z) : M LState () :=
  m ← gets lsPending;
  match m !! (request, stats) with
  | None => modify (set_lsPending (<[(request, stats) := amount]> m))
  | Some _ => throw sqlError
  end.

Definition storeDeletePending (request stats : Z) : M LState () :=
  modify (fun s => set_lsPending (delete (request, stats) (lsPending s)) s).

(** [PendingStatisticsHelper::loadPendingStatistics] of a request. *)
Definition loadPending (request : Z) (m : gmap (Z * Z) Z) : list (Z * Z) :=
  map (fun p => (p.1.2, p.2)) (base.filter (fun p : Z * Z * Z => p.1.1 = request) (map_to_list m)).

(** [AssetPairHelper::tryLoadAssetPairForAssets] *)
Definition tryLoadAssetPairForAssets (code1 code2 : AssetCode) (d : Db) : option AssetPair :=
  match dbPairs d !! (code1, code2) with
  | Some p => Some p
  | None => dbPairs d !! (code2, code1)
  end.

(** ** [StatisticsV2Processor] *)

Inductive SpendType := SpendWITHDRAW | SpendPAYMENT | SpendDEPOSIT | SpendPAYOUT.

Inductive StatsResult := STATS_SUCCESS | STATS_V2_OVERFLOW | LIMITS_V2_EXCEEDED.

#[export] Instance StatsResult_eq_dec : EqDecision StatsResult.
Proof. solve_decision. Defined.

(** What the processor reads of the rest: the time of the close, the limits, the values of
    the enumeration of operations and the times at which requests were created. *)
Record StatsEnv := mkStatsEnv {
  getCloseTime : Z;
  limitsRows : list LimitsV2;
  statsOpInt : StatsOpType -> N;
  requestCreatedAt : Z -> option Z }.

Definition spendOps (t : SpendType) : list StatsOpType :=
  [SPEND; match t with
          | SpendWITHDRAW => WITHDRAW
          | SpendPAYMENT => PAYMENT_OUT
          | SpendDEPOSIT => DEPOSIT
          | SpendPAYOUT => PAYOUT
          end].

Section processor.
Context (env : StatsEnv).

(** The row of the limits [l], made when there is none. *)
Definition statsFor (account : AccountID) (l : LimitsV2) : M LState StatsV2 :=
  r ← loadStatsByKey account (limOpType l) (limAsset l) (limConvert l);
  match r with
  | Some r => mret r
  | None =>
      i ← generate STATISTICS_V2;
      let r := newStatisticsV2 i account (limOpType l) (limAsset l) (limConvert l) in
      storeStatsV2 true r;;
      mret r
  end.

(** The amount in the asset of the row: nothing when there is no pair of assets, and
    whether it fits. *)
Definition convertForStats (asset : AssetCode) (amountToAdd : Z) (r : StatsV2) : M LState (option (bool * Z)) :=
  if statsConvert r && negb (bool_decide (asset = statsAsset r)) then
    d ← gets lsDb;
    match tryLoadAssetPairForAssets asset (statsAsset r) d with
    | None => mret None
    | Some p => x ← lift (convertAmount p (statsAsset r) amountToAdd ROUND_UP); mret (Some x)
    end
  else mret (Some (true, amountToAdd)).

(** The loop of [StatisticsV2Processor::addStatsV2]. *)
Fixpoint addStatsLoop (account : AccountID) (asset : AssetCode) (amountToAdd : Z) (request : option Z)
    (ls : list LimitsV2) (universalAmount : Z) : M LState (StatsResult * Z) :=
  match ls with
  | [] => mret (STATS_SUCCESS, universalAmount)
  | l :: ls' =>
      r ← statsFor account l;
      x ← convertForStats asset amountToAdd r;
      match x with
      | None => addStatsLoop account asset amountToAdd request ls' amountToAdd
      | Some (false, universalAmount) => mret (STATS_V2_OVERFLOW, universalAmount)
      | Some (true, universalAmount) =>
          added ← lift (addOutcome universalAmount (getCloseTime env) (statsOutcomes r));
          let '(ok, o) := added in
          if negb ok then mret (STATS_V2_OVERFLOW, universalAmount)
          else if negb (validateStats l o) then mret (LIMITS_V2_EXCEEDED, universalAmount)
          else
            storeStatsV2 false (set_statsOutcomes o r);;
            match request with
            | Some q => storeAddPending q (statsID r) universalAmount
            | None => mret ()
            end;;
            addStatsLoop account asset amountToAdd request ls' universalAmount
      end
  end.

(** [StatisticsV2Processor::addStatsV2], with the amount it leaves in [universalAmount]. *)
Definition addStatsV2 (spend : SpendType) (amountToAdd universalAmount : Z) (account : AccountID)
    (type : AccountType) (asset : AssetCode) (request : option Z) : M LState (StatsResult * Z) :=
  addStatsLoop account asset amountToAdd request
    (loadLimits (statsOpInt env) (limitsRows env) (spendOps spend) asset account type) universalAmount.

(** The loop of [StatisticsV2Processor::revertStatsV2] over the pending statistics. *)
Fixpoint revertStatsLoop (request : Z) (ps : list (Z * Z)) : M LState () :=
  match ps with
  | [] => mret ()
  | (stats, amount) :: ps' =>
      r ← loadStatsByID stats;
      match r with
      | None => throw (RuntimeError "Unexpected db state. Expected statisticsV2 to exist")
      | Some r =>
          match requestCreatedAt env request with
          | None => throw (RuntimeError "Unexpected state. Expected request to exist")
          | Some createdAt =>
              o ← lift (revertOutcome amount (getCloseTime env) createdAt (statsOutcomes r));
              storeStatsV2 false (set_statsOutcomes o r);;
              storeDeletePending request stats;;
              revertStatsLoop request ps'
          end
      end
  end.

Definition revertStatsV2 (request : Z) : M LState () :=
  m ← gets lsPending; revertStatsLoop request (loadPending request m).

End processor.
