(* ===== verification/StatisticsFacts.v ===== *)
(** * What statistics count

    A row of statistics stands for a history of amounts and the times at which they were
    spent: the outcomes are the sums over the current day, month and year, and for the
    current week at least the sum.  [weekPassed] misses some weeks that end with a year,
    and then the weekly outcome is kept. *)

From Stdlib Require Import ZArith Lia String.
From stdpp Require Import base tactics gmap option list.
From S2P Require Import Prelude UtilTypes Calendar Statistics.

Open Scope Z_scope.

Abbreviation History := (list (Z * Z)) (only parsing).

(** What was spent in the period [k] of the time [now]. *)
Definition spentIn (k : Period) (now : Z) (h : History) : Z :=
  foldr (fun e acc => (if periodOf k e.1 =? periodOf k now then e.2 else 0) + acc) 0 h.

Lemma spentIn_cons k now e h :
  spentIn k now (e :: h) = (if periodOf k e.1 =? periodOf k now then e.2 else 0) + spentIn k now h.
Proof. done. Qed.

Lemma spentIn_app k now h h' : spentIn k now (h ++ h') = spentIn k now h + spentIn k now h'.
Proof. induction h as [|e h IH]; [done|]. rewrite <- app_comm_cons, !spentIn_cons, IH. lia. Qed.

Definition amounts_ok (h : History) : Prop := Forall (fun e => 0 <= e.2) h.
Definition before (u : Z) (h : History) : Prop := Forall (fun e => time_ok e.1 /\ e.1 <= u) h.

Lemma spentIn_nonneg k now h : amounts_ok h -> 0 <= spentIn k now h.
Proof.
  induction h as [|e h IH]; [done|]. intros [He Hh]%Forall_cons. rewrite spentIn_cons.
  specialize (IH Hh). case_match; lia.
Qed.

(** A period inside another one. *)
Lemma spentIn_mono k k' now h : amounts_ok h ->
  (forall t, periodOf k t = periodOf k now -> periodOf k' t = periodOf k' now) ->
  spentIn k now h <= spentIn k' now h.
Proof.
  intros Hh Hk. induction h as [|e h IH]; [done|]. apply Forall_cons in Hh as [He Hh].
  rewrite !spentIn_cons. specialize (IH Hh).
  destruct (Z.eqb_spec (periodOf k e.1) (periodOf k now)) as [E|];
    destruct (Z.eqb_spec (periodOf k' e.1) (periodOf k' now)) as [|E']; try lia.
  destruct (E' (Hk _ E)).
Qed.

(** Time passes: what was spent until [u] counts until the period ends. *)
Lemma spentIn_later k u now h : before u h -> u <= now ->
  spentIn k now h = if periodOf k u <? periodOf k now then 0 else spentIn k u h.
Proof.
  intros Hh Hu. pose proof (periodOf_mono k u now Hu). induction Hh as [|e h [_ He] Hh IH].
  { by case_match. }
  rewrite !spentIn_cons, IH. pose proof (periodOf_mono k e.1 u He).
  destruct (Z.ltb_spec (periodOf k u) (periodOf k now));
    destruct (Z.eqb_spec (periodOf k e.1) (periodOf k now)), (Z.eqb_spec (periodOf k e.1) (periodOf k u)); lia.
Qed.

Lemma before_later u now h : before u h -> u <= now -> before now h.
Proof. intros Hh Hu. eapply Forall_impl; [done|]. cbn beta. intros e []. split; [done|lia]. Qed.

(** ** Tracking a history *)

Ltac outcomes := cbn [set_updatedAt set_annual set_monthly set_weekly set_daily updatedAt dailyOutcome
  weeklyOutcome monthlyOutcome annualOutcome negb andb].
Ltac outcomes_all := cbn [set_updatedAt set_annual set_monthly set_weekly set_daily updatedAt dailyOutcome
  weeklyOutcome monthlyOutcome annualOutcome negb andb] in *.

Record tracks (h : History) (s : Outcomes) : Prop := {
  tr_time : time_ok (updatedAt s);
  tr_before : before (updatedAt s) h;
  tr_amounts : amounts_ok h;
  tr_daily : dailyOutcome s = spentIn Day (updatedAt s) h;
  tr_monthly : monthlyOutcome s = spentIn Month (updatedAt s) h;
  tr_annual : annualOutcome s = spentIn Year (updatedAt s) h;
  tr_weekly : spentIn Week (updatedAt s) h <= weeklyOutcome s;
  tr_fits : annualOutcome s <= UINT64_MAX /\ weeklyOutcome s <= UINT64_MAX }.

Definition exactWeek (h : History) (s : Outcomes) : Prop := weeklyOutcome s = spentIn Week (updatedAt s) h.

Lemma tracks_none : tracks [] noOutcomes.
Proof. split; try done; by constructor. Qed.

(** Outcomes that track a history are ones the helper accepts. *)
Lemma tracks_valid h s : tracks h s -> isValidStatsV2 s = true.
Proof.
  intros Hs. destruct Hs. unfold isValidStatsV2. rewrite !andb_true_iff, !Z.leb_le.
  pose proof (spentIn_nonneg Day (updatedAt s) h). pose proof (spentIn_mono Day Week (updatedAt s) h).
  pose proof (spentIn_mono Day Month (updatedAt s) h). pose proof (spentIn_mono Month Year (updatedAt s) h).
  rewrite tr_daily0, tr_monthly0, tr_annual0.
  split_and!; [auto| | |]; [|by auto using same_day|by auto using same_month].
  etrans; [|done]. auto using same_day.
Qed.

(** Clearing brings the outcomes to the current time. *)
Lemma clearObsolete_tracks now h s : tracks h s -> time_ok now -> updatedAt s <= now ->
  exists s', clearObsolete now s = inr s' /\ tracks h (set_updatedAt now s') /\
    weeklyOutcome s' <= weeklyOutcome s /\
    (exactWeek h s -> weekSafe (updatedAt s) now \/ weeklyOutcome s = 0 ->
     exactWeek h (set_updatedAt now s')).
Proof.
  intros Hs Hn Hle. pose proof (spentIn_nonneg Week now h (tr_amounts _ _ Hs)) as Hw0. destruct Hs.
  destruct (weekPassed_spec (updatedAt s) now) as (b & from & Ew & Ey & Hb & Hsafe); [done..|].
  pose proof (spentIn_later Day (updatedAt s) now h) as HD. pose proof (spentIn_later Week (updatedAt s) now h) as HW.
  pose proof (spentIn_later Month (updatedAt s) now h) as HM. pose proof (spentIn_later Year (updatedAt s) now h) as HY.
  pose proof (spentIn_nonneg Week (updatedAt s) h tr_amounts0). pose proof (spentIn_nonneg Year (updatedAt s) h tr_amounts0).
  unfold clearObsolete. rewrite !tm_from_time_t_gmtime, Ew, Ey by done.
  rewrite month_passed, day_passed, year_passed by done.
  eexists; split; [done|].
  set (y := periodOf Year _ <? _) in *. set (m := periodOf Month _ <? _) in *. set (d := periodOf Day _ <? _) in *.
  assert (Hwk : weeklyOutcome s <> 0 -> spentIn Week now h = 0 \/ b = false).
  { destruct b; [|auto]. left. rewrite HW, (proj2 (Z.ltb_lt _ _)) by auto. done. }
  split_and!.
  - split; destruct y, m, b, d; outcomes; rewrite ?HD, ?HM, ?HY by done; try done; try lia;
      try by eapply before_later.
    all: rewrite HW by done; destruct (Z.ltb_spec (periodOf Week (updatedAt s)) (periodOf Week now)); try lia;
      specialize (Hb eq_refl); lia.
  - destruct y, m, b, d; cbn; lia.
  - unfold exactWeek. intros He Hc.
    assert (E : spentIn Week now h = if b then 0 else weeklyOutcome s).
    { rewrite HW by done. rewrite <- He. destruct Hc as [Hc| ->]; [by rewrite (Hsafe Hc)|].
      by destruct b, (_ <? _). }
    destruct y, m, b, d; cbn; by rewrite E.
Qed.

Lemma tracks_ranges h s : tracks h s ->
  is_u64 (dailyOutcome s) /\ is_u64 (weeklyOutcome s) /\ is_u64 (monthlyOutcome s) /\ is_u64 (annualOutcome s) /\
  dailyOutcome s <= monthlyOutcome s <= annualOutcome s.
Proof.
  intros Hs. pose proof (tracks_valid h s Hs) as Hv. pose proof (tr_fits _ _ Hs) as [].
  unfold isValidStatsV2 in Hv. propify. unfold is_u64. lia.
Qed.

(** *** Adding *)

Definition addAll (x : Z) (s : Outcomes) : Outcomes :=
  mkOutcomes (dailyOutcome s + x) (weeklyOutcome s + x) (monthlyOutcome s + x) (annualOutcome s + x) (updatedAt s).

Lemma addAll_tracks now x h s : tracks h s -> updatedAt s = now -> 0 <= x ->
  annualOutcome s + x <= UINT64_MAX -> weeklyOutcome s + x <= UINT64_MAX ->
  tracks ((now, x) :: h) (addAll x s) /\ (exactWeek h s -> exactWeek ((now, x) :: h) (addAll x s)).
Proof.
  intros [] <- Hx Ha Hw. unfold exactWeek.
  split; [split|]; cbn [addAll updatedAt dailyOutcome weeklyOutcome monthlyOutcome annualOutcome];
    rewrite ?spentIn_cons, ?Z.eqb_refl; cbn [fst snd]; try lia; [done| |by constructor].
  constructor; [by split|done].
Qed.

(** [add] says whether the four sums fit, and records the amount when they do. *)
Lemma addOutcome_eq now x h s s0 : tracks h (set_updatedAt now s0) -> is_u64 x ->
  clearObsolete now s = inr s0 ->
  exists s', addOutcome x now s =
    inr ((annualOutcome s0 + x <=? UINT64_MAX) && (weeklyOutcome s0 + x <=? UINT64_MAX), s') /\
    ((annualOutcome s0 + x <=? UINT64_MAX) && (weeklyOutcome s0 + x <=? UINT64_MAX) = true ->
     s' = addAll x (set_updatedAt now s0)).
Proof.
  intros Hs Hx E. destruct (tracks_ranges _ _ Hs) as (Hd & Hw & Hm & Ha & Hle).
  cbn [set_updatedAt annualOutcome monthlyOutcome weeklyOutcome dailyOutcome] in *.
  unfold addOutcome. rewrite E. outcomes.
  rewrite safeSum_spec by done. destruct (Z.leb_spec (annualOutcome s0 + x) UINT64_MAX) as [H1|H1]; outcomes.
  2:{ eexists; split; [done|]. done. }
  rewrite safeSum_spec by done.
  rewrite (proj2 (Z.leb_le (monthlyOutcome s0 + x) _)) by lia. outcomes.
  rewrite safeSum_spec by done. destruct (Z.leb_spec (weeklyOutcome s0 + x) UINT64_MAX) as [H2|H2]; outcomes.
  2:{ eexists; split; [done|]. done. }
  rewrite safeSum_spec by done.
  rewrite (proj2 (Z.leb_le (dailyOutcome s0 + x) _)) by lia.
  eexists; split; [done|]. intros _. unfold is_u64 in *. rewrite !u64_id by lia. done.
Qed.

Lemma addOutcome_tracks now x h s : tracks h s -> time_ok now -> updatedAt s <= now -> is_u64 x ->
  exists ok s', addOutcome x now s = inr (ok, s') /\
    (ok = true -> tracks ((now, x) :: h) s' /\ updatedAt s' = now /\ weeklyOutcome s' <= weeklyOutcome s + x /\
       (exactWeek h s -> weekSafe (updatedAt s) now \/ weeklyOutcome s = 0 -> exactWeek ((now, x) :: h) s')) /\
    (spentIn Year now h + x <= UINT64_MAX -> weeklyOutcome s + x <= UINT64_MAX -> ok = true).
Proof.
  intros Hs Hn Hle Hx. destruct (clearObsolete_tracks now h s) as (s0 & E & Ht & Hw & Hex); [done..|].
  destruct (addOutcome_eq now x h s s0 Ht Hx E) as (s' & E' & Hs').
  eexists _, s'. split; [exact E'|]. pose proof (tr_annual _ _ Ht) as Hann.
  cbn [set_updatedAt annualOutcome updatedAt] in Hann. split.
  - intros Hok. rewrite (Hs' Hok). propify.
    destruct (addAll_tracks now x h (set_updatedAt now s0)) as [H1 H2]; [done|done|apply Hx|done|done|].
    split_and!; [done|done| |auto]. cbn [addAll set_updatedAt weeklyOutcome]. lia.
  - intros H1 H2. apply andb_true_iff. split; apply Z.leb_le; lia.
Qed.

(** *** Reverting *)

Definition counted (k : Period) (t now x : Z) : Z := if periodOf k t =? periodOf k now then x else 0.

Lemma spentIn_drop k now t x h1 h2 :
  spentIn k now (h1 ++ (t, x) :: h2) = counted k t now x + spentIn k now (h1 ++ h2).
Proof. rewrite !spentIn_app, spentIn_cons. unfold counted. cbn [fst snd]. lia. Qed.

Lemma before_drop u t x h1 h2 : before u (h1 ++ (t, x) :: h2) -> before u (h1 ++ h2) /\ time_ok t /\ t <= u.
Proof.
  intros [H1 H2]%Forall_app. apply Forall_cons in H2 as [[Ht Hu] H2].
  split_and!; [|done|done]. by apply Forall_app.
Qed.

Lemma amounts_drop t x h1 h2 : amounts_ok (h1 ++ (t, x) :: h2) -> amounts_ok (h1 ++ h2) /\ 0 <= x.
Proof.
  intros [H1 H2]%Forall_app. apply Forall_cons in H2 as [Hx H2]. split; [|done]. by apply Forall_app.
Qed.

(** The outcomes without the amount, as far as [revert] takes it back. *)
Definition dropped (now t x : Z) (s : Outcomes) : Outcomes :=
  mkOutcomes (dailyOutcome s - counted Day t now x)
    (weeklyOutcome s - (if periodOf Month t =? periodOf Month now then counted Week t now x else 0))
    (monthlyOutcome s - counted Month t now x) (annualOutcome s - counted Year t now x) (updatedAt s).

Lemma dropped_tracks now t x h1 h2 s : tracks (h1 ++ (t, x) :: h2) s -> updatedAt s = now ->
  tracks (h1 ++ h2) (dropped now t x s) /\
  (exactWeek (h1 ++ (t, x) :: h2) s -> periodOf Month t = periodOf Month now \/ periodOf Week t <> periodOf Week now ->
   exactWeek (h1 ++ h2) (dropped now t x s)).
Proof.
  intros Hs <-. destruct (tracks_ranges _ _ Hs) as (Hd & Hw & Hm & Ha & Hle).
  destruct Hs. rewrite spentIn_drop in *. apply before_drop in tr_before0 as (Hb & Ht & Hu).
  apply amounts_drop in tr_amounts0 as (Hp & Hx). unfold is_u64 in *. split.
  - split; unfold dropped; outcomes; try done; try lia.
    + destruct (periodOf Month t =? _); [lia|]. unfold counted in *. case_match; lia.
    + unfold counted in *. destruct (periodOf Month t =? _), (periodOf Year t =? _), (periodOf Week t =? _); lia.
  - unfold exactWeek, dropped; outcomes. rewrite spentIn_drop. intros -> Hc. unfold counted.
    destruct (Z.eqb_spec (periodOf Month t) (periodOf Month (updatedAt s)));
      destruct (Z.eqb_spec (periodOf Week t) (periodOf Week (updatedAt s))); lia.
Qed.

Lemma counted_no k t now x : periodOf k t <> periodOf k now -> counted k t now x = 0.
Proof. intros H. unfold counted. by rewrite (proj2 (Z.eqb_neq _ _)). Qed.

Lemma counted_yes k t now x : periodOf k t = periodOf k now -> counted k t now x = x.
Proof. intros E. unfold counted. by rewrite E, Z.eqb_refl. Qed.

Lemma Outcomes_ext a b : dailyOutcome a = dailyOutcome b -> weeklyOutcome a = weeklyOutcome b ->
  monthlyOutcome a = monthlyOutcome b -> annualOutcome a = annualOutcome b -> updatedAt a = updatedAt b -> a = b.
Proof. destruct a, b; outcomes. congruence. Qed.

(** An amount that counts for a day counts for its month and week, and one that counts for
    a month counts for its year. *)
Ltac drop_case := f_equal; apply Outcomes_ext; unfold dropped; outcomes; unfold counted in *;
  repeat match goal with
  | H : periodOf _ _ = periodOf _ _ |- _ => rewrite (proj2 (Z.eqb_eq _ _) H) in *; clear H
  | H : periodOf _ _ <> periodOf _ _ |- _ => rewrite (proj2 (Z.eqb_neq _ _) H) in *; clear H
  end; lia.

(** What [revert] does once the outcomes are cleared: it does not throw, as the amount is
    in every sum it takes it from. *)
Lemma revertOutcome_eq now t x h1 h2 s s0 : clearObsolete now s = inr s0 ->
  tracks (h1 ++ (t, x) :: h2) (set_updatedAt now s0) -> t <= now ->
  revertOutcome x now t s = inr (dropped now t x (set_updatedAt now s0)).
Proof.
  intros E Hs Ht. destruct (tracks_ranges _ _ Hs) as (Hd & Hw & Hm & Ha & Hle). unfold is_u64 in *.
  destruct Hs. rewrite !spentIn_drop in *. apply before_drop in tr_before0 as (_ & Htok & _).
  apply amounts_drop in tr_amounts0 as (Hp & Hx).
  pose proof (fun k => spentIn_nonneg k now _ Hp) as Hpos.
  pose proof (Hpos Year). pose proof (Hpos Month). pose proof (Hpos Week). pose proof (Hpos Day). clear Hpos.
  destruct (weekPassed_spec t now) as (b & from & Ew & Ey & Hb & Hsafe); [done..|].
  unfold revertOutcome. rewrite E, !tm_from_time_t_gmtime, Ew by done. outcomes_all.
  destruct (decide (periodOf Year t = periodOf Year now)) as [Y|Y].
  2:{ assert (M : periodOf Month t <> periodOf Month now) by by intros ?%same_month.
      assert (D : periodOf Day t <> periodOf Day now) by by intros ?%(same_day Year).
      rewrite (proj2 (Z.eqb_neq _ _)) by (rewrite same_year_iff in Y; congruence). outcomes. drop_case. }
  rewrite (proj2 (Z.eqb_eq _ _)) by (symmetry; by apply same_year_iff). outcomes.
  rewrite (counted_yes Year t now x Y) in *. rewrite (proj2 (Z.ltb_ge (annualOutcome s0) x)) by lia.
  destruct (decide (periodOf Month t = periodOf Month now)) as [M|M].
  2:{ assert (D : periodOf Day t <> periodOf Day now) by by intros ?%(same_day Month).
      rewrite (proj2 (Z.eqb_neq _ _)) by (intros ?; apply M, same_month_iff; split; [by apply same_year_iff|done]). outcomes.
      rewrite u64_id by lia. drop_case. }
  rewrite (proj2 (Z.eqb_eq _ _)) by (symmetry; by apply same_month_iff). outcomes.
  rewrite (counted_yes Month t now x M) in *. rewrite (proj2 (Z.ltb_ge (monthlyOutcome s0) x)) by lia.
  rewrite !u64_id by lia. rewrite Hsafe by (left; congruence). clear Hb Hsafe.
  pose proof (periodOf_mono Week t now Ht). destruct (Z.ltb_spec (periodOf Week t) (periodOf Week now)) as [W|W].
  { assert (W' : periodOf Week t <> periodOf Week now) by lia.
    assert (D : periodOf Day t <> periodOf Day now) by by intros ?%(same_day Week). drop_case. }
  assert (W' : periodOf Week t = periodOf Week now) by lia.
  rewrite (counted_yes Week t now x W') in *. rewrite (proj2 (Z.ltb_ge (weeklyOutcome s0) x)), u64_id by lia.
  rewrite Ey. destruct (decide (periodOf Day t = periodOf Day now)) as [D|D].
  - rewrite (proj2 (Z.eqb_eq _ _)) by (symmetry; by apply same_day_iff). outcomes.
    rewrite (counted_yes Day t now x D) in *. rewrite (proj2 (Z.ltb_ge (dailyOutcome s0) x)), u64_id by lia. drop_case.
  - rewrite (proj2 (Z.eqb_neq _ _)) by (intros ?; apply D, same_day_iff; split; [by apply same_year_iff|done]). drop_case.
Qed.

Lemma revertOutcome_tracks now t x h1 h2 s : tracks (h1 ++ (t, x) :: h2) s -> time_ok now -> updatedAt s <= now ->
  exists s', revertOutcome x now t s = inr s' /\ tracks (h1 ++ h2) s' /\ updatedAt s' = now /\
    weeklyOutcome s' <= weeklyOutcome s /\
    (exactWeek (h1 ++ (t, x) :: h2) s -> weekSafe (updatedAt s) now \/ weeklyOutcome s = 0 ->
     periodOf Month t = periodOf Month now \/ periodOf Week t <> periodOf Week now ->
     exactWeek (h1 ++ h2) s').
Proof.
  intros Hs Hn Hle. destruct (clearObsolete_tracks now _ s Hs Hn Hle) as (s0 & E & Ht & Hw & Hex).
  destruct (before_drop _ _ _ _ _ (tr_before _ _ Hs)) as (_ & _ & Htu).
  destruct (amounts_drop _ _ _ _ (tr_amounts _ _ Hs)) as (_ & Hx).
  destruct (dropped_tracks now t x h1 h2 _ Ht eq_refl) as [H1 H2].
  eexists. split; [apply (revertOutcome_eq now t x h1 h2 s s0 E Ht); lia|].
  split_and!; [done|done| |auto]. unfold dropped; outcomes. unfold counted. repeat case_match; lia.
Qed.

(** What [revert] leaves in the sum of the week: an amount of another month of the same week. *)
Definition leftInWeek (t now x : Z) : Z := if periodOf Month t =? periodOf Month now then 0 else counted Week t now x.

Lemma revertOutcome_week now t x h1 h2 s s' : tracks (h1 ++ (t, x) :: h2) s -> time_ok now -> updatedAt s <= now ->
  revertOutcome x now t s = inr s' -> exactWeek (h1 ++ (t, x) :: h2) s -> weekSafe (updatedAt s) now \/ weeklyOutcome s = 0 ->
  weeklyOutcome s' = spentIn Week now (h1 ++ h2) + leftInWeek t now x.
Proof.
  intros Hs Hn Hle E He Hc. destruct (clearObsolete_tracks now _ s Hs Hn Hle) as (s0 & E0 & Ht & _ & Hex).
  destruct (before_drop _ _ _ _ _ (tr_before _ _ Hs)) as (_ & _ & Htu).
  rewrite (revertOutcome_eq now t x h1 h2 s s0 E0 Ht) in E by lia. injection E as <-.
  specialize (Hex He Hc). unfold exactWeek, dropped, leftInWeek in *. outcomes_all. rewrite Hex, spentIn_drop.
  case_match; lia.
Qed.
