(* ===== verification/StatisticsTheorems.v ===== *)
(** * Limits are kept

    [addStatsV2] records what an account spends in every row of statistics that has
    limits, and succeeds only when no limit is exceeded; [revertStatsV2] takes back what
    was recorded for a request. *)

From Stdlib Require Import ZArith Lia String.
From stdpp Require Import sorting.
From stdpp Require Import base tactics gmap option list.
From S2P Require Import Prelude ScpTypes LedgerTypes LedgerDelta UtilTypes Balance Offer OfferExchange CreateOffer.
From S2P Require Import ExchangeSteps Calendar Statistics StatisticsFacts.

Open Scope Z_scope.

(** ** A row of statistics over time *)

(** What happens to a row: an amount is spent, or one that was spent is taken back. *)
Inductive StatsEvent :=
| Spend (now x : Z)
| Undo (now performed x : Z).

Definition eventTime (ev : StatsEvent) : Z := match ev with Spend now _ | Undo now _ _ => now end.
Definition eventSpends (ev : StatsEvent) : Z := match ev with Spend _ x => x | Undo _ _ _ => 0 end.

(** The row after an event, unless [add] refuses or something throws. *)
Definition statsStep (ev : StatsEvent) (s : Outcomes) : option Outcomes :=
  match ev with
  | Spend now x => match addOutcome x now s with inr (true, s') => Some s' | _ => None end
  | Undo now t x => match revertOutcome x now t s with inr s' => Some s' | inl _ => None end
  end.

Fixpoint statsRun (evs : list StatsEvent) (s : Outcomes) : option Outcomes :=
  match evs with
  | [] => Some s
  | ev :: evs' => match statsStep ev s with Some s' => statsRun evs' s' | None => None end
  end.

(** The history the events leave: only what was spent can be taken back. *)
Fixpoint removeFirst (e : Z * Z) (h : History) : option History :=
  match h with
  | [] => None
  | e' :: h' => if decide (e = e') then Some h' else option_map (cons e') (removeFirst e h')
  end.

Fixpoint historyRun (evs : list StatsEvent) (h : History) : option History :=
  match evs with
  | [] => Some h
  | Spend now x :: evs' => historyRun evs' ((now, x) :: h)
  | Undo _ t x :: evs' => match removeFirst (t, x) h with Some h' => historyRun evs' h' | None => None end
  end.

(** Events in the order of their times, from [u] on. *)
Fixpoint inOrder (u : Z) (evs : list StatsEvent) : Prop :=
  match evs with
  | [] => True
  | ev :: evs' => time_ok (eventTime ev) /\ u <= eventTime ev /\ 0 <= eventSpends ev /\ inOrder (eventTime ev) evs'
  end.

Definition lastTime (u : Z) (evs : list StatsEvent) : Z := foldl (fun _ ev => eventTime ev) u evs.

Definition totalSpent (evs : list StatsEvent) : Z := foldr (fun ev acc => eventSpends ev + acc) 0 evs.

(** Events of one year, in which amounts are taken back in the month they were spent in. *)
Definition regular (y : Z) (ev : StatsEvent) : Prop :=
  periodOf Year (eventTime ev) = y /\
  match ev with Spend _ _ => True | Undo now t _ => periodOf Month t = periodOf Month now end.

Lemma removeFirst_app e h h' : removeFirst e h = Some h' -> exists h1 h2, h = h1 ++ e :: h2 /\ h' = h1 ++ h2.
Proof.
  revert h'. induction h as [|e' h IH]; intros h'; cbn [removeFirst]; [done|].
  case_decide as E; [intros [= <-]; subst; by exists [], h|].
  destruct (removeFirst e h) as [h0|]; cbn [option_map]; intros [= <-].
  destruct (IH h0 eq_refl) as (h1 & h2 & -> & ->). by exists (e' :: h1), h2.
Qed.

(** One event: the row goes on tracking, and its outcomes grow by no more than is spent. *)
Lemma statsStep_tracks ev h h' s B : tracks h s -> historyRun [ev] h = Some h' ->
  time_ok (eventTime ev) -> updatedAt s <= eventTime ev -> 0 <= eventSpends ev ->
  (forall now, spentIn Year now h <= B) -> weeklyOutcome s <= B -> B + eventSpends ev <= UINT64_MAX ->
  exists s', statsStep ev s = Some s' /\ tracks h' s' /\ updatedAt s' = eventTime ev /\
    (forall now, spentIn Year now h' <= B + eventSpends ev) /\ weeklyOutcome s' <= B + eventSpends ev /\
    (exactWeek h s -> weekSafe (updatedAt s) (eventTime ev) \/ weeklyOutcome s = 0 ->
     regular (periodOf Year (eventTime ev)) ev -> exactWeek h' s').
Proof.
  intros Hs Eh Ht Hle Hx HB HwB Hfit. destruct ev as [now x|now t x]; cbn [eventTime eventSpends historyRun] in *.
  - injection Eh as <-. pose proof (spentIn_nonneg Year now h (tr_amounts _ _ Hs)).
    destruct (addOutcome_tracks now x h s) as (ok & s' & E & Hok & Hfits); [done..| |].
    { specialize (HB now). unfold is_u64. lia. }
    assert (ok = true) as ->. { specialize (HB now). apply Hfits; lia. }
    destruct (Hok eq_refl) as (H1 & H2 & H3 & H4). exists s'. unfold statsStep. rewrite E.
    split_and!; [done..| | |auto]; [|lia]. intros u. rewrite spentIn_cons. specialize (HB u). cbn [fst snd]. case_match; lia.
  - destruct (removeFirst (t, x) h) as [h0|] eqn:Er; [|done]. injection Eh as <-.
    apply removeFirst_app in Er as (h1 & h2 & -> & ->).
    destruct (amounts_drop _ _ _ _ (tr_amounts _ _ Hs)) as [_ Hx0].
    destruct (revertOutcome_tracks now t x h1 h2 s) as (s' & E & H1 & H2 & H3 & H4); [done..|].
    exists s'. unfold statsStep. rewrite E. split_and!; [done..| |lia|].
    + intros u. specialize (HB u). rewrite spentIn_drop in HB. unfold counted in HB. case_match; lia.
    + intros He Hc [_ Hm]. by apply H4; [..|left].
Qed.

Lemma statsRun_tracks evs : forall h h' s B, tracks h s -> historyRun evs h = Some h' ->
  inOrder (updatedAt s) evs ->
  (forall now, spentIn Year now h <= B) -> weeklyOutcome s <= B -> B + totalSpent evs <= UINT64_MAX ->
  exists s', statsRun evs s = Some s' /\ tracks h' s' /\ updatedAt s' = lastTime (updatedAt s) evs /\
    (evs <> [] -> exactWeek h s -> forall y, Forall (regular y) evs ->
     periodOf Year (updatedAt s) = y \/ weeklyOutcome s = 0 -> exactWeek h' s').
Proof.
  induction evs as [|ev evs IH]; intros h h' s B Hs Eh Ho HB HwB Hfit.
  { cbn in Eh. injection Eh as <-. by exists s. }
  destruct Ho as (Ht & Hle & Hx & Ho). cbn [totalSpent foldr] in Hfit. fold (totalSpent evs) in Hfit.
  assert (Hrest : 0 <= totalSpent evs).
  { clear -Ho. revert Ho. generalize (eventTime ev). induction evs as [|e evs IH]; intros u; [done|].
    intros (_ & _ & He & Ho). cbn [totalSpent foldr]. fold (totalSpent evs). specialize (IH _ Ho). lia. }
  assert (exists h1, historyRun [ev] h = Some h1 /\ historyRun evs h1 = Some h') as (h1 & Eh1 & Eh2).
  { destruct ev as [now x|now t x]; cbn [historyRun] in *; [by eexists|]. destruct (removeFirst (t, x) h); [by eexists|done]. }
  destruct (statsStep_tracks ev h h1 s B) as (s1 & E1 & Hs1 & Eu & HB1 & Hw1 & Hex); [done..|lia|].
  cbn [statsRun]. rewrite E1.
  destruct (IH h1 h' s1 (B + eventSpends ev)) as (s' & E' & Hs' & Et & Hex'); [done|done|by rewrite Eu|done|done|lia|].
  exists s'. split_and!; [done|done| |]; [by rewrite Et, Eu|]. intros _ He y Hreg Hy. apply Forall_cons in Hreg as [Hr Hreg].
  assert (He1 : exactWeek h1 s1).
  { destruct Hr as [Hyr Hm]. apply Hex; [done| |by split]. destruct Hy as [Hy|Hy]; [left|by right].
    left. congruence. }
  destruct evs as [|ev' evs]; [cbn in *; by simplify_eq|].
  apply (Hex' ltac:(done) He1 y Hreg). left. rewrite Eu. apply Hr.
Qed.

(** C30. A row of statistics refines the history of what was spent: after any sequence of
    amounts spent and taken back, in the order of their times and with sums that fit in 64
    bits, the daily, monthly and annual outcomes are exactly what the history has in the
    current day, month and year, and the weekly outcome is at least what it has in the
    current week.  It is exactly that when all happens in one year and amounts are taken
    back in the month they were spent in. *)
Theorem statistics_refine_history (evs : list StatsEvent) (h : History) :
  historyRun evs [] = Some h -> inOrder 0 evs -> totalSpent evs <= UINT64_MAX ->
  exists s, statsRun evs noOutcomes = Some s /\ isValidStatsV2 s = true /\
    updatedAt s = lastTime 0 evs /\
    dailyOutcome s = spentIn Day (updatedAt s) h /\
    monthlyOutcome s = spentIn Month (updatedAt s) h /\
    annualOutcome s = spentIn Year (updatedAt s) h /\
    spentIn Week (updatedAt s) h <= weeklyOutcome s /\
    (forall y, Forall (regular y) evs -> weeklyOutcome s = spentIn Week (updatedAt s) h).
Proof.
  intros Eh Ho Hfit.
  destruct (statsRun_tracks evs [] h noOutcomes 0) as (s & E & Hs & Et & Hex); [apply tracks_none|done..|].
  exists s. pose proof (tracks_valid h s Hs). destruct Hs. split_and!; try done.
  intros y Hreg. destruct evs as [|ev evs].
  { cbn in *. by simplify_eq. }
  apply (Hex ltac:(done) ltac:(done) y Hreg). by right.
Qed.

(** ** The limits that apply *)

Section selection.
Context (opInt : StatsOpType -> N).

Definition keys_le (a b : list (list N)) : Prop := list_leb a b = true.

Lemma limits_le_key a b : limits_le opInt a b ->
  keys_le (limitsKey opInt a) (limitsKey opInt b) /\
  (limitsKey opInt a = limitsKey opInt b -> (rank a <= rank b)%N).
Proof.
  unfold limits_le, keys_le, limitsKey. cbn [app]. rewrite !list_leb_cons. intros H. split.
  - split; [apply H|]. intros H1. split; [by apply H|]. intros H2. split; [by apply H|done].
  - intros [= E1 E2 E3]. rewrite E1, E2, E3 in H.
    assert (R : forall x : list N, std_le x x) by (intros x; by destruct (bytes_leb_total x x)).
    destruct H as (_ & H). destruct (H (R _)) as (_ & H'). destruct (H' (R _)) as (_ & H'').
    destruct (H'' (R _)) as [H3 _]. cbn in H3.
    destruct (N.eqb_spec (rank a) (rank b)) as [->|]; [done|]. apply N.ltb_lt in H3. lia.
Qed.

Lemma distinctOn_spec rows : forall prev, StronglySorted (limits_le opInt) rows ->
  (forall k, prev = Some k -> Forall (fun l => keys_le k (limitsKey opInt l)) rows) ->
  (forall l, l ∈ distinctOn opInt prev rows -> l ∈ rows /\ prev <> Some (limitsKey opInt l)) /\
  NoDup (limitsKey opInt <$> distinctOn opInt prev rows) /\
  (forall l', l' ∈ rows -> prev = Some (limitsKey opInt l') \/
    exists l, l ∈ distinctOn opInt prev rows /\ limitsKey opInt l = limitsKey opInt l' /\ (rank l <= rank l')%N).
Proof.
  induction rows as [|l rows IH]; intros prev Hs Hp; cbn [distinctOn].
  { split_and!; [by intros l ?%elem_of_nil|constructor|by intros l ?%elem_of_nil]. }
  apply StronglySorted_inv in Hs as [Hs Hl]. case_decide as E.
  - destruct (IH prev Hs) as (H1 & H2 & H3).
    { intros k Hk. apply Hp, Forall_cons in Hk. apply Hk. }
    split_and!; [|done|].
    + intros l' Hl'. destruct (H1 l' Hl'). split; [by right|done].
    + intros l' [->|Hl']%elem_of_cons; [by left|by apply H3].
  - destruct (IH (Some (limitsKey opInt l)) Hs) as (H1 & H2 & H3).
    { intros k [= <-]. eapply Forall_impl; [exact Hl|]. intros l' Hl'. by apply limits_le_key. }
    split_and!.
    + intros l' [->|Hl']%elem_of_cons; [split; [by left|done]|]. destruct (H1 l' Hl') as [Hin Hne].
      split; [by right|]. intros ->. specialize (Hp _ eq_refl). apply Forall_cons in Hp as [Hkl _].
      apply Hne. f_equal. rewrite Forall_forall in Hl. destruct (limits_le_key l l' (Hl l' Hin)).
      by apply list_leb_antisym.
    + cbn [fmap list_fmap]. constructor; [|done]. intros (l' & E' & Hl')%list_elem_of_fmap.
      destruct (H1 l' Hl') as [_ Hne]. congruence.
    + intros l' [->|Hl']%elem_of_cons; right; [exists l; split; [by left|split; [done|lia]]|].
      destruct (H3 l' Hl') as [E'|(l0 & H0 & E0 & R0)]; [|exists l0; split; [by right|done]].
      assert (limitsKey opInt l = limitsKey opInt l') by congruence.
      exists l. split; [by left|]. split; [done|]. rewrite Forall_forall in Hl.
      by apply (limits_le_key l l' (Hl l' Hl')).
Qed.

#[local] Instance limits_le_trans : Transitive (limits_le opInt).
Proof. intros a b c. unfold limits_le. apply list_leb_trans. Qed.

#[local] Instance limits_le_total : Total (limits_le opInt).
Proof. intros a b. unfold limits_le. apply list_leb_total. Qed.

(** The limits that are loaded: the rows that apply, one for an operation, an asset and a
    conversion, and the most precise of them. *)
Lemma loadLimits_spec rows ops asset account type :
  let ls := loadLimits opInt rows ops asset account type in
  (forall l, l ∈ ls -> l ∈ rows /\ applies ops asset account type l) /\
  NoDup (limitsKey opInt <$> ls) /\
  (forall l', l' ∈ rows -> applies ops asset account type l' ->
    exists l, l ∈ ls /\ limitsKey opInt l = limitsKey opInt l' /\ (rank l <= rank l')%N).
Proof.
  intros ls. destruct (distinctOn_spec (merge_sort (limits_le opInt) (base.filter (applies ops asset account type) rows)) None)
    as (H1 & H2 & H3); [apply StronglySorted_merge_sort; apply _|done|].
  assert (Hin : forall l, l ∈ merge_sort (limits_le opInt) (base.filter (applies ops asset account type) rows) <->
    applies ops asset account type l /\ l ∈ rows).
  { intros l. by rewrite merge_sort_Permutation, list_elem_of_filter. }
  split_and!; [|done|].
  - intros l Hl. destruct (H1 l Hl) as [[Ha Hr]%Hin _]. done.
  - intros l' Hr Ha. by destruct (H3 l' (proj2 (Hin l') (conj Ha Hr))) as [|].
Qed.

End selection.
