(* ===== verification/LimitsTheorems.v ===== *)
(** * The processor of statistics

    The tables of statistics stand for a history in every row.  [addStatsV2] grows the
    histories of the rows that have limits by what is spent, and succeeds only within the
    limits; [revertStatsV2] shrinks them again. *)

From Stdlib Require Import ZArith Lia String.
From stdpp Require Import sorting.
From stdpp Require Import base tactics gmap option list.
From S2P Require Import Prelude ScpTypes LedgerTypes LedgerDelta UtilTypes Balance Offer OfferExchange CreateOffer.
From S2P Require Import ExchangeSteps Calendar Statistics StatisticsFacts StatisticsTheorems.

Open Scope Z_scope.

Abbreviation StatsTable := (gmap Z StatsV2) (only parsing).

(** ** Identifiers *)

Lemma bump_last t gs : bumpGenerator t gs = (u64 (lastGenerated t gs + 1), (bumpGenerator t gs).2) /\
  lastGenerated t (bumpGenerator t gs).2 = u64 (lastGenerated t gs + 1).
Proof.
  induction gs as [|[t' i] gs IH]; cbn [bumpGenerator lastGenerated].
  { cbn [snd lastGenerated]. by rewrite bool_decide_true. }
  case_bool_decide as E; cbn [snd lastGenerated]; [by rewrite bool_decide_true|].
  destruct (bumpGenerator t gs) as [r gs'] eqn:Eb. cbn [snd lastGenerated] in *. destruct IH as [[= ->] IH].
  by rewrite bool_decide_false.
Qed.

Definition lastID (s : LState) : Z := getLastGeneratedID STATISTICS_V2 (lsHeader s).

Lemma wp_generate E (Q : Z -> LState -> Prop) s : 0 <= lastID s < UINT64_MAX ->
  (forall h, getLastGeneratedID STATISTICS_V2 h = lastID s + 1 -> Q (lastID s + 1) (set_lsHeader h s)) ->
  wp E (generate STATISTICS_V2) Q s.
Proof.
  intros Hl HQ. unfold generate. do 2 xstep. unfold generateID.
  destruct (bump_last STATISTICS_V2 (idGenerators (lsHeader s))) as [E1 E2]. rewrite E1.
  do 3 xstep. change (lastGenerated _ (idGenerators (lsHeader s))) with (lastID s) in *.
  rewrite u64_id in * by lia. apply HQ. exact E2.
Qed.

(** ** Rows *)

Definition rowKey (r : StatsV2) := (statsAccount r, statsOpType r, statsAsset r, statsConvert r).

Definition limRow (account : AccountID) (l : LimitsV2) (r : StatsV2) : Prop :=
  statsKeyOf account (limOpType l) (limAsset l) (limConvert l) r.

Lemma limRow_key account l r : limRow account l r <-> rowKey r = (account, limOpType l, limAsset l, limConvert l).
Proof. unfold limRow, statsKeyOf, rowKey. split; [by intros (-> & -> & -> & ->)|by intros [=]]. Qed.

(** The histories [H] behind the rows at the time [now]. *)
Record stats_inv (now : Z) (H : Z -> History) (s : LState) : Prop := {
  si_rows : forall i r, lsStatsV2 s !! i = Some r ->
    statsID r = i /\ tracks (H i) (statsOutcomes r) /\ updatedAt (statsOutcomes r) <= now;
  si_unique : forall i j r r', lsStatsV2 s !! i = Some r -> lsStatsV2 s !! j = Some r' ->
    rowKey r = rowKey r' -> i = j;
  si_ids : 0 <= lastID s /\ forall i, is_Some (lsStatsV2 s !! i) -> i <= lastID s;
  si_none : forall i, lsStatsV2 s !! i = None -> H i = [];
  si_pending : forall q i, is_Some (lsPending s !! (q, i)) -> is_Some (lsStatsV2 s !! i);
  si_pairs : forall k p, dbPairs (lsDb s) !! k = Some p -> 0 < currentPrice p <= INT64_MAX }.

Lemma lastValid_all rows acc : Forall (fun r => isValidStatsV2 (statsOutcomes r) = true) rows ->
  lastValid rows acc = inr (match last rows with Some r => Some r | None => acc end).
Proof.
  intros Hr. revert acc. induction Hr as [|r rows Hv Hr IH]; intros acc; [done|].
  cbn [lastValid]. rewrite Hv, IH. destruct rows as [|r' rows]; [done|]. cbn [last]. by destruct (last (r' :: rows)) eqn:E; [|apply last_None in E].
Qed.

Lemma elem_of_statsRows account op asset convert (m : StatsTable) r :
  r ∈ statsRows account op asset convert m <-> statsKeyOf account op asset convert r /\ exists i, m !! i = Some r.
Proof.
  unfold statsRows. rewrite list_elem_of_filter, list_elem_of_fmap. split; intros [Hk Hr]; (split; [done|]).
  - destruct Hr as ([i r'] & -> & Hi%elem_of_map_to_list). by exists i.
  - destruct Hr as [i Hi]. exists (i, r). split; [done|]. by apply elem_of_map_to_list.
Qed.

Section processor.
Context (env : StatsEnv).
Abbreviation now := (getCloseTime env).

Lemma rows_valid H s i r : stats_inv now H s -> lsStatsV2 s !! i = Some r -> isValidStatsV2 (statsOutcomes r) = true.
Proof. intros Hs Hi. by eapply tracks_valid, (si_rows _ _ _ Hs). Qed.

(** Loading the row of a key. *)
Lemma wp_loadStatsByKey E H account l Q s : stats_inv now H s ->
  (forall r, lsStatsV2 s !! statsID r = Some r -> limRow account l r -> Q (Some r) s) ->
  ((forall i r, lsStatsV2 s !! i = Some r -> ~ limRow account l r) -> Q None s) ->
  wp E (loadStatsByKey account (limOpType l) (limAsset l) (limConvert l)) Q s.
Proof.
  intros Hs HS HN. unfold loadStatsByKey. do 2 xstep. set (rows := statsRows _ _ _ _ _).
  assert (Hrows : forall r, r ∈ rows <-> limRow account l r /\ exists i, lsStatsV2 s !! i = Some r)
    by (intros r; apply elem_of_statsRows).
  eapply wp_lift.
  { apply lastValid_all, Forall_forall. intros r [_ [i Hi]]%Hrows. by apply (rows_valid H s i). }
  destruct (last rows) as [r|] eqn:El.
  - apply last_Some_elem_of, Hrows in El as [Hl [i Hi]]. apply HS; [|done].
    by destruct (si_rows _ _ _ Hs i r Hi) as [-> _].
  - apply last_None in El. apply HN. intros i r Hi Hl. assert (r ∈ rows) as Hr by (apply Hrows; eauto).
    rewrite El in Hr. by apply elem_of_nil in Hr.
Qed.

(** The state but for the tables of statistics and the generators. *)
Definition sameRest (s s' : LState) : Prop :=
  lsDb s' = lsDb s /\ lsStats s' = lsStats s /\ lsReferences s' = lsReferences s.

(** A new row. *)
Lemma stats_inv_new H s account l i : stats_inv now H s -> time_ok now ->
  (forall j r, lsStatsV2 s !! j = Some r -> ~ limRow account l r) -> lsStatsV2 s !! i = None -> i <= lastID s ->
  stats_inv now H (set_lsStatsV2
    (<[i := newStatisticsV2 i account (limOpType l) (limAsset l) (limConvert l)]> (lsStatsV2 s)) s).
Proof.
  intros Hs Hn Hno Hi Hlast. set (r0 := newStatisticsV2 _ _ _ _ _).
  split; cbn [set_lsStatsV2 lsStatsV2 lsPending lsDb]; try apply Hs.
  - intros j r [[<- <-]|[Hne Hj]]%lookup_insert_Some; [|by apply Hs].
    split; [done|]. rewrite (si_none _ _ _ Hs) by done. split; [apply tracks_none|]. cbn. apply Hn.
  - intros j k r r' [[<- <-]|[Hne Hj]]%lookup_insert_Some [[<- <-]|[Hne' Hk]]%lookup_insert_Some E; [done| | |].
    + destruct (Hno k r' Hk). apply limRow_key. by rewrite <- E.
    + destruct (Hno j r Hj). apply limRow_key. by rewrite E.
    + by apply (si_unique _ _ _ Hs j k r r').
  - destruct (si_ids _ _ _ Hs) as [H0 Hids]. split; [exact H0|]. intros j Hj.
    destruct (decide (j = i)) as [->|Hne]; [exact Hlast|]. rewrite lookup_insert_ne in Hj by done. by apply Hids.
  - intros j Hj. apply lookup_insert_None in Hj as [Hj _]. by apply Hs.
  - intros q j Hq. destruct (decide (j = i)) as [->|Hne]; [rewrite lookup_insert_eq; by eexists|].
    rewrite lookup_insert_ne by done. by apply (si_pending _ _ _ Hs q).
Qed.

(** *** Growing *)

(** An amount in the asset [dest] of a pair, rounded up. *)
Definition converted (p : AssetPair) (dest : AssetCode) (x : Z) : Z :=
  if decide (pairQuote p = dest) then quotient x (currentPrice p) ONE ROUND_UP
  else quotient x ONE (currentPrice p) ROUND_UP.

Lemma convertAmount_spec p dest x : 0 < currentPrice p <= INT64_MAX -> is_u64 x ->
  convertAmount p dest x ROUND_UP = inr (converted p dest x <=? UINT64_MAX, u64 (converted p dest x)) /\
  0 <= converted p dest x.
Proof.
  intros Hp Hx. unfold convertAmount, converted, INT64_MAX in *.
  rewrite u64_id by (unfold UINT64_MAX; lia).
  case_decide; (split; [apply bigDivide_u64_quotient|apply quotient_nonneg]); unfold is_u64, UINT64_MAX, ONE in *; lia.
Qed.

(** What is recorded for the limits [l]: the amount, converted when they ask for it; nothing
    when there is no pair of assets. *)
Definition amountFor (asset : AssetCode) (x : Z) (l : LimitsV2) (d : Db) : option Z :=
  if limConvert l && negb (bool_decide (asset = limAsset l)) then
    (fun p => converted p (limAsset l) x) <$> tryLoadAssetPairForAssets asset (limAsset l) d
  else Some x.

Definition limitOf (k : Period) (l : LimitsV2) : Z :=
  match k with Day => dailyOut l | Week => weeklyOut l | Month => monthlyOut l | Year => annualOut l end.

(** The rows the limits [ls] are about. *)
Definition concerns (account : AccountID) (ls : list LimitsV2) (s : LState) (i : Z) : Prop :=
  exists r l, lsStatsV2 s !! i = Some r /\ l ∈ ls /\ limRow account l r.

(** The row of [l] has grown by the amount and is within the limits. *)
Definition granted (account : AccountID) (asset : AssetCode) (x : Z) (request : option Z) (H H' : Z -> History)
    (s' : LState) (l : LimitsV2) : Prop :=
  exists i r, lsStatsV2 s' !! i = Some r /\ limRow account l r /\
    match amountFor asset x l (lsDb s') with
    | None => H' i = H i /\ (forall q, request = Some q -> lsPending s' !! (q, i) = None)
    | Some y =>
        H' i = (now, y) :: H i /\ validateStats l (statsOutcomes r) = true /\ updatedAt (statsOutcomes r) = now /\
        (forall q, request = Some q -> lsPending s' !! (q, i) = Some y)
    end.

Record grown (account : AccountID) (asset : AssetCode) (x : Z) (request : option Z) (ls : list LimitsV2)
    (H : Z -> History) (s : LState) (H' : Z -> History) (s' : LState) : Prop := {
  gr_granted : forall l, l ∈ ls -> granted account asset x request H H' s' l;
  gr_frame : forall i, ~ concerns account ls s' i ->
    lsStatsV2 s' !! i = lsStatsV2 s !! i /\ H' i = H i /\ forall q, lsPending s' !! (q, i) = lsPending s !! (q, i);
  gr_keys : forall i r, lsStatsV2 s !! i = Some r -> exists r', lsStatsV2 s' !! i = Some r' /\ rowKey r' = rowKey r;
  gr_pending : forall q i, request <> Some q -> lsPending s' !! (q, i) = lsPending s !! (q, i) }.

(** No row of the limits is pending for the request yet. *)
Definition notPending (account : AccountID) (request : option Z) (ls : list LimitsV2) (s : LState) : Prop :=
  forall q i, request = Some q -> concerns account ls s i -> lsPending s !! (q, i) = None.

Lemma amountFor_convert asset x l (r : StatsV2) account E Q s H : stats_inv now H s -> is_u64 x -> limRow account l r ->
  match amountFor asset x l (lsDb s) with
  | None => Q None s
  | Some y => 0 <= y -> (y <= UINT64_MAX -> Q (Some (true, y)) s) /\ (forall z, Q (Some (false, z)) s)
  end ->
  wp E (convertForStats asset x r) Q s.
Proof.
  intros Hs Hx (_ & _ & Ea & Ec) HQ. unfold convertForStats, amountFor in *. rewrite Ea, Ec.
  destruct (limConvert l && negb (bool_decide (asset = limAsset l))).
  2:{ xstep. destruct HQ as [HQ _]; unfold is_u64 in *; [lia|]. apply HQ. lia. }
  do 2 xstep. destruct (tryLoadAssetPairForAssets asset (limAsset l) (lsDb s)) as [p|] eqn:Ep; [|by xstep].
  assert (Hp : 0 < currentPrice p <= INT64_MAX).
  { unfold tryLoadAssetPairForAssets in Ep. repeat case_match; simplify_eq; by eapply (si_pairs _ _ _ Hs). }
  destruct (convertAmount_spec p (limAsset l) x Hp Hx) as [Ec' Hnn]. cbn in HQ. destruct (HQ Hnn) as [H1 H2].
  xstep. eapply wp_lift; [exact Ec'|]. cbn beta. xstep.
  destruct (Z.leb_spec (converted p (limAsset l) x) UINT64_MAX); [|done]. rewrite u64_id by lia. auto.
Qed.

(** The state after [statsFor]: perhaps there is a new row. *)
Record provided (account : AccountID) (l : LimitsV2) (H : Z -> History) (s : LState) (r : StatsV2) (s' : LState) :
    Prop := {
  pv_inv : stats_inv now H s';
  pv_row : lsStatsV2 s' !! statsID r = Some r;
  pv_key : limRow account l r;
  pv_before : lsStatsV2 s !! statsID r = Some r \/ lsStatsV2 s !! statsID r = None;
  pv_others : forall j, j <> statsID r -> lsStatsV2 s' !! j = lsStatsV2 s !! j;
  pv_pending : lsPending s' = lsPending s;
  pv_rest : sameRest s s';
  pv_last : lastID s' <= lastID s + 1 }.

Lemma lastID_header s h : lastID (set_lsHeader h s) = getLastGeneratedID STATISTICS_V2 h.
Proof. done. Qed.

Lemma stats_inv_header H s h : stats_inv now H s -> lastID s <= getLastGeneratedID STATISTICS_V2 h ->
  stats_inv now H (set_lsHeader h s).
Proof.
  intros Hs Hl. split; cbn [set_lsHeader lsStatsV2 lsPending lsDb]; try apply Hs.
  rewrite lastID_header. destruct (si_ids _ _ _ Hs) as [H0 Hids]. split; [lia|]. intros i Hi. specialize (Hids i Hi). lia.
Qed.

Lemma wp_statsFor E account l H s : stats_inv now H s -> time_ok now -> lastID s < UINT64_MAX ->
  wp E (statsFor account l) (provided account l H s) s.
Proof.
  intros Hs Hn Hlast. unfold statsFor. xstep. eapply (wp_loadStatsByKey E H account l); [done| |].
  { intros r Hr Hk. xstep. split; try done; [by left|lia]. }
  intros Hno. xstep. destruct (si_ids _ _ _ Hs) as [H0 Hids].
  apply wp_generate; [lia|]. intros h E1. cbn beta.
  assert (Hi : lsStatsV2 s !! (lastID s + 1) = None).
  { apply eq_None_not_Some. intros Hi%Hids. lia. }
  pose proof (stats_inv_header H s h Hs ltac:(lia)) as Hs1.
  pose proof (stats_inv_new H _ account l (lastID s + 1) Hs1 Hn Hno Hi ltac:(rewrite lastID_header; lia)) as Hs2.
  unfold storeStatsV2. set (r := newStatisticsV2 _ _ _ _ _) in *.
  change (isValidStatsV2 (statsOutcomes r)) with true. cbn match. do 3 xstep.
  change (statsID r) with (lastID s + 1). cbn [set_lsHeader lsStatsV2]. rewrite Hi.
  replace (statsRows _ _ _ _ _) with (@nil StatsV2).
  2:{ symmetry. apply elem_of_nil_inv. intros r' [Hk [i Hr']]%elem_of_statsRows. by apply (Hno i r'). }
  do 2 xstep. split; cbn [set_lsHeader set_lsStatsV2 lsStatsV2 lsPending]; try done.
  - change (statsID r) with (lastID s + 1). by rewrite lookup_insert_eq.
  - by right.
  - intros j Hj. by rewrite lookup_insert_ne.
  - unfold lastID at 1. cbn. lia.
Qed.

(** Recording other outcomes for a row. *)
Definition hset (i : Z) (h : History) (H : Z -> History) : Z -> History := fun j => if decide (j = i) then h else H j.

Definition putRow (r : StatsV2) (s : LState) : LState := set_lsStatsV2 (<[statsID r := r]> (lsStatsV2 s)) s.

Lemma stats_inv_put H s r o h : stats_inv now H s -> lsStatsV2 s !! statsID r = Some r ->
  tracks h o -> updatedAt o <= now -> stats_inv now (hset (statsID r) h H) (putRow (set_statsOutcomes o r) s).
Proof.
  intros Hs Hr Ho Hn. unfold hset, putRow. change (statsID (set_statsOutcomes o r)) with (statsID r).
  split; cbn [set_lsStatsV2 lsStatsV2 lsPending lsDb]; try apply Hs.
  - intros j r' [[<- <-]|[Hne Hj]]%lookup_insert_Some; [by rewrite decide_True|].
    rewrite decide_False by done. by apply Hs.
  - intros j k r1 r2 [[<- <-]|[Hne Hj]]%lookup_insert_Some [[<- <-]|[Hne' Hk]]%lookup_insert_Some Ek; [done| | |].
    + by apply (si_unique _ _ _ Hs _ _ r r2).
    + by apply (si_unique _ _ _ Hs _ _ r1 r).
    + by apply (si_unique _ _ _ Hs _ _ r1 r2).
  - destruct (si_ids _ _ _ Hs) as [H0 Hids]. split; [exact H0|]. intros j Hj.
    apply Hids. destruct (decide (j = statsID r)) as [->|]; [by eexists|]. by rewrite lookup_insert_ne in Hj.
  - intros j [Hj Hne]%lookup_insert_None. rewrite decide_False by done. by apply Hs.
  - intros q j Hq. destruct (decide (j = statsID r)) as [->|Hne]; [rewrite lookup_insert_eq; by eexists|].
    rewrite lookup_insert_ne by done. by apply (si_pending _ _ _ Hs q).
Qed.

Lemma wp_storeChange E r o h Q s : tracks h o -> lsStatsV2 s !! statsID r = Some r ->
  Q () (putRow (set_statsOutcomes o r) s) -> wp E (storeStatsV2 false (set_statsOutcomes o r)) Q s.
Proof.
  intros Ho Hr HQ. unfold storeStatsV2. cbn [set_statsOutcomes statsOutcomes]. rewrite (tracks_valid h o Ho).
  do 2 xstep. change (statsID (set_statsOutcomes o r)) with (statsID r). rewrite Hr. by xstep.
Qed.

Lemma limRow_same account l r r' : limRow account l r -> rowKey r' = rowKey r -> limRow account l r'.
Proof. rewrite !limRow_key. congruence. Qed.

Lemma sameRest_trans s1 s2 s3 : sameRest s1 s2 -> sameRest s2 s3 -> sameRest s1 s3.
Proof. unfold sameRest. intuition congruence. Qed.

(** Limits about other rows. *)
Definition apart (account : AccountID) (l : LimitsV2) (ls : list LimitsV2) : Prop :=
  forall l' r, l' ∈ ls -> limRow account l r -> ~ limRow account l' r.

Section growing.
Context (account : AccountID) (asset : AssetCode) (x : Z) (request : option Z).

Lemma grown_nil H s : grown account asset x request [] H s H s.
Proof. split; [by intros l ?%elem_of_nil|done|eauto|done]. Qed.

Lemma grown_apart l ls H1 s1 H' s' i r1 : grown account asset x request ls H1 s1 H' s' -> apart account l ls ->
  lsStatsV2 s1 !! i = Some r1 -> limRow account l r1 ->
  ~ concerns account ls s' i /\ forall r', lsStatsV2 s' !! i = Some r' -> limRow account l r'.
Proof.
  intros Hg Hap Hi Hl. destruct (gr_keys _ _ _ _ _ _ _ _ _ Hg i r1 Hi) as (r2 & Hi2 & Ek). split.
  - intros (r' & l' & Hi' & Hin & Hl'). rewrite Hi' in Hi2. injection Hi2 as <-.
    apply (Hap l' r1); [done..|]. by apply (limRow_same account l' r').
  - intros r' Hi'. rewrite Hi' in Hi2. injection Hi2 as <-. by apply (limRow_same account l r1).
Qed.

Lemma grown_cons l ls H s H1 s1 H' s' : grown account asset x request [l] H s H1 s1 ->
  grown account asset x request ls H1 s1 H' s' -> apart account l ls -> lsDb s' = lsDb s1 ->
  grown account asset x request (l :: ls) H s H' s'.
Proof.
  intros G1 G2 Hap Ed.
  assert (Hcon : forall i, concerns account [l] s1 i ->
    ~ concerns account ls s' i /\ forall r', lsStatsV2 s' !! i = Some r' -> limRow account l r').
  { intros i (r1 & l1 & Hi & ->%list_elem_of_singleton & Hl). by eapply grown_apart. }
  split.
  - intros l' [->|Hin]%elem_of_cons.
    + destruct (gr_granted _ _ _ _ _ _ _ _ _ G1 l) as (i & r & Hi & Hl & Hm); [by apply list_elem_of_singleton|].
      assert (concerns account [l] s1 i) as Hc by (exists r, l; by rewrite list_elem_of_singleton).
      destruct (gr_frame _ _ _ _ _ _ _ _ _ G2 i) as (E1 & E2 & E3); [by apply Hcon|].
      exists i, r. rewrite Ed, E1, E2. split_and!; [done..|].
      destruct (amountFor asset x l (lsDb s1)); setoid_rewrite E3; exact Hm.
    + destruct (gr_granted _ _ _ _ _ _ _ _ _ G2 l' Hin) as (i & r & Hi & Hl & Hm). exists i, r.
      split_and!; [done..|].
      assert (~ concerns account [l] s1 i) as Hc.
      { intros Hc. destruct (Hcon i Hc) as [_ Hl']. by apply (Hap l' r); [|apply Hl'|]. }
      destruct (gr_frame _ _ _ _ _ _ _ _ _ G1 i Hc) as (_ & <- & _). exact Hm.
  - intros i Hi. assert (~ concerns account ls s' i) as H2.
    { intros (r & l' & H1' & H2' & H3'). apply Hi. exists r, l'. split_and!; [done|by right|done]. }
    assert (~ concerns account [l] s1 i) as H3.
    { intros Hc. destruct (Hcon i Hc) as [_ Hl]. destruct Hc as (r1 & l1 & Hr1 & _).
      destruct (gr_keys _ _ _ _ _ _ _ _ _ G2 i r1 Hr1) as (r' & Hr' & _). apply Hi. exists r', l.
      split_and!; [done|by left|by apply Hl]. }
    destruct (gr_frame _ _ _ _ _ _ _ _ _ G1 i H3) as (A1 & A2 & A3).
    destruct (gr_frame _ _ _ _ _ _ _ _ _ G2 i H2) as (B1 & B2 & B3).
    split_and!; [congruence|congruence|]. intros q. by rewrite B3.
  - intros i r Hr. destruct (gr_keys _ _ _ _ _ _ _ _ _ G1 i r Hr) as (r1 & Hr1 & E1).
    destruct (gr_keys _ _ _ _ _ _ _ _ _ G2 i r1 Hr1) as (r2 & Hr2 & E2). exists r2. split; [done|congruence].
  - intros q i Hq. rewrite (gr_pending _ _ _ _ _ _ _ _ _ G2 q i Hq). by apply (gr_pending _ _ _ _ _ _ _ _ _ G1).
Qed.

(** One round of the loop. *)
Definition putPending (i y : Z) (s : LState) : LState :=
  match request with Some q => set_lsPending (<[(q, i) := y]> (lsPending s)) s | None => s end.

Lemma provided_pending l ls H s r s1 q : stats_inv now H s -> provided account l H s r s1 ->
  notPending account request (l :: ls) s -> request = Some q -> lsPending s1 !! (q, statsID r) = None.
Proof.
  intros Hs Hp Hno Hq. rewrite (pv_pending _ _ _ _ _ _ Hp). destruct (pv_before _ _ _ _ _ _ Hp) as [Hr|Hr].
  - apply (Hno q _ Hq). exists r, l. split_and!; [done|by left|apply Hp].
  - apply eq_None_not_Some. intros Hq'%(si_pending _ _ _ Hs). rewrite Hr in Hq'. by destruct Hq'.
Qed.

Lemma provided_keys l H s r s1 i r0 : provided account l H s r s1 -> lsStatsV2 s !! i = Some r0 ->
  lsStatsV2 s1 !! i = Some r0.
Proof.
  intros Hp Hi. destruct (decide (i = statsID r)) as [->|Hne]; [|by rewrite (pv_others _ _ _ _ _ _ Hp)].
  rewrite (pv_row _ _ _ _ _ _ Hp). destruct (pv_before _ _ _ _ _ _ Hp); congruence.
Qed.

Lemma not_concerned l s (r : StatsV2) (i : Z) r' : lsStatsV2 s !! statsID r = Some r' -> limRow account l r' ->
  ~ concerns account [l] s i -> i <> statsID r.
Proof. intros Hr Hl Hi ->. apply Hi. exists r', l. by rewrite list_elem_of_singleton. Qed.

Lemma provided_grown l ls H s r s1 : stats_inv now H s -> provided account l H s r s1 ->
  notPending account request (l :: ls) s -> amountFor asset x l (lsDb s1) = None ->
  grown account asset x request [l] H s H s1.
Proof.
  intros Hs Hp Hno Ea. split.
  - intros l' ->%list_elem_of_singleton. exists (statsID r), r. rewrite Ea.
    split_and!; [apply Hp|apply Hp|done|]. intros q Hq. by eapply provided_pending.
  - intros i Hi. rewrite (pv_pending _ _ _ _ _ _ Hp), (pv_others _ _ _ _ _ _ Hp); [done|].
    eapply not_concerned; [apply Hp|apply Hp|done].
  - intros i r0 Hi. exists r0. split; [by eapply provided_keys|done].
  - intros q i _. by rewrite (pv_pending _ _ _ _ _ _ Hp).
Qed.

Lemma recorded_grown l H s r s1 y o : provided account l H s r s1 -> amountFor asset x l (lsDb s1) = Some y ->
  validateStats l o = true -> updatedAt o = now ->
  grown account asset x request [l] H s (hset (statsID r) ((now, y) :: H (statsID r)) H)
    (putPending (statsID r) y (putRow (set_statsOutcomes o r) s1)).
Proof.
  intros Hp Ea Hv Ho. set (i0 := statsID r) in *. set (s2 := putRow _ s1). set (s3 := putPending _ _ s2).
  assert (Em : lsStatsV2 s3 = <[i0 := set_statsOutcomes o r]> (lsStatsV2 s1)) by (unfold s3, putPending; by destruct request).
  assert (Edb : lsDb s3 = lsDb s1) by (unfold s3, putPending; by destruct request).
  assert (Hl : limRow account l (set_statsOutcomes o r)) by apply Hp.
  assert (Hpd : forall q i, request <> Some q \/ i <> i0 -> lsPending s3 !! (q, i) = lsPending s !! (q, i)).
  { intros q i Hq. rewrite <- (pv_pending _ _ _ _ _ _ Hp). unfold s3, putPending. destruct request as [q0|]; [|done].
    cbn [set_lsPending lsPending]. rewrite lookup_insert_ne; [done|]. naive_solver. }
  split.
  - intros l' ->%list_elem_of_singleton. exists i0, (set_statsOutcomes o r). rewrite Em, Edb, Ea, lookup_insert_eq.
    unfold hset. rewrite decide_True by done. split_and!; [done..|]. intros q Hq. unfold s3, putPending. rewrite Hq.
    cbn [set_lsPending lsPending]. by rewrite lookup_insert_eq.
  - intros i Hi. assert (i <> i0) as Hne.
    { eapply not_concerned; [rewrite Em; by apply lookup_insert_eq|done|done]. }
    unfold hset. rewrite Em, lookup_insert_ne, decide_False, (pv_others _ _ _ _ _ _ Hp) by done.
    split_and!; [done|done|]. intros q. apply Hpd. by right.
  - intros i r0 Hi. rewrite Em. pose proof (provided_keys _ _ _ _ _ _ _ Hp Hi) as Hi1.
    destruct (decide (i = i0)) as [->|Hne].
    + rewrite lookup_insert_eq. eexists; split; [done|]. pose proof (pv_row _ _ _ _ _ _ Hp) as Hr.
      fold i0 in Hr. rewrite Hi1 in Hr. by injection Hr as ->.
    + rewrite lookup_insert_ne by done. eauto.
  - intros q i Hq. apply Hpd. by left.
Qed.

Lemma stats_inv_pending H s i y : stats_inv now H s -> is_Some (lsStatsV2 s !! i) -> stats_inv now H (putPending i y s).
Proof.
  intros Hs Hi. unfold putPending. destruct request as [q|]; [|done].
  split; cbn [set_lsPending lsStatsV2 lsPending lsDb]; try apply Hs.
  intros q' j. destruct (decide ((q', j) = (q, i))) as [[= -> ->]|Hne]; [done|].
  rewrite lookup_insert_ne by done. apply Hs.
Qed.

Lemma wp_storePending E i y Q s : (forall q, request = Some q -> lsPending s !! (q, i) = None) ->
  Q () (putPending i y s) ->
  wp E (match request with Some q => storeAddPending q i y | None => mret () end) Q s.
Proof.
  intros Hno HQ. unfold putPending in HQ. destruct request as [q|]; [|by xstep].
  unfold storeAddPending. do 2 xstep. rewrite (Hno q eq_refl). by xstep.
Qed.

Lemma apart_keys opInt l ls : limitsKey opInt l ∉ limitsKey opInt <$> ls -> apart account l ls.
Proof.
  intros Hni l' r Hin (_ & E1 & E2 & E3) (_ & F1 & F2 & F3). apply Hni, list_elem_of_fmap. exists l'.
  split; [|done]. unfold limitsKey. by rewrite <- E1, <- E2, <- E3, <- F1, <- F2, <- F3.
Qed.

Lemma notPending_tail l ls H s H1 s1 : grown account asset x request [l] H s H1 s1 -> apart account l ls ->
  notPending account request (l :: ls) s -> notPending account request ls s1.
Proof.
  intros Hg Hap Hno q i Hq (r & l' & Hr & Hin & Hl).
  destruct (gr_frame _ _ _ _ _ _ _ _ _ Hg i) as (E1 & _ & E3).
  { intros (r2 & l2 & Hr2 & ->%list_elem_of_singleton & Hl2). simplify_eq. by apply (Hap l' r). }
  rewrite E3. apply (Hno q i Hq). exists r, l'. rewrite <- E1. split_and!; [done|by right|done].
Qed.

Definition loopPost (ls : list LimitsV2) (H : Z -> History) (s : LState) (res : StatsResult * Z) (s' : LState) : Prop :=
  exists H', stats_inv now H' s' /\ sameRest s s' /\
    (res.1 = STATS_SUCCESS -> grown account asset x request ls H s H' s').

Lemma loopPost_cons l ls H s H1 s1 res s' : grown account asset x request [l] H s H1 s1 -> apart account l ls ->
  sameRest s s1 -> loopPost ls H1 s1 res s' -> loopPost (l :: ls) H s res s'.
Proof.
  intros Hg Hap Hs (H' & Hi & Hr & Hgr). exists H'. split_and!; [done|by eapply sameRest_trans|].
  intros Hok. eapply grown_cons; [done|by apply Hgr|done|apply Hr].
Qed.

Lemma loopPost_refused ls H s u s' res : stats_inv now H s' -> sameRest s s' -> res <> STATS_SUCCESS ->
  loopPost ls H s (res, u) s'.
Proof. intros Hi Hr Hres. by exists H. Qed.

Lemma wp_addStatsLoop opInt ls : forall H s u, stats_inv now H s -> time_ok now -> is_u64 x ->
  lastID s + Z.of_nat (length ls) <= UINT64_MAX -> NoDup (limitsKey opInt <$> ls) ->
  notPending account request ls s ->
  wp (fun _ _ => False) (addStatsLoop env account asset x request ls u) (loopPost ls H s) s.
Proof.
  induction ls as [|l ls IH]; intros H s u Hs Hn Hx Hlast Hnd Hno; cbn [addStatsLoop].
  { xstep. exists H. split_and!; [done..|]. intros _. apply grown_nil. }
  cbn [fmap list_fmap] in Hnd. apply NoDup_cons in Hnd as [Hni Hnd]. apply apart_keys in Hni as Hap.
  cbn [length] in Hlast. xstep.
  eapply wp_mono; [apply (wp_statsFor _ account l H s); [done..|lia]|]. intros r s1 Hp. cbn beta. xstep.
  pose proof (pv_inv _ _ _ _ _ _ Hp) as Hs1. pose proof (pv_rest _ _ _ _ _ _ Hp) as Hr1.
  pose proof (pv_last _ _ _ _ _ _ Hp) as Hl1.
  eapply (amountFor_convert asset x l r account _ _ s1 H); [done|done|apply Hp|].
  destruct (amountFor asset x l (lsDb s1)) as [y|] eqn:Ea.
  - intros Hy. split; [|intros z; xstep; by apply loopPost_refused]. intros Hfit. xstep.
    destruct (si_rows _ _ _ Hs1 _ _ (pv_row _ _ _ _ _ _ Hp)) as (_ & Ht & Hu).
    destruct (addOutcome_tracks now y _ _ Ht Hn Hu) as (ok & o & Eo & Hok & _); [by split|].
    eapply wp_lift; [exact Eo|]. cbn beta match. destruct ok; cbn [negb]; [|xstep; by apply loopPost_refused].
    destruct (Hok eq_refl) as (Hto & Hun & _). destruct (validateStats l o) eqn:Ev; cbn [negb];
      [|xstep; by apply loopPost_refused].
    pose proof (recorded_grown l H s r s1 y o Hp Ea Ev Hun) as Hg.
    set (s2 := putRow (set_statsOutcomes o r) s1) in *. set (s3 := putPending (statsID r) y s2) in *.
    assert (Hs2 : stats_inv now (hset (statsID r) ((now, y) :: H (statsID r)) H) s2).
    { apply stats_inv_put; [done|apply Hp|done|lia]. }
    assert (Hs3 : stats_inv now (hset (statsID r) ((now, y) :: H (statsID r)) H) s3).
    { apply stats_inv_pending; [done|]. unfold s2, putRow. cbn. rewrite lookup_insert_eq. by eexists. }
    assert (Hr3 : sameRest s s3) by (unfold s3, putPending; by destruct request).
    assert (Hl3 : lastID s3 = lastID s1) by (unfold s3, putPending; by destruct request).
    xstep. eapply wp_storeChange; [done|apply Hp|]. fold s2. cbn beta. xstep.
    assert (Hgo : wp (fun _ _ => False) (addStatsLoop env account asset x request ls y) (loopPost (l :: ls) H s) s3).
    { eapply wp_mono; [apply (IH _ s3 y Hs3 Hn Hx); [lia|done|by eapply notPending_tail]|].
      intros res s' Hpost. by eapply loopPost_cons. }
    apply wp_storePending; [|exact Hgo]. intros q Hq. by apply (provided_pending l ls H s r s1).
  - pose proof (provided_grown l ls H s r s1 Hs Hp Hno Ea) as Hg.
    eapply wp_mono; [apply (IH H s1 x Hs1 Hn Hx); [lia|done|by eapply notPending_tail]|].
    intros res s' Hpost. by eapply loopPost_cons.
Qed.

End growing.

(** ** Shrinking *)

(** A history without one amount. *)
Definition drops (e : Z * Z) (h h' : History) : Prop := exists h1 h2, h = h1 ++ e :: h2 /\ h' = h1 ++ h2.

Lemma wp_loadStatsByID E H i r Q s : stats_inv now H s -> lsStatsV2 s !! i = Some r -> Q (Some r) s ->
  wp E (loadStatsByID i) Q s.
Proof.
  intros Hs Hi HQ. unfold loadStatsByID. do 2 xstep. rewrite Hi. eapply wp_lift; [|exact HQ].
  apply (lastValid_all [r]). constructor; [by apply (rows_valid H s i)|constructor].
Qed.

Definition dropPending (q i : Z) (s : LState) : LState := set_lsPending (delete (q, i) (lsPending s)) s.

Lemma stats_inv_unpend H s q i : stats_inv now H s -> stats_inv now H (dropPending q i s).
Proof.
  intros Hs. split; cbn [dropPending set_lsPending lsStatsV2 lsPending lsDb]; try apply Hs.
  intros q' j [y [_ Hy]%lookup_delete_Some]. apply (si_pending _ _ _ Hs q'). by eexists.
Qed.

Lemma stats_inv_ext H H' s : stats_inv now H s -> (forall i, H' i = H i) -> stats_inv now H' s.
Proof.
  intros Hs E. split; try apply Hs; intros i; rewrite E; apply Hs.
Qed.

(** What becomes of a row: it stays when nothing of it is taken back, and else its week, when it was
    exact, loses the amount, unless that was spent in another month. *)
Definition rowReverted (t : Z) (ps : list (Z * Z)) (H H' : Z -> History) (s s' : LState) : Prop :=
  forall i r, lsStatsV2 s !! i = Some r -> exists r', lsStatsV2 s' !! i = Some r' /\ rowKey r' = rowKey r /\
    (i ∉ ps.*1 -> r' = r) /\
    forall y, (i, y) ∈ ps -> exactWeek (H i) (statsOutcomes r) ->
      weekSafe (updatedAt (statsOutcomes r)) now \/ weeklyOutcome (statsOutcomes r) = 0 ->
      weeklyOutcome (statsOutcomes r') = spentIn Week now (H' i) + leftInWeek t now y.

Lemma rowReverted_cons t i y ps h H H' s s2 s' (r : StatsV2) (o : Outcomes) :
  lsStatsV2 s !! i = Some r -> lsStatsV2 s2 = <[i := set_statsOutcomes o r]> (lsStatsV2 s) -> i ∉ ps.*1 -> H' i = h ->
  (exactWeek (H i) (statsOutcomes r) -> weekSafe (updatedAt (statsOutcomes r)) now \/ weeklyOutcome (statsOutcomes r) = 0 ->
   weeklyOutcome o = spentIn Week now h + leftInWeek t now y) ->
  rowReverted t ps (hset i h H) H' s2 s' -> rowReverted t ((i, y) :: ps) H H' s s'.
Proof.
  intros Hr E Hni Eh Hw Hrest j r0 Hj. destruct (decide (j = i)) as [->|Hne].
  - rewrite Hr in Hj. injection Hj as <-. destruct (Hrest i (set_statsOutcomes o r)) as (r' & Hr' & Hk & Hsame & _).
    { by rewrite E, lookup_insert_eq. }
    exists r'. split; [done|]. split; [by rewrite Hk|]. split; [intros Hx; exfalso; apply Hx; by left|].
    intros z [[= <-]|Hin]%elem_of_cons He Hs.
    + rewrite (Hsame Hni), Eh. by apply Hw.
    + exfalso. apply Hni, list_elem_of_fmap. by exists (i, z).
  - destruct (Hrest j r0) as (r' & Hr' & Hk & Hsame & Hwk); [by rewrite E, lookup_insert_ne|].
    exists r'. split; [done|]. split; [done|]. split.
    + intros Hx. apply Hsame. intros Hin. apply Hx. by right.
    + intros z [[= -> ->]|Hin]%elem_of_cons; [done|]. intros He. apply (Hwk z Hin).
      unfold hset. by rewrite decide_False.
Qed.

Lemma wp_revertStatsLoop q t ps : forall H H' s, stats_inv now H s -> time_ok now ->
  requestCreatedAt env q = Some t -> NoDup ps.*1 ->
  (forall i y, (i, y) ∈ ps -> drops (t, y) (H i) (H' i) /\ is_Some (lsStatsV2 s !! i)) ->
  (forall i, i ∉ ps.*1 -> H' i = H i) ->
  wp (fun _ _ => False) (revertStatsLoop env q ps)
    (fun _ s' => stats_inv now H' s' /\ sameRest s s' /\ rowReverted t ps H H' s s' /\
       forall q' i, lsPending s' !! (q', i) = if decide (q' = q /\ i ∈ ps.*1) then None else lsPending s !! (q', i)) s.
Proof.
  induction ps as [|[i y] ps IH]; intros H H' s Hs Hn Hq Hnd Hps Hrest; cbn [revertStatsLoop].
  { xstep. split_and!; [|done| |].
    - apply (stats_inv_ext H); [done|]. intros i. apply Hrest. by apply not_elem_of_nil.
    - intros i r Hr. exists r. split_and!; [done..|]. by intros y ?%elem_of_nil.
    - intros q' i. rewrite decide_False; [done|]. intros [_ ?%elem_of_nil]. done. }
  cbn [fmap list_fmap fst] in *. apply NoDup_cons in Hnd as [Hni Hnd].
  destruct (Hps i y) as ((h1 & h2 & Eh & Eh') & [r Hr]); [by left|].
  destruct (si_rows _ _ _ Hs i r Hr) as (Er & Ht & Hu). rewrite Eh in Ht.
  destruct (revertOutcome_tracks now t y h1 h2 (statsOutcomes r) Ht Hn Hu) as (o & Eo & Hto & Huo & _).
  xstep. eapply wp_loadStatsByID; [done..|]. cbn beta match. rewrite Hq. xstep.
  eapply wp_lift; [exact Eo|]. cbn beta. xstep. eapply wp_storeChange; [done|by rewrite Er|]. cbn beta.
  unfold storeDeletePending. do 2 xstep. fold (dropPending q i (putRow (set_statsOutcomes o r) s)).
  set (s2 := dropPending q i _).
  assert (Hs2 : stats_inv now (hset i (h1 ++ h2) H) s2).
  { apply stats_inv_unpend. rewrite <- Er. apply stats_inv_put; [done|by rewrite Er|done|lia]. }
  eapply wp_mono; [apply (IH _ H' s2 Hs2 Hn Hq Hnd)|].
  - intros j z Hj. assert (j <> i).
    { intros ->. apply Hni. apply list_elem_of_fmap. by exists (i, z). }
    destruct (Hps j z) as [Hd Hj']; [by right|]. unfold hset. rewrite decide_False by done. split; [done|].
    unfold s2. cbn. change (statsID r) with (statsID r). rewrite Er, lookup_insert_ne by done. done.
  - intros j Hj. unfold hset. case_decide as E; [by subst|]. apply Hrest. by apply not_elem_of_cons.
  - intros [] s' (H1 & H2 & H4 & H3). split_and!; [done|exact H2| |].
    + apply (rowReverted_cons t i y ps (h1 ++ h2) H H' s s2 s' r o); [done|unfold s2; cbn; by rewrite Er|done|done| |done].
      intros He Hc. rewrite Eh in He. by eapply revertOutcome_week.
    + intros q' j. rewrite H3. unfold s2.
      cbn [dropPending set_lsPending lsPending putRow set_lsStatsV2].
      destruct (decide (q' = q /\ j ∈ ps.*1)) as [[-> Hin]|Hno]; [rewrite decide_True; [done|]; split; [done|by right]|].
      destruct (decide (q' = q /\ j ∈ i :: ps.*1)) as [[-> Hin]|Hno'].
      * apply elem_of_cons in Hin as [->|Hin]; [by rewrite lookup_delete_eq|]. by destruct Hno.
      * rewrite lookup_delete_ne; [done|]. intros [= -> ->]. apply Hno'. split; [done|by left].
Qed.

End processor.

Lemma wp_returns {W A} (m : M W A) (Q : A -> W -> Prop) w : wp (fun _ _ => False) m Q w ->
  exists a w', m w = Ret a w' /\ Q a w'.
Proof. unfold wp. destruct (m w) as [a w'|]; [by exists a, w'|done]. Qed.

Lemma elem_of_loadPending (q i y : Z) (m : gmap (Z * Z) Z) : (i, y) ∈ loadPending q m <-> m !! (q, i) = Some y.
Proof.
  unfold loadPending. rewrite list_elem_of_fmap. split.
  - intros ([[q' i'] y'] & [= -> ->] & [Hq Hin]%list_elem_of_filter). cbn in Hq. subst. by apply elem_of_map_to_list.
  - intros Hm. exists ((q, i), y). split; [done|]. apply list_elem_of_filter. split; [done|]. by apply elem_of_map_to_list.
Qed.

Lemma NoDup_loadPending (q : Z) (m : gmap (Z * Z) Z) : NoDup (loadPending q m).*1.
Proof.
  assert (Hl : NoDup (map_to_list m).*1) by apply NoDup_fst_map_to_list. unfold loadPending.
  revert Hl. generalize (map_to_list m). intros l. induction l as [|[[q' i] y] l IH]; [constructor|].
  cbn [fmap list_fmap fst]. intros [Hni Hnd]%NoDup_cons. rewrite filter_cons. case_decide as E; [|by apply IH].
  cbn in E. subst q'. cbn [map fmap list_fmap fst snd]. apply NoDup_cons. split; [|by apply IH].
  intros ([i' y'] & Ei & ([[q' i0] y0] & [= -> ->] & [Eq Hin]%list_elem_of_filter)%list_elem_of_fmap)%list_elem_of_fmap.
  cbn in Ei, Eq. subst. apply Hni, list_elem_of_fmap. by exists ((q, i0), y0).
Qed.

Lemma distinctOn_length opInt prev rows : (length (distinctOn opInt prev rows) <= length rows)%nat.
Proof.
  revert prev. induction rows as [|l rows IH]; intros prev; cbn [distinctOn length]; [done|].
  case_decide; cbn [length]; [specialize (IH prev)|specialize (IH (Some (limitsKey opInt l)))]; lia.
Qed.

Lemma loadLimits_length opInt rows ops asset account type :
  (length (loadLimits opInt rows ops asset account type) <= length rows)%nat.
Proof.
  unfold loadLimits. etrans; [apply distinctOn_length|]. rewrite merge_sort_Permutation. apply length_filter.
Qed.

Section theorems.
Implicit Types (env : StatsEnv) (H : Z -> History).

(** Enough identifiers are left for the rows of all limits. *)
Definition idsLeft env (s : LState) : Prop := lastID s + Z.of_nat (length (limitsRows env)) <= UINT64_MAX.

Lemma addStatsV2_post env spend x u account type asset request H s :
  stats_inv (getCloseTime env) H s -> time_ok (getCloseTime env) -> is_u64 x -> idsLeft env s ->
  (forall q i, request = Some q -> lsPending s !! (q, i) = None) ->
  exists res s', addStatsV2 env spend x u account type asset request s = Ret res s' /\
    loopPost env account asset x request
      (loadLimits (statsOpInt env) (limitsRows env) (spendOps spend) asset account type) H s res s'.
Proof.
  intros Hs Hn Hx Hids Hno. apply wp_returns. unfold idsLeft in Hids.
  destruct (loadLimits_spec (statsOpInt env) (limitsRows env) (spendOps spend) asset account type) as (_ & Hnd & _).
  pose proof (loadLimits_length (statsOpInt env) (limitsRows env) (spendOps spend) asset account type).
  apply (wp_addStatsLoop env account asset x request (statsOpInt env)); [done..|lia|done|].
  intros q i Hq _. by apply Hno.
Qed.

Lemma within_limits now h o l k : tracks h o -> updatedAt o = now -> validateStats l o = true ->
  spentIn k now h <= limitOf k l.
Proof.
  intros Ho <- Hv. unfold validateStats in Hv. destruct Ho. repeat case_match; try done. propify.
  destruct k; cbn [limitOf]; lia.
Qed.

(** C29. Limits are kept: [addStatsV2] does not throw, and when it succeeds every limits row
    that applies to the account, the asset and the operation has a most precise one for its
    operation, asset and conversion, whose row of statistics has recorded the amount,
    converted and rounded up, and all that was spent in the day, the week, the month and the
    year is within its limits.  (Limits with conversion for which there is no pair of assets
    are passed over.) *)
Theorem limits_are_kept env spend x u account type asset request H s :
  stats_inv (getCloseTime env) H s -> time_ok (getCloseTime env) -> is_u64 x -> idsLeft env s ->
  (forall q i, request = Some q -> lsPending s !! (q, i) = None) ->
  exists res u' s' H', addStatsV2 env spend x u account type asset request s = Ret (res, u') s' /\
    stats_inv (getCloseTime env) H' s' /\ lsDb s' = lsDb s /\
    (res = STATS_SUCCESS -> forall l, l ∈ limitsRows env -> applies (spendOps spend) asset account type l ->
     exists l0 i r, l0 ∈ limitsRows env /\ applies (spendOps spend) asset account type l0 /\
       limitsKey (statsOpInt env) l0 = limitsKey (statsOpInt env) l /\ (rank l0 <= rank l)%N /\
       lsStatsV2 s' !! i = Some r /\ limRow account l0 r /\
       forall y, amountFor asset x l0 (lsDb s) = Some y ->
         H' i = (getCloseTime env, y) :: H i /\
         forall k, spentIn k (getCloseTime env) (H' i) <= limitOf k l0).
Proof.
  intros Hs Hn Hx Hids Hno.
  destruct (addStatsV2_post env spend x u account type asset request H s) as ([res u'] & s' & E & H' & Hs' & Hr & Hg); [done..|].
  exists res, u', s', H'. split_and!; [done|done|apply Hr|]. intros -> l Hl Ha.
  destruct (loadLimits_spec (statsOpInt env) (limitsRows env) (spendOps spend) asset account type) as (Hin & _ & Hsel).
  destruct (Hsel l Hl Ha) as (l0 & Hl0 & Hk & Hrank). destruct (Hin l0 Hl0) as [Hl0' Ha0].
  destruct (gr_granted _ _ _ _ _ _ _ _ _ _ (Hg eq_refl) l0 Hl0) as (i & r & Hi & Hlr & Hm).
  exists l0, i, r. split_and!; [done..|]. destruct Hr as [Ed _]. rewrite Ed in Hm. intros y Hy. rewrite Hy in Hm.
  destruct Hm as (EH & Hv & Hu & _). split; [done|]. intros k.
  eapply within_limits; [apply (si_rows _ _ _ Hs' i r Hi)|done|done].
Qed.

Lemma stats_inv_later t t' H s : stats_inv t H s -> t <= t' -> stats_inv t' H s.
Proof.
  intros Hs Hle. split; try apply Hs. intros i r Hi. destruct (si_rows _ _ _ Hs i r Hi) as (H1 & H2 & H3).
  split_and!; [done|done|lia].
Qed.

(** ** Books *)

(** The entry of a call of [addStatsV2] in the books: its request, its time and what it has recorded in the rows of
    statistics. *)
Record BookEntry := mkBookEntry {
  beRequest : option Z;
  beTime : Z;
  beAmounts : gmap Z Z }.

(** What the limits [ls] of an account ask to record, row by row. *)
Definition amountsFor (account : AccountID) (asset : AssetCode) (x : Z) (ls : list LimitsV2) (s : LState) : gmap Z Z :=
  omap (fun r => match filter (fun l => limRow account l r) ls with
                 | l :: _ => amountFor asset x l (lsDb s)
                 | [] => None
                 end) (lsStatsV2 s).

(** The histories, and what is pending, by the books. *)
Definition historyOf (A : list BookEntry) (i : Z) : History :=
  concat (map (fun e => match beAmounts e !! i with Some y => [(beTime e, y)] | None => [] end) A).

Fixpoint pendingOf (A : list BookEntry) (q i : Z) : option Z :=
  match A with
  | [] => None
  | e :: A' => if decide (beRequest e = Some q) then beAmounts e !! i else pendingOf A' q i
  end.

(** The books without the entry of a request. *)
Definition withoutRequest (q : Z) (A : list BookEntry) : list BookEntry := filter (fun e => beRequest e <> Some q) A.

(** The requests are known with the times of their entries. *)
Definition requestsKnown env (A : list BookEntry) : Prop :=
  forall e q, e ∈ A -> beRequest e = Some q -> requestCreatedAt env q = Some (beTime e).

(** A life of the tables of statistics, and the books of it: time passes, amounts are added for requests or
    without, requests are reverted, in any order; other operations change balances and prices.  (A call that finds the limits exceeded
    makes its operation fail, and the transaction is rolled back.) *)
Inductive books : list BookEntry -> Z -> LState -> Prop :=
| books_begin now s : stats_inv now (fun _ => []) s -> lsPending s = ∅ -> books [] now s
| books_later A now now' s : books A now s -> now <= now' -> books A now' s
| books_market A now s d : books A now s ->
    (forall k p, dbPairs d !! k = Some p -> 0 < currentPrice p <= INT64_MAX) -> books A now (set_lsDb d s)
| books_add A s env spend x u account type asset request u' s' : books A (getCloseTime env) s ->
    time_ok (getCloseTime env) -> is_u64 x -> idsLeft env s ->
    (forall e q, e ∈ A -> request = Some q -> beRequest e <> Some q) ->
    addStatsV2 env spend x u account type asset request s = Ret (STATS_SUCCESS, u') s' ->
    books (mkBookEntry request (getCloseTime env) (amountsFor account asset x
      (loadLimits (statsOpInt env) (limitsRows env) (spendOps spend) asset account type) s') :: A) (getCloseTime env) s'
| books_revert A s env q s' : books A (getCloseTime env) s -> time_ok (getCloseTime env) -> requestsKnown env A ->
    revertStatsV2 env q s = Ret () s' -> books (withoutRequest q A) (getCloseTime env) s'.

(** What a call that succeeds records is what the limits ask for. *)
Lemma grown_amounts env account asset x request ls H s H' s' i :
  grown env account asset x request ls H s H' s' -> stats_inv (getCloseTime env) H' s' ->
  H' i = match amountsFor account asset x ls s' !! i with
         | Some y => (getCloseTime env, y) :: H i | None => H i end /\
  forall q, request = Some q -> (forall j, lsPending s !! (q, j) = None) ->
    lsPending s' !! (q, i) = amountsFor account asset x ls s' !! i.
Proof.
  intros Hg Hs'. unfold amountsFor. rewrite lookup_omap.
  destruct (lsStatsV2 s' !! i) as [r|] eqn:Hi; simpl.
  2:{ destruct (gr_frame _ _ _ _ _ _ _ _ _ _ Hg i) as (_ & -> & Ep); [intros (r & l & Hr & _); congruence|].
      split; [done|]. intros q _ Hno. by rewrite Ep. }
  destruct (filter (fun l => limRow account l r) ls) as [|l l'] eqn:Ef.
  - destruct (gr_frame _ _ _ _ _ _ _ _ _ _ Hg i) as (_ & -> & Ep).
    { intros (r' & l & Hr & Hin & Hl). simplify_eq.
      assert (Hx : l ∈ filter (fun l => limRow account l r) ls) by (by apply list_elem_of_filter).
      rewrite Ef in Hx. by apply elem_of_nil in Hx. }
    split; [done|]. intros q _ Hno. by rewrite Ep.
  - assert (Hx : l ∈ filter (fun l => limRow account l r) ls) by (rewrite Ef; left).
    apply list_elem_of_filter in Hx as [Hl Hin].
    destruct (gr_granted _ _ _ _ _ _ _ _ _ _ Hg l Hin) as (j & r' & Hj & Hl' & Hm).
    assert (j = i) as ->.
    { apply (si_unique _ _ _ Hs' j i r' r); [done..|]. apply limRow_key in Hl, Hl'. congruence. }
    destruct (amountFor asset x l (lsDb s')) as [y|].
    + destruct Hm as (EH & _ & _ & Hp). split; [done|]. intros q Hq _. by apply Hp.
    + destruct Hm as [EH Hp]. split; [done|]. intros q Hq _. by apply Hp.
Qed.

Lemma historyOf_without q A : (forall e, e ∈ A -> beRequest e <> Some q) -> withoutRequest q A = A.
Proof.
  induction A as [|e A IH]; intros Hno; [done|]. unfold withoutRequest. rewrite filter_cons, decide_True.
  - f_equal. apply IH. intros e' He'. apply Hno. by right.
  - apply Hno. by left.
Qed.

Definition requestsUnique (A : list BookEntry) : Prop := NoDup (omap beRequest A).

Lemma unique_others A1 e A2 q e' : requestsUnique (A1 ++ e :: A2) -> beRequest e = Some q -> e' ∈ A1 ++ A2 ->
  beRequest e' <> Some q.
Proof.
  unfold requestsUnique. rewrite omap_app. simpl. intros Hu Eq He' Eq'. rewrite Eq in Hu.
  apply NoDup_app in Hu as (_ & Hd & [Hn _]%NoDup_cons). apply elem_of_app in He' as [He'|He'].
  - apply (Hd q); [apply list_elem_of_omap; by exists e'|by left].
  - apply Hn, list_elem_of_omap. by exists e'.
Qed.

Lemma unique_without q A : requestsUnique A -> requestsUnique (withoutRequest q A).
Proof.
  unfold requestsUnique, withoutRequest. induction A as [|e A IH]; [done|]. intros Hu. rewrite filter_cons.
  assert (HA : NoDup (omap beRequest A)) by (revert Hu; simpl; case_match; [by intros [_ ?]%NoDup_cons|done]).
  case_decide; [|by apply IH]. revert Hu. simpl. case_match; [|by intros _; apply IH].
  intros [Hn _]%NoDup_cons. apply NoDup_cons. split; [|by apply IH].
  intros (e' & [_ He']%list_elem_of_filter & Eq')%list_elem_of_omap. apply Hn, list_elem_of_omap. by exists e'.
Qed.

Lemma unique_split q A : requestsUnique A -> (forall e, e ∈ A -> beRequest e <> Some q) \/
  exists A1 e A2, A = A1 ++ e :: A2 /\ beRequest e = Some q /\ withoutRequest q A = A1 ++ A2 /\
    (forall i, pendingOf A q i = beAmounts e !! i).
Proof.
  intros Hu. destruct (decide (Exists (fun e => beRequest e = Some q) A)) as [Hex|Hno].
  2:{ left. intros e He Eq. apply Hno, Exists_exists. by exists e. }
  right. apply Exists_exists in Hex as (e & (A1 & A2 & ->)%list_elem_of_split & Eq). exists A1, e, A2.
  assert (Hoth := fun e' => unique_others A1 e A2 q e' Hu Eq).
  assert (Hf : withoutRequest q (A1 ++ A2) = A1 ++ A2) by (by apply historyOf_without).
  split_and!; [done|done| |].
  - unfold withoutRequest in *. rewrite filter_app in *. rewrite filter_cons, decide_False by tauto. done.
  - intros i. clear Hf Hu. induction A1 as [|e1 A1 IH]; simpl; [by rewrite decide_True|].
    rewrite decide_False; [apply IH; intros e' He'; apply Hoth; by right|]. apply Hoth. left.
Qed.

Lemma pendingOf_none q A i : (forall e, e ∈ A -> beRequest e <> Some q) -> pendingOf A q i = None.
Proof.
  induction A as [|e A IH]; intros Hno; [done|]. simpl. rewrite decide_False by (apply Hno; left).
  apply IH. intros e' He'. apply Hno. by right.
Qed.

Lemma pendingOf_other q q' A i : q' <> q -> pendingOf (withoutRequest q A) q' i = pendingOf A q' i.
Proof.
  intros Hne. induction A as [|e A IH]; [done|]. unfold withoutRequest in *. rewrite filter_cons. simpl.
  destruct (decide (beRequest e = Some q')) as [E|E].
  - rewrite decide_True by congruence. simpl. by rewrite decide_True.
  - case_decide; simpl; [by rewrite decide_False|done].
Qed.

Lemma withoutRequest_none q A i : pendingOf (withoutRequest q A) q i = None.
Proof. apply pendingOf_none. intros e [He _]%list_elem_of_filter. done. Qed.

Lemma historyOf_app A1 A2 i : historyOf (A1 ++ A2) i = historyOf A1 i ++ historyOf A2 i.
Proof. unfold historyOf. by rewrite map_app, concat_app. Qed.

(** The histories without a request have what is pending for it dropped, and no more. *)
Lemma request_dropped env q A : requestsUnique A -> requestsKnown env A -> exists t,
  (forall i y, pendingOf A q i = Some y -> requestCreatedAt env q = Some t) /\
  (forall i y, pendingOf A q i = Some y -> drops (t, y) (historyOf A i) (historyOf (withoutRequest q A) i)) /\
  (forall i, pendingOf A q i = None -> historyOf (withoutRequest q A) i = historyOf A i).
Proof.
  intros Hu Hk. destruct (unique_split q A Hu) as [Hno|(A1 & e & A2 & EA & Eq & Ef & Epd)].
  - exists 0. rewrite historyOf_without by done. split_and!; [intros i y; by rewrite pendingOf_none..|done].
  - exists (beTime e). split; [intros _ _ _; apply (Hk e); [rewrite EA; set_solver|done]|].
    rewrite Ef, EA. rewrite EA in Epd. split.
    + intros i y Hy. rewrite Epd in Hy. rewrite !historyOf_app. exists (historyOf A1 i), (historyOf A2 i).
      split; [|done]. unfold historyOf at 2. simpl. by rewrite Hy.
    + intros i Hy. rewrite Epd in Hy. rewrite !historyOf_app. unfold historyOf at 4. simpl. by rewrite Hy.
Qed.

(** The tables agree with the books. *)
Record agrees (A : list BookEntry) (now : Z) (s : LState) : Prop := {
  ag_stats : stats_inv now (historyOf A) s;
  ag_pending : forall q i, lsPending s !! (q, i) = pendingOf A q i;
  ag_unique : requestsUnique A }.

(** [revertStatsV2] of a request, in tables that agree with the books. *)
Lemma revert_agrees A now s env q : agrees A now s -> now <= getCloseTime env -> time_ok (getCloseTime env) ->
  requestsKnown env A -> exists s2, revertStatsV2 env q s = Ret () s2 /\
    agrees (withoutRequest q A) (getCloseTime env) s2 /\ lsDb s2 = lsDb s /\
    forall i r, lsStatsV2 s !! i = Some r -> exists r', lsStatsV2 s2 !! i = Some r' /\ rowKey r' = rowKey r /\
      (pendingOf A q i = None -> r' = r) /\
      forall t y, requestCreatedAt env q = Some t -> pendingOf A q i = Some y ->
        exactWeek (historyOf A i) (statsOutcomes r) ->
        weekSafe (updatedAt (statsOutcomes r)) (getCloseTime env) \/ weeklyOutcome (statsOutcomes r) = 0 ->
        weeklyOutcome (statsOutcomes r') =
          spentIn Week (getCloseTime env) (historyOf (withoutRequest q A) i) + leftInWeek t (getCloseTime env) y.
Proof.
  intros [Hs Hp Hu] Hle Hn Hk. set (ps := loadPending q (lsPending s)).
  assert (Hin : forall i, i ∈ ps.*1 <-> is_Some (pendingOf A q i)).
  { intros i. rewrite <- Hp, list_elem_of_fmap. split.
    - intros ([j y] & -> & Hj%elem_of_loadPending). by exists y.
    - intros [y Hy]. exists (i, y). split; [done|]. by apply elem_of_loadPending. }
  pose proof (unique_without q A Hu) as Huq.
  destruct (request_dropped env q A Hu Hk) as (t & Ht & Hdrop & Hsame).
  assert (Hwp : wp (fun _ _ => False) (revertStatsLoop env q ps)
    (fun _ s2 => stats_inv (getCloseTime env) (historyOf (withoutRequest q A)) s2 /\ sameRest s s2 /\
       rowReverted env t ps (historyOf A) (historyOf (withoutRequest q A)) s s2 /\
       forall q' i, lsPending s2 !! (q', i) =
         if decide (q' = q /\ i ∈ ps.*1) then None else lsPending s !! (q', i)) s).
  { destruct ps as [|[i0 y0] ps'] eqn:Eps.
    - cbn [revertStatsLoop]. xstep. split_and!; [|done| |].
      + apply (stats_inv_ext env (historyOf A)); [by apply (stats_inv_later now)|]. intros i. apply Hsame.
        apply eq_None_not_Some. rewrite <- Hin. by apply not_elem_of_nil.
      + intros i r Hr. exists r. split_and!; [done..|]. by intros y ?%elem_of_nil.
      + intros q' i. rewrite decide_False; [done|]. by intros [_ ?%elem_of_nil].
    - rewrite <- Eps in *. apply (wp_revertStatsLoop env q t ps);
        [by apply (stats_inv_later now)|done| |apply NoDup_loadPending| |].
      + assert (Hy : (i0, y0) ∈ ps) by (rewrite Eps; left). apply elem_of_loadPending in Hy. rewrite Hp in Hy. by eapply Ht.
      + intros i y Hy%elem_of_loadPending. split; [rewrite Hp in Hy; by apply Hdrop|].
        apply (si_pending _ _ _ Hs q). by rewrite Hy.
      + intros i Hi. apply Hsame. rewrite Hin in Hi. by apply eq_None_not_Some in Hi. }
  apply wp_returns in Hwp as ([] & s2 & E2 & H2 & Hr2 & Hrow & Hp2). exists s2.
  split_and!; [done|split; [done| |done]|apply Hr2|].
  - intros q' i. rewrite Hp2. case_decide as Hd.
    + destruct Hd as [-> _]. by rewrite withoutRequest_none.
    + rewrite Hp. destruct (decide (q' = q)) as [->|Hne]; [|by rewrite pendingOf_other].
      rewrite withoutRequest_none. apply eq_None_not_Some. rewrite <- Hin. tauto.
  - intros i r Hr. destruct (Hrow i r Hr) as (r' & Hr' & Hkey & Hs' & Hw). exists r'. split_and!; [done|done| |].
    + intros Hno. apply Hs'. rewrite Hin, Hno. by intros [? ?].
    + intros t' y Hc Hy He Hsafe. rewrite (Ht i y Hy) in Hc. injection Hc as <-. apply Hw; [|done|done].
      apply elem_of_loadPending. by rewrite Hp.
Qed.

Lemma books_agree A now s : books A now s -> agrees A now s.
Proof.
  induction 1 as [now s Hs Hp|A now now' s _ [Hs Hp Hu] Hle|A now s d _ [Hs Hp Hu] Hd
    |A s env spend x u account type asset request u' s' _ [Hs Hp Hu] Hn Hx Hids Hnew E
    |A s env q s' _ IH Hn Hk E].
  - split; [done|intros q i; by rewrite Hp|constructor].
  - split; [by eapply stats_inv_later|done|done].
  - split; [|done|done]. split; try apply Hs. exact Hd.
  - assert (Hnone : forall q i, request = Some q -> lsPending s !! (q, i) = None).
    { intros q i Hq. rewrite Hp. apply pendingOf_none. intros e He. by eapply Hnew. }
    destruct (addStatsV2_post env spend x u account type asset request (historyOf A) s) as (res & s1 & E' & H' & Hs' & Hr & Hg);
      [done..|].
    rewrite E in E'. injection E' as <- <-. specialize (Hg eq_refl). set (ls := loadLimits _ _ _ _ _ _) in *.
    pose proof (fun i => grown_amounts _ _ _ _ _ _ _ _ _ _ i Hg Hs') as Ham. split.
    + apply (stats_inv_ext env H'); [done|]. intros i. rewrite (proj1 (Ham i)). unfold historyOf. simpl.
      by destruct (amountsFor _ _ _ _ _ !! i).
    + intros q i. simpl. case_decide as Eq.
      * apply (proj2 (Ham i) q Eq). intros j. by apply Hnone.
      * rewrite <- Hp. by apply (gr_pending _ _ _ _ _ _ _ _ _ _ Hg).
    + unfold requestsUnique. simpl. destruct request as [q|]; [|done]. apply NoDup_cons. split; [|done].
      intros (e & He & Eq)%list_elem_of_omap. by apply (Hnew e q).
  - destruct (revert_agrees A (getCloseTime env) s env q IH ltac:(lia) Hn Hk) as (s2 & E2 & Hag & _).
    rewrite E in E2. by injection E2 as <-.
Qed.

(** C38. What was recorded for a request is taken back, whatever came between.  In any life of the tables, in which
    amounts are added for requests and without, requests are reverted and prices change as time passes, the call
    [revertStatsV2] of a request does not throw.  After it the rows of statistics stand for the histories without what
    [addStatsV2] recorded for the request and with all the rest ([tracks]: the exact sums of the day, the month and the
    year), nothing is pending for the request and all that is pending for others is as it was.  A row the request
    has nothing in is not touched.  The sum of the week of a row, where it was exact and the clock has no week over the
    new year to miss, is exact again, but for an amount of the same week and another month, which stays in it. *)
Theorem revert_undoes_add A now s env q : books A now s -> now <= getCloseTime env -> time_ok (getCloseTime env) ->
  requestsKnown env A ->
  exists s2, revertStatsV2 env q s = Ret () s2 /\
    stats_inv (getCloseTime env) (historyOf (withoutRequest q A)) s2 /\
    (forall q' i, lsPending s2 !! (q', i) = pendingOf (withoutRequest q A) q' i) /\ lsDb s2 = lsDb s /\
    forall i r, lsStatsV2 s !! i = Some r -> exists r', lsStatsV2 s2 !! i = Some r' /\ rowKey r' = rowKey r /\
      (pendingOf A q i = None -> r' = r) /\
      forall t y, requestCreatedAt env q = Some t -> pendingOf A q i = Some y ->
        weeklyOutcome (statsOutcomes r) = spentIn Week (updatedAt (statsOutcomes r)) (historyOf A i) ->
        weekSafe (updatedAt (statsOutcomes r)) (getCloseTime env) \/ weeklyOutcome (statsOutcomes r) = 0 ->
        weeklyOutcome (statsOutcomes r') =
          spentIn Week (getCloseTime env) (historyOf (withoutRequest q A) i) + leftInWeek t (getCloseTime env) y.
Proof.
  intros Hb%books_agree Hle Hn Hk. destruct (revert_agrees A now s env q Hb Hle Hn Hk) as (s2 & E & [H1 H2 _] & Hd & Hw).
  by exists s2.
Qed.

End theorems.
