(* ===== verification/AccountManager.v ===== *)
(** * The account manager

    [transactions/AccountManager.cpp]: moving funds between balances, counting what was
    spent and checking it against limits, and the fees.  Frames are copies of rows: a
    transfer changes two of them and stores both. *)

From Stdlib Require Import ZArith Lia String.
From stdpp Require Import base tactics gmap option list.
From S2P Require Import Prelude ScpTypes LedgerTypes LedgerDelta UtilTypes Balance Offer OfferExchange CreateOffer.
From S2P Require Import Calendar Statistics.

Open Scope Z_scope.

(** ** The environment *)

Inductive LedgerVersion :=
| CREATE_ONLY_STATISTICS_V2
| FIX_PAYMENT_V2_DEST_ACCOUNT_NOT_FOUND
| FIX_PAYMENT_V2_FEE
| FIX_PAYMENT_V2_SEND_TO_SELF.

Inductive PaymentFeeType := OUTGOING | INCOMING.

Record Limits := mkLimitsV1 { limDaily : Z; limWeekly : Z; limMonthly : Z; limAnnual : Z }.

(** What the operations read: [shared] is what they have in common with the operations on
    offers, [feeFor] is [FeeHelper::loadForAccount] for payments with the asset of the fee,
    [defaultSender] the account a reference has when nobody sets it. *)
Record PayEnv := mkPayEnv {
  shared : OfferEnv;
  forStats : StatsEnv;
  shouldUse : LedgerVersion -> bool;
  loadStatsAsset : option AssetCode;
  accountLimits : AccountID -> option Limits;
  accountTypeLimits : AccountType -> option Limits;
  feeFor : PaymentFeeType -> AssetCode -> AccountID -> AccountType -> Z -> option (AssetCode * FeeEntry);
  defaultSender : AccountID }.

(** [AccountFrame], as far as it is read. *)
Record Account := mkAccount { accountID : AccountID; accountType : AccountType }.

Inductive TransferResult :=
| TR_SUCCESS | TR_LINE_FULL | TR_UNDERFUNDED | TR_STATS_OVERFLOW | TR_LIMITS_EXCEEDED.

#[export] Instance TransferResult_eq_dec : EqDecision TransferResult.
Proof. solve_decision. Defined.

(** [isSystemAccountType] *)
Definition isSystemAccountType (t : AccountType) : bool :=
  bool_decide (t ∈ [MASTER; COMMISSION; OPERATIONAL]).

Section manager.
Context (env : PayEnv).

Abbreviation closeAt := (getCloseTime (forStats env)).

(** ** Tables *)

Definition onBalances (f : Db -> exn + Db) : M LState () :=
  d ← gets lsDb; d' ← lift (f d); modify (set_lsDb d').

(** [AccountHelper::mustLoadAccount] *)
Definition mustLoadAccount (a : AccountID) : M LState Account :=
  match accountTypeOf (shared env) a with
  | Some t => mret (mkAccount a t)
  | None => throw (RuntimeError "Unexpected state: expected account to exist")
  end.

(** [StatisticsHelper::mustLoadStatistics] *)
Definition mustLoadStatistics (a : AccountID) : M LState Outcomes :=
  m ← gets lsStats;
  match m !! a with
  | Some o => if isValidStats o then mret o else throw invalidStats
  | None => throw (RuntimeError "Unexpected db state. Expected statistics to exist")
  end.

(** [StatisticsHelper::storeUpdateHelper] *)
Definition storeStats (insert : bool) (a : AccountID) (o : Outcomes) : M LState () :=
  if isValidStats o then
    m ← gets lsStats;
    match insert, m !! a with
    | true, None | false, Some _ => modify (set_lsStats (<[a := o]> m))
    | _, _ => throw sqlError
    end
  else throw invalidStats.

(** A computation on the tables of balances and the generators. *)
Definition onTablesAndHeader {A} (m : M OpState A) : M LState A := fun s =>
  match m (mkOpState (lsDb s) (lsHeader s) MO_SUCCESS) with
  | Ret a o => Ret a (set_lsHeader (stHeader o) (set_lsDb (stDb o) s))
  | Exn e o => Exn e (set_lsHeader (stHeader o) (set_lsDb (stDb o) s))
  end.

Definition loadOrCreateBalance (a : AccountID) (asset : AssetCode) : M LState Balance :=
  onTablesAndHeader (loadOrCreateBalanceFrameForAsset (shared env) a asset).

(** ** Limits of the first version *)

(** [AccountManager::createStats] *)
Definition createStats (a : AccountID) : M LState () := storeStats true a noOutcomes.

(** [AccountManager::getDefaultLimits] *)
Definition getDefaultLimits (t : AccountType) : Limits :=
  match accountTypeLimits env t with
  | Some l => l
  | None => mkLimitsV1 INT64_MAX INT64_MAX INT64_MAX INT64_MAX
  end.

(** [AccountManager::validateStats]: the limits are those of the owner of the balance, or
    the default ones of the account. *)
Definition validateStatsV1 (account : Account) (balance : Balance) (s : Outcomes) : bool :=
  let limits := match accountLimits env (balanceAccount balance) with
                | Some l => l
                | None => getDefaultLimits (accountType account)
                end in
  if limDaily limits <? dailyOutcome s then false
  else if limWeekly limits <? weeklyOutcome s then false
  else if limMonthly limits <? monthlyOutcome s then false
  else if limAnnual limits <? annualOutcome s then false
  else true.

(** Adding to the statistics of an account within its limits, as [processTransfer],
    [processStatistics] and [addStats] do. *)
Definition addStatsV1 (owner : AccountID) (account : Account) (balance : Balance) (x : Z) (ignoreLimits : bool) :
    M LState TransferResult :=
  stats ← mustLoadStatistics owner;
  added ← lift (addOutcome x closeAt stats);
  let '(ok, stats) := added in
  if negb ok then mret TR_STATS_OVERFLOW
  else if negb ignoreLimits && negb (validateStatsV1 account balance stats) then mret TR_LIMITS_EXCEEDED
  else storeStats false owner stats;; mret TR_SUCCESS.

(** [AccountManager::processTransfer]: the result, the balance after it and the amount in
    the asset of the statistics, which keeps its value when nothing is written to it. *)
Definition processTransferV1 (account : Account) (balance : Balance) (x universalAmount : Z)
    (requireReview ignoreLimits : bool) : M LState (TransferResult * Balance * Z) :=
  let '(refused, balance) :=
    if requireReview then
      let (r, b) := lockBalance x balance in
      match r with
      | UNDERFUNDED => (Some TR_UNDERFUNDED, b)
      | LINE_FULL => (Some TR_LINE_FULL, b)
      | BAL_SUCCESS => (None, b)
      end
    else
      let (ok, b) := addBalance (s64 (- x)) balance in
      if ok then (None, b) else (Some TR_UNDERFUNDED, b) in
  match refused with
  | Some r => mret (r, balance, universalAmount)
  | None =>
      d ← gets lsDb;
      match loadStatsAsset env with
      | None => mret (TR_SUCCESS, balance, universalAmount)
      | Some stats =>
          match dbPairs d !! (balanceAsset balance, stats) with
          | None => mret (TR_SUCCESS, balance, universalAmount)
          | Some p =>
              u ← lift (bigDivide_s64 universalAmount x (currentPrice p) ONE ROUND_UP);
              let '(ok, universalAmount) := u in
              if negb ok then mret (TR_STATS_OVERFLOW, balance, universalAmount)
              else
                r ← addStatsV1 (balanceAccount balance) account balance (u64 universalAmount) ignoreLimits;
                mret (r, balance, universalAmount)
          end
      end
  end.

(** [AccountManager::addStats], with the amount it leaves in [universalAmount]. *)
Definition addStats (account : Account) (balance : Balance) (amountToAdd : Z) : M LState (TransferResult * Z) :=
  d ← gets lsDb;
  match loadStatsAsset env with
  | None => mret (TR_SUCCESS, 0)
  | Some stats =>
      match tryLoadAssetPairForAssets (balanceAsset balance) stats d with
      | None => mret (TR_SUCCESS, 0)
      | Some p =>
          u ← lift (convertAmount p stats amountToAdd ROUND_UP);
          let '(ok, universalAmount) := u in
          if negb ok then mret (TR_STATS_OVERFLOW, universalAmount)
          else
            r ← addStatsV1 (accountID account) account balance universalAmount false;
            mret (r, universalAmount)
      end
  end.

(** [AccountManager::revertStats] *)
Definition revertStats (a : AccountID) (universalAmount timePerformed : Z) : M LState () :=
  stats ← mustLoadStatistics a;
  stats ← lift (revertOutcome universalAmount closeAt timePerformed stats);
  storeStats false a stats.

(** [AccountManager::revertRequest]: whether it has unlocked, and the balance after it. *)
Definition revertRequest (balance : Balance) (x universalAmount timePerformed : Z) : M LState (bool * Balance) :=
  let (r, balance) := lockBalance (s64 (- x)) balance in
  if bool_decide (r = BAL_SUCCESS) then
    revertStats (balanceAccount balance) (u64 universalAmount) timePerformed;;
    mret (true, balance)
  else mret (false, balance).

(** ** Transfers *)

(** [AccountManager::calculateUniversalAmount] *)
Definition calculateUniversalAmount (transferAsset : AssetCode) (x : Z) : M LState (bool * Z) :=
  d ← gets lsDb;
  match loadStatsAsset env with
  | None => mret (true, 0)
  | Some stats =>
      if decide (transferAsset = stats) then mret (true, x)
      else
        match tryLoadAssetPairForAssets transferAsset stats d with
        | None => mret (true, 0)
        | Some p => lift (convertAmount p transferAsset x ROUND_UP)
        end
  end.

(** [AccountManager::tryAddStatsV2], with the amount it leaves in [universalAmount]. *)
Definition tryAddStatsV2 (account : Account) (balance : Balance) (amountToAdd universalAmount : Z) :
    M LState (TransferResult * Z) :=
  r ← addStatsV2 (forStats env) SpendPAYMENT amountToAdd universalAmount (accountID account) (accountType account)
    (balanceAsset balance) None;
  match r with
  | (STATS_SUCCESS, u) => mret (TR_SUCCESS, u)
  | (STATS_V2_OVERFLOW, u) => mret (TR_STATS_OVERFLOW, u)
  | (LIMITS_V2_EXCEEDED, u) => mret (TR_LIMITS_EXCEEDED, u)
  end.

(** [AccountManager::processStatistics] *)
Definition processStatistics (from : Account) (fromBalance : Balance) (x universalAmount : Z) :
    M LState (TransferResult * Z) :=
  r ← (if shouldUse env CREATE_ONLY_STATISTICS_V2 then mret TR_SUCCESS
       else addStatsV1 (balanceAccount fromBalance) from fromBalance universalAmount false);
  match r with
  | TR_SUCCESS => tryAddStatsV2 from fromBalance x 0
  | r => mret (r, 0)
  end.

(** [AccountManager::processTransferV2]: the result, the amount for the statistics, and the
    two frames after it. *)
Definition processTransferV2 (from : Account) (fromBalance toBalance : Balance) (x : Z) (noIncludeIntoStats : bool) :
    M LState (TransferResult * Z * Balance * Balance) :=
  let (ok, fromBalance) := tryCharge x fromBalance in
  if negb ok then mret (TR_UNDERFUNDED, 0, fromBalance, toBalance)
  else
    onBalances (storeChangeBalance fromBalance);;
    let (ok, toBalance) := tryFundAccount x toBalance in
    if negb ok then mret (TR_LINE_FULL, 0, fromBalance, toBalance)
    else
      onBalances (storeChangeBalance toBalance);;
      u ← calculateUniversalAmount (balanceAsset fromBalance) x;
      let '(ok, universalAmount) := u in
      if negb ok then mret (TR_STATS_OVERFLOW, 0, fromBalance, toBalance)
      else if universalAmount =? 0 then mret (TR_SUCCESS, 0, fromBalance, toBalance)
      else if noIncludeIntoStats then mret (TR_SUCCESS, universalAmount, fromBalance, toBalance)
      else
        r ← processStatistics from fromBalance x universalAmount;
        mret (r.1, r.2, fromBalance, toBalance).

(** ** Fees *)

(** [AccountManager::isFeeMatches] of the fee entry that was found. *)
Definition isFeeMatches (account : Account) (fixed percent : Z) (entry : option FeeEntry) (x : Z) : exn + bool :=
  let none := (fixed =? 0) && (percent =? 0) in
  if isSystemAccountType (accountType account) then inr none
  else
    match entry with
    | None => inr none
    | Some f =>
        if negb (u64 (fixedFee f) =? fixed) then inr false
        else
          match calculatePercentFee f x ROUND_UP with
          | inl e => inl e
          | inr (ok, expected) => inr (ok && (percent =? expected))
          end
    end.

(** [AccountManager::transferFee] of a sum. *)
Definition transferTotalFee (asset : AssetCode) (totalFee : Z) : M LState () :=
  if totalFee =? 0 then mret ()
  else
    c ← loadOrCreateBalance (commissionID (shared env)) asset;
    let (ok, c) := tryFundAccount totalFee c in
    if ok then onBalances (storeChangeBalance c)
    else throw (RuntimeError "Failed to fund commission balance with fee").

(** [AccountManager::transferFee] of a fixed and a percent fee. *)
Definition transferFee (asset : AssetCode) (fixed percent : Z) : M LState () :=
  let (ok, totalFee) := safeSum fixed percent in
  if ok then transferTotalFee asset totalFee else throw (RuntimeError "totalFee overflows uin64").

End manager.
