(* ===== verification/Payment.v ===== *)
(** * Payments

    [transactions/payment/PaymentOpV2Frame.cpp].  An operation that is refused gives its
    code; what it has written by then is rolled back by the transaction. *)

From Stdlib Require Import ZArith Lia String.
From stdpp Require Import base tactics gmap option list.
From S2P Require Import Prelude ScpTypes LedgerTypes LedgerDelta UtilTypes Balance Offer OfferExchange CreateOffer.
From S2P Require Import Calendar Statistics AccountManager.

Open Scope Z_scope.

Inductive PaymentV2ResultCode :=
| PAY_MALFORMED | PAY_UNDERFUNDED | PAY_LINE_FULL | PAY_DESTINATION_BALANCE_NOT_FOUND
| PAY_BALANCE_ASSETS_MISMATCHED | PAY_SRC_BALANCE_NOT_FOUND | PAY_REFERENCE_DUPLICATION | PAY_STATS_OVERFLOW
| PAY_LIMITS_EXCEEDED | PAY_NOT_ALLOWED_BY_ASSET_POLICY | PAY_INVALID_DESTINATION_FEE
| PAY_INVALID_DESTINATION_FEE_ASSET | PAY_FEE_ASSET_MISMATCHED | PAY_INSUFFICIENT_FEE_AMOUNT
| PAY_BALANCE_TO_CHARGE_FEE_FROM_NOT_FOUND | PAY_PAYMENT_AMOUNT_IS_LESS_THAN_DEST_FEE
| PAY_DESTINATION_ACCOUNT_NOT_FOUND.

Record FeeDataV2 := mkFeeData { maxPaymentFee : Z; fixedPaymentFee : Z; feeAsset : AssetCode }.

Inductive PaymentDestination := ToBalance (b : BalanceID) | ToAccount (a : AccountID).

Record PaymentOpV2 := mkPayment {
  sourceBalanceID : BalanceID;
  destination : PaymentDestination;
  paymentAmount : Z;
  sourceFee : FeeDataV2;
  destinationFee : FeeDataV2;
  sourcePaysForDest : bool;
  reference : list N }.

Record PaymentV2Response := mkResponse {
  respDestination : AccountID;
  respDestinationBalance : BalanceID;
  respAsset : AssetCode;
  respSentUniversal : Z;
  respPaymentID : Z;
  respSourceFee : Z;
  respDestinationFee : Z }.

(** What an operation gives: the code when it returns false. *)
Abbreviation refusable A := (sum PaymentV2ResultCode A) (only parsing).

(** Going on unless refused. *)
Definition unless {A B} (m : M LState (refusable A)) (k : A -> M LState (refusable B)) : M LState (refusable B) :=
  r ← m; match r with inl c => mret (inl c) | inr a => k a end.

Definition refuse {A} (c : PaymentV2ResultCode) : M LState (refusable A) := mret (inl c).
Definition accept {A} (a : A) : M LState (refusable A) := mret (inr a).

Declare Scope payment_scope.
Notation "x <-! m ; k" := (unless m (fun x => k)) (at level 100, m at next level, right associativity) : payment_scope.
Local Open Scope payment_scope.

Section payment.
Context (env : PayEnv) (op : PaymentOpV2).

Abbreviation source := (sourceID (shared env)).

(** [PaymentOpV2Frame::setErrorCode] *)
Definition errorCode (r : TransferResult) : option PaymentV2ResultCode :=
  match r with
  | TR_SUCCESS => None
  | TR_UNDERFUNDED => Some PAY_UNDERFUNDED
  | TR_STATS_OVERFLOW => Some PAY_STATS_OVERFLOW
  | TR_LIMITS_EXCEEDED => Some PAY_LIMITS_EXCEEDED
  | TR_LINE_FULL => Some PAY_LINE_FULL
  end.

(** [PaymentOpV2Frame::processTransfer]: the sum of the amounts for the statistics, and the
    two frames. *)
Definition processTransfer (payer : Account) (from to : Balance) (x universalAmount : Z) :
    M LState (refusable (Z * Balance * Balance)) :=
  r ← processTransferV2 env payer from to x false;
  let '(result, u, from, to) := r in
  match errorCode result with
  | Some c => refuse c
  | None =>
      let (ok, total) := safeSum universalAmount u in
      if ok then accept (total, from, to) else refuse PAY_STATS_OVERFLOW
  end.

(** [PaymentOpV2Frame::processTransferFee]: the sum of the amounts, and [chargeFrom] as it
    is after the call: another frame is charged when the fee is in another asset. *)
Definition processTransferFee (payer : Account) (chargeFrom : Balance) (expectedFee actualFee : FeeDataV2)
    (universalAmount : Z) : M LState (refusable (Z * Balance)) :=
  if (fixedPaymentFee actualFee =? 0) && (maxPaymentFee actualFee =? 0) then accept (universalAmount, chargeFrom)
  else if negb (bool_decide (feeAsset actualFee = feeAsset expectedFee)) then refuse PAY_FEE_ASSET_MISMATCHED
  else if (fixedPaymentFee expectedFee <? fixedPaymentFee actualFee) ||
          (maxPaymentFee expectedFee <? maxPaymentFee actualFee) then refuse PAY_INSUFFICIENT_FEE_AMOUNT
  else
    let (ok, totalFee) := safeSum (fixedPaymentFee actualFee) (maxPaymentFee actualFee) in
    if negb ok then throw (RuntimeError "Total sum of fees to be charged overflows")
    else
      d ← gets lsDb;
      let same := bool_decide (balanceAsset chargeFrom = feeAsset actualFee) in
      match (if same then Some chargeFrom
             else loadBalanceOf (shared env) (balanceAccount chargeFrom) (feeAsset actualFee) d) with
      | None => refuse PAY_BALANCE_TO_CHARGE_FEE_FROM_NOT_FOUND
      | Some charged =>
          commissionBalance ← loadOrCreateBalance env (commissionID (shared env)) (feeAsset actualFee);
          r <-! processTransfer payer charged commissionBalance totalFee universalAmount;
          let '(total, charged, _) := r in
          accept (total, if same then charged else chargeFrom)
      end.

(** [OperationFrame::getSourceAccount]: [mSourceAccount], which [checkValid] has loaded; its type and identifier
    are those of the table. *)
Definition getSourceAccount : M LState Account :=
  match accountTypeOf (shared env) source with
  | Some t => mret (mkAccount source t)
  | None => throw NullDeref
  end.

(** [PaymentOpV2Frame::isRecipientFeeNotRequired] *)
Definition isRecipientFeeNotRequired : M LState bool :=
  a ← getSourceAccount; mret (bool_decide (accountType a = COMMISSION)).

(** [PaymentOpV2Frame::tryLoadDestinationBalance] *)
Definition tryLoadDestinationBalance (asset : AssetCode) : M LState (refusable Balance) :=
  match destination op with
  | ToBalance b =>
      d ← gets lsDb;
      match dbBalances d !! b with
      | None => refuse PAY_DESTINATION_BALANCE_NOT_FOUND
      | Some dest =>
          if decide (balanceAsset dest = asset) then accept dest else refuse PAY_BALANCE_ASSETS_MISMATCHED
      end
  | ToAccount a =>
      if shouldUse env FIX_PAYMENT_V2_DEST_ACCOUNT_NOT_FOUND && negb (bool_decide (is_Some (accountTypeOf (shared env) a)))
      then refuse PAY_DESTINATION_ACCOUNT_NOT_FOUND
      else dest ← loadOrCreateBalance env a asset; accept dest
  end.

(** [PaymentOpV2Frame::isTransferAllowed] *)
Definition isTransferAllowed (from to : Balance) : M LState (refusable ()) :=
  if negb (bool_decide (balanceAsset from = balanceAsset to)) then refuse PAY_BALANCE_ASSETS_MISMATCHED
  else
    match assetOf (shared env) (balanceAsset from) with
    | None => throw (RuntimeError "Unexpected state: expected asset to exist")
    | Some asset =>
        if negb (isTransferable asset) then refuse PAY_NOT_ALLOWED_BY_ASSET_POLICY
        else if negb (isRequireKYC asset) && negb (isRequireVerification asset) then accept ()
        else
          sourceAccount ← getSourceAccount;
          destAccount ← mustLoadAccount env (balanceAccount to);
          let either t := bool_decide (accountType sourceAccount = t) || bool_decide (accountType destAccount = t) in
          if either NOT_VERIFIED && isRequireVerification asset then refuse PAY_NOT_ALLOWED_BY_ASSET_POLICY
          else if either NOT_VERIFIED || either VERIFIED then refuse PAY_NOT_ALLOWED_BY_ASSET_POLICY
          else accept ()
    end.

(** [PaymentOpV2Frame::getActualFee] *)
Definition getActualFee (account : Account) (transferAsset : AssetCode) (x : Z) (t : PaymentFeeType) : M LState FeeDataV2 :=
  match feeFor env t transferAsset (accountID account) (accountType account) (s64 x) with
  | None => mret (mkFeeData 0 0 transferAsset)
  | Some (asset, entry) =>
      x ← (if decide (asset = transferAsset) then mret x
           else
             d ← gets lsDb;
             match tryLoadAssetPairForAssets asset transferAsset d with
             | None => throw (RuntimeError "Unexpected state. Failed to load asset pair for cross asset fee")
             | Some p =>
                 let destAsset := if shouldUse env FIX_PAYMENT_V2_FEE then asset else transferAsset in
                 r ← lift (convertAmount p destAsset x ROUND_UP);
                 let '(ok, y) := r in
                 if ok : bool then mret y
                 else throw (RuntimeError "failed to convert transfer amount into fee asset")
             end);
      r ← lift (calculatePercentFee entry x ROUND_UP);
      let '(ok, percent) := r in
      if ok : bool then mret (mkFeeData percent (u64 (fixedFee entry)) asset)
      else throw (RuntimeError "Failed to calculate actual payment fee - overflow")
  end.

(** [PaymentOpV2Frame::isSendToSelf] *)
Definition isSendToSelf (dest : BalanceID) : bool :=
  shouldUse env FIX_PAYMENT_V2_SEND_TO_SELF && bool_decide (sourceBalanceID op = dest).

(** [OperationFrame::createReferenceEntry]: nobody sets the sender. *)
Definition createReferenceEntry (r : list N) : M LState () :=
  refs ← gets lsReferences;
  if decide ((defaultSender env, r) ∈ refs) then throw sqlError
  else modify (set_lsReferences ({[(defaultSender env, r)]} ∪ refs)).

(** The end of [doApply]: the fee of the recipient, when there is one. *)
Definition processDestinationFee (sourceAccount destAccount : Account) (sourceBalance destBalance : Balance)
    (destFee : FeeDataV2) (sourceSentUniversal : Z) : M LState (refusable Z) :=
  b ← isRecipientFeeNotRequired;
  if b : bool then accept sourceSentUniversal
  else
    let payer := if sourcePaysForDest op then sourceAccount else destAccount in
    let payerBalance := if sourcePaysForDest op then sourceBalance else destBalance in
    r <-! processTransferFee payer payerBalance (destinationFee op) destFee 0;
    accept (if sourcePaysForDest op then u64 (sourceSentUniversal + r.1) else sourceSentUniversal).

Definition checkReference : M LState (refusable ()) :=
  match reference op with
  | [] => accept ()
  | _ =>
      a ← getSourceAccount;
      refs ← gets lsReferences;
      if decide ((accountID a, reference op) ∈ refs) then refuse PAY_REFERENCE_DUPLICATION
      else createReferenceEntry (reference op);; accept ()
  end.

(** [doApply] after the transfer, with its frames. *)
Definition afterTransfer (sourceAccount : Account) (sent : Z) (sourceBalance destBalance : Balance) :
    M LState (refusable PaymentV2Response) :=
  let asset := balanceAsset sourceBalance in
  sFee ← getActualFee sourceAccount asset (paymentAmount op) OUTGOING;
  r <-! processTransferFee sourceAccount sourceBalance (sourceFee op) sFee sent;
  let '(sent, sourceBalance) := r in
  destAccount ← mustLoadAccount env (balanceAccount destBalance);
  dFee ← getActualFee destAccount asset (paymentAmount op) INCOMING;
  if negb (bool_decide (feeAsset dFee = asset)) || negb (bool_decide (feeAsset (destinationFee op) = asset))
  then refuse PAY_INVALID_DESTINATION_FEE_ASSET
  else
    sent <-! processDestinationFee sourceAccount destAccount sourceBalance destBalance dFee sent;
    paymentID ← generate PAYMENT_REQUEST;
    _ <-! checkReference;
    accept (mkResponse (accountID destAccount) (balanceID destBalance) (balanceAsset destBalance) sent paymentID
      (maxPaymentFee sFee) (maxPaymentFee dFee)).

(** [PaymentOpV2Frame::doApply] *)
Definition doApplyPayment : M LState (refusable PaymentV2Response) :=
  d ← gets lsDb;
  match dbBalances d !! sourceBalanceID op with
  | Some sourceBalance =>
      if negb (bool_decide (balanceAccount sourceBalance = source)) then refuse PAY_SRC_BALANCE_NOT_FOUND
      else
        destBalance <-! tryLoadDestinationBalance (balanceAsset sourceBalance);
        if isSendToSelf (balanceID destBalance) then refuse PAY_MALFORMED
        else
          _ <-! isTransferAllowed sourceBalance destBalance;
          sourceAccount ← mustLoadAccount env source;
          r <-! processTransfer sourceAccount sourceBalance destBalance (paymentAmount op) 0;
          let '(sent, sourceBalance, destBalance) := r in
          afterTransfer sourceAccount sent sourceBalance destBalance
  | None => refuse PAY_SRC_BALANCE_NOT_FOUND
  end.

(** [PaymentOpV2Frame::isDestinationFeeValid]: the code, when it is not. *)
Definition isDestinationFeeValid : option PaymentV2ResultCode :=
  let (ok, total) := safeSum (fixedPaymentFee (destinationFee op)) (maxPaymentFee (destinationFee op)) in
  if negb ok then Some PAY_INVALID_DESTINATION_FEE
  else if sourcePaysForDest op then None
  else if paymentAmount op <? total then Some PAY_PAYMENT_AMOUNT_IS_LESS_THAN_DEST_FEE
  else None.

(** [PaymentOpV2Frame::doCheckValid]: the code, when the operation is refused. *)
Definition doCheckValidPayment : option PaymentV2ResultCode :=
  if negb (isAssetCodeValid (feeAsset (sourceFee op))) || negb (isAssetCodeValid (feeAsset (destinationFee op)))
  then Some PAY_MALFORMED
  else if (64 <? length (reference op))%nat then Some PAY_MALFORMED
  else
    match isDestinationFeeValid with
    | Some c => Some c
    | None =>
        match destination op with
        | ToAccount _ => None
        | ToBalance b => if decide (sourceBalanceID op = b) then Some PAY_MALFORMED else None
        end
    end.

End payment.
