(* ===== verification/PaymentTheorems.v ===== *)
(** * Payments move funds

    A payment that is accepted moves funds between the balances of the payer, the recipient
    and the account for commissions, makes none and charges no more than was agreed. *)

From Stdlib Require Import ZArith Lia String.
From stdpp Require Import base tactics gmap option list.
From S2P Require Import Prelude ScpTypes LedgerTypes LedgerDelta UtilTypes Balance Offer OfferExchange CreateOffer.
From S2P Require Import ExchangeFacts ExchangeInv ExchangeSteps OfferTheorems Calendar Statistics AccountManager Payment.

Open Scope Z_scope.

Create HintDb pay.

(** ** Statistics do not touch balances *)

Definition keepsDb {A} (m : M LState A) : Prop :=
  forall s, match m s with Ret _ s' | Exn _ s' => lsDb s' = lsDb s end.

Section keeping.
Context {A B : Type}.
Implicit Types (m : M LState A) (k : A -> M LState B).

Lemma keepsDb_bind m k : keepsDb m -> (forall a, keepsDb (k a)) -> keepsDb (m ≫= k).
Proof.
  intros Hm Hk s. specialize (Hm s). unfold mbind, M_bind. destruct (m s) as [a s'|]; [|done].
  specialize (Hk a s'). destruct (k a s'); congruence.
Qed.

Lemma keepsDb_ret (a : A) : keepsDb (mret a).
Proof. by intros s. Qed.

Lemma keepsDb_throw e : keepsDb (A := A) (throw e).
Proof. by intros s. Qed.

Lemma keepsDb_gets (f : LState -> A) : keepsDb (gets f).
Proof. by intros s. Qed.

Lemma keepsDb_lift (r : exn + A) : keepsDb (lift r).
Proof. intros s. by destruct r. Qed.

End keeping.

Lemma keepsDb_modify f : (forall s, lsDb (f s) = lsDb s) -> keepsDb (modify f).
Proof. intros Hf s. apply Hf. Qed.

#[export] Hint Resolve keepsDb_ret keepsDb_throw keepsDb_gets keepsDb_lift : pay.
#[export] Hint Extern 1 (keepsDb (modify _)) => (apply keepsDb_modify; done) : pay.

(** Goes through a computation that has no writes to balances. *)
Ltac keeps := repeat first
  [ progress (eauto 1 with pay) | apply keepsDb_bind; [|intros ?] | case_match
  | progress cbn beta iota zeta ].

Lemma keepsDb_generate t : keepsDb (generate t).
Proof. unfold generate. keeps. Qed.

Lemma keepsDb_loadByKey account o asset c : keepsDb (loadStatsByKey account o asset c).
Proof. unfold loadStatsByKey. keeps. Qed.

Lemma keepsDb_storeStatsV2 b r : keepsDb (storeStatsV2 b r).
Proof. unfold storeStatsV2. keeps. Qed.

Lemma keepsDb_storeAddPending q i y : keepsDb (storeAddPending q i y).
Proof. unfold storeAddPending. keeps. Qed.

#[export] Hint Resolve keepsDb_generate keepsDb_loadByKey keepsDb_storeStatsV2 keepsDb_storeAddPending : pay.

Lemma keepsDb_statsFor account l : keepsDb (statsFor account l).
Proof. unfold statsFor. keeps. Qed.

Lemma keepsDb_convertForStats asset x r : keepsDb (convertForStats asset x r).
Proof. unfold convertForStats. keeps. Qed.

#[export] Hint Resolve keepsDb_statsFor keepsDb_convertForStats : pay.

Lemma keepsDb_addStatsLoop env account asset x request ls u : keepsDb (addStatsLoop env account asset x request ls u).
Proof. revert u. induction ls as [|l ls IH]; intros u; cbn [addStatsLoop]; keeps. Qed.

#[export] Hint Resolve keepsDb_addStatsLoop : pay.

Section manager.
Context (env : PayEnv).

Lemma keepsDb_mustLoadAccount a : keepsDb (mustLoadAccount env a).
Proof. unfold mustLoadAccount. keeps. Qed.

Lemma keepsDb_mustLoadStatistics a : keepsDb (mustLoadStatistics a).
Proof. unfold mustLoadStatistics. keeps. Qed.

Lemma keepsDb_storeStats b a o : keepsDb (storeStats b a o).
Proof. unfold storeStats. keeps. Qed.

Hint Resolve keepsDb_mustLoadAccount keepsDb_mustLoadStatistics keepsDb_storeStats : pay.

Lemma keepsDb_calculateUniversalAmount asset x : keepsDb (calculateUniversalAmount env asset x).
Proof. unfold calculateUniversalAmount. keeps. Qed.

Lemma keepsDb_addStatsV1 o a b x i : keepsDb (addStatsV1 env o a b x i).
Proof. unfold addStatsV1. keeps. Qed.

Hint Resolve keepsDb_addStatsV1 : pay.

Lemma keepsDb_processStatistics a b x u : keepsDb (processStatistics env a b x u).
Proof. unfold processStatistics, tryAddStatsV2, addStatsV2. keeps. Qed.

Lemma keepsDb_getActualFee a asset x t : keepsDb (getActualFee env a asset x t).
Proof. unfold getActualFee. keeps. Qed.

End manager.

#[export] Hint Resolve keepsDb_mustLoadAccount keepsDb_calculateUniversalAmount keepsDb_processStatistics
  keepsDb_getActualFee : pay.

(** An operation that throws, like one that is refused, is rolled back. *)
Definition mayThrow : exn -> LState -> Prop := fun _ _ => True.

Lemma wp_keepsDb {A} (m : M LState A) (Q : A -> LState -> Prop) s : keepsDb m ->
  (forall a s', lsDb s' = lsDb s -> Q a s') -> wp mayThrow m Q s.
Proof. intros Hm HQ. specialize (Hm s). unfold wp. destruct (m s); [by apply HQ|done]. Qed.

(** ** Transfers *)

Abbreviation bal s := (dbBalances (lsDb s)) (only parsing).

(** A frame that agrees with its row. *)
Definition current (m : Balances) (b : Balance) : Prop := m !! balanceID b = Some b.

Definition debited (x : Z) (b : Balance) : Balance := set_amount (amount b - x) b.
Definition credited (x : Z) (b : Balance) : Balance := set_amount (amount b + x) b.

(** Moving [x] from one balance to another one of the same asset. *)
Lemma transfer_tables (m : Balances) (from to : Balance) (x : Z) : rows_ok m -> supply_ok m -> current m from ->
  current m to -> balanceID from <> balanceID to -> balanceAsset from = balanceAsset to -> 0 <= x <= amount from ->
  rows_ok (upd (credited x to) (upd (debited x from) m)) /\
  (forall a, total a (upd (credited x to) (upd (debited x from) m)) = total a m) /\
  worth to + x <= INT64_MAX.
Proof.
  intros Hm Hs Hf Ht Hne Ha Hx.
  assert (Hw : worth to + x <= INT64_MAX).
  { pose proof (total_two (balanceAsset from) m from to Hm Hf Ht Hne eq_refl (eq_sym Ha)).
    pose proof (Hs (balanceAsset from)). destruct (Hm _ _ Hf). unfold worth in *. lia. }
  assert (Hr : rewrites [(to, credited x to); (from, debited x from)] m).
  { pose proof (Hm _ _ Ht) as []. pose proof (Hm _ _ Hf) as [].
    split; [|repeat constructor; cbn [fst snd]; try done; unfold credited, debited; cbn [set_amount amount locked]; lia].
    cbn [map fst]. apply NoDup_cons. split; [rewrite list_elem_of_singleton; congruence|apply NoDup_singleton]. }
  split_and!; [by apply (rewrite_rows _ _ Hr)| |done].
  intros a. pose proof (rewrite_total a _ _ Hr) as Ht'. cbn [rewriteRows foldr snd] in Ht'. rewrite Ht'. unfold lsum. cbn [foldr fst snd]. rewrite Ha.
  unfold credited, debited, worth. cbn [set_amount amount locked]. case_decide; lia.
Qed.

Lemma wp_storeBalance b (row : Balance) (Q : () -> LState -> Prop) s : bal s !! balanceID b = Some row ->
  row_ok (balanceID b) b -> Q () (set_lsDb (set_balances (upd b (bal s)) (lsDb s)) s) ->
  wp mayThrow (onBalances (storeChangeBalance b)) Q s.
Proof.
  intros Hr Hb HQ. unfold onBalances. do 3 xstep. eapply wp_lift; [by apply (store_ok _ _ row)|]. by xstep.
Qed.

Section transfers.
Context (env : PayEnv).

Definition transferPost (from to : Balance) (x : Z) (s : LState) (r : TransferResult * Z * Balance * Balance)
    (s' : LState) : Prop :=
  let '(res, _, from', to') := r in
  res = TR_SUCCESS -> x <= amount from /\ from' = debited x from /\ to' = credited x to /\
    bal s' = upd (credited x to) (upd (debited x from) (bal s)).

Lemma wp_processTransferV2 payer from to x b s : rows_ok (bal s) -> supply_ok (bal s) ->
  current (bal s) from -> current (bal s) to -> balanceID from <> balanceID to ->
  balanceAsset from = balanceAsset to -> 0 <= x ->
  wp mayThrow (processTransferV2 env payer from to x b) (transferPost from to x s) s.
Proof.
  intros Hm Hs Hf Ht Hne Ha Hx. unfold processTransferV2, tryCharge.
  destruct (Z.ltb_spec (amount from) x) as [Hlt|Hge]; cbn [negb]; [by xstep|].
  destruct (transfer_tables _ from to x Hm Hs Hf Ht Hne Ha ltac:(lia)) as (_ & _ & Hw).
  pose proof (row_balance_ok _ _ _ Hm Hs Hf) as Bf. pose proof (row_balance_ok _ _ _ Hm Hs Ht) as Bt.
  pose proof (Hm _ _ Hf) as Rf. pose proof (Hm _ _ Ht) as Rt.
  rewrite u64_id by (unfold balance_ok, worth, INT64_MAX, UINT64_MAX in *; lia). fold (debited x from). xstep.
  eapply wp_storeBalance; [exact Hf| |].
  { destruct Rf. split; cbn [debited set_amount balanceID amount locked balanceAsset]; [done|lia|done|done]. }
  rewrite tryFund_ok by (done || unfold INT64_MAX, UINT64_MAX in *; lia). fold (credited x to). cbn [negb]. xstep.
  eapply (wp_storeBalance _ to).
  { cbn [set_lsDb lsDb set_balances dbBalances]. unfold upd. rewrite lookup_insert_ne; [exact Ht|done]. }
  { destruct Rt. split; cbn [credited set_amount balanceID amount locked balanceAsset]; [done|lia|done|done]. }
  cbn [set_lsDb lsDb set_balances dbBalances]. xstep. apply wp_keepsDb; [apply keepsDb_calculateUniversalAmount|].
  intros [ok u] s' Es. destruct ok; cbn [negb]; [|by xstep].
  assert (HQ : forall res v s'', lsDb s'' = lsDb s' -> transferPost from to x s (res, v, debited x from, credited x to) s'').
  { intros res v s'' E _. rewrite E, Es. split_and!; [lia|done|done|done]. }
  case_match; [xstep; by apply HQ|]. destruct b; [xstep; by apply HQ|]. xstep.
  apply wp_keepsDb; [apply keepsDb_processStatistics|]. intros r s'' E. xstep. by apply HQ.
Qed.

(** A balance of an account in an asset, made when there is none. *)
Record providedBalance (a : AccountID) (asset : AssetCode) (s : LState) (b : Balance) (s' : LState) : Prop := {
  pb_rows : rows_ok (bal s');
  pb_total : forall c, total c (bal s') = total c (bal s);
  pb_current : current (bal s') b;
  pb_owner : balanceAccount b = a;
  pb_asset : balanceAsset b = asset;
  pb_keeps : forall i c, bal s !! i = Some c -> bal s' !! i = Some c;
  pb_only : forall i, i <> balanceID b -> bal s' !! i = bal s !! i;
  pb_zero : bal s !! balanceID b = None -> amount b = 0 /\ locked b = 0 }.

Lemma wp_loadOrCreateBalance a asset s : rows_ok (bal s) ->
  wp mayThrow (loadOrCreateBalance env a asset) (providedBalance a asset s) s.
Proof.
  intros Hm.
  assert (Hop : wp (fun _ _ => True) (loadOrCreateBalanceFrameForAsset (shared env) a asset)
    (fun b o => providedBalance a asset s b (set_lsHeader (stHeader o) (set_lsDb (stDb o) s)))
    (mkOpState (lsDb s) (lsHeader s) MO_SUCCESS)).
  { unfold loadOrCreateBalanceFrameForAsset. do 2 xstep. cbn [stDb].
    destruct (loadBalanceOf (shared env) a asset (lsDb s)) as [b|] eqn:El.
    - apply loadBalanceOf_in in El as (i & Hi & H1 & H2). xstep. pose proof (ro_id _ _ (Hm _ _ Hi)).
      split; cbn [set_lsHeader set_lsDb lsDb stDb]; try done; unfold current; congruence.
    - destruct (assetOf (shared env) asset); [|done]. xstep. unfold nextID. do 2 xstep.
      destruct (generateID BALANCE _) as [i h]. do 4 xstep. set (b := createNewBalance _ _ _).
      unfold onTables. do 3 xstep. unfold storeAddBalance. destruct (isBalanceValid b) eqn:Ev; [|done].
      cbn [set_stHeader stDb]. destruct (bal s !! balanceID b) eqn:Eb; [done|]. eapply wp_lift; [done|]. do 2 xstep.
      unfold isBalanceValid in Ev. propify.
      split; cbn [set_lsHeader set_lsDb lsDb set_stDb stDb set_balances dbBalances]; try done.
      + intros j c [[<- <-]|[_ Hc]]%lookup_insert_Some; [by split|by apply Hm].
      + intros c. unfold total. rewrite msum_fresh by done. unfold worthIn, worth. cbn. case_decide; lia.
      + apply lookup_insert_eq.
      + intros j c Hc. rewrite lookup_insert_ne by congruence. done.
      + intros j Hj. by rewrite lookup_insert_ne by congruence. }
  revert Hop. unfold wp, loadOrCreateBalance, onTablesAndHeader.
  by destruct (loadOrCreateBalanceFrameForAsset _ _ _ _).
Qed.

Lemma wp_unless {A B} (m : M LState (refusable A)) (k : A -> M LState (refusable B)) Q s :
  wp mayThrow m (fun r s' => match r with inl c => Q (inl c) s' | inr a => wp mayThrow (k a) Q s' end) s ->
  wp mayThrow (unless m k) Q s.
Proof.
  intros Hm. unfold unless. apply wp_bind. eapply wp_mono; [exact Hm|]. intros [c|a] s' HQ; [by xstep|done].
Qed.

(** A post-condition of an operation that is rolled back when it is refused. *)
Definition accepted {A} (Q : A -> LState -> Prop) (r : refusable A) (s : LState) : Prop :=
  match r with inl _ => True | inr a => Q a s end.

Lemma wp_processTransfer payer from to x u s : rows_ok (bal s) -> supply_ok (bal s) ->
  current (bal s) from -> current (bal s) to -> balanceID from <> balanceID to ->
  balanceAsset from = balanceAsset to -> 0 <= x ->
  wp mayThrow (processTransfer env payer from to x u)
    (accepted (fun r s' => x <= amount from /\ r.1.2 = debited x from /\ r.2 = credited x to /\
       bal s' = upd (credited x to) (upd (debited x from) (bal s)))) s.
Proof.
  intros Hm Hs Hf Ht Hne Ha Hx. unfold processTransfer. xstep.
  eapply wp_mono; [by apply wp_processTransferV2|]. intros [[[res v] from'] to'] s' Hpost. cbn [transferPost] in Hpost.
  unfold refuse, accept. destruct res; cbn [errorCode]; try by xstep. destruct (Hpost eq_refl) as (H1 & H2 & H3 & H4).
  destruct (safeSum u v) as [[] t]; by xstep.
Qed.

(** The fees an account agrees to. *)
Definition agreed (f : FeeDataV2) : Z := fixedPaymentFee f + maxPaymentFee f.

Abbreviation com := (commissionID (shared env)).

(** What a fee does: a balance [fb] of the owner of the frame, the frame itself or one of another asset, is charged
    [fee], which is no more than was agreed and in the asset that was; all other rows but those of the account for
    commissions are as they were. *)
Record charged (cf : Balance) (expected : FeeDataV2) (fb : Balance) (fee : Z) (s : LState) (cf' : Balance) (s' : LState) :
    Prop := {
  ch_rows : rows_ok (bal s');
  ch_total : forall a, total a (bal s') = total a (bal s);
  ch_fee : 0 <= fee <= Z.max 0 (agreed expected);
  ch_asset : fee = 0 \/ balanceAsset fb = feeAsset expected;
  ch_before : current (bal s) fb;
  ch_owner : balanceAccount fb = balanceAccount cf;
  ch_after : current (bal s') (debited fee fb);
  ch_frame : fb = cf /\ cf' = debited fee cf \/ balanceAsset fb <> balanceAsset cf /\ cf' = cf;
  ch_others : forall i b, bal s !! i = Some b -> balanceAccount b <> com -> i <> balanceID fb -> bal s' !! i = Some b }.

Lemma debited_0 b : debited 0 b = b.
Proof. destruct b as [i a c x l]. unfold debited, set_amount. cbn. f_equal. lia. Qed.

Lemma charged_nothing cf expected s : rows_ok (bal s) -> current (bal s) cf -> charged cf expected cf 0 s cf s.
Proof. intros Hm Hc. split; rewrite ?debited_0; try done; [lia|by left|by left]. Qed.

(** The frame is current after the fee. *)
Lemma charged_current cf expected fb fee s cf' s' : charged cf expected fb fee s cf' s' -> current (bal s) cf ->
  balanceAccount cf <> com -> current (bal s') cf'.
Proof.
  intros [] Hcf Ho. destruct ch_frame0 as [[-> ->]|[Hne ->]]; [done|]. apply ch_others0; [done|done|].
  intros E. unfold current in *. congruence.
Qed.

(** The account for commissions has the balance [c] after its fee. *)
Lemma charged_by (from c cf : Balance) (fee : Z) expected s s1 s2 : rows_ok (bal s) -> supply_ok (bal s) ->
  current (bal s) from -> balanceAccount from <> com ->
  providedBalance com (balanceAsset from) s c s1 -> 0 <= fee <= amount from -> fee <= agreed expected ->
  balanceAsset from = feeAsset expected ->
  bal s2 = upd (credited fee c) (upd (debited fee from) (bal s1)) ->
  balanceAccount from = balanceAccount cf -> from = cf \/ balanceAsset from <> balanceAsset cf ->
  charged cf expected from fee s (if decide (from = cf) then debited fee cf else cf) s2.
Proof.
  intros Hm Hs Hf Hof Hp Hfee Hag Has E2 Hown Hor. destruct Hp.
  assert (Hs1 : supply_ok (bal s1)) by (intros a; rewrite pb_total0; apply Hs).
  assert (Hf1 : current (bal s1) from) by by apply pb_keeps0.
  assert (Hne : forall i b, bal s !! i = Some b -> balanceAccount b <> com -> i <> balanceID c).
  { intros i b Hb Ho ->. apply pb_keeps0 in Hb. unfold current in pb_current0. congruence. }
  destruct (transfer_tables (bal s1) from c fee) as (T1 & T2 & _); [done..|by apply (Hne _ _ Hf)|done|done|].
  split; try done.
  - by rewrite E2.
  - intros a. by rewrite E2, T2.
  - lia.
  - by right.
  - unfold current. rewrite E2. unfold upd. rewrite lookup_insert_ne; [by rewrite lookup_insert_eq|].
    apply not_eq_sym. by apply (Hne _ from).
  - case_decide as E; [by left|]. right. by destruct Hor.
  - intros i b Hb Ho Hi. rewrite E2. unfold upd. rewrite !lookup_insert_ne; [by apply pb_keeps0|by apply not_eq_sym|].
    apply not_eq_sym. by apply (Hne i b).
Qed.

Lemma wp_processTransferFee payer cf expected actual u s : rows_ok (bal s) -> supply_ok (bal s) ->
  current (bal s) cf -> balanceAccount cf <> com -> is_u64 (fixedPaymentFee actual) -> is_u64 (maxPaymentFee actual) ->
  wp mayThrow (processTransferFee env payer cf expected actual u)
    (accepted (fun r s' => exists fb fee, charged cf expected fb fee s r.2 s' /\
       (fb <> cf -> feeAsset actual <> balanceAsset cf))) s.
Proof.
  intros Hm Hs Hcf Ho U1 U2. unfold processTransferFee, refuse, accept.
  case_match; [xstep; exists cf, 0; split; [by apply charged_nothing|done]|]. case_bool_decide as Hexp; cbn [negb]; [|by xstep].
  destruct (_ || _) eqn:Eag; [by xstep|]. propify. rewrite safeSum_spec by done.
  destruct (Z.leb_spec (fixedPaymentFee actual + maxPaymentFee actual) UINT64_MAX) as [Hfit|]; cbn [negb]; [|done].
  unfold is_u64 in *. rewrite u64_id by lia. set (fee := fixedPaymentFee actual + maxPaymentFee actual) in *.
  do 2 xstep. set (found := if bool_decide _ then Some cf else _).
  assert (Hfound : forall from, found = Some from -> current (bal s) from /\ balanceAccount from = balanceAccount cf /\
    balanceAsset from = feeAsset actual /\ (bool_decide (balanceAsset cf = feeAsset actual) = true -> from = cf)).
  { intros from. subst found. case_bool_decide as E; [by intros [= <-]|].
    intros (i & Hi & F1 & F2)%loadBalanceOf_in. split_and!; [|done..]. unfold current. by rewrite (ro_id _ _ (Hm _ _ Hi)). }
  destruct found as [from|]; [|by xstep]. destruct (Hfound from eq_refl) as (Hf & Hof & Haf & Hsame). clear Hfound.
  xstep. eapply wp_mono; [by apply wp_loadOrCreateBalance|]. intros c s1 Hp. pose proof Hp as [].
  assert (Hs1 : supply_ok (bal s1)) by (intros a; rewrite pb_total0; apply Hs).
  apply wp_unless. eapply wp_mono.
  { apply (wp_processTransfer payer from c fee u s1); [done|done|by apply pb_keeps0|done| |congruence|lia].
    intros E. assert (Hf1 : current (bal s1) from) by by apply pb_keeps0. unfold current in *. congruence. }
  intros [?|[[t from'] c']] s2; [done|]. cbn [accepted fst snd]. intros (Hx & -> & _ & E2). xstep. cbn [accepted fst snd].
  rewrite <- Haf in Hp.
  pose proof (charged_by from c cf fee expected s s1 s2 Hm Hs Hf ltac:(congruence) Hp ltac:(lia)
    ltac:(unfold agreed; lia) ltac:(congruence) E2 Hof) as Hch. exists from, fee.
  case_bool_decide as E.
  - rewrite (Hsame eq_refl) in *. rewrite decide_True in Hch by done. split; [apply Hch; by left|done].
  - rewrite decide_False in Hch by congruence. split; [apply Hch; right; congruence|congruence].
Qed.

Lemma bigDivide_range A B C r ok y : bigDivide_u64 A B C r = inr (ok, y) -> is_u64 y.
Proof.
  unfold bigDivide_u64. destruct (match r with ROUND_DOWN => _ | ROUND_UP => _ end); [done|].
  intros [= _ <-]. apply u64_range.
Qed.

Lemma percent_range f x r ok y : calculatePercentFee f x r = inr (ok, y) -> is_u64 y.
Proof. unfold calculatePercentFee. case_match; [intros [= _ <-]; done|apply bigDivide_range]. Qed.

Lemma wp_getActualFee a asset x t s :
  wp mayThrow (getActualFee env a asset x t)
    (fun f s' => lsDb s' = lsDb s /\ is_u64 (fixedPaymentFee f) /\ is_u64 (maxPaymentFee f)) s.
Proof.
  pose proof (keepsDb_getActualFee env a asset x t s) as Hk. revert Hk. unfold wp.
  destruct (getActualFee env a asset x t s) as [f s'|] eqn:E; [|done]. intros Hk. split; [done|].
  revert E. unfold getActualFee. destruct (feeFor _ _ _ _ _ _) as [[fa entry]|]; [|by intros [= <- _]].
  intros (y & s1 & _ & ([ok pf] & s2 & E2 & E3)%bind_inv)%bind_inv. destruct ok; [|done]. injection E3 as <- _.
  split; [apply u64_range|]. cbn [maxPaymentFee]. revert E2. unfold lift.
  destruct (calculatePercentFee entry y ROUND_UP) as [|[ok' pf']] eqn:Ep; [done|]. intros [= -> -> _].
  by eapply percent_range.
Qed.

End transfers.

Lemma keepsDb_getSourceAccount env : keepsDb (getSourceAccount env).
Proof. unfold getSourceAccount. keeps. Qed.

#[export] Hint Resolve keepsDb_getSourceAccount : pay.

Lemma keepsDb_isRecipientFeeNotRequired env : keepsDb (isRecipientFeeNotRequired env).
Proof. unfold isRecipientFeeNotRequired. keeps. Qed.

Lemma keepsDb_isTransferAllowed env from to : keepsDb (isTransferAllowed env from to).
Proof. unfold isTransferAllowed, refuse, accept. keeps. Qed.

Lemma keepsDb_checkReference env op : keepsDb (checkReference env op).
Proof. unfold checkReference, createReferenceEntry, refuse, accept. keeps. Qed.

#[export] Hint Resolve keepsDb_isTransferAllowed keepsDb_checkReference keepsDb_isRecipientFeeNotRequired : pay.

(** ** Applying a payment *)

Section apply.
Context (env : PayEnv) (op : PaymentOpV2).

Abbreviation com := (commissionID (shared env)).
Abbreviation source := (sourceID (shared env)).

(** Tables in order, and a payment between others than the account for commissions. *)
Record payable (s : LState) : Prop := {
  py_rows : rows_ok (bal s);
  py_supply : supply_ok (bal s);
  py_amount : is_u64 (paymentAmount op);
  py_sourceFee : 0 <= agreed (sourceFee op);
  py_destFee : 0 <= agreed (destinationFee op);
  py_source : source <> com;
  py_dest : match destination op with
            | ToBalance b => forall row, bal s !! b = Some row -> balanceAccount row <> com
            | ToAccount a => a <> com
            end }.

Lemma wp_tryLoadDestinationBalance asset s : payable s ->
  wp mayThrow (tryLoadDestinationBalance env op asset)
    (accepted (fun b s' => providedBalance (balanceAccount b) asset s b s' /\ balanceAccount b <> com)) s.
Proof.
  intros []. unfold tryLoadDestinationBalance, refuse, accept. destruct (destination op) as [b|a].
  - do 2 xstep. destruct (bal s !! b) as [row|] eqn:Eb; [|by xstep]. case_decide; [|by xstep]. xstep.
    split; [|by apply py_dest0]. pose proof (ro_id _ _ (py_rows0 _ _ Eb)) as Ei.
    split; try done; unfold current; rewrite Ei; congruence.
  - case_match; [by xstep|]. xstep. eapply wp_mono; [by apply wp_loadOrCreateBalance|]. intros c s' Hp. xstep.
    pose proof (pb_owner _ _ _ _ _ Hp) as Ho. split; [by rewrite Ho|]. by rewrite Ho.
Qed.

(** What the destination pays, and what the source pays for it. *)
Definition destPays (fd : Z) : Z := if sourcePaysForDest op then 0 else fd.
Definition paysForDest (fd : Z) : Z := if sourcePaysForDest op then fd else 0.

(** The effect of a payment on the balances: [sb] is the source balance, [db] the destination, [fb] the balance of the
    source its fee [fs] comes from, [fd] the fee of the destination. *)
Record paid (s : LState) (r : PaymentV2Response) (s' : LState) : Prop := {
  pd_rows : rows_ok (bal s');
  pd_total : forall a, total a (bal s') = total a (bal s);
  pd_parties : exists (sb db fb : Balance) (fs fd : Z),
    0 <= fs <= agreed (sourceFee op) /\ 0 <= fd <= agreed (destinationFee op) /\
    bal s !! sourceBalanceID op = Some sb /\ balanceAccount sb = source /\
    bal s !! balanceID fb = Some fb /\ balanceAccount fb = source /\ (fs = 0 \/ balanceAsset fb = feeAsset (sourceFee op)) /\
    (fb = sb /\
       bal s' !! sourceBalanceID op = Some (debited (paymentAmount op + fs + paysForDest fd) sb) \/
     balanceAsset fb <> balanceAsset sb /\
       bal s' !! sourceBalanceID op = Some (debited (paymentAmount op + paysForDest fd) sb) /\
       bal s' !! balanceID fb = Some (debited fs fb)) /\
    (bal s !! respDestinationBalance r = Some db \/
     bal s !! respDestinationBalance r = None /\ amount db = 0 /\ locked db = 0) /\
    bal s' !! respDestinationBalance r = Some (credited (paymentAmount op - destPays fd) db) /\
    forall i b, bal s !! i = Some b -> balanceAccount b <> com -> i <> sourceBalanceID op -> i <> balanceID fb ->
      i <> respDestinationBalance r -> bal s' !! i = Some b }.

Lemma debited_debited x y b : debited y (debited x b) = debited (x + y) b.
Proof. unfold debited, set_amount. cbn. f_equal. lia. Qed.

Lemma debited_credited x y b : debited y (credited x b) = credited (x - y) b.
Proof. unfold debited, credited, set_amount. cbn. f_equal. lia. Qed.

(** The fee of the recipient: the frames of both sides stay current. *)
Lemma wp_processDestinationFee sa da (sb db : Balance) fd sent s : rows_ok (bal s) -> supply_ok (bal s) ->
  0 <= agreed (destinationFee op) ->
  current (bal s) sb -> current (bal s) db -> balanceID sb <> balanceID db -> balanceAsset sb = balanceAsset db ->
  balanceAccount sb <> com -> balanceAccount db <> com -> feeAsset fd = balanceAsset sb ->
  is_u64 (fixedPaymentFee fd) -> is_u64 (maxPaymentFee fd) ->
  wp mayThrow (processDestinationFee env op sa da sb db fd sent)
    (accepted (fun _ s' => rows_ok (bal s') /\ (forall a, total a (bal s') = total a (bal s)) /\
       (exists y, 0 <= y <= agreed (destinationFee op) /\
          current (bal s') (debited (paysForDest y) sb) /\ current (bal s') (debited (destPays y) db)) /\
       forall i b, bal s !! i = Some b -> balanceAccount b <> com -> i <> balanceID sb -> i <> balanceID db ->
         bal s' !! i = Some b)) s.
Proof.
  intros Hm Hs Hag Csb Cdb Hne Ha Osb Odb Hfa U1 U2. unfold processDestinationFee, accept, destPays, paysForDest.
  xstep. apply wp_keepsDb; [auto with pay|]. intros free s0 E0. destruct free.
  { xstep. cbn [accepted]. rewrite E0. split_and!; [done|done| |done]. exists 0. split; [lia|].
    destruct (sourcePaysForDest op); by rewrite !debited_0. }
  apply wp_unless. destruct (sourcePaysForDest op).
  - eapply wp_mono; [apply (wp_processTransferFee env sa sb (destinationFee op) fd 0 s0); by rewrite ?E0|].
    intros [?|[u cf']] s'; [done|]. cbn [accepted snd]. rewrite ?E0. intros (fb & y & [] & Hsame). xstep. cbn [accepted].
    rewrite E0 in *. destruct (decide (fb = sb)) as [->|Hfb]; [|by destruct (Hsame Hfb)].
    rewrite Z.max_r in ch_fee0 by lia. split_and!; [done|done| |by intros; apply ch_others0].
    exists y. rewrite debited_0. split_and!; [lia|lia|done|]. apply ch_others0; [done|done|by apply not_eq_sym].
  - eapply wp_mono; [apply (wp_processTransferFee env da db (destinationFee op) fd 0 s0); by rewrite ?E0|].
    intros [?|[u cf']] s'; [done|]. cbn [accepted snd]. rewrite ?E0. intros (fb & y & [] & Hsame). xstep. cbn [accepted].
    rewrite E0 in *. destruct (decide (fb = db)) as [->|Hfb]; [|destruct (Hsame Hfb); congruence].
    rewrite Z.max_r in ch_fee0 by lia. split_and!; [done|done| |by intros; apply ch_others0].
    exists y. rewrite debited_0. split_and!; [lia|lia| |done]. by apply ch_others0.
Qed.

(** Tables after the transfer and the fees of the source: both frames are current. *)
Record halfway (s : LState) (sb db fb : Balance) (fs : Z) (sb' : Balance) (s' : LState) : Prop := {
  hw_rows : rows_ok (bal s');
  hw_total : forall a, total a (bal s') = total a (bal s);
  hw_fee : 0 <= fs <= agreed (sourceFee op);
  hw_asset : fs = 0 \/ balanceAsset fb = feeAsset (sourceFee op);
  hw_payer : bal s !! balanceID fb = Some fb /\ balanceAccount fb = source;
  hw_dest : current (bal s') (credited (paymentAmount op) db);
  hw_frame : fb = sb /\ sb' = debited (paymentAmount op + fs) sb \/
    balanceAsset fb <> balanceAsset sb /\ sb' = debited (paymentAmount op) sb /\ current (bal s') (debited fs fb);
  hw_source : current (bal s') sb';
  hw_others : forall i b, bal s !! i = Some b -> balanceAccount b <> com -> i <> balanceID sb -> i <> balanceID fb ->
    i <> balanceID db -> bal s' !! i = Some b }.

Lemma halfway_charged s s1 s2 s3 (sb db fb : Balance) fs cf' : payable s ->
  current (bal s) sb -> balanceAccount sb = source -> balanceAccount db <> com ->
  providedBalance (balanceAccount db) (balanceAsset sb) s db s1 -> balanceID sb <> balanceID db ->
  paymentAmount op <= amount sb ->
  bal s2 = upd (credited (paymentAmount op) db) (upd (debited (paymentAmount op) sb) (bal s1)) ->
  charged env (debited (paymentAmount op) sb) (sourceFee op) fb fs s2 cf' s3 ->
  exists fb0, halfway s sb db fb0 fs cf' s3.
Proof.
  intros Hpy Csb Osb Odb Hp Hne Hx E2 Hch. pose proof Hpy as []. pose proof Hp as []. set (x := paymentAmount op) in *.
  assert (Hs1 : supply_ok (bal s1)) by (intros a; rewrite pb_total0; apply py_supply0).
  destruct (transfer_tables (bal s1) sb db x) as (T1 & T2 & _);
    [done|done|by apply pb_keeps0|done|done|by rewrite pb_asset0|unfold is_u64 in *; lia|].
  assert (Csb2 : current (bal s2) (debited x sb)).
  { unfold current. rewrite E2. unfold upd. rewrite lookup_insert_ne; [by rewrite lookup_insert_eq|by apply not_eq_sym]. }
  pose proof (charged_current _ _ _ _ _ _ _ _ Hch Csb2 ltac:(cbn; congruence)) as Ccf. destruct Hch.
  assert (Cdb2 : bal s2 !! balanceID db = Some (credited x db)) by (rewrite E2; apply lookup_insert_eq).
  assert (Hdb : balanceID fb <> balanceID db).
  { intros E. unfold current in ch_before0. destruct ch_frame0 as [[-> _]|[Ha _]]; [done|].
    apply Ha. cbn. rewrite E, Cdb2 in ch_before0. injection ch_before0 as <-. cbn. by rewrite pb_asset0. }
  assert (Hold : forall i b, bal s !! i = Some b -> i <> balanceID sb -> i <> balanceID db -> bal s2 !! i = Some b).
  { intros i b Hb H1 H2. rewrite E2. unfold upd. rewrite !lookup_insert_ne by (cbn; congruence). by apply pb_keeps0. }
  destruct ch_frame0 as [[-> ->]|[Ha ->]].
  - exists sb. split; try done; rewrite ?debited_debited in *; try done.
    + intros a. by rewrite ch_total0, E2, T2.
    + rewrite Z.max_r in ch_fee0 by lia. done.
    + by apply ch_others0.
    + by left.
    + intros i b Hb O1 H1 _ H2. apply ch_others0; [by apply Hold|done|done].
  - assert (Hfs : balanceID fb <> balanceID sb).
    { intros E. apply Ha. unfold current in *. cbn in *. rewrite E, Csb2 in ch_before0. by injection ch_before0 as <-. }
    exists fb. split; try done.
    + intros a. by rewrite ch_total0, E2, T2.
    + rewrite Z.max_r in ch_fee0 by lia. done.
    + split; [|cbn in ch_owner0; congruence]. rewrite <- (pb_only0 _ Hdb). unfold current in ch_before0.
      rewrite E2 in ch_before0. unfold upd in ch_before0. by rewrite !lookup_insert_ne in ch_before0 by (cbn; congruence).
    + apply ch_others0; [done|done|by apply not_eq_sym].
    + right. done.
    + intros i b Hb O1 H1 H2 H3. apply ch_others0; [by apply Hold|done|done].
Qed.

Lemma halfway_paid s s1 s3 s4 (sb db fb sb' : Balance) fs fd resp : payable s ->
  current (bal s) sb -> balanceID sb = sourceBalanceID op -> balanceAccount sb = source -> balanceID sb <> balanceID db ->
  providedBalance (balanceAccount db) (balanceAsset sb) s db s1 ->
  halfway s sb db fb fs sb' s3 -> 0 <= fd <= agreed (destinationFee op) ->
  rows_ok (bal s4) -> (forall a, total a (bal s4) = total a (bal s3)) ->
  current (bal s4) (debited (paysForDest fd) sb') ->
  current (bal s4) (debited (destPays fd) (credited (paymentAmount op) db)) ->
  (forall i b, bal s3 !! i = Some b -> balanceAccount b <> com -> i <> balanceID sb -> i <> balanceID db ->
     bal s4 !! i = Some b) ->
  respDestinationBalance resp = balanceID db -> paid s resp s4.
Proof.
  intros Hpy Csb Isb Osb Hne Hp [] Hfd R4 T4 C1 C2 Hoth Er. rewrite debited_credited in C2. destruct hw_payer0 as [Hfb Ofb].
  split; rewrite ?Er; [done|intros a; by rewrite T4|].
  exists sb, db, fb, fs, fd. rewrite <- Isb. split_and!; [lia|lia|lia|lia|done|done|done|done|done| | |exact C2|].
  - destruct hw_frame0 as [[-> ->]|(Ha & -> & Cf)]; rewrite debited_debited in C1; [by left|]. right.
    split_and!; [done|exact C1|]. apply Hoth; [exact Cf|cbn; rewrite Ofb; apply (py_source _ Hpy)| |].
    + intros E. cbn in E. unfold current in Csb. rewrite E, Csb in Hfb. congruence.
    + intros E. cbn in E. pose proof (pb_keeps _ _ _ _ _ Hp _ _ Hfb) as Hk. pose proof (pb_current _ _ _ _ _ Hp) as Hc.
      unfold current in Hc. rewrite E, Hc in Hk. injection Hk as <-. by rewrite (pb_asset _ _ _ _ _ Hp) in Ha.
  - destruct (bal s !! balanceID db) as [b|] eqn:Eb.
    + left. pose proof (pb_keeps _ _ _ _ _ Hp _ _ Eb). pose proof (pb_current _ _ _ _ _ Hp) as Cd.
      unfold current in Cd. congruence.
    + right. split; [done|]. by apply (pb_zero _ _ _ _ _ Hp).
  - intros i b Hb O1 H1 H2 H3. apply Hoth; [by apply hw_others0|done|done|done].
Qed.

(** From the transfer on. *)
Lemma wp_afterTransfer s s1 s2 (sb db : Balance) sa sent : payable s ->
  current (bal s) sb -> balanceID sb = sourceBalanceID op -> balanceAccount sb = source -> balanceAccount db <> com ->
  providedBalance (balanceAccount db) (balanceAsset sb) s db s1 -> balanceID sb <> balanceID db ->
  paymentAmount op <= amount sb ->
  bal s2 = upd (credited (paymentAmount op) db) (upd (debited (paymentAmount op) sb) (bal s1)) ->
  wp mayThrow (afterTransfer env op sa sent (debited (paymentAmount op) sb) (credited (paymentAmount op) db))
    (accepted (paid s)) s2.
Proof.
  intros Hpy Csb Isb Osb Odb Hp Hne Hx E2. pose proof Hp as [].
  assert (Hs1 : supply_ok (bal s1)) by (intros a; rewrite pb_total0; apply (py_supply _ Hpy)).
  destruct (transfer_tables (bal s1) sb db (paymentAmount op)) as (T1 & T2 & _);
    [done|done|by apply pb_keeps0|done|done|congruence|pose proof (py_amount _ Hpy) as []; lia|].
  assert (Hs2 : supply_ok (bal s2)) by (intros a; rewrite E2, T2; apply Hs1).
  unfold afterTransfer, refuse. xstep. eapply wp_mono; [apply wp_getActualFee|]. intros sFee s2' (E2' & U1 & U2).
  assert (Hsb2 : current (bal s2) (debited (paymentAmount op) sb)).
  { unfold current. rewrite E2. unfold upd. rewrite lookup_insert_ne; [apply lookup_insert_eq|by apply not_eq_sym]. }
  apply wp_unless. eapply wp_mono.
  { apply wp_processTransferFee; rewrite ?E2'; [by rewrite E2|done|done| |done|done]. cbn. rewrite Osb. apply (py_source _ Hpy). }
  intros [?|[sent3 sb3]] s3; [done|]. cbn [accepted fst snd]. intros (fb & fs & Hch & _).
  destruct (halfway_charged s s1 s2' s3 sb db fb fs sb3 Hpy Csb Osb Odb Hp Hne Hx ltac:(by rewrite E2') Hch) as (fb0 & Hhw).
  clear Hch. pose proof Hhw as []. assert (Hs3 : supply_ok (bal s3)) by (intros a; rewrite hw_total0; apply (py_supply _ Hpy)).
  assert (Ksb : balanceID sb3 = balanceID sb /\ balanceAsset sb3 = balanceAsset sb /\ balanceAccount sb3 = source)
    by (destruct hw_frame0 as [[_ ->]|(_ & -> & _)]; done). destruct Ksb as (Ki & Ka & Ko).
  xstep. apply wp_keepsDb; [auto with pay|]. intros da s3' E3. xstep.
  eapply wp_mono; [apply wp_getActualFee|]. intros dFee s3'' (E3' & V1 & V2). rewrite E3 in E3'.
  destruct (_ || _) eqn:Efa; [by xstep|]. propify. apply wp_unless. eapply wp_mono.
  { apply wp_processDestinationFee; rewrite ?E3'; try done;
      [apply (py_destFee _ Hpy)|by rewrite Ki|by rewrite Ka|rewrite Ko; apply (py_source _ Hpy)|by rewrite Ka]. }
  intros [?|sent4] s4; [done|]. cbn [accepted]. rewrite E3'. intros (R4 & T4 & (fd & Hfd & C1 & C2) & Hoth). xstep.
  apply wp_keepsDb; [auto with pay|]. intros pid s5 E5. apply wp_unless.
  apply wp_keepsDb; [auto with pay|]. intros [?|[]] s6 E6; [done|]. unfold accept. xstep. cbn [accepted].
  assert (E64 : lsDb s6 = lsDb s4) by congruence. rewrite Ki in Hoth.
  eapply (halfway_paid s s1 s3 s6 sb db fb0 sb3 fs fd); rewrite ?E64; done.
Qed.

(** A payment has the destination of its frame in the response. *)
Lemma afterTransfer_destination sa sent sb db s resp s' :
  afterTransfer env op sa sent sb db s = Ret (inr resp) s' -> respDestinationBalance resp = balanceID db.
Proof.
  unfold afterTransfer, unless, refuse, accept. intros (? & ? & _ & ([?|[? ?]] & ? & _ & H)%bind_inv)%bind_inv; [done|].
  apply bind_inv in H as (? & ? & _ & (? & ? & _ & H)%bind_inv). case_match; [done|].
  apply bind_inv in H as ([?|?] & ? & _ & H); [done|].
  apply bind_inv in H as (? & ? & _ & ([?|?] & ? & _ & H)%bind_inv); [done|]. by injection H as <- _.
Qed.

Lemma processTransfer_frames payer from to x u s t from' to' s' :
  processTransfer env payer from to x u s = Ret (inr (t, from', to')) s' -> balanceID to' = balanceID to.
Proof.
  unfold processTransfer, refuse, accept. intros ([[[res v] f] g] & s1 & H1 & H2)%bind_inv.
  assert (balanceID g = balanceID to).
  { revert H1. unfold processTransferV2, tryCharge. destruct (amount from <? x); cbn [negb]; [intros H1; by inversion H1|].
    intros (? & ? & _ & H1)%bind_inv. destruct (tryFundAccount x to) as [ok to1] eqn:Ef.
    assert (E : balanceID to1 = balanceID to).
    { revert Ef. unfold tryFundAccount. repeat case_match; by intros [= _ <-]. }
    rewrite <- E. clear E Ef. destruct ok; cbn [negb] in H1; [|by inversion H1].
    apply bind_inv in H1 as (? & ? & _ & ([ok w] & ? & _ & H1)%bind_inv). destruct ok; cbn [negb] in H1; [|by inversion H1].
    case_match; [by inversion H1|]. apply bind_inv in H1 as (? & ? & _ & H1). by inversion H1. }
  destruct (errorCode res); [done|]. destruct (safeSum u v) as [[] ?]; [|done]. by inversion H2; subst.
Qed.

Lemma wp_doApplyPayment s : payable s ->
  wp mayThrow (doApplyPayment env op) (accepted (fun resp s' =>
    (shouldUse env FIX_PAYMENT_V2_SEND_TO_SELF = true -> respDestinationBalance resp <> sourceBalanceID op) /\
    (respDestinationBalance resp <> sourceBalanceID op -> paid s resp s'))) s.
Proof.
  intros Hpy. unfold doApplyPayment, refuse. do 2 xstep.
  destruct (bal s !! sourceBalanceID op) as [sb|] eqn:Esb; [|by xstep].
  case_bool_decide as Osb; cbn [negb]; [|by xstep].
  pose proof (ro_id _ _ (py_rows _ Hpy _ _ Esb)) as Isb.
  assert (Csb : current (bal s) sb) by (unfold current; by rewrite Isb).
  apply wp_unless. eapply wp_mono; [by apply wp_tryLoadDestinationBalance|].
  intros [?|db] s1; [done|]. cbn [accepted]. intros [Hp Odb].
  destruct (isSendToSelf env op (balanceID db)) eqn:Eself; [by xstep|].
  apply wp_unless. apply wp_keepsDb; [auto with pay|]. intros [?|[]] s1' E1; [done|]. xstep.
  apply wp_keepsDb; [auto with pay|]. intros sa s1'' E1'.
  assert (E1s : lsDb s1'' = lsDb s1) by congruence. clear E1 E1'. pose proof Hp as [].
  apply wp_unless. destruct (decide (balanceID db = sourceBalanceID op)) as [Eid|Hne].
  - (* to oneself, before the fix *)
    unfold wp. destruct (processTransfer _ _ _ _ _ _ _) as [[?|[[sent sb'] db']] s2|] eqn:Et; [done| |done].
    apply processTransfer_frames in Et. unfold wp. destruct (afterTransfer _ _ _ _ _ _ _) as [[?|resp] s3|] eqn:Ea; [done| |done].
    apply afterTransfer_destination in Ea. cbn [accepted]. unfold isSendToSelf in Eself. split; [|congruence].
    intros Hfix. rewrite Hfix in Eself. cbn [andb] in Eself. by case_bool_decide.
  - assert (Hs1 : supply_ok (bal s1)) by (intros a; rewrite pb_total0; apply (py_supply _ Hpy)).
    eapply wp_mono.
    { apply (wp_processTransfer env sa sb db (paymentAmount op) 0 s1''); rewrite ?E1s; try done;
        [by apply pb_keeps0|rewrite Isb; by apply not_eq_sym|apply (py_amount _ Hpy)]. }
    intros [?|[[sent sb'] db']] s2; [done|]. cbn [accepted fst snd]. rewrite E1s. intros (Hx & -> & -> & E2).
    pose proof (wp_afterTransfer s s1 s2 sb db sa sent Hpy Csb Isb Osb Odb) as Hw.
    rewrite Isb in Hw. specialize (Hw ltac:(congruence) ltac:(congruence) Hx E2). revert Hw. unfold wp.
    destruct (afterTransfer _ _ _ _ _ _ _) as [[?|resp] s3|] eqn:Ea; [done| |done].
    apply afterTransfer_destination in Ea. cbn [accepted]. intros Hpd. split; [|done]. intros _. cbn in Ea. congruence.
Qed.

(** C11. A payment moves funds and makes none.  When [doApply] accepts a payment between accounts other than the one for
    commissions, and the destination is not the source balance itself, which no payment can have once
    FIX_PAYMENT_V2_SEND_TO_SELF is in use, there is as much of every asset as before; the source balance has lost the
    amount, and the fee of the destination when it pays for it; its own fee is in the asset the operation names and
    was taken from the source balance, or when that is of another asset from one balance of the payer in that asset;
    the destination has got the amount less its fee when it pays it itself; neither fee is more than what the
    operation agrees to; and all other balances, those of the payer too, except those for commissions, are as they
    were. *)
Theorem payment_moves_funds s resp s' : payable s ->
  doApplyPayment env op s = Ret (inr resp) s' ->
  (shouldUse env FIX_PAYMENT_V2_SEND_TO_SELF = true -> respDestinationBalance resp <> sourceBalanceID op) /\
  (respDestinationBalance resp <> sourceBalanceID op -> paid s resp s').
Proof.
  intros Hpy E. pose proof (wp_doApplyPayment s Hpy) as Hwp. unfold wp in Hwp. by rewrite E in Hwp.
Qed.

End apply.
