(* ===== verification/PaymentScenarios.v ===== *)
(** * Payments and statistics on concrete tables

    Witnesses of the theorems on statistics, limits and payments, and runs in which the code
    does not do what it is meant to do. *)

From Stdlib Require Import ZArith Lia String.
From stdpp Require Import base tactics gmap option list.
From S2P Require Import Prelude ScpTypes LedgerTypes LedgerDelta UtilTypes Balance Offer OfferExchange CreateOffer.
From S2P Require Import ExchangeFacts ExchangeInv OfferTheorems OfferScenarios Calendar Statistics StatisticsFacts StatisticsTheorems LimitsTheorems.
From S2P Require Import AccountManager Payment PaymentTheorems.

Open Scope Z_scope.

(** ** Dates *)

(** Noon of a day of the month [mon] (from 0) of the year [y]. *)
Definition noon (y mon mday : Z) : Z := timegm (mkTm (y - 1900) mon mday 12 0 0 0 0).

(** The calendar at the ends of months and years, leap ones included. *)
Lemma calendar_examples :
  map (fun t => (tm_year (gmtime t) + 1900, tm_mon (gmtime t), tm_mday (gmtime t), tm_wday (gmtime t), tm_yday (gmtime t)))
    [0; noon 2000 1 29; noon 2017 0 1; noon 2020 11 31; noon 2100 2 1] =
  [(1970, 0, 1, 4, 0); (2000, 1, 29, 2, 59); (2017, 0, 1, 0, 0); (2020, 11, 31, 4, 365); (2100, 2, 1, 1, 59)].
Proof. by vm_compute. Qed.

(** From a Sunday to the next one, over the end of a year: seven days have passed, and
    [weekPassed] says that no week has; within a year it does say so.  Two years later it
    still says no. *)
Lemma week_over_new_year :
  weekPassed (gmtime (noon 2020 11 27)) (gmtime (noon 2021 0 3)) = inr (false, lastOfYear (gmtime (noon 2020 11 27))) /\
  weekPassed (gmtime (noon 2020 11 20)) (gmtime (noon 2020 11 27)) = inr (true, gmtime (noon 2020 11 20)) /\
  weekPassed (gmtime (noon 2018 11 31)) (gmtime (noon 2020 0 1)) = inr (false, lastOfYear (gmtime (noon 2018 11 31))).
Proof. by vm_compute. Qed.

(** What was spent in the last week of a year still counts a week later. *)
Lemma week_counts_twice :
  statsRun [Spend (noon 2020 11 27) 70; Spend (noon 2021 0 3) 50] noOutcomes =
    Some (mkOutcomes 50 120 50 50 (noon 2021 0 3)).
Proof. by vm_compute. Qed.

(** An amount that is taken back in the next month, but in the same week, goes on counting
    for the week. *)
Lemma undone_but_counted :
  statsRun [Spend (noon 2020 8 30) 70; Undo (noon 2020 9 1) (noon 2020 8 30) 70] noOutcomes =
    Some (mkOutcomes 0 70 0 0 (noon 2020 9 1)).
Proof. by vm_compute. Qed.

Definition spending : list StatsEvent :=
  [Spend (noon 2020 5 1) 10; Spend (noon 2020 5 2) 20; Undo (noon 2020 5 2) (noon 2020 5 1) 10; Spend (noon 2020 5 9) 5].

Lemma statistics_refine_history_witness :
  exists s, statsRun spending noOutcomes = Some s /\ isValidStatsV2 s = true /\ updatedAt s = lastTime 0 spending /\
    dailyOutcome s = spentIn Day (updatedAt s) [(noon 2020 5 9, 5); (noon 2020 5 2, 20)] /\
    monthlyOutcome s = spentIn Month (updatedAt s) [(noon 2020 5 9, 5); (noon 2020 5 2, 20)] /\
    annualOutcome s = spentIn Year (updatedAt s) [(noon 2020 5 9, 5); (noon 2020 5 2, 20)] /\
    spentIn Week (updatedAt s) [(noon 2020 5 9, 5); (noon 2020 5 2, 20)] <= weeklyOutcome s /\
    (forall y, Forall (regular y) spending ->
       weeklyOutcome s = spentIn Week (updatedAt s) [(noon 2020 5 9, 5); (noon 2020 5 2, 20)]).
Proof.
  apply (statistics_refine_history spending); [by vm_compute| |by vm_compute].
  repeat split; by vm_compute.
Defined.

(** ** A market with limits *)

(** The limits of everybody, more generous ones of account 1, and limits in BTC. *)
Definition someLimits : list LimitsV2 :=
  [mkLimits None None SPEND USD true 100 300 500 1000;
   mkLimits None (Some 1%N) SPEND USD true 200 600 1000 2000;
   mkLimits None None PAYMENT_OUT BTC false 40 40 40 40].

Definition opNumber (o : StatsOpType) : N :=
  match o with PAYMENT_OUT => 0 | WITHDRAW => 1 | SPEND => 2 | DEPOSIT => 3 | PAYOUT => 4 end.

Definition statsAt (t : Z) : StatsEnv := mkStatsEnv t someLimits opNumber (fun _ => Some (noon 2020 5 1)).

Definition ledger (d : Db) : LState := mkLState d ∅ ∅ ∅ ∅ (mkHeader 9 [] []).

(** The market of [OfferScenarios] with a price of 3 USD for a BTC. *)
Definition rows (bs : list Balance) : gmap N Balance := list_to_map (map (fun b => (balanceID b, b)) bs).
Definition shop : Db :=
  mkDb (rows [mkBalance 10 1 BTC 1000 0; mkBalance 11 1 USD 1000 0; mkBalance 20 2 BTC 1000 0;
              mkBalance 21 2 USD 1000 0; mkBalance 90 9 BTC 0 0]%N)
    ∅ {[ (BTC, USD) := mkPair BTC USD (3 * ONE) 0 0 true false ]}.

Lemma shop_inv t : stats_inv t (fun _ => []) (ledger shop).
Proof.
  split; cbn [ledger lsStatsV2 lsPending lsDb].
  - intros i r Hi. by rewrite lookup_empty in Hi.
  - intros i j r r' Hi. by rewrite lookup_empty in Hi.
  - split; [by vm_compute|]. intros i [r Hi]. by rewrite lookup_empty in Hi.
  - done.
  - intros q i [y Hy]. by rewrite lookup_empty in Hy.
  - intros k p Hk. unfold shop in Hk. cbn [dbPairs] in Hk. apply lookup_singleton_Some in Hk as [_ <-].
    by vm_compute.
Qed.

Definition spendBTC (x : Z) (request : option Z) (s : LState) : outcome LState (StatsResult * Z) :=
  addStatsV2 (statsAt (noon 2020 5 1)) SpendPAYMENT x 0 1 GENERAL BTC request s.

Definition afterL {A} (o : outcome LState A) : LState := match o with Ret _ s | Exn _ s => s end.
Definition valueL {A} (o : outcome LState A) : option A := match o with Ret a _ => Some a | Exn _ _ => None end.

(** Account 1 may spend 40 BTC, that is 120 USD: more than others may, and no more. *)
Lemma spending_within_limits :
  valueL (spendBTC 40 None (ledger shop)) = Some (STATS_SUCCESS, 120) /\
  valueL (spendBTC 41 None (ledger shop)) = Some (LIMITS_V2_EXCEEDED, 41) /\
  valueL (addStatsV2 (statsAt (noon 2020 5 1)) SpendPAYMENT 34 0 2 GENERAL BTC None (ledger shop)) =
    Some (LIMITS_V2_EXCEEDED, 102).
Proof. by vm_compute. Qed.

Lemma limits_are_kept_witness :
  exists res u' s' H', spendBTC 40 (Some 7) (ledger shop) = Ret (res, u') s' /\
    stats_inv (noon 2020 5 1) H' s' /\ lsDb s' = shop /\
    (res = STATS_SUCCESS -> forall l, l ∈ someLimits -> applies (spendOps SpendPAYMENT) BTC 1%N GENERAL l ->
     exists l0 i r, l0 ∈ someLimits /\ applies (spendOps SpendPAYMENT) BTC 1%N GENERAL l0 /\
       limitsKey opNumber l0 = limitsKey opNumber l /\ (rank l0 <= rank l)%N /\
       lsStatsV2 s' !! i = Some r /\ limRow 1%N l0 r /\
       forall y, amountFor BTC 40 l0 shop = Some y ->
         H' i = [(noon 2020 5 1, y)] /\ forall k, spentIn k (noon 2020 5 1) (H' i) <= limitOf k l0).
Proof.
  apply (limits_are_kept (statsAt (noon 2020 5 1)) SpendPAYMENT 40 0 1%N GENERAL BTC (Some 7) (fun _ => []) (ledger shop));
    [apply shop_inv|by vm_compute|by vm_compute|by vm_compute|].
  intros q i _. apply lookup_empty.
Defined.

(** 30 BTC are spent for request 7; two days later 5 BTC are spent without a request. *)
Definition spent30 : LState := afterL (spendBTC 30 (Some 7) (ledger shop)).
Definition spent35 : LState :=
  afterL (addStatsV2 (statsAt (noon 2020 5 3)) SpendPAYMENT 5 0 1 GENERAL BTC None spent30).

Definition entered (t x : Z) (request : option Z) (s : LState) : BookEntry :=
  mkBookEntry request t (amountsFor 1%N BTC x
    (loadLimits opNumber someLimits (spendOps SpendPAYMENT) BTC 1%N GENERAL) s).

Definition shopBooks : list BookEntry := [entered (noon 2020 5 3) 5 None spent35; entered (noon 2020 5 1) 30 (Some 7) spent30].

Lemma shop_books : books shopBooks (noon 2020 5 3) spent35.
Proof.
  apply (books_add [entered (noon 2020 5 1) 30 (Some 7) spent30] spent30 (statsAt (noon 2020 5 3)) SpendPAYMENT 5 0 1%N GENERAL
    BTC None 15 spent35);
    [|by vm_compute|by vm_compute|by vm_compute|discriminate|by vm_compute].
  apply (books_later _ (noon 2020 5 1)); [|by vm_compute].
  apply (books_add [] (ledger shop) (statsAt (noon 2020 5 1)) SpendPAYMENT 30 0 1%N GENERAL BTC (Some 7) 90 spent30);
    [|by vm_compute|by vm_compute|by vm_compute|by intros e q ?%elem_of_nil|by vm_compute].
  apply books_begin; [apply shop_inv|done].
Qed.

(** Request 7 is taken back on Saturday of the same week: what was spent on Wednesday stays. *)
Lemma revert_undoes_add_witness :
  exists s2, revertStatsV2 (statsAt (noon 2020 5 6)) 7 spent35 = Ret () s2 /\
    stats_inv (noon 2020 5 6) (historyOf [entered (noon 2020 5 3) 5 None spent35]) s2 /\ lsDb s2 = shop /\
    (forall q' i, lsPending s2 !! (q', i) = None) /\
    forall i r, lsStatsV2 spent35 !! i = Some r -> exists r', lsStatsV2 s2 !! i = Some r'.
Proof.
  destruct (revert_undoes_add shopBooks (noon 2020 5 3) spent35 (statsAt (noon 2020 5 6)) 7) as (s2 & H1 & H2 & H3 & H4 & H5);
    [apply shop_books|by vm_compute|by vm_compute| |].
  - intros e q [->|[->|[]%elem_of_nil]%elem_of_cons]%elem_of_cons Eq; [discriminate|reflexivity].
  - exists s2. split_and!; [done|exact H2|done|intros q' i; rewrite H3; by destruct (decide (q' = 7))|].
    intros i r Hr. destruct (H5 i r Hr) as (r' & Hr' & _). by exists r'.
Defined.

(** The sums of account 1 in USD before and after: of the day, the week, the month and the year. *)
Definition sumsOf (i : Z) (s : LState) : option (Z * Z * Z * Z) :=
  (fun r => let o := statsOutcomes r in (dailyOutcome o, weeklyOutcome o, monthlyOutcome o, annualOutcome o)) <$> lsStatsV2 s !! i.

Lemma sums_after_revert :
  map (fun i => (sumsOf i spent35, sumsOf i (afterL (revertStatsV2 (statsAt (noon 2020 5 6)) 7 spent35)))) [1; 2] =
    [(Some (5, 35, 35, 35), Some (0, 5, 5, 5)); (Some (15, 105, 105, 105), Some (0, 15, 15, 15))].
Proof. by vm_compute. Qed.

(** ** Payments *)

(** Account 9 gets the commissions; a payment costs the payer [out] and the recipient [inc]
    units of the asset of the payment, and statistics are in USD. *)
Definition payEnv (source : AccountID) (out inc : Z) : PayEnv :=
  mkPayEnv (marketEnv source) (statsAt (noon 2020 5 1)) (fun _ => true) (Some USD) (fun _ => None) (fun _ => None)
    (fun t asset _ _ _ => Some (asset, mkFee match t with OUTGOING => out | INCOMING => inc end 0)) 0%N.

Definition payBTC (from : BalanceID) (to : PaymentDestination) (x : Z) (forDest : bool) (ref : list N) : PaymentOpV2 :=
  mkPayment from to x (mkFeeData 0 5 BTC) (mkFeeData 0 5 BTC) forDest ref.

Definition pay (source : AccountID) (out inc : Z) (op : PaymentOpV2) (s : LState) :=
  doApplyPayment (payEnv source out inc) op s.

Definition amountOf (i : BalanceID) (s : LState) : option Z := amount <$> dbBalances (lsDb s) !! i.

Definition first : PaymentOpV2 := payBTC 10 (ToAccount 2) 20 false [].

Lemma payment_moves_funds_witness :
  match pay 1 2 3 first (ledger shop) with
  | Ret (inr resp) s' => paid (payEnv 1 2 3) first (ledger shop) resp s' /\
      (amountOf 10 s', amountOf 20 s', amountOf 90 s') = (Some 978, Some 1017, Some 5)
  | _ => False
  end.
Proof.
  destruct (pay 1 2 3 first (ledger shop)) as [[c|resp] s'|e s'] eqn:E; try by vm_compute in E.
  split; [|revert E; vm_compute; intros [= _ <-]; by vm_compute].
  destruct (payment_moves_funds (payEnv 1 2 3) first (ledger shop) resp s') as [Hself Hpaid]; [|exact E|].
  - assert (Hr : bookCheck 9 shop = true) by by vm_compute. apply bookCheck_sound in Hr as [Hrows Hsupply _ _ _]. clear E.
    split; [exact Hrows|exact Hsupply|by vm_compute|by vm_compute|by vm_compute|discriminate|discriminate].
  - apply Hpaid, Hself. reflexivity.
Defined.

(** The same payment with a fee of 2 USD: the other balance of the payer is charged. *)
Lemma fee_of_another_asset :
  let env := mkPayEnv (marketEnv 1) (statsAt (noon 2020 5 1)) (fun _ => true) (Some USD) (fun _ => None) (fun _ => None)
    (fun t asset _ _ _ => match t with OUTGOING => Some (USD, mkFee 2 0) | INCOMING => None end) 0%N in
  let s' := afterL (doApplyPayment env (mkPayment 10 (ToAccount 2) 20 (mkFeeData 0 5 USD) (mkFeeData 0 5 BTC) false [])
    (ledger shop)) in
  (amountOf 10 s', amountOf 11 s', amountOf 20 s', total USD (dbBalances (lsDb s'))) =
    (Some 980, Some 998, Some 1020, total USD (dbBalances shop)).
Proof. by vm_compute. Qed.

(** A fee of a payment to the account for commissions comes from nothing: the frame of the
    recipient and the frame for the commission are two copies of one row, and the one that
    was not charged is stored last. *)
Lemma commission_from_nothing :
  let s' := afterL (pay 1 0 3 (payBTC 10 (ToAccount 9) 20 false []) (ledger shop)) in
  valueL (pay 1 0 3 (payBTC 10 (ToAccount 9) 20 false []) (ledger shop)) =
    Some (inr (mkResponse 9 90 BTC 60 1 0 0)) /\
  (amountOf 10 s', amountOf 90 s') = (Some 980, Some 23) /\
  total BTC (dbBalances (lsDb s')) = total BTC (dbBalances shop) + 3.
Proof. by vm_compute. Qed.

(** The amount for the statistics of the first version: [calculateUniversalAmount] converts
    into the asset of the payment, [addStats] into the asset of the statistics. *)
Lemma universal_amount_backwards :
  valueL (calculateUniversalAmount (payEnv 1 0 0) BTC 30 (ledger shop)) = Some (true, 10) /\
  valueL (addStats (payEnv 1 0 0) (mkAccount 1 GENERAL) (mkBalance 10 1 BTC 1000 0) 30
    (set_lsStats {[ 1%N := noOutcomes ]} (ledger shop))) = Some (TR_SUCCESS, 90).
Proof. by vm_compute. Qed.

(** The second payment with a reference is not refused as a duplicate: it throws, and so
    does one of another account. *)
Lemma reference_of_nobody :
  let once := afterL (pay 1 0 0 (payBTC 10 (ToAccount 2) 1 false [1%N]) (ledger shop)) in
  lsReferences once = {[ (0%N, [1%N]) ]} /\
  (exists s, pay 1 0 0 (payBTC 10 (ToAccount 2) 1 false [1%N]) once = Exn sqlError s) /\
  (exists s, pay 2 0 0 (payBTC 20 (ToAccount 1) 1 false [1%N]) once = Exn sqlError s).
Proof.
  split; [by vm_compute|]. split; eexists; vm_compute; reflexivity.
Qed.

(** A payment to oneself, in a ledger before the fix: the amount is made from nothing. *)
Definition beforeFix (env : PayEnv) : PayEnv :=
  mkPayEnv (shared env) (forStats env) (fun _ => false) (loadStatsAsset env) (accountLimits env) (accountTypeLimits env)
    (feeFor env) (defaultSender env).

Lemma payment_to_self_before_fix :
  let s := set_lsStats {[ 1%N := noOutcomes ]} (ledger shop) in
  let op := payBTC 10 (ToAccount 1) 20 false [] in
  doCheckValidPayment op = None /\
  amountOf 10 (afterL (doApplyPayment (beforeFix (payEnv 1 0 0)) op s)) = Some 1020 /\
  valueL (doApplyPayment (payEnv 1 0 0) op s) = Some (inl PAY_MALFORMED).
Proof. by vm_compute. Qed.
