(* ===== verification/LruCache.v ===== *)
(** * The cache of the least recently used

    [lib/util/lrucache.hpp], which the herder keeps quorum sets, transaction sets and
    nodes in.  [_cache_items_list] has the items, the one used last in front;
    [_cache_items_map] has an iterator into the list for every key of it and is what
    keys are looked up in: here it is the list itself, whose keys are distinct. *)

From Stdlib Require Import ZArith Lia String.
From stdpp Require Import base tactics gmap option list.
From S2P Require Import Prelude.

Section lru.
Context {K V : Type} `{EqDecision K}.

Record lru_cache := mkLru {
  _max_size : nat;
  _cache_items_list : list (K * V) }.

Definition lru_new (max_size : nat) : lru_cache := mkLru max_size [].

(** [_cache_items_map.find] *)
Fixpoint findItem (key : K) (l : list (K * V)) : option V :=
  match l with
  | [] => None
  | (k, v) :: l' => if decide (k = key) then Some v else findItem key l'
  end.

(** [_cache_items_list.erase] of the item of a key. *)
Fixpoint eraseItem (key : K) (l : list (K * V)) : list (K * V) :=
  match l with
  | [] => []
  | (k, v) :: l' => if decide (k = key) then l' else (k, v) :: eraseItem key l'
  end.

Definition lru_put (key : K) (value : V) (c : lru_cache) : lru_cache :=
  let l := (key, value) :: eraseItem key (_cache_items_list c) in
  mkLru (_max_size c) (if (_max_size c <? length l)%nat then removelast l else l).

Definition lru_get (key : K) (c : lru_cache) : exn + (V * lru_cache) :=
  match findItem key (_cache_items_list c) with
  | None => inl (RuntimeError "There is no such key in cache")
  | Some v => inr (v, mkLru (_max_size c) ((key, v) :: eraseItem key (_cache_items_list c)))
  end.

Definition lru_erase_if_exists (key : K) (c : lru_cache) : lru_cache :=
  mkLru (_max_size c) (eraseItem key (_cache_items_list c)).

Definition lru_clear (c : lru_cache) : lru_cache := mkLru (_max_size c) [].

Definition lru_exists (key : K) (c : lru_cache) : bool :=
  match findItem key (_cache_items_list c) with Some _ => true | None => false end.

Definition lru_size (c : lru_cache) : nat := length (_cache_items_list c).

(** ** What is found *)

Implicit Types (l : list (K * V)) (c : lru_cache).

Record lru_ok (c : lru_cache) : Prop := {
  lru_keys : NoDup (_cache_items_list c).*1;
  lru_bound : (lru_size c <= _max_size c)%nat }.

Lemma findItem_elem k l : NoDup l.*1 -> forall v, findItem k l = Some v <-> (k, v) ∈ l.
Proof.
  induction l as [|[k' v'] l IH]; intros Hl v; simpl; [by rewrite elem_of_nil|].
  apply NoDup_cons in Hl as [Hk Hl]. rewrite elem_of_cons. case_decide as E; subst.
  - split; [intros [= ->]; auto|]. intros [[= ->]|Hin]; [done|].
    destruct Hk. apply list_elem_of_fmap. by exists (k, v).
  - rewrite (IH Hl). split; [auto|]. intros [[= ? ?]|?]; [congruence|done].
Qed.

Lemma findItem_None k l : findItem k l = None <-> k ∉ l.*1.
Proof.
  induction l as [|[k' v'] l IH]; simpl; [set_solver|].
  rewrite not_elem_of_cons. case_decide; naive_solver.
Qed.

Lemma findItem_key k v l : findItem k l = Some v -> k ∈ l.*1.
Proof.
  intros E. destruct (decide (k ∈ l.*1)) as [|N]; [done|]. apply findItem_None in N. congruence.
Qed.

Lemma eraseItem_fresh k l : k ∉ l.*1 -> eraseItem k l = l.
Proof.
  induction l as [|[k' v'] l IH]; simpl; [done|]. rewrite not_elem_of_cons. intros [? ?].
  destruct (decide (k' = k)); [congruence|]. by rewrite IH.
Qed.

Lemma eraseItem_app k l l' : eraseItem k (l ++ l') =
  if decide (k ∈ l.*1) then eraseItem k l ++ l' else l ++ eraseItem k l'.
Proof.
  induction l as [|[k' v'] l IH]; simpl.
  { destruct (decide (k ∈ [])) as [?%elem_of_nil|]; done. }
  rewrite IH. destruct (decide (k' = k)) as [->|Hne]; repeat case_decide; try done; set_solver.
Qed.

Lemma eraseItem_sublist k l : eraseItem k l `sublist_of` l.
Proof. induction l as [|[k' v'] l IH]; simpl; [done|]. case_decide; by constructor. Qed.

Lemma eraseItem_keys k l k' : NoDup l.*1 -> k' ∈ (eraseItem k l).*1 <-> k' ∈ l.*1 /\ k' <> k.
Proof.
  induction l as [|[k1 v1] l IH]; intros Hl; simpl; [set_solver|].
  apply NoDup_cons in Hl as [Hk Hl]. case_decide; subst; simpl in *; [set_solver|].
  rewrite !elem_of_cons, (IH Hl). naive_solver.
Qed.

Lemma eraseItem_length k l : k ∈ l.*1 -> S (length (eraseItem k l)) = length l.
Proof.
  induction l as [|[k1 v1] l IH]; simpl; [by intros ?%elem_of_nil|]. rewrite elem_of_cons.
  case_decide; [done|]. intros [?|?]; [congruence|]. simpl. by rewrite IH.
Qed.

Lemma findItem_erase k l k' : NoDup l.*1 ->
  findItem k' (eraseItem k l) = if decide (k' = k) then None else findItem k' l.
Proof.
  intros Hl. case_decide as E; subst.
  - apply findItem_None. rewrite eraseItem_keys by done. tauto.
  - induction l as [|[k1 v1] l IH]; simpl; [done|]. apply NoDup_cons in Hl as [_ Hl].
    destruct (decide (k1 = k)); simpl; subst; [by rewrite decide_False|].
    case_decide; [done|]. by apply IH.
Qed.

Lemma sublist_keys l l' : l `sublist_of` l' -> l.*1 `sublist_of` l'.*1.
Proof. induction 1; by constructor. Qed.

Lemma NoDup_front k v l : NoDup l.*1 -> NoDup ((k, v) :: eraseItem k l).*1.
Proof.
  intros Hl. simpl. apply NoDup_cons. split; [rewrite eraseItem_keys by done; tauto|].
  eapply sublist_NoDup; [apply Hl|]. apply sublist_keys, eraseItem_sublist.
Qed.

Lemma removelast_firstn l : removelast l = take (length l - 1) l.
Proof.
  destruct l as [|x l _] using rev_ind; [done|]. rewrite removelast_last, length_app. simpl.
  rewrite take_app_le by lia. by rewrite take_ge by lia.
Qed.

Lemma lru_put_take k v c : lru_ok c ->
  _cache_items_list (lru_put k v c) = take (_max_size c) ((k, v) :: eraseItem k (_cache_items_list c)).
Proof.
  intros [Hk Hb]. unfold lru_put, lru_size in *. cbn [_cache_items_list].
  pose proof (sublist_length _ _ (eraseItem_sublist k (_cache_items_list c))) as Hle.
  case_match eqn:E; [apply Nat.ltb_lt in E|apply Nat.ltb_ge in E; by rewrite take_ge].
  rewrite removelast_firstn. f_equal. simpl length in *. lia.
Qed.

Lemma lru_put_ok k v c : lru_ok c -> lru_ok (lru_put k v c).
Proof.
  intros Hc. pose proof (lru_put_take k v c Hc) as E. destruct Hc as [Hk Hb]. split.
  - rewrite E. eapply sublist_NoDup; [by apply NoDup_front|]. apply sublist_keys, sublist_take.
  - unfold lru_size. rewrite E, length_take. apply Nat.le_min_l.
Qed.

Lemma lru_get_ok k c v c' : lru_ok c -> lru_get k c = inr (v, c') -> lru_ok c'.
Proof.
  intros [Hk Hb] E. unfold lru_get in E. destruct (findItem k _) eqn:F; [|done]. injection E as <- <-.
  split; cbn [_cache_items_list _max_size]; [by apply NoDup_front|]. unfold lru_size in *. simpl.
  by rewrite eraseItem_length by (by eapply findItem_key).
Qed.

(** A hit finds what it did before. *)
Lemma lru_get_find k c v c' : lru_ok c -> lru_get k c = inr (v, c') ->
  findItem k (_cache_items_list c) = Some v /\ _max_size c' = _max_size c /\ lru_size c' = lru_size c /\
  forall k', findItem k' (_cache_items_list c') = findItem k' (_cache_items_list c).
Proof.
  intros [Hk Hb] E. unfold lru_get in E. destruct (findItem k _) eqn:F; [|done]. injection E as -> <-.
  split; [done|]. split; [done|]. split.
  - unfold lru_size. simpl. apply eraseItem_length. by eapply findItem_key.
  - intros k'. cbn [_cache_items_list findItem]. rewrite findItem_erase by done.
    repeat case_decide; congruence.
Qed.

(** A cache with room forgets nothing. *)
Lemma lru_put_find k v c : lru_ok c -> (lru_size c < _max_size c)%nat -> forall k',
  findItem k' (_cache_items_list (lru_put k v c)) =
  if decide (k' = k) then Some v else findItem k' (_cache_items_list c).
Proof.
  intros Hc Hr k'. rewrite lru_put_take by done. destruct Hc as [Hk _].
  pose proof (sublist_length _ _ (eraseItem_sublist k (_cache_items_list c))).
  unfold lru_size in *. rewrite take_ge by (simpl; lia). simpl. rewrite findItem_erase by done.
  repeat case_decide; congruence.
Qed.

(** What was just put is there. *)
Lemma lru_put_exists k v c : lru_ok c -> (0 < _max_size c)%nat -> lru_exists k (lru_put k v c) = true.
Proof.
  intros Hc Hm. unfold lru_exists. rewrite lru_put_take by done.
  destruct (_max_size c); [lia|]. simpl. by rewrite decide_True.
Qed.

(** ** The reference: an unbounded list of which the cache is the beginning *)

Inductive lruCall := Put (k : K) (v : V) | Get (k : K).

Definition callCache (x : lruCall) (c : lru_cache) : lru_cache :=
  match x with
  | Put k v => lru_put k v c
  | Get k => match lru_get k c with inr (_, c') => c' | inl _ => c end
  end.

(** Every item ever put, the one used last in front; a miss is no use. *)
Definition useItem (max : nat) (x : lruCall) (l : list (K * V)) : list (K * V) :=
  match x with
  | Put k v => (k, v) :: eraseItem k l
  | Get k => match findItem k (take max l) with
             | Some v => (k, v) :: eraseItem k l
             | None => l
             end
  end.

Lemma take_eraseItem n k l : NoDup l.*1 ->
  eraseItem k l = (if decide (k ∈ (take n l).*1) then eraseItem k (take n l) ++ drop n l
                   else take n l ++ eraseItem k (drop n l)).
Proof. intros _. rewrite <- (take_drop n l) at 1. apply eraseItem_app. Qed.

Lemma take_front n p k l : NoDup l.*1 ->
  take n (p :: eraseItem k l) = take n (p :: eraseItem k (take n l)).
Proof.
  intros Hl. destruct n as [|n]; [done|]. simpl take at 1 2. f_equal.
  rewrite (take_eraseItem (S n) k l) by done. case_decide as Hin.
  - pose proof (eraseItem_length _ _ Hin) as Hlen. rewrite length_take in Hlen.
    destruct (decide (length l <= S n)%nat).
    + by rewrite drop_ge, app_nil_r by lia.
    + rewrite take_app_le by lia. done.
  - rewrite (eraseItem_fresh k (take (S n) l)) by done.
    destruct (decide (length l <= S n)%nat).
    + rewrite (drop_ge l) by lia. simpl. by rewrite app_nil_r.
    + rewrite take_app_le; [done|]. rewrite length_take. lia.
Qed.

Lemma useItem_NoDup n x l : NoDup l.*1 -> NoDup (useItem n x l).*1.
Proof. intros Hl. unfold useItem. repeat case_match; [by apply NoDup_front..|done]. Qed.

Lemma callCache_use x c l : lru_ok c -> NoDup l.*1 -> _cache_items_list c = take (_max_size c) l ->
  lru_ok (callCache x c) /\ _max_size (callCache x c) = _max_size c /\
  _cache_items_list (callCache x c) = take (_max_size c) (useItem (_max_size c) x l).
Proof.
  intros Hc Hl E. destruct x as [k v|k]; cbn [callCache useItem].
  - split; [by apply lru_put_ok|]. split; [done|]. rewrite lru_put_take, E by done. by rewrite <- take_front.
  - destruct (lru_get k c) as [|[v c']] eqn:G.
    + unfold lru_get in G. rewrite E in G. by destruct (findItem k (take _ l)).
    + split; [by eapply lru_get_ok|]. unfold lru_get in G. rewrite E in G.
      destruct (findItem k (take (_max_size c) l)) as [w|] eqn:F; [|discriminate G].
      injection G as <- <-. split; [done|].
      cbn [_cache_items_list]. rewrite take_front by done. rewrite (take_ge ((k, w) :: _)); [done|].
      pose proof (eraseItem_length _ _ (findItem_key _ _ _ F)) as Hlen. simpl. rewrite Hlen, length_take. lia.
Qed.

(** After any puts and gets on a new cache it has exactly the items that were used last,
    as many as it may have, in the order of their last use. *)
Theorem lru_keeps_most_recent (n : nat) (calls : list lruCall) :
  let c := foldl (fun c x => callCache x c) (lru_new n) calls in
  lru_ok c /\ _max_size c = n /\
  _cache_items_list c = take n (foldl (fun l x => useItem n x l) [] calls).
Proof.
  cbv zeta. cut (forall c l, lru_ok c -> NoDup l.*1 -> _cache_items_list c = take (_max_size c) l ->
    let c' := foldl (fun c x => callCache x c) c calls in
    lru_ok c' /\ _max_size c' = _max_size c /\
    _cache_items_list c' = take (_max_size c) (foldl (fun l x => useItem (_max_size c) x l) l calls)).
  { intros H. apply (H (lru_new n) []); [split|..]; simpl; try constructor; [unfold lru_size; simpl; lia|].
    by rewrite take_nil. }
  induction calls as [|x calls IH]; intros c l Hc Hl E; simpl; [done|].
  destruct (callCache_use x c l Hc Hl E) as (Hc' & Hm & E').
  rewrite <- Hm. apply IH; [done|by apply useItem_NoDup|by rewrite Hm].
Qed.

End lru.

Arguments lru_cache : clear implicits.
Arguments lruCall : clear implicits.
