(* ===== verification/Floodgate.v ===== *)
(** * Flooding messages

    [overlay/Floodgate.cpp]: messages are passed on to every peer that is not known to
    have them.  A [Peer] is the address of the object of a connection; a null pointer
    is [None].  What the floodgate asks of the rest of the node is an argument: the
    peers of the overlay manager, which of them are authenticated, and the ledger of
    the herder.  [sha256] is the hash of the XDR form of a message. *)

From Stdlib Require Import ZArith Lia String.
From stdpp Require Import base tactics gmap option list.
From S2P Require Import Prelude ScpTypes.

Open Scope Z_scope.

Abbreviation Peer := N (only parsing).

Section floodgate.
Context {Msg : Type} (sha256 : Msg -> Hash).

Record FloodRecord := mkFloodRecord {
  recLedgerSeq : Z;
  recMessage : Msg;
  mPeersTold : gset (option Peer) }.

Record Floodgate := mkFloodgate {
  mFloodMap : gmap Hash FloodRecord;
  floodShuttingDown : bool }.

Definition newFloodRecord (msg : Msg) (ledger : Z) (peer : option Peer) : FloodRecord :=
  mkFloodRecord ledger msg (match peer with Some p => {[Some p]} | None => ∅ end).

Definition newFloodgate : Floodgate := mkFloodgate ∅ false.

(** [mPeersTold.insert] *)
Definition tell (peer : option Peer) (r : FloodRecord) : FloodRecord :=
  mkFloodRecord (recLedgerSeq r) (recMessage r) ({[peer]} ∪ mPeersTold r).

(** Whether [clearBelow] erases a record. *)
Definition obsolete (currentLedger : Z) (r : FloodRecord) : bool := u32 (recLedgerSeq r + 10) <? currentLedger.

Definition clearBelow (currentLedger : Z) (f : Floodgate) : Floodgate :=
  mkFloodgate (filter (fun p => obsolete currentLedger p.2 = false) (mFloodMap f)) (floodShuttingDown f).

Definition addRecord (currentLedgerSeq : Z) (msg : Msg) (peer : option Peer) (f : Floodgate) : bool * Floodgate :=
  if floodShuttingDown f then (false, f)
  else
    let index := sha256 msg in
    match mFloodMap f !! index with
    | None => (true, mkFloodgate (<[index := newFloodRecord msg currentLedgerSeq peer]> (mFloodMap f)) false)
    | Some r => (false, mkFloodgate (<[index := tell peer r]> (mFloodMap f)) false)
    end.

(** The loop of [broadcast] over the peers: those the message is sent to, in order. *)
Fixpoint tellLoop (isAuthenticated : Peer -> bool) (peers : list Peer) (r : FloodRecord) : list Peer * FloodRecord :=
  match peers with
  | [] => ([], r)
  | peer :: peers' =>
      if negb (bool_decide (Some peer ∈ mPeersTold r)) && isAuthenticated peer then
        let (sent, r') := tellLoop isAuthenticated peers' (tell (Some peer) r) in (peer :: sent, r')
      else tellLoop isAuthenticated peers' r
  end.

(** [std::map::insert] leaves the value of a key that is there. *)
Definition insertNew (index : Hash) (r : FloodRecord) (m : gmap Hash FloodRecord) : gmap Hash FloodRecord :=
  match m !! index with Some _ => m | None => <[index := r]> m end.

Definition broadcast (peers : list Peer) (isAuthenticated : Peer -> bool) (currentLedgerSeq : Z)
    (msg : Msg) (force : bool) (f : Floodgate) : list Peer * Floodgate :=
  if floodShuttingDown f then ([], f)
  else
    let index := sha256 msg in
    let record := newFloodRecord msg currentLedgerSeq None in
    let m := if bool_decide (mFloodMap f !! index = None) || force
             then insertNew index record (mFloodMap f) else mFloodMap f in
    let (sent, r) := tellLoop isAuthenticated peers (default record (m !! index)) in
    (sent, mkFloodgate (<[index := r]> m) false).

Definition getPeersKnows (h : Hash) (f : Floodgate) : gset (option Peer) :=
  match mFloodMap f !! h with Some r => mPeersTold r | None => ∅ end.

Definition shutdown (f : Floodgate) : Floodgate := mkFloodgate ∅ true.

(** ** Runs and what is known of them *)

Inductive FloodCall :=
| FAdd (ledger : Z) (msg : Msg) (peer : option Peer)
| FBroadcast (peers : list Peer) (auth : Peer -> bool) (ledger : Z) (msg : Msg) (force : bool)
| FClear (ledger : Z)
| FShutdown.

(** What happens between the node and its peers, and what the gate forgets. *)
Inductive FloodEvent :=
| Heard (h : Hash) (p : Peer)
| Sent (h : Hash) (p : Peer)
| Forgot (hs : gset Hash).

(** The peers that have sent a message or got it since it was last forgotten; the newest
    event comes first. *)
Fixpoint told (h : Hash) (tr : list FloodEvent) : gset Peer :=
  match tr with
  | [] => ∅
  | Heard h' p :: tr' | Sent h' p :: tr' => if decide (h = h') then {[p]} ∪ told h tr' else told h tr'
  | Forgot hs :: tr' => if decide (h ∈ hs) then ∅ else told h tr'
  end.

Definition floodCall (x : FloodCall) (s : Floodgate * list FloodEvent) : Floodgate * list FloodEvent :=
  let (f, tr) := s in
  match x with
  | FAdd l m p =>
      ((addRecord l m p f).2,
       match p with Some p => if floodShuttingDown f then tr else Heard (sha256 m) p :: tr | None => tr end)
  | FBroadcast ps auth l m force =>
      let r := broadcast ps auth l m force f in (r.2, map (Sent (sha256 m)) (reverse r.1) ++ tr)
  | FClear l => (clearBelow l f, Forgot (dom (mFloodMap f) ∖ dom (mFloodMap (clearBelow l f))) :: tr)
  | FShutdown => (shutdown f, Forgot (dom (mFloodMap f)) :: tr)
  end.

Definition floodRun (xs : list FloodCall) : Floodgate * list FloodEvent :=
  foldl (fun s x => floodCall x s) (newFloodgate, []) xs.

(** The gate knows what the trace says. *)
Definition gate_knows (f : Floodgate) (tr : list FloodEvent) : Prop :=
  forall h p, Some p ∈ getPeersKnows h f <-> p ∈ told h tr.

(** A gate that is shut down is empty. *)
Definition gate_shut (f : Floodgate) : Prop := floodShuttingDown f = true -> mFloodMap f = ∅.

(** Nobody is sent what they have sent or got. *)
Definition sent_fresh (tr : list FloodEvent) : Prop :=
  forall after h p before, tr = after ++ Sent h p :: before -> p ∉ told h before.

Lemma sent_fresh_cons x tr : sent_fresh tr ->
  match x with Sent h p => p ∉ told h tr | _ => True end -> sent_fresh (x :: tr).
Proof.
  intros Ht Hx after h p before E. destruct after as [|y after]; simpl in E; simplify_eq; [done|].
  by eapply Ht.
Qed.

Lemma told_other h h' ps tr : h <> h' -> told h (map (Sent h') ps ++ tr) = told h tr.
Proof. intros Hne. induction ps as [|p ps IH]; simpl; [done|]. by rewrite decide_False. Qed.

Lemma told_sent h ps tr p : p ∈ told h (map (Sent h) ps ++ tr) <-> p ∈ ps \/ p ∈ told h tr.
Proof.
  induction ps as [|q ps IH]; simpl; [set_solver|]. rewrite decide_True by done. set_solver.
Qed.

(** The loop of a broadcast: it tells the authenticated peers that were not told. *)
Lemma tellLoop_spec h auth ps : forall r tr,
  sent_fresh tr -> (forall p, Some p ∈ mPeersTold r <-> p ∈ told h tr) ->
  let (sent, r') := tellLoop auth ps r in
  sent_fresh (map (Sent h) (reverse sent) ++ tr) /\
  (forall p, Some p ∈ mPeersTold r' <-> p ∈ told h (map (Sent h) (reverse sent) ++ tr)) /\
  (forall p, p ∈ ps -> auth p = true -> Some p ∈ mPeersTold r').
Proof.
  induction ps as [|q ps IH]; intros r tr Hf Hk; simpl; [set_solver|].
  destruct (negb (bool_decide (Some q ∈ mPeersTold r)) && auth q) eqn:E.
  - propify. specialize (IH (tell (Some q) r) (Sent h q :: tr)).
    destruct (tellLoop auth ps (tell (Some q) r)) as [sent r']. destruct IH as (H1 & H2 & H3).
    + apply sent_fresh_cons; [done|]. by rewrite <- Hk.
    + intros p. simpl. rewrite decide_True by done. specialize (Hk p). set_solver.
    + rewrite reverse_cons, map_app, <- app_assoc. simpl. split; [done|]. split; [done|].
      intros p [->|Hin]%elem_of_cons Hp; [|by apply H3]. apply H2, told_sent. right. simpl.
      rewrite decide_True by done. set_solver.
  - specialize (IH r tr Hf Hk). destruct (tellLoop auth ps r) as [sent r']. destruct IH as (H1 & H2 & H3).
    split; [done|]. split; [done|]. intros p [->|Hin]%elem_of_cons Hp; [|by apply H3].
    apply H2, told_sent. right. apply Hk. destruct (decide (Some q ∈ mPeersTold r)); [done|].
    rewrite bool_decide_false, Hp in E by done. done.
Qed.

Lemma broadcast_record ps auth l m force f : floodShuttingDown f = false ->
  let r0 := default (newFloodRecord m l None) (mFloodMap f !! sha256 m) in
  broadcast ps auth l m force f =
    ((tellLoop auth ps r0).1, mkFloodgate (<[sha256 m := (tellLoop auth ps r0).2]> (mFloodMap f)) false).
Proof.
  intros E r0. unfold broadcast. rewrite E. unfold insertNew, r0.
  destruct (mFloodMap f !! sha256 m) as [r|] eqn:F.
  - rewrite bool_decide_false by done. destruct force; simpl; rewrite F; simpl;
      by destruct (tellLoop auth ps r).
  - rewrite bool_decide_true by done. simpl. rewrite lookup_insert_eq. simpl.
    destruct (tellLoop auth ps _). simpl. by rewrite insert_insert_eq.
Qed.

(** [force] asks for a message to be sent again ([HerderImpl::broadcast], every time it
    rebroadcasts), but inserting a new record does not replace the one that is there: the
    peers that were told are not told again. *)
Lemma force_is_ignored ps auth l m f : broadcast ps auth l m true f = broadcast ps auth l m false f.
Proof.
  destruct (floodShuttingDown f) eqn:E; [unfold broadcast; by rewrite E|].
  by rewrite !broadcast_record.
Qed.

Lemma getPeersKnows_insert h h' r f : getPeersKnows h (mkFloodgate (<[h' := r]> (mFloodMap f)) false) =
  if decide (h = h') then mPeersTold r else getPeersKnows h f.
Proof.
  unfold getPeersKnows. simpl. case_decide; subst; [by rewrite lookup_insert_eq|].
  by rewrite lookup_insert_ne.
Qed.

Lemma broadcast_knows ps auth l m force f tr : gate_knows f tr -> sent_fresh tr ->
  let r := broadcast ps auth l m force f in
  let tr' := map (Sent (sha256 m)) (reverse r.1) ++ tr in
  gate_knows r.2 tr' /\ sent_fresh tr' /\
  (floodShuttingDown f = false -> forall p, p ∈ ps -> auth p = true -> p ∈ told (sha256 m) tr').
Proof.
  intros Hk Hf. cbv zeta. destruct (floodShuttingDown f) eqn:E.
  { unfold broadcast. rewrite E. simpl. done. }
  rewrite broadcast_record by done. cbv zeta. set (r0 := default _ _).
  pose proof (tellLoop_spec (sha256 m) auth ps r0 tr Hf) as Hs.
  destruct (tellLoop auth ps r0) as [sent r]. cbn [fst snd] in *. destruct Hs as (H1 & H2 & H3).
  { intros p. rewrite <- (Hk (sha256 m) p). unfold r0, getPeersKnows. destruct (mFloodMap f !! sha256 m); done. }
  split; [|split; [done|]].
  - intros h p. rewrite getPeersKnows_insert. case_decide; subst; [done|]. rewrite told_other by done. apply Hk.
  - intros _ p Hp Ha. by apply H2, H3.
Qed.

Lemma clear_knows f f' tr : (forall h r, mFloodMap f' !! h = Some r -> mFloodMap f !! h = Some r) ->
  gate_knows f tr -> gate_knows f' (Forgot (dom (mFloodMap f) ∖ dom (mFloodMap f')) :: tr).
Proof.
  intros Hsub Hk h p. simpl. specialize (Hk h p). unfold getPeersKnows in *.
  destruct (mFloodMap f' !! h) as [r|] eqn:E'.
  - rewrite (Hsub _ _ E') in Hk. rewrite decide_False; [done|].
    apply elem_of_dom_2 in E'. set_solver.
  - apply not_elem_of_dom in E'. destruct (mFloodMap f !! h) as [r|] eqn:E.
    + apply elem_of_dom_2 in E. rewrite decide_True by set_solver. set_solver.
    + apply not_elem_of_dom in E. rewrite decide_False by set_solver. done.
Qed.

Lemma floodCall_knows x f tr : gate_knows f tr -> gate_shut f -> sent_fresh tr ->
  let s := floodCall x (f, tr) in gate_knows s.1 s.2 /\ gate_shut s.1 /\ sent_fresh s.2.
Proof.
  intros Hk Hs Hf. destruct x as [l m p|ps auth l m force|l|]; cbn [floodCall fst snd].
  - unfold addRecord. destruct (floodShuttingDown f) eqn:E; [by destruct p|].
    assert (forall (b : bool) r, (forall q, Some q ∈ mPeersTold r <->
        p = Some q \/ Some q ∈ getPeersKnows (sha256 m) f) ->
      gate_knows (b, mkFloodgate (<[sha256 m := r]> (mFloodMap f)) false).2
        (match p with Some p => Heard (sha256 m) p :: tr | None => tr end)) as Hput.
    { intros b r Hr h q. cbn [snd]. rewrite getPeersKnows_insert. specialize (Hk h q). destruct p as [p|]; simpl.
      - case_decide; subst; [rewrite Hr; set_solver|done].
      - case_decide; subst; [rewrite Hr; naive_solver|done]. }
    split; [|split].
    + destruct (mFloodMap f !! sha256 m) eqn:F; apply Hput; intros q; unfold getPeersKnows; rewrite F; destruct p; set_solver.
    + destruct (mFloodMap f !! sha256 m); intros [=].
    + destruct p; [by apply sent_fresh_cons|done].
  - destruct (broadcast_knows ps auth l m force f tr Hk Hf) as (H1 & H2 & _). split; [done|]. split; [|done].
    unfold broadcast. destruct (floodShuttingDown f) eqn:E; [done|]. destruct (tellLoop _ _ _). intros [=].
  - split; [|split]; [|intros E; unfold clearBelow; simpl; by rewrite Hs|by apply sent_fresh_cons].
    apply clear_knows; [|done]. intros h r. simpl. rewrite map_lookup_filter_Some. tauto.
  - split; [|split]; [|done|by apply sent_fresh_cons].
    replace (dom (mFloodMap f)) with (dom (mFloodMap f) ∖ dom (mFloodMap (shutdown f))).
    + apply clear_knows; [|done]. intros h r. simpl. by rewrite lookup_empty.
    + simpl. rewrite dom_empty_L. set_solver.
Qed.

Lemma floodRun_knows xs : let s := floodRun xs in gate_knows s.1 s.2 /\ gate_shut s.1 /\ sent_fresh s.2.
Proof.
  unfold floodRun. induction xs as [|x xs IH] using rev_ind; cbv zeta.
  - split; [|split]; [|done|intros [] ? ? ? [=]]. intros h p. unfold getPeersKnows. simpl. rewrite lookup_empty. set_solver.
  - rewrite foldl_app. simpl. cbv zeta in IH. destruct (foldl _ _ xs) as [f tr]. destruct IH as (H1 & H2 & H3).
    by apply floodCall_knows.
Qed.

(** C24. After any calls the floodgate knows of every message exactly the peers that have
    sent it or got it since it was last forgotten; no peer was ever sent a message that
    it had sent or got since then; and a broadcast reaches every authenticated peer that
    does not have the message. *)
Theorem flood_exactly_once xs :
  let '(f, tr) := floodRun xs in
  (forall h p, Some p ∈ getPeersKnows h f <-> p ∈ told h tr) /\
  (forall after h p before, tr = after ++ Sent h p :: before -> p ∉ told h before) /\
  (forall peers auth ledger msg force, floodShuttingDown f = false ->
     let s' := floodCall (FBroadcast peers auth ledger msg force) (f, tr) in
     forall p, p ∈ peers -> auth p = true -> p ∈ told (sha256 msg) s'.2).
Proof.
  pose proof (floodRun_knows xs) as H. cbv zeta in H. destruct (floodRun xs) as [f tr].
  destruct H as (Hk & Hs & Hf). split; [done|]. split; [done|].
  intros ps auth l m force E. apply (broadcast_knows ps auth l m force f tr Hk Hf). done.
Qed.

End floodgate.

Arguments FloodRecord : clear implicits.
Arguments Floodgate : clear implicits.
Arguments FloodCall : clear implicits.
