(* ===== verification/ItemFetcher.v ===== *)
(** * Fetching what envelopes refer to

    [overlay/ItemFetcher.cpp]: an item (a quorum set, a transaction set) that an
    envelope refers to is asked of one peer after the other.  A [Tracker] has the peers
    still to be asked and the envelopes that wait for the item; an [ItemFetcher] is the
    map of trackers by the hash of their items.

    What a tracker asks of the overlay manager is the record [Overlay]; [getRandomPeers]
    is what the shuffle gave this time.  The delay a timer is set to is [mTimer], [None]
    after [cancel].  [askPeer] is the result of the functions that call it.  [msgHash]
    is the hash of the message of an envelope.  [ItemFetcher::recv] calls the herder back
    and is with it, in [Herder.v]; [askPeer] of the two kinds of trackers sends a message. *)

From Stdlib Require Import ZArith Lia String.
From stdpp Require Import base tactics gmap option list.
From S2P Require Import Prelude ScpTypes Floodgate.

Open Scope Z_scope.

Record Overlay := mkOverlay {
  getRandomPeers : list Peer;
  peersKnow : Hash -> gset (option Peer);
  isAuthenticated : Peer -> bool }.

(** [mPeersToAsk] is a deque; its back, which is asked next, comes first. *)
Record Tracker := mkTracker {
  mLastAskedPeer : option Peer;
  mNumListRebuild : Z;
  mPeersToAsk : list Peer;
  mTimer : option Z;
  mIsStopped : bool;
  mWaitingEnvelopes : list (Hash * SCPEnvelope) }.

Definition newTracker : Tracker := mkTracker None 0 [] None false [].

Definition set_mWaitingEnvelopes (w : list (Hash * SCPEnvelope)) (t : Tracker) : Tracker :=
  mkTracker (mLastAskedPeer t) (mNumListRebuild t) (mPeersToAsk t) (mTimer t) (mIsStopped t) w.

(** [mTimer.cancel] *)
Definition cancelTimer (t : Tracker) : Tracker :=
  mkTracker (mLastAskedPeer t) (mNumListRebuild t) (mPeersToAsk t) None (mIsStopped t) (mWaitingEnvelopes t).

Definition MS_TO_WAIT_FOR_FETCH_REPLY : Z := 1500.
Definition MAX_REBUILD_FETCH_LIST : Z := 1000.

Abbreviation Fetcher := (gmap N Tracker).

Section fetcher.
Context (msgHash : SCPEnvelope -> Hash).

(** [Tracker::clearEnvelopesBelow] *)
Definition clearEnvelopesBelow (slotIndex : Z) (t : Tracker) : bool * Tracker :=
  let w := filter (fun e => slotIndex <= st_slotIndex (statement e.2)) (mWaitingEnvelopes t) in
  match w with
  | _ :: _ => (true, set_mWaitingEnvelopes w t)
  | [] => (false, mkTracker None (mNumListRebuild t) (mPeersToAsk t) None true [])
  end.

(** The new list of [tryNextPeer]: peers that have an envelope to the back. *)
Definition buildList (o : Overlay) (t : Tracker) : list Peer :=
  let peersWithEnvelope := ⋃ (map (fun e => peersKnow o e.1) (mWaitingEnvelopes t)) in
  foldl (fun l p => if bool_decide (Some p ∈ peersWithEnvelope) then p :: l else l ++ [p]) []
    (getRandomPeers o).

(** The loop that pops peers from the back until one is authenticated. *)
Fixpoint popAuthenticated (auth : Peer -> bool) (l : list Peer) : option Peer * list Peer :=
  match l with
  | [] => (None, [])
  | p :: l' => if auth p then (Some p, l') else popAuthenticated auth l'
  end.

(** [Tracker::tryNextPeer]: the peer that is asked. *)
Definition tryNextPeer (o : Overlay) (t : Tracker) : option Peer * Tracker :=
  let rebuild := bool_decide (mPeersToAsk t = []) && bool_decide (mLastAskedPeer t = None) in
  let peersToAsk := if rebuild then buildList o t else mPeersToAsk t in
  let numListRebuild := if rebuild then s32 (mNumListRebuild t + 1) else mNumListRebuild t in
  let (peer, rest) := popAuthenticated (isAuthenticated o) peersToAsk in
  let nextTry :=
    match peer with
    | None => if MAX_REBUILD_FETCH_LIST <? numListRebuild
              then MS_TO_WAIT_FOR_FETCH_REPLY * MAX_REBUILD_FETCH_LIST
              else MS_TO_WAIT_FOR_FETCH_REPLY * numListRebuild
    | Some _ => MS_TO_WAIT_FOR_FETCH_REPLY
    end in
  (peer, mkTracker peer numListRebuild rest (Some nextTry) (mIsStopped t) (mWaitingEnvelopes t)).

(** [Tracker::doesntHave] *)
Definition trackerDoesntHave (o : Overlay) (peer : Peer) (t : Tracker) : option Peer * Tracker :=
  if decide (mLastAskedPeer t = Some peer) then tryNextPeer o t else (None, t).

(** [Tracker::listen] *)
Definition listen (env : SCPEnvelope) (t : Tracker) : Tracker :=
  set_mWaitingEnvelopes (mWaitingEnvelopes t ++ [(msgHash env, env)]) t.

(** [ItemFetcher::fetch] *)
Definition fetch (o : Overlay) (itemID : Hash) (env : SCPEnvelope) (f : Fetcher) : option Peer * Fetcher :=
  match f !! itemID with
  | None => let (asked, t) := tryNextPeer o (listen env newTracker) in (asked, <[itemID := t]> f)
  | Some t => (None, <[itemID := listen env t]> f)
  end.

(** [ItemFetcher::stopFetchingBelowInternal]: a tracker that is erased cancels its timer. *)
Definition stopFetchingBelowInternal (slotIndex : Z) (f : Fetcher) : Fetcher :=
  omap (fun t => let (keep, t') := clearEnvelopesBelow slotIndex t in if keep : bool then Some t' else None) f.

(** [ItemFetcher::doesntHave] *)
Definition doesntHave (o : Overlay) (itemID : Hash) (peer : Peer) (f : Fetcher) : option Peer * Fetcher :=
  match f !! itemID with
  | None => (None, f)
  | Some t => let (asked, t') := trackerDoesntHave o peer t in (asked, <[itemID := t']> f)
  end.

(** The timer of a tracker, when it is set, calls [tryNextPeer]. *)
Definition timerExpired (o : Overlay) (itemID : Hash) (f : Fetcher) : option Peer * Fetcher :=
  match f !! itemID with
  | Some t =>
      match mTimer t with
      | Some _ => let (asked, t') := tryNextPeer o t in (asked, <[itemID := t']> f)
      | None => (None, f)
      end
  | None => (None, f)
  end.

(** ** The order peers are asked in *)

Lemma popAuthenticated_found auth l p : p ∈ l -> auth p = true ->
  exists q rest, popAuthenticated auth l = (Some q, rest) /\ (length rest < length l)%nat /\ (q = p \/ p ∈ rest).
Proof.
  induction l as [|x l IH]; [by intros ?%elem_of_nil|]. intros Hp Ha. simpl.
  destruct (auth x) eqn:E; [exists x, l|].
  - apply elem_of_cons in Hp. split; [done|]. split; [lia|]. naive_solver.
  - apply elem_of_cons in Hp as [->|Hp]; [congruence|]. destruct (IH Hp Ha) as (q & rest & -> & Hl & Hq).
    exists q, rest. split; [done|]. split; [lia|done].
Qed.

Lemma popAuthenticated_shrinks auth l : (length (popAuthenticated auth l).2 <= pred (length l))%nat.
Proof. induction l as [|x l IH]; simpl; [done|]. destruct (auth x); simpl; lia. Qed.

(** The peers that have an envelope that waits are asked first; every peer is asked once. *)
Lemma buildList_spec o t : let inf := ⋃ (map (fun e => peersKnow o e.1) (mWaitingEnvelopes t)) in
  buildList o t = reverse (filter (fun p => Some p ∈ inf) (getRandomPeers o)) ++
                  filter (fun p => Some p ∉ inf) (getRandomPeers o).
Proof.
  cbv zeta. unfold buildList. set (inf := ⋃ _).
  induction (getRandomPeers o) as [|p l IH] using rev_ind; [done|].
  rewrite foldl_app, IH, !filter_app. simpl. rewrite !filter_cons, !filter_nil.
  case_bool_decide; repeat case_decide; try done.
  - by rewrite app_nil_r, reverse_app.
  - by rewrite app_nil_r, app_assoc.
Qed.

Lemma elem_of_buildList o t p : p ∈ buildList o t <-> p ∈ getRandomPeers o.
Proof.
  rewrite buildList_spec. cbv zeta. rewrite elem_of_app, elem_of_reverse, !list_elem_of_filter.
  destruct (decide (Some p ∈ ⋃ (map (fun e => peersKnow o e.1) (mWaitingEnvelopes t)))); tauto.
Qed.

Lemma length_buildList o t : length (buildList o t) = length (getRandomPeers o).
Proof.
  rewrite buildList_spec. cbv zeta. rewrite length_app, length_reverse.
  induction (getRandomPeers o) as [|p l IH]; [done|]. rewrite !filter_cons.
  repeat case_decide; simpl; try tauto; lia.
Qed.

(** ** Every peer is asked *)

(** The peers asked when the tracker is called again and again, by its timer or by
    the peer it has asked. *)
Fixpoint askRun (os : list Overlay) (t : Tracker) : list Peer :=
  match os with
  | [] => []
  | o :: os' => let (asked, t') := tryNextPeer o t in option_list asked ++ askRun os' t'
  end.

Definition reachable_peer (p : Peer) (n : nat) (o : Overlay) : Prop :=
  p ∈ getRandomPeers o /\ isAuthenticated o p = true /\ (length (getRandomPeers o) <= n)%nat.

Lemma askRun_list p n os : Forall (reachable_peer p n) os -> forall t,
  p ∈ mPeersToAsk t -> (length (mPeersToAsk t) <= length os)%nat -> p ∈ askRun os t.
Proof.
  induction 1 as [|o os (Hp & Ha & Hn) _ IH]; intros t Hin Hl; simpl in *.
  { destruct (mPeersToAsk t); [by apply elem_of_nil in Hin|simpl in Hl; lia]. }
  unfold tryNextPeer. rewrite bool_decide_false by (intros E; rewrite E in Hin; by apply elem_of_nil in Hin).
  cbn [andb]. destruct (popAuthenticated_found _ _ _ Hin Ha) as (q & rest & -> & Hr & Hq).
  simpl. destruct Hq as [->|Hq]; [left|]. right. apply IH; [done|]. simpl. lia.
Qed.

(** A tracker that starts over asks [p] within as many calls as there are peers. *)
Lemma askRun_rebuild p n os t : Forall (reachable_peer p n) os -> mPeersToAsk t = [] -> mLastAskedPeer t = None ->
  (1 <= n <= length os)%nat -> p ∈ askRun os t.
Proof.
  intros Hos E1 E2 Hn. destruct os as [|o os]; [simpl in Hn; lia|].
  pose proof Hos as [(Hp & Ha & Hl) _]%Forall_cons.
  set (t' := mkTracker None (mNumListRebuild t) (buildList o t) (mTimer t) false (mWaitingEnvelopes t)).
  assert (p ∈ askRun (o :: os) t') as Hin.
  { eapply askRun_list; [done|by apply elem_of_buildList|]. simpl. rewrite length_buildList. simpl in Hn. lia. }
  assert (forall t1 t2, mPeersToAsk t1 = mPeersToAsk t2 -> mLastAskedPeer t1 = mLastAskedPeer t2 ->
    mWaitingEnvelopes t1 = mWaitingEnvelopes t2 -> askRun os t1 = askRun os t2) as Hcong.
  { clear. induction os as [|o os IH]; intros t1 t2 H1 H2 H3; [done|]. simpl. unfold tryNextPeer, buildList.
    rewrite H1, H2, H3. destruct (popAuthenticated _ _) as [q rest]. f_equal. by apply IH. }
  simpl in *. unfold tryNextPeer in *. rewrite E1, E2. rewrite !bool_decide_true by done. cbn [andb].
  assert (buildList o t <> []) as Hne.
  { intros E. apply elem_of_buildList with (t := t) in Hp. rewrite E in Hp. by apply elem_of_nil in Hp. }
  unfold t' in Hin. simpl in Hin. rewrite bool_decide_false in Hin by done. cbn [andb] in Hin.
  destruct (popAuthenticated (isAuthenticated o) (buildList o t)) as [q rest].
  erewrite Hcong; [exact Hin|done..].
Qed.

(** C36. However the list of peers is shuffled and whatever peers come and go, a peer that
    stays connected and authenticated is asked for the item within as many calls of the
    tracker as it has peers on its list plus the number of peers plus one; and the tracker
    never waits longer than 1500 seconds for the next call. *)
Theorem every_peer_is_asked p n os t : Forall (reachable_peer p n) os ->
  (length (mPeersToAsk t) + n + 1 <= length os)%nat ->
  p ∈ askRun os t /\ forall o, exists d, mTimer (tryNextPeer o t).2 = Some d /\ d <= 1500000.
Proof.
  intros Hos Hl. split.
  - revert t Hl. induction Hos as [|o os Ho Hos IH]; intros t Hl; [simpl in Hl; lia|].
    assert (1 <= n)%nat as Hn.
    { destruct Ho as (Hp & _ & Hlen). destruct (getRandomPeers o); [by apply elem_of_nil in Hp|simpl in Hlen; lia]. }
    destruct (decide (mPeersToAsk t = [])) as [E|E]; [destruct (decide (mLastAskedPeer t = None)) as [E2|E2]|].
    + apply (askRun_rebuild p n); [by constructor|done|done|]. rewrite E in Hl. simpl in *. lia.
    + simpl. unfold tryNextPeer. rewrite (bool_decide_true (mPeersToAsk t = [])), bool_decide_false by done.
      rewrite E. simpl. apply (askRun_rebuild p n); [done..|]. rewrite E in Hl. simpl in Hl. lia.
    + simpl. unfold tryNextPeer. rewrite (bool_decide_false (mPeersToAsk t = [])) by done. cbn [andb].
      pose proof (popAuthenticated_shrinks (isAuthenticated o) (mPeersToAsk t)) as Hs.
      destruct (popAuthenticated _ _) as [q rest]. simpl in Hs. apply elem_of_app. right. apply IH. simpl.
      destruct (mPeersToAsk t); [done|]. simpl in *. lia.
  - intros o. unfold tryNextPeer, MS_TO_WAIT_FOR_FETCH_REPLY, MAX_REBUILD_FETCH_LIST.
    destruct (popAuthenticated _ _) as [[q|] rest]; simpl; eexists; (split; [done|]); [lia|].
    destruct (1000 <? _) eqn:E; propify; lia.
Qed.

End fetcher.
