(* ===== verification/TxSet.v ===== *)
(** * Transaction sets

    [herder/TxSetFrame.cpp].  A transaction is what a set reads of it: the address of the
    object, by which [removeTx] finds it, its hash, its source, its salt and the fee it
    pays.  [TransactionFrame::checkValid], the hash of the contents of a set (SHA-256 of XDR
    forms) and the numbers of the last closed ledger are arguments.

    [std::sort] may put elements that are not ordered in any order: it is the class
    [StdSort], and the theorems hold for every sort that has its laws.

    The theorems: the order of application, and what [trimInvalid], [surgePricingFilter] and
    [checkValid] make of a set one after the other, as [HerderImpl::triggerNextLedger] calls
    them. *)

From Stdlib Require Import ZArith Lia String.
From stdpp Require Import sorting.
From stdpp Require Import base tactics gmap option list.
From S2P Require Import Prelude ScpTypes Balance.

Open Scope Z_scope.

(** ** Sorting *)

(** [a] may stand before [b]. *)
Definition notLess {A} (lt : A -> A -> bool) : relation A := fun a b => lt b a = false.

#[export] Instance notLess_dec {A} (lt : A -> A -> bool) : RelDecision (notLess lt).
Proof. intros a b. unfold notLess. apply _. Defined.

(** What [std::sort] asks of a comparison. *)
Definition weak_order {A} (lt : A -> A -> bool) : Prop := Transitive (notLess lt) /\ Total (notLess lt).

Class StdSort := {
  std_sort : forall {A : Type}, (A -> A -> bool) -> list A -> list A;
  std_sort_perm : forall {A : Type} (lt : A -> A -> bool) l, std_sort lt l ≡ₚ l;
  std_sort_sorted : forall {A : Type} (lt : A -> A -> bool) l, weak_order lt ->
    StronglySorted (notLess lt) (std_sort lt l) }.

#[export] Program Instance merge_std_sort : StdSort :=
  {| std_sort A lt l := merge_sort (notLess lt) l |}.
Next Obligation. intros. apply merge_sort_Permutation. Qed.
Next Obligation. intros A lt l [Ht Hl]. by apply StronglySorted_merge_sort. Qed.

(** Comparing by keys. *)
Lemma weak_order_key {A B} `{StdOrder B} (f : A -> B) lt :
  (forall a b, lt a b = negb (bool_decide (std_le (f b) (f a)))) -> weak_order lt.
Proof.
  intros E. assert (forall a b, notLess lt a b <-> std_le (f a) (f b)) as Hle.
  { intros a b. unfold notLess. rewrite E, negb_false_iff. apply bool_decide_eq_true. }
  split.
  - intros a b c. rewrite !Hle. intros. by trans (f b).
  - intros a b. rewrite !Hle. apply total, _.
Qed.

(** ** Transactions *)

Record Transaction := mkTransaction {
  txAddress : N;
  getFullHash : Hash;
  getSourceID : AccountID;
  getSalt : Z;
  getPaidFee : Z }.

#[export] Instance Transaction_eq_dec : EqDecision Transaction.
Proof. solve_decision. Defined.

Record TxSetFrame := mkTxSetFrame {
  mTransactions : list Transaction;
  mPreviousLedgerHash : Hash;
  mHash : Hash;
  mHashIsValid : bool }.

Definition newTxSet (previousLedgerHash : Hash) : TxSetFrame := mkTxSetFrame [] previousLedgerHash 0%N false.

Definition set_mTransactions (l : list Transaction) (s : TxSetFrame) : TxSetFrame :=
  mkTxSetFrame l (mPreviousLedgerHash s) (mHash s) false.

(** [TxSetFrame::add] *)
Definition addTxToSet (tx : Transaction) (s : TxSetFrame) : TxSetFrame := set_mTransactions (mTransactions s ++ [tx]) s.

Definition HashTxSorter (tx1 tx2 : Transaction) : bool := (getFullHash tx1 <? getFullHash tx2)%N.
Definition SaltSorter (tx1 tx2 : Transaction) : bool := getSalt tx1 <? getSalt tx2.

(** A [Hash] is the number its bytes spell: [lessThanXored] of [util/types.cpp]. *)
Definition lessThanXored (l r x : Hash) : bool := (N.lxor x l <? N.lxor x r)%N.

Definition ApplyTxSorter (setHash : Hash) (tx1 tx2 : Transaction) : bool :=
  lessThanXored (getFullHash tx1) (getFullHash tx2) setHash.

Definition accountTxs (a : AccountID) (l : list Transaction) : list Transaction := filter (fun tx => getSourceID tx = a) l.

Section txset.
Context `{StdSort} (contentsHash : Hash -> list Transaction -> Hash).

Definition sortForHash (s : TxSetFrame) : TxSetFrame := set_mTransactions (std_sort HashTxSorter (mTransactions s)) s.

Definition getContentsHash (s : TxSetFrame) : Hash * TxSetFrame :=
  if mHashIsValid s then (mHash s, s)
  else
    let s := sortForHash s in
    let h := contentsHash (mPreviousLedgerHash s) (mTransactions s) in
    (h, mkTxSetFrame (mTransactions s) (mPreviousLedgerHash s) h true).

(** The loop of [sortForApply] that deals the transactions of every account to the batches. *)
Fixpoint batchTxs (txs : list Transaction) (counts : gmap AccountID nat) (batches : list (list Transaction)) :
    list (list Transaction) :=
  match txs with
  | [] => batches
  | tx :: txs' =>
      let v := default 0%nat (counts !! getSourceID tx) in
      let batches := if (length batches <=? v)%nat then resize (v + 4) [] batches else batches in
      batchTxs txs' (<[getSourceID tx := S v]> counts) (alter (fun b => b ++ [tx]) v batches)
  end.

Definition sortForApply (s : TxSetFrame) : list Transaction * TxSetFrame :=
  let batches := batchTxs (std_sort SaltSorter (mTransactions s)) ∅ (replicate 4 []) in
  let (h, s) := getContentsHash s in
  (concat (map (std_sort (ApplyTxSorter h)) batches), s).

(** [std::find] and [erase] *)
Fixpoint eraseTx (tx : Transaction) (l : list Transaction) : list Transaction :=
  match l with
  | [] => []
  | x :: l' => if decide (x = tx) then l' else x :: eraseTx tx l'
  end.

Definition removeTx (tx : Transaction) (s : TxSetFrame) : TxSetFrame := set_mTransactions (eraseTx tx (mTransactions s)) s.

(** The fees of the accounts in [surgePricingFilter]. *)
Definition accountFees (l : list Transaction) : gmap AccountID Z :=
  foldl (fun m tx =>
    let r := getPaidFee tx in
    let now := default 0 (m !! getSourceID tx) in
    if now =? 0 then <[getSourceID tx := r]> m
    else if r <? now then <[getSourceID tx := r]> m else m) ∅ l.

Definition SurgeSorter (fees : gmap AccountID Z) (tx1 tx2 : Transaction) : bool :=
  if decide (getSourceID tx1 = getSourceID tx2) then getSalt tx1 <? getSalt tx2
  else
    let fee1 := default 0 (fees !! getSourceID tx1) in
    let fee2 := default 0 (fees !! getSourceID tx2) in
    if fee1 =? fee2 then (getSourceID tx1 <? getSourceID tx2)%N else fee2 <? fee1.

Definition surgePricingFilter (max : nat) (s : TxSetFrame) : TxSetFrame :=
  if (max <? length (mTransactions s))%nat then
    let tempList := std_sort (SurgeSorter (accountFees (mTransactions s))) (mTransactions s) in
    foldl (fun s tx => removeTx tx s) s (drop max tempList)
  else s.

(** [accountTxMap] of [trimInvalid] and [checkValid]. *)
Definition accountTxMap (l : list Transaction) : gmap AccountID (list Transaction) :=
  foldl (fun m tx => <[getSourceID tx := default [] (m !! getSourceID tx) ++ [tx]]> m) ∅ l.

(** The transactions in the order in which these functions visit them. *)
Definition visitOrder (l : list Transaction) : list Transaction :=
  concat (map (fun item => std_sort SaltSorter item.2) (map_asc (accountTxMap l))).

Section validity.
Context (txValid : Transaction -> bool).

Definition trimInvalid (s : TxSetFrame) : list Transaction * TxSetFrame :=
  let s := sortForHash s in
  foldl (fun r tx => if txValid tx then r else (r.1 ++ [tx], removeTx tx r.2)) ([], s)
    (visitOrder (mTransactions s)).

(** The loop of [checkValid] over the hashes. *)
Fixpoint hashesSorted (lastHash : Hash) (l : list Transaction) : bool :=
  match l with
  | [] => true
  | tx :: l' => if (getFullHash tx <? lastHash)%N then false else hashesSorted (getFullHash tx) l'
  end.

Definition checkValid (lclHash : Hash) (maxTxSetSize : nat) (s : TxSetFrame) : bool :=
  if negb (bool_decide (lclHash = mPreviousLedgerHash s)) then false
  else if (maxTxSetSize <? length (mTransactions s))%nat then false
  else if negb (hashesSorted 0%N (mTransactions s)) then false
  else forallb txValid (visitOrder (mTransactions s)).

End validity.

(** ** The order of application *)

Lemma weak_order_salt : weak_order SaltSorter.
Proof.
  apply (weak_order_key getSalt). intros a b. unfold SaltSorter. simpl.
  destruct (Z.ltb_spec (getSalt a) (getSalt b)); case_bool_decide; simpl; lia.
Qed.

Lemma weak_order_hash : weak_order HashTxSorter.
Proof.
  apply (weak_order_key getFullHash). intros a b. unfold HashTxSorter. simpl.
  destruct (N.ltb_spec (getFullHash a) (getFullHash b)); case_bool_decide; simpl; lia.
Qed.

(** The [i]-th transaction of an account, as the batch it is in. *)
Definition nthOf (a : AccountID) (l : list Transaction) (i : nat) : list Transaction :=
  option_list (accountTxs a l !! i).

Definition dealt (done : list Transaction) (batches : list (list Transaction)) : Prop :=
  forall a i, accountTxs a (default [] (batches !! i)) = nthOf a done i.

Lemma resize_default {A} (n : nat) (l : list (list A)) i : (length l <= n)%nat ->
  default [] (resize n [] l !! i) = default [] (l !! i).
Proof.
  intros Hn. destruct (decide (i < length l)%nat) as [Hi|Hi].
  - by rewrite lookup_resize by lia.
  - rewrite (lookup_ge_None_2 l) by lia. destruct (decide (i < n)%nat).
    + by rewrite lookup_resize_new by lia.
    + by rewrite lookup_resize_old by lia.
Qed.

Lemma nthOf_snoc a done tx i : nthOf a (done ++ [tx]) i =
  nthOf a done i ++ (if decide (getSourceID tx = a /\ i = length (accountTxs a done)) then [tx] else []).
Proof.
  unfold nthOf, accountTxs. rewrite filter_app, filter_cons, filter_nil. set (l := filter _ done).
  destruct (decide (getSourceID tx = a)) as [<-|Hne]; [|by rewrite decide_False, !app_nil_r by tauto].
  destruct (decide (i = length l)) as [->|Hi].
  - rewrite decide_True by done. rewrite lookup_app_r, Nat.sub_diag, (lookup_ge_None_2 l) by lia. done.
  - rewrite decide_False by tauto. rewrite app_nil_r. destruct (decide (i < length l)%nat).
    + by rewrite lookup_app_l.
    + rewrite lookup_app_r, (lookup_ge_None_2 l), lookup_ge_None_2 by (simpl; lia). done.
Qed.

Lemma batchTxs_dealt txs : forall done counts batches,
  (forall a, default 0%nat (counts !! a) = length (accountTxs a done)) -> dealt done batches ->
  dealt (done ++ txs) (batchTxs txs counts batches).
Proof.
  induction txs as [|tx txs IH]; intros done counts batches Hc Hd; [by rewrite app_nil_r|].
  rewrite cons_middle, app_assoc. cbn [batchTxs]. set (v := default 0%nat _).
  set (bs := if (length batches <=? v)%nat then _ else _).
  assert (v < length bs)%nat as Hv.
  { unfold bs. destruct (length batches <=? v)%nat eqn:E; [rewrite length_resize; lia|]. apply Nat.leb_gt in E. lia. }
  assert (forall i, default [] (bs !! i) = default [] (batches !! i)) as Hbs.
  { intros i. unfold bs. destruct (length batches <=? v)%nat eqn:E; [|done]. apply Nat.leb_le in E. apply resize_default. lia. }
  assert (v = length (accountTxs (getSourceID tx) done)) as Ev by apply Hc.
  apply IH.
  - intros a. unfold accountTxs in *. rewrite filter_app, filter_cons, filter_nil, length_app.
    destruct (decide (getSourceID tx = a)) as [<-|Hne].
    + rewrite lookup_insert_eq. simpl. rewrite <- Ev. lia.
    + rewrite lookup_insert_ne by done. rewrite Hc. simpl. lia.
  - intros a i. rewrite nthOf_snoc, <- Hd, <- Hbs. destruct (decide (i = v)) as [->|Hi].
    + destruct (lookup_lt_is_Some_2 bs v Hv) as [b Hb]. rewrite list_lookup_alter_eq, Hb. simpl.
      unfold accountTxs. rewrite filter_app, filter_cons, filter_nil. fold (accountTxs a done). f_equal.
      destruct (decide (getSourceID tx = a)) as [<-|]; [by rewrite decide_True|by rewrite decide_False by tauto].
    + rewrite list_lookup_alter_ne by done. rewrite decide_False, app_nil_r; [done|]. intros [<- ->]. congruence.
Qed.

Lemma concat_dealt (bs : list (list Transaction)) : forall l,
  (forall i, default [] (bs !! i) = option_list (l !! i)) -> concat bs = l.
Proof.
  induction bs as [|b bs IH]; intros l Hl.
  - destruct l as [|x l]; [done|]. specialize (Hl 0%nat). done.
  - pose proof (Hl 0%nat) as H0. simpl in H0. simpl. destruct l as [|x l]; simpl in *.
    + rewrite H0, (IH []); [done|]. intros i. apply (Hl (S i)).
    + rewrite H0, (IH l); [done|]. intros i. apply (Hl (S i)).
Qed.

Lemma concat_alter_snoc (x : Transaction) (bs : list (list Transaction)) i : (i < length bs)%nat ->
  concat (alter (fun b => b ++ [x]) i bs) ≡ₚ x :: concat bs.
Proof.
  revert i. induction bs as [|b bs IH]; intros [|i] Hi; simpl in *; try lia.
  - rewrite <- app_assoc. simpl. by rewrite <- Permutation_middle.
  - change (alter ?f i bs) with (list_alter f i bs) in *. rewrite (IH i) by lia. by rewrite <- Permutation_middle.
Qed.

Lemma concat_resize n (bs : list (list Transaction)) : (length bs <= n)%nat -> concat (resize n [] bs) = concat bs.
Proof.
  intros Hn. rewrite resize_ge, concat_app by done. generalize (n - length bs)%nat as k. intros k.
  induction k as [|k IH]; simpl; [by rewrite app_nil_r|done].
Qed.

Lemma batchTxs_perm txs : forall counts batches,
  concat (batchTxs txs counts batches) ≡ₚ txs ++ concat batches.
Proof.
  induction txs as [|tx txs IH]; intros counts batches; [done|]. cbn [batchTxs]. rewrite IH.
  set (v := default 0%nat _). set (bs := if (length batches <=? v)%nat then _ else _).
  rewrite concat_alter_snoc.
  - rewrite <- Permutation_middle. unfold bs. destruct (length batches <=? v)%nat eqn:E; [|done].
    apply Nat.leb_le in E. rewrite concat_resize by lia. done.
  - unfold bs. destruct (length batches <=? v)%nat eqn:E; [rewrite length_resize; lia|]. apply Nat.leb_gt in E. lia.
Qed.

Lemma concat_sorts (lt : Transaction -> Transaction -> bool) bs : concat (map (std_sort lt) bs) ≡ₚ concat bs.
Proof. induction bs as [|b bs IH]; simpl; [done|]. by rewrite IH, std_sort_perm. Qed.

Lemma accountTxs_concat a (bs : list (list Transaction)) : accountTxs a (concat bs) = concat (map (accountTxs a) bs).
Proof. unfold accountTxs. induction bs as [|b bs IH]; simpl; [done|]. by rewrite filter_app, IH. Qed.

(** A batch has at most one transaction of an account, so sorting it does not matter. *)
Lemma accountTxs_sort a lt (b : list Transaction) o : accountTxs a b = option_list o ->
  accountTxs a (std_sort lt b) = option_list o.
Proof.
  intros E. assert (accountTxs a (std_sort lt b) ≡ₚ option_list o) as Hp.
  { rewrite <- E. unfold accountTxs. by rewrite std_sort_perm. }
  destruct o as [x|]; simpl in *; [by apply Permutation_singleton_r in Hp|by apply Permutation_nil_r in Hp].
Qed.

Lemma StronglySorted_filter {A} (R : relation A) (P : A -> Prop) `{!forall x, Decision (P x)} l :
  StronglySorted R l -> StronglySorted R (filter P l).
Proof.
  induction 1 as [|x l Hl IH Hx]; [constructor|]. rewrite filter_cons. case_decide; [|done].
  constructor; [done|]. apply Forall_forall. intros y [_ Hy]%list_elem_of_filter. by eapply Forall_forall.
Qed.

Lemma StronglySorted_weaken {A} (R R' : relation A) l : (forall x y, R x y -> R' x y) ->
  StronglySorted R l -> StronglySorted R' l.
Proof. intros HR. induction 1 as [|x l Hl IH Hx]; constructor; [done|]. eapply Forall_impl; eauto. Qed.

(** [sortForApply] orders all the transactions of the set, and only them, such that those
    of an account come by ascending salt and in rounds: a list of batches with at most one
    transaction of an account in each and none of an account that had none in the batch
    before. *)
Theorem sortForApply_fair s : let l := (sortForApply s).1 in
  l ≡ₚ mTransactions s /\
  (forall a, StronglySorted (fun t1 t2 => getSalt t1 <= getSalt t2) (accountTxs a l)) /\
  exists batches, l = concat batches /\ forall a i, 
    (length (accountTxs a (default [] (batches !! i))) <= 1)%nat /\
    (accountTxs a (default [] (batches !! i)) = [] -> accountTxs a (default [] (batches !! S i)) = []).
Proof.
  cbv zeta. unfold sortForApply. set (sorted := std_sort SaltSorter (mTransactions s)).
  set (bs := batchTxs sorted ∅ (replicate 4 [])). destruct (getContentsHash s) as [h s']. cbn [fst].
  assert (dealt sorted bs) as Hd.
  { apply (batchTxs_dealt sorted []); [intros a; by rewrite lookup_empty|].
    intros a i. by do 4 (destruct i as [|i]; [done|]). }
  assert (forall a i, accountTxs a (default [] (map (std_sort (ApplyTxSorter h)) bs !! i)) = nthOf a sorted i) as Hs.
  { intros a i. rewrite list_lookup_fmap. specialize (Hd a i). destruct (bs !! i); simpl in *; [|done].
    by apply accountTxs_sort. }
  split; [|split].
  - rewrite concat_sorts. unfold bs. rewrite batchTxs_perm. simpl. rewrite app_nil_r. apply std_sort_perm.
  - intros a. rewrite accountTxs_concat, (concat_dealt _ (accountTxs a sorted)).
    + eapply StronglySorted_weaken; [|apply StronglySorted_filter, (std_sort_sorted SaltSorter _ weak_order_salt)].
      intros t1 t2. unfold notLess, SaltSorter. intros; propify; lia.
    + intros i. rewrite list_lookup_fmap. specialize (Hs a i). by destruct (map _ bs !! i).
  - exists (map (std_sort (ApplyTxSorter h)) bs). split; [done|]. intros a i. rewrite !Hs. unfold nthOf. split.
    + destruct (accountTxs a sorted !! i); simpl; lia.
    + destruct (accountTxs a sorted !! i) eqn:E; [done|]. intros _. apply lookup_ge_None in E.
      rewrite lookup_ge_None_2 by lia. done.
Qed.

End txset.

Section theorems.
Context `{StdSort} (txValid : Transaction -> bool).
Implicit Types (l : list Transaction) (tx : Transaction) (s : TxSetFrame).

(** ** Removing transactions *)

Lemma StronglySorted_sublist {A} (R : relation A) (l k : list A) : StronglySorted R k -> l `sublist_of` k -> StronglySorted R l.
Proof.
  intros Hk Hl. induction Hl as [|x l k Hl IH|x l k Hl IH]; [constructor|..]; apply StronglySorted_inv in Hk as [Hk Hx].
  - constructor; [by apply IH|]. apply Forall_forall. intros y Hy. eapply Forall_forall in Hx; [done|]. by eapply elem_of_sublist.
  - by apply IH.
Qed.

Lemma eraseTx_perm tx l : tx ∈ l -> l ≡ₚ tx :: eraseTx tx l.
Proof.
  induction l as [|x l IH]; [by intros ?%elem_of_nil|]. intros Hin. simpl. case_decide as E; [by subst|].
  apply elem_of_cons in Hin as [->|Hin]; [done|]. rewrite (IH Hin) at 1. apply Permutation_swap.
Qed.

Lemma eraseTx_sublist tx l : eraseTx tx l `sublist_of` l.
Proof. induction l as [|x l IH]; simpl; [done|]. case_decide; by constructor. Qed.

Lemma removeTxs_set ds s : let s' := foldl (fun s tx => removeTx tx s) s ds in
  mPreviousLedgerHash s' = mPreviousLedgerHash s /\
  mTransactions s' = foldl (fun l tx => eraseTx tx l) (mTransactions s) ds.
Proof. revert s. induction ds as [|d ds IH]; intros s; simpl; [done|]. destruct (IH (removeTx d s)) as [-> ->]. done. Qed.

Lemma eraseTxs_spec ds : forall l rest, l ≡ₚ ds ++ rest ->
  foldl (fun l tx => eraseTx tx l) l ds ≡ₚ rest /\ foldl (fun l tx => eraseTx tx l) l ds `sublist_of` l.
Proof.
  induction ds as [|d ds IH]; intros l rest Hp; simpl; [done|].
  assert (d ∈ l) as Hd by (rewrite Hp; left).
  destruct (IH (eraseTx d l) rest) as [H1 H2].
  - apply (Permutation_cons_inv (a := d)). by rewrite <- eraseTx_perm, Hp.
  - split; [done|]. etrans; [apply H2|apply eraseTx_sublist].
Qed.

(** ** Visiting the accounts *)

Lemma accountTxMap_snoc l tx : accountTxMap (l ++ [tx]) =
  <[getSourceID tx := default [] (accountTxMap l !! getSourceID tx) ++ [tx]]> (accountTxMap l).
Proof. unfold accountTxMap. by rewrite foldl_app. Qed.

Lemma accountTxMap_perm l : concat (map_to_list (accountTxMap l)).*2 ≡ₚ l.
Proof.
  induction l as [|tx l IH] using rev_ind; [unfold accountTxMap; simpl; by rewrite map_to_list_empty|].
  rewrite accountTxMap_snoc. set (m := accountTxMap l) in *. destruct (m !! getSourceID tx) as [b|] eqn:E; simpl.
  - rewrite <- (insert_delete_eq m). rewrite <- (insert_delete_id m _ _ E) in IH.
    rewrite map_to_list_insert in IH |- * by apply lookup_delete_eq. simpl in *.
    rewrite <- (Permutation_cons_append l), <- IH, <- app_assoc. simpl. by rewrite <- Permutation_middle.
  - rewrite map_to_list_insert by done. simpl. by rewrite IH, Permutation_app_comm.
Qed.

Lemma visitOrder_perm l : visitOrder l ≡ₚ l.
Proof.
  unfold visitOrder, map_asc. rewrite <- (accountTxMap_perm l) at 2.
  rewrite <- (merge_sort_Permutation key_le (map_to_list (accountTxMap l))) at 2.
  induction (merge_sort key_le (map_to_list (accountTxMap l))) as [|[a b] ps IH]; simpl; [done|].
  by rewrite IH, std_sort_perm.
Qed.

(** ** Trimming *)

Definition invalidTxs l : list Transaction := filter (fun tx => txValid tx = false) l.
Definition validTxs l : list Transaction := filter (fun tx => txValid tx = true) l.

Lemma split_valid l : l ≡ₚ invalidTxs l ++ validTxs l.
Proof.
  unfold invalidTxs, validTxs. induction l as [|tx l IH]; [done|]. rewrite !filter_cons.
  destruct (txValid tx) eqn:E; simpl.
  - rewrite <- Permutation_middle. by f_equiv.
  - by f_equiv.
Qed.

Lemma trim_fold vs : forall r s,
  foldl (fun r tx => if txValid tx then r else (r.1 ++ [tx], removeTx tx r.2)) (r, s) vs =
  (r ++ invalidTxs vs, foldl (fun s tx => removeTx tx s) s (invalidTxs vs)).
Proof.
  unfold invalidTxs. induction vs as [|v vs IH]; intros r s; [by rewrite app_nil_r|]. rewrite filter_cons. simpl.
  destruct (txValid v) eqn:E; simpl; rewrite IH; [done|]. by rewrite <- app_assoc.
Qed.

(** [trimInvalid] takes out exactly the invalid transactions and leaves the set sorted. *)
Lemma trimInvalid_spec s : let '(trimmed, s') := trimInvalid txValid s in
  trimmed ≡ₚ invalidTxs (mTransactions s) /\ mTransactions s' ≡ₚ validTxs (mTransactions s) /\
  StronglySorted (notLess HashTxSorter) (mTransactions s') /\ mPreviousLedgerHash s' = mPreviousLedgerHash s.
Proof.
  unfold trimInvalid. cbv zeta. rewrite trim_fold. simpl app. set (s1 := sortForHash s).
  destruct (removeTxs_set (invalidTxs (visitOrder (mTransactions s1))) s1) as [E1 E2]. cbv zeta in E1, E2.
  assert (mTransactions s1 ≡ₚ mTransactions s) as Hs1 by apply std_sort_perm.
  assert (invalidTxs (visitOrder (mTransactions s1)) ≡ₚ invalidTxs (mTransactions s)) as Hi.
  { unfold invalidTxs. by rewrite visitOrder_perm, Hs1. }
  destruct (eraseTxs_spec (invalidTxs (visitOrder (mTransactions s1))) (mTransactions s1) (validTxs (mTransactions s)))
    as [H1 H2]; [by rewrite Hi, <- split_valid|].
  rewrite E1, E2. split; [done|]. split; [done|]. split; [|done].
  eapply StronglySorted_sublist; [|apply H2]. apply std_sort_sorted, weak_order_hash.
Qed.

(** ** Surge pricing *)

Definition feeOf (fees : gmap AccountID Z) tx : Z := default 0 (fees !! getSourceID tx).

Definition surge_le (fees : gmap AccountID Z) : relation Transaction := fun t1 t2 =>
  feeOf fees t2 < feeOf fees t1 \/
  feeOf fees t1 = feeOf fees t2 /\
  ((getSourceID t1 < getSourceID t2)%N \/ getSourceID t1 = getSourceID t2 /\ getSalt t1 <= getSalt t2).

Lemma notLess_surge fees t1 t2 : notLess (SurgeSorter fees) t1 t2 <-> surge_le fees t1 t2.
Proof.
  unfold notLess, SurgeSorter, surge_le. fold (feeOf fees t1) (feeOf fees t2).
  destruct (decide (getSourceID t2 = getSourceID t1)) as [E|E].
  - assert (feeOf fees t1 = feeOf fees t2) by (unfold feeOf; by rewrite E). rewrite Z.ltb_ge. lia.
  - destruct (Z.eqb_spec (feeOf fees t2) (feeOf fees t1)).
    + rewrite N.ltb_ge. lia.
    + rewrite Z.ltb_ge. lia.
Qed.

Lemma weak_order_surge fees : weak_order (SurgeSorter fees).
Proof.
  split.
  - intros t1 t2 t3. rewrite !notLess_surge. unfold surge_le. lia.
  - intros t1 t2. rewrite !notLess_surge. unfold surge_le. lia.
Qed.

(** What the fee of an account comes to, the transactions of the account being [l]: the lowest fee of
    those after the last one that pays nothing, and nothing when the last one is it. *)
Definition pays (f : Z) l : Prop :=
  exists l1 l2, l = l1 ++ l2 /\ (forall tx, last l1 = Some tx -> getPaidFee tx = 0) /\
    Forall (fun tx => 0 < getPaidFee tx) l2 /\
    match l2 with
    | [] => f = 0
    | _ => (exists tx, tx ∈ l2 /\ getPaidFee tx = f) /\ Forall (fun tx => f <= getPaidFee tx) l2
    end.

Lemma pays_snoc f l tx : pays f l -> 0 <= getPaidFee tx ->
  pays (if f =? 0 then getPaidFee tx else if getPaidFee tx <? f then getPaidFee tx else f) (l ++ [tx]).
Proof.
  intros (l1 & l2 & -> & Hl & Hp & Hf) Htx. destruct (decide (getPaidFee tx = 0)) as [E0|E0].
  { exists ((l1 ++ l2) ++ [tx]), []. rewrite E0, app_nil_r. split; [done|]. split; [|split; [by constructor|]].
    - intros tx'. rewrite last_snoc. by intros [= <-].
    - destruct l2 as [|x l2]; [by rewrite Hf|]. destruct Hf as [(t & Ht & Et) _].
      rewrite Forall_forall in Hp. specialize (Hp t Ht). destruct (Z.eqb_spec f 0); [done|].
      destruct (Z.ltb_spec 0 f); lia. }
  exists l1, (l2 ++ [tx]). rewrite app_assoc. split; [done|]. split; [done|].
  split; [apply Forall_app; split; [done|]; repeat constructor; lia|].
  assert (Hne : forall P Q : Prop, P -> match l2 ++ [tx] with [] => Q | _ => P end) by (by intros; destruct l2).
  apply Hne. destruct l2 as [|x l2].
  { subst f. simpl. split; [exists tx; split; [left|done]|by repeat constructor]. }
  destruct Hf as [(t & Ht & Et) Hle]. assert (0 < f) by (rewrite Forall_forall in Hp; specialize (Hp t Ht); lia).
  rewrite (proj2 (Z.eqb_neq f 0)) by lia. destruct (Z.ltb_spec (getPaidFee tx) f).
  - split; [exists tx; split; [set_solver|done]|]. apply Forall_app. split; [|by repeat constructor].
    eapply Forall_impl; [exact Hle|]. simpl. intros. lia.
  - split; [exists t; split; [set_solver|done]|]. apply Forall_app. split; [done|by repeat constructor].
Qed.

(** The fees of the accounts are what their transactions pay. *)
Lemma accountFees_pays a l : Forall (fun tx => 0 <= getPaidFee tx) l ->
  pays (default 0 (accountFees l !! a)) (accountTxs a l).
Proof.
  induction l as [|tx l IH] using rev_ind; intros Hpos; [by exists [], []|].
  apply Forall_app in Hpos as [Hpos Htx]. apply Forall_cons in Htx as [Htx _]. specialize (IH Hpos).
  unfold accountFees, accountTxs in *. rewrite foldl_app, filter_app, filter_cons, filter_nil.
  set (m := foldl _ _ l) in *. cbn [foldl]. destruct (decide (getSourceID tx = a)) as [<-|Hne].
  - pose proof (pays_snoc _ _ tx IH Htx) as Hs. revert Hs.
    destruct (default 0 (m !! getSourceID tx) =? 0); [by rewrite lookup_insert_eq|].
    destruct (getPaidFee tx <? default 0 (m !! getSourceID tx)); [by rewrite lookup_insert_eq|done].
  - rewrite app_nil_r. repeat case_match; try rewrite lookup_insert_ne by done; done.
Qed.

(** Where nothing is free, an account pays the lowest of its fees. *)
Lemma pays_lowest f l : pays f l -> Forall (fun tx => 0 < getPaidFee tx) l -> l <> [] ->
  (exists tx, tx ∈ l /\ getPaidFee tx = f) /\ Forall (fun tx => f <= getPaidFee tx) l.
Proof.
  intros (l1 & l2 & -> & Hl & _ & Hf) Hpos Hne. destruct l1 as [|x l1] using rev_ind.
  - simpl in *. by destruct l2.
  - exfalso. specialize (Hl x (last_snoc _ _)). rewrite !Forall_app in Hpos.
    destruct Hpos as [[_ Hx] _]. apply Forall_cons in Hx as [Hx _]. lia.
Qed.

(** [surgePricingFilter] keeps as many transactions as may be, those of the accounts that pay
    most and of an account those with the least salts. *)
Lemma surge_spec max s : exists dropped,
  mTransactions s ≡ₚ mTransactions (surgePricingFilter max s) ++ dropped /\
  mTransactions (surgePricingFilter max s) `sublist_of` mTransactions s /\
  mPreviousLedgerHash (surgePricingFilter max s) = mPreviousLedgerHash s /\
  length (mTransactions (surgePricingFilter max s)) = Nat.min max (length (mTransactions s)) /\
  forall t1 t2, t1 ∈ mTransactions (surgePricingFilter max s) -> t2 ∈ dropped ->
    surge_le (accountFees (mTransactions s)) t1 t2.
Proof.
  unfold surgePricingFilter. destruct (Nat.ltb_spec max (length (mTransactions s))) as [Hlt|Hge].
  2: { exists []. rewrite app_nil_r. split; [done|]. split; [done|]. split; [done|]. split; [lia|].
       by intros ? ? ? ?%elem_of_nil. }
  set (fees := accountFees _). set (temp := std_sort (SurgeSorter fees) (mTransactions s)).
  destruct (removeTxs_set (drop max temp) s) as [E1 E2]. cbv zeta in E1, E2.
  assert (temp ≡ₚ mTransactions s) as Ht by apply std_sort_perm.
  destruct (eraseTxs_spec (drop max temp) (mTransactions s) (take max temp)) as [H1 H2].
  { rewrite Permutation_app_comm, take_drop. by symmetry. }
  exists (drop max temp). rewrite E1, E2. split; [|split; [done|split; [done|split]]].
  - by rewrite H1, take_drop, Ht.
  - rewrite H1, length_take, Ht. lia.
  - intros t1 t2 Hin1 Hin2. rewrite H1 in Hin1. apply notLess_surge.
    pose proof (std_sort_sorted (SurgeSorter fees) (mTransactions s) (weak_order_surge fees)) as Hsort.
    fold temp in Hsort. rewrite <- (take_drop max temp) in Hsort. by eapply StronglySorted_app_1_elem_of.
Qed.

(** ** Checking *)

Lemma hashesSorted_sorted l : forall h, hashesSorted h l = true <->
  StronglySorted (notLess HashTxSorter) l /\ Forall (fun tx => (h <= getFullHash tx)%N) l.
Proof.
  induction l as [|tx l IH]; intros h; simpl; [split; [repeat constructor|done]|].
  destruct (N.ltb_spec (getFullHash tx) h) as [Hlt|Hge].
  - split; [done|]. intros [_ HF]. apply Forall_cons in HF as [HF _]. lia.
  - rewrite IH. unfold notLess, HashTxSorter. split.
    + intros [Hs HF]. repeat constructor; try done.
      * eapply Forall_impl; [apply HF|]. intros t Ht. simpl in *. apply N.ltb_ge. lia.
      * eapply Forall_impl; [apply HF|]. intros t Ht. simpl in *. lia.
    + intros [Hs HF]. apply StronglySorted_inv in Hs as [Hs Hh]. split; [done|].
      eapply Forall_impl; [apply Hh|]. intros t Ht. simpl in *. by apply N.ltb_ge in Ht.
Qed.

(** [checkValid] accepts exactly the sets on the last closed ledger that are not too large,
    sorted by hash and have only valid transactions. *)
Lemma checkValid_iff lcl max s : checkValid txValid lcl max s = true <->
  mPreviousLedgerHash s = lcl /\ (length (mTransactions s) <= max)%nat /\
  StronglySorted (notLess HashTxSorter) (mTransactions s) /\ Forall (fun tx => txValid tx = true) (mTransactions s).
Proof.
  unfold checkValid. assert (hashesSorted 0%N (mTransactions s) = true <->
    StronglySorted (notLess HashTxSorter) (mTransactions s)) as Hs.
  { rewrite hashesSorted_sorted. split; [tauto|]. intros ?. split; [done|]. apply Forall_forall. intros. lia. }
  assert (forallb txValid (visitOrder (mTransactions s)) = true <-> Forall (fun tx => txValid tx = true) (mTransactions s)) as Hv.
  { rewrite <- (visitOrder_perm (mTransactions s)) at 2. rewrite forallb_forall, Forall_forall.
    by setoid_rewrite list_elem_of_In. }
  case_bool_decide as E; simpl; [|split; [done|]; intros [? _]; congruence].
  destruct (Nat.ltb_spec max (length (mTransactions s))); [split; [done|]; intros (_ & ? & _); lia|].
  destruct (hashesSorted 0%N (mTransactions s)); simpl; [rewrite Hv; naive_solver|]. naive_solver.
Qed.

(** C23. The set that [triggerNextLedger] proposes, trimmed and filtered, always passes
    [checkValid], so the call does not throw that it wants to emit an invalid set.  It has
    only transactions of the queue that are valid: all of them if they fit, else as many
    as may be, and of the accounts that pay most: no account with a transaction in the set pays less
    than one with a transaction that was dropped.  What an account pays ([pays]) is the lowest fee of
    its transactions, in the order of their hashes, after the last one that is free; so it is the lowest
    of its fees where none is free, and a free one is forgotten when others come after it
    ([free_transaction_forgotten]).  Of one account the transactions with the least salts are kept. *)
Theorem proposed_set_is_valid lcl max s : mPreviousLedgerHash s = lcl ->
  Forall (fun tx => 0 <= getPaidFee tx) (mTransactions s) ->
  let '(removed, s1) := trimInvalid txValid s in
  let s2 := surgePricingFilter max s1 in
  checkValid txValid lcl max s2 = true /\
  removed ≡ₚ filter (fun tx => txValid tx = false) (mTransactions s) /\
  StronglySorted (fun t1 t2 => (getFullHash t1 <= getFullHash t2)%N) (mTransactions s1) /\
  exists dropped,
    filter (fun tx => txValid tx = true) (mTransactions s) ≡ₚ mTransactions s2 ++ dropped /\
    (dropped <> [] -> length (mTransactions s2) = max) /\
    forall t1 t2, t1 ∈ mTransactions s2 -> t2 ∈ dropped ->
      exists f1 f2, pays f1 (accountTxs (getSourceID t1) (mTransactions s1)) /\
        pays f2 (accountTxs (getSourceID t2) (mTransactions s1)) /\ f2 <= f1 /\
        (getSourceID t1 = getSourceID t2 -> getSalt t1 <= getSalt t2).
Proof.
  intros Hp Hpos. pose proof (trimInvalid_spec s) as Ht. destruct (trimInvalid txValid s) as [removed s1].
  destruct Ht as (Hr & H1 & Hs & Hp1). cbv zeta.
  destruct (surge_spec max s1) as (dropped & Hd & Hsub & Hp2 & Hlen & Hle).
  set (s2 := surgePricingFilter max s1) in *.
  assert (Hpos1 : Forall (fun tx => 0 <= getPaidFee tx) (mTransactions s1)).
  { rewrite H1. apply Forall_forall. intros t [_ Hin]%list_elem_of_filter. by eapply Forall_forall in Hpos. }
  split; [|split; [done|split]].
  - apply checkValid_iff. split; [congruence|]. split; [lia|]. split; [by eapply StronglySorted_sublist|].
    apply Forall_forall. intros t Hin. pose proof (elem_of_sublist _ _ _ Hin Hsub) as Hv. rewrite H1 in Hv.
    by apply list_elem_of_filter in Hv as [? _].
  - eapply StronglySorted_weaken; [|exact Hs]. intros t1 t2. unfold notLess, HashTxSorter. by rewrite N.ltb_ge.
  - exists dropped. split; [by rewrite <- Hd, H1|]. split.
    + intros Hne. apply Permutation_length in Hd. rewrite length_app in Hd. destruct dropped; [done|]. simpl in Hd. lia.
    + intros t1 t2 Hi1 Hi2. specialize (Hle t1 t2 Hi1 Hi2). unfold surge_le in Hle.
      exists (feeOf (accountFees (mTransactions s1)) t1), (feeOf (accountFees (mTransactions s1)) t2).
      split; [by apply accountFees_pays|]. split; [by apply accountFees_pays|]. split; [lia|].
      intros E. assert (feeOf (accountFees (mTransactions s1)) t1 = feeOf (accountFees (mTransactions s1)) t2)
        by (unfold feeOf; by rewrite E). lia.
Qed.

End theorems.
