(* ===== verification/HerderValues.v ===== *)
(** * The values the herder agrees on

    The part of [herder/HerderImpl.cpp] that implements what [SCPDriver] asks about values:
    [validateValue], [extractValidValue], [combineCandidates].  A value is the XDR form of
    a [StellarValue]: a transaction set, a close time and upgrade steps.

    XDR forms, the longest step and the numbers of the enumeration of upgrade types are not in
    the tree: they are the class [ValueExterns], with the round trip of encoding.  A step that decodes is
    of one of the four types the sources handle.  What the functions read of the ledger
    manager, the configuration, the clock and the cache of transaction sets is [HerderView]
    (that a set becomes the most recent one of the cache when it is looked up is part of
    [Herder.v]).

    The theorems say how far these are what [SCPDriver.h] asks for. *)

From Stdlib Require Import ZArith Lia String.
From stdpp Require Import sorting.
From stdpp Require Import base tactics gmap option list.
From S2P Require Import Prelude ScpTypes Balance TxSet.

Open Scope Z_scope.

Inductive LedgerUpgradeType := UVersion | UMaxTxSetSize | UExternalSystemIDGenerator | UTxExpirationPeriod.

#[export] Instance LedgerUpgradeType_eq_dec : EqDecision LedgerUpgradeType.
Proof. solve_decision. Defined.

Inductive LedgerUpgrade :=
| VERSION (newLedgerVersion : Z)
| MAX_TX_SET_SIZE (newMaxTxSetSize : Z)
| EXTERNAL_SYSTEM_ID_GENERATOR (newExternalSystemIDGenerators : list Z)
| TX_EXPIRATION_PERIOD (newTxExpirationPeriod : Z).

#[export] Instance LedgerUpgrade_eq_dec : EqDecision LedgerUpgrade.
Proof. solve_decision. Defined.

Definition upgradeType (u : LedgerUpgrade) : LedgerUpgradeType :=
  match u with
  | VERSION _ => UVersion
  | MAX_TX_SET_SIZE _ => UMaxTxSetSize
  | EXTERNAL_SYSTEM_ID_GENERATOR _ => UExternalSystemIDGenerator
  | TX_EXPIRATION_PERIOD _ => UTxExpirationPeriod
  end.

Record StellarValue := mkStellarValue {
  txSetHash : Hash;
  closeTime : Z;
  upgrades : list (list N) }.

Class ValueExterns := {
  upgradeInt : LedgerUpgradeType -> Z;
  upgradeInt_inj :: Inj (=) (=) upgradeInt;
  decodeValue : Value -> option StellarValue;
  encodeValue : StellarValue -> Value;
  decode_encode_value : forall b, decodeValue (encodeValue b) = Some b;
  decodeUpgrade : list N -> option LedgerUpgrade;
  encodeUpgrade : LedgerUpgrade -> list N;
  decode_encode_upgrade : forall u, decodeUpgrade (encodeUpgrade u) = Some u;
  upgradeMaxSize : nat;
  valueSha256 : Value -> Hash }.

Record ConsensusData := mkConsensusData {
  mConsensusIndex : Z;
  mConsensusValue : StellarValue }.

Definition lastConsensusLedgerIndex (d : ConsensusData) : Z := u32 (mConsensusIndex d).
Definition nextConsensusLedgerIndex (d : ConsensusData) : Z := u32 (lastConsensusLedgerIndex d + 1).

Definition MAX_TIME_SLIP_SECONDS : Z := 60.

Record HerderView := mkHerderView {
  lmIsSynced : bool;
  lclSeq : Z;
  lclHash : Hash;
  lclCloseTime : Z;
  lclMaxTxSetSize : nat;
  viewTracking : option ConsensusData;
  timeNow : Z;
  viewTxSet : Hash -> option TxSetFrame;
  LEDGER_PROTOCOL_VERSION : Z;
  DESIRED_MAX_TX_PER_LEDGER : Z;
  CONFIG_TX_EXPIRATION_PERIOD : Z;
  availableGenerators : list Z;
  viewTxValid : Transaction -> bool }.

(** The upgrades so far, by the number of their type ([std::map<LedgerUpgradeType, ...>]). *)
Abbreviation UpgradeMap := (gmap Z LedgerUpgrade).

Section values.
Context `{ValueExterns} `{StdSort} (contentsHash : Hash -> list Transaction -> Hash) (v : HerderView).

Definition isSlotCompatibleWithCurrentState (slotIndex : Z) : bool :=
  if lmIsSynced v then slotIndex =? u32 (lclSeq v + 1) else false.

(** The end of [validateValueHelper], when the close time of the slot before is known. *)
Definition validateAfter (compat : bool) (lastCloseTime : Z) (b : StellarValue) : ValidationLevel :=
  if closeTime b <=? lastCloseTime then kInvalidValue
  else if u64 (timeNow v + MAX_TIME_SLIP_SECONDS) <? closeTime b then kInvalidValue
  else if negb compat then kMaybeValidValue
  else match viewTxSet v (txSetHash b) with
       | None => kInvalidValue
       | Some txSet =>
           if negb (checkValid (viewTxValid v) (lclHash v) (lclMaxTxSetSize v) txSet) then kInvalidValue
           else kFullyValidatedValue
       end.

Definition validateValueHelper (slotIndex : Z) (b : StellarValue) : ValidationLevel :=
  if isSlotCompatibleWithCurrentState slotIndex then validateAfter true (lclCloseTime v) b
  else match viewTracking v with
       | None => kMaybeValidValue
       | Some t =>
           if slotIndex <? nextConsensusLedgerIndex t then kMaybeValidValue
           else if nextConsensusLedgerIndex t <? slotIndex then kInvalidValue
           else validateAfter false (closeTime (mConsensusValue t)) b
       end.

(** Whether [validateUpgradeStep] accepts a step that decodes. *)
Definition upgradeAllowed (u : LedgerUpgrade) : bool :=
  match u with
  | VERSION newVersion => newVersion =? LEDGER_PROTOCOL_VERSION v
  | MAX_TX_SET_SIZE newMax =>
      (u32 (DESIRED_MAX_TX_PER_LEDGER v * 7) / 10 <=? newMax) &&
      (newMax <=? u32 (DESIRED_MAX_TX_PER_LEDGER v * 13) / 10)
  | EXTERNAL_SYSTEM_ID_GENERATOR gs => forallb (fun g => bool_decide (g ∈ availableGenerators v)) gs
  | TX_EXPIRATION_PERIOD p => p =? CONFIG_TX_EXPIRATION_PERIOD v
  end.

(** [validateUpgradeStep]: the type of the step when it is valid. *)
Definition validateUpgradeStep (upgrade : list N) : option LedgerUpgradeType :=
  match decodeUpgrade upgrade with
  | None => None
  | Some u => if upgradeAllowed u then Some (upgradeType u) else None
  end.

(** The loop of [validateValue] over the steps.  After an invalid step the type of the last
    one is indeterminate, and whatever is compared with it the value stays invalid. *)
Fixpoint upgradesInOrder (last : option LedgerUpgradeType) (us : list (list N)) : bool :=
  match us with
  | [] => true
  | u :: us' =>
      match validateUpgradeStep u with
      | None => false
      | Some this =>
          match last with
          | Some l => if upgradeInt this <=? upgradeInt l then false else upgradesInOrder (Some this) us'
          | None => upgradesInOrder (Some this) us'
          end
      end
  end.

Definition herder_validateValue (slotIndex : Z) (value : Value) : ValidationLevel :=
  match decodeValue value with
  | None => kInvalidValue
  | Some b =>
      match validateValueHelper slotIndex b with
      | kInvalidValue => kInvalidValue
      | res => if upgradesInOrder None (upgrades b) then res else kInvalidValue
      end
  end.

(** The steps [extractValidValue] keeps. *)
Definition keepSteps (us : list (list N)) : list (list N) := filter (fun u => is_Some (validateUpgradeStep u)) us.

Definition herder_extractValidValue (slotIndex : Z) (value : Value) : Value :=
  match decodeValue value with
  | None => []
  | Some b =>
      match validateValueHelper slotIndex b with
      | kFullyValidatedValue => encodeValue (mkStellarValue (txSetHash b) (closeTime b) (keepSteps (upgrades b)))
      | _ => []
      end
  end.

(** ** Combining candidates *)

Definition mergeUpgrade (old new : LedgerUpgrade) : LedgerUpgrade :=
  match old, new with
  | VERSION a, VERSION b => if a <? b then VERSION b else VERSION a
  | MAX_TX_SET_SIZE a, MAX_TX_SET_SIZE b => if a <? b then MAX_TX_SET_SIZE b else MAX_TX_SET_SIZE a
  | EXTERNAL_SYSTEM_ID_GENERATOR _, EXTERNAL_SYSTEM_ID_GENERATOR b => EXTERNAL_SYSTEM_ID_GENERATOR b
  | TX_EXPIRATION_PERIOD _, TX_EXPIRATION_PERIOD b => TX_EXPIRATION_PERIOD b
  | old, _ => old
  end.

Definition addUpgrade (u : LedgerUpgrade) (m : UpgradeMap) : UpgradeMap :=
  let k := upgradeInt (upgradeType u) in
  <[k := match m !! k with None => u | Some old => mergeUpgrade old u end]> m.

Definition corrupt : exn := RuntimeError "xdr_runtime_error".

Fixpoint addUpgrades (us : list (list N)) (m : UpgradeMap) : exn + UpgradeMap :=
  match us with
  | [] => inr m
  | u :: us' => match decodeUpgrade u with None => inl corrupt | Some u => addUpgrades us' (addUpgrade u m) end
  end.

(** The loop over the candidates: the decoded values in order, the hash of all, the close
    time and the upgrades. *)
Fixpoint scanCandidates (cs : list Value) (hash : Hash) (time : Z) (m : UpgradeMap) :
    exn + (list StellarValue * Hash * Z * UpgradeMap) :=
  match cs with
  | [] => inr ([], hash, time, m)
  | c :: cs' =>
      match decodeValue c with
      | None => inl corrupt
      | Some sv =>
          match addUpgrades (upgrades sv) m with
          | inl e => inl e
          | inr m =>
              match scanCandidates cs' (N.lxor hash (valueSha256 c))
                      (if time <? closeTime sv then closeTime sv else time) m with
              | inl e => inl e
              | inr (svs, h, t, m) => inr (sv :: svs, h, t, m)
              end
          end
      end
  end.

(** The loop that looks for the set with the most transactions. *)
Definition betterTxSet (candidatesHash : Hash) (best : option TxSetFrame * Hash) (sv : StellarValue) :
    option TxSetFrame * Hash :=
  match viewTxSet v (txSetHash sv) with
  | None => best
  | Some c =>
      if negb (bool_decide (mPreviousLedgerHash c = lclHash v)) then best
      else match best.1 with
           | None => (Some c, txSetHash sv)
           | Some h =>
               if (length (mTransactions h) <? length (mTransactions c))%nat ||
                  (length (mTransactions c) =? length (mTransactions h))%nat &&
                  lessThanXored best.2 (txSetHash sv) candidatesHash
               then (Some c, txSetHash sv) else best
           end
  end.

(** [combineCandidates]: the value, and the set that is posted to [recvTxSet] when transactions
    had to be taken out of it. *)
Definition herder_combineCandidates (candidates : gset Value) : exn + (Value * option (Hash * TxSetFrame)) :=
  match scanCandidates (set_asc candidates) 0%N 0 ∅ with
  | inl e => inl e
  | inr (svs, candidatesHash, time, ups) =>
      match (foldl (betterTxSet candidatesHash) (None, 0%N) svs).1 with
      | None => inl NullDeref
      | Some highestTxSet =>
          let '(removed, bestTxSet) := trimInvalid (viewTxValid v) highestTxSet in
          let '(h, bestTxSet) := getContentsHash contentsHash bestTxSet in
          inr (encodeValue (mkStellarValue h time (map (fun p => encodeUpgrade p.2) (map_asc ups))),
               match removed with [] => None | _ => Some (h, bestTxSet) end)
      end
  end.

End values.

Section theorems.
Context `{ValueExterns} `{StdSort} (contentsHash : Hash -> list Transaction -> Hash) (v : HerderView).

(** ** Steps *)

Definition stepLt : relation LedgerUpgradeType := fun a b => upgradeInt a < upgradeInt b.

(** The steps are all valid, of ascending types. *)
Definition stepTypes (us : list (list N)) : list LedgerUpgradeType := omap (validateUpgradeStep v) us.

Lemma upgradesInOrder_iff us : forall last, upgradesInOrder v last us = true <->
  Forall (fun u => is_Some (validateUpgradeStep v u)) us /\ StronglySorted stepLt (stepTypes us) /\
  (forall l, last = Some l -> Forall (stepLt l) (stepTypes us)).
Proof.
  unfold stepTypes. induction us as [|u us IH]; intros last; simpl.
  { split; [|done]. intros _. split; [done|]. split; [constructor|done]. }
  destruct (validateUpgradeStep v u) as [this|] eqn:E.
  2: { split; [done|]. intros [HF _]. apply Forall_cons in HF as [[? HF] _]. congruence. }
  assert (forall P, (Forall (fun u => is_Some (validateUpgradeStep v u)) us /\
      StronglySorted stepLt (omap (validateUpgradeStep v) us) /\
      (forall l, Some this = Some l -> Forall (stepLt l) (omap (validateUpgradeStep v) us))) /\ P <->
    Forall (fun u => is_Some (validateUpgradeStep v u)) (u :: us) /\
      StronglySorted stepLt (this :: omap (validateUpgradeStep v) us) /\ P) as Heq.
  { intros P. rewrite Forall_cons, E. split.
    - intros ((H1 & H2 & H3) & HP). split; [split; [by eexists|done]|]. split; [|done]. constructor; [done|]. by apply H3.
    - intros ((_ & H1) & H2 & HP). apply StronglySorted_inv in H2 as [H2 H3]. repeat split; try done. by intros l [= <-]. }
  destruct last as [l|].
  - destruct (Z.leb_spec (upgradeInt this) (upgradeInt l)) as [Hle|Hlt].
    + split; [done|]. intros (_ & _ & HF). specialize (HF l eq_refl). apply Forall_cons in HF as [HF _].
      unfold stepLt in HF. lia.
    + rewrite IH, <- Heq. split; [|tauto]. intros H'. split; [done|]. intros l' [= <-]. constructor; [done|].
      destruct H' as (_ & _ & HF). eapply Forall_impl; [by apply HF|]. intros t Ht. unfold stepLt in *. lia.
  - rewrite IH, <- Heq. split; [|tauto]. intros H'. split; [done|]. by intros l [=].
Qed.

Lemma keepSteps_valid us : Forall (fun u => is_Some (validateUpgradeStep v u)) (keepSteps v us).
Proof. apply Forall_forall. intros u Hu. by apply list_elem_of_filter in Hu as [? _]. Qed.

Lemma keepSteps_types us : stepTypes (keepSteps v us) = stepTypes us.
Proof.
  unfold stepTypes, keepSteps. induction us as [|u us IH]; [done|]. rewrite filter_cons. simpl.
  destruct (validateUpgradeStep v u) as [t|] eqn:E.
  - rewrite decide_True by (by eexists). simpl. rewrite E. f_equal. exact IH.
  - rewrite decide_False by (by intros [? ?]). done.
Qed.

(** C35. [SCPDriver.h] promises that what [extractValidValue] gives is a value the node would
    agree to.  The herder drops the steps it does not agree to and does not look at the
    order of the others: the promise is kept if and only if the valid steps of the value
    are of ascending types.  A value whose other parts are not fully valid gives none. *)
Theorem extract_valid_iff_ordered slotIndex value b : decodeValue value = Some b ->
  let r := herder_extractValidValue v slotIndex value in
  (validateValueHelper v slotIndex b <> kFullyValidatedValue -> r = []) /\
  (validateValueHelper v slotIndex b = kFullyValidatedValue ->
   herder_validateValue v slotIndex r = kFullyValidatedValue <-> StronglySorted stepLt (stepTypes (upgrades b))).
Proof.
  intros Hb. cbv zeta. unfold herder_extractValidValue. rewrite Hb. split; [by destruct (validateValueHelper v slotIndex b)|].
  intros Hv. rewrite Hv. unfold herder_validateValue. rewrite decode_encode_value. cbn [upgrades].
  assert (validateValueHelper v slotIndex (mkStellarValue (txSetHash b) (closeTime b) (keepSteps v (upgrades b))) =
    validateValueHelper v slotIndex b) as -> by done. rewrite Hv.
  pose proof (upgradesInOrder_iff (keepSteps v (upgrades b)) None) as Ho. rewrite keepSteps_types in Ho.
  destruct (upgradesInOrder v None (keepSteps v (upgrades b))).
  - split; [intros _; by apply Ho|done].
  - split; [done|]. intros Hs. assert (false = true); [|done]. apply Ho. split; [apply keepSteps_valid|done].
Qed.

(** ** Combining upgrades *)

Definition upgrades_ok (m : UpgradeMap) : Prop := forall k u, m !! k = Some u ->
  k = upgradeInt (upgradeType u) /\ upgradeAllowed v u = true.

Lemma mergeUpgrade_ok old u : upgradeType old = upgradeType u -> upgradeAllowed v old = true -> upgradeAllowed v u = true ->
  upgradeType (mergeUpgrade old u) = upgradeType u /\ upgradeAllowed v (mergeUpgrade old u) = true.
Proof. destruct old, u; simpl; intros; try done; by destruct (_ <? _). Qed.

Lemma addUpgrade_ok u m : upgrades_ok m -> upgradeAllowed v u = true -> upgrades_ok (addUpgrade u m).
Proof.
  intros Hm Hu k u' Hk. unfold addUpgrade in Hk. cbv zeta in Hk. destruct (decide (k = upgradeInt (upgradeType u))) as [->|Hne].
  - rewrite lookup_insert_eq in Hk. injection Hk as <-. destruct (m !! upgradeInt (upgradeType u)) as [old|] eqn:E; [|done].
    destruct (Hm _ _ E) as [Et Ha]. apply (inj upgradeInt) in Et.
    destruct (mergeUpgrade_ok old u) as [-> ?]; done.
  - rewrite lookup_insert_ne in Hk by done. by apply Hm.
Qed.

Lemma validateUpgradeStep_allowed us : is_Some (validateUpgradeStep v us) ->
  exists u, decodeUpgrade us = Some u /\ upgradeAllowed v u = true.
Proof.
  unfold validateUpgradeStep. destruct (decodeUpgrade us) as [u|]; [|by intros [? [=]]].
  destruct (upgradeAllowed v u) eqn:E; [eauto|by intros [? [=]]].
Qed.

Lemma addUpgrades_ok us : forall m, upgrades_ok m -> Forall (fun u => is_Some (validateUpgradeStep v u)) us ->
  exists m', addUpgrades us m = inr m' /\ upgrades_ok m'.
Proof.
  induction us as [|u us IH]; intros m Hm HF; simpl; [eauto|]. apply Forall_cons in HF as [Hu HF].
  destruct (validateUpgradeStep_allowed u Hu) as (w & -> & Hw). apply IH; [|done]. by apply addUpgrade_ok.
Qed.

Lemma encoded_step u : upgradeAllowed v u = true -> validateUpgradeStep v (encodeUpgrade u) = Some (upgradeType u).
Proof. intros Hu. unfold validateUpgradeStep. by rewrite decode_encode_upgrade, Hu. Qed.

(** The steps of the combined value: one of a type, by ascending types, all valid. *)
Lemma combined_steps m : upgrades_ok m ->
  upgradesInOrder v None (map (fun p => encodeUpgrade p.2) (map_asc m)) = true.
Proof.
  intros Hm. apply upgradesInOrder_iff.
  assert (forall p, p ∈ map_asc m -> p.1 = upgradeInt (upgradeType p.2) /\ upgradeAllowed v p.2 = true) as Hp.
  { intros [k u] Hin. apply elem_of_map_asc in Hin. by apply Hm. }
  assert (StronglySorted (fun p q : Z * LedgerUpgrade => p.1 < q.1) (map_asc m)) as Hsort.
  { assert (StronglySorted key_le (map_asc m)) as Hs.
    { apply StronglySorted_merge_sort; [intros x y z; unfold key_le; simpl; lia|].
      intros x y. unfold key_le. simpl. lia. }
    pose proof (NoDup_map_asc m) as Hnd.
    induction Hs as [|p ps Hs IH HF]; [constructor|]. simpl in Hnd. apply NoDup_cons in Hnd as [Hn Hnd].
    constructor; [apply IH; [|done]; intros; apply Hp; by right|].
    apply Forall_forall. intros q Hq. eapply Forall_forall in HF; [|done]. unfold key_le in HF. simpl in HF.
    assert (p.1 <> q.1); [|lia]. intros E. apply Hn. rewrite E. by apply list_elem_of_fmap_2. }
  split; [|split; [|by intros ? [=]]].
  - apply Forall_map, Forall_forall. intros p Hin. simpl. rewrite encoded_step by (by apply Hp). by eexists.
  - unfold stepTypes. clear Hm. induction Hsort as [|p ps Hs IH HF]; [constructor|]. simpl.
    destruct (Hp p) as [Ek Ha]; [left|]. rewrite encoded_step by done.
    assert (forall q, q ∈ ps -> q.1 = upgradeInt (upgradeType q.2) /\ upgradeAllowed v q.2 = true) as Hp'
      by (intros; apply Hp; by right).
    constructor; [by apply IH|]. apply Forall_forall. intros t Ht. apply list_elem_of_omap in Ht as (x & Hx & Et).
    apply list_elem_of_fmap in Hx as (q & -> & Hq). destruct (Hp' q Hq) as [Ek' Ha'].
    rewrite encoded_step in Et by done. injection Et as <-. unfold stepLt.
    eapply Forall_forall in HF; [|done]. simpl in HF. lia.
Qed.

(** ** Combining candidates *)

(** What a fully validated value says, in a slot that is the next one of the ledger. *)
Lemma validated_inv slotIndex c : isSlotCompatibleWithCurrentState v slotIndex = true ->
  herder_validateValue v slotIndex c = kFullyValidatedValue -> exists b s,
    decodeValue c = Some b /\ upgradesInOrder v None (upgrades b) = true /\
    lclCloseTime v < closeTime b <= u64 (timeNow v + MAX_TIME_SLIP_SECONDS) /\
    viewTxSet v (txSetHash b) = Some s /\ checkValid (viewTxValid v) (lclHash v) (lclMaxTxSetSize v) s = true.
Proof.
  intros Hc. unfold herder_validateValue, validateValueHelper. rewrite Hc. destruct (decodeValue c) as [b|]; [|done].
  unfold validateAfter. destruct (closeTime b <=? lclCloseTime v) eqn:E1; [done|].
  destruct (u64 _ <? closeTime b) eqn:E2; [done|]. simpl. destruct (viewTxSet v (txSetHash b)) as [s|] eqn:E3; [|done].
  destruct (checkValid _ _ _ s) eqn:E4; [|done]. simpl. destruct (upgradesInOrder v None (upgrades b)) eqn:E5; [|done].
  intros _. exists b, s. propify. repeat split; try done.
Qed.

Definition goodValue (b : StellarValue) : Prop :=
  lclCloseTime v < closeTime b <= u64 (timeNow v + MAX_TIME_SLIP_SECONDS) /\
  exists s, viewTxSet v (txSetHash b) = Some s /\ checkValid (viewTxValid v) (lclHash v) (lclMaxTxSetSize v) s = true.

Lemma scanCandidates_ok slotIndex cs : isSlotCompatibleWithCurrentState v slotIndex = true ->
  (forall c, c ∈ cs -> herder_validateValue v slotIndex c = kFullyValidatedValue) ->
  forall h t m, upgrades_ok m -> exists svs h' t' m', scanCandidates cs h t m = inr (svs, h', t', m') /\
    length svs = length cs /\ Forall goodValue svs /\ upgrades_ok m' /\ (t' = t \/ exists sv, sv ∈ svs /\ t' = closeTime sv) /\
    t <= t' /\ Forall (fun sv => closeTime sv <= t') svs.
Proof.
  intros Hc. induction cs as [|c cs IH]; intros Hcs h t m Hm; simpl.
  { exists [], h, t, m. split_and!; [done|done|constructor|done|by left|lia|constructor]. }
  destruct (validated_inv slotIndex c Hc) as (b & s & -> & Hu & Ht & Hs & Hv); [apply Hcs; left|].
  apply upgradesInOrder_iff in Hu as [Hu _]. destruct (addUpgrades_ok _ m Hm Hu) as (m1 & -> & Hm1).
  destruct (IH ltac:(intros; apply Hcs; by right) (N.lxor h (valueSha256 c))
    (if t <? closeTime b then closeTime b else t) m1 Hm1) as (svs & h' & t' & m' & -> & Hl & HF & Hm' & Ht' & Hle & HFt).
  exists (b :: svs), h', t', m'. split; [done|]. simpl. split; [by rewrite Hl|]. split; [constructor; [|done]; split; eauto|].
  split; [done|]. destruct (Z.ltb_spec t (closeTime b)); (split; [|split; [lia|constructor; [lia|done]]]).
  - right. destruct Ht' as [->|(sv & Hin & ->)]; [exists b|exists sv]; split; try done; by constructor.
  - destruct Ht' as [->|(sv & Hin & ->)]; [by left|right; exists sv; split; [by constructor|done]].
Qed.

(** The set that is taken is one of the candidates'. *)
Lemma betterTxSet_ok h svs : Forall goodValue svs -> forall best,
  (forall s, best.1 = Some s -> viewTxSet v best.2 = Some s /\ checkValid (viewTxValid v) (lclHash v) (lclMaxTxSetSize v) s = true) ->
  best.1 <> None \/ svs <> [] -> exists s h', foldl (betterTxSet v h) best svs = (Some s, h') /\
    viewTxSet v h' = Some s /\ checkValid (viewTxValid v) (lclHash v) (lclMaxTxSetSize v) s = true.
Proof.
  induction 1 as [|sv svs (_ & s & Hs & Hv) HF IH]; intros best Hb Hne; simpl.
  { destruct best as [[s|] h']; [|naive_solver]. exists s, h'. destruct (Hb s eq_refl). done. }
  apply IH.
  - unfold betterTxSet. rewrite Hs. pose proof Hv as (Hp & _)%checkValid_iff. rewrite bool_decide_true by done. simpl.
    destruct best as [[s0|] h0]; simpl in *; [case_match|]; intros s' [= <-]; simpl; auto.
  - left. unfold betterTxSet. rewrite Hs. pose proof Hv as (Hp & _)%checkValid_iff. rewrite bool_decide_true by done. simpl.
    destruct best as [[s0|] h0]; simpl in *; [case_match|]; done.
Qed.

(** A set is in the cache under the hash of its contents; the hash of the contents is one of
    the hashes of the transactions in their order. *)
Definition cache_consistent : Prop := forall h s, viewTxSet v h = Some s ->
  contentsHash (mPreviousLedgerHash s) (std_sort HashTxSorter (mTransactions s)) = h.

Definition hash_of_hashes : Prop := forall p l l', map getFullHash l = map getFullHash l' -> contentsHash p l = contentsHash p l'.

Lemma sorted_hashes l l' : l ≡ₚ l' -> StronglySorted (notLess HashTxSorter) l -> StronglySorted (notLess HashTxSorter) l' ->
  map getFullHash l = map getFullHash l'.
Proof.
  intros Hp Hl Hl'. apply (StronglySorted_unique N.le); [..|by apply fmap_Permutation].
  all: eapply StronglySorted_fmap; [|eassumption]; intros x y; unfold notLess, HashTxSorter; intros E%N.ltb_ge; done.
Qed.

(** A valid set has the hash it is found under, and nothing is trimmed of it. *)
Lemma trim_valid h s : cache_consistent -> hash_of_hashes -> viewTxSet v h = Some s ->
  checkValid (viewTxValid v) (lclHash v) (lclMaxTxSetSize v) s = true ->
  let '(removed, s') := trimInvalid (viewTxValid v) s in
  removed = [] /\ (getContentsHash contentsHash s').1 = h.
Proof.
  intros Hcache Hh Hs Hv. apply checkValid_iff in Hv as (Hp & _ & Hsort & HF).
  assert (invalidTxs (viewTxValid v) (mTransactions s) = []) as Hno.
  { unfold invalidTxs. destruct (filter _ _) as [|x l] eqn:E; [done|]. assert (x ∈ x :: l) as Hx by left. rewrite <- E in Hx.
    apply list_elem_of_filter in Hx as [Hx Hin]. eapply Forall_forall in HF; [|done]. simpl in HF. congruence. }
  pose proof (trimInvalid_spec (viewTxValid v) s) as Ht.
  assert (mHashIsValid (trimInvalid (viewTxValid v) s).2 = false) as Hinv.
  { unfold trimInvalid. cbv zeta. rewrite trim_fold. cbn [snd]. 
    generalize (invalidTxs (viewTxValid v) (visitOrder (mTransactions (sortForHash s)))) as ds. intros ds.
    assert (mHashIsValid (sortForHash s) = false) as E by done. revert E. generalize (sortForHash s) as s0.
    induction ds as [|d ds IH]; intros s0 E; simpl; [done|]. by apply IH. }
  destruct (trimInvalid (viewTxValid v) s) as [removed s'] eqn:Et. destruct Ht as (Hr & Hval & Hs' & Hp').
  rewrite Hno in Hr. apply Permutation_nil_r in Hr. split; [done|].
  assert (mTransactions s' ≡ₚ mTransactions s) as Hperm.
  { rewrite Hval. rewrite (split_valid (viewTxValid v) (mTransactions s)) at 2. by rewrite Hno. }
  unfold getContentsHash. simpl in Hinv. rewrite Hinv. simpl. rewrite Hp', <- (Hcache h s Hs). apply Hh, sorted_hashes.
  - by rewrite !std_sort_perm.
  - apply std_sort_sorted, weak_order_hash.
  - apply std_sort_sorted, weak_order_hash.
Qed.

(** C22. Combining candidates that the node has fully validated gives a value it validates
    fully: the set of one of them, unchanged, the latest close time, and upgrade steps that
    are valid and in order.  Nothing is dereferenced that is not there, and nothing is
    posted. *)
Theorem combine_is_valid (slotIndex : Z) (candidates : gset Value) :
  cache_consistent -> hash_of_hashes -> 0 <= lclCloseTime v -> candidates <> ∅ ->
  isSlotCompatibleWithCurrentState v slotIndex = true ->
  (forall c, c ∈ candidates -> herder_validateValue v slotIndex c = kFullyValidatedValue) ->
  exists value, herder_combineCandidates contentsHash v candidates = inr (value, None) /\
    herder_validateValue v slotIndex value = kFullyValidatedValue.
Proof.
  intros Hcache Hh Hct Hne Hc Hcs. unfold herder_combineCandidates.
  destruct (scanCandidates_ok slotIndex (set_asc candidates) Hc) with (h := 0%N) (t := 0) (m := ∅ : UpgradeMap)
    as (svs & ch & t & m & -> & Hl & HF & Hm & Ht & Hle & HFt).
  { intros c Hin. apply Hcs. by apply elem_of_set_asc. }
  { intros k u. by rewrite lookup_empty. }
  assert (svs <> []) as Hsvs.
  { intros ->. apply set_choose_L in Hne as [c Hin]. apply elem_of_set_asc in Hin.
    destruct (set_asc candidates); [by apply elem_of_nil in Hin|done]. }
  destruct (betterTxSet_ok ch svs HF (None, 0%N)) as (s & h & -> & Hs & Hv); [done|by right|]. cbn [fst].
  pose proof (trim_valid h s Hcache Hh Hs Hv) as Htrim. destruct (trimInvalid (viewTxValid v) s) as [removed s'].
  destruct Htrim as [-> E]. destruct (getContentsHash contentsHash s') as [h' s'']. simpl in E. subst h'.
  eexists. split; [done|]. unfold herder_validateValue. rewrite decode_encode_value.
  unfold validateValueHelper. rewrite Hc. unfold validateAfter. cbn [closeTime txSetHash upgrades].
  assert (lclCloseTime v < t <= u64 (timeNow v + MAX_TIME_SLIP_SECONDS)) as Htime.
  { destruct svs as [|sv svs]; [done|]. apply Forall_cons in HFt as [Hsv _].
    pose proof HF as [(Hsv1 & _) _]%Forall_cons. split; [lia|]. destruct Ht as [->|(x & Hx & ->)]; [lia|].
    eapply Forall_forall in HF; [|done]. by destruct HF as [[_ ?] _]. }
  destruct (Z.leb_spec t (lclCloseTime v)); [lia|]. destruct (Z.ltb_spec (u64 (timeNow v + MAX_TIME_SLIP_SECONDS)) t); [lia|].
  simpl. rewrite Hs, Hv. simpl. by rewrite combined_steps.
Qed.

End theorems.
