(* ===== verification/TxQueue.v ===== *)
(** * The queue of transactions

    [mPendingTransactions] of [herder/HerderImpl.cpp]: the transactions that were received and
    are in no ledger yet, by the number of ledgers that were closed since, four of them;
    within a level by account and hash.  The iteration order of [std::unordered_map] is left
    to [map_to_list].  The sums of fees are [int64_t]; they wrap here where C++ leaves it
    undefined. *)

From Stdlib Require Import ZArith Lia String.
From stdpp Require Import base tactics gmap option list.
From S2P Require Import Prelude ScpTypes Balance TxSet.

Open Scope Z_scope.

Record TxMap := mkTxMap {
  mTotalFees : Z;
  mapTransactions : gmap N Transaction }.

Abbreviation AccountTxMap := (gmap N TxMap).

Inductive TransactionSubmitStatus := TX_STATUS_PENDING | TX_STATUS_DUPLICATE | TX_STATUS_ERROR.

Definition emptyTxMap : TxMap := mkTxMap 0 ∅.

(** [TxMap::addTx] *)
Definition addTx (tx : Transaction) (m : TxMap) : TxMap :=
  match mapTransactions m !! getFullHash tx with
  | Some _ => m
  | None => mkTxMap (s64 (mTotalFees m + getPaidFee tx)) (<[getFullHash tx := tx]> (mapTransactions m))
  end.

(** [TxMap::recalculate] *)
Definition recalculate (m : TxMap) : TxMap :=
  mkTxMap (map_fold (fun _ tx acc => s64 (acc + getPaidFee tx)) 0 (mapTransactions m)) (mapTransactions m).

(** [findOrAdd] *)
Definition findOrAdd (acc : AccountTxMap) (aid : AccountID) : TxMap := default emptyTxMap (acc !! aid).

Definition inLevel (tx : Transaction) (m : AccountTxMap) : bool :=
  match m !! getSourceID tx with
  | Some t => match mapTransactions t !! getFullHash tx with Some _ => true | None => false end
  | None => false
  end.

(** [HerderImpl::recvTransaction]; the sum of fees it computes is not used. *)
Definition recvTransaction (txValid : Transaction -> bool) (tx : Transaction) (q : list AccountTxMap) :
    TransactionSubmitStatus * list AccountTxMap :=
  if existsb (inLevel tx) q then (TX_STATUS_DUPLICATE, q)
  else if negb (txValid tx) then (TX_STATUS_ERROR, q)
  else (TX_STATUS_PENDING,
        alter (fun m => <[getSourceID tx := addTx tx (findOrAdd m (getSourceID tx))]> m) 0%nat q).

(** The inner loop of [removeReceivedTxs] on one level: the level, and the accounts whose fees
    are to be summed again. *)
Definition dropTx (r : AccountTxMap * gset N) (tx : Transaction) : AccountTxMap * gset N :=
  let (m, toRecalculate) := r in
  match m !! getSourceID tx with
  | None => r
  | Some t =>
      match mapTransactions t !! getFullHash tx with
      | None => r
      | Some _ =>
          let txs := delete (getFullHash tx) (mapTransactions t) in
          if decide (txs = ∅) then (delete (getSourceID tx) m, toRecalculate)
          else (<[getSourceID tx := mkTxMap (mTotalFees t) txs]> m, {[getSourceID tx]} ∪ toRecalculate)
      end
  end.

Definition removeFromLevel (dropTxs : list Transaction) (m : AccountTxMap) : AccountTxMap :=
  if decide (m = ∅) then m
  else
    let (m, toRecalculate) := foldl dropTx (m, ∅) dropTxs in
    map_imap (fun a t => Some (if decide (a ∈ toRecalculate) then recalculate t else t)) m.

Definition removeReceivedTxs (dropTxs : list Transaction) (q : list AccountTxMap) : list AccountTxMap :=
  map (removeFromLevel dropTxs) q.

(** All the transactions of the queue, level by level. *)
Definition allPending (q : list AccountTxMap) : list Transaction :=
  concat (map (fun m => concat (map (fun p => (map_to_list (mapTransactions p.2)).*2) (map_to_list m))) q).

(** [updatePendingTransactions]: the transactions that are broadcast again, in order. *)
Definition updatePendingTransactions `{StdSort} (contentsHash : Hash -> list Transaction -> Hash)
    (applied : list Transaction) (q : list AccountTxMap) : list Transaction * list AccountTxMap :=
  let q := removeReceivedTxs applied q in
  let q := ∅ :: removelast q in
  ((sortForApply contentsHash (mkTxSetFrame (allPending q) 0%N 0%N false)).1, q).

(** ** The queue as ages of transactions *)

Definition pendingAt (q : list AccountTxMap) (i : nat) (a : AccountID) (h : Hash) : option Transaction :=
  m ← q !! i; t ← m !! a; mapTransactions t !! h.

Definition inMap (m : AccountTxMap) (a : AccountID) (h : Hash) : option Transaction :=
  t ← m !! a; mapTransactions t !! h.

(** A level: no account without transactions, every sum of fees right, every transaction at
    its place. *)
Record txmap_ok (a : AccountID) (t : TxMap) : Prop := {
  tm_nonempty : mapTransactions t <> ∅;
  tm_fees : mTotalFees t = s64 (msum getPaidFee (mapTransactions t));
  tm_keys : forall h tx, mapTransactions t !! h = Some tx -> h = getFullHash tx /\ a = getSourceID tx }.

Definition level_ok (m : AccountTxMap) : Prop := forall a t, m !! a = Some t -> txmap_ok a t.

Abbreviation Ages := (gmap (N * N) (Transaction * nat)).

Record queue_ages (q : list AccountTxMap) (A : Ages) : Prop := {
  qa_levels : length q = 4%nat;
  qa_ok : Forall level_ok q;
  qa_ages : forall i a h tx, pendingAt q i a h = Some tx <-> A !! (a, h) = Some (tx, i) }.

Inductive QueueCall :=
| QRecv (txValid : Transaction -> bool) (tx : Transaction)
| QRemove (txs : list Transaction)
| QClose (applied : list Transaction).

Definition txKey (tx : Transaction) : N * N := (getSourceID tx, getFullHash tx).

(** What the calls mean. *)
Definition ageCall (x : QueueCall) (A : Ages) : option TransactionSubmitStatus * Ages :=
  match x with
  | QRecv valid tx =>
      match A !! txKey tx with
      | Some _ => (Some TX_STATUS_DUPLICATE, A)
      | None => if valid tx then (Some TX_STATUS_PENDING, <[txKey tx := (tx, 0%nat)]> A)
                else (Some TX_STATUS_ERROR, A)
      end
  | QRemove txs => (None, filter (fun p => p.1 ∉ map txKey txs) A)
  | QClose applied =>
      (None, omap (fun p : Transaction * nat => if (p.2 <? 3)%nat then Some (p.1, S p.2) else None)
               (filter (fun p => p.1 ∉ map txKey applied) A))
  end.

Section queue.
Context `{StdSort} (contentsHash : Hash -> list Transaction -> Hash).

Definition queueCall (x : QueueCall) (q : list AccountTxMap) : option TransactionSubmitStatus * list AccountTxMap :=
  match x with
  | QRecv valid tx => let (st, q) := recvTransaction valid tx q in (Some st, q)
  | QRemove txs => (None, removeReceivedTxs txs q)
  | QClose applied => (None, (updatePendingTransactions contentsHash applied q).2)
  end.

Fixpoint queueRun (xs : list QueueCall) (q : list AccountTxMap) : list (option TransactionSubmitStatus) * list AccountTxMap :=
  match xs with
  | [] => ([], q)
  | x :: xs' => let (r, q) := queueCall x q in let (rs, q) := queueRun xs' q in (r :: rs, q)
  end.

Fixpoint ageRun (xs : list QueueCall) (A : Ages) : list (option TransactionSubmitStatus) * Ages :=
  match xs with
  | [] => ([], A)
  | x :: xs' => let (r, A) := ageCall x A in let (rs, A) := ageRun xs' A in (r :: rs, A)
  end.

(** ** Sums *)

Lemma s64_add a b : s64 (s64 a + b) = s64 (a + b).
Proof.
  unfold s64. f_equal.
  replace ((a + 9223372036854775808) mod 18446744073709551616 - 9223372036854775808 + b + 9223372036854775808)
    with ((a + 9223372036854775808) mod 18446744073709551616 + b) by lia.
  rewrite Zplus_mod_idemp_l. f_equal. lia.
Qed.

Lemma recalculate_fees m : mTotalFees (recalculate m) = s64 (msum getPaidFee (mapTransactions m)).
Proof.
  unfold recalculate. cbn [mTotalFees]. generalize (mapTransactions m) as txs. intros txs.
  induction txs as [|h tx txs Hh IH] using map_ind; [by rewrite map_fold_empty, msum_empty|].
  rewrite map_fold_insert_L, IH, msum_fresh, s64_add; [f_equal; lia|done| |done].
  intros j1 j2 x1 x2 y _ _ _. rewrite !s64_add. f_equal. lia.
Qed.

Lemma txmap_recalculate a t : mapTransactions t <> ∅ ->
  (forall h tx, mapTransactions t !! h = Some tx -> h = getFullHash tx /\ a = getSourceID tx) -> txmap_ok a (recalculate t).
Proof. intros Hne Hk. split; [done|by rewrite recalculate_fees|done]. Qed.

(** ** One level *)

Record dropping (m0 m : AccountTxMap) (touched : gset N) (ds : list Transaction) : Prop := {
  dr_in : forall a h, inMap m a h = if decide ((a, h) ∈ map txKey ds) then None else inMap m0 a h;
  dr_ok : forall a t, m !! a = Some t -> mapTransactions t <> ∅ /\
    (forall h tx, mapTransactions t !! h = Some tx -> h = getFullHash tx /\ a = getSourceID tx) /\
    (a ∉ touched -> txmap_ok a t) }.

Lemma inMap_insert m a t a' h : inMap (<[a := t]> m) a' h = if decide (a' = a) then mapTransactions t !! h else inMap m a' h.
Proof. unfold inMap. case_decide; subst; [by rewrite lookup_insert_eq|by rewrite lookup_insert_ne]. Qed.

Lemma inMap_delete m a a' h : inMap (delete a m) a' h = if decide (a' = a) then None else inMap m a' h.
Proof. unfold inMap. case_decide; subst; [by rewrite lookup_delete_eq|by rewrite lookup_delete_ne]. Qed.

Lemma dropTx_ok m0 m touched ds tx : dropping m0 m touched ds ->
  dropping m0 (dropTx (m, touched) tx).1 (dropTx (m, touched) tx).2 (ds ++ [tx]).
Proof.
  intros [Hin Hok].
  assert (forall m' tc, (forall a h, inMap m' a h = if decide ((a, h) = txKey tx) then None else inMap m a h) ->
    (forall a t, m' !! a = Some t -> mapTransactions t <> ∅ /\
      (forall h tx, mapTransactions t !! h = Some tx -> h = getFullHash tx /\ a = getSourceID tx) /\ (a ∉ tc -> txmap_ok a t)) ->
    dropping m0 m' tc (ds ++ [tx])) as Hmk.
  { intros m' tc Hm' Hok'. split; [|done]. intros a h. rewrite Hm', Hin, map_app. simpl.
    repeat case_decide; try done; set_solver. }
  cbn [dropTx]. unfold inMap in Hmk. destruct (m !! getSourceID tx) as [t|] eqn:Ea; [|apply Hmk; [|done]].
  2: { intros a h. unfold inMap. case_decide as E; [|done]. injection E as -> ->. simpl. by rewrite Ea. }
  destruct (mapTransactions t !! getFullHash tx) as [tx'|] eqn:Eh; [|apply Hmk; [|done]].
  2: { intros a h. unfold inMap. case_decide as E; [|done]. injection E as -> ->. simpl. rewrite Ea. exact Eh. }
  destruct (Hok _ _ Ea) as (Hne & Hk & Hok'). set (txs := delete _ _). case_decide as Et; cbn [fst snd].
  - apply Hmk.
    + intros a h. change (inMap (delete (getSourceID tx) m) a h = if decide ((a, h) = txKey tx) then None else inMap m a h).
      rewrite inMap_delete. destruct (decide (a = getSourceID tx)) as [->|]; [|rewrite decide_False; [done|]; intros [= ? ?]; done].
      case_decide as E; [done|]. unfold inMap. rewrite Ea. simpl. symmetry.
      assert (h <> getFullHash tx) by (intros ->; by apply E). rewrite <- (lookup_delete_ne _ (getFullHash tx)) by done.
      fold txs. rewrite Et. apply lookup_empty.
    + intros a t' Ht'. apply lookup_delete_Some in Ht' as [_ Ht']. by apply Hok.
  - apply Hmk.
    + intros a h. change (inMap (<[getSourceID tx := mkTxMap (mTotalFees t) txs]> m) a h =
        if decide ((a, h) = txKey tx) then None else inMap m a h).
      rewrite inMap_insert. cbn [mapTransactions]. destruct (decide (a = getSourceID tx)) as [->|];
        [|rewrite decide_False; [done|]; intros [= ? ?]; done].
      unfold inMap. rewrite Ea. simpl. unfold txs. case_decide as E.
      * injection E as ->. apply lookup_delete_eq.
      * apply lookup_delete_ne. intros <-. by apply E.
    + intros a t' Ht'. destruct (decide (a = getSourceID tx)) as [->|Hn].
      * rewrite lookup_insert_eq in Ht'. injection Ht' as <-. cbn [mapTransactions]. split; [done|]. split; [|set_solver].
        intros h x Hx. apply lookup_delete_Some in Hx as [_ Hx]. by apply Hk.
      * rewrite lookup_insert_ne in Ht' by done. destruct (Hok _ _ Ht') as (? & ? & Hx). split; [done|]. split; [done|].
        intros Hnt. apply Hx. set_solver.
Qed.

Lemma removeFromLevel_ok ds m : level_ok m -> level_ok (removeFromLevel ds m) /\
  forall a h, inMap (removeFromLevel ds m) a h = if decide ((a, h) ∈ map txKey ds) then None else inMap m a h.
Proof.
  intros Hm. unfold removeFromLevel. case_decide as E.
  { split; [done|]. intros a h. subst m. unfold inMap. rewrite lookup_empty. simpl. by case_decide. }
  assert (forall ds, dropping m (foldl dropTx (m, ∅) ds).1 (foldl dropTx (m, ∅) ds).2 ds) as Hd.
  { clear ds. intros ds. induction ds as [|d ds IH] using rev_ind; simpl.
    - split; [intros a h; rewrite decide_False; [done|]; apply not_elem_of_nil|].
      intros a t Ht. destruct (Hm _ _ Ht). done.
    - rewrite foldl_app. simpl. destruct (foldl dropTx (m, ∅) ds). by apply dropTx_ok. }
  specialize (Hd ds). destruct (foldl dropTx (m, ∅) ds) as [m' tc]. destruct Hd as [Hin Hok]. simpl in *. split.
  - intros a t Ht. rewrite map_lookup_imap in Ht. destruct (m' !! a) as [t'|] eqn:Ea; [|done]. simpl in Ht.
    injection Ht as <-. destruct (Hok _ _ Ea) as (Hne & Hk & Ht). case_decide; [by apply txmap_recalculate|by apply Ht].
  - intros a h. rewrite <- Hin. unfold inMap. rewrite map_lookup_imap. destruct (m' !! a) as [t|]; simpl; [|done].
    by case_decide.
Qed.

(** ** The calls *)

Lemma pendingAt_inMap q i a h : pendingAt q i a h = m ← q !! i; inMap m a h.
Proof. done. Qed.

Lemma removeReceived_ages ds q A : queue_ages q A ->
  queue_ages (removeReceivedTxs ds q) (filter (fun p => p.1 ∉ map txKey ds) A).
Proof.
  intros [Hl Hok Ha]. unfold removeReceivedTxs. split; [by rewrite length_map| |].
  - apply Forall_map. eapply Forall_impl; [apply Hok|]. intros m Hm. by apply removeFromLevel_ok.
  - intros i a h tx. rewrite map_lookup_filter_Some, <- Ha, !pendingAt_inMap, list_lookup_fmap. cbn [fst].
    destruct (q !! i) as [m|] eqn:E; simpl; [|naive_solver].
    eapply Forall_lookup_1 in Hok; [|done]. destruct (removeFromLevel_ok ds m Hok) as [_ ->].
    case_decide; naive_solver.
Qed.

Lemma close_ages applied q A : queue_ages q A ->
  queue_ages (updatePendingTransactions contentsHash applied q).2 (ageCall (QClose applied) A).2.
Proof.
  intros Hq. apply (removeReceived_ages applied) in Hq. cbn [ageCall snd updatePendingTransactions].
  unfold updatePendingTransactions. cbn [snd]. set (A' := filter _ A) in *. set (q' := removeReceivedTxs applied q) in *.
  destruct Hq as [Hl Hok Ha]. destruct q' as [|m0 [|m1 [|m2 [|m3 [|]]]]]; try done. cbn [removelast].
  rewrite !Forall_cons in Hok. split; [done| |].
  - constructor; [intros a t; by rewrite lookup_empty|]. rewrite !Forall_cons. pose proof (Forall_nil_2 level_ok). tauto.
  - intros i a h tx. rewrite lookup_omap, !pendingAt_inMap.
    destruct i as [|i]; simpl.
    + unfold inMap. rewrite lookup_empty. simpl. split; [done|]. destruct (A' !! (a, h)) as [[x j]|]; simpl; [|done].
      by destruct (j <? 3)%nat.
    + assert (forall j : nat, (j < 3)%nat -> [m0; m1; m2] !! j = [m0; m1; m2; m3] !! j) as Hj.
      { intros [|[|[|]]]; simpl; try done; lia. }
      destruct (decide (i < 3)%nat) as [Hi|Hi].
      * rewrite Hj, <- pendingAt_inMap, Ha by done. destruct (A' !! (a, h)) as [[x j]|]; simpl; [|naive_solver].
        destruct (Nat.ltb_spec j 3); naive_solver lia.
      * rewrite (lookup_ge_None_2 [m0; m1; m2]) by (simpl; lia). simpl. split; [done|].
        destruct (A' !! (a, h)) as [[x j]|]; simpl; [|done]. destruct (Nat.ltb_spec j 3); [|done]. intros [= -> ->]. lia.
Qed.

Lemma inLevel_spec tx m : inLevel tx m = true <-> is_Some (inMap m (getSourceID tx) (getFullHash tx)).
Proof.
  unfold inLevel, inMap. destruct (m !! getSourceID tx) as [t|]; simpl; [|split; [done|by intros [? ?]]].
  destruct (mapTransactions t !! getFullHash tx); simpl; split; try done; by intros [? ?].
Qed.

Lemma existsb_pending tx q A : queue_ages q A -> existsb (inLevel tx) q = true <-> is_Some (A !! txKey tx).
Proof.
  intros [_ _ Ha]. rewrite existsb_exists. split.
  - intros (m & Hm & [x Hx]%inLevel_spec). apply list_elem_of_In, list_elem_of_lookup in Hm as [i Hi]. exists (x, i).
    apply Ha. rewrite pendingAt_inMap, Hi. done.
  - intros [[x i] Hx]. apply Ha in Hx. rewrite pendingAt_inMap in Hx. destruct (q !! i) as [m|] eqn:E; [|done].
    exists m. split; [by eapply list_elem_of_In, list_elem_of_lookup_2|]. apply inLevel_spec. by eexists.
Qed.

Lemma addTx_ok tx t : (t = emptyTxMap \/ txmap_ok (getSourceID tx) t) -> mapTransactions t !! getFullHash tx = None ->
  txmap_ok (getSourceID tx) (addTx tx t) /\ mapTransactions (addTx tx t) = <[getFullHash tx := tx]> (mapTransactions t).
Proof.
  intros Ht Hno. unfold addTx. rewrite Hno. split; [|done]. split; cbn [mapTransactions mTotalFees].
  - apply insert_non_empty.
  - rewrite msum_fresh by done. destruct Ht as [->|[_ -> _]].
    + cbn [mTotalFees mapTransactions emptyTxMap]. rewrite msum_empty. f_equal. lia.
    + rewrite s64_add. f_equal. lia.
  - intros h x Hx. apply lookup_insert_Some in Hx as [[<- <-]|[_ Hx]]; [done|].
    destruct Ht as [->|[_ _ Hk]]; [simpl in Hx; by rewrite lookup_empty in Hx|by apply Hk].
Qed.

Lemma recv_ages valid tx q A : queue_ages q A -> A !! txKey tx = None -> valid tx = true ->
  queue_ages (recvTransaction valid tx q).2 (<[txKey tx := (tx, 0%nat)]> A).
Proof.
  intros Hq Hno Hv. unfold recvTransaction.
  assert (existsb (inLevel tx) q = false) as Hex.
  { apply not_true_iff_false. rewrite existsb_pending by done. rewrite Hno. by intros [? ?]. }
  rewrite Hex, Hv. cbn [negb snd]. destruct Hq as [Hl Hok Ha]. destruct q as [|m0 q]; [done|].
  change (alter ?f 0%nat (m0 :: q)) with (f m0 :: q). apply Forall_cons in Hok as [Hm0 Hok].
  assert (mapTransactions (findOrAdd m0 (getSourceID tx)) !! getFullHash tx = None) as Hno0.
  { simpl in Hex. apply orb_false_iff in Hex as [Hex _]. unfold inLevel, findOrAdd in *.
    destruct (m0 !! getSourceID tx) as [t|]; simpl; [by destruct (mapTransactions t !! getFullHash tx)|apply lookup_empty]. }
  destruct (addTx_ok tx (findOrAdd m0 (getSourceID tx))) as [Hadd Emap]; [|done|].
  { unfold findOrAdd. destruct (m0 !! getSourceID tx) eqn:E; [right; by apply Hm0|by left]. }
  split; [done| |].
  - constructor; [|done]. intros a t Ht. apply lookup_insert_Some in Ht as [[<- <-]|[_ Ht]]; [done|by apply Hm0].
  - intros i a h x. rewrite pendingAt_inMap. destruct i as [|i]; simpl.
    + rewrite inMap_insert, Emap. destruct (decide ((a, h) = txKey tx)) as [[= -> ->]|Hne].
      * rewrite decide_True by done. rewrite !lookup_insert_eq. naive_solver.
      * rewrite (lookup_insert_ne A) by done. rewrite <- Ha, pendingAt_inMap. simpl.
        destruct (decide (a = getSourceID tx)) as [->|]; [|done]. rewrite lookup_insert_ne by (intros <-; by apply Hne).
        unfold inMap, findOrAdd. destruct (m0 !! getSourceID tx); simpl; [done|]. by rewrite lookup_empty.
    + rewrite <- pendingAt_inMap. destruct (decide ((a, h) = txKey tx)) as [E|Hne].
      * rewrite E, lookup_insert_eq. split; [|naive_solver]. intros Hx.
        assert (A !! (a, h) = Some (x, S i)) as Hx' by (by apply Ha). rewrite E in Hx'. congruence.
      * rewrite lookup_insert_ne by done. rewrite <- Ha. done.
Qed.

(** C21. The queue of transactions is a map from transactions to their ages: in any run of
    receiving, removing and closing, every call answers and does what the ages say.  A
    transaction that is valid and not pending is added with age 0; closing a ledger takes
    out those that were applied and makes the others older, and one that was there for four
    closings is dropped.  The sums of fees are right all the time, and accounts without
    transactions are not kept. *)
Theorem tx_queue_refines_ages xs : let '(rs, q) := queueRun xs (replicate 4 ∅) in
  let '(rs', A) := ageRun xs ∅ in
  rs = rs' /\ length q = 4%nat /\
  (forall i a h tx, pendingAt q i a h = Some tx <-> A !! (a, h) = Some (tx, i)) /\
  forall i m a t, q !! i = Some m -> m !! a = Some t ->
    mapTransactions t <> ∅ /\ mTotalFees t = s64 (msum getPaidFee (mapTransactions t)).
Proof.
  assert (forall q A, queue_ages q A -> let '(rs, q) := queueRun xs q in let '(rs', A) := ageRun xs A in
    rs = rs' /\ queue_ages q A) as Hrun.
  { induction xs as [|x xs IH]; intros q A Hq; [done|].
    assert ((queueCall x q).1 = (ageCall x A).1 /\ queue_ages (queueCall x q).2 (ageCall x A).2) as [H1 H2].
    { destruct x as [valid tx|txs|applied]; cbn [queueCall ageCall].
      - pose proof (existsb_pending tx q A Hq) as Hex. destruct (A !! txKey tx) as [p|] eqn:E.
        + unfold recvTransaction. rewrite (proj2 Hex) by (by eexists). done.
        + assert (existsb (inLevel tx) q = false) as Hf by (apply not_true_iff_false; rewrite Hex; by intros [? ?]).
          destruct (valid tx) eqn:Ev.
          * pose proof (recv_ages valid tx q A Hq E Ev) as Hr. unfold recvTransaction in *. by rewrite Hf, Ev in *.
          * unfold recvTransaction. by rewrite Hf, Ev.
      - split; [done|]. by apply removeReceived_ages.
      - split; [done|]. by apply close_ages. }
    cbn [queueRun ageRun]. destruct (queueCall x q) as [r q1], (ageCall x A) as [r' A1]. simpl in *. subst r'.
    specialize (IH q1 A1 H2). destruct (queueRun xs q1), (ageRun xs A1). destruct IH as [-> ?]. done. }
  specialize (Hrun (replicate 4 ∅) ∅). destruct (queueRun xs (replicate 4 ∅)) as [rs q], (ageRun xs ∅) as [rs' A].
  destruct Hrun as [-> [Hl Hok Ha]].
  - split; [done|apply Forall_replicate; intros a t; by rewrite lookup_empty|]. intros i a h tx. rewrite lookup_empty.
    split; [|done]. unfold pendingAt. do 4 (destruct i as [|i]; [simpl; by rewrite lookup_empty|]). done.
  - split; [done|]. split; [done|]. split; [done|]. intros i m a t Hi Ht.
    eapply Forall_lookup_1 in Hok; [|done]. destruct (Hok a t Ht). done.
Qed.

End queue.
