(* ===== verification/Herder.v ===== *)
(** * The herder

    [herder/PendingEnvelopes.cpp] and what [herder/HerderImpl.cpp] does with envelopes,
    transaction sets, closed ledgers and the next ledger, with [ItemFetcher::recv].  An
    envelope is handed to SCP when everything it refers to is there; until then it is
    fetched.

    SCP is called with an envelope or a value to nominate and calls back ([SCPDriver]):
    which calls it makes is an answer of [HerderEnv], any list of [Callback]s, and so are the
    answers of the ledger manager and of the overlay.  The answers may depend on the state of
    the herder and on all that has happened ([hTrace]).  A callback that externalizes a
    value closes a ledger, and that hands SCP more envelopes: [processUpTo] takes the number
    of nested pops that are left, and [processSCPQueueUpToIndex] gives it one more than there
    are envelopes to pop, which is enough ([HerderTheorems.v]).

    Timers are the delays or arguments they were set with.  SQL ([saveSCPHistory], the state
    [persistSCPState] writes) is outside, but for what is read of the caches on the way; what
    it throws, and the assertion of [LedgerCloseData], are among the answers of
    [lmExternalize].  [getContentsHash] sorts the set it is asked of in place; the herder does
    not look at the order of a set in its cache, which is the one it came in. *)

From Stdlib Require Import ZArith Lia String.
From stdpp Require Import sorting.
From stdpp Require Import base tactics gmap option list.
From S2P Require Import Prelude ScpTypes Balance LocalNode SlotState Ballot Nomination Slot.
From S2P Require Import LruCache Floodgate ItemFetcher TxSet HerderValues TxQueue.

Open Scope Z_scope.

Inductive StellarMessage := SCP_MESSAGE (envelope : SCPEnvelope) | TRANSACTION (tx : Transaction).

(** The closures in the queue of the [io_service]. *)
Inductive Closure := CStopTxSets (slotIndex : Z) | CStopQSets (slotIndex : Z).

(** What has happened, the last first. *)
Inductive HerderEvent :=
| EvRecv (e : SCPEnvelope)
| EvRefused (e : SCPEnvelope)
| EvReady (e : SCPEnvelope)
| EvToSCP (e : SCPEnvelope)
| EvErased (slotIndex : Z)
| EvStopped (slotIndex : Z)
| EvStopNomination (slotIndex : Z)
| EvPurgeSlots (slotIndex : Z)
| EvNominate (slotIndex : Z) (value previous : Value).

#[export] Instance HerderEvent_eq_dec : EqDecision HerderEvent.
Proof. solve_decision. Defined.

Record Herder := mkHerder {
  mProcessedEnvelopes : gmap Z (list SCPEnvelope);
  mFetchingEnvelopes : gmap Z (list SCPEnvelope);
  mPendingEnvelopes : gmap Z (list SCPEnvelope);
  mQsetCache : lru_cache N SCPQuorumSet;
  mTxSetCache : lru_cache N TxSetFrame;
  mNodesInQuorum : lru_cache N bool;
  mTxSetFetcher : Fetcher;
  mQuorumSetFetcher : Fetcher;
  mFloodGate : Floodgate StellarMessage;
  mPosted : list Closure;
  mTrackingSCP : option ConsensusData;
  mLastTrackingSCP : option ConsensusData;
  mPendingTransactions : list AccountTxMap;
  mCurrentValue : Value;
  mLedgerSeqNominating : Z;
  mLastSlotSaved : Z;
  mSCPTimers : gmap Z (gmap Z Z);
  mTrackingTimer : bool;
  mTriggerTimer : option Z;
  mRebroadcastTimer : bool;
  lastClosedLedgerNum : Z;
  ledgerSynced : bool;
  hTrace : list HerderEvent }.

Inductive Callback :=
| CbGetQSet (h : Hash)
| CbGetTxSet (h : Hash)
| CbSetupTimer (slotIndex timerID timeout : Z)
| CbEmit (envelope : SCPEnvelope)
| CbExternalized (slotIndex : Z) (value : Value).

(** The fields of the last closed header that the proposal of upgrades is compared with. *)
Record LclHeader := mkLclHeader {
  hdrHash : Hash;
  hdrLedgerSeq : Z;
  hdrCloseTime : Z;
  hdrScpValue : Value;
  hdrTxExpirationPeriod : Z;
  hdrLedgerVersion : Z;
  hdrMaxTxSetSize : Z;
  hdrGenerators : list Z }.

Record HerderEnv := mkHerderEnv {
  envPeers : list Peer;
  envRandomPeers : list Peer;
  envAuthenticated : Peer -> bool;
  MANUAL_CLOSE : bool;
  envNodeID : NodeID;
  envIsValidator : bool;
  FORCE_SCP : bool;
  scpIsNodeInQuorum : NodeID -> TriBool;
  scpReads : Herder -> list Hash;
  scpReceives : SCPEnvelope -> Herder -> list Callback;
  scpNominates : Herder -> list Callback;
  scpLatestMessages : Z -> list SCPEnvelope;
  scpExternalizingState : Z -> list SCPEnvelope;
  lmExternalize : ConsensusData -> Herder -> exn + (Z * bool);
  lmLastClosedHeader : Herder -> LclHeader;
  lmLedgerNum : Herder -> Z;
  lmMaxTxSetSize : Herder -> Z;
  envNow : Z;
  cfgTxExpirationPeriod : Z;
  cfgLedgerVersion : Z;
  cfgDesiredMaxTx : Z;
  cfgGenerators : list Z;
  envTxValid : Transaction -> bool }.

Definition QSET_CACHE_SIZE : Z := 10000.
Definition TXSET_CACHE_SIZE : Z := 10000.
Definition NODES_QUORUM_CACHE_SIZE : Z := 1000.
Definition MAX_SLOTS_TO_REMEMBER : Z := 4.
Definition LEDGER_VALIDITY_BRACKET : Z := 100.

(** *** Fields *)

Definition set_envelopes (processed fetching pending : gmap Z (list SCPEnvelope)) (s : Herder) : Herder :=
  mkHerder processed fetching pending (mQsetCache s) (mTxSetCache s) (mNodesInQuorum s) (mTxSetFetcher s)
    (mQuorumSetFetcher s) (mFloodGate s) (mPosted s) (mTrackingSCP s) (mLastTrackingSCP s) (mPendingTransactions s)
    (mCurrentValue s) (mLedgerSeqNominating s) (mLastSlotSaved s) (mSCPTimers s) (mTrackingTimer s) (mTriggerTimer s)
    (mRebroadcastTimer s) (lastClosedLedgerNum s) (ledgerSynced s) (hTrace s).

Definition set_caches (q : lru_cache N SCPQuorumSet) (t : lru_cache N TxSetFrame) (n : lru_cache N bool) (s : Herder) : Herder :=
  mkHerder (mProcessedEnvelopes s) (mFetchingEnvelopes s) (mPendingEnvelopes s) q t n (mTxSetFetcher s)
    (mQuorumSetFetcher s) (mFloodGate s) (mPosted s) (mTrackingSCP s) (mLastTrackingSCP s) (mPendingTransactions s)
    (mCurrentValue s) (mLedgerSeqNominating s) (mLastSlotSaved s) (mSCPTimers s) (mTrackingTimer s) (mTriggerTimer s)
    (mRebroadcastTimer s) (lastClosedLedgerNum s) (ledgerSynced s) (hTrace s).

Definition set_fetchers (tx qs : Fetcher) (s : Herder) : Herder :=
  mkHerder (mProcessedEnvelopes s) (mFetchingEnvelopes s) (mPendingEnvelopes s) (mQsetCache s) (mTxSetCache s)
    (mNodesInQuorum s) tx qs (mFloodGate s) (mPosted s) (mTrackingSCP s) (mLastTrackingSCP s) (mPendingTransactions s)
    (mCurrentValue s) (mLedgerSeqNominating s) (mLastSlotSaved s) (mSCPTimers s) (mTrackingTimer s) (mTriggerTimer s)
    (mRebroadcastTimer s) (lastClosedLedgerNum s) (ledgerSynced s) (hTrace s).

(** The rest: what is neither envelopes nor caches nor fetchers. *)
Record HerderRest := mkRest {
  rFloodGate : Floodgate StellarMessage;
  rPosted : list Closure;
  rTracking : option ConsensusData;
  rLastTracking : option ConsensusData;
  rPendingTransactions : list AccountTxMap;
  rCurrentValue : Value;
  rNominating : Z;
  rLastSlotSaved : Z;
  rSCPTimers : gmap Z (gmap Z Z);
  rTrackingTimer : bool;
  rTriggerTimer : option Z;
  rRebroadcastTimer : bool;
  rLastClosed : Z;
  rSynced : bool }.

Definition restOf (s : Herder) : HerderRest :=
  mkRest (mFloodGate s) (mPosted s) (mTrackingSCP s) (mLastTrackingSCP s) (mPendingTransactions s) (mCurrentValue s)
    (mLedgerSeqNominating s) (mLastSlotSaved s) (mSCPTimers s) (mTrackingTimer s) (mTriggerTimer s) (mRebroadcastTimer s)
    (lastClosedLedgerNum s) (ledgerSynced s).

Definition set_rest (r : HerderRest) (s : Herder) : Herder :=
  mkHerder (mProcessedEnvelopes s) (mFetchingEnvelopes s) (mPendingEnvelopes s) (mQsetCache s) (mTxSetCache s)
    (mNodesInQuorum s) (mTxSetFetcher s) (mQuorumSetFetcher s) (rFloodGate r) (rPosted r) (rTracking r) (rLastTracking r)
    (rPendingTransactions r) (rCurrentValue r) (rNominating r) (rLastSlotSaved r) (rSCPTimers r) (rTrackingTimer r)
    (rTriggerTimer r) (rRebroadcastTimer r) (rLastClosed r) (rSynced r) (hTrace s).

Definition onRest (f : HerderRest -> HerderRest) : M Herder () := modify (fun s => set_rest (f (restOf s)) s).

Definition set_flood f r := mkRest f (rPosted r) (rTracking r) (rLastTracking r) (rPendingTransactions r) (rCurrentValue r)
  (rNominating r) (rLastSlotSaved r) (rSCPTimers r) (rTrackingTimer r) (rTriggerTimer r) (rRebroadcastTimer r) (rLastClosed r) (rSynced r).
Definition set_posted p r := mkRest (rFloodGate r) p (rTracking r) (rLastTracking r) (rPendingTransactions r) (rCurrentValue r)
  (rNominating r) (rLastSlotSaved r) (rSCPTimers r) (rTrackingTimer r) (rTriggerTimer r) (rRebroadcastTimer r) (rLastClosed r) (rSynced r).
Definition set_tracking t l r := mkRest (rFloodGate r) (rPosted r) t l (rPendingTransactions r) (rCurrentValue r)
  (rNominating r) (rLastSlotSaved r) (rSCPTimers r) (rTrackingTimer r) (rTriggerTimer r) (rRebroadcastTimer r) (rLastClosed r) (rSynced r).
Definition set_queue q r := mkRest (rFloodGate r) (rPosted r) (rTracking r) (rLastTracking r) q (rCurrentValue r)
  (rNominating r) (rLastSlotSaved r) (rSCPTimers r) (rTrackingTimer r) (rTriggerTimer r) (rRebroadcastTimer r) (rLastClosed r) (rSynced r).
Definition set_nominating v n r := mkRest (rFloodGate r) (rPosted r) (rTracking r) (rLastTracking r) (rPendingTransactions r) v
  n (rLastSlotSaved r) (rSCPTimers r) (rTrackingTimer r) (rTriggerTimer r) (rRebroadcastTimer r) (rLastClosed r) (rSynced r).
Definition set_lastSlotSaved n r := mkRest (rFloodGate r) (rPosted r) (rTracking r) (rLastTracking r) (rPendingTransactions r)
  (rCurrentValue r) (rNominating r) n (rSCPTimers r) (rTrackingTimer r) (rTriggerTimer r) (rRebroadcastTimer r) (rLastClosed r) (rSynced r).
Definition set_scpTimers t r := mkRest (rFloodGate r) (rPosted r) (rTracking r) (rLastTracking r) (rPendingTransactions r)
  (rCurrentValue r) (rNominating r) (rLastSlotSaved r) t (rTrackingTimer r) (rTriggerTimer r) (rRebroadcastTimer r) (rLastClosed r) (rSynced r).
Definition set_timers tr tg rb r := mkRest (rFloodGate r) (rPosted r) (rTracking r) (rLastTracking r) (rPendingTransactions r)
  (rCurrentValue r) (rNominating r) (rLastSlotSaved r) (rSCPTimers r) tr tg rb (rLastClosed r) (rSynced r).
Definition set_ledger n b r := mkRest (rFloodGate r) (rPosted r) (rTracking r) (rLastTracking r) (rPendingTransactions r)
  (rCurrentValue r) (rNominating r) (rLastSlotSaved r) (rSCPTimers r) (rTrackingTimer r) (rTriggerTimer r) (rRebroadcastTimer r) n b.

Definition record (ev : HerderEvent) (s : Herder) : Herder :=
  mkHerder (mProcessedEnvelopes s) (mFetchingEnvelopes s) (mPendingEnvelopes s) (mQsetCache s) (mTxSetCache s)
    (mNodesInQuorum s) (mTxSetFetcher s) (mQuorumSetFetcher s) (mFloodGate s) (mPosted s) (mTrackingSCP s)
    (mLastTrackingSCP s) (mPendingTransactions s) (mCurrentValue s) (mLedgerSeqNominating s) (mLastSlotSaved s)
    (mSCPTimers s) (mTrackingTimer s) (mTriggerTimer s) (mRebroadcastTimer s) (lastClosedLedgerNum s) (ledgerSynced s)
    (ev :: hTrace s).

Definition slotOf (e : SCPEnvelope) : Z := st_slotIndex (statement e).

(** [HerderImpl::HerderImpl], with the quorum set of the local node; what the ledger manager has
    closed and what is tracked (by the first lines of [restoreSCPState], if at all) are
    arguments. *)
Definition newHerder (qsetHash : Hash) (qset : SCPQuorumSet) (lastClosed : Z) (tracking : option ConsensusData) : Herder :=
  mkHerder ∅ ∅ ∅ (lru_put qsetHash qset (lru_new (Z.to_nat QSET_CACHE_SIZE))) (lru_new (Z.to_nat TXSET_CACHE_SIZE))
    (lru_new (Z.to_nat NODES_QUORUM_CACHE_SIZE)) ∅ ∅ newFloodgate [] tracking None (replicate 4 ∅) [] 0 0 ∅
    (match tracking with Some _ => true | None => false end) None false lastClosed false [].

(** What a map of lists has at a slot. *)
Definition atSlot (i : Z) (m : gmap Z (list SCPEnvelope)) : list SCPEnvelope := default [] (m !! i).

Section herder.
Context `{ValueExterns} `{StdSort} (contentsHash : Hash -> list Transaction -> Hash).
Context (sha256 : StellarMessage -> Hash) (env : HerderEnv).

Definition msgHashOf (e : SCPEnvelope) : Hash := sha256 (SCP_MESSAGE e).

(** ** The overlay *)

(** [HerderImpl::getCurrentLedgerSeq] *)
Definition getCurrentLedgerSeq (s : Herder) : Z :=
  let later (res : Z) (d : option ConsensusData) :=
    match d with Some d => if res <? mConsensusIndex d then u32 (mConsensusIndex d) else res | None => res end in
  later (later (lastClosedLedgerNum s) (mTrackingSCP s)) (mLastTrackingSCP s).

Definition overlayOf (s : Herder) : Overlay :=
  mkOverlay (envRandomPeers env) (fun h => getPeersKnows h (mFloodGate s)) (envAuthenticated env).

(** [OverlayManagerImpl::broadcastMessage] *)
Definition broadcastMessage (msg : StellarMessage) (force : bool) : M Herder () :=
  modify (fun s => set_rest (set_flood
    (broadcast sha256 (envPeers env) (envAuthenticated env) (getCurrentLedgerSeq s) msg force (mFloodGate s)).2 (restOf s)) s).

(** ** Caches *)

(** A loop over computations. *)
Fixpoint forEach {A} (f : A -> M Herder ()) (l : list A) : M Herder () :=
  match l with [] => mret () | x :: l' => f x;; forEach f l' end.

(** [PendingEnvelopes::getTxSet] and [getQSet]: what is found becomes the most recent. *)
Definition herder_getTxSet (h : Hash) : M Herder (option TxSetFrame) := fun s =>
  match lru_get h (mTxSetCache s) with
  | inl _ => Ret None s
  | inr (x, c) => Ret (Some x) (set_caches (mQsetCache s) c (mNodesInQuorum s) s)
  end.

Definition herder_getQSet (h : Hash) : M Herder (option SCPQuorumSet) := fun s =>
  match lru_get h (mQsetCache s) with
  | inl _ => Ret None s
  | inr (x, c) => Ret (Some x) (set_caches c (mTxSetCache s) (mNodesInQuorum s) s)
  end.

Definition touchQSets (hs : list Hash) : M Herder () := forEach (fun h => _ ← herder_getQSet h; mret ()) hs.

(** A question to SCP reads quorum sets. *)
Definition scpQuery : M Herder () := hs ← gets (scpReads env); touchQSets hs.

(** [PendingEnvelopes::isNodeInQuorum]; only positive answers are cached. *)
Definition nodeCached (node : NodeID) : M Herder bool := fun s =>
  match lru_get node (mNodesInQuorum s) with
  | inl _ => Ret false s
  | inr (b, c) => Ret b (set_caches (mQsetCache s) (mTxSetCache s) c s)
  end.

Definition herder_isNodeInQuorum (node : NodeID) : M Herder bool :=
  cached ← nodeCached node;
  if cached : bool then mret true
  else
    scpQuery;;
    match scpIsNodeInQuorum env node with
    | TB_TRUE =>
        modify (fun s => set_caches (mQsetCache s) (mTxSetCache s) (lru_put node true (mNodesInQuorum s)) s);; mret true
    | TB_FALSE => mret false
    | TB_MAYBE => mret true
    end.

(** ** Slots *)

(** [PendingEnvelopes::pop] *)
Fixpoint popFirst (ps : list (Z * list SCPEnvelope)) (slotIndex : Z) : option (Z * list SCPEnvelope * SCPEnvelope) :=
  match ps with
  | [] => None
  | (i, v) :: ps' =>
      if slotIndex <? i then None
      else match reverse v with
           | e :: v' => Some (i, reverse v', e)
           | [] => popFirst ps' slotIndex
           end
  end.

Definition pop (slotIndex : Z) : M Herder (option SCPEnvelope) := fun s =>
  match popFirst (map_asc (mPendingEnvelopes s)) slotIndex with
  | None => Ret None s
  | Some (i, v, e) =>
      Ret (Some e) (set_envelopes (mProcessedEnvelopes s) (mFetchingEnvelopes s) (<[i := v]> (mPendingEnvelopes s)) s)
  end.

(** [PendingEnvelopes::readySlots] *)
Definition readySlots (s : Herder) : list Z :=
  (filter (fun p => p.2 <> []) (map_asc (mPendingEnvelopes s))).*1.

(** [PendingEnvelopes::eraseBelow]: the maps are ordered, so the loops erase all keys below. *)
Definition eraseBelow (slotIndex : Z) : M Herder () :=
  modify (fun s => set_envelopes (mProcessedEnvelopes s)
    (filter (fun p => slotIndex <= p.1) (mFetchingEnvelopes s))
    (filter (fun p => slotIndex <= p.1) (mPendingEnvelopes s)) s).

(** [PendingEnvelopes::slotClosed] *)
Definition slotClosed (slotIndex : Z) : M Herder () :=
  if MAX_SLOTS_TO_REMEMBER <? slotIndex then
    let slotIndex := slotIndex - MAX_SLOTS_TO_REMEMBER in
    modify (fun s => record (EvErased slotIndex) (set_envelopes (delete slotIndex (mProcessedEnvelopes s))
      (delete slotIndex (mFetchingEnvelopes s)) (delete slotIndex (mPendingEnvelopes s)) s));;
    onRest (fun r => set_posted (rPosted r ++ [CStopTxSets (slotIndex + 1); CStopQSets (slotIndex + 1)]) r)
  else mret ().

(** ** Timers and messages of SCP *)

Definition herder_setupTimer (slotIndex timerID timeout : Z) : M Herder () :=
  modify (fun s =>
    if slotIndex <=? getCurrentLedgerSeq s then set_rest (set_scpTimers (delete slotIndex (mSCPTimers s)) (restOf s)) s
    else set_rest (set_scpTimers (<[slotIndex := <[timerID := timeout]> (default ∅ (mSCPTimers s !! slotIndex))]>
      (mSCPTimers s)) (restOf s)) s).

Definition decodeTxSetHash (v : Value) : exn + Hash :=
  match decodeValue v with Some b => inr (txSetHash b) | None => inl corrupt end.

(** The sets of the latest messages, and whether all are there. *)
Fixpoint gatherTxSets (vs : list Value) : M Herder bool :=
  match vs with
  | [] => mret true
  | v :: vs' =>
      h ← lift (decodeTxSetHash v);
      t ← herder_getTxSet h;
      ok ← gatherTxSets vs';
      mret ((match t with Some _ => true | None => false end) && ok)
  end.

Fixpoint gatherState (es : list SCPEnvelope) : M Herder bool :=
  match es with
  | [] => mret true
  | e :: es' =>
      ok ← gatherTxSets (slot_getStatementValues (statement e));
      q ← herder_getQSet (getCompanionQuorumSetHashFromStatement (statement e));
      ok' ← gatherState es';
      mret (ok && (match q with Some _ => true | None => false end) && ok')
  end.

(** [persistSCPState]; one that is not there is a null pointer, dereferenced in the end. *)
Definition persistSCPState (slot : Z) : M Herder () :=
  saved ← gets mLastSlotSaved;
  if slot <? saved then mret ()
  else
    onRest (set_lastSlotSaved slot);;
    ok ← gatherState (scpLatestMessages env slot);
    if ok : bool then mret () else throw NullDeref.

Definition startRebroadcastTimer : M Herder () :=
  onRest (fun r => set_timers (rTrackingTimer r) (rTriggerTimer r) true r).

(** [HerderImpl::broadcast] *)
Definition herder_broadcast (e : SCPEnvelope) : M Herder () :=
  if MANUAL_CLOSE env then mret () else broadcastMessage (SCP_MESSAGE e) true.

(** [HerderImpl::emitEnvelope] *)
Definition emitEnvelope (e : SCPEnvelope) : M Herder () :=
  persistSCPState (slotOf e);; herder_broadcast e;; startRebroadcastTimer.

(** [HerderImpl::rebroadcast] *)
Definition rebroadcast : M Herder () :=
  n ← gets (lmLedgerNum env);
  forEach herder_broadcast (scpLatestMessages env n);; startRebroadcastTimer.

Definition trackingHeartBeat : M Herder () :=
  if MANUAL_CLOSE env then mret () else onRest (fun r => set_timers true (rTriggerTimer r) (rRebroadcastTimer r) r).

Definition cancelTriggerTimer : M Herder () :=
  onRest (fun r => set_timers (rTrackingTimer r) None (rRebroadcastTimer r) r).

(** ** Closing ledgers, given how envelopes up to a slot are processed *)

Section closing.
Context (process : Z -> M Herder ()).

(** [HerderImpl::ledgerClosed]; the delay of the trigger timer is left out, its argument kept. *)
Definition ledgerClosed : M Herder () :=
  cancelTriggerTimer;;
  t ← gets mTrackingSCP;
  d ← deref t;
  slotClosed (lastConsensusLedgerIndex d);;
  onRest (fun r => set_flood (clearBelow (lastConsensusLedgerIndex d) (rFloodGate r)) r);;
  process (nextConsensusLedgerIndex d);;
  t' ← gets mTrackingSCP;
  d' ← deref t';
  if negb (nextConsensusLedgerIndex d =? nextConsensusLedgerIndex d') then mret ()
  else if negb (envIsValidator env) then mret ()
  else
    synced ← gets ledgerSynced;
    if negb synced then mret ()
    else if MANUAL_CLOSE env then mret ()
    else onRest (fun r => set_timers (rTrackingTimer r) (Some (nextConsensusLedgerIndex d)) (rRebroadcastTimer r) r).

(** The [updatePendingTransactions] of the herder: the queue and the messages it sends. *)
Definition herder_updatePending (applied : list Transaction) : M Herder () :=
  q ← gets mPendingTransactions;
  let (again, q) := updatePendingTransactions contentsHash applied q in
  onRest (set_queue q);;
  forEach (fun tx => broadcastMessage (TRANSACTION tx) false) again.

(** [HerderImpl::valueExternalized] *)
Definition valueExternalized (slotIndex : Z) (value : Value) : M Herder () :=
  onRest (fun r => set_scpTimers (filter (fun p => slotIndex < p.1) (rSCPTimers r)) r);;
  current ← gets getCurrentLedgerSeq;
  if slotIndex <=? current then mret ()
  else match decodeValue value with
  | None => throw DbgAbort
  | Some b =>
      (if 2 <? slotIndex then scpQuery else mret ());;
      v ← gets mCurrentValue;
      (match v with
       | [] => mret ()
       | _ => modify (fun s => record (EvStopNomination (mLedgerSeqNominating s)) s);;
              onRest (fun r => set_nominating [] (rNominating r) r)
       end);;
      let d := mkConsensusData slotIndex b in
      onRest (fun r => set_tracking (Some d) (match rLastTracking r with Some l => Some l | None => Some d end) r);;
      trackingHeartBeat;;
      txSet ← herder_getTxSet (txSetHash b);
      cancelTriggerTimer;;
      touchQSets (map (fun e => getCompanionQuorumSetHashFromStatement (statement e)) (scpExternalizingState env (u32 slotIndex)));;
      txSet ← deref txSet;
      s ← get;
      r ← lift (lmExternalize env d s);
      onRest (set_ledger r.1 r.2);;
      herder_updatePending (mTransactions txSet);;
      (if MAX_SLOTS_TO_REMEMBER <? slotIndex
       then modify (record (EvPurgeSlots (slotIndex - MAX_SLOTS_TO_REMEMBER))) else mret ());;
      ledgerClosed
  end.

Definition runCallback (c : Callback) : M Herder () :=
  match c with
  | CbGetQSet h => _ ← herder_getQSet h; mret ()
  | CbGetTxSet h => _ ← herder_getTxSet h; mret ()
  | CbSetupTimer i id t => herder_setupTimer i id t
  | CbEmit e => emitEnvelope e
  | CbExternalized i v => valueExternalized i v
  end.

(** [SCP::receiveEnvelope] *)
Definition scp_receive (e : SCPEnvelope) : M Herder () :=
  modify (record (EvToSCP e));;
  cbs ← gets (scpReceives env e);
  forEach runCallback cbs.

End closing.

(** [processSCPQueueUpToIndex], with at most [n] nested pops. *)
Fixpoint processUpTo (n : nat) (slotIndex : Z) : M Herder () :=
  match n with
  | O => throw OutOfFuel
  | S n' =>
      e ← pop slotIndex;
      match e with
      | None => mret ()
      | Some e => scp_receive (processUpTo n') e;; processUpTo n' slotIndex
      end
  end.

(** How many envelopes wait to be handed to SCP. *)
Definition pendingCount (s : Herder) : nat :=
  list_sum (map (fun p => length p.2) (map_to_list (mPendingEnvelopes s))).

Definition processSCPQueueUpToIndex (slotIndex : Z) : M Herder () := fun s => processUpTo (S (pendingCount s)) slotIndex s.

(** The loop of [processSCPQueue] when it does not know which ledger it is in. *)
Fixpoint processSlots (slots : list Z) : M Herder () :=
  match slots with
  | [] => mret ()
  | slot :: slots' =>
      processSCPQueueUpToIndex slot;;
      t ← gets mTrackingSCP;
      match t with Some _ => mret () | None => processSlots slots' end
  end.

Definition processSCPQueue : M Herder () :=
  t ← gets mTrackingSCP;
  match t with
  | Some d =>
      (if MAX_SLOTS_TO_REMEMBER <? nextConsensusLedgerIndex d
       then eraseBelow (nextConsensusLedgerIndex d - MAX_SLOTS_TO_REMEMBER) else mret ());;
      processSCPQueueUpToIndex (nextConsensusLedgerIndex d)
  | None => slots ← gets readySlots; processSlots slots
  end.

(** [HerderImpl::bootstrap] *)
Definition bootstrap : M Herder () :=
  if negb (envIsValidator env) || negb (FORCE_SCP env) then throw DbgAbort
  else onRest (fun r => set_ledger (rLastClosed r) true r);; ledgerClosed processSCPQueueUpToIndex.

(** ** Envelopes that wait *)

(** [PendingEnvelopes::isFullyFetched] *)
Fixpoint haveTxSets (vs : list Value) (s : Herder) : exn + bool :=
  match vs with
  | [] => inr true
  | v :: vs' =>
      match decodeTxSetHash v with
      | inl e => inl e
      | inr h => if lru_exists h (mTxSetCache s) then haveTxSets vs' s else inr false
      end
  end.

Definition isFullyFetched (e : SCPEnvelope) : M Herder bool := fun s =>
  if negb (lru_exists (getCompanionQuorumSetHashFromStatement (statement e)) (mQsetCache s)) then Ret false s
  else lift (haveTxSets (slot_getStatementValues (statement e)) s) s.

Definition fetchQSet (h : Hash) (e : SCPEnvelope) : M Herder () :=
  modify (fun s => set_fetchers (mTxSetFetcher s) (fetch msgHashOf (overlayOf s) h e (mQuorumSetFetcher s)).2 s).

Definition fetchTxSet (h : Hash) (e : SCPEnvelope) : M Herder () :=
  modify (fun s => set_fetchers (fetch msgHashOf (overlayOf s) h e (mTxSetFetcher s)).2 (mQuorumSetFetcher s) s).

(** [PendingEnvelopes::startFetch]; its result is not used. *)
Definition startFetch (e : SCPEnvelope) : M Herder () :=
  s ← get;
  let h := getCompanionQuorumSetHashFromStatement (statement e) in
  (if lru_exists h (mQsetCache s) then mret () else fetchQSet h e);;
  forEach (fun v =>
    h ← lift (decodeTxSetHash v);
    s ← get;
    if lru_exists h (mTxSetCache s) then mret () else fetchTxSet h e) (slot_getStatementValues (statement e)).

(** [PendingEnvelopes::envelopeReady] *)
Definition envelopeReady (e : SCPEnvelope) : M Herder () :=
  broadcastMessage (SCP_MESSAGE e) false;;
  modify (fun s => set_envelopes (mProcessedEnvelopes s) (mFetchingEnvelopes s)
    (<[slotOf e := atSlot (slotOf e) (mPendingEnvelopes s) ++ [e]]> (mPendingEnvelopes s)) s);;
  processSCPQueue.

(** The end of [recvSCPEnvelope], for an envelope that is being fetched: from fetching to
    processed. *)
Definition checkReady (e : SCPEnvelope) : M Herder () :=
  full ← isFullyFetched e;
  if full : bool then
    modify (fun s => record (EvReady e) (set_envelopes
      (<[slotOf e := atSlot (slotOf e) (mProcessedEnvelopes s) ++ [e]]> (mProcessedEnvelopes s))
      (<[slotOf e := filter (fun x => x <> e) (atSlot (slotOf e) (mFetchingEnvelopes s))]> (mFetchingEnvelopes s))
      (mPendingEnvelopes s) s));;
    envelopeReady e
  else mret ().

(** [catch (xdr::xdr_runtime_error&)] *)
Definition catchCorrupt (m : M Herder ()) : M Herder () := fun s =>
  match m s with
  | Exn e s' => if decide (e = corrupt) then Ret () s' else Exn e s'
  | r => r
  end.

(** An envelope that is not taken: the code returns; only the trace knows. *)
Definition refuse (e : SCPEnvelope) : M Herder () := modify (record (EvRefused e)).

(** [PendingEnvelopes::recvSCPEnvelope]; [operator[]] makes the entries of the slot. *)
Definition pe_recvSCPEnvelope (e : SCPEnvelope) : M Herder () :=
  ok ← herder_isNodeInQuorum (st_nodeID (statement e));
  if negb ok then refuse e
  else catchCorrupt (
    modify (fun s => set_envelopes
      (<[slotOf e := atSlot (slotOf e) (mProcessedEnvelopes s)]> (mProcessedEnvelopes s))
      (<[slotOf e := atSlot (slotOf e) (mFetchingEnvelopes s)]> (mFetchingEnvelopes s)) (mPendingEnvelopes s) s);;
    s ← get;
    if decide (e ∈ atSlot (slotOf e) (mFetchingEnvelopes s)) then checkReady e
    else if decide (e ∈ atSlot (slotOf e) (mProcessedEnvelopes s)) then mret ()
    else
      modify (fun s => set_envelopes (mProcessedEnvelopes s)
        (<[slotOf e := e :: atSlot (slotOf e) (mFetchingEnvelopes s)]> (mFetchingEnvelopes s)) (mPendingEnvelopes s) s);;
      startFetch e;;
      checkReady e).

(** The least and the greatest slot of which envelopes are taken. *)
Definition minLedgerSeq (s : Herder) : Z :=
  let c := getCurrentLedgerSeq s in if MAX_SLOTS_TO_REMEMBER <? c then c - MAX_SLOTS_TO_REMEMBER else c.

Definition maxLedgerSeq (s : Herder) : Z :=
  match mTrackingSCP s with
  | Some d => u32 (nextConsensusLedgerIndex d + LEDGER_VALIDITY_BRACKET)
  | None => UINT32_MAX
  end.

(** [HerderImpl::recvSCPEnvelope] *)
Definition recvSCPEnvelope (e : SCPEnvelope) : M Herder () :=
  if MANUAL_CLOSE env then refuse e
  else if decide (st_nodeID (statement e) = envNodeID env) then refuse e
  else
    s ← get;
    if (maxLedgerSeq s <? slotOf e) || (slotOf e <? minLedgerSeq s) then refuse e
    else modify (record (EvRecv e));; pe_recvSCPEnvelope e.

(** [ItemFetcher::recv]: the loop over the waiting envelopes of an item, from the last to the
    first; [n] bounds its rounds. *)
Section recv.
Context (fetcherOf : Herder -> Fetcher) (setFetcher : Fetcher -> Herder -> Herder) (itemID : Hash).

Fixpoint recvLoop (n : nat) : M Herder () :=
  match n with
  | O => throw OutOfFuel
  | S n' =>
      s ← get;
      match fetcherOf s !! itemID with
      | None => throw NullDeref
      | Some t =>
          match reverse (mWaitingEnvelopes t) with
          | [] => modify (setFetcher (<[itemID := cancelTimer t]> (fetcherOf s)))
          | (_, e) :: w =>
              modify (setFetcher (<[itemID := set_mWaitingEnvelopes (reverse w) t]> (fetcherOf s)));;
              recvSCPEnvelope e;;
              recvLoop n'
          end
      end
  end.

Definition fetcher_recv : M Herder () :=
  s ← get;
  match fetcherOf s !! itemID with
  | None => mret ()
  | Some t => recvLoop (S (length (mWaitingEnvelopes t)))
  end.
End recv.

Definition setQSetFetcher (f : Fetcher) (s : Herder) : Herder := set_fetchers (mTxSetFetcher s) f s.
Definition setTxSetFetcher (f : Fetcher) (s : Herder) : Herder := set_fetchers f (mQuorumSetFetcher s) s.

(** [recvSCPQuorumSet] and [recvTxSet] of [PendingEnvelopes] *)
Definition recvSCPQuorumSet (hash : Hash) (q : SCPQuorumSet) : M Herder () :=
  modify (fun s => set_caches (lru_put hash q (mQsetCache s)) (mTxSetCache s) (mNodesInQuorum s) s);;
  fetcher_recv mQuorumSetFetcher setQSetFetcher hash.

Definition recvTxSet (hash : Hash) (txset : TxSetFrame) : M Herder () :=
  modify (fun s => set_caches (mQsetCache s) (lru_put hash txset (mTxSetCache s)) (mNodesInQuorum s) s);;
  fetcher_recv mTxSetFetcher setTxSetFetcher hash.

(** [PendingEnvelopes::peerDoesntHave] of a transaction set or a quorum set. *)
Definition peerDoesntHave (isTxSet : bool) (itemID : Hash) (peer : Peer) : M Herder () :=
  modify (fun s =>
    if isTxSet then setTxSetFetcher (doesntHave (overlayOf s) itemID peer (mTxSetFetcher s)).2 s
    else setQSetFetcher (doesntHave (overlayOf s) itemID peer (mQuorumSetFetcher s)).2 s).

(** The timer of a tracker. *)
Definition trackerTimer (isTxSet : bool) (itemID : Hash) : M Herder () :=
  modify (fun s =>
    if isTxSet then setTxSetFetcher (timerExpired (overlayOf s) itemID (mTxSetFetcher s)).2 s
    else setQSetFetcher (timerExpired (overlayOf s) itemID (mQuorumSetFetcher s)).2 s).

(** The next closure of the [io_service]. *)
Definition runPosted : M Herder () :=
  ps ← gets mPosted;
  match ps with
  | [] => mret ()
  | c :: ps' =>
      onRest (set_posted ps');;
      match c with
      | CStopTxSets i => modify (fun s => record (EvStopped i) (setTxSetFetcher (stopFetchingBelowInternal i (mTxSetFetcher s)) s))
      | CStopQSets i => modify (fun s => record (EvStopped i) (setQSetFetcher (stopFetchingBelowInternal i (mQuorumSetFetcher s)) s))
      end
  end.

(** A message of a peer, before it is handled: [OverlayManagerImpl::recvFloodedMsg]. *)
Definition recvFloodedMsg (msg : StellarMessage) (peer : Peer) : M Herder () :=
  modify (fun s => set_rest (set_flood (addRecord sha256 (getCurrentLedgerSeq s) msg (Some peer) (mFloodGate s)).2 (restOf s)) s).

(** [HerderImpl::recvTransaction] *)
Definition herder_recvTransaction (tx : Transaction) : M Herder TransactionSubmitStatus := fun s =>
  let (st, q) := recvTransaction (envTxValid env) tx (mPendingTransactions s) in
  Ret st (set_rest (set_queue q (restOf s)) s).

(** [HerderImpl::herderOutOfSync] *)
Definition herderOutOfSync : M Herder () :=
  scpQuery;; onRest (fun r => set_tracking None (rTracking r) r);; processSCPQueue.

(** ** The next ledger *)

(** The upgrades [triggerNextLedger] proposes, in its order; one that is too long is left out. *)
Definition proposedUpgrades (lcl : LclHeader) : list LedgerUpgrade :=
  (if hdrTxExpirationPeriod lcl =? cfgTxExpirationPeriod env then [] else [TX_EXPIRATION_PERIOD (cfgTxExpirationPeriod env)]) ++
  (if hdrLedgerVersion lcl =? cfgLedgerVersion env then [] else [VERSION (cfgLedgerVersion env)]) ++
  (if hdrMaxTxSetSize lcl =? cfgDesiredMaxTx env then [] else [MAX_TX_SET_SIZE (cfgDesiredMaxTx env)]) ++
  (let generators := merge_sort Z.le (cfgGenerators env) in
   if decide (hdrGenerators lcl = generators) then [] else [EXTERNAL_SYSTEM_ID_GENERATOR generators]).

Definition proposedSteps (lcl : LclHeader) : list (list N) :=
  filter (fun v => (length v < upgradeMaxSize)%nat) (map encodeUpgrade (proposedUpgrades lcl)).

(** [HerderImpl::triggerNextLedger]; [lcl] is a reference, and receiving the set may close
    ledgers. *)
Definition triggerNextLedger (ledgerSeqToTrigger : Z) : M Herder () :=
  s ← get;
  match mTrackingSCP s with
  | None => mret ()
  | Some _ =>
      if negb (ledgerSynced s) then mret ()
      else
        let lcl := lmLastClosedHeader env s in
        let proposedSet := foldl (fun t tx => addTxToSet tx t) (newTxSet (hdrHash lcl)) (allPending (mPendingTransactions s)) in
        let '(removed, proposedSet) := trimInvalid (envTxValid env) proposedSet in
        onRest (fun r => set_queue (removeReceivedTxs removed (rPendingTransactions r)) r);;
        let proposedSet := surgePricingFilter (Z.to_nat (lmMaxTxSetSize env s)) proposedSet in
        if negb (checkValid (envTxValid env) (hdrHash lcl) (Z.to_nat (hdrMaxTxSetSize lcl)) proposedSet)
        then throw (RuntimeError "wanting to emit an invalid txSet")
        else
          let (hash, proposedSet) := getContentsHash contentsHash proposedSet in
          recvTxSet hash proposedSet;;
          lcl ← gets (lmLastClosedHeader env);
          let slotIndex := u32 (hdrLedgerSeq lcl + 1) in
          if negb (ledgerSeqToTrigger =? slotIndex) then mret ()
          else
            let nextCloseTime := if envNow env <=? hdrCloseTime lcl then u64 (hdrCloseTime lcl + 1) else envNow env in
            let value := encodeValue (mkStellarValue hash nextCloseTime (proposedSteps lcl)) in
            onRest (set_nominating value slotIndex);;
            modify (record (EvNominate slotIndex value (hdrScpValue lcl)));;
            cbs ← gets (scpNominates env);
            forEach (runCallback processSCPQueueUpToIndex) cbs
  end.

End herder.
