(* ===== verification/HerderTermination.v ===== *)
(** * The loops of the herder end

    [okay P R m]: started in a state of [P], the computation ends in a state of [P] that is
    related to the first by [R], returning or throwing, and never for want of fuel.  The
    functions that close ledgers are okay whenever the primitive steps are; the invariant of
    the herder and the termination of its loops are two instances.

    Handing an envelope to SCP may close ledgers, which hands over more envelopes; receiving
    an item hands all envelopes that wait for it to the herder, which may ask for other items.
    The first ends because every round takes an envelope from the queue and nothing adds one;
    the second because an item that is there is not fetched again. *)

From Stdlib Require Import ZArith Lia String.
From stdpp Require Import sorting.
From stdpp Require Import base tactics gmap option list.
From S2P Require Import Prelude ScpTypes LocalNode SlotState Ballot Nomination Slot Balance LruCache Floodgate.
From S2P Require Import ItemFetcher TxSet HerderValues TxQueue Herder.

Open Scope Z_scope.

Section okay.
Context (P : Herder -> Prop) (R : relation Herder) `{!PreOrder R}.

Definition okay {A} (m : M Herder A) : Prop := forall s, P s ->
  match m s with
  | Ret _ s' => P s' /\ R s s'
  | Exn e s' => P s' /\ R s s' /\ e <> OutOfFuel
  end.

Lemma okay_ret {A} (a : A) : okay (mret a).
Proof. intros s Hs. by split. Qed.

Lemma okay_bind {A B} (m : M Herder A) (k : A -> M Herder B) : okay m -> (forall a, okay (k a)) -> okay (m ≫= k).
Proof.
  intros Hm Hk s Hs. unfold mbind, M_bind. specialize (Hm s Hs). destruct (m s) as [a s1|e s1]; [|done].
  destruct Hm as [H1 R1]. specialize (Hk a s1 H1). destruct (k a s1) as [b s2|e s2].
  - destruct Hk as [H2 R2]. split; [done|]. by etrans.
  - destruct Hk as (H2 & R2 & He). split; [done|]. split; [by etrans|done].
Qed.

Lemma okay_throw {A} e : e <> OutOfFuel -> okay (A := A) (throw e).
Proof. intros He s Hs. by split_and!. Qed.

Lemma okay_lift {A} (r : exn + A) : (forall e, r = inl e -> e <> OutOfFuel) -> okay (lift r).
Proof. intros Hr. destruct r; [apply okay_throw; by apply Hr|apply okay_ret]. Qed.

Lemma okay_deref {A} (p : option A) : okay (deref p).
Proof. destruct p; [apply okay_ret|by apply okay_throw]. Qed.

Lemma okay_get : okay get.
Proof. intros s Hs. by split. Qed.

Lemma okay_gets {A} (f : Herder -> A) : okay (gets f).
Proof. intros s Hs. by split. Qed.

Lemma okay_modify f : (forall s, P s -> P (f s) /\ R s (f s)) -> okay (modify f).
Proof. intros Hf s Hs. by apply Hf. Qed.

Lemma okay_forEach {A} (f : A -> M Herder ()) l : (forall x, x ∈ l -> okay (f x)) -> okay (forEach f l).
Proof.
  induction l as [|x l IH]; intros Hf; simpl; [apply okay_ret|].
  apply okay_bind; [apply Hf; left|]. intros _. apply IH. intros. apply Hf. by right.
Qed.

(** What a step reads may be used in what follows. *)
Lemma okay_get_bind {A} (k : Herder -> M Herder A) : (forall s, P s -> match k s s with
  | Ret _ s' => P s' /\ R s s' | Exn e s' => P s' /\ R s s' /\ e <> OutOfFuel end) -> okay (get ≫= k).
Proof. intros Hk s Hs. by apply Hk. Qed.

Lemma okay_if {A} (b : bool) (m1 m2 : M Herder A) : (b = true -> okay m1) -> (b = false -> okay m2) ->
  okay (if b then m1 else m2).
Proof. destruct b; auto. Qed.

(** ** Closing ledgers *)

Hypothesis Hrest : forall s r, P s -> P (set_rest r s) /\ R s (set_rest r s).
Hypothesis Htouch : forall s q t n, P s ->
  (q = mQsetCache s \/ exists h x, lru_get h (mQsetCache s) = inr (x, q)) ->
  (t = mTxSetCache s \/ exists h x, lru_get h (mTxSetCache s) = inr (x, t)) ->
  P (set_caches q t n s) /\ R s (set_caches q t n s).
Hypothesis Hstop : forall s i, P s -> P (record (EvStopNomination i) s) /\ R s (record (EvStopNomination i) s).
Hypothesis Hpurge : forall s i, P s -> P (record (EvPurgeSlots i) s) /\ R s (record (EvPurgeSlots i) s).
Hypothesis Herase : forall s i, P s ->
  let s' := record (EvErased i) (set_envelopes (delete i (mProcessedEnvelopes s)) (delete i (mFetchingEnvelopes s))
    (delete i (mPendingEnvelopes s)) s) in P s' /\ R s s'.

Context `{ValueExterns} `{StdSort} (contentsHash : Hash -> list Transaction -> Hash).
Context (sha256 : StellarMessage -> Hash) (env : HerderEnv).
Hypothesis Hlm : forall d s e, lmExternalize env d s = inl e -> e <> OutOfFuel.

Lemma okay_onRest f : okay (onRest f).
Proof. apply okay_modify. intros s Hs. by apply Hrest. Qed.

Lemma okay_getTxSet h : okay (herder_getTxSet h).
Proof.
  intros s Hs. unfold herder_getTxSet. destruct (lru_get h (mTxSetCache s)) as [|[x c]] eqn:E; [by split|].
  apply Htouch; [done|by left|right; eauto].
Qed.

Lemma okay_getQSet h : okay (herder_getQSet h).
Proof.
  intros s Hs. unfold herder_getQSet. destruct (lru_get h (mQsetCache s)) as [|[x c]] eqn:E; [by split|].
  apply Htouch; [done|right; eauto|by left].
Qed.

Lemma okay_scpQuery : okay (scpQuery env).
Proof.
  unfold scpQuery, touchQSets. apply okay_bind; [apply okay_gets|]. intros hs. apply okay_forEach. intros h _.
  apply okay_bind; [apply okay_getQSet|]. intros _. apply okay_ret.
Qed.

Lemma okay_isNodeInQuorum n : okay (herder_isNodeInQuorum env n).
Proof.
  assert (forall s c, P s -> P (set_caches (mQsetCache s) (mTxSetCache s) c s) /\ R s (set_caches (mQsetCache s) (mTxSetCache s) c s))
    as Hn by (intros s c Hs; apply Htouch; [done|by left..]).
  unfold herder_isNodeInQuorum. apply okay_bind.
  { intros s Hs. unfold nodeCached. destruct (lru_get n (mNodesInQuorum s)) as [|[b c]]; [by split|by apply Hn]. }
  intros b. apply okay_if; intros _; [apply okay_ret|]. apply okay_bind; [apply okay_scpQuery|]. intros _.
  destruct (scpIsNodeInQuorum env n); [|apply okay_ret..].
  apply okay_bind; [|intros _; apply okay_ret]. apply okay_modify. intros s Hs. by apply Hn.
Qed.

Lemma okay_broadcastMessage m f : okay (broadcastMessage sha256 env m f).
Proof. apply okay_modify. intros s Hs. by apply Hrest. Qed.

Lemma okay_slotClosed i : okay (slotClosed i).
Proof.
  unfold slotClosed. apply okay_if; intros _; [|apply okay_ret].
  apply okay_bind; [apply okay_modify; intros s Hs; by apply Herase|]. intros _. apply okay_onRest.
Qed.

Lemma okay_setupTimer i id t : okay (herder_setupTimer i id t).
Proof. apply okay_modify. intros s Hs. destruct (_ <=? _); by apply Hrest. Qed.

Lemma corrupt_fuel : corrupt <> OutOfFuel.
Proof. done. Qed.

Lemma decode_fuel v e : decodeTxSetHash v = inl e -> e <> OutOfFuel.
Proof. unfold decodeTxSetHash. destruct (decodeValue v); [done|]. by intros [= <-]. Qed.

Lemma okay_gatherTxSets vs : okay (gatherTxSets vs).
Proof.
  induction vs as [|v vs IH]; simpl; [apply okay_ret|]. apply okay_bind; [apply okay_lift, decode_fuel|]. intros h.
  apply okay_bind; [apply okay_getTxSet|]. intros t. apply okay_bind; [done|]. intros ok. apply okay_ret.
Qed.

Lemma okay_gatherState es : okay (gatherState es).
Proof.
  induction es as [|e es IH]; simpl; [apply okay_ret|]. apply okay_bind; [apply okay_gatherTxSets|]. intros ok.
  apply okay_bind; [apply okay_getQSet|]. intros q. apply okay_bind; [done|]. intros ok'. apply okay_ret.
Qed.

Lemma okay_persist i : okay (persistSCPState env i).
Proof.
  unfold persistSCPState. apply okay_bind; [apply okay_gets|]. intros saved. apply okay_if; intros _; [apply okay_ret|].
  apply okay_bind; [apply okay_onRest|]. intros _. apply okay_bind; [apply okay_gatherState|]. intros ok.
  apply okay_if; intros _; [apply okay_ret|by apply okay_throw].
Qed.

Lemma okay_emit e : okay (emitEnvelope sha256 env e).
Proof.
  unfold emitEnvelope. apply okay_bind; [apply okay_persist|]. intros _. apply okay_bind; [|intros _; apply okay_onRest].
  unfold herder_broadcast. apply okay_if; intros _; [apply okay_ret|apply okay_broadcastMessage].
Qed.

Section closing.
Context (process : Z -> M Herder ()).
Hypothesis Hprocess : forall i, okay (process i).

Lemma okay_ledgerClosed : okay (ledgerClosed env process).
Proof.
  unfold ledgerClosed, cancelTriggerTimer. apply okay_bind; [apply okay_onRest|]. intros _.
  apply okay_bind; [apply okay_gets|]. intros t. apply okay_bind; [apply okay_deref|]. intros d.
  apply okay_bind; [apply okay_slotClosed|]. intros _. apply okay_bind; [apply okay_onRest|]. intros _.
  apply okay_bind; [apply Hprocess|]. intros _. apply okay_bind; [apply okay_gets|]. intros t'.
  apply okay_bind; [apply okay_deref|]. intros d'.
  apply okay_if; intros _; [apply okay_ret|]. apply okay_if; intros _; [apply okay_ret|].
  apply okay_bind; [apply okay_gets|]. intros sy. apply okay_if; intros _; [apply okay_ret|].
  apply okay_if; intros _; [apply okay_ret|apply okay_onRest].
Qed.

Lemma okay_updatePending l : okay (herder_updatePending contentsHash sha256 env l).
Proof.
  unfold herder_updatePending. apply okay_bind; [apply okay_gets|]. intros q.
  destruct (updatePendingTransactions contentsHash l q) as [again q']. apply okay_bind; [apply okay_onRest|]. intros _.
  apply okay_forEach. intros tx _. apply okay_broadcastMessage.
Qed.

Lemma okay_valueExternalized i v : okay (valueExternalized contentsHash sha256 env process i v).
Proof.
  unfold valueExternalized, trackingHeartBeat, cancelTriggerTimer. apply okay_bind; [apply okay_onRest|]. intros _.
  apply okay_bind; [apply okay_gets|]. intros cur. apply okay_if; intros _; [apply okay_ret|].
  destruct (decodeValue v) as [b|]; [|by apply okay_throw].
  apply okay_bind; [apply okay_if; intros _; [apply okay_scpQuery|apply okay_ret]|]. intros _.
  apply okay_bind; [apply okay_gets|]. intros cv.
  apply okay_bind.
  { destruct cv; [apply okay_ret|]. apply okay_bind; [|intros _; apply okay_onRest].
    apply okay_modify. intros s Hs. by apply Hstop. }
  intros _. apply okay_bind; [apply okay_onRest|]. intros _.
  apply okay_bind; [apply okay_if; intros _; [apply okay_ret|apply okay_onRest]|]. intros _.
  apply okay_bind; [apply okay_getTxSet|]. intros t. apply okay_bind; [apply okay_onRest|]. intros _.
  apply okay_bind.
  { apply okay_forEach. intros h _. apply okay_bind; [apply okay_getQSet|]. intros _. apply okay_ret. }
  intros _. apply okay_bind; [apply okay_deref|]. intros ts. apply okay_bind; [apply okay_get|]. intros s.
  apply okay_bind; [apply okay_lift, Hlm|]. intros r. apply okay_bind; [apply okay_onRest|]. intros _.
  apply okay_bind; [apply okay_updatePending|]. intros _. apply okay_bind; [|intros _; apply okay_ledgerClosed].
  apply okay_if; intros _; [|apply okay_ret]. apply okay_modify. intros s' Hs. by apply Hpurge.
Qed.

Lemma okay_runCallback c : okay (runCallback contentsHash sha256 env process c).
Proof.
  destruct c; simpl.
  - apply okay_bind; [apply okay_getQSet|]. intros _. apply okay_ret.
  - apply okay_bind; [apply okay_getTxSet|]. intros _. apply okay_ret.
  - apply okay_setupTimer.
  - apply okay_emit.
  - apply okay_valueExternalized.
Qed.

Lemma okay_callbacks cbs : okay (forEach (runCallback contentsHash sha256 env process) cbs).
Proof. apply okay_forEach. intros c _. apply okay_runCallback. Qed.

End closing.
End okay.

(** ** Counting what is pending *)

Definition envCount (m : gmap Z (list SCPEnvelope)) : nat := list_sum (map (fun p => length p.2) (map_to_list m)).

Lemma list_sum_perm (l l' : list nat) : l ≡ₚ l' -> list_sum l = list_sum l'.
Proof. induction 1; simpl; lia. Qed.

Lemma envCount_fresh m i v : m !! i = None -> envCount (<[i := v]> m) = (length v + envCount m)%nat.
Proof.
  intros Hi. unfold envCount. rewrite (list_sum_perm _ (map (fun p => length p.2) ((i, v) :: map_to_list m))); [done|].
  by rewrite map_to_list_insert.
Qed.

Lemma envCount_lookup m i v : m !! i = Some v -> envCount m = (length v + envCount (delete i m))%nat.
Proof. intros Hi. rewrite <- (insert_delete_id m i v Hi) at 1. apply envCount_fresh, lookup_delete_eq. Qed.

Lemma envCount_insert m i v : (envCount (<[i := v]> m) <= length v + envCount m)%nat.
Proof.
  destruct (m !! i) as [w|] eqn:E; [|rewrite envCount_fresh by done; lia].
  rewrite <- (insert_delete_eq m), envCount_fresh by apply lookup_delete_eq. rewrite (envCount_lookup m i w) by done. lia.
Qed.

Lemma envCount_delete m i : (envCount (delete i m) <= envCount m)%nat.
Proof.
  destruct (m !! i) as [w|] eqn:E; [rewrite (envCount_lookup m i w) by done; lia|]. by rewrite delete_id.
Qed.

Lemma envCount_filter (Q : Z * list SCPEnvelope -> Prop) `{!forall x, Decision (Q x)} m :
  (envCount (filter Q m) <= envCount m)%nat.
Proof.
  induction m as [|i v m Hi IH] using map_ind; [by rewrite map_filter_empty|].
  rewrite (envCount_fresh m) by done. destruct (decide (Q (i, v))).
  - rewrite map_filter_insert_True by done. rewrite envCount_fresh; [lia|]. rewrite map_lookup_filter_None. naive_solver.
  - rewrite map_filter_insert_False by done. rewrite delete_id by done. lia.
Qed.

(** [pop] takes the last envelope of the first slot that has one. *)
Lemma popFirst_spec ps slotIndex i v e : popFirst ps slotIndex = Some (i, v, e) -> (i, v ++ [e]) ∈ ps /\ i <= slotIndex.
Proof.
  induction ps as [|[j w] ps IH]; simpl; [done|]. destruct (Z.ltb_spec slotIndex j); [done|].
  destruct (reverse w) as [|x w'] eqn:E.
  - intros Hp. destruct (IH Hp). split; [by right|done].
  - intros [= <- <- <-]. split; [|done]. rewrite <- reverse_cons, <- E, reverse_involutive. left.
Qed.

Lemma pop_spec slotIndex s : match pop slotIndex s with
  | Ret None s' => s' = s
  | Ret (Some e) s' => exists i v, mPendingEnvelopes s !! i = Some (v ++ [e]) /\
      s' = set_envelopes (mProcessedEnvelopes s) (mFetchingEnvelopes s) (<[i := v]> (mPendingEnvelopes s)) s
  | Exn _ _ => False
  end.
Proof.
  unfold pop. destruct (popFirst _ _) as [[[i v] e]|] eqn:E; [|done]. apply popFirst_spec in E as [Hin _].
  apply elem_of_map_asc in Hin. eauto.
Qed.

(** ** Processing *)

Definition lrus_ok (s : Herder) : Prop := lru_ok (mQsetCache s) /\ lru_ok (mTxSetCache s).

Definition sameKnown (s s' : Herder) : Prop :=
  (forall h, lru_exists h (mQsetCache s') = lru_exists h (mQsetCache s)) /\
  (forall h, lru_exists h (mTxSetCache s') = lru_exists h (mTxSetCache s)).

(** No more is pending, nothing else is fetched and the same items are known. *)
Record calm (s s' : Herder) : Prop := {
  calm_pending : (pendingCount s' <= pendingCount s)%nat;
  calm_tx : mTxSetFetcher s' = mTxSetFetcher s;
  calm_qs : mQuorumSetFetcher s' = mQuorumSetFetcher s;
  calm_known : sameKnown s s' }.

#[export] Instance calm_preorder : PreOrder calm.
Proof.
  split.
  - intros s. by split.
  - intros s1 s2 s3 [A1 A2 A3 [A4 A5]] [B1 B2 B3 [B4 B5]]. split; [lia|congruence..|].
    split; intros h; [by rewrite B4|by rewrite B5].
Qed.

Definition bounded (n : nat) (s : Herder) : Prop := (pendingCount s < n)%nat /\ lrus_ok s.

Lemma lru_touch {A} h (c c' : lru_cache N A) x : lru_ok c -> c' = c \/ lru_get h c = inr (x, c') ->
  lru_ok c' /\ forall h, lru_exists h c' = lru_exists h c.
Proof.
  intros Hc [->|E]; [done|]. split; [by eapply lru_get_ok|]. intros h'. unfold lru_exists.
  destruct (lru_get_find h c x c' Hc E) as (_ & _ & _ & ->). done.
Qed.

Lemma touched {A} (c c' : lru_cache N A) : lru_ok c -> c' = c \/ (exists h x, lru_get h c = inr (x, c')) ->
  lru_ok c' /\ forall h, lru_exists h c' = lru_exists h c.
Proof. intros Hc [->|(h & x & E)]; [done|]. apply (lru_touch h c c' x); auto. Qed.

Lemma touch_ok s q t n : lrus_ok s ->
  (q = mQsetCache s \/ exists h x, lru_get h (mQsetCache s) = inr (x, q)) ->
  (t = mTxSetCache s \/ exists h x, lru_get h (mTxSetCache s) = inr (x, t)) ->
  lrus_ok (set_caches q t n s) /\ sameKnown s (set_caches q t n s).
Proof. intros [Hq Ht] Eq Et. destruct (touched _ _ Hq Eq), (touched _ _ Ht Et). done. Qed.

Section termination.
Context `{ValueExterns} `{StdSort} (contentsHash : Hash -> list Transaction -> Hash).
Context (sha256 : StellarMessage -> Hash) (env : HerderEnv).
Hypothesis Hlm : forall d s e, lmExternalize env d s = inl e -> e <> OutOfFuel.

(** A predicate that the steps of processing keep. *)
Record processing (Q : Herder -> Prop) : Prop := {
  pr_rest : forall s r, Q s -> Q (set_rest r s);
  pr_touch : forall s q t n, Q s ->
    (q = mQsetCache s \/ exists h x, lru_get h (mQsetCache s) = inr (x, q)) ->
    (t = mTxSetCache s \/ exists h x, lru_get h (mTxSetCache s) = inr (x, t)) -> Q (set_caches q t n s);
  pr_stop : forall s i, Q s -> Q (record (EvStopNomination i) s);
  pr_purge : forall s i, Q s -> Q (record (EvPurgeSlots i) s);
  pr_erase : forall s i, Q s -> Q (record (EvErased i) (set_envelopes (delete i (mProcessedEnvelopes s))
    (delete i (mFetchingEnvelopes s)) (delete i (mPendingEnvelopes s)) s));
  pr_below : forall s i, Q s -> Q (set_envelopes (mProcessedEnvelopes s)
    (filter (fun p => i <= p.1) (mFetchingEnvelopes s)) (filter (fun p => i <= p.1) (mPendingEnvelopes s)) s);
  pr_pop : forall s i v e, Q s -> mPendingEnvelopes s !! i = Some (v ++ [e]) ->
    Q (record (EvToSCP e) (set_envelopes (mProcessedEnvelopes s) (mFetchingEnvelopes s) (<[i := v]> (mPendingEnvelopes s)) s)) }.

Section processing.
Context (Q : Herder -> Prop) (HQ : processing Q).

Definition within (n : nat) (s : Herder) : Prop := Q s /\ bounded n s.

Lemma within_touch n s q t k : within n s ->
  (q = mQsetCache s \/ exists h x, lru_get h (mQsetCache s) = inr (x, q)) ->
  (t = mTxSetCache s \/ exists h x, lru_get h (mTxSetCache s) = inr (x, t)) ->
  within n (set_caches q t k s) /\ calm s (set_caches q t k s).
Proof.
  intros [Hq [Hn Hl]] Eq Et. destruct (touch_ok s q t k Hl Eq Et) as [K1 K2].
  split; [split; [by apply (pr_touch Q HQ)|by split]|by split].
Qed.

Lemma within_erase n s i : within n s ->
  let s' := record (EvErased i) (set_envelopes (delete i (mProcessedEnvelopes s)) (delete i (mFetchingEnvelopes s))
    (delete i (mPendingEnvelopes s)) s) in within n s' /\ calm s s'.
Proof.
  intros [Hq [Hn Hl]]. cbv zeta.
  assert (pendingCount (record (EvErased i) (set_envelopes (delete i (mProcessedEnvelopes s))
    (delete i (mFetchingEnvelopes s)) (delete i (mPendingEnvelopes s)) s)) <= pendingCount s)%nat as Hd
    by apply envCount_delete.
  split; [split; [by apply HQ|split; [lia|done]]|]. by split.
Qed.

Lemma okay_closing n process : (forall i, okay (within n) calm (process i)) ->
  (forall cbs, okay (within n) calm (forEach (runCallback contentsHash sha256 env process) cbs)) /\
  okay (within n) calm (ledgerClosed env process).
Proof.
  intros Hp. pose proof (within_touch n) as Htouch. pose proof (within_erase n) as Herase.
  assert (forall s r, within n s -> within n (set_rest r s) /\ calm s (set_rest r s)) as Hrest.
  { intros s r [Hq Hb]. split; [split; [by apply HQ|done]|done]. }
  split; [intros cbs; apply okay_callbacks|apply okay_ledgerClosed]; try done; try apply _;
    intros s i [Hq Hb]; (split; [split; [by apply HQ|done]|done]).
Qed.

Lemma processUpTo_within n : forall i, okay (within n) calm (processUpTo contentsHash sha256 env n i).
Proof.
  induction n as [|n IH]; intros i s [Hq [Hn Hl]]; [lia|]. cbn [processUpTo].
  unfold mbind, M_bind at 1. pose proof (pop_spec i s) as Hpop. destruct (pop i s) as [[e|] s1|]; [|by subst|done].
  destruct Hpop as (j & v & Hj & ->). pose proof (pr_pop Q HQ s j v e Hq Hj) as Hq1.
  set (s1 := set_envelopes _ _ _ s) in *.
  assert (pendingCount s = S (pendingCount s1)) as Hcount.
  { change (envCount (mPendingEnvelopes s) = S (envCount (<[j := v]> (mPendingEnvelopes s)))).
    rewrite <- (insert_delete_eq _ j v), envCount_fresh by apply lookup_delete_eq.
    rewrite (envCount_lookup _ j _ Hj), length_app. simpl. lia. }
  assert (calm s s1) as Hc1 by (split; [lia|done..]).
  assert (within n (record (EvToSCP e) s1)) as Hb by (split; [done|split; [change (pendingCount s1 < n)%nat; lia|done]]).
  assert (okay (within n) calm (cbs ← gets (scpReceives env e); forEach (runCallback contentsHash sha256 env
    (processUpTo contentsHash sha256 env n)) cbs;; processUpTo contentsHash sha256 env n i)) as Hok.
  { apply okay_bind; [apply _|apply okay_gets; apply _|]. intros cbs. apply okay_bind; [apply _|by apply okay_closing|].
    intros _. apply IH. }
  specialize (Hok (record (EvToSCP e) s1) Hb).
  assert (calm s1 (record (EvToSCP e) s1)) as Hc2 by (by split).
  assert (forall s', within n s' -> calm (record (EvToSCP e) s1) s' -> within (S n) s' /\ calm s s') as Hend.
  { intros s' [Hq' [Hb1 Hb2]] Hc. split; [split; [done|split; [lia|done]]|]. etrans; [apply Hc1|]. etrans; [apply Hc2|done]. }
  unfold scp_receive, mbind, M_bind, modify, gets in *.
  destruct (forEach _ _ (record (EvToSCP e) s1)) as [[] s2|]; [destruct (processUpTo _ _ _ n i s2) as [[] s3|]|].
  - apply Hend; apply Hok.
  - destruct Hok as (K1 & K2 & K3). destruct (Hend _ K1 K2). done.
  - destruct Hok as (K1 & K2 & K3). destruct (Hend _ K1 K2). done.
Qed.

Definition sound (s : Herder) : Prop := Q s /\ lrus_ok s.

Lemma processSCPQueueUpToIndex_sound i : okay sound calm (processSCPQueueUpToIndex contentsHash sha256 env i).
Proof.
  intros s [Hq Hl]. unfold processSCPQueueUpToIndex.
  assert (within (S (pendingCount s)) s) as Hw by (split; [done|split; [lia|done]]).
  pose proof (processUpTo_within (S (pendingCount s)) i s Hw) as Hp. unfold within, bounded in Hp.
  destruct (processUpTo _ _ _ _ i s); unfold sound; naive_solver.
Qed.

Lemma processSCPQueue_sound : okay sound calm (processSCPQueue contentsHash sha256 env).
Proof.
  unfold processSCPQueue. apply okay_bind; [apply _|apply okay_gets; apply _|]. intros [d|].
  - apply okay_bind; [apply _|apply okay_if; intros _|intros _; apply processSCPQueueUpToIndex_sound].
    + apply okay_modify. intros s [Hq Hl]. split; [split; [by apply HQ|done]|]. split; [apply envCount_filter|done..].
    + apply okay_ret, _.
  - apply okay_bind; [apply _|apply okay_gets; apply _|]. intros slots.
    induction slots as [|i slots IH]; simpl; [apply okay_ret, _|].
    apply okay_bind; [apply _|apply processSCPQueueUpToIndex_sound|]. intros _.
    apply okay_bind; [apply _|apply okay_gets; apply _|]. intros [d|]; [apply okay_ret, _|done].
Qed.

(** The callbacks of a call of SCP that is not within the queue, and [bootstrap]. *)
Lemma closing_sound : let process := processSCPQueueUpToIndex contentsHash sha256 env in
  (forall cbs, okay sound calm (forEach (runCallback contentsHash sha256 env process) cbs)) /\
  okay sound calm (ledgerClosed env process).
Proof.
  cbv zeta. set (process := processSCPQueueUpToIndex contentsHash sha256 env).
  assert (forall n i, okay (within n) calm (process i)) as Hp.
  { intros n i s1 [Hq1 [Hn1 Hl1]]. pose proof (processSCPQueueUpToIndex_sound i s1 (conj Hq1 Hl1)) as Hp. unfold within, bounded.
    fold process in Hp. destruct (process i s1) as [u s2|x s2]; destruct Hp as [[Hq2 Hl2] Hc2];
      [pose proof (calm_pending _ _ Hc2)|destruct Hc2 as [Hc2 ?]; pose proof (calm_pending _ _ Hc2)]; split_and!; try done; lia. }
  assert (forall m : M Herder (), (forall n, okay (within n) calm m) -> okay sound calm m) as Hm.
  { intros m Hm s [Hq Hl]. assert (within (S (pendingCount s)) s) as Hw by (split; [done|split; [lia|done]]).
    specialize (Hm _ s Hw). unfold within, bounded, sound in *. destruct (m s); naive_solver. }
  split; [intros cbs|]; apply Hm; intros n; by apply okay_closing.
Qed.

End processing.

Lemma processSCPQueue_okay : okay lrus_ok calm (processSCPQueue contentsHash sha256 env).
Proof.
  assert (processing (fun _ => True)) as HT by done.
  intros s Hl. pose proof (processSCPQueue_sound (fun _ => True) HT s (conj I Hl)) as Hp. unfold sound in Hp.
  destruct (processSCPQueue _ _ _ s); naive_solver.
Qed.

(** ** Receiving *)

(** What is known stays known, and nothing waits for it that did not. *)
Record steady (s s' : Herder) : Prop := {
  st_q : forall h, lru_exists h (mQsetCache s) = true -> lru_exists h (mQsetCache s') = true /\
    mQuorumSetFetcher s' !! h = mQuorumSetFetcher s !! h;
  st_t : forall h, lru_exists h (mTxSetCache s) = true -> lru_exists h (mTxSetCache s') = true /\
    mTxSetFetcher s' !! h = mTxSetFetcher s !! h }.

#[export] Instance steady_preorder : PreOrder steady.
Proof.
  split.
  - intros s. by split.
  - intros s1 s2 s3 [A1 A2] [B1 B2]. split; intros h Hh.
    + destruct (A1 h Hh) as [H1 E1]. destruct (B1 h H1) as [H2 E2]. split; [done|congruence].
    + destruct (A2 h Hh) as [H1 E1]. destruct (B2 h H1) as [H2 E2]. split; [done|congruence].
Qed.

Lemma calm_steady s s' : calm s s' -> steady s s'.
Proof. intros [_ E1 E2 [K1 K2]]. split; intros h Hh; [rewrite K1, E2|rewrite K2, E1]; done. Qed.

Lemma okay_weaken P (R R' : relation Herder) {A} (m : M Herder A) : (forall s s', R s s' -> R' s s') -> okay P R m -> okay P R' m.
Proof. intros HR Hm s Hs. specialize (Hm s Hs). destruct (m s); naive_solver. Qed.

Lemma fetch_other o h e (f : Fetcher) h' : h' <> h -> (fetch (msgHashOf sha256) o h e f).2 !! h' = f !! h'.
Proof.
  intros Hne. unfold fetch. destruct (f !! h); [simpl; by rewrite lookup_insert_ne|].
  destruct (tryNextPeer _ _). simpl. by rewrite lookup_insert_ne.
Qed.

Lemma fetchQSet_steady h e s : lru_exists h (mQsetCache s) = false ->
  steady s (set_fetchers (mTxSetFetcher s) (fetch (msgHashOf sha256) (overlayOf env s) h e (mQuorumSetFetcher s)).2 s).
Proof.
  intros Hh. split; intros h' Hk; [|done]. split; [done|]. simpl. apply fetch_other. congruence.
Qed.

Lemma fetchTxSet_steady h e s : lru_exists h (mTxSetCache s) = false ->
  steady s (set_fetchers (fetch (msgHashOf sha256) (overlayOf env s) h e (mTxSetFetcher s)).2 (mQuorumSetFetcher s) s).
Proof.
  intros Hh. split; intros h' Hk; [done|]. split; [done|]. simpl. apply fetch_other. congruence.
Qed.

Lemma startFetch_okay e : okay lrus_ok steady (startFetch sha256 env e).
Proof.
  unfold startFetch. apply okay_get_bind. intros s Hs. cbv zeta.
  assert (okay lrus_ok steady (forEach (fun v => h ← lift (decodeTxSetHash v); s ← get;
    if lru_exists h (mTxSetCache s) then mret () else fetchTxSet sha256 env h e) (slot_getStatementValues (statement e)))) as Hts.
  { apply okay_forEach; [apply _|]. intros v _. apply okay_bind; [apply _|apply okay_lift; [apply _|apply decode_fuel]|]. intros h.
    apply okay_get_bind. intros s1 Hs1. destruct (lru_exists h (mTxSetCache s1)) eqn:E; [by split|].
    split; [done|by apply fetchTxSet_steady]. }
  set (h := getCompanionQuorumSetHashFromStatement (statement e)). destruct (lru_exists h (mQsetCache s)) eqn:E.
  - by apply Hts.
  - pose proof (fetchQSet_steady h e s E) as Hq. unfold mbind at 1, M_bind, fetchQSet, modify.
    set (s1 := set_fetchers _ _ s) in *. specialize (Hts s1 Hs).
    destruct (forEach _ _ s1); destruct Hts as [H1 H2]; (split; [done|]); [by etrans|].
    destruct H2. split; [by etrans|done].
Qed.

Lemma haveTxSets_fuel vs s e : haveTxSets vs s = inl e -> e <> OutOfFuel.
Proof.
  induction vs as [|v vs IH]; simpl; [done|]. destruct (decodeTxSetHash v) as [e'|h] eqn:E.
  - intros [= <-]. by eapply decode_fuel.
  - by destruct (lru_exists h (mTxSetCache s)).
Qed.

Lemma isFullyFetched_okay e : okay lrus_ok steady (isFullyFetched e).
Proof.
  intros s Hs. unfold isFullyFetched. destruct (negb _); [by split|].
  destruct (haveTxSets _ s) as [x|b] eqn:E; simpl; [|by split]. split; [done|]. split; [done|]. by eapply haveTxSets_fuel.
Qed.

Lemma checkReady_okay e : okay lrus_ok steady (checkReady contentsHash sha256 env e).
Proof.
  unfold checkReady. apply okay_bind; [apply _|apply isFullyFetched_okay|]. intros b.
  apply okay_if; intros _; [|apply okay_ret, _]. apply okay_bind; [apply _|by apply okay_modify|]. intros _.
  unfold envelopeReady. apply okay_bind; [apply _|by apply okay_modify|]. intros _.
  apply okay_bind; [apply _|by apply okay_modify|]. intros _.
  eapply okay_weaken; [apply calm_steady|apply processSCPQueue_okay].
Qed.

Lemma okay_catch P R m : okay P R m -> okay P R (catchCorrupt m).
Proof.
  intros Hm s Hs. unfold catchCorrupt. specialize (Hm s Hs). destruct (m s) as [|e s']; [done|].
  case_decide; naive_solver.
Qed.

Lemma pe_recv_okay e : okay lrus_ok steady (pe_recvSCPEnvelope contentsHash sha256 env e).
Proof.
  unfold pe_recvSCPEnvelope. apply okay_bind; [apply _| |intros b; apply okay_if; intros _; [by apply okay_modify|]].
  { apply okay_isNodeInQuorum; [apply _|]. intros s q t k Hl Eq Et. destruct (touch_ok s q t k Hl Eq Et) as [H1 [K1 K2]].
    split; [done|]. split; intros h Hh; (split; [|done]); [by rewrite K1|by rewrite K2]. }
  apply okay_catch. apply okay_bind; [apply _|by apply okay_modify|]. intros _. apply okay_bind; [apply _|apply okay_get, _|]. intros s.
  case_decide; [apply checkReady_okay|]. case_decide; [apply okay_ret, _|].
  apply okay_bind; [apply _|by apply okay_modify|]. intros _. apply okay_bind; [apply _|apply startFetch_okay|]. intros _.
  apply checkReady_okay.
Qed.

Lemma recvSCPEnvelope_okay e : okay lrus_ok steady (recvSCPEnvelope contentsHash sha256 env e).
Proof.
  unfold recvSCPEnvelope, refuse. apply okay_if; intros _; [by apply okay_modify|]. case_decide; [by apply okay_modify|].
  apply okay_bind; [apply _|apply okay_get, _|]. intros s. apply okay_if; intros _; [by apply okay_modify|].
  apply okay_bind; [apply _|by apply okay_modify|]. intros _. apply pe_recv_okay.
Qed.

(** The loop over the envelopes that wait for an item that has come; [P] may speak of those
    that are left. *)
Section recv.
Context (fetcherOf : Herder -> Fetcher) (setFetcher : Fetcher -> Herder -> Herder) (known : Herder -> Prop) (h : Hash).
Context (P : list SCPEnvelope -> Herder -> Prop) (E : Herder -> Prop).
Hypothesis Hset : forall f s, fetcherOf (setFetcher f s) = f.
Hypothesis Hlru : forall f s, lrus_ok s -> lrus_ok (setFetcher f s).
Hypothesis Hknown : forall f s, known s -> known (setFetcher f s).
Hypothesis Hsteady : forall s s', steady s s' -> known s -> known s' /\ fetcherOf s' !! h = fetcherOf s !! h.
Hypothesis Hok : forall w s, P w s -> lrus_ok s.
Hypothesis Hstep : forall e w w' s t, P (e :: w) s -> known s -> fetcherOf s !! h = Some t ->
  match recvSCPEnvelope contentsHash sha256 env e (setFetcher (<[h := set_mWaitingEnvelopes w' t]> (fetcherOf s)) s) with
  | Ret _ s' => P w s'
  | Exn _ s' => E s'
  end.
Hypothesis Hend : forall s t, P [] s -> known s -> fetcherOf s !! h = Some t ->
  P [] (setFetcher (<[h := cancelTimer t]> (fetcherOf s)) s).

Lemma recvLoop_ends n : forall s t, P (reverse (mWaitingEnvelopes t)).*2 s -> known s -> fetcherOf s !! h = Some t ->
  (length (mWaitingEnvelopes t) < n)%nat ->
  match recvLoop contentsHash sha256 env fetcherOf setFetcher h n s with
  | Ret _ s' => P [] s' /\ known s' /\ exists t', fetcherOf s' !! h = Some t' /\ mWaitingEnvelopes t' = []
  | Exn e s' => E s' /\ e <> OutOfFuel
  end.
Proof.
  induction n as [|n IH]; intros s t HP Hk Ht Hn; [lia|]. cbn [recvLoop]. unfold mbind at 1, M_bind, get.
  rewrite Ht. destruct (reverse (mWaitingEnvelopes t)) as [|[k e] w] eqn:Ew.
  - unfold modify. split; [by apply Hend|]. split; [by apply Hknown|]. exists (cancelTimer t). rewrite Hset, lookup_insert_eq.
    split; [done|]. simpl. by rewrite <- (reverse_involutive (mWaitingEnvelopes t)), Ew.
  - pose proof (Hstep e w.*2 (reverse w) s t HP Hk Ht) as HP1. unfold mbind at 1, M_bind, modify. set (s1 := setFetcher _ s) in *.
    assert (lrus_ok s1) as Hl1 by (eapply Hlru, Hok, HP). assert (known s1) as Hk1 by (by apply Hknown).
    pose proof (recvSCPEnvelope_okay e s1 Hl1) as Hr. unfold mbind, M_bind.
    destruct (recvSCPEnvelope contentsHash sha256 env e s1) as [u s2|]; [|naive_solver]. destruct Hr as [Hl2 Hs2].
    destruct (Hsteady _ _ Hs2 Hk1) as [Hk2 E2]. apply (IH s2 (set_mWaitingEnvelopes (reverse w) t)).
    + simpl. by rewrite reverse_involutive.
    + done.
    + rewrite E2. unfold s1. by rewrite Hset, lookup_insert_eq.
    + simpl. rewrite length_reverse. apply (f_equal length) in Ew. rewrite length_reverse in Ew. simpl in Ew. lia.
Qed.

Lemma fetcher_recv_ends s : known s -> (forall t, fetcherOf s !! h = Some t -> P (reverse (mWaitingEnvelopes t)).*2 s) ->
  (fetcherOf s !! h = None -> P [] s) ->
  match fetcher_recv contentsHash sha256 env fetcherOf setFetcher h s with
  | Ret _ s' => P [] s' /\ known s' /\ forall t', fetcherOf s' !! h = Some t' -> mWaitingEnvelopes t' = []
  | Exn e s' => E s' /\ e <> OutOfFuel
  end.
Proof.
  intros Hk HP HP0. unfold fetcher_recv, mbind, M_bind, get. destruct (fetcherOf s !! h) as [t|] eqn:Et; [|naive_solver].
  pose proof (recvLoop_ends (S (length (mWaitingEnvelopes t))) s t (HP t eq_refl) Hk Et ltac:(lia)) as Hr.
  destruct (recvLoop _ _ _ _ _ _ _ s); [|done]. destruct Hr as (H1 & H2 & t' & E' & Hw). split; [done|]. split; [done|].
  intros t'' E''. congruence.
Qed.
End recv.

End termination.
