(* ===== verification/HerderInv.v ===== *)
(** * The invariant of the herder

    Where an envelope is, what it waits for and what SCP has been given of it, and that every
    function of [Herder.v] keeps it; and that nothing is left behind: an envelope that is being
    fetched and of which everything is there has been refused or is on its way to SCP. *)

From Stdlib Require Import ZArith Lia String.
From stdpp Require Import sorting.
From stdpp Require Import base tactics gmap option list.
From S2P Require Import Prelude ScpTypes LocalNode SlotState Ballot Nomination Slot Balance LruCache Floodgate.
From S2P Require Import ItemFetcher TxSet HerderValues TxQueue Herder HerderTermination.

Open Scope Z_scope.

Definition countEv (ev : HerderEvent) (tr : list HerderEvent) : nat := length (filter (fun x => x = ev) tr).
Definition countIn (e : SCPEnvelope) (l : list SCPEnvelope) : nat := length (filter (fun x => x = e) l).

Lemma countEv_cons ev x tr : countEv ev (x :: tr) = ((if decide (x = ev) then 1 else 0) + countEv ev tr)%nat.
Proof. unfold countEv. rewrite filter_cons. by case_decide. Qed.

Lemma countEv_pos ev tr : (0 < countEv ev tr)%nat <-> ev ∈ tr.
Proof.
  induction tr as [|x tr IH]; [split; [unfold countEv; simpl; lia|by intros ?%elem_of_nil]|].
  rewrite countEv_cons, elem_of_cons. case_decide; subst; [split; [by left|lia]|]. simpl. rewrite IH. naive_solver.
Qed.

Lemma countIn_app e l l' : countIn e (l ++ l') = (countIn e l + countIn e l')%nat.
Proof. unfold countIn. by rewrite filter_app, length_app. Qed.

Lemma countIn_one e x : countIn e [x] = if decide (x = e) then 1%nat else 0%nat.
Proof. unfold countIn. rewrite filter_cons, filter_nil. by case_decide. Qed.

Lemma countIn_zero e l : e ∉ l -> countIn e l = 0%nat.
Proof.
  intros He. unfold countIn. induction l as [|x l IH]; [done|]. apply not_elem_of_cons in He as [? ?].
  rewrite filter_cons, decide_False by done. by apply IH.
Qed.

Lemma countIn_nodup e l : NoDup l -> (countIn e l <= 1)%nat.
Proof.
  induction 1 as [|x l Hx Hl IH]; [unfold countIn; simpl; lia|]. change (x :: l) with ([x] ++ l).
  rewrite countIn_app, countIn_one. case_decide; [subst; rewrite (countIn_zero e l) by done; lia|lia].
Qed.

Section inv.
Context `{ValueExterns}.

(** ** What an envelope refers to *)

Definition qsetOf (e : SCPEnvelope) : Hash := getCompanionQuorumSetHashFromStatement (statement e).
Definition valuesOf (e : SCPEnvelope) : list Value := slot_getStatementValues (statement e).
Definition readable (e : SCPEnvelope) : Prop := forall v, v ∈ valuesOf e -> is_Some (decodeValue v).
Definition needsTxSet (e : SCPEnvelope) (h : Hash) : Prop := exists v b, v ∈ valuesOf e /\ decodeValue v = Some b /\ txSetHash b = h.

Definition knowsQSet (s : Herder) (h : Hash) : Prop := lru_exists h (mQsetCache s) = true.
Definition knowsTxSet (s : Herder) (h : Hash) : Prop := lru_exists h (mTxSetCache s) = true.

(** Everything the envelope refers to is there. *)
Definition fullyFetched (s : Herder) (e : SCPEnvelope) : Prop :=
  knowsQSet s (qsetOf e) /\ readable e /\ forall h, needsTxSet e h -> knowsTxSet s h.

Definition waitsIn (f : Fetcher) (h : Hash) (e : SCPEnvelope) : Prop :=
  exists t, f !! h = Some t /\ e ∈ (mWaitingEnvelopes t).*2.

(** No tracker has been told to forget the slot of the envelope. *)
Definition notStopped (s : Herder) (e : SCPEnvelope) : Prop := forall i, EvStopped i ∈ hTrace s -> i <= slotOf e.

Definition armed (known : Hash -> Prop) (f : Fetcher) : Prop := forall h t, f !! h = Some t -> ~ known h -> mTimer t <> None.

Record herder_inv (skip : SCPEnvelope -> Prop) (s : Herder) : Prop := {
  hi_lru : lrus_ok s;
  hi_fetching : forall i e, e ∈ atSlot i (mFetchingEnvelopes s) -> slotOf e = i /\ e ∉ atSlot i (mProcessedEnvelopes s);
  hi_processed : forall i, NoDup (atSlot i (mProcessedEnvelopes s));
  hi_pending : forall i e, e ∈ atSlot i (mPendingEnvelopes s) -> slotOf e = i;
  hi_once : forall e, EvErased (slotOf e) ∉ hTrace s ->
    countEv (EvReady e) (hTrace s) = countIn e (atSlot (slotOf e) (mProcessedEnvelopes s));
  hi_flow : forall e, (countEv (EvToSCP e) (hTrace s) + countIn e (atSlot (slotOf e) (mPendingEnvelopes s)) <=
    countEv (EvReady e) (hTrace s))%nat;
  hi_complete : forall e, EvReady e ∈ hTrace s -> fullyFetched s e;
  hi_waitq : forall e, e ∈ atSlot (slotOf e) (mFetchingEnvelopes s) -> ~ skip e -> readable e -> notStopped s e ->
    ~ knowsQSet s (qsetOf e) -> waitsIn (mQuorumSetFetcher s) (qsetOf e) e;
  hi_waitt : forall e h, e ∈ atSlot (slotOf e) (mFetchingEnvelopes s) -> ~ skip e -> readable e -> notStopped s e ->
    needsTxSet e h -> ~ knowsTxSet s h -> waitsIn (mTxSetFetcher s) h e;
  hi_armedq : armed (knowsQSet s) (mQuorumSetFetcher s);
  hi_armedt : armed (knowsTxSet s) (mTxSetFetcher s) }.

Definition nobody : SCPEnvelope -> Prop := fun _ => False.
Definition Inv : Herder -> Prop := herder_inv nobody.

(** ** Maps of envelopes *)

Lemma atSlot_insert i v (m : gmap Z (list SCPEnvelope)) j : atSlot j (<[i := v]> m) = if decide (j = i) then v else atSlot j m.
Proof. unfold atSlot. case_decide; subst; [by rewrite lookup_insert_eq|by rewrite lookup_insert_ne]. Qed.

Lemma atSlot_delete i (m : gmap Z (list SCPEnvelope)) j : atSlot j (delete i m) = if decide (j = i) then [] else atSlot j m.
Proof. unfold atSlot. case_decide; subst; [by rewrite lookup_delete_eq|by rewrite lookup_delete_ne]. Qed.

Lemma atSlot_filter i (m : gmap Z (list SCPEnvelope)) j :
  atSlot j (filter (fun p => i <= p.1) m) = if decide (i <= j) then atSlot j m else [].
Proof.
  unfold atSlot. case_decide as E.
  - destruct (m !! j) as [v|] eqn:F; [by rewrite (map_lookup_filter_Some_2 _ _ _ _ F)|].
    rewrite (proj2 (map_lookup_filter_None _ _ _)); [done|]. by left.
  - rewrite (proj2 (map_lookup_filter_None _ _ _)); [done|]. by right.
Qed.

(** ** Steps that the invariant does not see *)

Lemma inv_known skip s s' : herder_inv skip s -> lrus_ok s' -> sameKnown s s' ->
  mProcessedEnvelopes s' = mProcessedEnvelopes s -> mFetchingEnvelopes s' = mFetchingEnvelopes s ->
  mPendingEnvelopes s' = mPendingEnvelopes s -> mTxSetFetcher s' = mTxSetFetcher s ->
  mQuorumSetFetcher s' = mQuorumSetFetcher s -> hTrace s' = hTrace s -> herder_inv skip s'.
Proof.
  intros [] Hl [Kq Kt] E1 E2 E3 E4 E5 E6.
  assert (forall h, knowsQSet s' h <-> knowsQSet s h) as HKq by (intros h; unfold knowsQSet; by rewrite Kq).
  assert (forall h, knowsTxSet s' h <-> knowsTxSet s h) as HKt by (intros h; unfold knowsTxSet; by rewrite Kt).
  split; unfold notStopped, fullyFetched, armed in *; rewrite ?E1, ?E2, ?E3, ?E4, ?E5, ?E6; try done.
  - intros e He. destruct (hi_complete0 e He) as (? & ? & Ht). split; [by apply HKq|]. split; [done|].
    intros h Hh. apply HKt. by apply Ht.
  - intros e He Hs Hr Hn Hk. apply hi_waitq0; try done. by rewrite HKq in Hk.
  - intros e h He Hs Hr Hn Hh Hk. apply hi_waitt0; try done. by rewrite HKt in Hk.
  - intros h t Ht Hk. apply (hi_armedq0 h t Ht). by rewrite HKq in Hk.
  - intros h t Ht Hk. apply (hi_armedt0 h t Ht). by rewrite HKt in Hk.
Qed.

Lemma inv_rest skip s r : herder_inv skip s -> herder_inv skip (set_rest r s).
Proof. intros Hi. eapply inv_known; try done. apply Hi. Qed.

Lemma inv_touch skip s q t n : herder_inv skip s ->
  (q = mQsetCache s \/ exists h x, lru_get h (mQsetCache s) = inr (x, q)) ->
  (t = mTxSetCache s \/ exists h x, lru_get h (mTxSetCache s) = inr (x, t)) -> herder_inv skip (set_caches q t n s).
Proof.
  intros Hi Eq Et. destruct (touch_ok s q t n (hi_lru _ _ Hi) Eq Et). by eapply inv_known.
Qed.

(** What is known grows. *)
Lemma inv_learn skip s q t n : herder_inv skip s -> lru_ok q -> lru_ok t ->
  (forall h, knowsQSet s h -> lru_exists h q = true) -> (forall h, knowsTxSet s h -> lru_exists h t = true) ->
  herder_inv skip (set_caches q t n s).
Proof.
  intros [] Oq Ot Kq Kt. split; try done; cbn [set_caches mProcessedEnvelopes mFetchingEnvelopes mPendingEnvelopes mQuorumSetFetcher
    mTxSetFetcher hTrace].
  - intros e He. destruct (hi_complete0 e He) as (H1 & H2 & H3). split; [by apply Kq|]. split; [done|].
    intros h Hh. by apply Kt, H3.
  - intros e He Hs Hr Hn Hk. apply hi_waitq0; try done. intros Hk'. by apply Hk, Kq.
  - intros e h He Hs Hr Hn Hh Hk. apply hi_waitt0; try done. intros Hk'. by apply Hk, Kt.
  - intros h x Hx Hk. apply (hi_armedq0 h x Hx). intros Hk'. by apply Hk, Kq.
  - intros h x Hx Hk. apply (hi_armedt0 h x Hx). intros Hk'. by apply Hk, Kt.
Qed.

(** Events that the invariant does not count. *)
Definition plain (ev : HerderEvent) : Prop :=
  match ev with EvReady _ | EvToSCP _ | EvErased _ | EvStopped _ => False | _ => True end.

Lemma inv_record skip s ev : plain ev -> herder_inv skip s -> herder_inv skip (record ev s).
Proof.
  intros Hp [].
  assert (forall x, plain x = False -> countEv x (ev :: hTrace s) = countEv x (hTrace s)) as Hcount.
  { intros x Hx. rewrite countEv_cons. rewrite decide_False; [done|]. intros ->. by rewrite Hx in Hp. }
  assert (forall x, plain x = False -> x ∈ ev :: hTrace s <-> x ∈ hTrace s) as Hin.
  { intros x Hx. rewrite elem_of_cons. split; [|by right]. intros [->|?]; [by rewrite Hx in Hp|done]. }
  split; cbn [record hTrace mProcessedEnvelopes mFetchingEnvelopes mPendingEnvelopes]; try done.
  - intros e He. rewrite Hcount by done. apply hi_once0. by rewrite Hin in He.
  - intros e. by rewrite !Hcount.
  - intros e He. rewrite Hin in He by done. by apply hi_complete0.
  - intros e He Hs Hr Hn. apply hi_waitq0; try done. intros i Hi. apply Hn. by apply Hin.
  - intros e h He Hs Hr Hn. apply hi_waitt0; try done. intros i Hi. apply Hn. by apply Hin.
Qed.

Lemma inv_erase skip s i : herder_inv skip s ->
  herder_inv skip (record (EvErased i) (set_envelopes (delete i (mProcessedEnvelopes s)) (delete i (mFetchingEnvelopes s))
    (delete i (mPendingEnvelopes s)) s)).
Proof.
  intros [].
  assert (forall x, x <> EvErased i -> countEv x (EvErased i :: hTrace s) = countEv x (hTrace s)) as Hcount.
  { intros x Hx. rewrite countEv_cons. by rewrite decide_False. }
  assert (forall x, x <> EvErased i -> x ∈ EvErased i :: hTrace s -> x ∈ hTrace s) as Hin.
  { intros x Hx. rewrite elem_of_cons. by intros [->|?]. }
  assert (forall e, e ∈ atSlot (slotOf e) (delete i (mFetchingEnvelopes s)) -> e ∈ atSlot (slotOf e) (mFetchingEnvelopes s)) as Hf.
  { intros e. rewrite atSlot_delete. case_decide; [by intros ?%elem_of_nil|done]. }
  split; cbn [record set_envelopes hTrace mProcessedEnvelopes mFetchingEnvelopes mPendingEnvelopes]; try done.
  - intros j e. rewrite !atSlot_delete. case_decide; [by intros ?%elem_of_nil|]. apply hi_fetching0.
  - intros j. rewrite atSlot_delete. case_decide; [constructor|done].
  - intros j e. rewrite atSlot_delete. case_decide; [by intros ?%elem_of_nil|]. apply hi_pending0.
  - intros e He. rewrite Hcount by done. rewrite atSlot_delete. rewrite decide_False by (intros <-; apply He; left).
    apply hi_once0. intros He'. apply He. by right.
  - intros e. rewrite !Hcount, atSlot_delete by done. specialize (hi_flow0 e). case_decide; [|done]. unfold countIn at 1. simpl. lia.
  - intros e He. apply Hin in He; [|done]. by apply hi_complete0.
  - intros e He Hs Hr Hn. apply hi_waitq0; try done; [by apply Hf|]. intros j Hj. apply Hn. by right.
  - intros e h He Hs Hr Hn. apply hi_waitt0; try done; [by apply Hf|]. intros j Hj. apply Hn. by right.
Qed.

(** Less to fetch and less that is pending. *)
Lemma inv_fewer skip s f p : herder_inv skip s ->
  (forall i e, e ∈ atSlot i f -> e ∈ atSlot i (mFetchingEnvelopes s)) ->
  (forall i e, e ∈ atSlot i p -> e ∈ atSlot i (mPendingEnvelopes s)) ->
  (forall i e, (countIn e (atSlot i p) <= countIn e (atSlot i (mPendingEnvelopes s)))%nat) ->
  herder_inv skip (set_envelopes (mProcessedEnvelopes s) f p s).
Proof.
  intros [] Hf Hp Hc. split; cbn [set_envelopes hTrace mProcessedEnvelopes mFetchingEnvelopes mPendingEnvelopes]; try done; eauto.
  intros e. specialize (hi_flow0 e). specialize (Hc (slotOf e) e). lia.
Qed.

Lemma inv_eraseBelow skip s i : herder_inv skip s -> herder_inv skip (set_envelopes (mProcessedEnvelopes s)
  (filter (fun p => i <= p.1) (mFetchingEnvelopes s)) (filter (fun p => i <= p.1) (mPendingEnvelopes s)) s).
Proof.
  intros Hi. apply inv_fewer; [done|..]; intros j e; rewrite atSlot_filter; case_decide; try done;
    [by intros ?%elem_of_nil..|unfold countIn; simpl; lia].
Qed.

(** ** Closing ledgers keeps the invariant *)

Definition always : relation Herder := fun _ _ => True.
#[local] Instance always_preorder : PreOrder always.
Proof. by split. Qed.

Abbreviation keeps := (okay Inv always).

(** What pop takes may be handed over. *)
Lemma inv_pop s i v e : Inv s -> mPendingEnvelopes s !! i = Some (v ++ [e]) ->
  let s' := set_envelopes (mProcessedEnvelopes s) (mFetchingEnvelopes s) (<[i := v]> (mPendingEnvelopes s)) s in
  Inv (record (EvToSCP e) s').
Proof.
  intros [] Hi. cbv zeta.
  assert (atSlot i (mPendingEnvelopes s) = v ++ [e]) as Ei by (unfold atSlot; by rewrite Hi).
  assert (slotOf e = i) as He by (apply (hi_pending0 i); rewrite Ei; set_solver).
  assert (forall x, x <> EvToSCP e -> countEv x (EvToSCP e :: hTrace s) = countEv x (hTrace s)) as Hcount.
  { intros x Hx. rewrite countEv_cons. by rewrite decide_False. }
  split; cbn [record set_envelopes hTrace mProcessedEnvelopes mFetchingEnvelopes mPendingEnvelopes]; try done.
  - intros j x. rewrite atSlot_insert. case_decide; [|apply hi_pending0]. subst. intros Hx. apply hi_pending0. rewrite Ei. set_solver.
  - intros x Hx. rewrite Hcount by done. apply hi_once0. intros Hx'. apply Hx. by right.
  - intros x. rewrite (Hcount (EvReady x)) by done. rewrite countEv_cons, atSlot_insert. specialize (hi_flow0 x).
    destruct (decide (slotOf x = i)) as [Ex|Ex].
    + rewrite Ex, Ei, countIn_app, countIn_one in hi_flow0. repeat case_decide; simplify_eq; lia.
    + case_decide as Ee; [simplify_eq|]. lia.
  - intros x Hx. apply elem_of_cons in Hx as [[=]|Hx]. by apply hi_complete0.
  - intros x Hx Hs Hr Hn. apply hi_waitq0; try done. intros j Hj. apply Hn. by right.
  - intros x h Hx Hs Hr Hn. apply hi_waitt0; try done. intros j Hj. apply Hn. by right.
Qed.

Lemma inv_processing : processing Inv.
Proof.
  split; unfold Inv; intros.
  - by apply inv_rest.
  - by apply inv_touch.
  - by apply inv_record.
  - by apply inv_record.
  - by apply inv_erase.
  - by apply inv_eraseBelow.
  - by apply inv_pop.
Qed.

Context (sha256 : StellarMessage -> Hash) (env : HerderEnv).

(** ** Fetching *)

Lemma inv_fetchers skip s tx qs : herder_inv skip s ->
  (forall h e, waitsIn (mTxSetFetcher s) h e -> ~ knowsTxSet s h -> waitsIn tx h e) ->
  (forall h e, waitsIn (mQuorumSetFetcher s) h e -> ~ knowsQSet s h -> waitsIn qs h e) ->
  armed (knowsTxSet s) tx -> armed (knowsQSet s) qs -> herder_inv skip (set_fetchers tx qs s).
Proof. intros [] Ht Hq At Aq. split; try done; cbn [set_fetchers mTxSetFetcher mQuorumSetFetcher]; eauto. Qed.

Lemma waitsIn_insert (f : Fetcher) h t t' h' e : f !! h = Some t -> waitsIn f h' e ->
  (e ∈ (mWaitingEnvelopes t).*2 -> h' = h -> e ∈ (mWaitingEnvelopes t').*2) -> waitsIn (<[h := t']> f) h' e.
Proof.
  intros Ht (x & Hx & He) Hw. destruct (decide (h' = h)) as [->|Hne].
  - exists t'. rewrite lookup_insert_eq. simplify_eq. auto.
  - exists x. by rewrite lookup_insert_ne.
Qed.

Lemma armed_insert known (f : Fetcher) h t : armed known f -> (~ known h -> mTimer t <> None) -> armed known (<[h := t]> f).
Proof.
  intros Ha Ht h' t' Hl Hk. destruct (decide (h' = h)) as [->|Hne].
  - rewrite lookup_insert_eq in Hl. simplify_eq. auto.
  - rewrite lookup_insert_ne in Hl by done. by apply (Ha h').
Qed.

(** The tracker of a known item is of no account. *)
Lemma inv_gotQSet skip h t s : herder_inv skip s -> knowsQSet s h -> is_Some (mQuorumSetFetcher s !! h) ->
  herder_inv skip (setQSetFetcher (<[h := t]> (mQuorumSetFetcher s)) s).
Proof.
  intros Hi Hk [t0 Ht]. apply inv_fetchers; [done|done| |apply Hi|].
  - intros h' e Hw Hk'. eapply waitsIn_insert; [done..|]. intros _ ->. by destruct Hk'.
  - apply armed_insert; [apply Hi|]. by intros [].
Qed.

Lemma inv_gotTxSet skip h t s : herder_inv skip s -> knowsTxSet s h -> is_Some (mTxSetFetcher s !! h) ->
  herder_inv skip (setTxSetFetcher (<[h := t]> (mTxSetFetcher s)) s).
Proof.
  intros Hi Hk [t0 Ht]. apply inv_fetchers; [done| |done| |apply Hi].
  - intros h' e Hw Hk'. eapply waitsIn_insert; [done..|]. intros _ ->. by destruct Hk'.
  - apply armed_insert; [apply Hi|]. by intros [].
Qed.

Lemma tryNextPeer_same o t : mTimer (tryNextPeer o t).2 <> None /\ mWaitingEnvelopes (tryNextPeer o t).2 = mWaitingEnvelopes t.
Proof. unfold tryNextPeer. by destruct (popAuthenticated _ _) as [[q|] rest]. Qed.

Lemma fetch_spec known o h e (f : Fetcher) : let f' := (fetch (msgHashOf sha256) o h e f).2 in
  (forall h' x, waitsIn f h' x -> waitsIn f' h' x) /\ waitsIn f' h e /\ (armed known f -> armed known f').
Proof.
  cbv zeta. unfold fetch. destruct (f !! h) as [t|] eqn:E; cbn [snd].
  - assert (e ∈ (mWaitingEnvelopes (listen (msgHashOf sha256) e t)).*2) as He.
    { simpl. rewrite fmap_app. set_solver. }
    split; [|split].
    + intros h' x Hx. apply (waitsIn_insert f h t); [done..|]. intros Hin _. simpl. rewrite fmap_app. set_solver.
    + exists (listen (msgHashOf sha256) e t). by rewrite lookup_insert_eq.
    + intros Ha. apply armed_insert; [done|]. intros Hk. simpl. by apply (Ha h).
  - destruct (tryNextPeer_same o (listen (msgHashOf sha256) e newTracker)) as [Htm Hw].
    destruct (tryNextPeer o _) as [asked t]. cbn [snd] in *. split; [|split].
    + intros h' x (t' & Ht' & Hx). exists t'. rewrite lookup_insert_ne; [done|]. congruence.
    + exists t. rewrite lookup_insert_eq, Hw. split; [done|]. simpl. set_solver.
    + intros Ha. by apply armed_insert.
Qed.

Lemma inv_fetchQSet skip h e s : herder_inv skip s ->
  herder_inv skip (set_fetchers (mTxSetFetcher s) (fetch (msgHashOf sha256) (overlayOf env s) h e (mQuorumSetFetcher s)).2 s).
Proof.
  intros Hi. destruct (fetch_spec (knowsQSet s) (overlayOf env s) h e (mQuorumSetFetcher s)) as (H1 & _ & H3).
  apply inv_fetchers; [done|done|auto|apply Hi|apply H3, Hi].
Qed.

Lemma inv_fetchTxSet skip h e s : herder_inv skip s ->
  herder_inv skip (set_fetchers (fetch (msgHashOf sha256) (overlayOf env s) h e (mTxSetFetcher s)).2 (mQuorumSetFetcher s) s).
Proof.
  intros Hi. destruct (fetch_spec (knowsTxSet s) (overlayOf env s) h e (mTxSetFetcher s)) as (H1 & _ & H3).
  apply inv_fetchers; [done|auto|done|apply H3, Hi|apply Hi].
Qed.

(** An envelope that was left out is no more when it waits for all it needs. *)
Lemma inv_unskip e s : herder_inv (eq e) s ->
  (readable e -> ~ knowsQSet s (qsetOf e) -> waitsIn (mQuorumSetFetcher s) (qsetOf e) e) ->
  (readable e -> forall h, needsTxSet e h -> ~ knowsTxSet s h -> waitsIn (mTxSetFetcher s) h e) -> Inv s.
Proof.
  intros [] Hq Ht. split; try done.
  - intros x Hx _ Hr Hn Hk. destruct (decide (e = x)) as [->|]; auto.
  - intros x h Hx _ Hr Hn Hh Hk. destruct (decide (e = x)) as [->|]; auto.
Qed.

(** The envelopes are where they were. *)
Definition sameEnvelopes (s s' : Herder) : Prop :=
  mProcessedEnvelopes s' = mProcessedEnvelopes s /\ mFetchingEnvelopes s' = mFetchingEnvelopes s.

(** The body of the loop of [startFetch]. *)
Definition fetchTxSetOf (e : SCPEnvelope) (v : Value) : M Herder () :=
  h ← lift (decodeTxSetHash v);
  s ← get;
  if lru_exists h (mTxSetCache s) then mret () else fetchTxSet sha256 env h e.

Lemma fetchTxSetOf_run e v s : fetchTxSetOf e v s =
  match decodeValue v with
  | None => Exn corrupt s
  | Some b => if lru_exists (txSetHash b) (mTxSetCache s) then Ret () s
      else Ret () (set_fetchers (fetch (msgHashOf sha256) (overlayOf env s) (txSetHash b) e (mTxSetFetcher s)).2 (mQuorumSetFetcher s) s)
  end.
Proof.
  unfold fetchTxSetOf, decodeTxSetHash, mbind, M_bind, get. destruct (decodeValue v) as [b|]; [|done]. simpl.
  by destruct (lru_exists (txSetHash b) (mTxSetCache s)).
Qed.

Lemma startTxSets e vs : forall s, herder_inv (eq e) s ->
  (readable e -> ~ knowsQSet s (qsetOf e) -> waitsIn (mQuorumSetFetcher s) (qsetOf e) e) ->
  (forall v, v ∈ vs -> v ∈ valuesOf e) ->
  (forall v b, v ∈ valuesOf e -> v ∉ vs -> decodeValue v = Some b -> ~ knowsTxSet s (txSetHash b) ->
    waitsIn (mTxSetFetcher s) (txSetHash b) e) ->
  match forEach (fetchTxSetOf e) vs s with
  | Ret _ s' => Inv s' /\ sameEnvelopes s s'
  | Exn x s' => Inv s' /\ sameEnvelopes s s' /\ x = corrupt
  end.
Proof.
  induction vs as [|v vs IH]; intros s Hi Hq Hvs Hd; cbn [forEach].
  { split; [|done]. apply (inv_unskip e); [done..|]. intros Hr h (v & b & Hv & Hb & <-) Hk.
    apply (Hd v b); try done. apply not_elem_of_nil. }
  unfold mbind, M_bind. rewrite fetchTxSetOf_run. destruct (decodeValue v) as [b|] eqn:Hb.
  2: { split; [|by split]. apply (inv_unskip e); [done|done|]. intros Hr. destruct (Hr v) as [b' Hb']; [apply Hvs; left|]. congruence. }
  destruct (lru_exists (txSetHash b) (mTxSetCache s)) eqn:Hk.
  - apply IH; [done|done|set_solver|]. intros v' b' Hv' Hn Hb' Hk'. destruct (decide (v' = v)) as [->|].
    + rewrite Hb in Hb'. injection Hb' as <-. by destruct Hk'.
    + apply (Hd v' b'); try done. set_solver.
  - pose proof (fetch_spec (knowsTxSet s) (overlayOf env s) (txSetHash b) e (mTxSetFetcher s)) as (F1 & F2 & _).
    set (s1 := set_fetchers _ _ s). apply (IH s1); [by apply inv_fetchTxSet|done|set_solver|].
    intros v' b' Hv' Hn Hb' Hk'. simpl. destruct (decide (v' = v)) as [->|]; [rewrite Hb in Hb'; by injection Hb' as <-|].
    apply F1, (Hd v' b'); try done. set_solver.
Qed.

Lemma startFetch_keeps e s : herder_inv (eq e) s ->
  match startFetch sha256 env e s with
  | Ret _ s' => Inv s' /\ sameEnvelopes s s'
  | Exn x s' => Inv s' /\ sameEnvelopes s s' /\ x = corrupt
  end.
Proof.
  intros Hi.
  assert (startFetch sha256 env e s = forEach (fetchTxSetOf e) (slot_getStatementValues (statement e))
    (if lru_exists (qsetOf e) (mQsetCache s) then s
     else set_fetchers (mTxSetFetcher s) (fetch (msgHashOf sha256) (overlayOf env s) (qsetOf e) e (mQuorumSetFetcher s)).2 s)) as ->.
  { unfold startFetch, mbind at 1 2, M_bind, get. cbv beta zeta. fold (qsetOf e).
    by destruct (lru_exists (qsetOf e) (mQsetCache s)). }
  destruct (lru_exists (qsetOf e) (mQsetCache s)) eqn:Hk.
  - apply startTxSets; [done|by intros _ []|done|done].
  - pose proof (fetch_spec (knowsQSet s) (overlayOf env s) (qsetOf e) e (mQuorumSetFetcher s)) as (_ & F2 & _).
    set (s1 := set_fetchers _ _ s). pose proof (startTxSets e (slot_getStatementValues (statement e)) s1) as Hs.
    destruct (forEach _ _ s1); apply Hs; try done; by apply inv_fetchQSet.
Qed.

(** ** An envelope that is ready *)

Lemma haveTxSets_complete vs s : haveTxSets vs s = inr true -> forall v, v ∈ vs ->
  exists b, decodeValue v = Some b /\ knowsTxSet s (txSetHash b).
Proof.
  induction vs as [|v vs IH]; simpl; [by intros _ v ?%elem_of_nil|]. unfold decodeTxSetHash.
  destruct (decodeValue v) as [b|] eqn:Hb; [|done]. destruct (lru_exists (txSetHash b) (mTxSetCache s)) eqn:Hk; [|done].
  intros Hvs v' [->|Hin]%elem_of_cons; [by exists b|]. by apply IH.
Qed.

Lemma isFullyFetched_complete e s : isFullyFetched e s = Ret true s -> fullyFetched s e.
Proof.
  unfold isFullyFetched. fold (qsetOf e). destruct (lru_exists (qsetOf e) (mQsetCache s)) eqn:Hq; [|done]. simpl.
  destruct (haveTxSets _ s) as [|[]] eqn:Ht; simpl; try done. intros _. pose proof (haveTxSets_complete _ _ Ht) as Hv.
  split; [done|]. split.
  - intros v Hin. destruct (Hv v Hin) as (b & Hb & _). by exists b.
  - intros h (v & b & Hin & Hb & <-). destruct (Hv v Hin) as (b' & Hb' & Hk). by simplify_eq.
Qed.

(** From fetching to processed and, after the broadcast, to pending. *)
Lemma inv_ready e s r : Inv s -> e ∈ atSlot (slotOf e) (mFetchingEnvelopes s) -> fullyFetched s e ->
  let s1 := record (EvReady e) (set_envelopes
    (<[slotOf e := atSlot (slotOf e) (mProcessedEnvelopes s) ++ [e]]> (mProcessedEnvelopes s))
    (<[slotOf e := filter (fun x => x <> e) (atSlot (slotOf e) (mFetchingEnvelopes s))]> (mFetchingEnvelopes s))
    (mPendingEnvelopes s) s) in
  Inv (set_envelopes (mProcessedEnvelopes s1) (mFetchingEnvelopes s1)
    (<[slotOf e := atSlot (slotOf e) (mPendingEnvelopes s1) ++ [e]]> (mPendingEnvelopes s1)) (set_rest r s1)).
Proof.
  intros [] He Hc. cbv zeta. destruct (hi_fetching0 _ _ He) as [_ Hnp].
  assert (forall x, x <> EvReady e -> countEv x (EvReady e :: hTrace s) = countEv x (hTrace s)) as Hcount.
  { intros x Hx. rewrite countEv_cons. by rewrite decide_False. }
  assert (forall x, x ∈ atSlot (slotOf x) (<[slotOf e := filter (fun x => x <> e) (atSlot (slotOf e) (mFetchingEnvelopes s))]>
    (mFetchingEnvelopes s)) -> x ∈ atSlot (slotOf x) (mFetchingEnvelopes s)) as Hf.
  { intros x. rewrite atSlot_insert. case_decide as E; [|done]. rewrite E. by intros [_ Hx]%list_elem_of_filter. }
  split; cbn [record set_envelopes set_rest hTrace mProcessedEnvelopes mFetchingEnvelopes mPendingEnvelopes]; try done.
  - intros i x. rewrite !atSlot_insert. case_decide; [|apply hi_fetching0]. subst. intros [Hne Hx]%list_elem_of_filter.
    destruct (hi_fetching0 _ _ Hx) as [Es Hn]. split; [done|]. set_solver.
  - intros i. rewrite atSlot_insert. case_decide; [|done]. apply NoDup_app. split; [done|]. split; [set_solver|].
    apply NoDup_singleton.
  - intros i x. rewrite atSlot_insert. case_decide; [|apply hi_pending0]. subst.
    intros [Hx|Hx%list_elem_of_singleton]%elem_of_app; [by apply hi_pending0|by subst].
  - intros x Hx. rewrite countEv_cons, atSlot_insert. assert (EvErased (slotOf x) ∉ hTrace s) as Hx' by set_solver.
    specialize (hi_once0 x Hx'). case_decide as E; [simplify_eq; rewrite decide_True by done|].
    + rewrite countIn_app, countIn_one, decide_True, hi_once0 by done. lia.
    + case_decide as E2; [|done]. rewrite countIn_app, countIn_one, decide_False, hi_once0, E2 by congruence. lia.
  - intros x. rewrite (Hcount (EvToSCP x)), countEv_cons, atSlot_insert by done. specialize (hi_flow0 x).
    destruct (decide (slotOf x = slotOf e)) as [Es|Es].
    + rewrite countIn_app, countIn_one, <- Es. repeat case_decide; simplify_eq; lia.
    + rewrite decide_False by (intros [= ->]; done). lia.
  - intros x [[= ->]|Hx]%elem_of_cons; [done|by apply hi_complete0].
  - intros x Hx Hs Hr Hn. apply hi_waitq0; try done; [by apply Hf|]. intros j Hj. apply Hn. by right.
  - intros x h Hx Hs Hr Hn. apply hi_waitt0; try done; [by apply Hf|]. intros j Hj. apply Hn. by right.
Qed.

Lemma isFullyFetched_reads e s : match isFullyFetched e s with Ret _ s' => s' = s | Exn x s' => s' = s /\ x <> OutOfFuel end.
Proof.
  unfold isFullyFetched. destruct (negb _); [done|]. destruct (haveTxSets _ s) as [x|b] eqn:E; [|done].
  split; [done|]. by eapply haveTxSets_fuel.
Qed.

Lemma inv_slots e s : Inv s -> Inv (set_envelopes
  (<[slotOf e := atSlot (slotOf e) (mProcessedEnvelopes s)]> (mProcessedEnvelopes s))
  (<[slotOf e := atSlot (slotOf e) (mFetchingEnvelopes s)]> (mFetchingEnvelopes s)) (mPendingEnvelopes s) s).
Proof.
  intros [].
  assert (forall m i, atSlot i (<[slotOf e := atSlot (slotOf e) m]> m) = atSlot i m) as E.
  { intros m i. rewrite atSlot_insert. case_decide; [by subst|done]. }
  split; cbn [set_envelopes hTrace mProcessedEnvelopes mFetchingEnvelopes mPendingEnvelopes]; try done;
    intros *; rewrite ?E; eauto.
Qed.

Lemma inv_new e s : Inv s -> e ∉ atSlot (slotOf e) (mProcessedEnvelopes s) ->
  herder_inv (eq e) (set_envelopes (mProcessedEnvelopes s)
    (<[slotOf e := e :: atSlot (slotOf e) (mFetchingEnvelopes s)]> (mFetchingEnvelopes s)) (mPendingEnvelopes s) s).
Proof.
  intros [] Hp.
  assert (forall x, x ∈ atSlot (slotOf x) (<[slotOf e := e :: atSlot (slotOf e) (mFetchingEnvelopes s)]> (mFetchingEnvelopes s)) ->
    e <> x -> x ∈ atSlot (slotOf x) (mFetchingEnvelopes s)) as Hf.
  { intros x. rewrite atSlot_insert. case_decide as E; [|done]. rewrite E. intros [->|Hx]%elem_of_cons; done. }
  split; cbn [set_envelopes hTrace mProcessedEnvelopes mFetchingEnvelopes mPendingEnvelopes]; try done; eauto.
  intros i x. rewrite atSlot_insert. case_decide; [|apply hi_fetching0]. subst.
  intros [->|Hx]%elem_of_cons; [done|by apply hi_fetching0].
Qed.

Context `{StdSort} (contentsHash : Hash -> list Transaction -> Hash).
Hypothesis Hlm : forall d s e, lmExternalize env d s = inl e -> e <> OutOfFuel.

Lemma processSCPQueue_keeps : keeps (processSCPQueue contentsHash sha256 env).
Proof.
  intros s Hi. pose proof (processSCPQueue_sound contentsHash sha256 env Hlm Inv inv_processing s (conj Hi (hi_lru _ _ Hi))) as Hp.
  unfold sound in Hp. destruct (processSCPQueue _ _ _ s); naive_solver.
Qed.

Lemma checkReady_keeps e s : Inv s -> e ∈ atSlot (slotOf e) (mFetchingEnvelopes s) ->
  match checkReady contentsHash sha256 env e s with Ret _ s' => Inv s' | Exn x s' => Inv s' /\ x <> OutOfFuel end.
Proof.
  intros Hi He. unfold checkReady, mbind at 1, M_bind. pose proof (isFullyFetched_reads e s) as Hr.
  destruct (isFullyFetched e s) as [b s'|x s'] eqn:E; [|by destruct Hr as [-> ?]]. subst s'. destruct b; [|done].
  apply isFullyFetched_complete in E. unfold mbind at 1, M_bind, modify, envelopeReady, broadcastMessage.
  unfold mbind at 1 2, M_bind, modify. set (s1 := record (EvReady e) _). cbv beta.
  set (r := set_flood _ (restOf s1)). pose proof (inv_ready e s r Hi He E) as Hi2. cbv zeta in Hi2. fold s1 in Hi2.
  pose proof (processSCPQueue_keeps _ Hi2) as Hp. 
  change (mProcessedEnvelopes (set_rest r s1)) with (mProcessedEnvelopes s1).
  change (mFetchingEnvelopes (set_rest r s1)) with (mFetchingEnvelopes s1).
  change (mPendingEnvelopes (set_rest r s1)) with (mPendingEnvelopes s1).
  destruct (processSCPQueue contentsHash sha256 env _); naive_solver.
Qed.

(** ** Receiving an envelope *)

Lemma refuse_keeps e : keeps (refuse e).
Proof. apply okay_modify. intros s Hs. split; [by apply inv_record|done]. Qed.

Lemma pe_recv_keeps e : keeps (pe_recvSCPEnvelope contentsHash sha256 env e).
Proof.
  unfold pe_recvSCPEnvelope. apply okay_bind; [apply _| |intros b; apply okay_if; intros _; [apply refuse_keeps|]].
  { apply okay_isNodeInQuorum; [apply _|]. intros s q t k Hs Eq Et. split; [by apply inv_touch|done]. }
  apply okay_catch. apply okay_bind; [apply _|apply okay_modify; intros s Hs; split; [by apply inv_slots|done]|]. intros _.
  apply okay_get_bind. intros s Hi. case_decide as Hf.
  - pose proof (checkReady_keeps e s Hi Hf) as Hc. destruct (checkReady _ _ _ e s); naive_solver.
  - case_decide as Hp; [done|]. unfold mbind at 1 2, M_bind, modify. cbv beta. set (s1 := set_envelopes _ _ _ s).
    pose proof (startFetch_keeps e s1 (inv_new e s Hi Hp)) as Hs.
    destruct (startFetch sha256 env e s1) as [u s2|x s2]; [|destruct Hs as (? & _ & ->); split; [done|]; split; [done|apply corrupt_fuel]].
    destruct Hs as [Hi2 [_ Ef]]. pose proof (checkReady_keeps e s2 Hi2) as Hc.
    assert (e ∈ atSlot (slotOf e) (mFetchingEnvelopes s2)) as He2.
    { rewrite Ef. unfold s1. cbn [set_envelopes mFetchingEnvelopes]. rewrite atSlot_insert, decide_True by done. left. }
    specialize (Hc He2). destruct (checkReady _ _ _ e s2); naive_solver.
Qed.

Lemma recvSCPEnvelope_keeps e : keeps (recvSCPEnvelope contentsHash sha256 env e).
Proof.
  unfold recvSCPEnvelope. apply okay_if; intros _; [apply refuse_keeps|]. case_decide; [apply refuse_keeps|].
  apply okay_bind; [apply _|apply okay_get, _|]. intros s. apply okay_if; intros _; [apply refuse_keeps|].
  apply okay_bind; [apply _|apply okay_modify; intros s' Hs; split; [by apply inv_record|done]|]. intros _. apply pe_recv_keeps.
Qed.

End inv.

Section live.
Context `{ValueExterns}.

(** Every complete envelope that is being fetched was refused or is one of [left]. *)
Definition live (left : SCPEnvelope -> Prop) (s : Herder) : Prop := forall e,
  e ∈ atSlot (slotOf e) (mFetchingEnvelopes s) -> notStopped s e -> fullyFetched s e -> EvRefused e ∈ hTrace s \/ left e.

Lemma live_mono left s s' :
  (forall i e, e ∈ atSlot i (mFetchingEnvelopes s') -> e ∈ atSlot i (mFetchingEnvelopes s)) ->
  (forall e, fullyFetched s' e -> fullyFetched s e) -> (forall x, x ∈ hTrace s -> x ∈ hTrace s') -> live left s -> live left s'.
Proof.
  intros Hf Hc Ht Hl e He Hn He'. destruct (Hl e); auto. intros i Hi. apply Hn. auto.
Qed.

Lemma complete_known s s' e : sameKnown s s' -> fullyFetched s' e -> fullyFetched s e.
Proof.
  intros [Kq Kt] (Hq & Hr & Ht). unfold knowsQSet in *. rewrite Kq in Hq. split; [done|]. split; [done|].
  intros h Hh. specialize (Ht h Hh). unfold knowsTxSet in *. by rewrite Kt in Ht.
Qed.

Lemma live_processing (L : Prop) left : processing (fun s => Inv s /\ (L -> live left s)).
Proof.
  pose proof inv_processing as [P1 P2 P3 P4 P5 P6 P7].
  split; intros; destruct_and?; (split; [auto|intros HL; eapply live_mono; [| | |by eauto]]); try done;
    cbn [record set_envelopes hTrace mFetchingEnvelopes]; try (intros x Hx; by right).
  - intros e. apply complete_known. eapply touch_ok; try done. by apply (hi_lru nobody).
  - intros j e. rewrite atSlot_delete. case_decide; [by intros ?%elem_of_nil|done].
  - intros j e. rewrite atSlot_filter. case_decide; [done|by intros ?%elem_of_nil].
Qed.

Context `{StdSort} (contentsHash : Hash -> list Transaction -> Hash).
Context (sha256 : StellarMessage -> Hash) (env : HerderEnv).
Hypothesis Hlm : forall d s e, lmExternalize env d s = inl e -> e <> OutOfFuel.

(** What the invariant and the liveness are together. *)
Definition good (L : Prop) (left : SCPEnvelope -> Prop) (s : Herder) : Prop := Inv s /\ (L -> live left s).

Lemma processSCPQueue_live L left s : good L left s ->
  match processSCPQueue contentsHash sha256 env s with Ret _ s' | Exn _ s' => good L left s' end.
Proof.
  intros Hg. pose proof (processSCPQueue_sound contentsHash sha256 env Hlm _ (live_processing L left) s) as Hp.
  assert (lrus_ok s) as Hl by apply Hg. specialize (Hp (conj Hg Hl)). unfold sound in Hp.
  destruct (processSCPQueue _ _ _ s); apply Hp.
Qed.

(** ** Receiving an envelope *)

Lemma haveTxSets_known vs s : (forall v, v ∈ vs -> exists b, decodeValue v = Some b /\ knowsTxSet s (txSetHash b)) ->
  haveTxSets vs s = inr true.
Proof.
  induction vs as [|v vs IH]; intros Hv; [done|]. simpl. unfold decodeTxSetHash.
  destruct (Hv v) as (b & -> & Hk); [left|]. rewrite Hk. apply IH. intros. apply Hv. by right.
Qed.

Lemma complete_fetched e s : fullyFetched s e -> isFullyFetched e s = Ret true s.
Proof.
  intros (Hq & Hr & Ht). unfold isFullyFetched. fold (qsetOf e). rewrite Hq. simpl. rewrite haveTxSets_known; [done|].
  intros v Hv. destruct (Hr v Hv) as [b Hb]. exists b. split; [done|]. apply Ht. exists v, b. done.
Qed.

(** The envelope itself is no longer left, whatever the outcome. *)
Lemma live_incomplete L left e s : good L (fun x => x = e \/ left x) s -> ~ fullyFetched s e -> good L left s.
Proof.
  intros [Hi Hl] Hc. split; [done|]. intros HL x Hx Hn Hx'. destruct (Hl HL x) as [?|[->|?]]; auto. by destruct Hc.
Qed.

Lemma checkReady_live L left e s : good L (fun x => x = e \/ left x) s -> e ∈ atSlot (slotOf e) (mFetchingEnvelopes s) ->
  match checkReady contentsHash sha256 env e s with Ret _ s' | Exn _ s' => good L left s' end.
Proof.
  intros Hg He. unfold checkReady, mbind at 1, M_bind. pose proof (isFullyFetched_reads e s) as Hr.
  pose proof (complete_fetched e s) as Hc.
  destruct (isFullyFetched e s) as [b s'|x s'] eqn:E; [subst s'|destruct Hr as [-> _]].
  2: { apply (live_incomplete L left e); [done|]. intros Hce. by specialize (Hc Hce). }
  destruct b; [|apply (live_incomplete L left e); [done|]; intros Hce; by specialize (Hc Hce)].
  apply isFullyFetched_complete in E. unfold mbind at 1, M_bind, modify, envelopeReady, broadcastMessage.
  unfold mbind at 1 2, M_bind, modify. set (s1 := record (EvReady e) _). cbv beta.
  set (r := set_flood _ (restOf s1)). set (s2 := set_envelopes _ _ _ (set_rest r s1)).
  assert (good L left s2) as Hg2; [|pose proof (processSCPQueue_live L left s2 Hg2) as Hp; destruct (processSCPQueue _ _ _ s2); done].
  destruct Hg as [Hi Hl]. split; [exact (inv_ready e s r Hi He E)|]. intros HL x. unfold s2, s1.
  cbn [set_envelopes set_rest record mFetchingEnvelopes hTrace]. rewrite atSlot_insert.
  intros Hx Hn Hx'. assert (x <> e /\ x ∈ atSlot (slotOf x) (mFetchingEnvelopes s)) as [Hne Hin].
  { case_decide as Es; [|split; [congruence|done]]. apply list_elem_of_filter in Hx. by rewrite Es. }
  destruct (Hl HL x) as [?|[?|?]]; [done| |done|left; by right|done|by right].
  intros i Hi'. apply Hn. by right.
Qed.

Lemma startFetch_same e s : match startFetch sha256 env e s with
  | Ret _ s' => hTrace s' = hTrace s /\ sameKnown s s'
  | Exn _ s' => hTrace s' = hTrace s /\ sameKnown s s' /\ ~ readable e
  end.
Proof.
  assert (forall vs s0, (forall v, v ∈ vs -> v ∈ valuesOf e) -> hTrace s0 = hTrace s -> sameKnown s s0 ->
    match forEach (fetchTxSetOf sha256 env e) vs s0 with
    | Ret _ s' => hTrace s' = hTrace s /\ sameKnown s s'
    | Exn _ s' => hTrace s' = hTrace s /\ sameKnown s s' /\ ~ readable e
    end) as Hall.
  { induction vs as [|v vs IH]; intros s0 Hv Ht Hk; [done|]. cbn [forEach]. unfold mbind, M_bind. rewrite fetchTxSetOf_run.
    destruct (decodeValue v) as [b|] eqn:Hb.
    - destruct (lru_exists _ _); apply IH; try done; intros; apply Hv; by right.
    - split; [done|]. split; [done|]. intros Hr. destruct (Hr v) as [? ?]; [apply Hv; left|congruence]. }
  unfold startFetch, mbind at 1 2, M_bind, get. cbv beta zeta. destruct (lru_exists _ (mQsetCache s)).
  - by apply (Hall (slot_getStatementValues (statement e)) s).
  - unfold fetchQSet, modify. by apply (Hall (slot_getStatementValues (statement e))).
Qed.

Lemma scpQuery_runs s : exists s', scpQuery env s = Ret () s'.
Proof.
  unfold scpQuery, mbind, M_bind, gets, touchQSets. generalize (scpReads env s). intros hs. revert s.
  induction hs as [|h hs IH]; intros s; [by exists s|]. cbn [forEach]. unfold mbind, M_bind, herder_getQSet.
  destruct (lru_get h (mQsetCache s)) as [|[x c]]; apply IH.
Qed.

Lemma isNodeInQuorum_live L left n s : good L left s -> exists b s',
  herder_isNodeInQuorum env n s = Ret b s' /\ good L left s'.
Proof.
  intros Hg. assert (PreOrder always) by (by split).
  assert (okay (good L left) always (herder_isNodeInQuorum env n)) as Hok.
  { apply okay_isNodeInQuorum; [done|]. intros s1 q t k Hg1 Eq Et. split; [|done]. by apply (pr_touch _ (live_processing L left)). }
  assert (exists b s', herder_isNodeInQuorum env n s = Ret b s') as (b & s' & E).
  { unfold herder_isNodeInQuorum, mbind at 1, M_bind, nodeCached.
    assert (forall s1, exists b s', (scpQuery env;; match scpIsNodeInQuorum env n with
      | TB_TRUE => modify (fun s => set_caches (mQsetCache s) (mTxSetCache s) (lru_put n true (mNodesInQuorum s)) s);; mret true
      | TB_FALSE => mret false | TB_MAYBE => mret true end) s1 = Ret b s') as Hq.
    { intros s1. unfold mbind at 1, M_bind. destruct (scpQuery_runs s1) as [s2 ->].
      destruct (scpIsNodeInQuorum env n); by eexists _, _. }
    destruct (lru_get n (mNodesInQuorum s)) as [|[[] c]]; [apply Hq|by eexists _, _|apply Hq]. }
  exists b, s'. split; [done|]. specialize (Hok s Hg). rewrite E in Hok. apply Hok.
Qed.

Lemma refuse_live L left e s : good L (fun x => x = e \/ left x) s -> good L left (record (EvRefused e) s).
Proof.
  intros [Hi Hl]. split; [by apply inv_record|]. intros HL x Hx Hn Hx'.
  destruct (Hl HL x) as [?|[->|?]]; auto; [|left; by right|left; by left]. intros i Hi'. apply Hn. by right.
Qed.

Lemma pe_recv_live L left e s : good L (fun x => x = e \/ left x) s ->
  match pe_recvSCPEnvelope contentsHash sha256 env e s with Ret _ s' | Exn _ s' => good L left s' end.
Proof.
  intros Hg. unfold pe_recvSCPEnvelope, mbind at 1, M_bind.
  destruct (isNodeInQuorum_live L (fun x => x = e \/ left x) (st_nodeID (statement e)) s Hg) as (ok & s1 & -> & Hg1).
  clear Hg s. rename s1 into s, Hg1 into Hg.
  destruct ok; [|by apply refuse_live]. cbn [negb]. unfold catchCorrupt.
  match goal with |- match match ?m s with _ => _ end with _ => _ end =>
    enough (match m s with Ret _ s' | Exn _ s' => good L left s' end) as Hm;
    [destruct (m s) as [|x s']; [done|by case_decide]|] end.
  unfold mbind at 1, M_bind, modify. cbv beta. pose proof Hg as [Hi Hl]. apply (inv_slots e) in Hi.
  set (s0 := set_envelopes _ _ _ s) in *.
  assert (good L (fun x => x = e \/ left x) s0) as Hg0.
  { split; [done|]. intros HL. eapply live_mono; [| | |by eauto]; try done. intros i x. unfold s0. simpl.
    rewrite atSlot_insert. by case_decide; [subst|]. }
  clearbody s0. clear s Hg Hl. unfold mbind at 1, M_bind, get. case_decide as Hf; [by apply checkReady_live|].
  case_decide as Hp.
  { split; [done|]. intros HL x Hx Hn Hx'. destruct (proj2 Hg0 HL x) as [?|[->|?]]; auto. done. }
  unfold mbind at 1 2, M_bind, modify. cbv beta. pose proof (inv_new e s0 Hi Hp) as Hnew. set (s1 := set_envelopes _ _ _ s0) in *.
  pose proof (startFetch_keeps sha256 env e s1 Hnew) as Hs. pose proof (startFetch_same e s1) as Ht.
  assert (forall s', sameEnvelopes s1 s' -> hTrace s' = hTrace s1 -> sameKnown s1 s' -> L -> live (fun x => x = e \/ left x) s') as Hlive.
  { intros s' [_ Ef] Et Ek HL x Hx Hn Hx'. apply (complete_known s1) in Hx'; [|done]. rewrite Ef in Hx. rewrite Et.
    unfold s1 in Hx. simpl in Hx. rewrite atSlot_insert in Hx.
    destruct (decide (x = e)) as [->|Hne]; [by right; left|]. apply (proj2 Hg0 HL x).
    - case_decide as Es; [|done]. rewrite Es. by apply elem_of_cons in Hx as [?|?].
    - intros i Hi'. apply Hn. by rewrite Et.
    - done. }
  destruct (startFetch sha256 env e s1) as [u s2|x s2].
  - destruct Hs as [Hi2 Hse], Ht as [Ht Hk].
    pose proof (checkReady_live L left e s2) as Hc.
    assert (e ∈ atSlot (slotOf e) (mFetchingEnvelopes s2)) as He2.
    { rewrite (proj2 Hse). unfold s1. simpl. rewrite atSlot_insert, decide_True by done. left. }
    assert (good L (fun x => x = e \/ left x) s2) as Hg2 by (split; eauto). specialize (Hc Hg2 He2).
    by destruct (checkReady _ _ _ e s2).
  - destruct Hs as (Hi2 & Hse & _), Ht as (Ht & Hk & Hr). apply (live_incomplete L left e); [split; eauto|].
    by intros (_ & ? & _).
Qed.

Lemma recvSCPEnvelope_live L left e s : good L (fun x => x = e \/ left x) s ->
  match recvSCPEnvelope contentsHash sha256 env e s with Ret _ s' | Exn _ s' => good L left s' end.
Proof.
  intros Hg. unfold recvSCPEnvelope. destruct (MANUAL_CLOSE env); [by apply refuse_live|]. case_decide; [by apply refuse_live|].
  unfold mbind at 1, M_bind, get. destruct (_ || _); [by apply refuse_live|]. unfold mbind, M_bind, modify. cbv beta.
  apply pe_recv_live. destruct Hg as [Hi Hl]. split; [by apply inv_record|]. intros HL.
  eapply live_mono; [| | |by eauto]; try done. intros x Hx. by right.
Qed.

(** ** Receiving an item *)

Definition room {A} (c : lru_cache N A) : Prop := (lru_size c < _max_size c)%nat.

Lemma lru_put_known {A} (c : lru_cache N A) h x : lru_ok c -> room c -> forall h',
  lru_exists h' (lru_put h x c) = true <-> h' = h \/ lru_exists h' c = true.
Proof.
  intros Hc Hr h'. unfold lru_exists. rewrite lru_put_find by done. case_decide; [naive_solver|].
  destruct (findItem h' _); naive_solver.
Qed.

(** Envelopes that have become complete wait for the item that has come. *)
Lemma live_gotQSet L h q s : good L nobody s -> room (mQsetCache s) ->
  let s1 := set_caches (lru_put h q (mQsetCache s)) (mTxSetCache s) (mNodesInQuorum s) s in
  Inv s1 /\ knowsQSet s1 h /\ (L -> live (waitsIn (mQuorumSetFetcher s) h) s1).
Proof.
  intros [Hi Hl] Hroom. cbv zeta. set (s1 := set_caches _ _ _ s). pose proof (hi_lru _ _ Hi) as [Oq Ot].
  pose proof (lru_put_known (mQsetCache s) h q Oq Hroom) as Hput. split; [|split].
  - apply inv_learn; try done; [by apply lru_put_ok|]. intros. apply Hput. by right.
  - apply Hput. by left.
  - intros HL e He Hn (Hq & Hr & Ht). destruct (lru_exists (qsetOf e) (mQsetCache s)) eqn:Ek.
    + left. destruct (Hl HL e) as [|[]]; done.
    + right. apply Hput in Hq as [Eh|]; [|congruence]. rewrite <- Eh. apply (hi_waitq _ _ Hi); try done; [by intros []|].
      unfold knowsQSet. by rewrite Ek.
Qed.

Lemma needsTxSet_dec e h : needsTxSet e h <-> h ∈ omap (fun v => txSetHash <$> decodeValue v) (valuesOf e).
Proof.
  rewrite list_elem_of_omap. unfold needsTxSet. split.
  - intros (v & b & Hv & Hb & <-). exists v. by rewrite Hb.
  - intros (v & Hv & Hb). destruct (decodeValue v) as [b|] eqn:E; [|done]. injection Hb as <-. by exists v, b.
Qed.

Lemma live_gotTxSet L h x s : good L nobody s -> room (mTxSetCache s) ->
  let s1 := set_caches (mQsetCache s) (lru_put h x (mTxSetCache s)) (mNodesInQuorum s) s in
  Inv s1 /\ knowsTxSet s1 h /\ (L -> live (waitsIn (mTxSetFetcher s) h) s1).
Proof.
  intros [Hi Hl] Hroom. cbv zeta. set (s1 := set_caches _ _ _ s). pose proof (hi_lru _ _ Hi) as [Oq Ot].
  pose proof (lru_put_known (mTxSetCache s) h x Ot Hroom) as Hput. split; [|split].
  - apply inv_learn; try done; [by apply lru_put_ok|]. intros. apply Hput. by right.
  - apply Hput. by left.
  - intros HL e He Hn (Hq & Hr & Ht).
    destruct (decide (h ∈ omap (fun v => txSetHash <$> decodeValue v) (valuesOf e))) as [Hh|Hh]; rewrite <- needsTxSet_dec in Hh.
    + destruct (lru_exists h (mTxSetCache s)) eqn:Ek.
      * left. destruct (Hl HL e) as [|[]]; try done. split; [done|]. split; [done|]. intros h' Hh'.
        destruct (proj1 (Hput h') (Ht h' Hh')) as [->|]; done.
      * right. apply (hi_waitt _ _ Hi); try done; [by intros []|]. unfold knowsTxSet. by rewrite Ek.
    + left. destruct (Hl HL e) as [|[]]; try done. split; [done|]. split; [done|]. intros h' Hh'.
      destruct (proj1 (Hput h') (Ht h' Hh')) as [->|]; done.
Qed.

Lemma live_left (L : Prop) (left left' : SCPEnvelope -> Prop) s : (forall e, left e -> left' e) ->
  Inv s -> (L -> live left s) -> good L left' s.
Proof. intros Hw Hi Hl. split; [done|]. intros HL e He Hn Hc. destruct (Hl HL e He Hn Hc); auto. Qed.

Lemma live_fetchers L left tx qs s : good L left s -> Inv (set_fetchers tx qs s) -> good L left (set_fetchers tx qs s).
Proof. intros [_ Hl] Hi. split; [done|]. intros HL. by apply Hl. Qed.

Lemma reverse_waiting f h t e : f !! h = Some t -> waitsIn f h e -> e ∈ (reverse (mWaitingEnvelopes t)).*2.
Proof. intros Ht (t' & Ht' & He). simplify_eq. by rewrite fmap_reverse, elem_of_reverse. Qed.

Lemma recv_step L e w s : good L (fun x => x ∈ e :: w) s ->
  match recvSCPEnvelope contentsHash sha256 env e s with Ret _ s' => good L (fun x => x ∈ w) s' | Exn _ s' => Inv s' end.
Proof.
  intros [Hi Hl]. pose proof (recvSCPEnvelope_live L (fun x => x ∈ w) e s) as Hr.
  assert (good L (fun x => x = e \/ x ∈ w) s) as Hg by (eapply live_left; [|done..]; intros x; apply elem_of_cons).
  specialize (Hr Hg). destruct (recvSCPEnvelope _ _ _ _ _); [done|apply Hr].
Qed.

Lemma recvSCPQuorumSet_goes L h q s : good L nobody s -> room (mQsetCache s) ->
  match recvSCPQuorumSet contentsHash sha256 env h q s with
  | Ret _ s' => good L nobody s' /\ knowsQSet s' h /\ forall t, mQuorumSetFetcher s' !! h = Some t -> mWaitingEnvelopes t = []
  | Exn x s' => Inv s' /\ x <> OutOfFuel
  end.
Proof.
  intros Hg Hroom. destruct (live_gotQSet L h q s Hg Hroom) as (Hi1 & Hk1 & Hl1).
  unfold recvSCPQuorumSet, mbind, M_bind, modify. set (s1 := set_caches _ _ _ s) in *.
  assert (match fetcher_recv contentsHash sha256 env mQuorumSetFetcher setQSetFetcher h s1 with
    | Ret _ s' => good L (fun x => x ∈ []) s' /\ knowsQSet s' h /\ forall t, mQuorumSetFetcher s' !! h = Some t -> mWaitingEnvelopes t = []
    | Exn x s' => Inv s' /\ x <> OutOfFuel end) as Hf.
  { apply (fetcher_recv_ends contentsHash sha256 env Hlm mQuorumSetFetcher setQSetFetcher (fun s => knowsQSet s h) h
      (fun w s => good L (fun x => x ∈ w) s) Inv); try done.
    - intros s2 s3 [St _] Hk. by apply St.
    - intros w s2 [Hi _]. by apply (hi_lru nobody).
    - intros e w w' s2 t Hg2 Hk Ht. apply recv_step, live_fetchers; [done|]. by apply inv_gotQSet; [apply Hg2|..].
    - intros s2 t Hg2 Hk Ht. apply live_fetchers; [done|]. apply inv_gotQSet; [apply Hg2|done..].
    - intros t Ht. eapply live_left; [|done..]. intros e. by apply reverse_waiting.
    - intros Hn. eapply live_left; [|done..]. intros e (t & Ht & _). change (mQuorumSetFetcher s !! h = None) in Hn. by rewrite Hn in Ht. }
  destruct (fetcher_recv _ _ _ _ _ _ s1); [|done]. destruct Hf as ([Hi' Hl'] & ?). split; [|done].
  eapply live_left; [|done..]. by intros e ?%elem_of_nil.
Qed.

Lemma recvTxSet_goes L h q s : good L nobody s -> room (mTxSetCache s) ->
  match recvTxSet contentsHash sha256 env h q s with
  | Ret _ s' => good L nobody s' /\ knowsTxSet s' h /\ forall t, mTxSetFetcher s' !! h = Some t -> mWaitingEnvelopes t = []
  | Exn x s' => Inv s' /\ x <> OutOfFuel
  end.
Proof.
  intros Hg Hroom. destruct (live_gotTxSet L h q s Hg Hroom) as (Hi1 & Hk1 & Hl1).
  unfold recvTxSet, mbind, M_bind, modify. set (s1 := set_caches _ _ _ s) in *.
  assert (match fetcher_recv contentsHash sha256 env mTxSetFetcher setTxSetFetcher h s1 with
    | Ret _ s' => good L (fun x => x ∈ []) s' /\ knowsTxSet s' h /\ forall t, mTxSetFetcher s' !! h = Some t -> mWaitingEnvelopes t = []
    | Exn x s' => Inv s' /\ x <> OutOfFuel end) as Hf.
  { apply (fetcher_recv_ends contentsHash sha256 env Hlm mTxSetFetcher setTxSetFetcher (fun s => knowsTxSet s h) h
      (fun w s => good L (fun x => x ∈ w) s) Inv); try done.
    - intros s2 s3 [_ St] Hk. by apply St.
    - intros w s2 [Hi _]. by apply (hi_lru nobody).
    - intros e w w' s2 t Hg2 Hk Ht. apply recv_step, live_fetchers; [done|]. by apply inv_gotTxSet; [apply Hg2|..].
    - intros s2 t Hg2 Hk Ht. apply live_fetchers; [done|]. apply inv_gotTxSet; [apply Hg2|done..].
    - intros t Ht. eapply live_left; [|done..]. intros e. by apply reverse_waiting.
    - intros Hn. eapply live_left; [|done..]. intros e (t & Ht & _). change (mTxSetFetcher s !! h = None) in Hn. by rewrite Hn in Ht. }
  destruct (fetcher_recv _ _ _ _ _ _ s1); [|done]. destruct Hf as ([Hi' Hl'] & ?). split; [|done].
  eapply live_left; [|done..]. by intros e ?%elem_of_nil.
Qed.

End live.
