(* ===== verification/HerderTheorems.v ===== *)
(** * What the herder promises

    Runs of the herder: any calls, in any order, with any answers of SCP, of the ledger
    manager and of the overlay, from a new herder. *)

From Stdlib Require Import ZArith Lia String.
From stdpp Require Import sorting.
From stdpp Require Import base tactics gmap option list.
From S2P Require Import Prelude ScpTypes Balance LocalNode SlotState Ballot Nomination Slot.
From S2P Require Import LruCache Floodgate ItemFetcher TxSet HerderValues TxQueue.
From S2P Require Import Herder HerderTermination HerderInv.

Open Scope Z_scope.

(** The calls from outside; [CallScpTimer] is a timer of SCP, with what SCP calls back. *)
Inductive HerderCall :=
| CallEnvelope (e : SCPEnvelope)
| CallQSet (h : Hash) (q : SCPQuorumSet)
| CallTxSet (h : Hash) (x : TxSetFrame)
| CallDontHave (isTxSet : bool) (h : Hash) (p : Peer)
| CallTrackerTimer (isTxSet : bool) (h : Hash)
| CallPosted
| CallFlooded (msg : StellarMessage) (p : Peer)
| CallTransaction (tx : Transaction)
| CallOutOfSync
| CallBootstrap
| CallRebroadcast
| CallTrigger (ledgerSeqToTrigger : Z)
| CallScpTimer (cbs : list Callback).

Section runs.
Context `{ValueExterns} `{StdSort} (contentsHash : Hash -> list Transaction -> Hash).
Context (sha256 : StellarMessage -> Hash).

Definition runCall (env : HerderEnv) (c : HerderCall) : M Herder () :=
  match c with
  | CallEnvelope e => recvSCPEnvelope contentsHash sha256 env e
  | CallQSet h q => recvSCPQuorumSet contentsHash sha256 env h q
  | CallTxSet h x => recvTxSet contentsHash sha256 env h x
  | CallDontHave b h p => peerDoesntHave env b h p
  | CallTrackerTimer b h => trackerTimer env b h
  | CallPosted => runPosted
  | CallFlooded m p => recvFloodedMsg sha256 m p
  | CallTransaction tx => _ ← herder_recvTransaction env tx; mret ()
  | CallOutOfSync => herderOutOfSync contentsHash sha256 env
  | CallBootstrap => bootstrap contentsHash sha256 env
  | CallRebroadcast => rebroadcast sha256 env
  | CallTrigger n => triggerNextLedger contentsHash sha256 env n
  | CallScpTimer cbs => forEach (runCallback contentsHash sha256 env (processSCPQueueUpToIndex contentsHash sha256 env)) cbs
  end.

(** The ledger manager does not throw what stands for the end of the fuel of the model. *)
Definition plainEnv (env : HerderEnv) : Prop := forall d s e, lmExternalize env d s = inl e -> e <> OutOfFuel.

Definition hasRoom (s : Herder) : Prop := room (mQsetCache s) /\ room (mTxSetCache s).

(** The states of runs; the first argument tells whether all calls have returned. *)
Inductive reach : bool -> Herder -> Prop :=
| reach_new h q n t : reach true (newHerder h q n t)
| reach_ret b s env c u s' : reach b s -> plainEnv env -> hasRoom s -> runCall env c s = Ret u s' -> reach b s'
| reach_exn b s env c x s' : reach b s -> plainEnv env -> hasRoom s -> runCall env c s = Exn x s' -> reach false s'.

(** ** Every call keeps the invariant *)

Lemma runs_rest L s r : good L nobody s -> good L nobody (set_rest r s).
Proof. apply (pr_rest _ (live_processing L nobody)). Qed.

Definition goes (L : Prop) (m : M Herder ()) : Prop := forall s, good L nobody s ->
  match m s with Ret _ s' => good L nobody s' | Exn x s' => Inv s' /\ x <> OutOfFuel end.

Lemma goes_bind L (m k : M Herder ()) : goes L m -> goes L k -> goes L (m;; k).
Proof.
  intros Hm Hk s Hs. unfold mbind, M_bind. specialize (Hm s Hs). destruct (m s) as [u s1|]; [|done]. by apply Hk.
Qed.

Lemma goes_modify L f : (forall s, good L nobody s -> good L nobody (f s)) -> goes L (modify f).
Proof. intros Hf s Hs. by apply Hf. Qed.

(** A tracker that is called by its timer or by a peer. *)
Lemma called_spec known (f : Fetcher) o h t : f !! h = Some t -> armed known f ->
  let f' := <[h := (tryNextPeer o t).2]> f in (forall h' e, waitsIn f h' e -> waitsIn f' h' e) /\ armed known f'.
Proof.
  intros Ht Ha. destruct (tryNextPeer_same o t) as [Htm Hw]. cbv zeta. split.
  - intros h' e He. eapply waitsIn_insert; [done..|]. intros Hin _. by rewrite Hw.
  - by apply armed_insert.
Qed.

Lemma doesntHave_spec known o h p (f : Fetcher) : armed known f ->
  (forall h' e, waitsIn f h' e -> waitsIn (doesntHave o h p f).2 h' e) /\ armed known (doesntHave o h p f).2.
Proof.
  intros Ha. unfold doesntHave, trackerDoesntHave. destruct (f !! h) as [t|] eqn:E; [|done].
  case_decide; [|by rewrite insert_id].
  pose proof (called_spec known f o h t E Ha) as Hc. by destruct (tryNextPeer o t).
Qed.

Lemma timerExpired_spec known o h (f : Fetcher) : armed known f ->
  (forall h' e, waitsIn f h' e -> waitsIn (timerExpired o h f).2 h' e) /\ armed known (timerExpired o h f).2.
Proof.
  intros Ha. unfold timerExpired. destruct (f !! h) as [t|] eqn:E; [|done]. destruct (mTimer t); [|done].
  pose proof (called_spec known f o h t E Ha) as Hc. by destruct (tryNextPeer o t).
Qed.

Lemma goes_tx L s f : good L nobody s -> (forall h e, waitsIn (mTxSetFetcher s) h e -> waitsIn f h e) ->
  armed (knowsTxSet s) f -> good L nobody (setTxSetFetcher f s).
Proof. intros Hg Hw Ha. apply live_fetchers; [done|]. destruct Hg. apply inv_fetchers; auto. by apply (hi_armedq nobody). Qed.

Lemma goes_qs L s f : good L nobody s -> (forall h e, waitsIn (mQuorumSetFetcher s) h e -> waitsIn f h e) ->
  armed (knowsQSet s) f -> good L nobody (setQSetFetcher f s).
Proof. intros Hg Hw Ha. apply live_fetchers; [done|]. destruct Hg. apply inv_fetchers; auto. by apply (hi_armedt nobody). Qed.

Lemma goes_peerDoesntHave L env b h p : goes L (peerDoesntHave env b h p).
Proof.
  apply goes_modify. intros s Hg. destruct b.
  - destruct (doesntHave_spec (knowsTxSet s) (overlayOf env s) h p (mTxSetFetcher s)) as [H1 H2]; [apply Hg|]. by apply goes_tx.
  - destruct (doesntHave_spec (knowsQSet s) (overlayOf env s) h p (mQuorumSetFetcher s)) as [H1 H2]; [apply Hg|]. by apply goes_qs.
Qed.

Lemma goes_trackerTimer L env b h : goes L (trackerTimer env b h).
Proof.
  apply goes_modify. intros s Hg. destruct b.
  - destruct (timerExpired_spec (knowsTxSet s) (overlayOf env s) h (mTxSetFetcher s)) as [H1 H2]; [apply Hg|]. by apply goes_tx.
  - destruct (timerExpired_spec (knowsQSet s) (overlayOf env s) h (mQuorumSetFetcher s)) as [H1 H2]; [apply Hg|]. by apply goes_qs.
Qed.

(** The trackers forget what is below a slot, and so does the invariant. *)
Lemma stop_spec known i (f : Fetcher) : (armed known f -> armed known (stopFetchingBelowInternal i f)) /\
  forall h e, waitsIn f h e -> i <= slotOf e -> waitsIn (stopFetchingBelowInternal i f) h e.
Proof.
  unfold stopFetchingBelowInternal. split.
  - intros Ha h t Ht. rewrite lookup_omap in Ht. destruct (f !! h) as [t0|] eqn:E; [|done]. simpl in Ht.
    unfold clearEnvelopesBelow in Ht. destruct (filter _ _); [done|]. injection Ht as <-. simpl. by apply (Ha h).
  - intros h e (t & Ht & He) Hi.
    set (w := filter (fun x => i <= st_slotIndex (statement x.2)) (mWaitingEnvelopes t)).
    assert (e ∈ w.*2) as Hw.
    { apply list_elem_of_fmap in He as ([k x] & -> & Hin). apply list_elem_of_fmap. exists (k, x). split; [done|].
      by apply list_elem_of_filter. }
    exists (set_mWaitingEnvelopes w t). rewrite lookup_omap, Ht. simpl. unfold clearEnvelopesBelow. fold w.
    split; [|done]. destruct w; [by apply elem_of_nil in Hw|done].
Qed.

Lemma goes_stop L i s tx qs : good L nobody s -> tx = mTxSetFetcher s \/ tx = stopFetchingBelowInternal i (mTxSetFetcher s) ->
  qs = mQuorumSetFetcher s \/ qs = stopFetchingBelowInternal i (mQuorumSetFetcher s) ->
  good L nobody (record (EvStopped i) (set_fetchers tx qs s)).
Proof.
  intros [[] Hl] Ht Hq.
  assert (forall x, x <> EvStopped i -> countEv x (EvStopped i :: hTrace s) = countEv x (hTrace s)) as Hcount.
  { intros x Hx. rewrite countEv_cons. by rewrite decide_False. }
  assert (forall e, notStopped (record (EvStopped i) (set_fetchers tx qs s)) e -> notStopped s e /\ i <= slotOf e) as Hn.
  { intros e Hn. split; [intros j Hj|]; apply Hn; [by right|by left]. }
  split; [split|]; cbn [record set_fetchers hTrace mProcessedEnvelopes mFetchingEnvelopes mPendingEnvelopes mTxSetFetcher
    mQuorumSetFetcher]; try done.
  - intros e He. rewrite Hcount by done. apply hi_once. intros He'. apply He. by right.
  - intros e [?|He]%elem_of_cons; [done|]. by apply hi_complete.
  - intros e He Hs Hr [Hn1 Hn2]%Hn Hk. destruct Hq as [->| ->]; [|apply (stop_spec (fun _ => False)); [|done]]; by apply hi_waitq.
  - intros e h He Hs Hr [Hn1 Hn2]%Hn Hh Hk. destruct Ht as [->| ->]; [|apply (stop_spec (fun _ => False)); [|done]]; by apply hi_waitt.
  - destruct Hq as [->| ->]; [done|by apply stop_spec].
  - destruct Ht as [->| ->]; [done|by apply stop_spec].
  - intros HL. eapply live_mono; [| | |by eauto]; try done. intros x Hx. by right.
Qed.

Lemma goes_runPosted L : goes L runPosted.
Proof.
  intros s Hg. unfold runPosted, mbind at 1, M_bind, gets. destruct (mPosted s) as [|c ps]; [done|].
  unfold mbind, M_bind, onRest, modify. pose proof (runs_rest L s (set_posted ps (restOf s)) Hg) as Hg1.
  destruct c; apply goes_stop; auto.
Qed.

Lemma goes_sound L (m : M Herder ()) : okay (sound (fun s => Inv s /\ (L -> live nobody s))) calm m -> goes L m.
Proof.
  intros Hm s Hg. specialize (Hm s (conj Hg (hi_lru _ _ (proj1 Hg)))). unfold sound in Hm.
  destruct (m s); naive_solver.
Qed.

Lemma okay_goes L (m : M Herder ()) : okay (good L nobody) always m -> goes L m.
Proof. intros Hm s Hg. specialize (Hm s Hg). destruct (m s); [naive_solver|]. by destruct Hm as ([] & _ & ?). Qed.

Lemma goes_rebroadcast L env : goes L (rebroadcast sha256 env).
Proof.
  assert (PreOrder always) by (by split).
  apply okay_goes. unfold rebroadcast, startRebroadcastTimer. apply okay_bind; [done|by apply okay_gets|]. intros n.
  assert (forall s r, good L nobody s -> good L nobody (set_rest r s) /\ always s (set_rest r s)) as Hr
    by (intros s r Hg; split; [by apply runs_rest|done]).
  apply okay_bind; [done| |intros _; by apply okay_onRest]. apply okay_forEach; [done|]. intros e _. unfold herder_broadcast.
  apply okay_if; intros _; [by apply okay_ret|by apply okay_broadcastMessage].
Qed.

Lemma goes_query L env : goes L (scpQuery env).
Proof.
  assert (PreOrder always) by (by split).
  apply okay_goes, okay_scpQuery; [done|]. intros s q t k Hg Eq Et. split; [|done]. by apply (pr_touch _ (live_processing L nobody)).
Qed.

Lemma goes_queue L env : plainEnv env -> goes L (processSCPQueue contentsHash sha256 env).
Proof. intros Hlm. apply goes_sound, processSCPQueue_sound; [done|apply live_processing]. Qed.

Lemma goes_onRest L f : goes L (onRest f).
Proof. apply goes_modify. intros s. apply runs_rest. Qed.

Lemma goes_callbacks L env cbs : plainEnv env ->
  goes L (forEach (runCallback contentsHash sha256 env (processSCPQueueUpToIndex contentsHash sha256 env)) cbs).
Proof. intros Hlm. apply goes_sound, closing_sound; [done|apply live_processing]. Qed.

Lemma goes_bootstrap L env : plainEnv env -> goes L (bootstrap contentsHash sha256 env).
Proof.
  intros Hlm. unfold bootstrap. destruct (_ || _); [intros s [Hi _]; by split|]. apply goes_bind; [apply goes_onRest|].
  apply goes_sound, closing_sound; [done|apply live_processing].
Qed.

Lemma goes_trigger L env n s : plainEnv env -> room (mTxSetCache s) -> good L nobody s ->
  match triggerNextLedger contentsHash sha256 env n s with Ret _ s' => good L nobody s' | Exn x s' => Inv s' /\ x <> OutOfFuel end.
Proof.
  intros Hlm Hroom Hg. unfold triggerNextLedger, mbind at 1, M_bind, get. destruct (mTrackingSCP s); [|done].
  destruct (negb _); [done|]. cbv zeta. destruct (trimInvalid _ _) as [removed ps]. unfold mbind at 1, M_bind, onRest at 1, modify.
  set (s1 := set_rest _ s). assert (good L nobody s1) as Hg1 by (by apply runs_rest).
  destruct (negb _); [by split; [apply Hg1|]|]. destruct (getContentsHash contentsHash _) as [hash ps'].
  pose proof (recvTxSet_goes contentsHash sha256 env Hlm L hash ps' s1 Hg1 Hroom) as Hr. unfold mbind at 1, M_bind.
  destruct (recvTxSet _ _ _ _ _ s1) as [u s2|]; [|done]. destruct Hr as [Hg2 _].
  match goal with |- match ?m s2 with _ => _ end => enough (goes L m) as Hm by (exact (Hm s2 Hg2)) end.
  intros s3 Hg3. unfold mbind at 1, M_bind, gets. destruct (negb _); [done|].
  match goal with |- match ?m s3 with _ => _ end => enough (goes L m) as Hm by (exact (Hm s3 Hg3)) end.
  apply goes_bind; [apply goes_onRest|]. apply goes_bind.
  - apply goes_modify. intros s4 [Hi Hl]. split; [by apply inv_record|]. intros HL. eapply live_mono; [| | |by eauto]; try done.
    intros x Hx. by right.
  - intros s4 Hg4. unfold mbind, M_bind, gets. by apply goes_callbacks.
Qed.

Lemma runCall_goes L env c s : plainEnv env -> hasRoom s -> good L nobody s ->
  match runCall env c s with Ret _ s' => good L nobody s' | Exn x s' => Inv s' /\ x <> OutOfFuel end.
Proof.
  intros Hlm [Rq Rt] Hg. destruct c as [e|h q|h x|b h p|b h| |m p|tx| | | |n|cbs]; cbn [runCall].
  - pose proof (recvSCPEnvelope_live contentsHash sha256 env Hlm L nobody e s) as Hl.
    pose proof (recvSCPEnvelope_keeps sha256 env contentsHash Hlm e s (proj1 Hg)) as Hk.
    assert (good L (fun x => x = e \/ nobody x) s) as Hg' by (destruct Hg; eapply live_left; [|done..]; by right).
    specialize (Hl Hg'). destruct (recvSCPEnvelope _ _ _ _ s); [done|]. split; apply Hk.
  - pose proof (recvSCPQuorumSet_goes contentsHash sha256 env Hlm L h q s Hg Rq). destruct (recvSCPQuorumSet _ _ _ _ _ s); naive_solver.
  - pose proof (recvTxSet_goes contentsHash sha256 env Hlm L h x s Hg Rt). destruct (recvTxSet _ _ _ _ _ s); naive_solver.
  - by apply goes_peerDoesntHave.
  - by apply goes_trackerTimer.
  - by apply goes_runPosted.
  - by apply runs_rest.
  - unfold mbind, M_bind, herder_recvTransaction. destruct (recvTransaction _ _ _). by apply runs_rest.
  - apply goes_bind; [apply goes_query|apply goes_bind; [apply goes_onRest|by apply goes_queue]|done].
  - by apply goes_bootstrap.
  - by apply goes_rebroadcast.
  - by apply goes_trigger.
  - by apply goes_callbacks.
Qed.

(** ** What holds in every run *)

Lemma inv_newHerder h q n t : good True nobody (newHerder h q n t).
Proof.
  assert (forall i e, e ∉ atSlot i (∅ : gmap Z (list SCPEnvelope))) as Hno by (intros i e ?%elem_of_nil; done).
  split; [split; try done|].
  - split; [|by split; [constructor|unfold lru_size; simpl; lia]].
    apply lru_put_ok. split; [constructor|unfold lru_size; simpl; lia].
  - intros i e He. by destruct (Hno i e).
  - intros i. constructor.
  - intros i e He. by destruct (Hno i e).
  - intros e He. by apply elem_of_nil in He.
  - intros e He. by destruct (Hno (slotOf e) e).
  - intros e h' He. by destruct (Hno (slotOf e) e).
  - intros _ e He. by destruct (Hno (slotOf e) e).
Qed.

Lemma reach_good b s : reach b s -> good (b = true) nobody s.
Proof.
  induction 1 as [h q n t|b s env c u s' _ IH He Hr E|b s env c x s' _ IH He Hr E].
  - destruct (inv_newHerder h q n t) as [Hi Hl]. split; [done|]. intros _. by apply Hl.
  - pose proof (runCall_goes (b = true) env c s He Hr IH) as Hc. by rewrite E in Hc.
  - pose proof (runCall_goes (b = true) env c s He Hr IH) as Hc. rewrite E in Hc. destruct Hc. by split.
Qed.

(** C9. SCP is only given an envelope when everything the envelope refers to is there, and,
    while its slot is remembered, at most once: in every run of the herder, whatever SCP, the
    ledger manager and the overlay answer and whether calls return or throw, an envelope that
    was handed to SCP has its quorum set and the transaction sets of all its values, which can be
    read, in the caches, and it was handed over once unless its slot has been erased. *)
Theorem scp_gets_complete_envelopes_once b s e : reach b s -> EvToSCP e ∈ hTrace s ->
  fullyFetched s e /\ (EvErased (slotOf e) ∉ hTrace s -> countEv (EvToSCP e) (hTrace s) = 1%nat).
Proof.
  intros Hr He. destruct (reach_good b s Hr) as [Hi _]. pose proof (hi_flow _ _ Hi e) as Hflow. apply countEv_pos in He. split.
  - apply (hi_complete _ _ Hi), countEv_pos. lia.
  - intros Hn. rewrite (hi_once _ _ Hi e Hn) in Hflow. pose proof (countIn_nodup e _ (hi_processed _ _ Hi (slotOf e))). lia.
Qed.

(** C12. No envelope is forgotten: in every run in which no call has thrown, an envelope that
    is being fetched and was not refused, whose values can be read and whose slot the trackers
    have not been told to forget, misses a quorum set or a transaction set; and for everything it
    misses it waits in a tracker whose timer is set. *)
Theorem fetching_envelopes_wait s e : reach true s -> e ∈ atSlot (slotOf e) (mFetchingEnvelopes s) ->
  readable e -> notStopped s e ->
  (EvRefused e ∉ hTrace s -> ~ fullyFetched s e) /\
  (~ knowsQSet s (qsetOf e) -> exists t, mQuorumSetFetcher s !! qsetOf e = Some t /\
     e ∈ (mWaitingEnvelopes t).*2 /\ mTimer t <> None) /\
  (forall h, needsTxSet e h -> ~ knowsTxSet s h -> exists t, mTxSetFetcher s !! h = Some t /\
     e ∈ (mWaitingEnvelopes t).*2 /\ mTimer t <> None).
Proof.
  intros Hr He Hre Hn. destruct (reach_good true s Hr) as [Hi Hl]. split; [|split].
  - intros Href Hc. by destruct (Hl eq_refl e He Hn Hc) as [?|[]].
  - intros Hk. destruct (hi_waitq _ _ Hi e) as (t & Ht & Hw); [done|by intros []|done..|]. exists t. split; [done|]. split; [done|].
    by apply (hi_armedq _ _ Hi (qsetOf e)).
  - intros h Hh Hk. destruct (hi_waitt _ _ Hi e h) as (t & Ht & Hw); [done|by intros []|done..|]. exists t. split; [done|].
    split; [done|]. by apply (hi_armedt _ _ Hi h).
Qed.

(** C19. Every call of the herder ends, however SCP answers: closing ledgers from within SCP
    and receiving the envelopes that wait for an item, which may close ledgers and ask for
    other items, do not go on for ever; and when the call with an item returns the item is
    there and no envelope waits for it. *)
Theorem herder_calls_end b s env c : reach b s -> plainEnv env -> hasRoom s ->
  match runCall env c s with
  | Ret _ s' =>
      match c with
      | CallQSet h _ => knowsQSet s' h /\ forall e, ~ waitsIn (mQuorumSetFetcher s') h e
      | CallTxSet h _ => knowsTxSet s' h /\ forall e, ~ waitsIn (mTxSetFetcher s') h e
      | _ => True
      end
  | Exn x _ => x <> OutOfFuel
  end.
Proof.
  intros Hr He Hroom. pose proof (reach_good b s Hr) as Hg. pose proof (runCall_goes (b = true) env c s He Hroom Hg) as Hc.
  assert (forall (f : Fetcher) h, (forall t, f !! h = Some t -> mWaitingEnvelopes t = []) -> forall e, ~ waitsIn f h e) as Hw.
  { intros f h Hf e (t & Ht & Hin). rewrite (Hf t Ht) in Hin. by apply elem_of_nil in Hin. }
  destruct c as [e|h q|h x|b' h p|b' h| |m p|tx| | | |n|cbs]; try (destruct (runCall env _ s); naive_solver).
  - pose proof (recvSCPQuorumSet_goes contentsHash sha256 env He _ h q s Hg (proj1 Hroom)) as Hrc. cbn [runCall] in *.
    destruct (recvSCPQuorumSet _ _ _ _ _ s); [|apply Hc]. destruct Hrc as (_ & ? & Hf). split; [done|]. by apply Hw.
  - pose proof (recvTxSet_goes contentsHash sha256 env He _ h x s Hg (proj2 Hroom)) as Hrc. cbn [runCall] in *.
    destruct (recvTxSet _ _ _ _ _ s); [|apply Hc]. destruct Hrc as (_ & ? & Hf). split; [done|]. by apply Hw.
Qed.

End runs.
