(* ===== verification/HerderScenarios.v ===== *)
(** * The herder at work

    The theorems on the herder and the overlay at concrete inputs, with concrete forms of the
    XDR functions and a merge sort for [std::sort]; and runs that show where the code does not
    do what it says. *)

From Stdlib Require Import ZArith Lia String.
From stdpp Require Import sorting.
From stdpp Require Import base tactics gmap option list countable.
From S2P Require Import Prelude ScpTypes Balance LocalNode SlotState Ballot Nomination Slot.
From S2P Require Import LruCache Floodgate ItemFetcher TxSet HerderValues TxQueue.
From S2P Require Import Herder HerderTermination HerderInv HerderTheorems.

Open Scope Z_scope.

(** ** Forms of values and steps *)

Definition codeOf {A} `{Countable A} (a : A) : list N := [Npos (encode a)].

Definition ofCode {A} `{Countable A} (l : list N) : option A :=
  match l with [Npos p] => decode p | _ => None end.

Lemma ofCode_codeOf {A} `{Countable A} (a : A) : ofCode (codeOf a) = Some a.
Proof. apply decode_encode. Qed.

Definition upgradeTuple (u : LedgerUpgrade) : Z + Z + (list Z + Z) :=
  match u with
  | VERSION z => inl (inl z)
  | MAX_TX_SET_SIZE z => inl (inr z)
  | EXTERNAL_SYSTEM_ID_GENERATOR l => inr (inl l)
  | TX_EXPIRATION_PERIOD z => inr (inr z)
  end.

Definition upgradeOfTuple (t : Z + Z + (list Z + Z)) : LedgerUpgrade :=
  match t with
  | inl (inl z) => VERSION z
  | inl (inr z) => MAX_TX_SET_SIZE z
  | inr (inl l) => EXTERNAL_SYSTEM_ID_GENERATOR l
  | inr (inr z) => TX_EXPIRATION_PERIOD z
  end.

Definition valueOfTuple (p : N * Z * list (list N)) : StellarValue := mkStellarValue p.1.1 p.1.2 p.2.

Definition codedUpgrade (u : LedgerUpgrade) : list N := codeOf (upgradeTuple u).

#[local] Program Instance coded : ValueExterns := {|
  upgradeInt t := match t with UVersion => 1 | UMaxTxSetSize => 3 | UExternalSystemIDGenerator => 4 | UTxExpirationPeriod => 5 end;
  decodeValue v := valueOfTuple <$> ofCode v;
  encodeValue b := codeOf (txSetHash b, closeTime b, upgrades b);
  decodeUpgrade v := upgradeOfTuple <$> ofCode v;
  encodeUpgrade := codedUpgrade;
  upgradeMaxSize := 128;
  valueSha256 v := match v with x :: _ => x | [] => 0%N end |}.
Next Obligation. intros [] []; simpl; intros ?; (reflexivity || lia). Qed.
Next Obligation. intros [h t us]. cbn [txSetHash closeTime upgrades]. by rewrite ofCode_codeOf. Qed.
Next Obligation. intros u. unfold codedUpgrade. rewrite ofCode_codeOf. by destruct u. Qed.

(** The hash of a set is made of the hashes of its transactions. *)
Definition hashContents (p : Hash) (l : list Transaction) : Hash :=
  foldl (fun h x => (1000 * h + x)%N) p (map getFullHash l).

(** ** Values *)

Definition someTx : Transaction := mkTransaction 1%N 21%N 7%N 1 100.
Definition otherTx : Transaction := mkTransaction 2%N 22%N 8%N 2 50.
Definition someSet : TxSetFrame := mkTxSetFrame [someTx] 11%N 0%N false.
Definition otherSet : TxSetFrame := mkTxSetFrame [someTx; otherTx] 11%N 0%N false.

Definition someView : HerderView :=
  mkHerderView true 4 11%N 100 10 None 1000
    (fun h => if (h =? 11021)%N then Some someSet else if (h =? 11021022)%N then Some otherSet else None)
    2 50 600 [1; 2] (fun _ => true).

Definition oneValue : Value := encodeValue (mkStellarValue 11021%N 200 [codedUpgrade (VERSION 2); codedUpgrade (VERSION 9); codedUpgrade (TX_EXPIRATION_PERIOD 600)]).
Definition twoValue : Value := encodeValue (mkStellarValue 11021022%N 150 [codedUpgrade (VERSION 2)]).
Definition threeValue : Value := encodeValue (mkStellarValue 11021%N 250 [codedUpgrade (TX_EXPIRATION_PERIOD 600)]).

Lemma extract_valid_iff_ordered_witness :
  herder_validateValue someView 5 (herder_extractValidValue someView 5 oneValue) = kFullyValidatedValue.
Proof.
  set (b := mkStellarValue 11021%N 200 [codedUpgrade (VERSION 2); codedUpgrade (VERSION 9); codedUpgrade (TX_EXPIRATION_PERIOD 600)]).
  assert (decodeValue oneValue = Some b) as E by (vm_compute; reflexivity).
  destruct (extract_valid_iff_ordered someView 5 oneValue b E) as [_ Hiff].
  apply Hiff; [vm_compute; reflexivity|].
  replace (stepTypes someView (upgrades b)) with [UVersion; UTxExpirationPeriod] by (vm_compute; reflexivity).
  repeat constructor.
Defined.

Lemma combine_is_valid_witness : exists value,
  herder_combineCandidates hashContents someView {[twoValue; threeValue]} = inr (value, None) /\
  herder_validateValue someView 5 value = kFullyValidatedValue.
Proof.
  apply (combine_is_valid hashContents someView 5 {[twoValue; threeValue]}).
  - intros h s. simpl. destruct (N.eqb_spec h 11021); [intros [= <-]; subst; vm_compute; reflexivity|].
    destruct (N.eqb_spec h 11021022); [intros [= <-]; subst; vm_compute; reflexivity|discriminate].
  - intros p l l' E. unfold hashContents. by rewrite E.
  - vm_compute. discriminate.
  - intros E. assert (twoValue ∈ (∅ : gset Value)) as Hin by (rewrite <- E; set_solver). by apply elem_of_empty in Hin.
  - vm_compute. reflexivity.
  - intros c [->%elem_of_singleton| ->%elem_of_singleton]%elem_of_union; vm_compute; reflexivity.
Defined.

(** The value combined of the two has the larger set, the later time and both steps. *)
Example combined : herder_combineCandidates hashContents someView {[twoValue; threeValue]} =
  inr (encodeValue (mkStellarValue 11021022%N 250 [codedUpgrade (VERSION 2); codedUpgrade (TX_EXPIRATION_PERIOD 600)]), None).
Proof. vm_compute. reflexivity. Qed.

(** What is extracted of a value whose valid steps are out of order is not valid: not what
    [SCPDriver.h] says of [extractValidValue]. *)
Example extracted_value_is_invalid :
  let value := encodeValue (mkStellarValue 11021%N 200 [codedUpgrade (TX_EXPIRATION_PERIOD 600); codedUpgrade (VERSION 2)]) in
  herder_extractValidValue someView 5 value <> [] /\
  herder_validateValue someView 5 (herder_extractValidValue someView 5 value) = kInvalidValue.
Proof. split; vm_compute; [discriminate|reflexivity]. Qed.

(** ** Transaction sets *)

Definition thirdTx : Transaction := mkTransaction 3%N 20%N 9%N 3 70.
Definition badTx : Transaction := mkTransaction 4%N 19%N 6%N 4 90.
Definition manyTxs : TxSetFrame := mkTxSetFrame [otherTx; someTx; badTx; thirdTx] 11%N 0%N false.
Definition notBad (tx : Transaction) : bool := negb (bool_decide (tx = badTx)).

Lemma proposed_set_is_valid_witness :
  let '(removed, s1) := trimInvalid notBad manyTxs in
  let s2 := surgePricingFilter 2 s1 in
  checkValid notBad 11%N 2 s2 = true /\
  removed ≡ₚ filter (fun tx => notBad tx = false) (mTransactions manyTxs) /\
  StronglySorted (fun t1 t2 => (getFullHash t1 <= getFullHash t2)%N) (mTransactions s1) /\
  exists dropped,
    filter (fun tx => notBad tx = true) (mTransactions manyTxs) ≡ₚ mTransactions s2 ++ dropped /\
    (dropped <> [] -> length (mTransactions s2) = 2%nat) /\
    forall t1 t2, t1 ∈ mTransactions s2 -> t2 ∈ dropped ->
      exists f1 f2, pays f1 (accountTxs (getSourceID t1) (mTransactions s1)) /\
        pays f2 (accountTxs (getSourceID t2) (mTransactions s1)) /\ f2 <= f1 /\
        (getSourceID t1 = getSourceID t2 -> getSalt t1 <= getSalt t2).
Proof.
  apply (proposed_set_is_valid notBad 11%N 2 manyTxs); [reflexivity|]. repeat (constructor; [simpl; lia|]). constructor.
Defined.

(** An account with a free transaction is kept and one that pays 49 for each of its transactions is dropped: a fee
    of zero is taken for none. *)
Theorem free_transaction_forgotten :
  let free := [mkTransaction 1%N 1%N 7%N 1 0; mkTransaction 2%N 2%N 7%N 2 50] in
  let paying := [mkTransaction 3%N 3%N 8%N 1 49; mkTransaction 4%N 4%N 8%N 2 49] in
  mTransactions (surgePricingFilter 2 (mkTxSetFrame (free ++ paying) 11%N 0%N false)) = free.
Proof. vm_compute. reflexivity. Qed.

(** ** Asking peers *)

Definition threePeers : Overlay := mkOverlay [1; 2; 3]%N (fun _ => ∅) (fun p => negb (p =? 2)%N).

Lemma every_peer_is_asked_witness : 3%N ∈ askRun (replicate 5 threePeers) newTracker /\
  forall o, exists d, mTimer (tryNextPeer o newTracker).2 = Some d /\ d <= 1500000.
Proof.
  apply (every_peer_is_asked 3%N 3 (replicate 5 threePeers) newTracker).
  - apply Forall_replicate. split; [set_solver|]. split; [vm_compute; reflexivity|simpl; lia].
  - simpl. lia.
Defined.

(** An item that was there and was evicted from the cache is not asked for again: its tracker
    is still there, with its timer cancelled, and [fetch] only adds the envelope to it. *)
Lemma received_item_is_not_asked_again msgHash o h e (f : Fetcher) t : f !! h = Some (cancelTimer t) ->
  exists t', fetch msgHash o h e f = (None, <[h := t']> f) /\ mTimer t' = None /\
    timerExpired o h (<[h := t']> f) = (None, <[h := t']> f).
Proof.
  intros Hf. unfold fetch. rewrite Hf. eexists. split; [done|]. split; [done|].
  unfold timerExpired. rewrite lookup_insert_eq. done.
Qed.

(** ** Runs *)

Definition someQSet : SCPQuorumSet := mkQSet 1 [1; 2]%N [].
Definition msgHash0 (m : StellarMessage) : Hash := match m with SCP_MESSAGE e => Z.to_N (slotOf e) | TRANSACTION tx => getFullHash tx end.
Definition nomination (slot : Z) : SCPEnvelope :=
  mkEnvelope (mkStatement 2%N slot (NOMINATE (mkNomination 5%N [oneValue] []))) [].

(** SCP externalizes the value of an envelope of slot 5. *)
Definition someEnv : HerderEnv :=
  mkHerderEnv [3; 4]%N [3; 4]%N (fun _ => true) false 1%N true true (fun _ => TB_TRUE) (fun _ => [5%N])
    (fun e _ => if slotOf e =? 5 then [CbGetQSet 5%N; CbExternalized 5 oneValue] else [CbGetTxSet 11021%N]) (fun _ => [])
    (fun _ => []) (fun _ => []) (fun d _ => inr (mConsensusIndex d, true))
    (fun _ => mkLclHeader 11%N 4 100 [] 600 2 50 [1; 2]) (fun _ => 4) (fun _ => 50) 1000 600 2 50 [1; 2] (fun _ => true).

Lemma someEnv_plain : plainEnv someEnv.
Proof. intros d s e E. discriminate E. Qed.

Definition after (c : HerderCall) (s : Herder) : Herder :=
  match runCall hashContents msgHash0 someEnv c s with Ret _ s' | Exn _ s' => s' end.

Definition returns (c : HerderCall) (s : Herder) : bool :=
  match runCall hashContents msgHash0 someEnv c s with Ret _ _ => true | Exn _ _ => false end.

Definition roomy (s : Herder) : bool :=
  (lru_size (mQsetCache s) <? _max_size (mQsetCache s))%nat && (lru_size (mTxSetCache s) <? _max_size (mTxSetCache s))%nat.

Lemma roomy_hasRoom s : roomy s = true -> hasRoom s.
Proof. unfold roomy. intros [E1%Nat.ltb_lt E2%Nat.ltb_lt]%andb_true_iff. by split. Qed.

Lemma reach_after c s : reach hashContents msgHash0 true s -> roomy s && returns c s = true ->
  reach hashContents msgHash0 true (after c s).
Proof.
  intros Hs [Hr Hc]%andb_true_iff. unfold after, returns in *. destruct (runCall _ _ _ _ s) as [u s'|] eqn:E; [|done].
  eapply reach_ret; [done|apply someEnv_plain|by apply roomy_hasRoom|done].
Qed.

Definition start : Herder := newHerder 5%N someQSet 4 None.
Definition waiting : Herder := after (CallEnvelope (nomination 5)) start.
Definition delivered : Herder := after (CallTxSet 11021%N someSet) waiting.

Lemma reach_waiting : reach hashContents msgHash0 true waiting.
Proof. apply reach_after; [apply reach_new|vm_compute; reflexivity]. Qed.

Lemma reach_delivered : reach hashContents msgHash0 true delivered.
Proof. apply reach_after; [apply reach_waiting|vm_compute; reflexivity]. Qed.

Lemma delivered_trace : countEv (EvToSCP (nomination 5)) (hTrace delivered) = 1%nat /\
  countEv (EvErased 5) (hTrace delivered) = 0%nat.
Proof. split; vm_compute; reflexivity. Qed.

Lemma scp_gets_complete_envelopes_once_witness : fullyFetched delivered (nomination 5) /\
  countEv (EvToSCP (nomination 5)) (hTrace delivered) = 1%nat.
Proof.
  destruct delivered_trace as [E1 E2].
  destruct (scp_gets_complete_envelopes_once hashContents msgHash0 true delivered (nomination 5) reach_delivered) as [H1 H2].
  - apply countEv_pos. rewrite E1. lia.
  - split; [exact H1|]. apply H2. change (slotOf (nomination 5)) with 5. intros Hin%countEv_pos. rewrite E2 in Hin. lia.
Defined.

Lemma readable_nomination slot : readable (nomination slot).
Proof.
  intros v Hv. apply list_elem_of_singleton in Hv as ->. apply is_Some_alt. vm_compute. exact I.
Qed.

Lemma waiting_state : atSlot 5 (mFetchingEnvelopes waiting) = [nomination 5] /\
  forallb (fun ev => match ev with EvStopped _ => false | _ => true end) (hTrace waiting) = true /\
  lru_exists 11021%N (mTxSetCache waiting) = false.
Proof. split_and!; vm_compute; reflexivity. Qed.

Lemma nomination_needs slot : needsTxSet (nomination slot) 11021%N.
Proof. apply needsTxSet_dec. change (valuesOf (nomination slot)) with [oneValue]. vm_compute. left. Qed.

Lemma fetching_envelopes_wait_witness : exists t, mTxSetFetcher waiting !! 11021%N = Some t /\
  nomination 5 ∈ (mWaitingEnvelopes t).*2 /\ mTimer t <> None.
Proof.
  destruct waiting_state as (E1 & E2 & E3).
  assert (nomination 5 ∈ atSlot (slotOf (nomination 5)) (mFetchingEnvelopes waiting)) as He
    by (change (slotOf (nomination 5)) with 5; rewrite E1; left).
  assert (notStopped waiting (nomination 5)) as Hn.
  { intros i Hi. rewrite forallb_forall in E2. apply list_elem_of_In, E2 in Hi. discriminate Hi. }
  destruct (fetching_envelopes_wait hashContents msgHash0 waiting (nomination 5) reach_waiting He (readable_nomination 5) Hn)
    as (_ & _ & Ht).
  apply Ht; [apply nomination_needs|]. unfold knowsTxSet. rewrite E3. discriminate.
Defined.

Lemma roomy_waiting : roomy waiting = true.
Proof. vm_compute. reflexivity. Qed.

Lemma herder_calls_end_witness : returns (CallTxSet 11021%N someSet) waiting = true /\
  match runCall hashContents msgHash0 someEnv (CallTxSet 11021%N someSet) waiting with
  | Ret _ s' => knowsTxSet s' 11021%N /\ forall e, ~ waitsIn (mTxSetFetcher s') 11021%N e
  | Exn x _ => x <> OutOfFuel
  end.
Proof.
  split; [vm_compute; reflexivity|].
  exact (herder_calls_end hashContents msgHash0 true waiting someEnv (CallTxSet 11021%N someSet) reach_waiting someEnv_plain
    (roomy_hasRoom waiting roomy_waiting)).
Defined.

(** An erased slot is the exception to handing over once: after slot 5 slot 1 is
    erased and envelopes of it are still taken; a herder that has lost track hands one that
    was handed to SCP over again. *)
Example erased_slot_is_delivered_again :
  let s := after (CallEnvelope (nomination 1)) (after CallOutOfSync (after (CallEnvelope (nomination 5))
    (after (CallEnvelope (nomination 1)) (after (CallTxSet 11021%N someSet) (newHerder 5%N someQSet 1 None))))) in
  countEv (EvToSCP (nomination 1)) (hTrace s) = 2%nat.
Proof. vm_compute. reflexivity. Qed.

(** With the steps numbered as above the upgrades that a node proposes itself are out of order
    when the version and the expiration period both differ. *)
Example own_proposal_is_invalid :
  let lcl := mkLclHeader 11%N 4 100 [] 300 1 50 [1; 2] in
  herder_validateValue someView 5 (encodeValue (mkStellarValue 11021%N 200 (proposedSteps someEnv lcl))) = kInvalidValue.
Proof. vm_compute. reflexivity. Qed.
