(* ===== verification/Signatures.v ===== *)
(** * Signatures

    [transactions/SignatureValidatorImpl.cpp]: whether the signatures of a transaction
    give an account enough weight.  The validator of a transaction keeps which of
    the signatures were of use to somebody; it is the state of the monad.  Verifying a
    signature is cryptography, an argument of the model, and so are the values of the XDR
    enumerations.  A public key is the number that its bytes are, the most significant one
    first.

    [signatures_are_weighed] says what every answer means and
    [success_means_authorized] what a success does; [one_type_is_every_type] is a
    restriction that is not enforced. *)

From Stdlib Require Import ZArith Lia String Sorted.
From stdpp Require Import base tactics gmap option list.
From S2P Require Import Prelude ScpTypes LedgerTypes CreateOffer AccountManager.

Open Scope Z_scope.

(** ** Data *)

Record DecoratedSignature := mkSignature { hint : N; signature : Bytes }.

Record Signer := mkSigner {
  pubKey : AccountID;
  weight : Z;
  signerType : Z;
  identity : Z }.

(** The fields of [AccountEntry] that say who signs for it. *)
Record SigAccount := mkSigAccount {
  sigID : AccountID;
  recoveryID : AccountID;
  sigType : AccountType;
  thresholds : list Z;
  sigSigners : list Signer;
  blockReasons : Z }.

Record SourceDetails := mkSourceDetails {
  mAllowedSourceAccountTypes : list AccountType;
  mSpecificSigners : list AccountID;
  mNeeededTheshold : Z;
  mNeededSignedClass : Z;
  mAllowedBlockedReasons : Z }.

Inductive SigResult :=
| NOT_ENOUGH_WEIGHT | INVALID_ACCOUNT_TYPE | ACCOUNT_BLOCKED | SUCCESS | INVALID_SIGNER_TYPE | EXTRA.

#[export] Instance SigResult_eq_dec : EqDecision SigResult.
Proof. solve_decision. Defined.

(** [SignatureValidatorImpl] *)
Record Validator := mkValidator {
  mContentHash : Bytes;
  mSignatures : list DecoratedSignature;
  mUsedSignatures : list bool }.

Definition set_mUsedSignatures u (v : Validator) := mkValidator (mContentHash v) (mSignatures v) u.

(** What is outside: [PubKeyUtils::verifySig] and the XDR enumerations. *)
Class SigExterns := {
  verifySig : AccountID -> Bytes -> Bytes -> bool;
  SignerType_values : list Z;
  CHANGE_ASSET_ISSUER_BAD_AUTH_EXTRA_FIXED : Z;
  REPLACE_ACCOUNT_TYPES_WITH_POLICIES : Z }.

(** The application: [TX_SKIP_SIG_CHECK], [getMasterID], the version in the header of
    the current ledger and the accounts of the database. *)
Record SigEnv := mkSigEnv {
  TX_SKIP_SIG_CHECK : list Bytes;
  masterID : AccountID;
  ledgerVersion : Z;
  loadAccountEntry : AccountID -> option SigAccount }.

(** [PubKeyUtils::hasHint]: the last four bytes of the key. *)
Definition hasHint (pk : AccountID) (h : N) : bool := bool_decide ((pk `mod` 4294967296)%N = h).

Section validator.
Context `{SigExterns} (NDEBUG : bool) (env : SigEnv).

Definition getAnySignerType : Z := foldl Z.lor 0 SignerType_values.

(** ** The tracker *)

Definition newValidator (contentHash : Bytes) (signatures : list DecoratedSignature) : Validator :=
  mkValidator contentHash signatures (replicate (length signatures) false).

Definition checkAllSignaturesUsed (v : Validator) : bool := forallb id (mUsedSignatures v).

Definition resetSignatureTracker (v : Validator) : Validator :=
  set_mUsedSignatures (replicate (length (mSignatures v)) false) v.

(** [mUsedSignatures[i] = true] *)
Definition use (i : nat) (v : Validator) : Validator :=
  set_mUsedSignatures (<[i := true]> (mUsedSignatures v)) v.

(** ** Who signs *)

Definition isAccountTypeAllowed (account : SigAccount) (allowedAccountTypes : list AccountType) : bool :=
  if Nat.eqb (length allowedAccountTypes) 1 then true
  else existsb (fun t => bool_decide (t = sigType account)) allowedAccountTypes.

(** The signers of an account that is not a system account, or of the master. *)
Definition ownSigners (account : SigAccount) : list Signer :=
  (match thresholds account with
   | t0 :: _ => if t0 =? 0 then [] else [mkSigner (sigID account) t0 getAnySignerType 0]
   | [] => []
   end)
  ++ (if bool_decide (sigType account = MASTER) then []
      else [mkSigner (recoveryID account) 255 getAnySignerType 0])
  ++ sigSigners account.

(** [getSigners]: a system account has those of the master.  It calls itself again
    with the master; the second call ends when the master has the type it
    should. *)
Fixpoint getSigners (fuel : nat) (account : SigAccount) : exn + list Signer :=
  if negb (bool_decide (sigType account = MASTER)) && isSystemAccountType (sigType account) then
    match fuel, loadAccountEntry env (masterID env) with
    | O, _ => inl OutOfFuel
    | _, None => inl (if NDEBUG then NullDeref else DbgAbort)
    | S fuel, Some master => getSigners fuel master
    end
  else inr (ownSigners account).

(** ** Checks *)

Definition isSignatureValid (contentHash : Bytes) (sig : DecoratedSignature) (key : AccountID) : bool :=
  hasHint key (hint sig) && verifySig key (signature sig) contentHash.

(** [check(keys, signaturesRequired, ledgerVersion)]: the keys of one signature.  [inl]
    is the return in the loop. *)
Fixpoint checkKeys (i : nat) (sig : DecoratedSignature) (keys : list AccountID)
    (usedKeys : gset AccountID) (required : Z) : M Validator (SigResult + gset AccountID * Z) :=
  match keys with
  | [] => mret (inr (usedKeys, required))
  | key :: keys' =>
      if bool_decide (key ∈ usedKeys) then checkKeys i sig keys' usedKeys required
      else
        v ← get;
        if isSignatureValid (mContentHash v) sig key then
          (if CHANGE_ASSET_ISSUER_BAD_AUTH_EXTRA_FIXED <=? ledgerVersion env then modify (use i) else mret ());;
          if s32 (required - 1) =? 0 then mret (inl SUCCESS)
          else checkKeys i sig keys' ({[key]} ∪ usedKeys) (s32 (required - 1))
        else checkKeys i sig keys' usedKeys required
  end.

Fixpoint checkKeysFrom (i : nat) (sigs : list DecoratedSignature) (keys : list AccountID)
    (usedKeys : gset AccountID) (required : Z) : M Validator SigResult :=
  match sigs with
  | [] => mret NOT_ENOUGH_WEIGHT
  | sig :: sigs' =>
      r ← checkKeys i sig keys usedKeys required;
      match r with
      | inl r => mret r
      | inr (usedKeys, required) => checkKeysFrom (S i) sigs' keys usedKeys required
      end
  end.

Definition checkSpecific (keys : list AccountID) (signaturesRequired : Z) : M Validator SigResult :=
  v ← get; checkKeysFrom 0 (mSignatures v) keys ∅ signaturesRequired.

(** [checkSignature]: the signers of one signature, up to the [break]. *)
Fixpoint weighSigners (sd : SourceDetails) (i : nat) (sig : DecoratedSignature) (signers : list Signer)
    (usedIdentities : gset Z) (totalWeight : Z) : M Validator (SigResult + gset Z * Z) :=
  match signers with
  | [] => mret (inr (usedIdentities, totalWeight))
  | signer :: signers' =>
      v ← get;
      if negb (isSignatureValid (mContentHash v) sig (pubKey signer))
      then weighSigners sd i sig signers' usedIdentities totalWeight
      else if bool_decide (identity signer ∈ usedIdentities)
      then weighSigners sd i sig signers' usedIdentities totalWeight
      else if Z.land (signerType signer) (mNeededSignedClass sd) =? 0
      then mret (inl INVALID_SIGNER_TYPE)
      else
        modify (use i);;
        if mNeeededTheshold sd <=? s32 (totalWeight + weight signer) then mret (inl SUCCESS)
        else mret (inr ({[identity signer]} ∪ usedIdentities, s32 (totalWeight + weight signer)))
  end.

Fixpoint weighFrom (sd : SourceDetails) (i : nat) (sigs : list DecoratedSignature) (signers : list Signer)
    (usedIdentities : gset Z) (totalWeight : Z) : M Validator (option SigResult) :=
  match sigs with
  | [] => mret None
  | sig :: sigs' =>
      r ← weighSigners sd i sig signers usedIdentities totalWeight;
      match r with
      | inl r => mret (Some r)
      | inr (used, total) => weighFrom sd (S i) sigs' signers used total
      end
  end.

Definition checkSignature (account : SigAccount) (sd : SourceDetails) : M Validator SigResult :=
  signers ← lift (getSigners 1 account);
  v ← get;
  r ← weighFrom sd 0 (mSignatures v) signers ∅ 0;
  match r with
  | Some r => mret r
  | None =>
      v ← get;
      if negb (checkAllSignaturesUsed v) then mret EXTRA else mret NOT_ENOUGH_WEIGHT
  end.

Definition shouldSkipCheck : M Validator bool :=
  v ← get;
  if bool_decide (mContentHash v ∈ TX_SKIP_SIG_CHECK env)
  then modify (set_mUsedSignatures (map (fun _ => true) (mUsedSignatures v)));; mret true
  else mret false.

(** [check(app, db, account, sourceDetails)] *)
Definition check (account : SigAccount) (sd : SourceDetails) : M Validator SigResult :=
  skip ← shouldSkipCheck;
  if (skip : bool) then mret SUCCESS
  else if negb (Z.lor (blockReasons account) (mAllowedBlockedReasons sd) =? mAllowedBlockedReasons sd)
  then mret ACCOUNT_BLOCKED
  else if (ledgerVersion env <? REPLACE_ACCOUNT_TYPES_WITH_POLICIES)
          && negb (isAccountTypeAllowed account (mAllowedSourceAccountTypes sd))
  then mret INVALID_ACCOUNT_TYPE
  else match mSpecificSigners sd with
       | _ :: _ => checkSpecific (mSpecificSigners sd) (mNeeededTheshold sd)
       | [] => checkSignature account sd
       end.

End validator.

(** ** What the answers mean *)

Section facts.
Context `{SigExterns} (NDEBUG : bool) (env : SigEnv).

(** The signature at [i] is a signature of the key [key]. *)
Definition signedAt (v : Validator) (i : nat) (key : AccountID) : Prop :=
  exists sig, mSignatures v !! i = Some sig /\ isSignatureValid (mContentHash v) sig key = true.

Definition identitiesOf (chosen : list (nat * Signer)) : list Z := map (fun p => identity p.2) chosen.

Definition weightOf (chosen : list (nat * Signer)) : Z := foldr (fun p n => weight p.2 + n) 0 chosen.

Definition useAll (js : list nat) (v : Validator) : Validator := foldl (fun v i => use i v) v js.

(** Signatures, in their order, with signers of different identities that may sign. *)
Record counted (signers : list Signer) (sd : SourceDetails) (v : Validator)
    (chosen : list (nat * Signer)) : Prop := {
  counted_order : StronglySorted lt chosen.*1;
  counted_identities : NoDup (identitiesOf chosen);
  counted_signed : Forall (fun p => p.2 ∈ signers /\ signedAt v p.1 (pubKey p.2) /\
    Z.land (signerType p.2) (mNeededSignedClass sd) <> 0) chosen }.

(** The signature at [i] is of no use: whoever signed it has an identity that is
    counted. *)
Definition useless (signers : list Signer) (v : Validator) (chosen : list (nat * Signer)) (i : nat) : Prop :=
  forall s, s ∈ signers -> signedAt v i (pubKey s) -> identity s ∈ identitiesOf chosen.

(** Weights that an [int] has room for. *)
Definition weights_fit (n : nat) (signers : list Signer) : Prop :=
  exists b, Forall (fun s => 0 <= weight s <= b) signers /\ Z.of_nat n * b <= 2147483647.

Lemma useAll_snoc js i v : useAll (js ++ [i]) v = use i (useAll js v).
Proof. unfold useAll. by rewrite foldl_app. Qed.

Lemma useAll_frame js v : mContentHash (useAll js v) = mContentHash v /\ mSignatures (useAll js v) = mSignatures v.
Proof. revert v. induction js as [|i js IH]; intros v; simpl; [done|]. by destruct (IH (use i v)) as [-> ->]. Qed.

(** The signer that one signature counts for. *)
Definition candidate (h : Bytes) (sig : DecoratedSignature) (used : gset Z) (s : Signer) : bool :=
  isSignatureValid h sig (pubKey s) && negb (bool_decide (identity s ∈ used)).

Lemma weighSigners_find sd i sig signers used total v :
  weighSigners sd i sig signers used total v =
  match List.find (candidate (mContentHash v) sig used) signers with
  | None => Ret (inr (used, total)) v
  | Some s =>
      if Z.land (signerType s) (mNeededSignedClass sd) =? 0 then Ret (inl INVALID_SIGNER_TYPE) v
      else Ret (if mNeeededTheshold sd <=? s32 (total + weight s) then inl SUCCESS
                else inr ({[identity s]} ∪ used, s32 (total + weight s))) (use i v)
  end.
Proof.
  induction signers as [|s signers IH]; simpl; [done|]. unfold candidate at 1.
  unfold mbind at 1, M_bind at 1, get; cbn beta iota.
  destruct (isSignatureValid _ _ _); simpl; [|done]. case_bool_decide; simpl; [done|].
  destruct (_ =? 0); [done|]. unfold mbind, M_bind, modify. by destruct (_ <=? _).
Qed.

Lemma weightOf_snoc chosen i s : weightOf (chosen ++ [(i, s)]) = weightOf chosen + weight s.
Proof. unfold weightOf. induction chosen as [|p chosen IH]; simpl; lia. Qed.

Lemma weightOf_bound b signers chosen : Forall (fun s => 0 <= weight s <= b) signers ->
  Forall (fun p => p.2 ∈ signers) chosen -> 0 <= weightOf chosen <= Z.of_nat (length chosen) * b.
Proof.
  intros Hb Hc. induction Hc as [|p chosen Hp _ IH]; simpl; [lia|].
  rewrite Forall_forall in Hb. specialize (Hb _ Hp). lia.
Qed.

Lemma sorted_snoc (l : list nat) i : StronglySorted lt l -> Forall (fun j => (j < i)%nat) l ->
  StronglySorted lt (l ++ [i]).
Proof.
  induction 1 as [|j l Hs IH Hj]; intros Hf; [repeat constructor|].
  apply Forall_cons in Hf as [? Hf]. simpl. constructor; [by apply IH|].
  apply Forall_app. split; [done|by constructor].
Qed.

Lemma sorted_length (l : list nat) i : StronglySorted lt l -> Forall (fun j => (j < i)%nat) l -> (length l <= i)%nat.
Proof.
  intros Hs Hf. rewrite <- (length_seq i 0). apply submseteq_length, NoDup_submseteq.
  - clear Hf. induction Hs as [|j l Hs IH Hj]; constructor; [|done].
    intros Hin. rewrite Forall_forall in Hj. specialize (Hj _ Hin). lia.
  - rewrite Forall_forall in Hf. intros j Hj. apply elem_of_seq. specialize (Hf _ Hj). lia.
Qed.

(** What the loop has done when it is at the signature [i]. *)
Record weighed (signers : list Signer) (sd : SourceDetails) (v0 : Validator) (i : nat)
    (chosen : list (nat * Signer)) (used : gset Z) (total : Z) (v : Validator) : Prop := {
  wg_counted : counted signers sd v0 chosen;
  wg_before : Forall (fun j => (j < i)%nat) chosen.*1;
  wg_used : used = list_to_set (identitiesOf chosen);
  wg_total : total = weightOf chosen;
  wg_state : v = useAll chosen.*1 v0;
  wg_less : chosen = [] \/ weightOf chosen < mNeeededTheshold sd;
  wg_useless : forall j, (j < i)%nat -> j ∉ chosen.*1 -> useless signers v0 chosen j }.

Lemma weighed_skip signers sd v0 i chosen used total v sig : weighed signers sd v0 i chosen used total v ->
  mSignatures v0 !! i = Some sig ->
  List.find (candidate (mContentHash v0) sig used) signers = None ->
  weighed signers sd v0 (S i) chosen used total v.
Proof.
  intros [Hc Hb Hu Ht Hs Hl Hz] Hi Hf. split; try done; [eapply Forall_impl; [done|]; simpl; lia|].
  intros j Hj Hn. destruct (decide (j = i)) as [->|]; [|apply Hz; [lia|done]].
  intros s Hin (sig' & Hi' & Hv). simplify_eq.
  apply list_elem_of_In in Hin. pose proof (List.find_none _ _ Hf _ Hin) as Hn'.
  unfold candidate in Hn'. rewrite Hv in Hn'. simpl in Hn'.
  apply negb_false_iff, bool_decide_eq_true in Hn'. by rewrite elem_of_list_to_set in Hn'.
Qed.

Lemma weighed_count signers sd v0 i chosen used total v sig s : weighed signers sd v0 i chosen used total v ->
  weights_fit (length (mSignatures v0)) signers ->
  mSignatures v0 !! i = Some sig ->
  List.find (candidate (mContentHash v0) sig used) signers = Some s ->
  Z.land (signerType s) (mNeededSignedClass sd) <> 0 ->
  counted signers sd v0 (chosen ++ [(i, s)]) /\ use i v = useAll (chosen ++ [(i, s)]).*1 v0 /\
  s32 (total + weight s) = weightOf (chosen ++ [(i, s)]) /\
  (weightOf (chosen ++ [(i, s)]) < mNeeededTheshold sd ->
   weighed signers sd v0 (S i) (chosen ++ [(i, s)]) ({[identity s]} ∪ used) (weightOf (chosen ++ [(i, s)])) (use i v)).
Proof.
  intros [[Ho Hid Hf] Hb Hu Ht Hs Hl Hz] (b & Hw & Hfit) Hi Hfd Hty.
  apply List.find_some in Hfd as [Hin Hcd]. apply list_elem_of_In in Hin.
  unfold candidate in Hcd. apply andb_true_iff in Hcd as [Hv Hnu].
  apply negb_true_iff, bool_decide_eq_false in Hnu. rewrite Hu, elem_of_list_to_set in Hnu.
  assert (Hc' : counted signers sd v0 (chosen ++ [(i, s)])).
  { split.
    - rewrite fmap_app. by apply sorted_snoc.
    - unfold identitiesOf. rewrite map_app. apply NoDup_app. split_and!; [done| |apply NoDup_singleton].
      intros x Hx ->%list_elem_of_singleton. done.
    - apply Forall_app. split; [done|]. constructor; [|done]. split_and!; [done|by exists sig|done]. }
  assert (Hv' : use i v = useAll (chosen ++ [(i, s)]).*1 v0) by (rewrite fmap_app; simpl; by rewrite useAll_snoc, Hs).
  assert (Hb' : Forall (fun j => (j < S i)%nat) (chosen ++ [(i, s)]).*1).
  { rewrite fmap_app. apply Forall_app. split; [|by repeat constructor].
    eapply Forall_impl; [done|]. simpl. lia. }
  split_and!; try done.
  - rewrite weightOf_snoc, Ht. apply s32_id. rewrite <- weightOf_snoc with (i := i).
    destruct (weightOf_bound b signers (chosen ++ [(i, s)])) as [? Hle]; [done| |].
    { eapply Forall_impl; [apply Hc'|]. by intros ? (? & _). }
    pose proof (sorted_length _ _ (counted_order _ _ _ _ Hc') Hb') as Hlen. rewrite length_fmap in Hlen.
    apply lookup_lt_Some in Hi. rewrite Forall_forall in Hw. specialize (Hw _ Hin). nia.
  - intros Hlt. split; try done; [| by right |].
    + unfold identitiesOf. rewrite map_app, list_to_set_app_L, Hu. simpl. set_solver.
    + intros j Hj Hn. rewrite fmap_app in Hn. simpl in Hn.
      assert (j <> i) by (intros ->; apply Hn; set_solver).
      intros s' Hs' Hsig. unfold identitiesOf. rewrite map_app. apply elem_of_app. left.
      apply (Hz j); [lia|set_solver|done|done].
Qed.

(** How the loop ends. *)
Definition weighed_result (signers : list Signer) (sd : SourceDetails) (v0 : Validator)
    (r : option SigResult) (v : Validator) : Prop :=
  exists chosen, counted signers sd v0 chosen /\ v = useAll chosen.*1 v0 /\
    match r with
    | Some SUCCESS => chosen <> [] /\ mNeeededTheshold sd <= weightOf chosen
    | Some INVALID_SIGNER_TYPE => (chosen = [] \/ weightOf chosen < mNeeededTheshold sd) /\
        exists i s, s ∈ signers /\ signedAt v0 i (pubKey s) /\ identity s ∉ identitiesOf chosen /\
          Z.land (signerType s) (mNeededSignedClass sd) = 0
    | Some _ => False
    | None => (chosen = [] \/ weightOf chosen < mNeeededTheshold sd) /\
        forall i, i ∉ chosen.*1 -> useless signers v0 chosen i
    end.

Lemma weighFrom_result signers sd v0 : weights_fit (length (mSignatures v0)) signers ->
  forall sigs i chosen used total v, weighed signers sd v0 i chosen used total v ->
  drop i (mSignatures v0) = sigs ->
  exists r v', weighFrom sd i sigs signers used total v = Ret r v' /\ weighed_result signers sd v0 r v'.
Proof.
  intros Hfit sigs. induction sigs as [|sig sigs IH]; intros i chosen used total v Hw Hd.
  { exists None, v. split; [done|]. exists chosen. destruct Hw as [Hc Hb Hu Ht Hs Hl Hz]. split_and!; try done.
    intros j Hj. destruct (decide (j < i)%nat); [by apply Hz|].
    intros s _ (sg & Hsg & _). apply lookup_lt_Some in Hsg.
    apply (f_equal length) in Hd. rewrite length_drop in Hd. simpl in Hd. lia. }
  assert (Hi : mSignatures v0 !! i = Some sig).
  { rewrite <- (Nat.add_0_r i), <- lookup_drop, Hd. done. }
  assert (Hd' : drop (S i) (mSignatures v0) = sigs).
  { rewrite <- Nat.add_1_r, <- drop_drop, Hd. done. }
  assert (Hh : mContentHash v = mContentHash v0) by (rewrite (wg_state _ _ _ _ _ _ _ _ Hw); apply useAll_frame).
  simpl. unfold mbind, M_bind. rewrite weighSigners_find, Hh.
  destruct (List.find _ signers) as [s|] eqn:Ef.
  - destruct (Z.eqb_spec (Z.land (signerType s) (mNeededSignedClass sd)) 0) as [Ht|Ht].
    + eexists _, _. split; [done|]. exists chosen. destruct Hw as [Hc Hb Hu Htt Hs Hl Hz]. split_and!; try done.
      apply List.find_some in Ef as [Hin [Hv Hn]%andb_true_iff]. apply list_elem_of_In in Hin.
      apply negb_true_iff, bool_decide_eq_false in Hn. rewrite Hu, elem_of_list_to_set in Hn.
      exists i, s. split_and!; try done. by exists sig.
    + destruct (weighed_count _ _ _ _ _ _ _ _ _ _ Hw Hfit Hi Ef Ht) as (Hc & Hv & Ew & Hnext).
      rewrite Ew. destruct (Z.leb_spec (mNeeededTheshold sd) (weightOf (chosen ++ [(i, s)]))) as [Hle|Hlt].
      * eexists _, _. split; [done|]. exists (chosen ++ [(i, s)]). split_and!; try done. by destruct chosen.
      * by apply IH with (chosen ++ [(i, s)]); [apply Hnext|].
  - apply IH with chosen; [by eapply weighed_skip|done].
Qed.

Lemma weigh_result signers sd v : weights_fit (length (mSignatures v)) signers ->
  exists r v', weighFrom sd 0 (mSignatures v) signers ∅ 0 v = Ret r v' /\ weighed_result signers sd v r v'.
Proof.
  intros Hfit. apply weighFrom_result with []; [done| |by rewrite drop_0].
  split; try done; [|by left|].
  - split; simpl; constructor.
  - intros j Hj. lia.
Qed.

(** C26. What every answer of [checkSignature] means.  The signatures counted are of
    signers of the account with different identities that may sign; a success
    means that their weight reaches the threshold, and that there is one at least,
    even for a threshold of zero; a wrong type means that somebody of a new
    identity who may not sign did, before enough weight was there; otherwise the
    weight of the counted ones is below the threshold and every other signature is of
    no use, since all who signed it are counted; the answer is then that there are
    signatures too many exactly when one was of use to nobody.  The signatures that
    are marked as used are the counted ones. *)
Theorem signatures_are_weighed account sd v signers : getSigners NDEBUG env 1 account = inr signers ->
  weights_fit (length (mSignatures v)) signers ->
  exists r v' chosen, checkSignature NDEBUG env account sd v = Ret r v' /\
    counted signers sd v chosen /\ v' = useAll chosen.*1 v /\
    match r with
    | SUCCESS => chosen <> [] /\ mNeeededTheshold sd <= weightOf chosen
    | INVALID_SIGNER_TYPE => (chosen = [] \/ weightOf chosen < mNeeededTheshold sd) /\
        exists i s, s ∈ signers /\ signedAt v i (pubKey s) /\ identity s ∉ identitiesOf chosen /\
          Z.land (signerType s) (mNeededSignedClass sd) = 0
    | NOT_ENOUGH_WEIGHT | EXTRA => (chosen = [] \/ weightOf chosen < mNeeededTheshold sd) /\
        (forall i, i ∉ chosen.*1 -> useless signers v chosen i) /\
        (r = EXTRA <-> false ∈ mUsedSignatures v')
    | _ => False
    end.
Proof.
  intros Hs Hfit. destruct (weigh_result signers sd v Hfit) as (r & v' & E & chosen & Hc & Hv & Hr).
  unfold checkSignature. rewrite Hs. unfold lift, mbind, M_bind, mret, M_ret, get. rewrite E.
  destruct r as [r|].
  { exists r, v', chosen. split_and!; try done. by destruct r. }
  assert (Hx : checkAllSignaturesUsed v' = false <-> false ∈ mUsedSignatures v').
  { unfold checkAllSignaturesUsed. induction (mUsedSignatures v') as [|[] l IH]; simpl.
    - split; [done|intros []%not_elem_of_nil].
    - rewrite IH, elem_of_cons. naive_solver.
    - split; [|done]. intros _. constructor. }
  destruct (checkAllSignaturesUsed v'); simpl; eexists _, v', chosen; (split_and!; [done..|]);
    destruct Hr as [? ?]; split_and!; try done; rewrite <- Hx; done.
Qed.

(** ** Specific signers *)

(** A key of the list that has signed. *)
Definition keySigned (keys : list AccountID) (v : Validator) (k : AccountID) : Prop :=
  k ∈ keys /\ exists i, signedAt v i k.

Definition keysUsed (keys : list AccountID) (v : Validator) (threshold : Z) (used : gset AccountID) (required : Z) : Prop :=
  (forall k, k ∈ used -> keySigned keys v k) /\ required = threshold - Z.of_nat (size used).

Lemma keysUsed_size keys v t used required : keysUsed keys v t used required -> (size used <= length keys)%nat.
Proof.
  intros [Hu _]. unfold size, set_size. simpl. apply submseteq_length, NoDup_submseteq; [apply NoDup_elements|].
  intros k Hk%elem_of_elements. by apply Hu.
Qed.

Lemma keysUsed_add keys v t used required k : keysUsed keys v t used required ->
  k ∉ used -> keySigned keys v k -> keysUsed keys v t ({[k]} ∪ used) (required - 1).
Proof.
  intros [Hu ->] Hn Hk. split.
  - intros k' [->%elem_of_singleton|?]%elem_of_union; auto.
  - rewrite size_union, size_singleton by set_solver. lia.
Qed.

Section specific.
Context (keys : list AccountID) (v0 : Validator) (threshold : Z).
Hypothesis Hthreshold : 0 <= threshold <= 2147483647.
Hypothesis Hkeys : Z.of_nat (length keys) < 2147483648.

(** Enough of the keys have signed. *)
Definition enoughKeys (used : gset AccountID) : Prop := keysUsed keys v0 threshold used 0.

Lemma checkKeys_result i sig : mSignatures v0 !! i = Some sig ->
  forall ks used required v, ks ⊆ keys -> mContentHash v = mContentHash v0 ->
  keysUsed keys v0 threshold used required ->
  exists r v', checkKeys env i sig ks used required v = Ret r v' /\ mContentHash v' = mContentHash v0 /\
    match r with
    | inl r => r = SUCCESS /\ exists used', enoughKeys used'
    | inr (used', required') => keysUsed keys v0 threshold used' required'
    end.
Proof.
  intros Hi ks. induction ks as [|k ks IH]; intros used required v Hks Hh Hu; [by eexists _, v|].
  assert (Hk : k ∈ keys) by (apply Hks; constructor).
  assert (Hks' : ks ⊆ keys) by (intros ? ?; apply Hks; by constructor). simpl. case_bool_decide as Hin; [by apply IH|].
  unfold mbind at 1, M_bind at 1, get. cbn beta iota. rewrite Hh.
  destruct (isSignatureValid _ _ _) eqn:Hv; [|by apply IH].
  assert (Ha : keysUsed keys v0 threshold ({[k]} ∪ used) (required - 1)).
  { apply keysUsed_add; [done|done|]. split; [done|]. by exists i, sig. }
  assert (Hs : s32 (required - 1) = required - 1).
  { apply s32_id. pose proof (keysUsed_size _ _ _ _ _ Ha). destruct Ha as [_ ->]. lia. }
  rewrite Hs. set (m := if _ <=? _ then _ else _).
  assert (exists w, m v = Ret () w /\ mContentHash w = mContentHash v0) as (w & Em & Hw).
  { unfold m. destruct (_ <=? _); by eexists. }
  unfold mbind, M_bind. rewrite Em. destruct (Z.eqb_spec (required - 1) 0) as [Hz|Hz]; [|by apply IH].
  eexists _, w. split; [done|]. split; [done|]. split; [done|]. exists ({[k]} ∪ used). unfold enoughKeys. by rewrite <- Hz.
Qed.

Lemma checkKeysFrom_result sigs : forall i used required v, drop i (mSignatures v0) = sigs ->
  mContentHash v = mContentHash v0 -> keysUsed keys v0 threshold used required ->
  exists r v', checkKeysFrom env i sigs keys used required v = Ret r v' /\
    (r = NOT_ENOUGH_WEIGHT \/ r = SUCCESS /\ exists used', enoughKeys used').
Proof.
  induction sigs as [|sig sigs IH]; intros i used required v Hd Hh Hu; simpl; [eexists _, v; by eauto|].
  assert (Hi : mSignatures v0 !! i = Some sig) by (by rewrite <- (Nat.add_0_r i), <- lookup_drop, Hd).
  destruct (checkKeys_result i sig Hi keys used required v) as (r & v' & E & Hh' & Hr); [done..|].
  unfold mbind, M_bind. rewrite E. destruct r as [r|[used' required']].
  - eexists _, v'. split; [done|]. by right.
  - apply IH; [|done..]. by rewrite <- Nat.add_1_r, <- drop_drop, Hd.
Qed.

End specific.

Lemma checkSpecific_success keys threshold v v' : 0 <= threshold <= 2147483647 ->
  Z.of_nat (length keys) < 2147483648 ->
  checkSpecific env keys threshold v = Ret SUCCESS v' ->
  exists used : gset AccountID, Z.of_nat (size used) = threshold /\ forall k, k ∈ used -> keySigned keys v k.
Proof.
  intros Ht Hk. unfold checkSpecific, mbind, M_bind, get.
  destruct (checkKeysFrom_result keys v threshold Ht Hk (mSignatures v) 0 ∅ threshold v)
    as (r & w & E & Hr); [by rewrite drop_0|done| |].
  { split; [set_solver|]. rewrite size_empty. lia. }
  rewrite E. intros [= -> ->]. destruct Hr as [?|[_ (used & Hu & Hz)]]; [done|]. exists used. split; [lia|done].
Qed.

(** C25. A success means that the account has authorized what is checked.  Unless the
    transaction is one of those the configuration exempts, the account has no block
    reason but the allowed ones, and either the operation asks for specific keys, and as
    many different ones of them as it needs have signed the contents, or signers
    of the account of different identities have, each of a type that may, and
    their weights reach the threshold. *)
Theorem success_means_authorized account sd v v' :
  check NDEBUG env account sd v = Ret SUCCESS v' ->
  mContentHash v ∉ TX_SKIP_SIG_CHECK env ->
  0 <= mNeeededTheshold sd <= 2147483647 -> Z.of_nat (length (mSpecificSigners sd)) < 2147483648 ->
  (forall signers, getSigners NDEBUG env 1 account = inr signers -> weights_fit (length (mSignatures v)) signers) ->
  Z.lor (blockReasons account) (mAllowedBlockedReasons sd) = mAllowedBlockedReasons sd /\
  match mSpecificSigners sd with
  | [] => exists signers chosen, getSigners NDEBUG env 1 account = inr signers /\
      counted signers sd v chosen /\ chosen <> [] /\ mNeeededTheshold sd <= weightOf chosen
  | keys => exists used : gset AccountID, Z.of_nat (size used) = mNeeededTheshold sd /\
      forall k, k ∈ used -> keySigned keys v k
  end.
Proof.
  intros E Hskip Ht Hk Hw. unfold check, shouldSkipCheck in E.
  unfold mbind at 1, M_bind at 1, mbind at 1, M_bind at 1, get in E. cbn beta iota in E.
  rewrite bool_decide_eq_false_2 in E by done. cbn in E.
  destruct (Z.eqb_spec (Z.lor (blockReasons account) (mAllowedBlockedReasons sd)) (mAllowedBlockedReasons sd)) as [Hb|];
    [|done]. split; [done|]. cbn in E. destruct (_ && _); [done|].
  destruct (mSpecificSigners sd) as [|k keys] eqn:Ek; [|by eapply checkSpecific_success].
  unfold checkSignature in E. destruct (getSigners NDEBUG env 1 account) as [|signers] eqn:Eg; [done|].
  destruct (weigh_result signers sd v) as (r & w & Er & chosen & Hc & Hv & Hr); [by apply Hw|].
  unfold lift, mbind, M_bind, mret, M_ret, get in E. rewrite Er in E.
  destruct r as [r|]; [|by destruct (checkAllSignaturesUsed w)].
  simplify_eq. exists signers, chosen. by destruct Hr.
Qed.

(** A list of one type allows every type: what an operation reserves to the master
    account ([SetFees], [ManageAssetPair] and most reviews do it by a list of one) is
    not refused to another one by the check of types. *)
Theorem one_type_is_every_type account sd t v v' r : mAllowedSourceAccountTypes sd = [t] ->
  check NDEBUG env account sd v = Ret r v' -> r <> INVALID_ACCOUNT_TYPE.
Proof.
  intros Ht E ->. unfold check in E. unfold mbind at 1, M_bind at 1 in E.
  destruct (shouldSkipCheck env v) as [[] w|]; try done. rewrite Ht in E.
  destruct (negb (_ =? _)); [done|]. rewrite andb_false_r in E.
  assert (Hk : forall i sig ks used req v w r, checkKeys env i sig ks used req v = Ret (inl r) w -> r = SUCCESS).
  { intros i sig ks. induction ks as [|k ks IH]; intros used req u u' r; simpl; [done|].
    case_bool_decide; [by apply IH|]. unfold mbind at 1, M_bind at 1, get. cbn beta iota.
    destruct (isSignatureValid _ _ _); [|by apply IH].
    set (m := if _ <=? _ then _ else _). unfold mbind, M_bind. destruct (m u); [|done].
    destruct (_ =? 0); [|by apply IH]. by intros [= -> _]. }
  assert (Hf : forall sigs i ks used req v w r, checkKeysFrom env i sigs ks used req v = Ret r w ->
    r <> INVALID_ACCOUNT_TYPE).
  { intros sigs. induction sigs as [|sig sigs IH]; intros i ks used req u u' r; simpl; [by intros [= <- _]|].
    unfold mbind, M_bind. destruct (checkKeys _ _ _ _ _ _ _) as [[r'|[used' req']] u1|] eqn:Ec; [| |done].
    - intros [= <- _]. by rewrite (Hk _ _ _ _ _ _ _ _ Ec).
    - apply IH. }
  destruct (mSpecificSigners sd); [|by apply Hf in E].
  unfold checkSignature in E. unfold mbind at 1, M_bind at 1, lift in E.
  destruct (getSigners _ _ _ _) as [|signers]; [done|]. unfold mbind, M_bind, mret, M_ret, get in E.
  assert (Hw : forall sigs i used total v w, weighFrom sd i sigs signers used total v <> Ret (Some INVALID_ACCOUNT_TYPE) w).
  { intros sigs. induction sigs as [|sig sigs IH]; intros i used total u u'; simpl; [done|].
    unfold mbind, M_bind. rewrite weighSigners_find. destruct (List.find _ _) as [s|]; [|apply IH].
    destruct (_ =? 0); [done|]. destruct (_ <=? _); [done|apply IH]. }
  destruct (weighFrom _ _ _ _ _ _ _) as [[?|] ?|] eqn:Ef; simplify_eq; [by apply Hw in Ef|].
  by destruct (checkAllSignaturesUsed _).
Qed.

(** ** Checking always answers *)

(** The contents and the signatures stay. *)
Definition sameSigned (v v' : Validator) : Prop :=
  mContentHash v' = mContentHash v /\ mSignatures v' = mSignatures v.

Lemma checkKeys_returns i sig ks : forall used required v,
  exists r v', checkKeys env i sig ks used required v = Ret r v' /\ sameSigned v v'.
Proof.
  induction ks as [|k ks IH]; intros used required v; simpl; [by eexists _, v|].
  case_bool_decide; [apply IH|]. unfold mbind at 1, M_bind at 1, get. cbn beta iota.
  destruct (isSignatureValid _ _ _); [|apply IH].
  set (m := if _ <=? _ then _ else _).
  assert (exists w, m v = Ret () w /\ sameSigned v w) as (w & Em & Hw).
  { unfold m. destruct (_ <=? _); by eexists. }
  unfold mbind, M_bind. rewrite Em. destruct (_ =? 0); [by eexists _, w|].
  destruct (IH ({[k]} ∪ used) (s32 (required - 1)) w) as (r & v' & E & H1 & H2).
  exists r, v'. split; [done|]. split; [rewrite H1|rewrite H2]; apply Hw.
Qed.

Lemma checkKeysFrom_returns sigs ks : forall i used required v,
  exists r v', checkKeysFrom env i sigs ks used required v = Ret r v' /\ sameSigned v v'.
Proof.
  induction sigs as [|sig sigs IH]; intros i used required v; simpl; [by eexists _, v|].
  destruct (checkKeys_returns i sig ks used required v) as (r & w & E & Hw).
  unfold mbind, M_bind. rewrite E. destruct r as [r|[used' required']]; [by eexists _, w|].
  destruct (IH (S i) used' required' w) as (r & v' & E' & H1 & H2). exists r, v'. split; [done|].
  split; [rewrite H1|rewrite H2]; apply Hw.
Qed.

Lemma weighFrom_returns sd signers sigs : forall i used total v,
  exists r v', weighFrom sd i sigs signers used total v = Ret r v' /\ sameSigned v v'.
Proof.
  induction sigs as [|sig sigs IH]; intros i used total v; simpl; [by eexists _, v|].
  unfold mbind, M_bind. rewrite weighSigners_find. destruct (List.find _ _) as [s|]; [|apply IH].
  destruct (_ =? 0); [by eexists _, v|]. destruct (_ <=? _); [by eexists _, (use i v)|].
  destruct (IH (S i) ({[identity s]} ∪ used) (s32 (total + weight s)) (use i v)) as (r & v' & E' & H1 & H2).
  by exists r, v'.
Qed.

(** The master account is there, and has its type. *)
Definition hasMaster : Prop := exists m, loadAccountEntry env (masterID env) = Some m /\ sigType m = MASTER.

Lemma getSigners_returns account : hasMaster -> exists signers, getSigners NDEBUG env 1 account = inr signers.
Proof.
  intros (m & Em & Hm). unfold getSigners. rewrite Em, Hm. destruct (_ && _); by eexists.
Qed.

Lemma check_returns account sd v : hasMaster ->
  exists r v', check NDEBUG env account sd v = Ret r v' /\ sameSigned v v'.
Proof.
  intros Hm. unfold check, shouldSkipCheck.
  unfold mbind at 1, M_bind at 1, mbind at 1, M_bind at 1, get. cbn beta iota.
  case_bool_decide; [by eexists _, _|]. cbn. destruct (negb _); [by eexists _, v|].
  destruct (_ && _); [by eexists _, v|]. destruct (mSpecificSigners sd); [|apply checkKeysFrom_returns].
  destruct (getSigners_returns account Hm) as [signers Es]. unfold checkSignature. rewrite Es.
  destruct (weighFrom_returns sd signers (mSignatures v) 0 ∅ 0 v) as (r & w & E & Hw).
  unfold lift, mbind, M_bind, mret, M_ret, get. rewrite E. destruct r; [by eexists _, w|].
  destruct (checkAllSignaturesUsed w); by eexists _, w.
Qed.

End facts.
