(* ===== verification/TxFrame.v ===== *)
(** * The frame of a transaction

    [transactions/TransactionFrameImpl.cpp], [transactions/OperationFrame.cpp],
    [ledger/StorageHelperImpl.cpp] and the two loops of [ledger/LedgerManagerImpl.cpp] that run
    the transactions of a ledger.

    The world [TW] has the deltas ([LedgerDelta.v]), the session of the database with
    its open transactions, and the mutable part of the frame that is being
    applied.  What a class derived from [OperationFrame] overrides are the fields of the
    record [OperationFrame], programs on that world; [doApply] and [doCheckValid] are
    given [mSourceAccount].  Objects with a destructor are
    bracketed by [finally]: what C++ unwinds, the model runs. *)

From Stdlib Require Import ZArith Lia String.
From stdpp Require Import base tactics gmap option list.
From S2P Require Import Prelude ScpTypes LedgerTypes LedgerDelta LedgerDeltaTheorems UtilTypes Balance Offer CreateOffer AccountManager.
From S2P Require Import Signatures.

Open Scope Z_scope.

(** ** The database *)

Inductive TransactionResultCode :=
| txSUCCESS | txFAILED | txTOO_EARLY | txTOO_LATE | txMISSING_OPERATION | txBAD_AUTH | txNO_ACCOUNT
| txBAD_AUTH_EXTRA | txINTERNAL_ERROR | txACCOUNT_BLOCKED | txDUPLICATION | txINSUFFICIENT_FEE
| txSOURCE_UNDERFUNDED | txCOMMISSION_LINE_FULL.

#[export] Instance TransactionResultCode_eq_dec : EqDecision TransactionResultCode.
Proof. solve_decision. Defined.

Inductive OperationResultCode :=
| opINNER | opBAD_AUTH | opNO_ACCOUNT | opNOT_ALLOWED | opACCOUNT_BLOCKED | opNO_COUNTERPARTY
| opCOUNTERPARTY_BLOCKED | opCOUNTERPARTY_WRONG_TYPE | opBAD_AUTH_EXTRA | opNO_ROLE_PERMISSION.

Record TxRow := mkTxRow { rowTxID : Bytes; rowResult : TransactionResultCode; rowMeta : list (list LedgerEntryChange) }.

Inductive StoreState := kLastClosedLedger | kHistoryArchiveState.

#[export] Instance StoreState_eq_dec : EqDecision StoreState.
Proof. solve_decision. Defined.

#[export] Instance StoreState_countable : Countable StoreState.
Proof.
  apply (inj_countable' (fun x => match x with kLastClosedLedger => true | kHistoryArchiveState => false end)
    (fun b : bool => if b then kLastClosedLedger else kHistoryArchiveState)). by intros [].
Defined.

(** The tables the ledger manager writes when it has applied the transactions, by their primary keys: the headers
    by their hashes, the states of [PersistentState], the queue of what is to be published. *)
Record LedgerTables := mkLedgerTables {
  ledgerheaders : gmap Bytes LedgerHeader;
  storestate : gmap StoreState Bytes;
  publishqueue : gmap Z Bytes }.

(** The tables of [TransactionFrame::dropAll], by their primary keys, and those of the ledger manager. *)
Record Tables := mkTables {
  txhistory : gmap (Z * Z) TxRow;
  txfeehistory : gmap (Z * Z) (Bytes * list LedgerEntryChange);
  txtiming : gmap Bytes Z;
  ledgerTables : LedgerTables }.

Record TxDb := mkTxDb { entries : gmap LedgerId LedgerEntry; tables : Tables }.

(** The session of the database, which is not part of the program: transactions nest,
    the innermost one is first. *)
Class SqlSession := {
  Session : Type;
  sqlStack : Session -> list TxDb;
  sqlBegin : Session -> Session;
  sqlCommit : Session -> Session;
  sqlRollback : Session -> Session;
  sqlExec : (TxDb -> TxDb) -> Session -> Session }.

Class SqlLaws `{SqlSession} := {
  sqlBegin_stack s d D : sqlStack s = d :: D -> sqlStack (sqlBegin s) = d :: d :: D;
  sqlCommit_stack s d e D : sqlStack s = d :: e :: D -> sqlStack (sqlCommit s) = d :: D;
  sqlRollback_stack s d e D : sqlStack s = d :: e :: D -> sqlStack (sqlRollback s) = e :: D;
  sqlExec_stack f s d D : sqlStack s = d :: D -> sqlStack (sqlExec f s) = f d :: D }.

(** ** State *)

(** The mutable part of [TransactionFrameImpl]: the code of [mResult], the codes of the
    operations that were written since [resetResults], the [mSourceAccount] of the
    operations, whether [mOperations] was made, [mSigningAccount] and the validator. *)
Record TxState := mkTxState {
  mCode : TransactionResultCode;
  mOpCodes : gmap nat OperationResultCode;
  mSourceAccounts : gmap nat SigAccount;
  mOperationsMade : bool;
  mSigningAccount : option SigAccount;
  mValidator : Validator }.

Section frame.
Context `{LedgerExterns, SigExterns, SqlSession} (NDEBUG : bool).

(** [openTxs] are the [soci::transaction] objects that were neither committed nor rolled
    back. *)
Record TW := mkTW {
  dw : DW;
  session : Session;
  openTxs : gset nat;
  cur : TxState;
  meta : list (list LedgerEntryChange) }.

Definition set_dw d w := mkTW d (session w) (openTxs w) (cur w) (meta w).
Definition set_session s w := mkTW (dw w) s (openTxs w) (cur w) (meta w).
Definition set_openTxs o w := mkTW (dw w) (session w) o (cur w) (meta w).
Definition set_cur c w := mkTW (dw w) (session w) (openTxs w) c (meta w).
Definition set_meta m w := mkTW (dw w) (session w) (openTxs w) (cur w) m.

Definition set_code c (x : TxState) :=
  mkTxState c (mOpCodes x) (mSourceAccounts x) (mOperationsMade x) (mSigningAccount x) (mValidator x).
Definition set_opCode i c (x : TxState) :=
  mkTxState (mCode x) (<[i := c]> (mOpCodes x)) (mSourceAccounts x) (mOperationsMade x) (mSigningAccount x) (mValidator x).
Definition set_signing a (x : TxState) :=
  mkTxState (mCode x) (mOpCodes x) (mSourceAccounts x) (mOperationsMade x) a (mValidator x).
Definition set_sources m (x : TxState) :=
  mkTxState (mCode x) (mOpCodes x) m (mOperationsMade x) (mSigningAccount x) (mValidator x).
Definition set_validator v (x : TxState) :=
  mkTxState (mCode x) (mOpCodes x) (mSourceAccounts x) (mOperationsMade x) (mSigningAccount x) v.

Definition setCode (c : TransactionResultCode) : M TW () := modify (fun w => set_cur (set_code c (cur w)) w).
Definition setOpCode (i : nat) (c : OperationResultCode) : M TW () :=
  modify (fun w => set_cur (set_opCode i c (cur w)) w).

(** [mSourceAccount] of the operation [i] *)
Definition setSource (i : nat) (a : option SigAccount) : M TW () :=
  modify (fun w => set_cur (set_sources (partial_alter (fun _ => a) i (mSourceAccounts (cur w))) (cur w)) w).

Definition onDelta {A} (m : M DW A) : M TW A := fun w =>
  match m (dw w) with Ret a d => Ret a (set_dw d w) | Exn e d => Exn e (set_dw d w) end.

Definition onValidator {A} (m : M Validator A) : M TW A := fun w =>
  match m (mValidator (cur w)) with
  | Ret a v => Ret a (set_cur (set_validator v (cur w)) w)
  | Exn e v => Exn e (set_cur (set_validator v (cur w)) w)
  end.

Definition query : M TW TxDb := w ← get; deref (head (sqlStack (session w))).
Definition exec (f : TxDb -> TxDb) : M TW () := modify (fun w => set_session (sqlExec f (session w)) w).

(** A block with an object whose destructor is [dtor]. *)
Definition finally {W A : Type} (m : M W A) (dtor : M W ()) : M W A := fun w =>
  match m w with
  | Ret a w' => (dtor;; mret a) w'
  | Exn e w' => if fatal e then Exn e w' else (dtor;; throw e) w'
  end.

(** [try ... catch (...)] *)
Definition catchAll {A} (m : M TW A) (handler : M TW A) : M TW A := fun w =>
  match m w with
  | Ret a w' => Ret a w'
  | Exn e w' => if fatal e then Exn e w' else handler w'
  end.

(** ** [soci::transaction] *)

Definition newTransaction (a : nat) : M TW () :=
  modify (fun w => set_openTxs ({[a]} ∪ openTxs w) (set_session (sqlBegin (session w)) w)).

Definition commitTransaction (a : nat) : M TW () :=
  w ← get;
  if bool_decide (a ∈ openTxs w)
  then modify (fun w => set_openTxs (openTxs w ∖ {[a]}) (set_session (sqlCommit (session w)) w))
  else throw (RuntimeError "The transaction object cannot be handled twice."%string).

Definition rollbackTransaction (a : nat) : M TW () :=
  w ← get;
  if bool_decide (a ∈ openTxs w)
  then modify (fun w => set_openTxs (openTxs w ∖ {[a]}) (set_session (sqlRollback (session w)) w))
  else throw (RuntimeError "The transaction object cannot be handled twice."%string).

Definition destroyTransaction (a : nat) : M TW () :=
  w ← get; if bool_decide (a ∈ openTxs w) then rollbackTransaction a else mret ().

(** ** [StorageHelperImpl]

    [mTransaction] is the transaction at [shTx]; it is null when that is not open. *)
Record StorageHelper := mkStorageHelper {
  shDelta : option nat;
  shTx : nat;
  mIsReleased : bool }.

Definition newStorageHelper (ledgerDelta : option nat) (a : nat) : M TW StorageHelper :=
  newTransaction a;; mret (mkStorageHelper ledgerDelta a false).

Definition destroyStorageHelper (sh : StorageHelper) : M TW () := destroyTransaction (shTx sh).

Definition shCommit (sh : StorageHelper) : M TW () :=
  if mIsReleased sh then throw (RuntimeError "Cannot commit a released StorageHelper."%string)
  else
    (match shDelta sh with Some a => onDelta (commit NDEBUG a) | None => mret () end);;
    w ← get;
    if bool_decide (shTx sh ∈ openTxs w) then commitTransaction (shTx sh) else mret ().

Definition shRollback (sh : StorageHelper) : M TW () :=
  if mIsReleased sh then throw (RuntimeError "Cannot rollback a released StorageHelper."%string)
  else
    (match shDelta sh with Some a => onDelta (rollback a) | None => mret () end);;
    w ← get;
    if bool_decide (shTx sh ∈ openTxs w) then rollbackTransaction (shTx sh) else mret ().

Definition shRelease (sh : StorageHelper) : M TW StorageHelper :=
  w ← get;
  (if bool_decide (shTx sh ∈ openTxs w) then rollbackTransaction (shTx sh) else mret ());;
  mret (mkStorageHelper (shDelta sh) (shTx sh) true).

(** ** The application, transactions and operations *)

(** [appVersion], [appCloseTime] and [txExpirationPeriod] are those of the header of the current
    ledger.  [asAccount] is the account an entry holds, [hasPermission] asks the tables of roles
    and permissions, [loadOpFee] is [FeeHelper::loadForAccount] for the fees of
    operations and [asKeyValueString] the string an entry of [KeyValueEntry] holds, if it is one.  [balanceOf] reads the
    balance of an identifier from the bytes of its entry, [balanceBody] writes it into them; [balanceStrKey] is
    [BalanceKeyUtils::toStrKey] and [balanceForAccount] [BalanceKeyUtils::forAccount]. *)
Record App := mkApp {
  appSkipSigCheck : list Bytes;
  TX_INTERNAL_ERROR : list Bytes;
  appMasterID : AccountID;
  appVersion : Z;
  appLedgerSeq : Z;
  appCloseTime : Z;
  txExpirationPeriod : Z;
  isCheckingPolicies : bool;
  ADD_TRANSACTION_FEE : Z;
  DETAILED_LEDGER_CHANGES : Z;
  AnyBlockReason : Z;
  READER : Z;
  AllAccountTypes : list AccountType;
  defaultAccountType : AccountType;
  asAccount : LedgerEntry -> SigAccount;
  hasPermission : SigAccount -> Z -> bool;
  transactionFeeAssetKey : Bytes;
  asKeyValueString : LedgerEntry -> option Bytes;
  loadOpFee : gmap LedgerId LedgerEntry -> Bytes -> Z -> option SigAccount -> option Z;
  appCommissionID : AccountID;
  balanceOf : BalanceID -> Bytes -> Balance;
  balanceBody : Balance -> Bytes -> Bytes;
  balanceStrKey : BalanceID -> Bytes;
  balanceForAccount : AccountID -> Z -> BalanceID }.

Record Counterparty := mkCounterparty {
  mAllowedAccountTypes : list AccountType;
  mIsBlockedAllowed : bool;
  mIsMustExists : bool }.

Record OperationFrame := mkOperationFrame {
  opSourceAccount : option AccountID;
  opType : Z;
  isAllowed : bool;
  opPaidFee : Z;
  getCounterpartyDetails : option nat -> M TW (list (AccountID * Counterparty));
  getSourceAccountDetails : SigAccount -> list (AccountID * Counterparty) -> M TW SourceDetails;
  doCheckValid : option SigAccount -> M TW bool;
  doApply : option SigAccount -> nat -> M TW bool }.

(** A transaction: its envelope, its contents hash, and an operation frame for each
    operation, as [makeHelper] makes them. *)
Record Tx := mkTx {
  txSource : AccountID;
  txHash : Bytes;
  minTime : Z;
  maxTime : Z;
  maxTotalFee : option Z;
  txSignatures : list DecoratedSignature;
  txOperations : list OperationFrame }.

(** [TransactionFrameImpl::TransactionFrameImpl]; [mResult] is [0] of the union, a success. *)
Definition newTx (tx : Tx) : TxState :=
  mkTxState txSUCCESS ∅ ∅ false None (newValidator (txHash tx) (txSignatures tx)).

Section application.
Context (app : App).

Definition accountId (id : AccountID) : LedgerId := idOf (KAccount id).

Definition sigEnv (d : TxDb) : SigEnv :=
  mkSigEnv (appSkipSigCheck app) (appMasterID app) (appVersion app)
    (fun id => asAccount app <$> entries d !! accountId id).

(** [AccountHelper::loadAccount], which records what it loads in a delta. *)
Definition loadFromDb (delta : option nat) (id : AccountID) : M TW (option SigAccount) :=
  d ← query;
  match entries d !! accountId id with
  | None => mret None
  | Some e =>
      (match delta with Some a => onDelta (recordEntry a e) | None => mret () end);;
      mret (Some (asAccount app e))
  end.

(** [TransactionFrameImpl::loadAccount(delta, db, accountID)] *)
Definition loadAccountOf (delta : option nat) (id : AccountID) : M TW (option SigAccount) :=
  w ← get;
  match mSigningAccount (cur w) with
  | Some a => if bool_decide (sigID a = id) then mret (Some a) else loadFromDb delta id
  | None => loadFromDb delta id
  end.

(** [TransactionFrameImpl::loadAccount(delta, db)] *)
Definition loadSigningAccount (delta : option nat) (tx : Tx) : M TW bool :=
  a ← loadAccountOf delta (txSource tx);
  modify (fun w => set_cur (set_signing a (cur w)) w);;
  mret (bool_decide (a <> None)).

(** [AccountFrame::getLowThreshold] *)
Definition getLowThreshold (a : SigAccount) : Z := nth 1 (thresholds a) 0.

Definition unexpected (s : string) : exn := RuntimeError s.

(** [TransactionFrameImpl::doCheckSignature] *)
Definition txDetails (signing : SigAccount) : SourceDetails :=
  mkSourceDetails (AllAccountTypes app) [] (getLowThreshold signing)
    (Z.lxor getAnySignerType (READER app)) (AnyBlockReason app).

Definition doCheckSignature (account : SigAccount) : M TW bool :=
  w ← get;
  signing ← deref (mSigningAccount (cur w));
  d ← query;
  r ← onValidator (check NDEBUG (sigEnv d) account (txDetails signing));
  match r with
  | SUCCESS => mret true
  | INVALID_ACCOUNT_TYPE => throw (unexpected "Did not expect INVALID_ACCOUNT_TYPE error for tx"%string)
  | NOT_ENOUGH_WEIGHT => setCode txBAD_AUTH;; mret false
  | EXTRA | INVALID_SIGNER_TYPE => setCode txBAD_AUTH_EXTRA;; mret false
  | ACCOUNT_BLOCKED => setCode txACCOUNT_BLOCKED;; mret false
  end.

Definition mOperations (tx : Tx) (x : TxState) : list OperationFrame :=
  if mOperationsMade x then txOperations tx else [].

Definition commonValid (delta : option nat) (tx : Tx) : M TW bool :=
  w ← get;
  if Nat.eqb (length (mOperations tx (cur w))) 0 then setCode txMISSING_OPERATION;; mret false
  else if appCloseTime app <? minTime tx then setCode txTOO_EARLY;; mret false
  else if (maxTime tx <? appCloseTime app) || (txExpirationPeriod app <? maxTime tx - appCloseTime app)
  then setCode txTOO_LATE;; mret false
  else
    ok ← loadSigningAccount delta tx;
    if negb ok then setCode txNO_ACCOUNT;; mret false
    else
      w ← get;
      account ← deref (mSigningAccount (cur w));
      ok ← doCheckSignature account;
      if negb ok then mret false else mret true.

(** [TransactionFrameImpl::resetSignatureTracker] *)
Definition txResetSignatureTracker : M TW () :=
  modify (fun w => set_cur (set_validator (resetSignatureTracker (mValidator (cur w))) (set_signing None (cur w))) w).

(** [TransactionFrameImpl::checkAllSignaturesUsed] *)
Definition txCheckAllSignaturesUsed : M TW bool :=
  w ← get;
  if checkAllSignaturesUsed (mValidator (cur w)) then mret true
  else setCode txBAD_AUTH_EXTRA;; mret false.

(** [resetResults]: a success, with an operation frame for each operation. *)
Definition resetResults : M TW () :=
  modify (fun w => set_cur (mkTxState txSUCCESS ∅ ∅ true (mSigningAccount (cur w)) (mValidator (cur w))) w).

Definition processSeqNum : M TW () := txResetSignatureTracker;; resetResults.

(** [getPaidFee]: the fee of a transaction, zero when the sum is negative on the
    way. *)
Fixpoint paidFee (fee : Z) (ops : list OperationFrame) : Z :=
  match ops with
  | [] => fee
  | op :: ops' => if s64 (fee + opPaidFee op) <? 0 then 0 else paidFee (s64 (fee + opPaidFee op)) ops'
  end.

Definition getPaidFee (tx : Tx) (x : TxState) : Z := paidFee 0 (mOperations tx x).

(** [markResultFailed]: the code, the results of the operations stay. *)
Definition markResultFailed : M TW () := setCode txFAILED.

(** ** [OperationFrame] *)

(** [checkCounterparties] *)
Fixpoint checkCounterparties (i : nat) (cs : list (AccountID * Counterparty)) : M TW bool :=
  match cs with
  | [] => mret true
  | (id, c) :: cs' =>
      a ← loadFromDb None id;
      match a with
      | None =>
          if negb (mIsMustExists c) then checkCounterparties i cs'
          else setOpCode i opNO_COUNTERPARTY;; mret false
      | Some a =>
          if negb (mIsBlockedAllowed c) && (0 <? blockReasons a)
          then setOpCode i opCOUNTERPARTY_BLOCKED;; mret false
          else if negb (bool_decide (sigType a ∈ mAllowedAccountTypes c))
          then setOpCode i opCOUNTERPARTY_WRONG_TYPE;; mret false
          else checkCounterparties i cs'
      end
  end.

(** [checkRolePermissions] *)
Definition checkRolePermissions (op : OperationFrame) (source : SigAccount) : bool :=
  if negb (isCheckingPolicies app) || bool_decide (sigID source = appMasterID app) then true
  else hasPermission app source (opType op).

(** [OperationFrame::doCheckSignature] *)
Definition opDoCheckSignature (i : nat) (source : SigAccount) (sd : SourceDetails) : M TW bool :=
  d ← query;
  r ← onValidator (check NDEBUG (sigEnv d) source sd);
  match r with
  | SUCCESS => mret true
  | INVALID_ACCOUNT_TYPE | INVALID_SIGNER_TYPE => setOpCode i opNOT_ALLOWED;; mret false
  | NOT_ENOUGH_WEIGHT => setOpCode i opBAD_AUTH;; mret false
  | ACCOUNT_BLOCKED => setOpCode i opACCOUNT_BLOCKED;; mret false
  | EXTRA => setOpCode i opBAD_AUTH_EXTRA;; mret false
  end.

(** [AccountFrame::makeAuthOnlyAccount]: a weight of one for its key, and the default of all else. *)
Definition makeAuthOnlyAccount (id : AccountID) : SigAccount :=
  mkSigAccount id 0%N (defaultAccountType app) [1; 0; 0; 0] [] 0.

(** [OperationFrame::checkValid]: for applying when there is a delta. *)
Definition opCheckValid (tx : Tx) (i : nat) (op : OperationFrame) (delta : option nat) : M TW bool :=
  if negb (isAllowed op) then setOpCode i opNOT_ALLOWED;; mret false
  else
    a ← loadAccountOf delta (default (txSource tx) (opSourceAccount op));
    setSource i a;;
    match a, opSourceAccount op, delta with
    | None, None, _ | None, _, Some _ => setOpCode i opNO_ACCOUNT;; mret false
    | _, _, _ =>
        let source := match a with
                      | Some a => a
                      | None => makeAuthOnlyAccount (default (txSource tx) (opSourceAccount op))
                      end in
        setSource i (Some source);;
        cs ← getCounterpartyDetails op delta;
        ok ← checkCounterparties i cs;
        if negb ok then mret false
        else if (REPLACE_ACCOUNT_TYPES_WITH_POLICIES <=? appVersion app) && negb (checkRolePermissions op source)
        then setOpCode i opNO_ROLE_PERMISSION;; mret false
        else
          sd ← getSourceAccountDetails op source cs;
          ok ← opDoCheckSignature i source sd;
          if negb ok then mret false
          else
            (match delta with Some _ => mret () | None => setSource i None end);;
            setOpCode i opINNER;;
            w ← get;
            doCheckValid op (mSourceAccounts (cur w) !! i)
    end.

(** [OperationFrame::apply] *)
Definition opApply (tx : Tx) (i : nat) (op : OperationFrame) (sh : StorageHelper) : M TW bool :=
  match shDelta sh with
  | None => mret false
  | Some a =>
      ok ← opCheckValid tx i op (Some a);
      if negb ok then mret false
      else w ← get; doApply op (mSourceAccounts (cur w) !! i) a
  end.

(** [TransactionFrameImpl::checkValid] *)
Fixpoint checkOperations (tx : Tx) (i : nat) (ops : list OperationFrame) : M TW bool :=
  match ops with
  | [] => mret true
  | op :: ops' =>
      ok ← opCheckValid tx i op None;
      if negb ok then markResultFailed;; mret false else checkOperations tx (S i) ops'
  end.

Definition checkValid (tx : Tx) : M TW bool :=
  txResetSignatureTracker;;
  resetResults;;
  ok ← commonValid None tx;
  if negb ok then mret false
  else
    w ← get;
    ok ← checkOperations tx 0 (mOperations tx (cur w));
    if negb ok then mret false
    else
      ok ← txCheckAllSignaturesUsed;
      if negb ok then mret false
      else
        d ← query;
        if bool_decide (txtiming (tables d) !! txHash tx <> None)
        then setCode txDUPLICATION;; mret false
        else mret true.

(** ** Applying a transaction *)

(** [tryGetTxFeeAsset] *)
Definition tryGetTxFeeAsset (entries : gmap LedgerId LedgerEntry) : exn + option Bytes :=
  match entries !! idOf (KKeyValue (transactionFeeAssetKey app)) with
  | None => inr None
  | Some e =>
      match asKeyValueString app e with
      | None => inl (unexpected "Unexpected database state, expected issuance tasks to be STRING"%string)
      | Some code =>
          if isAssetCodeValid code then inr (Some code) else inl (unexpected "Tx fee asset code is invalid"%string)
      end
  end.

(** The loop of [processTxFee]: [feesForOpTypes] remembers the fees that were loaded. *)
Fixpoint totalFee (entries : gmap LedgerId LedgerEntry) (asset : Bytes) (source : option SigAccount)
    (feesForOpTypes : gmap Z Z) (total : Z) (ops : list OperationFrame) : exn + Z :=
  match ops with
  | [] => inr total
  | op :: ops' =>
      let fee := match feesForOpTypes !! opType op with
                 | Some fee => fee
                 | None => u64 (default 0 (loadOpFee app entries asset (opType op) source))
                 end in
      match safeSum fee total with
      | (true, total') => totalFee entries asset source (<[opType op := fee]> feesForOpTypes) total' ops'
      | (false, _) => inl (RuntimeError "Overflow on tx fee calculation. Failed to add operation fee"%string)
      end
  end.

(** *** Balances

    A frame of a balance is what it holds and the entry it was made from. *)

Definition asBalance (e : LedgerEntry) : option Balance :=
  match data e with KBalance id => Some (balanceOf app id (body e)) | _ => None end.

Definition balanceEntry (seq : Z) (b : Balance) (old : LedgerEntry) : LedgerEntry :=
  mkEntry seq (KBalance (balanceID b)) (balanceBody app b (body old)).

(** The row of [SELECT ... WHERE account_id = :aid AND asset = :as ORDER BY balance_id DESC LIMIT 1]. *)
Definition ownBalance (account : AccountID) (asset : Bytes) (p : LedgerId * LedgerEntry) : option (Balance * LedgerEntry) :=
  match asBalance p.2 with
  | Some b => if decide (balanceAccount b = account /\ balanceAsset b = asset) then Some (b, p.2) else None
  | None => None
  end.

Definition selectBalance (account : AccountID) (asset : Bytes) (entries : gmap LedgerId LedgerEntry) :
    option (Balance * LedgerEntry) :=
  foldr (fun x acc =>
    match acc with
    | None => Some x
    | Some y => if bytes_leb (balanceStrKey app (balanceID x.1)) (balanceStrKey app (balanceID y.1)) then Some y else Some x
    end) None (omap (ownBalance account asset) (map_to_list entries)).

(** [BalanceHelperLegacy::loadBalance(account, asset, db, delta)] *)
Definition loadBalance (delta : nat) (account : AccountID) (asset : Bytes) : M TW (option (Balance * LedgerEntry)) :=
  d ← query;
  match selectBalance account asset (entries d) with
  | None => mret None
  | Some x => onDelta (recordEntry delta x.2);; mret (Some x)
  end.

Definition couldNotUpdate : exn := RuntimeError "could not update SQL"%string.

(** [BalanceHelperLegacy::storeUpdateHelper]: the entry is touched, written to its row and to the delta. *)
Definition storeBalance (delta : nat) (insert : bool) (b : Balance) (old : LedgerEntry) : M TW () :=
  d ← onDelta (theDelta delta);
  let seq := if mUpdateLastModified d then ledgerSeq (mCurrentHeader d) else lastModifiedLedgerSeq old in
  let e := balanceEntry seq b old in
  if negb (isBalanceValid b) then throw (unexpected "Invalid balance"%string)
  else
    db ← query;
    match insert, entries db !! idOf (data e) with
    | true, None =>
        exec (fun d => mkTxDb (<[idOf (data e) := e]> (entries d)) (tables d));; onDelta (addEntry NDEBUG delta e)
    | false, Some _ =>
        exec (fun d => mkTxDb (<[idOf (data e) := e]> (entries d)) (tables d));; onDelta (modEntry NDEBUG delta e)
    | _, _ => throw couldNotUpdate
    end.

(** [delta.getHeaderFrame().generateID] *)
Definition generateIn (delta : nat) (t : LedgerEntryType) : M TW Z :=
  d ← onDelta (theDelta delta);
  onDelta (editHeader delta (fun h => (generateID t h).2));;
  mret (generateID t (mCurrentHeader d)).1.

(** [AccountManager::loadOrCreateBalanceFrameForAsset] *)
Definition loadOrCreateBalanceFrame (delta : nat) (account : AccountID) (asset : Bytes) : M TW (Balance * LedgerEntry) :=
  x ← loadBalance delta account asset;
  match x with
  | Some x => mret x
  | None =>
      d ← query;
      if bool_decide (entries d !! idOf (KAsset asset) = None)
      then throw (unexpected "Unexpected db state: expected asset to exist"%string)
      else
        i ← generateIn delta BALANCE;
        let b := createNewBalance (balanceForAccount app account i) account asset in
        let e := balanceEntry 0 b (mkEntry 0 (KBalance (balanceID b)) []) in
        storeBalance delta true b e;;
        mret (b, e)
  end.

(** The end of [processTxFee]: the code when it returns false. *)
Definition chargeTxFee (delta : nat) (asset : Bytes) (source : AccountID) (total : Z) :
    M TW (option TransactionResultCode) :=
  sourceBalance ← loadBalance delta source asset;
  match sourceBalance with
  | None => mret (Some txSOURCE_UNDERFUNDED)
  | Some (sourceBalance, sourceEntry) =>
      c ← loadOrCreateBalanceFrame delta (appCommissionID app) asset;
      let '(commissionBalance, commissionEntry) := c in
      let (ok, sourceBalance) := tryCharge total sourceBalance in
      if negb ok then mret (Some txSOURCE_UNDERFUNDED)
      else
        storeBalance delta false sourceBalance sourceEntry;;
        let (ok, commissionBalance) := tryFundAccount total commissionBalance in
        if negb ok then mret (Some txCOMMISSION_LINE_FULL)
        else
          storeBalance delta false commissionBalance commissionEntry;;
          mret None
  end.

Definition processTxFee (tx : Tx) (delta : nat) : M TW bool :=
  if appVersion app <? ADD_TRANSACTION_FEE app then mret true
  else
    w ← get;
    source ← deref (mSigningAccount (cur w));
    if bool_decide (sigType source = MASTER) then mret true
    else
      d ← query;
      asset ← lift (tryGetTxFeeAsset (entries d));
      match asset with
      | None => mret true
      | Some asset =>
          total ← lift (totalFee (entries d) asset (mSigningAccount (cur w)) ∅ 0 (mOperations tx (cur w)));
          if default UINT64_MAX (maxTotalFee tx) <? total then setCode txINSUFFICIENT_FEE;; mret false
          else
            r ← chargeTxFee delta asset (txSource tx) total;
            match r with
            | Some c => setCode c;; mret false
            | None => mret true
            end
      end.

(** One turn of the loop of [applyTx]: [thisTxDelta] is at [a], [opDelta] above it. *)
Definition applyOperation (tx : Tx) (a i : nat) (op : OperationFrame) : M TW bool :=
  onDelta (newNested (S a) a);;
  finally
    (sh ← newStorageHelper (Some (S a)) (S (S a));
     finally
       (txRes ← opApply tx i op sh;
        d ← onDelta (theDelta (S a));
        modify (fun w => set_meta (meta w ++
          [if DETAILED_LEDGER_CHANGES app <=? appVersion app then getAllChanges d else getChanges d]) w);;
        shCommit sh;;
        mret (txRes : bool))
       (destroyStorageHelper sh))
    (onDelta (destroy (S a))).

Fixpoint applyOperations (tx : Tx) (a i : nat) (ops : list OperationFrame) (errorEncountered : bool) : M TW bool :=
  match ops with
  | [] => mret errorEncountered
  | op :: ops' =>
      ok ← applyOperation tx a i op;
      applyOperations tx a (S i) ops' (errorEncountered || negb ok)
  end.

(** The block of [applyTx], with [thisTxDelta] at [a] and [sqlTx] at the next address: [None] is a return out of it,
    otherwise [errorEncountered]. *)
Definition applyInside (tx : Tx) (a : nat) : M TW (option bool) :=
  if bool_decide (txHash tx ∈ TX_INTERNAL_ERROR app)
  then throw (RuntimeError "Throwing exception to have consistent blockchain"%string)
  else
    ok ← processTxFee tx a;
    if negb ok then modify (set_meta []);; mret None
    else
      w ← get;
      errorEncountered ← applyOperations tx a 0 (mOperations tx (cur w)) false;
      if negb errorEncountered then
        ok ← txCheckAllSignaturesUsed;
        if negb ok then mret None
        else
          commitTransaction (S a);;
          onDelta (commit NDEBUG a);;
          mret (Some false)
      else mret (Some true).

(** [applyTx]: [delta] is at [a]. *)
Definition applyTx (tx : Tx) (a : nat) : M TW bool :=
  txResetSignatureTracker;;
  ok ← commonValid (Some a) tx;
  if negb ok then mret false
  else
    newTransaction (S (S a));;
    r ← finally
      (onDelta (newNested (S a) a);;
       finally (applyInside tx (S a)) (onDelta (destroy (S a))))
      (destroyTransaction (S (S a)));
    match r with
    | None => mret false
    | Some true => modify (set_meta []);; markResultFailed;; mret false
    | Some false => mret true
    end.

(** [apply] logs and throws on. *)
Definition apply (tx : Tx) (a : nat) : M TW bool := applyTx tx a.

(** ** The ledger manager *)

Definition sqlError : exn := RuntimeError "Could not update data in SQL"%string.

Definition onTables (f : Tables -> Tables) : M TW () := exec (fun d => mkTxDb (entries d) (f (tables d))).

Definition storeTransaction (tx : Tx) (index : Z) : M TW TransactionResultCode :=
  d ← query;
  w ← get;
  match txhistory (tables d) !! (appLedgerSeq app, index) with
  | Some _ => throw sqlError
  | None =>
      onTables (fun t => mkTables
        (<[(appLedgerSeq app, index) := mkTxRow (txHash tx) (mCode (cur w)) (meta w)]> (txhistory t))
        (txfeehistory t) (txtiming t) (ledgerTables t));;
      mret (mCode (cur w))
  end.

Definition storeTransactionFee (tx : Tx) (changes : list LedgerEntryChange) (index : Z) : M TW () :=
  d ← query;
  match txfeehistory (tables d) !! (appLedgerSeq app, index) with
  | Some _ => throw sqlError
  | None => onTables (fun t => mkTables (txhistory t)
      (<[(appLedgerSeq app, index) := (txHash tx, changes)]> (txfeehistory t)) (txtiming t) (ledgerTables t))
  end.

Definition storeTransactionTiming (tx : Tx) : M TW () :=
  d ← query;
  match txtiming (tables d) !! txHash tx with
  | Some _ => throw sqlError
  | None => onTables (fun t => mkTables (txhistory t) (txfeehistory t)
      (<[txHash tx := maxTime tx]> (txtiming t)) (ledgerTables t))
  end.

(** [TransactionFrame::deleteOldEntries] *)
Definition deleteOldEntries (seq closeTime : Z) : M TW () :=
  onTables (fun t => mkTables (filter (fun p => seq < p.1.1) (txhistory t))
    (filter (fun p => seq < p.1.1) (txfeehistory t)) (filter (fun p => closeTime <= p.2) (txtiming t))
    (ledgerTables t)).

(** The frames of a set are objects of their own: [cur] is the one of the turn, and
    the frames come back with what was done to them. *)
Definition withFrame {A} (x : TxState) (m : M TW A) : M TW (A * TxState) :=
  modify (set_cur x);; r ← m; w ← get; mret (r, cur w).

(** [processFeesSeqNums]: the delta of the ledger is at [a]. *)
Fixpoint processEach (a : nat) (index : Z) (txs : list (Tx * TxState)) : M TW (list (Tx * TxState)) :=
  match txs with
  | [] => mret []
  | (tx, x) :: txs' =>
      onDelta (newNested (S a) a);;
      r ← finally
        (d ← onDelta (theDelta (S a));
         storeTransactionFee tx (getChanges d) (index + 1);;
         r ← withFrame x processSeqNum;
         storeTransactionTiming tx;;
         onDelta (commit NDEBUG (S a));;
         mret r)
        (onDelta (destroy (S a)));
      rest ← processEach a (index + 1) txs';
      mret ((tx, r.2) :: rest)
  end.

Definition processFeesSeqNums (a : nat) (txs : list (Tx * TxState)) : M TW (list (Tx * TxState)) :=
  newTransaction (S a);;
  finally (r ← processEach a 0 txs; commitTransaction (S a);; mret r) (destroyTransaction (S a)).

Definition assertTx (b : bool) : M TW () := if NDEBUG || b then mret () else throw DbgAbort.

(** The [try] of [applyTransactions]. *)
Definition tryApply (tx : Tx) (a : nat) : M TW () :=
  catchAll
    (ok ← apply tx (S a);
     if (ok : bool) then onDelta (commit NDEBUG (S a))
     else
       d ← onDelta (theDelta (S a));
       o ← onDelta (theDelta a);
       assertTx (Nat.eqb (length (getChanges d)) 0);;
       assertTx (bool_decide (mCurrentHeader d = mCurrentHeader o)))
    (setCode txINTERNAL_ERROR).

(** [applyTransactions]: the codes of [txResultSet]. *)
Fixpoint applyTransactions (a : nat) (index : Z) (txs : list (Tx * TxState)) : M TW (list TransactionResultCode) :=
  match txs with
  | [] => mret []
  | (tx, x) :: txs' =>
      onDelta (newNested (S a) a);;
      c ← finally
        (modify (set_meta []);;
         r ← withFrame x (tryApply tx a;; storeTransaction tx (index + 1));
         mret r.1)
        (onDelta (destroy (S a)));
      cs ← applyTransactions a (index + 1) txs';
      mret (c :: cs)
  end.

End application.
End frame.
