(* ===== verification/TxTheorems.v ===== *)
(** * Theorems on the frame of a transaction *)

From Stdlib Require Import ZArith Lia String.
From stdpp Require Import base tactics gmap option list.
From S2P Require Import Prelude ScpTypes LedgerTypes LedgerDelta LedgerDeltaFacts LedgerDeltaTheorems.
From S2P Require Import UtilTypes Balance Offer CreateOffer AccountManager Signatures TxFrame.

Open Scope Z_scope.

(** ** Scopes, one call at a time *)

Section scopes.
Context `{LedgerExterns} {NDEBUG : bool}.

Lemma newNested_scope w a t s : refines w (S a) (t :: s) ->
  exists w' d, newNested (S a) a w = Ret () w' /\ refines w' (S (S a)) (t :: t :: s) /\
    w' = putDelta (S a) d w /\ mNew d = ∅ /\ mMod d = ∅ /\ mDelete d = ∅.
Proof.
  intros Hr. destruct t as [L h]. destruct (begin_refines (NDEBUG := NDEBUG) _ _ _ _ _ Hr) as (w1 & E & Hr1).
  unfold impl_step, newNested in *. destruct (refines_uncons _ _ _ _ Hr) as (d & o & Hd & _ & _ & _).
  unfold mbind at 1, M_bind at 1 in E. rewrite (theDelta_bind _ _ d) in E by done.
  injection E as <-.
  eexists _, _. rewrite (theDelta_bind _ _ d) by done. split; [done|]. split; [idtac|by split_and!]. exact Hr1.
Qed.

(** A commit, and the destructor of the delta later. *)
Lemma commit_scope w a t o s : refines w (S (S a)) (t :: o :: s) ->
  exists w1 w2, commit NDEBUG (S a) w = Ret () w1 /\ destroy (S a) w1 = Ret () w2 /\
    refines w2 (S a) (t :: s) /\ forall b, (b < a)%nat -> deltas w2 !! b = deltas w !! b.
Proof.
  intros (d & o' & Hl & [= <-] & (Hh & Ho & Hc & Hp & Hv) & Hr)%refines_uncons.
  assert (Hw := Hv). destruct Hw as (Hw & He & _).
  apply refines_uncons in Hr as (da & o' & Hla & Hs & (Hha & Hoa & Hca & Hpa & Hva) & Hr).
  assert (Hopen : open_at w a da) by (split; [done|congruence]).
  destruct (commit_nested (NDEBUG := NDEBUG) (ok := legacy) a (S a) w da d o'.1 o.1)
    as (da' & db' & (F1 & F2 & F3 & F4 & F5) & Hv' & Hnone & E); try done; [congruence|].
  eexists _, _. split; [exact E|]. erewrite destroy_closed; [|apply putDelta_lookup|done]. split; [done|].
  split.
  - apply refines_drop, refines_below.
    eapply refines_cons; [apply putDelta_lookup|done| |by apply refines_below].
    unfold scope_rel; simpl. rewrite F1, F2, F4. rewrite He in Hv'. by destruct Hv'.
  - intros b Hb. simpl. rewrite lookup_delete_ne, !lookup_insert_ne by lia. done.
Qed.

Lemma abort_scope w a t o s : refines w (S a) (t :: o :: s) ->
  exists w', destroy a w = Ret () w' /\ refines w' a (o :: s) /\
    forall b, (b < a)%nat -> deltas w' !! b = deltas w !! b.
Proof.
  intros (d & o' & Hl & [= <-] & (Hh & Ho & Hc & Hp & Hv) & Hr)%refines_uncons.
  destruct (destroy_open a w d o.1 t.1) as [c E]; [by split; [|congruence]|done|].
  eexists. split; [exact E|]. split.
  - apply refines_drop. apply (refines_frame (putDelta a (set_mHeader None d) w)); try done. by apply refines_below.
  - intros b Hb. simpl. rewrite lookup_delete_ne, lookup_insert_ne by lia. done.
Qed.

Lemma record_scope w a e t s : refines w (S a) (t :: s) ->
  exists w', recordEntry a e w = Ret () w' /\ refines w' (S a) (t :: s) /\
    (forall b, b <> a -> deltas w' !! b = deltas w !! b) /\
    (forall d, deltas w !! a = Some d -> mNew d = ∅ -> mMod d = ∅ -> mDelete d = ∅ ->
     exists d', deltas w' !! a = Some d' /\ mNew d' = ∅ /\ mMod d' = ∅ /\ mDelete d' = ∅).
Proof.
  intros (d & o & Hl & Hs & (Hh & Ho & Hc & Hp & Hv) & Hr)%refines_uncons.
  assert (Hop : open_at w a d) by (split; [done|congruence]).
  destruct (views_record (ok := legacy) e d o.1 t.1 Hv) as [Hv' (F1 & F2 & F3 & F4 & F5)].
  eexists. split; [by apply recordEntry_run|]. split_and!.
  - eapply refines_cons; [apply putDelta_lookup|done| |by apply refines_below].
    unfold scope_rel. rewrite F1, F2, F3, F4. by destruct Hv'.
  - intros b Hb. simpl. by rewrite lookup_insert_ne.
  - intros ? Hd E1 E2 E3. simplify_eq. exists (d_record e d). simpl. rewrite lookup_insert_eq.
    by unfold d_record.
Qed.

Lemma add_scope w a e t s : legacy (idOf (data e)) -> t.1 !! idOf (data e) = None -> refines w (S a) (t :: s) ->
  exists w', addEntry NDEBUG a e w = Ret () w' /\ refines w' (S a) ((<[idOf (data e) := e]> t.1, t.2) :: s) /\
    forall b, b <> a -> deltas w' !! b = deltas w !! b.
Proof.
  intros Hok Hn (d & o & Hl & Hs & (Hh & Ho & Hc & Hp & Hv) & Hr)%refines_uncons.
  assert (Hop : open_at w a d) by (split; [done|congruence]).
  destruct (addEntry_updates (NDEBUG := NDEBUG) (ok := legacy) a e w d o.1 t.1 Hok Hop Hv Hn)
    as (d' & E & (F1 & F2 & F3 & F4 & F5) & Hv').
  eexists. split; [exact E|]. split.
  - eapply refines_cons; [apply putDelta_lookup|done| |by apply refines_below].
    unfold scope_rel. rewrite F1, F2, F3, F4. by destruct Hv'.
  - intros b Hb. simpl. by rewrite lookup_insert_ne.
Qed.

Lemma mod_scope w a e t s : legacy (idOf (data e)) -> is_Some (t.1 !! idOf (data e)) -> refines w (S a) (t :: s) ->
  exists w', modEntry NDEBUG a e w = Ret () w' /\ refines w' (S a) ((<[idOf (data e) := e]> t.1, t.2) :: s) /\
    forall b, b <> a -> deltas w' !! b = deltas w !! b.
Proof.
  intros Hok Hn (d & o & Hl & Hs & (Hh & Ho & Hc & Hp & Hv) & Hr)%refines_uncons.
  assert (Hop : open_at w a d) by (split; [done|congruence]).
  destruct (modEntry_updates (NDEBUG := NDEBUG) (ok := legacy) a e w d o.1 t.1 Hok Hop Hv Hn)
    as (d' & E & (F1 & F2 & F3 & F4 & F5) & Hv').
  eexists. split; [exact E|]. split.
  - eapply refines_cons; [apply putDelta_lookup|done| |by apply refines_below].
    unfold scope_rel. rewrite F1, F2, F3, F4. by destruct Hv'.
  - intros b Hb. simpl. by rewrite lookup_insert_ne.
Qed.

End scopes.

(** ** What is inside of a scope *)

Section frame.
Context `{LedgerExterns, SigExterns, SqlLaws} {NDEBUG : bool}.

(** What the ledgers have in common, as the operations keep it. *)
Context (Inv : Scope -> Prop).

(** The innermost delta is at [a], its scope is [t], and the database shows the same
    entries; [s] and [D] are the enclosing scopes and transactions. *)
Record inside (w : TW) (a : nat) (t : Scope) (s : list Scope) (T : Tables) (D : list TxDb) (O : gset nat) : Prop := {
  in_refines : refines (dw w) (S a) (t :: s);
  in_sql : sqlStack (session w) = mkTxDb t.1 T :: D;
  in_open : openTxs w = O;
  in_fresh : forall x, x ∈ O -> (x <= S a)%nat;
  in_inv : Inv t }.

(** The members of the frame that only the frame itself sets, and the enclosing
    deltas. *)
Definition keep (a : nat) (w w' : TW) : Prop :=
  mOperationsMade (cur w') = mOperationsMade (cur w) /\
  sameSigned (mValidator (cur w)) (mValidator (cur w')) /\
  forall b, (b < a)%nat -> deltas (dw w') !! b = deltas (dw w) !! b.

(** The code of the result and the metadata. *)
Definition silent (w w' : TW) : Prop := mCode (cur w') = mCode (cur w) /\ meta w' = meta w.

Definition stays {A : Type} (a : nat) (m : M TW A) (Q : Scope -> A -> Scope -> Prop) : Prop :=
  forall w t s T D O, inside w a t s T D O ->
  match m w with
  | Ret x w' => exists t', inside w' a t' s T D O /\ keep a w w' /\ silent w w' /\ Q t x t'
  | Exn e w' => fatal e = false /\ exists t', inside w' a t' s T D O /\ keep a w w'
  end.

(** The ledger stays as it is. *)
Definition same {A : Type} (t : Scope) (_ : A) (t' : Scope) : Prop := t' = t.

Lemma keep_refl a w : keep a w w.
Proof. by split_and!. Qed.

Lemma keep_trans a w w' w'' : keep a w w' -> keep a w' w'' -> keep a w w''.
Proof.
  intros (H1' & (H2' & H3') & H4') (H0' & (H5' & H6') & H7'). split_and!; [congruence| |].
  - split; congruence.
  - intros b Hb. by rewrite H7', H4'.
Qed.

Lemma keep_upto (a b : nat) w w' w'' : keep a w w' -> cur w'' = cur w' -> (b <= a)%nat ->
  (forall c, (c < b)%nat -> deltas (dw w'') !! c = deltas (dw w') !! c) -> keep b w w''.
Proof.
  intros (H1' & H2' & H3') E Hb Hd. unfold keep. rewrite E. split_and!; [done|done|].
  intros c Hc. by rewrite Hd, H3' by lia.
Qed.

Lemma silent_trans w w' w'' : silent w w' -> silent w' w'' -> silent w w''.
Proof. intros [? ?] [? ?]. split; congruence. Qed.

Lemma stays_mono {A : Type} (a : nat) (m : M TW A) (Q Q' : Scope -> A -> Scope -> Prop) : stays a m Q ->
  (forall t x t', Q t x t' -> Q' t x t') -> stays a m Q'.
Proof.
  intros Hm HQ w t s T D O Hi. specialize (Hm w t s T D O Hi). destruct (m w); [|done].
  destruct Hm as (t' & ? & ? & ? & ?). exists t'. auto.
Qed.

Lemma stays_seq {A B : Type} (a : nat) (m : M TW A) (k : A -> M TW B) (Q : Scope -> A -> Scope -> Prop)
    (Q' : A -> Scope -> B -> Scope -> Prop) : stays a m Q -> (forall x, stays a (k x) (Q' x)) ->
  stays a (m ≫= k) (fun t y t' => exists x t1, Q t x t1 /\ Q' x t1 y t').
Proof.
  intros Hm Hk w t s T D O Hi. specialize (Hm w t s T D O Hi). unfold mbind, M_bind.
  destruct (m w) as [x w1|]; [|done]. destruct Hm as (t1 & Hi1 & Hk1 & Hs1 & HQ).
  specialize (Hk x w1 t1 s T D O Hi1). destruct (k x w1) as [y w2|e w2].
  - destruct Hk as (t2 & Hi2 & Hk2 & Hs2 & HQ'). exists t2. split_and!; [done| | |by eauto].
    + by eapply keep_trans.
    + by eapply silent_trans.
  - destruct Hk as (Hf & t2 & Hi2 & Hk2). split; [done|]. exists t2. split; [done|]. by eapply keep_trans.
Qed.

(** A computation that leaves the ledger alone, before any other. *)
Lemma stays_after {A B : Type} (a : nat) (m : M TW A) (k : A -> M TW B) Q : stays a m same -> (forall x, stays a (k x) Q) ->
  stays a (m ≫= k) Q.
Proof.
  intros Hm Hk. eapply stays_mono; [by eapply stays_seq; [|intros x; apply Hk]|].
  by intros t y t' (x & t1 & -> & ?).
Qed.

Lemma stays_return {A : Type} (a : nat) (x : A) (Q : Scope -> A -> Scope -> Prop) : (forall t, Q t x t) -> stays a (mret x) Q.
Proof. intros HQ w t s T D O Hi. exists t. split_and!; try done. Qed.

Lemma stays_throw {A : Type} (a : nat) (e : exn) (Q : Scope -> A -> Scope -> Prop) : fatal e = false -> stays a (throw e) Q.
Proof. intros He w t s T D O Hi. split; [done|]. by exists t. Qed.

Lemma stays_get {A : Type} (a : nat) (k : TW -> M TW A) Q : (forall w, stays a (k w) Q) -> stays a (get ≫= k) Q.
Proof. intros Hk w t s T D O Hi. by apply (Hk w). Qed.

(** Members of the frame that nothing here depends on. *)
Lemma stays_cur (a : nat) f : (forall x, mOperationsMade (f x) = mOperationsMade x /\
    sameSigned (mValidator x) (mValidator (f x)) /\ mCode (f x) = mCode x) ->
  stays a (modify (fun w => set_cur (f (cur w)) w)) same.
Proof.
  intros Hf w t s T D O [H1' H2' H3' H4' H5']. exists t. destruct (Hf (cur w)) as (F1 & F2 & F3).
  split_and!; try done; by split.
Qed.

Lemma stays_query {A : Type} (a : nat) (k : TxDb -> M TW A) Q :
  (forall L T h, Inv (L, h) -> stays a (k (mkTxDb L T)) Q) -> stays a (query ≫= k) Q.
Proof.
  intros Hk w [L h] s T D O Hi. specialize (Hk L T h (in_inv _ _ _ _ _ _ _ Hi) w (L, h) s T D O Hi).
  unfold query. unfold mbind, M_bind, get, deref. rewrite (in_sql _ _ _ _ _ _ _ Hi). exact Hk.
Qed.

(** [recordEntry] *)
Lemma stays_record (a : nat) e : stays a (onDelta (recordEntry a e)) same.
Proof.
  intros w t s T D O [H1' H2' H3' H4' H5']. unfold onDelta.
  destruct (record_scope (dw w) a e t s H1') as (d & -> & Hr & Hd & _). exists t. split; [by split|].
  split; [|by split]. split; [done|]. split; [by split|]. intros b Hb. apply Hd. lia.
Qed.

(** ** The contract of an operation

    What an operation may rely on and has to keep: inside of its scope it changes
    the delta and the database alike, and leaves what encloses it alone, whether it returns or
    throws; what it does before it is applied only reads.  [effect] is what it does when
    it succeeds. *)

Section application.
Context (app : App) (effect : OperationFrame -> Scope -> Scope -> Prop).

Record contract (op : OperationFrame) : Prop := {
  c_counterparties a : stays a (getCounterpartyDetails op (Some a)) same;
  c_details a source cs : stays a (getSourceAccountDetails op source cs) same;
  c_checkValid a source : stays a (doCheckValid op source) same;
  c_apply a source : stays a (doApply op source a) (fun t b t' => b = true -> effect op t t') }.

(** The master account is there. *)
Definition keepsMaster : Prop := forall L h, Inv (L, h) ->
  exists e, L !! accountId (appMasterID app) = Some e /\ sigType (asAccount app e) = MASTER.

Hypothesis Hmaster : keepsMaster.

Lemma sigEnv_master L h T : Inv (L, h) -> hasMaster (sigEnv app (mkTxDb L T)).
Proof. intros (e & He & Ht)%Hmaster. exists (asAccount app e). simpl. by rewrite He. Qed.

Lemma stays_loadFromDb (a : nat) delta id : delta = Some a \/ delta = None ->
  stays a (loadFromDb app delta id) same.
Proof.
  intros Hd. apply stays_query. intros L T h _. simpl. destruct (L !! accountId id) as [e|]; [|by apply stays_return].
  eapply stays_after; [|intros; by apply stays_return].
  destruct Hd as [->| ->]; [apply stays_record|by apply stays_return].
Qed.

Lemma stays_loadAccountOf (a : nat) delta id : delta = Some a \/ delta = None ->
  stays a (loadAccountOf app delta id) same.
Proof.
  intros Hd. apply stays_get. intros w. destruct (mSigningAccount (cur w)); [|by apply stays_loadFromDb].
  case_bool_decide; [by apply stays_return|by apply stays_loadFromDb].
Qed.

Lemma stays_check (a : nat) L T h account sd : Inv (L, h) ->
  stays a (onValidator (check NDEBUG (sigEnv app (mkTxDb L T)) account sd)) same.
Proof.
  intros Hm%(sigEnv_master L h T) w t s T' D O [H1' H2' H3' H4' H5']. unfold onValidator.
  destruct (check_returns NDEBUG (sigEnv app (mkTxDb L T)) account sd (mValidator (cur w)) Hm) as (r & v & -> & Hv).
  exists t. split_and!; try done; by split.
Qed.

Lemma stays_setOpCode (a i : nat) c : stays a (setOpCode i c) same.
Proof. by apply (stays_cur a (set_opCode i c)). Qed.

Lemma stays_setSource (a i : nat) x : stays a (setSource i x) same.
Proof. by apply (stays_cur a (fun y => set_sources (partial_alter (fun _ => x) i (mSourceAccounts y)) y)). Qed.

Lemma stays_refused (a i : nat) c : stays a (setOpCode i c;; mret false) same.
Proof. eapply stays_after; [apply stays_setOpCode|]. intros. by apply stays_return. Qed.

Lemma stays_opDoCheckSignature (a i : nat) source sd : stays a (opDoCheckSignature NDEBUG app i source sd) same.
Proof.
  apply stays_query. intros L T h Hi. eapply stays_after; [by eapply stays_check|].
  intros []; try apply stays_refused. by apply stays_return.
Qed.

Lemma stays_checkCounterparties (a i : nat) cs : stays a (checkCounterparties app i cs) same.
Proof.
  induction cs as [|[id c] cs IH]; simpl; [by apply stays_return|].
  eapply stays_after; [apply stays_loadFromDb; by right|]. intros [x|].
  - destruct (_ && _); [apply stays_refused|]. destruct (negb _); [apply stays_refused|done].
  - destruct (negb _); [done|apply stays_refused].
Qed.

Lemma stays_opCheckValid (a i : nat) tx op : contract op -> stays a (opCheckValid NDEBUG app tx i op (Some a)) same.
Proof.
  intros Hc. unfold opCheckValid. destruct (negb _); [apply stays_refused|].
  eapply stays_after; [apply stays_loadAccountOf; by left|]. intros x.
  eapply stays_after; [apply stays_setSource|]. intros _.
  destruct x as [x|]; [|destruct (opSourceAccount op); apply stays_refused].
  eapply stays_after; [apply stays_setSource|]. intros _.
  eapply stays_after; [apply Hc|]. intros cs.
  eapply stays_after; [apply stays_checkCounterparties|]. intros []; [|by apply stays_return]. simpl.
  destruct (_ && _); [apply stays_refused|].
  eapply stays_after; [apply Hc|]. intros sd.
  eapply stays_after; [apply stays_opDoCheckSignature|]. intros []; [|by apply stays_return]. simpl.
  eapply stays_after; [by apply stays_return|]. intros _.
  eapply stays_after; [apply stays_setOpCode|]. intros _. apply stays_get. intros w. apply Hc.
Qed.

Lemma stays_opApply (a i : nat) tx op : contract op ->
  stays a (opApply NDEBUG app tx i op (mkStorageHelper (Some a) (S a) false)) (fun t b t' => b = true -> effect op t t').
Proof.
  intros Hc. unfold opApply. simpl. eapply stays_after; [by apply stays_opCheckValid|].
  intros []; [|by apply stays_return]. simpl. apply stays_get. intros w. apply Hc.
Qed.

(** ** Running a block *)

Lemma bind_Exn {W A B : Type} (m : M W A) (k : A -> M W B) w e w1 : m w = Exn e w1 -> (m ≫= k) w = Exn e w1.
Proof. intros E. unfold mbind, M_bind. by rewrite E. Qed.

Lemma onDelta_Ret {A : Type} (m : M DW A) w x d : m (dw w) = Ret x d -> onDelta m w = Ret x (set_dw d w).
Proof. intros E. unfold onDelta. by rewrite E. Qed.

Lemma finally_Ret {W A : Type} (m : M W A) dtor w x w1 w2 : m w = Ret x w1 -> dtor w1 = Ret () w2 ->
  finally m dtor w = Ret x w2.
Proof. intros E1 E2. unfold finally. rewrite E1. by rewrite (run_bind _ _ _ _ _ E2). Qed.

Lemma finally_Exn {W A : Type} (m : M W A) dtor w e w1 w2 : m w = Exn e w1 -> fatal e = false ->
  dtor w1 = Ret () w2 -> finally m dtor w = Exn e w2.
Proof. intros E1 Hf E2. unfold finally. rewrite E1, Hf. by rewrite (run_bind _ _ _ _ _ E2). Qed.

(** Entering a scope of the deltas and a transaction of the database; leaving them
    with a commit, and with a rollback. *)
Lemma inside_enter w a t s T D O d c m : inside w a t s T D O -> refines d (S (S a)) (t :: t :: s) ->
  inside (mkTW d (sqlBegin (session w)) ({[S (S a)]} ∪ openTxs w) c m) (S a) t (t :: s) T (mkTxDb t.1 T :: D) ({[S (S a)]} ∪ O).
Proof.
  intros [H1' H2' H3' H4' H5'] Hr. split; simpl; [done|by apply sqlBegin_stack|by rewrite H3'| |done].
  intros x [->%elem_of_singleton|Hx]%elem_of_union; [lia|]. specialize (H4' _ Hx). lia.
Qed.

Lemma enter_scope w a t s T D O : inside w a t s T D O ->
  exists d, newNested (S a) a (dw w) = Ret () d /\
    inside (mkTW d (sqlBegin (session w)) ({[S (S a)]} ∪ openTxs w) (cur w) (meta w)) (S a) t (t :: s) T
      (mkTxDb t.1 T :: D) ({[S (S a)]} ∪ O) /\
    keep (S a) w (mkTW d (sqlBegin (session w)) ({[S (S a)]} ∪ openTxs w) (cur w) (meta w)).
Proof.
  intros Hi. destruct (newNested_scope (NDEBUG := NDEBUG) (dw w) a t s (in_refines _ _ _ _ _ _ _ Hi))
    as (d & dn & E & Hr & Hd & _). exists d. split; [done|]. split; [by apply inside_enter|].
  split; [done|]. split; [by split|]. intros b Hb. simpl. rewrite Hd. simpl. by rewrite lookup_insert_ne by lia.
Qed.

Lemma open_minus (O : gset nat) (a : nat) : (forall x, x ∈ O -> (x <= S a)%nat) -> ({[S (S a)]} ∪ O) ∖ {[S (S a)]} = O.
Proof. intros Hf. assert (S (S a) ∉ O) by (intros Hx%Hf; lia). set_solver. Qed.

Lemma inside_commit w a t' s0 s T e D O d c m : inside w (S a) t' s0 T (e :: D) ({[S (S a)]} ∪ O) ->
  (forall x, x ∈ O -> (x <= S a)%nat) -> refines d (S a) (t' :: s) ->
  inside (mkTW d (sqlCommit (session w)) (openTxs w ∖ {[S (S a)]}) c m) a t' s T D O.
Proof.
  intros [H1' H2' H3' H4' H5'] Hf Hr. split; simpl; [done| | |done|done].
  - by eapply sqlCommit_stack.
  - by rewrite H3', open_minus.
Qed.

Lemma inside_abort w a t' t s0 s T T' D O d c m : inside w (S a) t' s0 T' (mkTxDb t.1 T :: D) ({[S (S a)]} ∪ O) ->
  (forall x, x ∈ O -> (x <= S a)%nat) -> Inv t -> refines d (S a) (t :: s) ->
  inside (mkTW d (sqlRollback (session w)) (openTxs w ∖ {[S (S a)]}) c m) a t s T D O.
Proof.
  intros [H1' H2' H3' H4' H5'] Hf Hi Hr. split; simpl; [done| | |done|done].
  - by eapply sqlRollback_stack.
  - by rewrite H3', open_minus.
Qed.

Lemma destroyTransaction_open w a : a ∈ openTxs w -> destroyTransaction a w =
  Ret () (mkTW (dw w) (sqlRollback (session w)) (openTxs w ∖ {[a]}) (cur w) (meta w)).
Proof.
  intros Ha. unfold destroyTransaction, rollbackTransaction, mbind, M_bind, get.
  by rewrite !bool_decide_eq_true_2 by done.
Qed.

Lemma destroyTransaction_done w a : a ∉ openTxs w -> destroyTransaction a w = Ret () w.
Proof. intros Ha. unfold destroyTransaction, mbind, M_bind, get. by rewrite bool_decide_eq_false_2. Qed.

Lemma commitTransaction_open w a : a ∈ openTxs w -> commitTransaction a w =
  Ret () (mkTW (dw w) (sqlCommit (session w)) (openTxs w ∖ {[a]}) (cur w) (meta w)).
Proof. intros Ha. unfold commitTransaction, mbind, M_bind, get. by rewrite bool_decide_eq_true_2. Qed.

(** ** Operations of a transaction *)

Lemma theDelta_inside w a t s T D O : inside w a t s T D O ->
  exists d, onDelta (theDelta a) w = Ret d w /\ deltas (dw w) !! a = Some d.
Proof.
  intros [(d & o & Hd & _)%refines_uncons _ _ _ _]. exists d. split; [|done]. unfold onDelta, theDelta.
  unfold mbind, M_bind, get, deref. rewrite Hd. by destruct w.
Qed.

(** An operation is in a scope of its own, and is committed whether it succeeds or
    not; one that throws leaves nothing. *)
Lemma applyOperation_scope tx a i op w t s T D O : contract op -> inside w a t s T D O ->
  match applyOperation NDEBUG app tx a i op w with
  | Ret b w' => exists t' c, inside w' a t' s T D O /\ keep a w w' /\ mCode (cur w') = mCode (cur w) /\
      meta w' = meta w ++ [c] /\ (b = true -> effect op t t')
  | Exn e w' => fatal e = false /\ inside w' a t s T D O /\ keep (S a) w w'
  end.
Proof.
  intros Hc Hi. destruct (enter_scope w a t s T D O Hi) as (d1 & E1 & Hi2 & Hk2). unfold applyOperation.
  rewrite (run_bind _ _ _ _ _ (onDelta_Ret _ _ _ _ E1)). set (w2 := mkTW d1 _ _ _ _) in *.
  pose proof (stays_opApply (S a) i tx op Hc w2 t (t :: s) T _ _ Hi2) as Hop.
  destruct (opApply NDEBUG app tx i op _ w2) as [b w3|e w3] eqn:Eop.
  - destruct Hop as (t' & Hi3 & Hk3 & [Hc3 Hm3] & Heff).
    destruct (theDelta_inside _ _ _ _ _ _ _ Hi3) as (d & Ed & _).
    set (c := if DETAILED_LEDGER_CHANGES app <=? appVersion app then getAllChanges d else getChanges d).
    destruct (commit_scope (NDEBUG := NDEBUG) (dw w3) a t' t s (in_refines _ _ _ _ _ _ _ Hi3))
      as (d4 & d5 & E4 & E5 & Hr5 & Hd5).
    set (w4 := mkTW d4 (sqlCommit (session w3)) (openTxs w3 ∖ {[S (S a)]}) (cur w3) (meta w3 ++ [c])).
    set (w5 := mkTW d5 (sqlCommit (session w3)) (openTxs w3 ∖ {[S (S a)]}) (cur w3) (meta w3 ++ [c])).
    assert (Hopen : S (S a) ∈ openTxs w3) by (rewrite (in_open _ _ _ _ _ _ _ Hi3); set_solver).
    erewrite finally_Ret with (w2 := w5) (w1 := w4); [| |exact (onDelta_Ret _ _ _ _ E5)].
    + exists t', c. split_and!; [eapply inside_commit; [done|apply Hi|done]| |done|by rewrite <- (Hm3 : meta w3 = meta w)|done].
      by apply (keep_upto (S a) _ w w3); [eapply keep_trans|done|lia|].
    + unfold newStorageHelper. erewrite run_bind by done. cbn beta.
      erewrite finally_Ret with (w1 := w4); [done| |apply destroyTransaction_done; simpl; set_solver].
      rewrite (run_bind _ _ _ _ _ Eop), (run_bind _ _ _ _ _ Ed). erewrite run_bind by done.
      unfold shCommit. simpl. erewrite run_bind; [done|]. erewrite run_bind by (apply onDelta_Ret; exact E4).
      unfold mbind at 1, M_bind at 1, get. cbn beta iota. rewrite bool_decide_eq_true_2 by done.
      by apply commitTransaction_open.
  - destruct Hop as (Hf & t' & Hi3 & Hk3).
    destruct (abort_scope (dw w3) (S a) t' t s (in_refines _ _ _ _ _ _ _ Hi3)) as (d5 & E5 & Hr5 & Hd5).
    assert (Hopen : S (S a) ∈ openTxs w3) by (rewrite (in_open _ _ _ _ _ _ _ Hi3); set_solver).
    set (w4 := mkTW (dw w3) (sqlRollback (session w3)) (openTxs w3 ∖ {[S (S a)]}) (cur w3) (meta w3)).
    set (w5 := mkTW d5 (sqlRollback (session w3)) (openTxs w3 ∖ {[S (S a)]}) (cur w3) (meta w3)).
    erewrite finally_Exn with (w2 := w5) (w1 := w4); [| |done|exact (onDelta_Ret _ w4 _ _ E5)].
    + split_and!; [done|eapply inside_abort; [done|apply Hi..|done]|].
      by apply (keep_upto (S a) _ w w3); [eapply keep_trans|done|lia|].
    + unfold newStorageHelper. erewrite run_bind by done. cbn beta.
      erewrite finally_Exn with (w1 := w3); [done| |done|by apply destroyTransaction_open].
      by rewrite (bind_Exn _ _ _ _ _ Eop).
Qed.

(** The effects of operations, one after the other. *)
Fixpoint performs (ops : list OperationFrame) (t t' : Scope) : Prop :=
  match ops with
  | [] => t' = t
  | op :: ops' => exists t1, effect op t t1 /\ performs ops' t1 t'
  end.

Lemma applyOperations_scope tx a s T D O ops : Forall contract ops -> forall i err w t, inside w a t s T D O ->
  match applyOperations NDEBUG app tx a i ops err w with
  | Ret err' w' => exists t', inside w' a t' s T D O /\ keep a w w' /\ mCode (cur w') = mCode (cur w) /\
      (err' = false -> err = false /\ performs ops t t')
  | Exn e w' => fatal e = false /\ exists t', inside w' a t' s T D O /\ keep a w w'
  end.
Proof.
  induction 1 as [|op ops Hc _ IH]; intros i err w t Hi; simpl.
  { exists t. split_and!; try done. }
  pose proof (applyOperation_scope tx a i op w t s T D O Hc Hi) as Hop. unfold mbind, M_bind.
  destruct (applyOperation NDEBUG app tx a i op w) as [b w1|e w1].
  - destruct Hop as (t1 & c & Hi1 & Hk1 & Hc1 & _ & Heff).
    specialize (IH (S i) (err || negb b) w1 t1 Hi1).
    destruct (applyOperations NDEBUG app tx a (S i) ops (err || negb b) w1) as [err' w2|e w2].
    + destruct IH as (t2 & Hi2 & Hk2 & Hc2 & Hp). exists t2. split_and!; [done|by eapply keep_trans|congruence|].
      intros [[-> ->%negb_false_iff]%orb_false_iff Hp']%Hp. eauto.
    + destruct IH as (Hf & t2 & Hi2 & Hk2). split; [done|]. exists t2. split; [done|by eapply keep_trans].
  - destruct Hop as (Hf & Hi1 & Hk1). split; [done|]. exists t. split; [done|].
    apply (keep_upto (S a) _ _ w1); [done..|lia|done].
Qed.

(** ** Before anything is applied *)

(** The delta at [a] holds no change. *)
Definition blank (a : nat) (w : TW) : Prop :=
  exists d, deltas (dw w) !! a = Some d /\ mNew d = ∅ /\ mMod d = ∅ /\ mDelete d = ∅.

Definition noTables : Tables := mkTables ∅ ∅ ∅ (mkLedgerTables ∅ ∅ ∅).

(** What [commonValid] finds of a transaction in the ledger [L]. *)
Definition validNow (tx : Tx) (v : Validator) (L : gmap LedgerId LedgerEntry) : Prop :=
  txOperations tx <> [] /\ minTime tx <= appCloseTime app <= maxTime tx /\
  maxTime tx - appCloseTime app <= txExpirationPeriod app /\
  exists e v', L !! accountId (txSource tx) = Some e /\
    check NDEBUG (sigEnv app (mkTxDb L noTables)) (asAccount app e) (txDetails app (asAccount app e)) v =
      Ret SUCCESS v'.

(** A step that sets at most the code. *)
Definition coded (a : nat) (w w' : TW) : Prop := keep a w w' /\ meta w' = meta w /\ (blank a w -> blank a w').

Lemma coded_trans a w w' w'' : coded a w w' -> coded a w' w'' -> coded a w w''.
Proof. intros (? & ? & ?) (? & ? & ?). split_and!; [by eapply keep_trans|congruence|auto]. Qed.

Lemma inside_cur w a t s T D O x : inside w a t s T D O -> inside (set_cur x w) a t s T D O.
Proof. intros [? ? ? ? ?]. by split. Qed.

Lemma coded_cur a w x : mOperationsMade x = mOperationsMade (cur w) -> sameSigned (mValidator (cur w)) (mValidator x) ->
  coded a w (set_cur x w).
Proof. intros ? ?. by split_and!. Qed.

Lemma query_inside w a t s T D O : inside w a t s T D O -> query w = Ret (mkTxDb t.1 T) w.
Proof. intros Hi. unfold query, mbind, M_bind, get, deref. by rewrite (in_sql _ _ _ _ _ _ _ Hi). Qed.

Lemma loadSigning_scope tx a w t s T D O : inside w a t s T D O -> mSigningAccount (cur w) = None ->
  exists w', loadSigningAccount app (Some a) tx w =
      Ret (bool_decide (t.1 !! accountId (txSource tx) <> None)) w' /\
    inside w' a t s T D O /\ coded a w w' /\ mCode (cur w') = mCode (cur w) /\
    mValidator (cur w') = mValidator (cur w) /\
    mSigningAccount (cur w') = asAccount app <$> t.1 !! accountId (txSource tx).
Proof.
  intros Hi Hs. unfold loadSigningAccount, loadAccountOf. unfold mbind at 1, M_bind at 1, mbind at 1, M_bind at 1, get.
  cbn beta iota. rewrite Hs. unfold loadFromDb. rewrite (run_bind _ _ _ _ _ (query_inside _ _ _ _ _ _ _ Hi)). simpl.
  destruct (t.1 !! accountId (txSource tx)) as [e|] eqn:El; simpl.
  - destruct (record_scope (dw w) a e t s (in_refines _ _ _ _ _ _ _ Hi)) as (d & Er & Hr & Hd & Hb).
    rewrite (run_bind _ _ _ _ _ (onDelta_Ret _ _ _ _ Er)). eexists. split; [done|].
    split; [destruct Hi; by split|]. split; [|done]. split.
    + split; [done|]. split; [by split|]. intros b Hb'. apply Hd. lia.
    + split; [done|]. intros (d0 & Hl & E1 & E2 & E3). destruct (Hb d0 Hl E1 E2 E3) as (d' & ? & ?). by exists d'.
  - eexists. split; [done|]. split_and!; try done. by apply inside_cur.
Qed.

Lemma setCode_false a w t s T D O c : inside w a t s T D O -> c <> txSUCCESS ->
  exists w', (setCode c;; mret false) w = Ret false w' /\ inside w' a t s T D O /\ coded a w w' /\
    mCode (cur w') <> txSUCCESS.
Proof.
  intros Hi Hc. eexists. split; [done|]. split_and!; [by apply inside_cur|by apply coded_cur|done].
Qed.

(** What [doCheckSignature] and [commonValid] do: [P] when they return true. *)
Definition judges (a : nat) (m : M TW bool) (w : TW) (t : Scope) (s : list Scope) (T : Tables) (D : list TxDb)
    (O : gset nat) (signing : option SigAccount) (P : Prop) : Prop :=
  match m w with
  | Ret b w' => inside w' a t s T D O /\ coded a w w' /\
      (if b then P /\ mCode (cur w') = mCode (cur w) /\ mSigningAccount (cur w') = signing
       else mCode (cur w') <> txSUCCESS)
  | Exn e w' => fatal e = false /\ inside w' a t s T D O /\ coded a w w'
  end.

Lemma judges_after {A : Type} a (m : M TW A) (k : A -> M TW bool) w x w1 t s T D O S P : m w = Ret x w1 ->
  coded a w w1 -> mCode (cur w1) = mCode (cur w) ->
  judges a (k x) w1 t s T D O S P -> judges a (m ≫= k) w t s T D O S P.
Proof.
  intros E Hc Hm. unfold judges. rewrite (run_bind _ _ _ _ _ E). destruct (k x w1) as [[] w2|e w2].
  - intros (? & ? & ? & ? & ?). split_and!; [done|by eapply coded_trans|done|congruence|done].
  - intros (? & ? & ?). split_and!; [done|by eapply coded_trans|done].
  - intros (? & ? & ?). split_and!; [done|done|by eapply coded_trans].
Qed.

Lemma judges_refuse a w t s T D O c S P : inside w a t s T D O -> c <> txSUCCESS ->
  judges a (setCode c;; mret false) w t s T D O S P.
Proof.
  intros Hi Hc. destruct (setCode_false a w t s T D O c Hi Hc) as (w' & E & Hw). unfold judges. by rewrite E.
Qed.

Lemma doCheckSignature_judges a account w t s T D O : inside w a t s T D O ->
  mSigningAccount (cur w) = Some account ->
  judges a (doCheckSignature NDEBUG app account) w t s T D O (Some account)
    (exists v', check NDEBUG (sigEnv app (mkTxDb t.1 T)) account (txDetails app account) (mValidator (cur w)) = Ret SUCCESS v').
Proof.
  intros Hi Hs. unfold doCheckSignature. eapply (judges_after _ get); [done|by split_and!|done|].
  rewrite Hs. eapply judges_after; [done|by split_and!|done|].
  eapply judges_after; [by eapply query_inside|by split_and!|done|].
  destruct t as [L h]. simpl.
  destruct (check_returns NDEBUG (sigEnv app (mkTxDb L T)) account (txDetails app account) (mValidator (cur w)))
    as (r & v & E & Hv); [eapply sigEnv_master, (in_inv _ _ _ _ _ _ _ Hi)|].
  eapply (judges_after _ (onValidator _)); [unfold onValidator; by rewrite E|by apply coded_cur|done|].
  assert (Hi' : inside (set_cur (set_validator v (cur w)) w) a (L, h) s T D O) by (by apply inside_cur).
  destruct r; try (by apply judges_refuse).
  - unfold judges. by split_and!.
  - unfold judges. split_and!; try done. by exists v.
Qed.

Lemma commonValid_judges tx a w t s T D O : inside w a t s T D O -> mSigningAccount (cur w) = None ->
  judges a (commonValid NDEBUG app (Some a) tx) w t s T D O (asAccount app <$> t.1 !! accountId (txSource tx))
    (mOperationsMade (cur w) = true /\ validNow tx (mValidator (cur w)) t.1).
Proof.
  intros Hi Hs. unfold commonValid. eapply (judges_after _ get); [done|by split_and!|done|].
  destruct (Nat.eqb_spec (length (mOperations tx (cur w))) 0) as [|Hops]; [by apply judges_refuse|].
  destruct (Z.ltb_spec (appCloseTime app) (minTime tx)); [by apply judges_refuse|].
  destruct (Z.ltb_spec (maxTime tx) (appCloseTime app)); [by apply judges_refuse|]. simpl.
  destruct (Z.ltb_spec (txExpirationPeriod app) (maxTime tx - appCloseTime app)); [by apply judges_refuse|].
  destruct (loadSigning_scope tx a w t s T D O Hi Hs) as (w1 & E & Hi1 & Hc1 & Hm1 & Hv1 & Hs1).
  eapply judges_after; [exact E|done|done|].
  destruct (t.1 !! accountId (txSource tx)) as [e|] eqn:El; simpl; [|by apply judges_refuse].
  eapply (judges_after _ get); [done|by split_and!|done|]. rewrite Hs1. simpl.
  eapply judges_after; [done|by split_and!|done|].
  pose proof (doCheckSignature_judges a (asAccount app e) w1 t s T D O Hi1 Hs1) as Hj.
  unfold judges in *. unfold mbind, M_bind. destruct (doCheckSignature NDEBUG app (asAccount app e) w1) as [[] w2|]; [|done..].
  destruct Hj as (? & ? & (v' & Hv') & ? & ?). split; [done|]. split; [done|]. split; [|done].
  unfold mOperations in Hops. destruct (mOperationsMade (cur w)); [|done]. split; [done|]. split; [|split_and!; [done..|]].
  - intros E0. by rewrite E0 in Hops.
  - exists e, v'. rewrite <- Hv1. done.
Qed.

(** ** The fee of a transaction *)

(** What is done from a scope that is known. *)
Definition staysAt {A : Type} (a : nat) (t : Scope) (m : M TW A) (Q : A -> Scope -> Prop) : Prop :=
  forall w s T D O, inside w a t s T D O ->
  match m w with
  | Ret x w' => exists t', inside w' a t' s T D O /\ keep a w w' /\ silent w w' /\ Q x t'
  | Exn e w' => fatal e = false /\ exists t', inside w' a t' s T D O /\ keep a w w'
  end.

Lemma staysAt_bind {A B : Type} (a : nat) (t : Scope) (m : M TW A) (k : A -> M TW B) (P : A -> Scope -> Prop) Q :
  staysAt a t m P -> (forall x t1, Inv t1 -> P x t1 -> staysAt a t1 (k x) Q) -> staysAt a t (m ≫= k) Q.
Proof.
  intros Hm Hk w s T D O Hi. specialize (Hm w s T D O Hi). unfold mbind, M_bind.
  destruct (m w) as [x w1|]; [|done]. destruct Hm as (t1 & Hi1 & Hk1 & Hs1 & HP).
  specialize (Hk x t1 (in_inv _ _ _ _ _ _ _ Hi1) HP w1 s T D O Hi1). destruct (k x w1) as [y w2|e w2].
  - destruct Hk as (t2 & Hi2 & Hk2 & Hs2 & HQ). exists t2. split_and!; [done|by eapply keep_trans| |done].
    by eapply silent_trans.
  - destruct Hk as (Hf & t2 & Hi2 & Hk2). split; [done|]. exists t2. split; [done|by eapply keep_trans].
Qed.

Lemma staysAt_ret {A : Type} (a : nat) (t : Scope) (x : A) (Q : A -> Scope -> Prop) : Q x t -> staysAt a t (mret x) Q.
Proof. intros HQ w s T D O Hi. exists t. split_and!; try done. Qed.

Lemma staysAt_mono {A : Type} (a : nat) (t : Scope) (m : M TW A) (P Q : A -> Scope -> Prop) : staysAt a t m P ->
  (forall x t', P x t' -> Q x t') -> staysAt a t m Q.
Proof.
  intros Hm HQ w s T D O Hi. specialize (Hm w s T D O Hi). destruct (m w); [|done].
  destruct Hm as (t' & ? & ? & ? & ?). exists t'. auto.
Qed.

Lemma staysAt_throw {A : Type} (a : nat) (t : Scope) (e : exn) (Q : A -> Scope -> Prop) : fatal e = false ->
  staysAt a t (throw e) Q.
Proof. intros He w s T D O Hi. split; [done|]. by exists t. Qed.

Lemma staysAt_query {A : Type} (a : nat) (t : Scope) (k : TxDb -> M TW A) Q :
  (forall T, staysAt a t (k (mkTxDb t.1 T)) Q) -> staysAt a t (query ≫= k) Q.
Proof. intros Hk w s T D O Hi. rewrite (run_bind _ _ _ _ _ (query_inside _ _ _ _ _ _ _ Hi)). by apply Hk. Qed.

Lemma staysAt_delta {A : Type} (a : nat) (t : Scope) (k : Delta -> M TW A) Q :
  (forall d, mCurrentHeader d = t.2 -> staysAt a t (k d) Q) -> staysAt a t (onDelta (theDelta a) ≫= k) Q.
Proof.
  intros Hk w s T D O Hi. destruct (theDelta_inside _ _ _ _ _ _ _ Hi) as (d & E & Hd).
  rewrite (run_bind _ _ _ _ _ E). apply Hk; [|done].
  destruct (refines_uncons _ _ _ _ (in_refines _ _ _ _ _ _ _ Hi)) as (d' & o & Hd' & _ & (_ & _ & Hc & _) & _).
  by simplify_eq.
Qed.

Lemma staysAt_record (a : nat) (t : Scope) e : staysAt a t (onDelta (recordEntry a e)) (fun _ t' => t' = t).
Proof. intros w s T D O Hi. by apply (stays_record a e w t s T D O Hi). Qed.

Lemma staysAt_edit (a : nat) L h f : Inv (L, f h) ->
  staysAt a (L, h) (onDelta (editHeader a f)) (fun _ t' => t' = (L, f h)).
Proof.
  intros Hv w s T D O Hi. destruct (refines_uncons _ _ _ _ (in_refines _ _ _ _ _ _ _ Hi)) as (d & o & Hl & Hs & _).
  destruct s as [|o' s]; [done|].
  destruct (header_refines (NDEBUG := NDEBUG) (dw w) a L h o' s f (in_refines _ _ _ _ _ _ _ Hi)) as (d' & E & Hr').
  apply bind_inv in E as ([] & d'' & E & [= <-]). rewrite (onDelta_Ret _ _ _ _ E). exists (L, f h).
  split; [destruct Hi; by split|]. split; [|by split]. split; [done|]. split; [by split|]. intros b Hb. simpl.
  unfold editHeader in E. unfold mbind, M_bind, theDelta, mbind, M_bind, get, deref in E. rewrite Hl in E. cbn in E.
  injection E as <-. simpl. by rewrite lookup_insert_ne by lia.
Qed.

(** An entry is written to the database and to the delta. *)
Lemma staysAt_write (a : nat) L h e (f : M DW ()) :
  legacy (idOf (data e)) -> Inv (<[idOf (data e) := e]> L, h) ->
  (forall w s, refines w (S a) ((L, h) :: s) -> exists w', f w = Ret () w' /\
     refines w' (S a) ((<[idOf (data e) := e]> L, h) :: s) /\ forall b, b <> a -> deltas w' !! b = deltas w !! b) ->
  staysAt a (L, h) (exec (fun d => mkTxDb (<[idOf (data e) := e]> (entries d)) (tables d));; onDelta f)
    (fun _ t' => t' = (<[idOf (data e) := e]> L, h)).
Proof.
  intros Hl Hv Hf w s T D O [Hr Hs Ho Hfr Hi]. unfold exec. erewrite run_bind by done. cbn beta.
  destruct (Hf (dw w) s Hr) as (d & E & Hr' & Hd). set (w1 := set_session _ w).
  rewrite (onDelta_Ret f w1 () d E). exists (<[idOf (data e) := e]> L, h). split.
  - split; simpl; try done. by rewrite (sqlExec_stack _ _ _ _ Hs).
  - split; [|by split]. split; [done|]. split; [by split|]. intros b Hb. apply Hd. lia.
Qed.

(** The bytes of an entry hold a balance, and every balance can be written. *)
Record feeLaws : Prop := {
  fl_id id x : balanceID (balanceOf app id x) = id;
  fl_range id x : is_u64 (amount (balanceOf app id x)) /\ is_u64 (locked (balanceOf app id x));
  fl_body b x : is_u64 (amount b) -> is_u64 (locked b) -> balanceOf app (balanceID b) (balanceBody app b x) = b }.

(** Entries are in their rows, and what ledgers have in common does not depend on valid balances. *)
Record keepsBalances : Prop := {
  kb_rows L h i e : Inv (L, h) -> L !! i = Some e -> idOf (data e) = i;
  kb_write L h e b : Inv (L, h) -> asBalance app e = Some b -> isBalanceValid b = true ->
    Inv (<[idOf (data e) := e]> L, h);
  kb_generate L h : Inv (L, h) -> Inv (L, (generateID BALANCE h).2) }.

Section fee.

Hypothesis Hlaws : feeLaws.
Hypothesis Hkeeps : keepsBalances.

(** The row of a balance. *)
Definition heldAt (L : gmap LedgerId LedgerEntry) (b : Balance) : Prop :=
  exists e, L !! idOf (KBalance (balanceID b)) = Some e /\ asBalance app e = Some b.

(** [L'] is [L] with the balance [b] in its row. *)
Definition wrote (b : Balance) (L L' : gmap LedgerId LedgerEntry) : Prop :=
  exists e, data e = KBalance (balanceID b) /\ asBalance app e = Some b /\
    L' = <[idOf (KBalance (balanceID b)) := e]> L.

(** The balance of the commission account the fee goes to: the one it holds, or a new one. *)
Definition commissionOf (asset : Bytes) (cb : Balance) (t t' : Scope) : Prop :=
  balanceAccount cb = appCommissionID app /\ balanceAsset cb = asset /\
  (heldAt t.1 cb /\ t' = t \/
   selectBalance app (appCommissionID app) asset t.1 = None /\ is_Some (t.1 !! idOf (KAsset asset)) /\
   cb = createNewBalance (balanceForAccount app (appCommissionID app) (generateID BALANCE t.2).1) (appCommissionID app) asset /\
   t.1 !! idOf (KBalance (balanceID cb)) = None /\
   wrote cb t.1 t'.1 /\ t'.2 = (generateID BALANCE t.2).2).

(** What charging a fee does: [total] is taken from a balance of the payer in [asset] and added to one of the
    commission account, which is written last (the one write that stays when both are one balance). *)
Definition feeCharged (asset : Bytes) (source : AccountID) (total : Z) (t t' : Scope) : Prop :=
  exists sb cb t1 L2, heldAt t.1 sb /\ balanceAccount sb = source /\ balanceAsset sb = asset /\
    0 <= total <= amount sb /\ commissionOf asset cb t t1 /\ amount cb + total + locked cb <= UINT64_MAX /\
    wrote (set_amount (amount sb - total) sb) t1.1 L2 /\
    wrote (set_amount (amount cb + total) cb) L2 t'.1 /\ t'.2 = t1.2.

Lemma asBalance_key e b : asBalance app e = Some b -> data e = KBalance (balanceID b).
Proof.
  unfold asBalance. destruct (data e) eqn:Ed; try done. intros [= <-]. by rewrite (fl_id Hlaws).
Qed.

Lemma asBalance_range e b : asBalance app e = Some b -> is_u64 (amount b) /\ is_u64 (locked b).
Proof. unfold asBalance. destruct (data e); try done. intros [= <-]. apply Hlaws. Qed.

Lemma asBalance_entry seq b old : is_u64 (amount b) -> is_u64 (locked b) ->
  asBalance app (balanceEntry app seq b old) = Some b.
Proof. intros H1' H2'. unfold asBalance, balanceEntry. simpl. by rewrite (fl_body Hlaws). Qed.

Lemma selectBalance_held account asset L h b e : Inv (L, h) -> selectBalance app account asset L = Some (b, e) ->
  heldAt L b /\ balanceAccount b = account /\ balanceAsset b = asset /\ is_u64 (amount b) /\ is_u64 (locked b).
Proof.
  intros Hi. unfold selectBalance.
  assert (Hin : forall l, foldr (fun x acc => match acc with None => Some x | Some y =>
      if bytes_leb (balanceStrKey app (balanceID x.1)) (balanceStrKey app (balanceID y.1)) then Some y else Some x end)
    None l = Some (b, e) -> (b, e) ∈ l).
  { induction l as [|x l IH]; simpl; [done|]. destruct (foldr _ _ l) as [y|]; [|intros [= ->]; by constructor].
    destruct (bytes_leb _ _); [intros [= ->]; constructor; by apply IH|intros [= ->]; by constructor]. }
  intros ([i e'] & Hin' & Ho)%Hin%list_elem_of_omap. apply elem_of_map_to_list in Hin'. unfold ownBalance in Ho. simpl in Ho.
  destruct (asBalance app e') as [b'|] eqn:Eb; [|done]. case_decide as Hd; [|done]. simplify_eq. destruct Hd as [<- <-].
  split; [|by split_and!; try done; eapply asBalance_range].
  exists e. rewrite <- (asBalance_key _ _ Eb), (kb_rows Hkeeps _ _ _ _ Hi Hin'). done.
Qed.

Lemma loadBalance_stays (a : nat) account asset L h : Inv (L, h) ->
  staysAt a (L, h) (loadBalance app a account asset)
    (fun x t' => t' = (L, h) /\ x = selectBalance app account asset L).
Proof.
  intros Hi. apply staysAt_query. intros T. simpl. destruct (selectBalance app account asset L) as [x|]; [|by apply staysAt_ret].
  eapply staysAt_bind; [apply staysAt_record|]. intros _ t1 _ ->. by apply staysAt_ret.
Qed.

Lemma storeBalance_stays (a : nat) ins b old L h : Inv (L, h) -> is_u64 (amount b) -> is_u64 (locked b) ->
  staysAt a (L, h) (storeBalance NDEBUG app a ins b old)
    (fun _ t' => wrote b L t'.1 /\ t'.2 = h /\ (ins = true <-> L !! idOf (KBalance (balanceID b)) = None)).
Proof.
  intros Hi Ha Hl. apply staysAt_delta. intros d _. cbn zeta. set (seq := if mUpdateLastModified d then _ else _). set (e := balanceEntry app seq b old).
  destruct (isBalanceValid b) eqn:Ev; simpl; [|by apply staysAt_throw]. apply staysAt_query. intros T. simpl.
  assert (Hb : asBalance app e = Some b) by (by apply asBalance_entry).
  assert (Hw : wrote b L (<[idOf (KBalance (balanceID b)) := e]> L)) by (by exists e).
  assert (Hv := kb_write Hkeeps L h e b Hi Hb Ev).
  change (idOf (KBalance (balanceID b))) with (idOf (data e)) in *.
  destruct ins, (L !! idOf (data e)) as [e0|] eqn:El; try (by apply staysAt_throw).
  - eapply staysAt_mono; [apply staysAt_write; [done|done|]|].
    + intros w s Hr. by apply (add_scope w a e (L, h) s).
    + intros _ t' ->. by split_and!.
  - eapply staysAt_mono; [apply staysAt_write; [done|done|]|].
    + intros w s Hr. apply (mod_scope w a e (L, h) s); [done|by eexists|done].
    + intros _ t' ->. by split_and!.
Qed.

Lemma loadOrCreate_stays (a : nat) asset t : Inv t ->
  staysAt a t (loadOrCreateBalanceFrame NDEBUG app a (appCommissionID app) asset)
    (fun x t' => commissionOf asset x.1 t t' /\ is_u64 (amount x.1) /\ is_u64 (locked x.1)).
Proof.
  destruct t as [L h]. intros Hi. eapply staysAt_bind; [by apply loadBalance_stays|]. intros x t1 _ [-> ->].
  destruct (selectBalance app (appCommissionID app) asset L) as [[b e]|] eqn:Es.
  { destruct (selectBalance_held _ _ _ _ _ _ Hi Es) as (? & ? & ? & ? & ?). apply staysAt_ret.
    split; [|done]. split_and!; [done..|]. by left. }
  apply staysAt_query. intros T. simpl. case_bool_decide as Ha; [by apply staysAt_throw|].
  assert (Hi' := kb_generate Hkeeps _ _ Hi).
  eapply staysAt_bind with (P := fun i t' => i = (generateID BALANCE h).1 /\ t' = (L, (generateID BALANCE h).2)).
  { apply staysAt_delta. intros d Hd. eapply staysAt_bind; [by apply staysAt_edit|]. intros _ t1 _ ->.
    apply staysAt_ret. simpl in Hd. by rewrite Hd. }
  intros i t1 _ [-> ->]. set (b := createNewBalance _ _ _).
  assert (Hz : is_u64 0) by (unfold is_u64, UINT64_MAX; lia).
  eapply staysAt_bind; [by apply storeBalance_stays|]. intros _ [L1 h1] _ (Hw & Hh & Hn). simpl in *.
  apply staysAt_ret. split; [|done]. split_and!; [done..|]. right. split_and!; try done; [|by apply Hn].
  by apply not_eq_None_Some.
Qed.

Lemma chargeTxFee_stays (a : nat) asset source total t : Inv t -> is_u64 total ->
  staysAt a t (chargeTxFee NDEBUG app a asset source total)
    (fun r t' => r <> Some txSUCCESS /\ (r = None -> feeCharged asset source total t t')).
Proof.
  destruct t as [L h]. intros Hi Ht. eapply staysAt_bind; [by apply loadBalance_stays|]. intros x t1 _ [-> ->].
  destruct (selectBalance app source asset L) as [[sb se]|] eqn:Es; [|by apply staysAt_ret].
  destruct (selectBalance_held _ _ _ _ _ _ Hi Es) as (Hsb & Hown & Has & Hsa & Hsl).
  eapply staysAt_bind; [by apply loadOrCreate_stays|]. intros [cb ce] [L1 h1] Hi1 (Hc & Hca & Hcl). simpl in Hca, Hcl.
  unfold tryCharge. destruct (Z.ltb_spec (amount sb) total) as [|Hle]; [by apply staysAt_ret|]. cbn beta iota.
  rewrite u64_id by (unfold is_u64 in *; lia). simpl.
  eapply staysAt_bind; [apply storeBalance_stays; [done|unfold is_u64 in *; simpl; lia|done]|].
  intros _ [L2 h2] Hi2 (Hw & Hh & _). simpl in Hw, Hh. subst h2.
  unfold tryFundAccount. rewrite safeSum_spec by done.
  destruct (Z.leb_spec (amount cb + total) UINT64_MAX) as [Hfit|]; [|by apply staysAt_ret]. cbn beta iota.
  rewrite u64_id by (unfold is_u64 in *; lia). rewrite safeSum_spec by (unfold is_u64 in *; lia || done).
  destruct (Z.leb_spec (amount cb + total + locked cb) UINT64_MAX) as [Hfit'|]; [|by apply staysAt_ret]. cbn beta iota. simpl.
  eapply staysAt_bind; [apply storeBalance_stays; [done|unfold is_u64 in *; simpl; lia|done]|].
  intros _ [L3 h3] _ (Hw' & Hh' & _). simpl in Hw', Hh'. subst h3. apply staysAt_ret. split; [done|]. intros _.
  exists sb, cb, (L1, h1), L2. split_and!; try done. apply Ht.
Qed.

(** The fee a transaction has to pay in the ledger it finds: nothing before there were fees, when the source is the
    master account, and as long as there is no asset of fees; otherwise the fees of all its operations, of which
    it must have offered as much. *)
Definition feePaid (tx : Tx) (t t' : Scope) : Prop :=
  exists e, t.1 !! accountId (txSource tx) = Some e /\
  if (appVersion app <? ADD_TRANSACTION_FEE app) || bool_decide (sigType (asAccount app e) = MASTER) then t' = t
  else match tryGetTxFeeAsset app t.1 with
       | inl _ => False
       | inr None => t' = t
       | inr (Some asset) => exists total,
           totalFee app t.1 asset (Some (asAccount app e)) ∅ 0 (txOperations tx) = inr total /\
           total <= default UINT64_MAX (maxTotalFee tx) /\ feeCharged asset (txSource tx) total t t'
       end.

Lemma tryGetTxFeeAsset_throws L e : tryGetTxFeeAsset app L = inl e -> fatal e = false.
Proof.
  unfold tryGetTxFeeAsset. destruct (L !! _); [|done]. destruct (asKeyValueString app _); [|by intros [= <-]].
  destruct (isAssetCodeValid _); [done|by intros [= <-]].
Qed.

Lemma totalFee_throws L asset source ops e : forall fees total,
  totalFee app L asset source fees total ops = inl e -> fatal e = false.
Proof.
  induction ops as [|op ops IH]; intros fees total; cbn [totalFee]; [done|].
  repeat case_match; first [apply IH|by intros [= <-]].
Qed.

Lemma totalFee_range L asset source ops x : forall fees total, is_u64 total ->
  totalFee app L asset source fees total ops = inr x -> is_u64 x.
Proof.
  induction ops as [|op ops IH]; intros fees total Ht; cbn [totalFee]; [by intros [= <-]|].
  unfold safeSum. cbn beta iota zeta. destruct (_ && _); [|done]. apply IH. apply u64_range.
Qed.

Lemma processTxFee_scope tx a w t s T D O : inside w a t s T D O ->
  mSigningAccount (cur w) = asAccount app <$> t.1 !! accountId (txSource tx) -> mSigningAccount (cur w) <> None ->
  mOperationsMade (cur w) = true ->
  match processTxFee NDEBUG app tx a w with
  | Ret b w' => exists t', inside w' a t' s T D O /\ keep a w w' /\
      (if b then silent w w' /\ feePaid tx t t' else mCode (cur w') <> txSUCCESS)
  | Exn e w' => fatal e = false /\ exists t', inside w' a t' s T D O /\ keep a w w'
  end.
Proof.
  intros Hi Es Hs Hm. unfold feePaid. destruct (t.1 !! accountId (txSource tx)) as [e|]; [|by rewrite Es in Hs]. clear Hs.
  unfold processTxFee. destruct (_ <? _); [exists t; split_and!; try done; by exists e|].
  rewrite (run_bind get _ w w w eq_refl). rewrite Es. simpl.
  rewrite (run_bind (deref (Some (asAccount app e))) _ w (asAccount app e) w eq_refl).
  case_bool_decide as HM; [exists t; split_and!; try done; exists e; split; [done|by rewrite bool_decide_eq_true_2]|].
  rewrite (run_bind _ _ _ _ _ (query_inside _ _ _ _ _ _ _ Hi)). simpl.
  destruct (tryGetTxFeeAsset app t.1) as [x|asset] eqn:Ea.
  { split; [by eapply tryGetTxFeeAsset_throws|]. by exists t. }
  rewrite (run_bind (lift (inr asset)) _ w asset w eq_refl).
  destruct asset as [asset|];
    [|exists t; split_and!; try done; exists e; split; [done|by rewrite bool_decide_eq_false_2]].
  unfold mOperations. rewrite Hm.
  destruct (totalFee app t.1 asset _ ∅ 0 (txOperations tx)) as [x|total] eqn:Et.
  { split; [by eapply totalFee_throws|]. by exists t. }
  rewrite (run_bind (lift (inr total)) _ w total w eq_refl).
  destruct (Z.ltb_spec (default UINT64_MAX (maxTotalFee tx)) total) as [|Hle].
  { destruct (setCode_false a w t s T D O txINSUFFICIENT_FEE Hi) as (w' & E & Hi' & [Hk _] & Hc); [done|].
    rewrite E. by exists t. }
  assert (Hr : is_u64 total) by (eapply totalFee_range; [|exact Et]; unfold is_u64, UINT64_MAX; lia).
  pose proof (chargeTxFee_stays a asset (txSource tx) total t (in_inv _ _ _ _ _ _ _ Hi) Hr w s T D O Hi) as Hch.
  unfold mbind at 1, M_bind at 1.
  destruct (chargeTxFee NDEBUG app a asset (txSource tx) total w) as [[c|] w1|x w1]; [| |done].
  - destruct Hch as (t1 & Hi1 & Hk1 & _ & Hne & _).
    destruct (setCode_false a w1 t1 s T D O c Hi1) as (w' & E & Hi' & [Hk _] & Hc); [congruence|].
    rewrite E. exists t1. split_and!; [done|by eapply keep_trans|done].
  - destruct Hch as (t1 & Hi1 & Hk1 & Hs1 & _ & Hf). exists t1. split_and!; try done; [apply Hs1..|].
    exists e. split; [done|]. rewrite bool_decide_eq_false_2 by done. simpl. exists total. auto.
Qed.

(** ** Applying a transaction *)

(** What a transaction that is applied does. *)
Definition transacts (tx : Tx) (t t' : Scope) : Prop :=
  exists t1, feePaid tx t t1 /\ performs (txOperations tx) t1 t'.

(** The block of [applyTx], inside of its delta and its transaction: the last two calls
    are the commits. *)
Lemma applyInside_scope tx a w t s T D O : Forall contract (txOperations tx) -> inside w a t s T D O ->
  mSigningAccount (cur w) = asAccount app <$> t.1 !! accountId (txSource tx) -> mSigningAccount (cur w) <> None ->
  mOperationsMade (cur w) = true ->
  match applyInside NDEBUG app tx a w with
  | Ret (Some false) w' => exists w1 t', inside w1 a t' s T D O /\ keep a w w1 /\
      mCode (cur w1) = mCode (cur w) /\ transacts tx t t' /\
      checkAllSignaturesUsed (mValidator (cur w1)) = true /\
      (commitTransaction (S a);; onDelta (commit NDEBUG a)) w1 = Ret () w'
  | Ret r w' => exists t', inside w' a t' s T D O /\ keep a w w' /\ (r = None -> mCode (cur w') <> txSUCCESS)
  | Exn e w' => fatal e = false /\ (exists t', inside w' a t' s T D O /\ keep a w w') \/
      exists w1 t', inside w1 a t' s T D O /\ keep a w w1 /\
        (commitTransaction (S a);; onDelta (commit NDEBUG a)) w1 = Exn e w'
  end.
Proof.
  intros Hc Hi Hacc Hs Hm. unfold applyInside. case_bool_decide.
  { left. split; [done|]. by exists t. }
  pose proof (processTxFee_scope tx a w t s T D O Hi Hacc Hs Hm) as Hfee. unfold mbind at 1, M_bind at 1.
  destruct (processTxFee NDEBUG app tx a w) as [[] w1|e w1]; simpl; [| |by left].
  2: { destruct Hfee as (t1 & Hi1 & Hk1 & Hc1). exists t1. split_and!; [|done..]. destruct Hi1. by split. }
  destruct Hfee as (t1 & Hi1 & Hk1 & [Hc1 _] & Hf). unfold mbind at 1, M_bind at 1, get. cbn beta iota.
  assert (Eo : mOperations tx (cur w1) = txOperations tx) by (unfold mOperations; by rewrite (proj1 Hk1), Hm).
  pose proof (applyOperations_scope tx a s T D O _ Hc 0 false w1 t1 Hi1) as Hops. rewrite Eo.
  unfold mbind at 1, M_bind at 1. destruct (applyOperations NDEBUG app tx a 0 (txOperations tx) false w1) as [[] w2|e w2]; simpl.
  - destruct Hops as (t2 & Hi2 & Hk2 & _). exists t2. split_and!; [done|by eapply keep_trans|done].
  - destruct Hops as (t2 & Hi2 & Hk2 & Hc2 & Hp). destruct (Hp eq_refl) as [_ Hp'].
    unfold txCheckAllSignaturesUsed. unfold mbind at 1, M_bind at 1, mbind at 1, M_bind at 1, get. cbn beta iota.
    destruct (checkAllSignaturesUsed (mValidator (cur w2))) eqn:Eu; simpl.
    + assert (Hk : keep a w w2) by (by eapply keep_trans).
      unfold mbind, M_bind. destruct (commitTransaction (S a) w2) as [[] w4|e4 w4] eqn:E1;
        [destruct (onDelta (commit NDEBUG a) w4) as [[] w5|e5 w5] eqn:E2|].
      * exists w2, t2. split; [done|]. split; [done|]. split; [congruence|]. split; [by exists t1|]. split; [done|].
        unfold mbind, M_bind. by rewrite E1, E2.
      * right. exists w2, t2. rewrite E1. by rewrite E2.
      * right. exists w2, t2. by rewrite E1.
    + exists t2. split; [by apply inside_cur|]. split; [|done].
      eapply keep_trans; [by eapply keep_trans|]. by apply coded_cur.
  - destruct Hops as (Hfa & t2 & Hi2 & Hk2). left. split; [done|]. exists t2. split; [done|by eapply keep_trans].
Qed.

Lemma commits_inside w a t' t s T e D O : inside w (S a) t' (t :: s) T (e :: D) ({[S (S a)]} ∪ O) ->
  (forall x, x ∈ O -> (x <= S a)%nat) ->
  exists w1 w2, (commitTransaction (S (S a));; onDelta (commit NDEBUG (S a))) w = Ret () w1 /\
    onDelta (destroy (S a)) w1 = Ret () w2 /\ destroyTransaction (S (S a)) w2 = Ret () w2 /\
    inside w2 a t' s T D O /\ keep a w w2 /\ cur w2 = cur w.
Proof.
  intros Hi Hf. destruct (commit_scope (NDEBUG := NDEBUG) (dw w) a t' t s (in_refines _ _ _ _ _ _ _ Hi))
    as (d1 & d2 & E1 & E2 & Hr & Hd).
  assert (Ho : S (S a) ∈ openTxs w) by (rewrite (in_open _ _ _ _ _ _ _ Hi); set_solver).
  set (w0 := mkTW (dw w) (sqlCommit (session w)) (openTxs w ∖ {[S (S a)]}) (cur w) (meta w)).
  exists (set_dw d1 w0), (set_dw d2 w0). rewrite (run_bind _ _ _ _ _ (commitTransaction_open _ _ Ho)).
  split; [exact (onDelta_Ret _ w0 _ _ E1)|]. split; [exact (onDelta_Ret _ (set_dw d1 w0) _ _ E2)|].
  split; [apply destroyTransaction_done; simpl; set_solver|].
  split; [by eapply inside_commit|]. split; [|done].
  by apply (keep_upto (S a) _ w w); [apply keep_refl|done|lia|].
Qed.

Lemma aborts_inside w a t' t s T T' D O : inside w (S a) t' (t :: s) T' (mkTxDb t.1 T :: D) ({[S (S a)]} ∪ O) ->
  (forall x, x ∈ O -> (x <= S a)%nat) -> Inv t ->
  exists w1 w2, onDelta (destroy (S a)) w = Ret () w1 /\ destroyTransaction (S (S a)) w1 = Ret () w2 /\
    inside w2 a t s T D O /\ keep (S a) w w2 /\ cur w2 = cur w /\
    forall b, (b < S a)%nat -> deltas (dw w2) !! b = deltas (dw w) !! b.
Proof.
  intros Hi Hf Ht. destruct (abort_scope (dw w) (S a) t' t s (in_refines _ _ _ _ _ _ _ Hi)) as (d1 & E1 & Hr & Hd).
  assert (Ho : S (S a) ∈ openTxs w) by (rewrite (in_open _ _ _ _ _ _ _ Hi); set_solver).
  exists (set_dw d1 w). eexists. split; [by apply onDelta_Ret|]. split; [by apply destroyTransaction_open|].
  split; [by eapply (inside_abort w)|]. split; [|done].
  by apply (keep_upto (S a) _ w w); [apply keep_refl|done|lia|].
Qed.

Lemma blank_same a w w' : blank a w -> deltas (dw w') !! a = deltas (dw w) !! a -> blank a w'.
Proof. intros (d & Hd & ?) E. exists d. by rewrite E. Qed.

(** What a transaction that is applied was, and did. *)
Definition applied (tx : Tx) (v : Validator) (t t' : Scope) : Prop :=
  validNow tx v t.1 /\ transacts tx t t'.

(** What [applyTx] leaves. *)
Definition settled (tx : Tx) (a : nat) (w : TW) (t : Scope) (s : list Scope) (T : Tables) (D : list TxDb)
    (O : gset nat) (r : outcome TW bool) : Prop :=
  match r with
  | Ret true w' => keep a w w' /\ mCode (cur w') = mCode (cur w) /\ mOperationsMade (cur w) = true /\
      exists t', inside w' a t' s T D O /\ applied tx (resetSignatureTracker (mValidator (cur w))) t t'
  | Ret false w' => keep a w w' /\ mCode (cur w') <> txSUCCESS /\ inside w' a t s T D O /\ blank a w'
  | Exn e w' => fatal e = false /\ keep a w w' /\ inside w' a t s T D O
  end.

(** The block is left without a commit. *)
Lemma block_aborts w w4 a t' t s T D O : inside w4 (S a) t' (t :: s) T (mkTxDb t.1 T :: D) ({[S (S a)]} ∪ O) ->
  (forall x, x ∈ O -> (x <= S a)%nat) -> keep (S a) w w4 -> Inv t -> blank a w ->
  exists w5 w6, onDelta (destroy (S a)) w4 = Ret () w5 /\ destroyTransaction (S (S a)) w5 = Ret () w6 /\
    inside w6 a t s T D O /\ keep a w w6 /\ cur w6 = cur w4 /\ blank a w6.
Proof.
  intros Hi4 Hf Hk Ht Hb. destruct (aborts_inside w4 a t' t s T T D O Hi4 Hf Ht) as (w5 & w6 & E5 & E6 & Hi6 & Hk6 & Hc6 & Hd6).
  exists w5, w6. split_and!; try done.
  - apply (keep_upto (S a) _ w w4); [done|done|lia|]. intros c Hc'. apply Hd6. lia.
  - apply (blank_same a w); [done|]. rewrite Hd6 by lia. apply Hk. lia.
Qed.

(** The block of [applyTx]. *)
Lemma applyBlock_scope tx a w t s T D O : Forall contract (txOperations tx) -> inside w a t s T D O ->
  mSigningAccount (cur w) = asAccount app <$> t.1 !! accountId (txSource tx) -> mSigningAccount (cur w) <> None ->
  mOperationsMade (cur w) = true -> blank a w ->
  match (newTransaction (S (S a));; finally
      (onDelta (newNested (S a) a);; finally (applyInside NDEBUG app tx (S a)) (onDelta (destroy (S a))))
      (destroyTransaction (S (S a)))) w with
  | Ret (Some false) w' => keep a w w' /\ mCode (cur w') = mCode (cur w) /\
      exists t', inside w' a t' s T D O /\ transacts tx t t'
  | Ret r w' => keep a w w' /\ (r = None -> mCode (cur w') <> txSUCCESS) /\ inside w' a t s T D O /\ blank a w'
  | Exn e w' => fatal e = false /\ keep a w w' /\ inside w' a t s T D O
  end.
Proof.
  intros Hc Hi Hacc Hs Hm Hb. destruct (enter_scope w a t s T D O Hi) as (d1 & E1 & Hi3 & Hk3).
  unfold newTransaction. erewrite run_bind by done. set (w2 := set_openTxs _ _). set (w3 := mkTW d1 _ _ _ _) in *.
  assert (E3 : onDelta (newNested (S a) a) w2 = Ret () w3) by exact (onDelta_Ret _ w2 _ _ E1).
  assert (Hf := in_fresh _ _ _ _ _ _ _ Hi). assert (Ht := in_inv _ _ _ _ _ _ _ Hi).
  pose proof (applyInside_scope tx (S a) w3 t (t :: s) T _ _ Hc Hi3 Hacc Hs Hm) as Hin.
  destruct (applyInside NDEBUG app tx (S a) w3) as [r w4|e w4] eqn:Ein.
  - assert (Hret : r <> Some false -> exists t', inside w4 (S a) t' (t :: s) T (mkTxDb t.1 T :: D) ({[S (S a)]} ∪ O) /\
      keep (S a) w3 w4 /\ (r = None -> mCode (cur w4) <> txSUCCESS)) by (by destruct r as [[]|]).
    destruct (decide (r = Some false)) as [->|Hne].
    + destruct Hin as (w1' & t' & Hi1 & Hk1 & Hc1 & Htr & _ & Ec).
      destruct (commits_inside w1' a t' t s T _ D O Hi1 Hf) as (w5 & w6 & Ec' & E5 & E6 & Hi6 & Hk6 & Hc6).
      rewrite Ec in Ec'. injection Ec' as <-.
      rewrite finally_Ret with (x := Some false) (w1 := w6) (w2 := w6); [| |done].
      * cbn beta iota. split_and!; [|rewrite Hc6; by rewrite Hc1|by exists t'].
        eapply keep_trans; [|exact Hk6]. apply (keep_upto (S a) _ w w1'); [by eapply keep_trans|done|lia|done].
      * rewrite (run_bind _ _ _ _ _ E3). by erewrite finally_Ret.
    + destruct (Hret Hne) as (t' & Hi4 & Hk4 & Hcode).
      destruct (block_aborts w w4 a t' t s T D O Hi4) as (w5 & w6 & E5 & E6 & Hi6 & Hk6 & Hc6 & Hb6);
        [done|by eapply keep_trans|done|done|].
      rewrite finally_Ret with (x := r) (w1 := w5) (w2 := w6); [| |done].
      * rewrite <- Hc6 in Hcode. by destruct r as [[]|].
      * rewrite (run_bind _ _ _ _ _ E3). by erewrite finally_Ret.
  - destruct Hin as [(Hfa & t' & Hi4 & Hk4)|(w1' & t' & Hi1 & _ & Ec)].
    + destruct (block_aborts w w4 a t' t s T D O Hi4) as (w5 & w6 & E5 & E6 & Hi6 & Hk6 & Hc6 & Hb6);
        [done|by eapply keep_trans|done|done|].
      rewrite finally_Exn with (e := e) (w1 := w5) (w2 := w6); [done| |done|done].
      rewrite (run_bind _ _ _ _ _ E3). by erewrite finally_Exn.
    + destruct (commits_inside w1' a t' t s T _ D O Hi1 Hf) as (w5 & w6 & Ec' & _). congruence.
Qed.

Lemma applyTx_settled tx a w t s T D O : Forall contract (txOperations tx) -> inside w a t s T D O ->
  blank a w -> settled tx a w t s T D O (applyTx NDEBUG app tx a w).
Proof.
  intros Hc Hi Hb. unfold applyTx, txResetSignatureTracker. erewrite run_bind by done.
  set (w1 := set_cur (set_validator _ _) w).
  assert (Hi1 : inside w1 a t s T D O) by (by apply inside_cur).
  assert (Hk1 : keep a w w1) by (by split_and!).
  pose proof (commonValid_judges tx a w1 t s T D O Hi1 eq_refl) as Hj. unfold judges in Hj.
  unfold mbind at 1, M_bind at 1. destruct (commonValid NDEBUG app (Some a) tx w1) as [[] w2|e w2].
  - destruct Hj as (Hi2 & (Hk2 & _ & Hb2) & (Hm & Hv) & Hc2 & Hs2). simpl.
    assert (Hkk : keep a w w2) by (by eapply keep_trans).
    assert (Hs3 : mSigningAccount (cur w2) <> None).
    { rewrite Hs2. by destruct Hv as (_ & _ & _ & x & _ & -> & _). }
    pose proof (applyBlock_scope tx a w2 t s T D O Hc Hi2 Hs2 Hs3) as Hbl.
    assert (Hm2 : mOperationsMade (cur w2) = true) by (by rewrite (proj1 Hkk)).
    specialize (Hbl Hm2 (Hb2 Hb)). unfold mbind, M_bind in Hbl |- *. cbn beta iota delta [newTransaction modify] in Hbl |- *.
    destruct (finally _ _ _) as [[[]|] w3|e w3].
    + destruct Hbl as (Hk3 & _ & Hi3 & Hb3). split_and!; [|done|by destruct Hi3; split|done].
      by eapply keep_trans.
    + destruct Hbl as (Hk3 & Hc3 & t' & Hi3 & Ht). split_and!; [by eapply keep_trans|by rewrite Hc3, Hc2|done|].
      by exists t'.
    + destruct Hbl as (Hk3 & Hc3 & Hi3 & Hb3). split_and!; [by eapply keep_trans|by apply Hc3|done|done].
    + destruct Hbl as (Hf & Hk3 & Hi3). split_and!; [done|by eapply keep_trans|done].
  - destruct Hj as (Hi2 & (Hk2 & _ & Hb2) & Hc2). split_and!; [by eapply keep_trans|done|done|by apply Hb2].
  - destruct Hj as (Hf & Hi2 & (Hk2 & _)). split_and!; [done|by eapply keep_trans|done].
Qed.

(** ** A delta inside of another *)

Lemma enter_nested w a t s T D O : inside w a t s T D O ->
  exists w', onDelta (newNested (S a) a) w = Ret () w' /\ inside w' (S a) t (t :: s) T D O /\ blank (S a) w' /\
    cur w' = cur w.
Proof.
  intros Hi. destruct (newNested_scope (NDEBUG := NDEBUG) (dw w) a t s (in_refines _ _ _ _ _ _ _ Hi))
    as (d1 & dn & E1 & Hr1 & Hd1 & Hn). exists (set_dw d1 w). split; [by apply onDelta_Ret|]. split; [|split; [|done]].
  - destruct Hi as [? ? ? Hf ?]. split; try done. intros x Hx. specialize (Hf x Hx). lia.
  - exists dn. split; [|done]. simpl. rewrite Hd1. apply putDelta_lookup.
Qed.

Lemma leave_nested w a t s T D O : inside w (S a) t (t :: s) T D O -> (forall x, x ∈ O -> (x <= S a)%nat) ->
  exists w', onDelta (destroy (S a)) w = Ret () w' /\ inside w' a t s T D O /\ cur w' = cur w.
Proof.
  intros Hi Hf. destruct (abort_scope (dw w) (S a) t t s (in_refines _ _ _ _ _ _ _ Hi)) as (d1 & E1 & Hr & Hd).
  exists (set_dw d1 w). split; [by apply onDelta_Ret|]. split; [|done]. destruct Hi. by split.
Qed.

(** The commit; the tables are written before the destructor runs. *)
Lemma commit_nested_inside w a t' t s T D O : inside w (S a) t' (t :: s) T D O -> (forall x, x ∈ O -> (x <= S a)%nat) ->
  exists w1, onDelta (commit NDEBUG (S a)) w = Ret () w1 /\ cur w1 = cur w /\ session w1 = session w /\
    forall w2 T2, dw w2 = dw w1 -> openTxs w2 = openTxs w1 -> sqlStack (session w2) = mkTxDb t'.1 T2 :: D ->
    exists w3, onDelta (destroy (S a)) w2 = Ret () w3 /\ inside w3 a t' s T2 D O /\ cur w3 = cur w2.
Proof.
  intros Hi Hf. destruct (commit_scope (NDEBUG := NDEBUG) (dw w) a t' t s (in_refines _ _ _ _ _ _ _ Hi))
    as (d1 & d2 & E1 & E2 & Hr & Hd). exists (set_dw d1 w). split; [by apply onDelta_Ret|]. split_and!; [done..|].
  intros w2 T2 Ed Eo Es. exists (set_dw d2 w2). split; [apply onDelta_Ret; by rewrite Ed|]. split; [|done].
  destruct Hi. split; simpl; try done. by rewrite Eo.
Qed.

(** ** The loop over the transactions of a ledger *)

Lemma map_asc_empty {V : Type} : map_asc (∅ : gmap LedgerId V) = [].
Proof. unfold map_asc. by rewrite map_to_list_empty. Qed.

(** The two assertions on a transaction that failed. *)
Lemma failed_asserts w a t s T D O : inside w (S a) t (t :: s) T D O -> blank (S a) w ->
  (d ← onDelta (theDelta (S a)); o ← onDelta (theDelta a);
   assertTx NDEBUG (Nat.eqb (length (getChanges d)) 0);;
   assertTx NDEBUG (bool_decide (mCurrentHeader d = mCurrentHeader o))) w = Ret () w.
Proof.
  intros Hi (d0 & Hd0 & E1 & E2 & E3). destruct Hi as [Hr _ _ _ _].
  apply refines_uncons in Hr as (d & _ & Hd & _ & (_ & _ & Hc & _) & Hr).
  apply refines_uncons in Hr as (o & _ & Ho & _ & (_ & _ & Hco & _) & _). simplify_eq.
  unfold onDelta, theDelta, mbind, M_bind, get, deref, mret, M_ret. rewrite Hd. simpl. rewrite Ho. simpl.
  unfold assertTx, getChanges. rewrite E1, E2, E3, Hc, Hco, !map_asc_empty. simpl.
  rewrite bool_decide_eq_true_2, orb_true_r by done. simpl. by destruct w.
Qed.

(** The scope ends as [t'], whatever was written to the tables before. *)
Definition ends (w : TW) (a : nat) (t' : Scope) (s : list Scope) (D : list TxDb) (O : gset nat) : Prop :=
  forall w2 T2, dw w2 = dw w -> openTxs w2 = openTxs w -> sqlStack (session w2) = mkTxDb t'.1 T2 :: D ->
  exists w3, onDelta (destroy (S a)) w2 = Ret () w3 /\ inside w3 a t' s T2 D O /\ cur w3 = cur w2.

Lemma ends_nested w a t s T D O : inside w (S a) t (t :: s) T D O -> (forall x, x ∈ O -> (x <= S a)%nat) ->
  ends w a t s D O.
Proof.
  intros Hi Hf w2 T2 Ed Eo Es. apply leave_nested; [|done]. destruct Hi. split; try done; congruence.
Qed.

(** What is known of a transaction by its code. *)
Definition verdict (tx : Tx) (v : Validator) (c : TransactionResultCode) (t t' : Scope) : Prop :=
  c = txSUCCESS /\ applied tx v t t' \/ c <> txSUCCESS /\ t' = t.

Lemma tryApply_scope tx a w t s T D O : Forall contract (txOperations tx) -> inside w (S a) t (t :: s) T D O ->
  blank (S a) w -> (forall x, x ∈ O -> (x <= S a)%nat) -> mCode (cur w) = txSUCCESS ->
  exists w1 t', tryApply NDEBUG app tx a w = Ret () w1 /\ sqlStack (session w1) = mkTxDb t'.1 T :: D /\
    verdict tx (resetSignatureTracker (mValidator (cur w))) (mCode (cur w1)) t t' /\ ends w1 a t' s D O.
Proof.
  intros Hc Hi Hb Hf Hcode. pose proof (applyTx_settled tx (S a) w t (t :: s) T D O Hc Hi Hb) as Hst.
  unfold tryApply, catchAll, apply. unfold mbind at 1, M_bind at 1.
  destruct (applyTx NDEBUG app tx (S a) w) as [[] w1|e w1].
  - destruct Hst as (_ & Hc1 & _ & t' & Hi1 & Ha).
    destruct (commit_nested_inside w1 a t' t s T D O Hi1 Hf) as (w2 & E2 & Hcur & Hses & He).
    rewrite E2. exists w2, t'. split_and!; [done| | |done].
    + rewrite Hses. apply Hi1.
    + left. split; [congruence|done].
  - destruct Hst as (_ & Hc1 & Hi1 & Hb1). rewrite (failed_asserts w1 a t s T D O Hi1 Hb1).
    exists w1, t. split_and!; [done|apply Hi1|by right|by eapply ends_nested].
  - destruct Hst as (Hfa & _ & Hi1). rewrite Hfa. eexists _, t. split_and!; [done|apply Hi1|by right|].
    eapply ends_nested; [by apply inside_cur|done].
Qed.

(** The row of [txhistory] *)
Definition addHistory (k : Z * Z) (r : TxRow) (T : Tables) : Tables :=
  mkTables (<[k := r]> (txhistory T)) (txfeehistory T) (txtiming T) (ledgerTables T).

Lemma storeTransaction_run tx index w L T D : sqlStack (session w) = mkTxDb L T :: D ->
  txhistory T !! (appLedgerSeq app, index) = None ->
  exists w', storeTransaction app tx index w = Ret (mCode (cur w)) w' /\ dw w' = dw w /\ openTxs w' = openTxs w /\
    sqlStack (session w') = mkTxDb L (addHistory (appLedgerSeq app, index)
      (mkTxRow (txHash tx) (mCode (cur w)) (meta w)) T) :: D.
Proof.
  intros Es En. unfold storeTransaction, query, mbind, M_bind, get, deref. rewrite Es. simpl. rewrite En.
  eexists. split; [done|]. split_and!; [done..|]. exact (sqlExec_stack _ _ _ _ Es).
Qed.

(** The frame of a transaction after [processSeqNum]. *)
Definition ready (tx : Tx) : TxState :=
  mkTxState txSUCCESS ∅ ∅ true None (newValidator (txHash tx) (txSignatures tx)).

(** One turn of the loop. *)
Lemma applyTransaction_scope tx index a w t s T D O : Forall contract (txOperations tx) -> inside w a t s T D O ->
  txhistory T !! (appLedgerSeq app, index) = None ->
  exists w' t' c m, (onDelta (newNested (S a) a);;
      finally (modify (set_meta []);; r ← withFrame (ready tx) (tryApply NDEBUG app tx a;; storeTransaction app tx index);
               mret r.1) (onDelta (destroy (S a)))) w = Ret c w' /\
    inside w' a t' s (addHistory (appLedgerSeq app, index) (mkTxRow (txHash tx) c m) T) D O /\
    verdict tx (newValidator (txHash tx) (txSignatures tx)) c t t'.
Proof.
  intros Hc Hi Hn. destruct (enter_nested w a t s T D O Hi) as (w1 & E1 & Hi1 & Hb1 & _).
  rewrite (run_bind _ _ _ _ _ E1). set (w2 := set_cur (ready tx) (set_meta [] w1)).
  assert (Hi2 : inside w2 (S a) t (t :: s) T D O) by (destruct Hi1; by split).
  destruct (tryApply_scope tx a w2 t s T D O Hc Hi2 Hb1 (in_fresh _ _ _ _ _ _ _ Hi) eq_refl)
    as (w3 & t' & E3 & Hs3 & Hv & He).
  destruct (storeTransaction_run tx index w3 t'.1 T D Hs3 Hn) as (w4 & E4 & Hd4 & Ho4 & Hs4).
  destruct (He w4 _ Hd4 Ho4 Hs4) as (w5 & E5 & Hi5 & _).
  exists w5, t', (mCode (cur w3)), (meta w3). split; [|done]. apply finally_Ret with w4; [|done].
  erewrite run_bind by done. unfold withFrame. unfold mbind at 1, M_bind at 1.
  assert (E : (modify (set_cur (ready tx));; r ← tryApply NDEBUG app tx a;; storeTransaction app tx index;
    w ← get; mret (r, cur w)) (set_meta [] w1) = Ret (mCode (cur w3), cur w4) w4).
  { erewrite run_bind by done. erewrite run_bind; [done|]. by rewrite (run_bind _ _ _ _ _ E3). }
  by rewrite E.
Qed.

(** The transactions, one after the other, with their codes. *)
Fixpoint runsLedger (txs : list Tx) (codes : list TransactionResultCode) (t t' : Scope) : Prop :=
  match txs, codes with
  | [], [] => t' = t
  | tx :: txs', c :: codes' =>
      exists t1, verdict tx (newValidator (txHash tx) (txSignatures tx)) c t t1 /\ runsLedger txs' codes' t1 t'
  | _, _ => False
  end.

(** The rows of [txhistory] after [index]; the other tables stay. *)
Definition recorded (index : Z) (txs : list Tx) (codes : list TransactionResultCode) (T T' : Tables) : Prop :=
  txfeehistory T' = txfeehistory T /\ txtiming T' = txtiming T /\ ledgerTables T' = ledgerTables T /\
  (forall k, k.1 <> appLedgerSeq app \/ k.2 <= index -> txhistory T' !! k = txhistory T !! k) /\
  forall i tx c, txs !! i = Some tx -> codes !! i = Some c ->
    exists m, txhistory T' !! (appLedgerSeq app, index + 1 + Z.of_nat i) = Some (mkTxRow (txHash tx) c m).

Definition noHistory (index : Z) (T : Tables) : Prop :=
  forall j, index < j -> txhistory T !! (appLedgerSeq app, j) = None.

Lemma applyTransactions_scope a s D O txs : Forall (fun tx => Forall contract (txOperations tx)) txs ->
  forall index w t T, inside w a t s T D O -> noHistory index T ->
  exists codes w' t' T', applyTransactions NDEBUG app a index (map (fun tx => (tx, ready tx)) txs) w = Ret codes w' /\
    inside w' a t' s T' D O /\ runsLedger txs codes t t' /\ recorded index txs codes T T'.
Proof.
  induction 1 as [|tx txs Hc _ IH]; intros index w t T Hi Hn.
  { exists [], w, t, T. split_and!; try done. }
  destruct (applyTransaction_scope tx (index + 1) a w t s T D O Hc Hi) as (w1 & t1 & c & m & E1 & Hi1 & Hv);
    [apply Hn; lia|].
  destruct (IH (index + 1) w1 t1 _ Hi1) as (codes & w2 & t2 & T2 & E2 & Hi2 & Hr & Hf & Ht & Hl & Ho & Hrow).
  { intros j Hj. simpl. rewrite lookup_insert_ne; [apply Hn; lia|]. intros [= E]. lia. }
  exists (c :: codes), w2, t2, T2. split; [|split; [done|split; [by exists t1|]]].
  - cbn [applyTransactions map].
    unfold mbind, M_bind in E1 |- *. destruct (onDelta (newNested (S a) a) w); [|done]. rewrite E1. by rewrite E2.
  - split; [done|]. split; [done|]. split; [done|]. split.
    + intros k Hk. rewrite Ho by (destruct Hk; [by left|right; lia]). simpl. rewrite lookup_insert_ne; [done|].
      intros <-. simpl in Hk. lia.
    + intros [|i] tx' c' Htx Hc'; cbn in Htx, Hc'; simplify_eq.
      * exists m. replace (index + 1 + Z.of_nat 0) with (index + 1) by lia. rewrite Ho by (right; simpl; lia).
        apply lookup_insert_eq.
      * destruct (Hrow i tx' c' Htx Hc') as [m' Hm']. exists m'. rewrite <- Hm'. f_equal. f_equal. lia.
Qed.

(** ** Fees and times *)

(** A frame of the transaction, whatever was done with it. *)
Definition frameOf (tx : Tx) (x : TxState) : Prop :=
  mContentHash (mValidator x) = txHash tx /\ mSignatures (mValidator x) = txSignatures tx.

Lemma processSeqNum_ready tx x w : frameOf tx x ->
  withFrame x processSeqNum w = Ret ((), ready tx) (set_cur (ready tx) w).
Proof.
  intros [Hh Hs]. unfold withFrame, processSeqNum, txResetSignatureTracker, resetResults, ready, newValidator.
  unfold mbind, M_bind, modify, get, mret, M_ret. simpl. unfold resetSignatureTracker, set_mUsedSignatures.
  by rewrite Hh, Hs.
Qed.

(** The rows that [processFeesSeqNums] inserts are new. *)
Definition recordable (index : Z) (txs : list Tx) (T : Tables) : Prop :=
  NoDup (txHash <$> txs) /\ (forall tx, tx ∈ txs -> txtiming T !! txHash tx = None) /\
  forall j, index < j -> txfeehistory T !! (appLedgerSeq app, j) = None.

(** The times of the transactions are new in [T] and there in [T'], with those of before. *)
Definition timed (txs : list Tx) (T T' : Tables) : Prop :=
  txhistory T' = txhistory T /\ ledgerTables T' = ledgerTables T /\ NoDup (txHash <$> txs) /\ txtiming T ⊆ txtiming T' /\
  (forall tx, tx ∈ txs -> txtiming T !! txHash tx = None /\ txtiming T' !! txHash tx = Some (maxTime tx)).

Definition addFee (k : Z * Z) (r : Bytes * list LedgerEntryChange) (T : Tables) : Tables :=
  mkTables (txhistory T) (<[k := r]> (txfeehistory T)) (txtiming T) (ledgerTables T).
Definition addTiming (h : Bytes) (m : Z) (T : Tables) : Tables :=
  mkTables (txhistory T) (txfeehistory T) (<[h := m]> (txtiming T)) (ledgerTables T).

Lemma onTables_inside f w a t s T D O : inside w a t s T D O ->
  exists w', onTables f w = Ret () w' /\ inside w' a t s (f T) D O /\ dw w' = dw w.
Proof.
  intros [? Hs ? ? ?]. eexists. split; [done|]. split; [|done]. split; try done. exact (sqlExec_stack _ _ _ _ Hs).
Qed.

Lemma storeTransactionFee_run tx cs index w a t s T D O : inside w a t s T D O ->
  match txfeehistory T !! (appLedgerSeq app, index) with
  | None => exists w', storeTransactionFee app tx cs index w = Ret () w' /\
      inside w' a t s (addFee (appLedgerSeq app, index) (txHash tx, cs) T) D O /\ dw w' = dw w
  | Some _ => storeTransactionFee app tx cs index w = Exn sqlError w
  end.
Proof.
  intros Hi. unfold storeTransactionFee. rewrite (run_bind _ _ _ _ _ (query_inside _ _ _ _ _ _ _ Hi)). simpl.
  destruct (_ !! _); [done|]. by apply (onTables_inside (addFee _ _)).
Qed.

Lemma storeTransactionTiming_run tx w a t s T D O : inside w a t s T D O ->
  match txtiming T !! txHash tx with
  | None => exists w', storeTransactionTiming tx w = Ret () w' /\
      inside w' a t s (addTiming (txHash tx) (maxTime tx) T) D O /\ dw w' = dw w
  | Some _ => storeTransactionTiming tx w = Exn sqlError w
  end.
Proof.
  intros Hi. unfold storeTransactionTiming. rewrite (run_bind _ _ _ _ _ (query_inside _ _ _ _ _ _ _ Hi)). simpl.
  destruct (_ !! _); [done|]. by apply (onTables_inside (addTiming _ _)).
Qed.

(** One turn of the loop of [processFeesSeqNums]. *)
Lemma processOne_scope tx x index a w t s T D O : frameOf tx x -> inside w a t s T D O ->
  let m := (onDelta (newNested (S a) a);;
    finally
      (d ← onDelta (theDelta (S a)); storeTransactionFee app tx (getChanges d) index;;
       r ← withFrame x processSeqNum; storeTransactionTiming tx;; onDelta (commit NDEBUG (S a));; mret r)
      (onDelta (destroy (S a)))) in
  (txfeehistory T !! (appLedgerSeq app, index) = None /\ txtiming T !! txHash tx = None /\
   exists w' cs, m w = Ret ((), ready tx) w' /\ inside w' a t s
     (addTiming (txHash tx) (maxTime tx) (addFee (appLedgerSeq app, index) (txHash tx, cs) T)) D O) \/
  (~ (txfeehistory T !! (appLedgerSeq app, index) = None /\ txtiming T !! txHash tx = None) /\
   exists w' T', m w = Exn sqlError w' /\ inside w' a t s T' D O).
Proof.
  intros Hx Hi m. destruct (enter_nested w a t s T D O Hi) as (w1 & E1 & Hi1 & _).
  assert (Hf := in_fresh _ _ _ _ _ _ _ Hi). unfold m. rewrite (run_bind _ _ _ _ _ E1).
  destruct (theDelta_inside _ _ _ _ _ _ _ Hi1) as (d & Ed & _).
  pose proof (storeTransactionFee_run tx (getChanges d) index w1 (S a) t (t :: s) T D O Hi1) as Hfee.
  assert (Hbad : forall w2 T2 (k : M TW (() * TxState)), inside w2 (S a) t (t :: s) T2 D O -> k w1 = Exn sqlError w2 ->
    exists w' T', finally k (onDelta (destroy (S a))) w1 = Exn sqlError w' /\ inside w' a t s T' D O).
  { intros w2 T2 k Hi2 Ek. destruct (leave_nested w2 a t s T2 D O Hi2 Hf) as (w3 & E3 & Hi3 & _).
    exists w3, T2. split; [|done]. by apply finally_Exn with w2. }
  destruct (txfeehistory T !! (appLedgerSeq app, index)) eqn:Efee.
  { right. split; [naive_solver|]. eapply Hbad; [exact Hi1|]. rewrite (run_bind _ _ _ _ _ Ed).
    by rewrite (bind_Exn _ _ _ _ _ Hfee). }
  destruct Hfee as (w2 & E2 & Hi2 & _). pose proof (processSeqNum_ready tx x w2 Hx) as Eseq.
  assert (Hi2' := inside_cur _ _ _ _ _ _ _ (ready tx) Hi2).
  pose proof (storeTransactionTiming_run tx _ (S a) t (t :: s) _ D O Hi2') as Htime. simpl in Htime.
  destruct (txtiming T !! txHash tx) eqn:Etime.
  { right. split; [naive_solver|]. eapply Hbad; [exact Hi2'|]. rewrite (run_bind _ _ _ _ _ Ed), (run_bind _ _ _ _ _ E2).
    rewrite (run_bind _ _ _ _ _ Eseq). by rewrite (bind_Exn _ _ _ _ _ Htime). }
  destruct Htime as (w3 & E3 & Hi3 & _). left. split_and!; [done|done|].
  destruct (commit_nested_inside w3 a t t s _ D O Hi3 Hf) as (w4 & E4 & _ & Hs4 & He).
  edestruct (He w4) as (w5 & E5 & Hi5 & _); [done|done|rewrite Hs4; apply Hi3|].
  exists w5, (getChanges d). split; [|done]. apply finally_Ret with w4; [|done].
  rewrite (run_bind _ _ _ _ _ Ed), (run_bind _ _ _ _ _ E2), (run_bind _ _ _ _ _ Eseq), (run_bind _ _ _ _ _ E3).
  by rewrite (run_bind _ _ _ _ _ E4).
Qed.

Abbreviation readied txs := (map (fun tx => (tx, ready tx)) txs) (only parsing).

Lemma recordable_cons index tx txs T cs : recordable index (tx :: txs) T ->
  recordable (index + 1) txs
    (addTiming (txHash tx) (maxTime tx) (addFee (appLedgerSeq app, index + 1) (txHash tx, cs) T)).
Proof.
  intros (Hnd & Ht & Hf). rewrite fmap_cons, NoDup_cons in Hnd. destruct Hnd as [Hnin Hnd]. split_and!; [done| |].
  - intros tx' Hin. simpl. rewrite lookup_insert_ne; [apply Ht; by constructor|].
    intros E. apply Hnin. rewrite E. by apply list_elem_of_fmap_2.
  - intros j Hj. simpl. rewrite lookup_insert_ne; [apply Hf; lia|]. intros [= E]. lia.
Qed.

Lemma timed_cons tx txs T T' k r : txtiming T !! txHash tx = None ->
  timed txs (addTiming (txHash tx) (maxTime tx) (addFee k r T)) T' -> timed (tx :: txs) T T'.
Proof.
  intros Hn (Hh & Hlt & Hnd & Hs & Ht). simpl in *. split_and!; [done|done| | |].
  - rewrite fmap_cons. apply NoDup_cons. split; [|done]. intros (tx' & E & Hin)%list_elem_of_fmap.
    destruct (Ht tx' Hin) as [Hx _]. rewrite lookup_insert_None in Hx. by destruct Hx.
  - etrans; [|exact Hs]. by apply insert_subseteq.
  - intros tx' [->|Hin]%elem_of_cons.
    + split; [done|]. eapply lookup_weaken; [apply lookup_insert_eq|done].
    + destruct (Ht tx' Hin) as [H1' H2']. split; [|done]. rewrite lookup_insert_None in H1'. apply H1'.
Qed.

Lemma processEach_scope a t s D O fr : Forall (fun p => frameOf p.1 p.2) fr ->
  forall index w T, inside w a t s T D O ->
  match processEach NDEBUG app a index fr w with
  | Ret fr' w' => fr' = readied fr.*1 /\ exists T', inside w' a t s T' D O /\ timed fr.*1 T T'
  | Exn e w' => e = sqlError /\ (exists T', inside w' a t s T' D O) /\ ~ recordable index fr.*1 T
  end.
Proof.
  induction 1 as [|[tx x] fr Hx _ IH]; intros index w T Hi.
  { split; [done|]. exists T. split; [done|]. split_and!; [done|done|apply NoDup_nil_2|done|]. intros tx []%not_elem_of_nil. }
  cbn [processEach]. destruct (processOne_scope tx x (index + 1) a w t s T D O Hx Hi)
    as [(Hf & Ht & w1 & cs & E1 & Hi1)|(Hn & w1 & T1 & E1 & Hi1)].
  - specialize (IH (index + 1) w1 _ Hi1).
    unfold mbind at 1, M_bind at 1 in E1. unfold mbind at 1, M_bind at 1.
    destruct (onDelta (newNested (S a) a) w) as [? w0|]; [|done]. rewrite (run_bind _ _ _ _ _ E1).
    unfold mbind, M_bind. destruct (processEach NDEBUG app a (index + 1) fr w1) as [fr' w2|e w2].
    + destruct IH as (-> & T' & Hi2 & Htm). split; [done|]. exists T'. split; [done|]. by eapply timed_cons.
    + destruct IH as (-> & HT & Hr). split_and!; [done|done|]. intros Hr'. by eapply Hr, recordable_cons.
  - unfold mbind at 1, M_bind at 1 in E1. unfold mbind at 1, M_bind at 1.
    destruct (onDelta (newNested (S a) a) w) as [? w0|e0 w0]; [|simplify_eq].
    + rewrite (bind_Exn _ _ _ _ _ E1). split_and!; [done|by exists T1|].
      intros (_ & Ht & Hf). apply Hn. split; [apply Hf; lia|apply Ht; by constructor].
    + split_and!; [done|by exists T1|].
      intros (_ & Ht & Hf). apply Hn. split; [apply Hf; lia|apply Ht; by constructor].
Qed.

Lemma processFees_scope a w t s T D O fr : Forall (fun p => frameOf p.1 p.2) fr -> inside w a t s T D O ->
  S a ∉ O ->
  match processFeesSeqNums NDEBUG app a fr w with
  | Ret fr' w' => fr' = readied fr.*1 /\ exists T', inside w' a t s T' D O /\ timed fr.*1 T T'
  | Exn e w' => e = sqlError /\ inside w' a t s T D O /\ ~ recordable 0 fr.*1 T
  end.
Proof.
  intros Hfr Hi Ho. unfold processFeesSeqNums. erewrite run_bind by done. set (w1 := set_openTxs _ _).
  assert (Hi1 : inside w1 a t s T (mkTxDb t.1 T :: D) ({[S a]} ∪ O)).
  { destruct Hi as [Hr Hs Hop Hf Hv]. split; simpl; [done|by apply sqlBegin_stack|by rewrite Hop| |done].
    intros x [->%elem_of_singleton|Hx]%elem_of_union; [lia|by apply Hf]. }
  pose proof (processEach_scope a t s _ _ fr Hfr 0 w1 T Hi1) as Hp.
  assert (Hm : ({[S a]} ∪ O) ∖ {[S a]} = O) by set_solver.
  assert (Hsub : forall w2 T2, inside w2 a t s T2 (mkTxDb t.1 T :: D) ({[S a]} ∪ O) -> S a ∈ openTxs w2).
  { intros w2 T2 Hi2. rewrite (in_open _ _ _ _ _ _ _ Hi2). set_solver. }
  destruct (processEach NDEBUG app a 0 fr w1) as [fr' w2|e w2] eqn:Ep.
  - destruct Hp as (-> & T' & Hi2 & Ht). pose proof (commitTransaction_open w2 (S a) (Hsub _ _ Hi2)) as Ec.
    erewrite finally_Ret; [|by rewrite (run_bind _ _ _ _ _ Ep), (run_bind _ _ _ _ _ Ec)|];
      [|apply destroyTransaction_done; simpl; set_solver].
    split; [done|]. exists T'. split; [|done]. destruct Hi2 as [Hr Hs Hop Hf Hv]. split; simpl; try done.
    + by eapply sqlCommit_stack.
    + by rewrite Hop.
    + apply Hi.
  - destruct Hp as (-> & (T' & Hi2) & Hn).
    rewrite finally_Exn with (e := sqlError) (w1 := w2) (2 := eq_refl) (3 := destroyTransaction_open w2 (S a) (Hsub _ _ Hi2));
      [|by rewrite (bind_Exn _ _ _ _ _ Ep)].
    split_and!; [done| |done]. destruct Hi2 as [Hr Hs Hop Hf Hv]. split; simpl; try done.
    + by eapply sqlRollback_stack.
    + by rewrite Hop.
    + apply Hi.
Qed.


End fee.
End application.
End frame.
