(* ===== verification/CloseLedger.v ===== *)
(** * Closing a ledger

    [LedgerManagerImpl::closeLedger], with what it calls between the transactions of a ledger and the commit to the
    database: the upgrades, [checkAgainstDatabase] ([ledger/LedgerDeltaImpl.cpp], [ledger/EntryHelperLegacy.cpp]),
    [closeLedgerHelper], [LedgerHeaderFrameImpl::storeInsert], [PersistentState::setState],
    [advanceLedgerPointers] and [HistoryManagerImpl::maybeQueueHistoryCheckpoint]; and the theorems on the life of
    a node that closes ledgers.

    [TxFrame.v] has the loops over the transactions, [LedgerDelta.v] the deltas, [BucketList.v] and [BucketManager.v] the list
    of buckets and the header's hashes of it, [HistoryState.v] the state that is stored, [HerderValues.v] values and upgrades.
    The calls after [txscope.commit()] are not part of the model: the publication of what is queued, and [forgetUnreferencedBuckets]
    ([BucketManager.v]). *)

From Stdlib Require Import ZArith Lia String.
From stdpp Require Import base tactics gmap option list.
From S2P Require Import Prelude ScpTypes HerderValues LedgerTypes LedgerOrder Bucket BucketFacts FutureBucket BucketList BucketManager.
From S2P Require Import BucketListFacts BucketListTheorems HistoryState RestartTheorems BucketApplyTheorems.
From S2P Require Import LedgerDelta LedgerDeltaFacts LedgerDeltaTheorems UtilTypes Balance Offer CreateOffer AccountManager.
From S2P Require Import Signatures TxFrame TxTheorems.

Open Scope Z_scope.

(** ** The ledger manager *)

(** The fields of a header that are not fields of [LedgerHeader] are in its [rest], as XDR has them.
    [headerHash] is the SHA-256 of the XDR form, [resultHash] that of the results; [bucketsHash] is [BucketList::getHash].
    [hasToString] is [HistoryArchiveState::toString]; [columnsHold] says whether the columns of
    [ledgerheaders] can hold the sequence number and the close time.  [startPublish] is the snapshot and the work that
    [takeSnapshotAndPublish] makes. *)
Class CloseExterns := {
  headerHash : LedgerHeader -> Bytes;
  setScpValue : StellarValue -> list N -> list N;
  setTxSetResultHash : list TransactionResultCode -> list N -> list N;
  setLedgerVersion : Z -> list N -> list N;
  setMaxTxSetSize : Z -> list N -> list N;
  setExternalSystemIDGenerators : list Z -> list N -> list N;
  setTxExpirationPeriod : Z -> list N -> list N;
  setPreviousLedgerHash : Bytes -> list N -> list N;
  skipFields : LedgerHeader -> SkipHeader;
  setSkipFields : SkipHeader -> list N -> list N;
  bucketsHash : list BucketLevel -> Bytes;
  hasToString : Z -> list HistoryStateBucket -> Bytes;
  columnsHold : LedgerHeader -> bool;
  startPublish : Z -> list HistoryStateBucket -> exn + () }.

(** The configuration. *)
Record CloseConfig := mkCloseConfig {
  PARANOID_MODE : bool;
  ARTIFICIALLY_PESSIMIZE_MERGES_FOR_TESTING : bool;
  ARTIFICIALLY_ACCELERATE_TIME_FOR_TESTING : bool;
  hasAnyWritableHistoryArchive : bool }.

Section manager.
Context `{LedgerExterns, SigExterns, SqlSession, BucketExterns, ValueExterns, CloseExterns} (NDEBUG : bool) (cfg : CloseConfig).
Context (app : App).

(** [LedgerCloseData]: of the transaction set its two hashes and what [sortForApply] returns. *)
Record LedgerCloseData := mkLedgerCloseData {
  setPreviousHash : Bytes;
  setContentsHash : Hash;
  sortedForApply : list (Tx * TxState);
  mValue : StellarValue }.

(** [mCurrentLedger] is the header of the world below and its hash, which is zero until someone asks for it;
    [mLastClosedLedger]; the list of buckets; whether [mPublishWork] is there. *)
Record LM := mkLM {
  lmTW : TW;
  mHash : option Bytes;
  mLastClosedHash : Bytes;
  mLastClosedHeader : LedgerHeader;
  mBucketList : list BucketLevel;
  mPublishWork : bool }.

Definition set_tw x w := mkLM x (mHash w) (mLastClosedHash w) (mLastClosedHeader w) (mBucketList w) (mPublishWork w).
Definition set_hash x w := mkLM (lmTW w) x (mLastClosedHash w) (mLastClosedHeader w) (mBucketList w) (mPublishWork w).
Definition set_lastClosed x y w := mkLM (lmTW w) (mHash w) x y (mBucketList w) (mPublishWork w).
Definition set_buckets x w := mkLM (lmTW w) (mHash w) (mLastClosedHash w) (mLastClosedHeader w) x (mPublishWork w).
Definition set_publishing x w := mkLM (lmTW w) (mHash w) (mLastClosedHash w) (mLastClosedHeader w) (mBucketList w) x.

Definition onTW {A : Type} (m : M TW A) : M LM A := fun w =>
  match m (lmTW w) with Ret a x => Ret a (set_tw x w) | Exn e x => Exn e (set_tw x w) end.

Definition onBuckets {A : Type} (m : M (list BucketLevel) A) : M LM A := fun w =>
  match m (mBucketList w) with Ret a x => Ret a (set_buckets x w) | Exn e x => Exn e (set_buckets x w) end.

(** [mCurrentLedger->getHeader()] *)
Definition currentHeader (w : LM) : LedgerHeader := rootHeader (dw (lmTW w)).
Definition editCurrent (f : LedgerHeader -> LedgerHeader) : M LM () :=
  onTW (onDelta (modify (fun d => set_rootHeader (f (rootHeader d)) d))).

Definition withRest (f : list N -> list N) (h : LedgerHeader) : LedgerHeader := mkHeader (ledgerSeq h) (idGenerators h) (f (rest h)).

(** [LedgerHeaderFrameImpl::getHash] *)
Definition getHash : M LM Bytes :=
  w ← get;
  match mHash w with
  | Some x => mret x
  | None => modify (set_hash (Some (headerHash (currentHeader w))));; mret (headerHash (currentHeader w))
  end.

(** ** Upgrades *)

Definition upgradeHeader (u : LedgerUpgrade) : LedgerHeader -> LedgerHeader :=
  withRest match u with
           | VERSION x => setLedgerVersion x
           | MAX_TX_SET_SIZE x => setMaxTxSetSize x
           | EXTERNAL_SYSTEM_ID_GENERATOR x => setExternalSystemIDGenerators x
           | TX_EXPIRATION_PERIOD x => setTxExpirationPeriod x
           end.

Definition xdrError : exn := RuntimeError "xdr_runtime_error"%string.

(** The loop over the upgrades, with the delta of the ledger at [a]. *)
Fixpoint applyUpgrades (a : nat) (steps : list (list N)) : M TW () :=
  match steps with
  | [] => mret ()
  | x :: steps' =>
      match decodeUpgrade x with
      | None => throw xdrError
      | Some u => onDelta (editHeader a (upgradeHeader u));; applyUpgrades a steps'
      end
  end.

(** ** [LedgerDeltaImpl::checkAgainstDatabase] *)

Definition flushKey (k : LedgerKey) : M TW () :=
  onDelta (modify (fun w => set_entryCache (filter (fun p => p.1 <> k) (entryCache w)) w)).

(** [EntryHelperProvider::checkAgainstDatabase] *)
Definition checkEntry (e : LedgerEntry) : M TW () :=
  k ← LedgerEntryKey e;
  flushKey k;;
  d ← query;
  if bool_decide (entries d !! idOf k = Some e) then mret ()
  else throw (RuntimeError "Inconsistent state between objects: "%string).

(** [EntryHelperProvider::existsEntry]: the helpers of limits answer no. *)
Definition existsKey (k : LedgerKey) (L : gmap LedgerId LedgerEntry) : exn + bool :=
  match k with
  | KAccountLimits _ | KAccountTypeLimits _ | KStatisticsV2 _ => inr false
  | _ =>
      if bool_decide (key_type k = PAYMENT_REQUEST) then inl no_legacy_helper
      else inr (bool_decide (is_Some (L !! idOf k)))
  end.

Fixpoint checkLive (live : list LedgerEntry) : M TW () :=
  match live with [] => mret () | e :: live' => checkEntry e;; checkLive live' end.

Fixpoint checkDead (dead : list LedgerKey) : M TW () :=
  match dead with
  | [] => mret ()
  | k :: dead' =>
      d ← query;
      b ← lift (existsKey k (entries d));
      if (b : bool) then throw (RuntimeError "Inconsistent state ; entry should not exist in database: "%string)
      else checkDead dead'
  end.

Definition checkAgainstDatabase (a : nat) : M TW () :=
  if negb (PARANOID_MODE cfg) then mret ()
  else d ← onDelta (theDelta a); checkLive (getLiveEntries d);; checkDead (getDeadEntries d).

(** ** The end of a ledger *)

Definition onLedgerTables (f : LedgerTables -> LedgerTables) : M TW () :=
  onTables (fun t => mkTables (txhistory t) (txfeehistory t) (txtiming t) (f (ledgerTables t))).

(** A row with the hash or with the sequence number is there. *)
Definition headerStored (x : Bytes) (h : LedgerHeader) (t : LedgerTables) : bool :=
  bool_decide (is_Some (ledgerheaders t !! x)) ||
  bool_decide (map_Exists (fun _ h' => ledgerSeq h' = ledgerSeq h) (ledgerheaders t)).

(** [LedgerHeaderFrameImpl::storeInsert] *)
Definition storeInsert : M LM () :=
  x ← getHash;
  w ← get;
  let h := currentHeader w in
  onTW (
    d ← query;
    if headerStored x h (ledgerTables (tables d)) || negb (columnsHold h) then throw sqlError
    else onLedgerTables (fun t => mkLedgerTables (<[x := h]> (ledgerheaders t)) (storestate t) (publishqueue t))).

(** [PersistentState::setState] *)
Definition setState (s : StoreState) (v : Bytes) : M TW () :=
  onLedgerTables (fun t => mkLedgerTables (ledgerheaders t) (<[s := v]> (storestate t)) (publishqueue t)).

(** [LedgerHeaderFrameImpl(LedgerHeaderHistoryEntry const&)] *)
Definition nextHeader (x : Bytes) (h : LedgerHeader) : LedgerHeader :=
  mkHeader (u32 (ledgerSeq h + 1)) (idGenerators h) (setPreviousLedgerHash x (rest h)).

Definition advanceLedgerPointers : M LM () :=
  x ← getHash;
  w ← get;
  let h := currentHeader w in
  modify (set_lastClosed x h);;
  if negb (bool_decide (headerHash h = x)) then throw (RuntimeError "provided ledger header is invalid"%string)
  else editCurrent (fun _ => nextHeader x h);; modify (set_hash None).

(** [snapshotLedger] on the header. *)
Definition snapshotHeader (bl : list BucketLevel) (h : LedgerHeader) : LedgerHeader :=
  withRest (setSkipFields (snapshotLedger bucketsHash bl (skipFields h))) h.

Definition closeLedgerHelper (a : nat) : M LM () :=
  w ← get;
  d ← onTW (onDelta (theDelta a));
  onBuckets (addBatch NDEBUG (ledgerSeq (currentHeader w)) (getLiveEntries d) (getDeadEntries d));;
  w ← get;
  editCurrent (snapshotHeader (mBucketList w));;
  storeInsert;;
  x ← getHash;
  onTW (setState kLastClosedLedger (binToHex x));;
  w ← get;
  has ← storedState NDEBUG (ARTIFICIALLY_PESSIMIZE_MERGES_FOR_TESTING cfg) (mBucketList w);
  onTW (setState kHistoryArchiveState (hasToString (ledgerSeq (currentHeader w)) has));;
  advanceLedgerPointers.

(** ** The queue of checkpoints *)

Definition getCheckpointFrequency : Z := if ARTIFICIALLY_ACCELERATE_TIME_FOR_TESTING cfg then 8 else 64.

Definition nextCheckpointLedger (ledger : Z) : Z :=
  let freq := getCheckpointFrequency in
  if ledger =? 0 then freq else u32 (u32 (u32 (ledger + freq) - 1) / freq * freq).

Definition takeSnapshotAndPublish (seq : Z) (has : list HistoryStateBucket) : M LM () :=
  w ← get;
  if mPublishWork w then mret ()
  else lift (startPublish seq has);; modify (set_publishing true).

Definition queueCurrentHistory : M LM () :=
  w ← get;
  let ledger := ledgerSeq (mLastClosedHeader w) in
  let has := archiveState (mBucketList w) in
  onTW (
    d ← query;
    match publishqueue (ledgerTables (tables d)) !! ledger with
    | Some _ => throw sqlError
    | None => onLedgerTables (fun t =>
        mkLedgerTables (ledgerheaders t) (storestate t) (<[ledger := hasToString ledger has]> (publishqueue t)))
    end);;
  takeSnapshotAndPublish ledger has.

Definition maybeQueueHistoryCheckpoint : M LM bool :=
  w ← get;
  let seq := ledgerSeq (currentHeader w) in
  if negb (seq =? nextCheckpointLedger seq) then mret false
  else if negb (hasAnyWritableHistoryArchive cfg) then mret false
  else queueCurrentHistory;; mret true.

(** ** [closeLedger] *)

(** [closeLedger], up to the commit: [txscope] and the delta are at the address 0. *)
Definition closeLedger (lcd : LedgerCloseData) : M LM (list TransactionResultCode) :=
  w ← get;
  if negb (bool_decide (setPreviousHash lcd = mLastClosedHash w)) then throw (RuntimeError "txset mismatch"%string)
  else if negb (bool_decide (setContentsHash lcd = txSetHash (mValue lcd)))
  then throw (RuntimeError "corrupt transaction set"%string)
  else
    onTW (newTransaction 0);;
    finally
      (editCurrent (withRest (setScpValue (mValue lcd)));;
       onTW (onDelta (newRoot 0 true));;
       finally
         (fr ← onTW (processFeesSeqNums NDEBUG app 0 (sortedForApply lcd));
          codes ← onTW (applyTransactions NDEBUG app 0 0 fr);
          onTW (onDelta (editHeader 0 (withRest (setTxSetResultHash codes))));;
          onTW (applyUpgrades 0 (upgrades (mValue lcd)));;
          onTW (checkAgainstDatabase 0);;
          onTW (onDelta (commit NDEBUG 0));;
          closeLedgerHelper 0;;
          maybeQueueHistoryCheckpoint;;
          onTW (commitTransaction 0);;
          mret codes)
         (onTW (onDelta (destroy 0))))
      (onTW (destroyTransaction 0)).

End manager.

(** ** Between two ledgers *)

Section theorems.
Context `{LedgerExterns, SigExterns, SqlLaws, BucketExterns, ValueExterns, CloseExterns} {NDEBUG : bool} (cfg : CloseConfig).
Context (Inv : Scope -> Prop).

(** No delta and no transaction is open; the ledger is [t] and the database shows its entries. *)
Record atRest (w : TW) (t : Scope) (T : Tables) : Prop := {
  ar_refines : refines (dw w) 0 [t];
  ar_sql : sqlStack (session w) = [mkTxDb t.1 T];
  ar_open : openTxs w = ∅;
  ar_inv : Inv t }.

(** Nobody has asked for the hash of the current header, and the list of buckets stands for the ledger [n]. *)
Record rests (w : LM) (t : Scope) (T : Tables) (n : Z) : Prop := {
  rs_tw : atRest (lmTW w) t T;
  rs_hash : mHash w = None;
  rs_seq : ledgerSeq t.2 = n + 1;
  rs_buckets : represents n (mBucketList w) t.1 }.

(** What ledgers have in common depends on the entries and on the generators of identifiers. *)
Definition headerFree : Prop := forall L h h', Inv (L, h) -> idGenerators h' = idGenerators h -> Inv (L, h').

Hypothesis Hfree : headerFree.

Lemma onTW_Ret {A : Type} (m : M TW A) w x tw : m (lmTW w) = Ret x tw -> onTW m w = Ret x (set_tw tw w).
Proof. intros E. unfold onTW. by rewrite E. Qed.

Lemma onTW_Exn {A : Type} (m : M TW A) w e tw : m (lmTW w) = Exn e tw -> onTW m w = Exn e (set_tw tw w).
Proof. intros E. unfold onTW. by rewrite E. Qed.

(** The delta of the ledger is opened. *)
Lemma open_ledger w f t T : atRest w t T -> Inv (t.1, f t.2) ->
  exists w1 w2 w3, newTransaction 0 w = Ret () w1 /\
    onDelta (modify (fun d => set_rootHeader (f (rootHeader d)) d)) w1 = Ret () w2 /\
    onDelta (newRoot 0 true) w2 = Ret () w3 /\
    inside Inv w3 0 (t.1, f t.2) [(t.1, f t.2)] T [mkTxDb t.1 T] {[0%nat]}.
Proof.
  intros [Hr Hs Ho _] Hi. destruct t as [L h]. simpl in *.
  set (d2 := set_rootHeader (f h) (dw w)).
  assert (Hr2 : refines d2 0 [(L, f h)]) by done.
  destruct (begin_refines (NDEBUG := NDEBUG) d2 0 L (f h) [] Hr2) as (d3 & E3 & Hr3).
  apply bind_inv in E3 as ([] & d3' & E3 & [= <-]).
  eexists _, (set_dw d2 (set_openTxs ({[0%nat]} ∪ openTxs w) (set_session (sqlBegin (session w)) w))), _.
  split; [done|]. split; [unfold onDelta, modify; simpl; by rewrite Hr|].
  split; [by apply onDelta_Ret|]. split; simpl; [done|by apply sqlBegin_stack|rewrite Ho; set_solver| |done].
  intros x ->%elem_of_singleton. lia.
Qed.

(** The scope of the ledger is left without a commit of the delta. *)
Lemma abort_ledger w t o T e : inside Inv w 0 t [o] T [e] {[0%nat]} -> entries e = o.1 -> Inv o ->
  exists w1 w2, onDelta (destroy 0) w = Ret () w1 /\ destroyTransaction 0 w1 = Ret () w2 /\ atRest w2 o (tables e).
Proof.
  intros [Hr Hs Ho _ Hi] He Hv. destruct (abort_scope (dw w) 0 t o [] Hr) as (d1 & E1 & Hr1 & _).
  exists (set_dw d1 w). assert (H0o : (0 ∈ openTxs (set_dw d1 w))%nat) by (simpl; rewrite Ho; set_solver).
  eexists. split; [by apply onDelta_Ret|]. split; [by apply destroyTransaction_open|].
  split; simpl; [done| |rewrite Ho; set_solver|done].
  erewrite sqlRollback_stack by done. destruct e. by simpl in *; subst.
Qed.

Lemma edit_inside w a L h o s T D O f : inside Inv w a (L, h) (o :: s) T D O -> idGenerators (f h) = idGenerators h ->
  exists w', onDelta (editHeader a f) w = Ret () w' /\ inside Inv w' a (L, f h) (o :: s) T D O.
Proof.
  intros [Hr Hs Ho Hf Hi] Hg. destruct (header_refines (NDEBUG := NDEBUG) (dw w) a L h o s f Hr) as (d & E & Hr').
  apply bind_inv in E as ([] & d' & E & [= <-]). exists (set_dw d' w). split; [by apply onDelta_Ret|].
  split; try done. by eapply Hfree.
Qed.

(** ** Upgrades *)

Definition upgraded (us : list LedgerUpgrade) (h : LedgerHeader) : LedgerHeader := foldl (fun h u => upgradeHeader u h) h us.

Lemma applyUpgrades_run a L o s T D O steps : forall w h, inside Inv w a (L, h) (o :: s) T D O ->
  match mapM decodeUpgrade steps with
  | Some us => exists w', applyUpgrades a steps w = Ret () w' /\ inside Inv w' a (L, upgraded us h) (o :: s) T D O
  | None => exists w' h', applyUpgrades a steps w = Exn xdrError w' /\ inside Inv w' a (L, h') (o :: s) T D O
  end.
Proof.
  induction steps as [|x steps IH]; intros w h Hi; [by exists w|]. cbn [applyUpgrades mapM].
  destruct (decodeUpgrade x) as [u|]; simpl; [|by exists w, h].
  destruct (edit_inside w a L h o s T D O (upgradeHeader u) Hi eq_refl) as (w1 & E1 & Hi1).
  rewrite (run_bind _ _ _ _ _ E1). specialize (IH w1 _ Hi1). by destruct (mapM decodeUpgrade steps).
Qed.

(** ** The check against the database *)

(** Steps that touch the cache of entries only. *)
Definition cached (w w' : TW) : Prop := exists c, w' = set_dw (set_entryCache c (dw w)) w.

Lemma cached_refl w : cached w w.
Proof. exists (entryCache (dw w)). destruct w as [d s o c m]. by destruct d. Qed.

Lemma cached_trans w w' w'' : cached w w' -> cached w' w'' -> cached w w''.
Proof. intros [c ->] [c' ->]. by exists c'. Qed.

Lemma checkLive_run L T D live : Forall (fun e => legacy (idOf (data e)) /\ L !! idOf (data e) = Some e) live ->
  forall w, sqlStack (session w) = mkTxDb L T :: D -> exists w', checkLive live w = Ret () w' /\ cached w w'.
Proof.
  induction 1 as [|e live [Hl He] _ IH]; intros w Hs; [exists w; by split; [|apply cached_refl]|]. cbn [checkLive].
  unfold checkEntry. set (w1 := set_dw (set_entryCache (filter (fun p => p.1 <> data e) (entryCache (dw w))) (dw w)) w).
  destruct (IH w1 Hs) as (w2 & E2 & Hc).
  exists w2. split; [|eapply cached_trans; [|exact Hc]; by eexists].
  assert (Ek : LedgerEntryKey e w = Ret (data e) w).
  { unfold LedgerEntryKey. unfold legacy, idOf in Hl. simpl in Hl. by destruct (key_type (data e)). }
  erewrite run_bind; [exact E2|]. rewrite (run_bind _ _ _ _ _ Ek). erewrite run_bind by done.
  unfold query, mbind, M_bind, get, deref. simpl. rewrite Hs. simpl. by rewrite bool_decide_eq_true_2.
Qed.

Lemma checkDead_run L T D dead w : Forall (fun k => legacy (idOf k) /\ L !! idOf k = None) dead ->
  sqlStack (session w) = mkTxDb L T :: D -> checkDead dead w = Ret () w.
Proof.
  intros Hd Hs. induction Hd as [|k dead [Hl Hk] _ IH]; [done|]. cbn [checkDead].
  assert (Eq : query w = Ret (mkTxDb L T) w) by (unfold query, mbind, M_bind, get, deref; by rewrite Hs).
  rewrite (run_bind _ _ _ _ _ Eq). assert (Ek : existsKey k L = inr false).
  { unfold existsKey. unfold legacy, idOf in Hl. simpl in Hl. rewrite Hk.
    destruct k; try done; by rewrite bool_decide_eq_false_2 by (by intros E; rewrite E in Hl). }
  simpl. rewrite Ek. by rewrite (run_bind (lift (inr false)) _ w false w eq_refl).
Qed.

Lemma check_passes w a t o s T D O : inside Inv w a t (o :: s) T D O ->
  exists w', checkAgainstDatabase cfg a w = Ret () w' /\ inside Inv w' a t (o :: s) T D O.
Proof.
  intros Hi. unfold checkAgainstDatabase. destruct (PARANOID_MODE cfg); [|by exists w]. simpl.
  destruct (theDelta_inside _ _ _ _ _ _ _ _ Hi) as (d & Ed & Hd). rewrite (run_bind _ _ _ _ _ Ed).
  destruct Hi as [Hr Hs Ho Hf Hv].
  destruct (refines_uncons _ _ _ _ Hr) as (d' & o' & Hd' & [= <-] & (_ & _ & _ & _ & Hw & He & _) & _). simplify_eq.
  destruct (checkLive_run t.1 T D (getLiveEntries d)) with (w := w) as (w1 & E1 & Hc); [|done|].
  { rewrite <- He. apply Forall_app. split; apply Forall_forall; intros e ((i & k & e') & -> & Hin)%list_elem_of_fmap;
      apply elem_of_map_asc in Hin; simpl.
    - destruct (wfd_new _ _ _ _ Hw Hin) as ((_ & E) & _ & _ & _ & Hok). simpl in E. subst i. split; [done|]. by rewrite eff_lookup, Hin.
    - destruct (wfd_mod _ _ _ _ Hw Hin) as ((_ & E) & _ & Hn & _ & Hok). simpl in E. subst i. split; [done|]. by rewrite eff_lookup, Hn, Hin. }
  exists w1. assert (Hs1 : sqlStack (session w1) = mkTxDb t.1 T :: D) by (by destruct Hc as [c ->]). split.
  - rewrite (run_bind _ _ _ _ _ E1). apply (checkDead_run t.1 T D); [|done]. rewrite <- He.
    apply Forall_forall. intros k ((i & k') & -> & Hin)%list_elem_of_fmap. apply elem_of_map_asc in Hin. simpl.
    destruct (wfd_del _ _ _ _ Hw Hin) as (<- & _ & Hn & Hm & Hok). split; [done|]. by rewrite eff_lookup, Hn, Hm, Hin.
  - destruct Hc as [c ->]. split; try done. by apply (refines_frame (dw w)).
Qed.

(** ** After the commit of the delta *)

(** The delta [d] of the ledger is committed, the transaction is not: the current header is [h], the database shows [L] and [T],
    and [e] is what it is without the transaction. *)
Record late (w : TW) (d : Delta) (h : LedgerHeader) (L : gmap LedgerId LedgerEntry) (T : Tables) (e : TxDb) : Prop := {
  lt_delta : deltas (dw w) !! 0%nat = Some d;
  lt_closed : mHeader d = None;
  lt_header : rootHeader (dw w) = h;
  lt_sql : sqlStack (session w) = [mkTxDb L T; e];
  lt_open : openTxs w = {[0%nat]} }.

Lemma late_commits w t o T e : inside Inv w 0 t [o] T [e] {[0%nat]} ->
  exists w' d, onDelta (commit NDEBUG 0) w = Ret () w' /\ late w' d t.2 t.1 T e /\
    views (ok := legacy) d o.1 t.1.
Proof.
  intros [Hr Hs Ho _ Hi].
  destruct (refines_uncons _ _ _ _ Hr) as (d & o' & Hd & [= <-] & (Hh & Hou & Hc & Hp & Hv) & Hr0).
  assert (Hroot : rootHeader (dw w) = o.2) by (by destruct o).
  pose proof (commit_root (NDEBUG := NDEBUG) 0 (dw w) d Hd Hh Hou) as E. rewrite Hroot in E. specialize (E Hp).
  eexists _, (set_mHeader None d). split; [by apply onDelta_Ret|]. split; [|done]. split; simpl; try done.
  by apply lookup_insert_eq.
Qed.

Lemma late_query w d h L T e : late w d h L T e -> query w = Ret (mkTxDb L T) w.
Proof. intros [_ _ _ Hs _]. unfold query, mbind, M_bind, get, deref. by rewrite Hs. Qed.

Definition upd_ledgerTables (f : LedgerTables -> LedgerTables) (T : Tables) : Tables :=
  mkTables (txhistory T) (txfeehistory T) (txtiming T) (f (ledgerTables T)).

Lemma late_tables w d h L T e f : late w d h L T e ->
  exists w', onLedgerTables f w = Ret () w' /\ late w' d h L (upd_ledgerTables f T) e.
Proof. intros [? ? ? Hs ?]. eexists. split; [done|]. split; try done. exact (sqlExec_stack _ _ _ _ Hs). Qed.

Lemma late_edit w d h L T e f : late (lmTW w) d h L T e ->
  exists tw, editCurrent f w = Ret () (set_tw tw w) /\ late tw d (f h) L T e.
Proof. intros [? ? Hr ? ?]. eexists. split; [done|]. split; try done. simpl. by rewrite Hr. Qed.

(** Both destructors: the database is what it was. *)
Lemma late_aborts w d h L T e : late w d h L T e ->
  exists w1 w2, onDelta (destroy 0) w = Ret () w1 /\ destroyTransaction 0 w1 = Ret () w2 /\
    sqlStack (session w2) = [e] /\ openTxs w2 = ∅ /\ rootHeader (dw w2) = h.
Proof.
  intros [Hd Hc Hh Hs Ho]. exists (set_dw (dropDelta 0 (dw w)) w). eexists.
  split; [apply onDelta_Ret; by eapply destroy_closed|].
  split; [apply destroyTransaction_open; simpl; rewrite Ho; set_solver|]. simpl.
  split_and!; [by eapply sqlRollback_stack|rewrite Ho; set_solver|done].
Qed.

Lemma late_ends w d h L T e : late w d h L T e -> Inv (L, h) ->
  exists w1 w2, commitTransaction 0 w = Ret () w1 /\ onDelta (destroy 0) w1 = Ret () w2 /\
    destroyTransaction 0 w2 = Ret () w2 /\ atRest w2 (L, h) T.
Proof.
  intros [Hd Hc Hh Hs Ho] Hi. assert (H0o : (0 ∈ openTxs w)%nat) by (rewrite Ho; set_solver).
  eexists _, _. split; [by apply commitTransaction_open|].
  split; [apply onDelta_Ret; by eapply destroy_closed|].
  split; [apply destroyTransaction_done; simpl; set_solver|].
  split; simpl; [done|by eapply sqlCommit_stack|rewrite Ho; set_solver|done].
Qed.

(** ** [closeLedgerHelper] *)

(** The row of the header cannot be inserted. *)
Definition unstorable (h : LedgerHeader) (t : LedgerTables) : bool :=
  headerStored (headerHash h) h t || negb (columnsHold h).

(** What is stored with the header [h] of the ledger and the state [has] of the list. *)
Definition storeClosed (h : LedgerHeader) (has : list HistoryStateBucket) (t : LedgerTables) : LedgerTables :=
  mkLedgerTables (<[headerHash h := h]> (ledgerheaders t))
    (<[kHistoryArchiveState := hasToString (ledgerSeq h) has]>
      (<[kLastClosedLedger := binToHex (headerHash h)]> (storestate t))) (publishqueue t).

Lemma getHash_new w : mHash w = None ->
  getHash w = Ret (headerHash (currentHeader w)) (set_hash (Some (headerHash (currentHeader w))) w).
Proof. intros E. unfold getHash, mbind, M_bind, get. by rewrite E. Qed.

Lemma getHash_known w x : mHash w = Some x -> getHash w = Ret x w.
Proof. intros E. unfold getHash, mbind, M_bind, get. by rewrite E. Qed.

(** [storeInsert], when the hash was not asked for. *)
Lemma storeInsert_run w d h L T e : late (lmTW w) d h L T e -> mHash w = None ->
  if unstorable h (ledgerTables T) then storeInsert w = Exn sqlError (set_hash (Some (headerHash h)) w)
  else exists tw, storeInsert w = Ret () (set_tw tw (set_hash (Some (headerHash h)) w)) /\
    late tw d h L (upd_ledgerTables (fun t =>
      mkLedgerTables (<[headerHash h := h]> (ledgerheaders t)) (storestate t) (publishqueue t)) T) e.
Proof.
  intros Hl Hn. assert (Hh : currentHeader w = h) by apply Hl. unfold storeInsert.
  rewrite (run_bind _ _ _ _ _ (getHash_new w Hn)). rewrite Hh. set (w1 := set_hash _ w).
  rewrite (run_bind get _ w1 w1 w1 eq_refl). change (currentHeader w1) with (currentHeader w). rewrite Hh. cbn zeta.
  assert (Eq : query (lmTW w1) = Ret (mkTxDb L T) (lmTW w1)) by (by eapply late_query).
  unfold unstorable. unfold onTW. rewrite (run_bind _ _ _ _ _ Eq). cbn [tables].
  destruct (headerStored _ _ _ || _).
  - unfold throw. by destruct w.
  - destruct (late_tables _ _ _ _ _ _ (fun t =>
      mkLedgerTables (<[headerHash h := h]> (ledgerheaders t)) (storestate t) (publishqueue t)) Hl) as (tw & E & Hl').
    exists tw. split; [|done]. change (lmTW w1) with (lmTW w). by rewrite E.
Qed.

Lemma advance_run w d h L T e : late (lmTW w) d h L T e -> mHash w = Some (headerHash h) ->
  exists tw, advanceLedgerPointers w =
      Ret () (mkLM tw None (headerHash h) h (mBucketList w) (mPublishWork w)) /\
    late tw d (nextHeader (headerHash h) h) L T e.
Proof.
  intros Hl Hn. assert (Hh : currentHeader w = h) by apply Hl. unfold advanceLedgerPointers.
  rewrite (run_bind _ _ _ _ _ (getHash_known w _ Hn)). rewrite (run_bind get _ w w w eq_refl). rewrite Hh. cbn zeta.
  erewrite run_bind by done. rewrite bool_decide_eq_true_2 by done. cbn [negb].
  set (w1 := set_lastClosed _ _ w). assert (Hl1 : late (lmTW w1) d h L T e) by done.
  destruct (late_edit w1 d h L T e (fun _ => nextHeader (headerHash h) h) Hl1) as (tw & E & Hl').
  exists tw. rewrite (run_bind _ _ _ _ _ E). by split.
Qed.

Lemma helper_run w d h L M T e n : late (lmTW w) d h M T e -> mHash w = None -> views (ok := legacy) d L M ->
  represents n (mBucketList w) L -> 0 <= n -> n + 1 <= UINT32_MAX -> ledgerSeq h = n + 1 ->
  exists bl, represents (n + 1) bl M /\
  let h' := snapshotHeader bl h in
  if unstorable h' (ledgerTables T)
  then exists tw, closeLedgerHelper NDEBUG cfg 0 w =
      Exn sqlError (mkLM tw (Some (headerHash h')) (mLastClosedHash w) (mLastClosedHeader w) bl (mPublishWork w)) /\
    late tw d h' M T e
  else exists tw has, closeLedgerHelper NDEBUG cfg 0 w =
      Ret () (mkLM tw None (headerHash h') h' bl (mPublishWork w)) /\
    storedState NDEBUG (ARTIFICIALLY_PESSIMIZE_MERGES_FOR_TESTING cfg) bl tt = Ret has tt /\
    late tw d (nextHeader (headerHash h') h') M (upd_ledgerTables (storeClosed h' has) T) e.
Proof.
  intros Hl Hn (Hw & He & _) Hr H0n Hmax Hseq.
  destruct (addBatch_represents (NDEBUG := NDEBUG) n (mBucketList w) L (getLiveEntries d) (getDeadEntries d))
    as (bl & Eb & Hb); [done..|by eapply delta_batch_ok|].
  rewrite applyBatch_puts, batch_eff in Hb by done. rewrite He in Hb. exists bl. split; [done|]. cbn zeta.
  set (h' := snapshotHeader bl h).
  assert (Hh : currentHeader w = h) by apply Hl.
  assert (Ed : onTW (onDelta (theDelta 0)) w = Ret d w).
  { unfold onTW, onDelta, theDelta, mbind, M_bind, get, deref. rewrite (lt_delta _ _ _ _ _ _ Hl). destruct w as [tw]. by destruct tw. }
  assert (Ebl : onBuckets (addBatch NDEBUG (ledgerSeq h) (getLiveEntries d) (getDeadEntries d)) w = Ret () (set_buckets bl w)).
  { unfold onBuckets. by rewrite Hseq, Eb. }
  unfold closeLedgerHelper. rewrite (run_bind get _ w w w eq_refl), (run_bind _ _ _ _ _ Ed). rewrite Hh.
  rewrite (run_bind _ _ _ _ _ Ebl). rewrite (run_bind get _ _ _ _ eq_refl). set (w1 := set_buckets bl w).
  destruct (late_edit w1 d h M T e (snapshotHeader bl) Hl) as (tw2 & E2 & Hl2).
  rewrite (run_bind _ _ _ _ _ E2). set (w2 := set_tw tw2 w1).
  pose proof (storeInsert_run w2 d h' M T e Hl2 Hn) as Hsi.
  destruct (unstorable h' (ledgerTables T)).
  { exists tw2. by rewrite (bind_Exn _ _ _ _ _ Hsi). }
  destruct Hsi as (tw3 & E3 & Hl3). rewrite (run_bind _ _ _ _ _ E3). set (w3 := set_tw tw3 _).
  rewrite (run_bind _ _ _ _ _ (getHash_known w3 _ eq_refl)).
  destruct (late_tables _ _ _ _ _ _ (fun t => mkLedgerTables (ledgerheaders t)
    (<[kLastClosedLedger := binToHex (headerHash h')]> (storestate t)) (publishqueue t)) Hl3) as (tw4 & E4 & Hl4).
  rewrite (run_bind _ _ _ _ _ (onTW_Ret _ w3 _ _ E4)). set (w4 := set_tw tw4 w3).
  rewrite (run_bind get _ w4 w4 w4 eq_refl).
  assert (Hs : exists has, (forall W (x : W), storedState NDEBUG (ARTIFICIALLY_PESSIMIZE_MERGES_FOR_TESTING cfg) bl x = Ret has x)).
  { destruct Hb as (lv & -> & Hi & _). eexists. intros W x. apply storedState_run. apply Hi. }
  destruct Hs as [has Hs]. change (mBucketList w4) with bl. rewrite (run_bind _ _ _ _ _ (Hs _ w4)).
  assert (Hc4 : currentHeader w4 = h') by apply Hl4. rewrite Hc4.
  destruct (late_tables _ _ _ _ _ _ (fun t => mkLedgerTables (ledgerheaders t)
    (<[kHistoryArchiveState := hasToString (ledgerSeq h') has]> (storestate t)) (publishqueue t)) Hl4) as (tw5 & E5 & Hl5).
  rewrite (run_bind _ _ _ _ _ (onTW_Ret _ w4 _ _ E5)). set (w5 := set_tw tw5 w4).
  destruct (advance_run w5 d h' M _ e Hl5 eq_refl) as (tw6 & E6 & Hl6). exists tw6, has. rewrite E6.
  by split_and!.
Qed.

(** ** The queue of checkpoints *)

(** The state of the ledger is queued. *)
Definition isCheckpoint (seq : Z) : bool :=
  (seq =? nextCheckpointLedger cfg seq) && hasAnyWritableHistoryArchive cfg.

Definition queue (h : LedgerHeader) (bl : list BucketLevel) (t : LedgerTables) : LedgerTables :=
  mkLedgerTables (ledgerheaders t) (storestate t)
    (<[ledgerSeq h := hasToString (ledgerSeq h) (archiveState bl)]> (publishqueue t)).

(** What keeps a checkpoint from the queue: a row that is there, or the publication throws. *)
Definition queueFails (w : LM) (t : LedgerTables) (e : exn) : Prop :=
  let seq := ledgerSeq (mLastClosedHeader w) in
  e = sqlError /\ is_Some (publishqueue t !! seq) \/
  mPublishWork w = false /\ startPublish seq (archiveState (mBucketList w)) = inl e.

Lemma queueCurrent_run w d h L T e : late (lmTW w) d h L T e ->
  match queueCurrentHistory w with
  | Ret _ w' => exists tw p, w' = mkLM tw (mHash w) (mLastClosedHash w) (mLastClosedHeader w) (mBucketList w) p /\
      late tw d h L (upd_ledgerTables (queue (mLastClosedHeader w) (mBucketList w)) T) e
  | Exn x w' => exists tw T', w' = set_tw tw w /\ late tw d h L T' e /\ queueFails w (ledgerTables T) x
  end.
Proof.
  intros Hl. unfold queueFails, queueCurrentHistory. rewrite (run_bind get _ w w w eq_refl). cbn zeta.
  unfold mbind at 1, M_bind at 1, onTW. rewrite (run_bind _ _ _ _ _ (late_query _ _ _ _ _ _ Hl)). cbn [tables].
  destruct (publishqueue (ledgerTables T) !! ledgerSeq (mLastClosedHeader w)) eqn:Eq.
  { exists (lmTW w), T. split; [done|]. split; [done|]. left. by split. }
  destruct (late_tables _ _ _ _ _ _ (queue (mLastClosedHeader w) (mBucketList w)) Hl) as (tw & E & Hl').
  unfold queue in E. rewrite E. unfold takeSnapshotAndPublish. rewrite (run_bind get _ _ _ _ eq_refl). cbn [mPublishWork set_tw].
  destruct (mPublishWork w) eqn:Ep; [exists tw, (mPublishWork w); by split|].
  destruct (startPublish _ _) as [x|[]] eqn:Es; [|by exists tw, true].
  eexists tw, _. split; [done|]. split; [exact Hl'|]. by right.
Qed.

Lemma checkpoint_run w d h L T e : late (lmTW w) d h L T e ->
  match maybeQueueHistoryCheckpoint cfg w with
  | Ret _ w' => exists tw p, w' = mkLM tw (mHash w) (mLastClosedHash w) (mLastClosedHeader w) (mBucketList w) p /\
      late tw d h L (if isCheckpoint (ledgerSeq h)
                     then upd_ledgerTables (queue (mLastClosedHeader w) (mBucketList w)) T else T) e
  | Exn x w' => exists tw T', w' = set_tw tw w /\ late tw d h L T' e /\ isCheckpoint (ledgerSeq h) = true /\
      queueFails w (ledgerTables T) x
  end.
Proof.
  intros Hl. assert (Hh : currentHeader w = h) by apply Hl. unfold maybeQueueHistoryCheckpoint.
  rewrite (run_bind get _ w w w eq_refl). rewrite Hh. unfold isCheckpoint. cbn zeta.
  destruct (ledgerSeq h =? nextCheckpointLedger cfg (ledgerSeq h)); simpl;
    [|exists (lmTW w), (mPublishWork w); split; [by destruct w|done]].
  destruct (hasAnyWritableHistoryArchive cfg); simpl; [|exists (lmTW w), (mPublishWork w); split; [by destruct w|done]].
  pose proof (queueCurrent_run w d h L T e Hl) as Hq. unfold mbind, M_bind.
  destruct (queueCurrentHistory w) as [? w'|x w']; [done|]. destruct Hq as (tw & T' & ? & ? & ?). by exists tw, T'.
Qed.

(** ** Closing a ledger *)

Section close.
Context (app : App) (effect : OperationFrame -> Scope -> Scope -> Prop).
Hypothesis Hmaster : keepsMaster Inv app.
Hypothesis Hlaws : feeLaws app.
Hypothesis Hkeeps : keepsBalances Inv app.

(** A publication that cannot start throws, but does not end the process. *)
Hypothesis Hpublish : forall seq has e, startPublish seq has = inl e -> fatal e = false.

(** What closing has done to the tables of transactions: these are different ones, their times are
    new, and the rows of the history have their codes. *)
Definition booked (txs : list Tx) (codes : list TransactionResultCode) (T T' : Tables) : Prop :=
  NoDup (txHash <$> txs) /\ txtiming T ⊆ txtiming T' /\
  (forall tx, tx ∈ txs -> txtiming T !! txHash tx = None /\ txtiming T' !! txHash tx = Some (maxTime tx)) /\
  (forall k, k.1 <> appLedgerSeq app \/ k.2 <= 0 -> txhistory T' !! k = txhistory T !! k) /\
  forall i tx c, txs !! i = Some tx -> codes !! i = Some c ->
    exists m, txhistory T' !! (appLedgerSeq app, 1 + Z.of_nat i) = Some (mkTxRow (txHash tx) c m).

Lemma timed_recorded txs codes T T1 T' : timed txs T T1 -> recorded app 0 txs codes T1 T' ->
  booked txs codes T T' /\ ledgerTables T' = ledgerTables T.
Proof.
  intros (Hh & Hl & Hnd & Hs & Ht) (_ & Et & Hl' & Ho & Hr). split; [|congruence].
  split_and!; [done|by rewrite Et|by rewrite Et| |done]. intros k Hk. by rewrite Ho, Hh.
Qed.

Abbreviation txsOf lcd := ((sortedForApply lcd).*1) (only parsing).

(** The header with the value that was agreed on. *)
Definition valued (lcd : LedgerCloseData) (h : LedgerHeader) : LedgerHeader := withRest (setScpValue (mValue lcd)) h.

(** The header [h] that the transactions leave, as it is stored. *)
Definition sealed (codes : list TransactionResultCode) (us : list LedgerUpgrade) (bl : list BucketLevel) (h : LedgerHeader) :
    LedgerHeader :=
  snapshotHeader bl (upgraded us (withRest (setTxSetResultHash codes) h)).

(** What is asked of a ledger that is to be closed: its frames are those of its transactions, their operations keep the contract
    and the number of the ledger, and the history has no row of it; the application reads the current header. *)
Record closable (lcd : LedgerCloseData) (t : Scope) (T : Tables) : Prop := {
  cl_frames : Forall (fun p => frameOf p.1 p.2) (sortedForApply lcd);
  cl_contracts : Forall (fun tx => Forall (contract Inv effect) (txOperations tx)) (txsOf lcd);
  cl_effects : Forall (fun tx => Forall (fun op =>
    forall t t', effect op t t' -> ledgerSeq t'.2 = ledgerSeq t.2) (txOperations tx)) (txsOf lcd);
  cl_history : noHistory app 0 T;
  cl_seq : appLedgerSeq app = ledgerSeq t.2;
  cl_time : appCloseTime app = HerderValues.closeTime (mValue lcd) }.

(** The transactions have run, and the upgrades are known. *)
Definition ran (lcd : LedgerCloseData) (codes : list TransactionResultCode) (us : list LedgerUpgrade) (t t1 : Scope) : Prop :=
  runsLedger (NDEBUG := NDEBUG) app effect (txsOf lcd) codes (t.1, valued lcd t.2) t1 /\
  mapM decodeUpgrade (upgrades (mValue lcd)) = Some us.

(** The ledger is closed: [w'] is what the node is, at rest before the next one. *)
Definition closedAs (lcd : LedgerCloseData) (t : Scope) (T : Tables) (n : Z) (codes : list TransactionResultCode) (w' : LM) :
    Prop :=
  exists t1 us has T', ran lcd codes us t t1 /\ booked (txsOf lcd) codes T T' /\
  let h := sealed codes us (mBucketList w') t1.2 in
  unstorable h (ledgerTables T) = false /\
  storedState NDEBUG (ARTIFICIALLY_PESSIMIZE_MERGES_FOR_TESTING cfg) (mBucketList w') tt = Ret has tt /\
  ledgerTables T' = (if isCheckpoint (n + 2) then queue h (mBucketList w') (storeClosed h has (ledgerTables T))
                     else storeClosed h has (ledgerTables T)) /\
  rests w' (t1.1, nextHeader (headerHash h) h) T' (n + 1) /\
  mLastClosedHash w' = headerHash h /\ mLastClosedHeader w' = h.

(** The ledger is not closed, for one of these reasons.  The database is what it was; the members are too, but for the value in the
    header, as long as the delta was not committed. *)
Inductive refused (lcd : LedgerCloseData) (w : LM) (t : Scope) (T : Tables) (n : Z) : exn -> LM -> Prop :=
| refused_set w' : setPreviousHash lcd <> mLastClosedHash w -> w' = w ->
    refused lcd w t T n (RuntimeError "txset mismatch"%string) w'
| refused_hash w' : setContentsHash lcd <> txSetHash (mValue lcd) -> w' = w ->
    refused lcd w t T n (RuntimeError "corrupt transaction set"%string) w'
| refused_rows w' : ~ recordable app 0 (txsOf lcd) T ->
    rests w' (t.1, valued lcd t.2) T n -> w' = set_tw (lmTW w') w -> refused lcd w t T n sqlError w'
| refused_upgrade w' : mapM decodeUpgrade (upgrades (mValue lcd)) = None ->
    rests w' (t.1, valued lcd t.2) T n -> w' = set_tw (lmTW w') w -> refused lcd w t T n xdrError w'
| refused_header codes us t1 w' : ran lcd codes us t t1 ->
    let h := sealed codes us (mBucketList w') t1.2 in
    unstorable h (ledgerTables T) = true ->
    represents (n + 1) (mBucketList w') t1.1 -> currentHeader w' = h ->
    mLastClosedHash w' = mLastClosedHash w -> mLastClosedHeader w' = mLastClosedHeader w -> refused lcd w t T n sqlError w'
| refused_queue codes us t1 w' e : ran lcd codes us t t1 ->
    let h := sealed codes us (mBucketList w') t1.2 in
    isCheckpoint (n + 2) = true -> queueFails w' (ledgerTables T) e ->
    represents (n + 1) (mBucketList w') t1.1 -> currentHeader w' = nextHeader (headerHash h) h ->
    mLastClosedHash w' = headerHash h -> mLastClosedHeader w' = h -> refused lcd w t T n e w'.

(** The numbers of the ledgers. *)
Lemma feePaid_seq tx t t' : feePaid app tx t t' -> ledgerSeq t'.2 = ledgerSeq t.2.
Proof.
  assert (Hg : forall h, ledgerSeq (generateID BALANCE h).2 = ledgerSeq h).
  { intros h. unfold generateID. by destruct (bumpGenerator _ _). }
  intros (e & _ & Hp). destruct (_ || _); [by subst|]. destruct (tryGetTxFeeAsset app t.1) as [|[asset|]]; [done| |by subst].
  destruct Hp as (total & _ & _ & sb & cb & t1 & L2 & _ & _ & _ & _ & Hc & _ & _ & _ & ->).
  destruct Hc as (_ & _ & [[_ ->]|(_ & _ & _ & _ & _ & ->)]); [done|]. apply Hg.
Qed.

Lemma performs_seq ops : Forall (fun op => forall t t', effect op t t' -> ledgerSeq t'.2 = ledgerSeq t.2) ops ->
  forall t t', performs effect ops t t' -> ledgerSeq t'.2 = ledgerSeq t.2.
Proof.
  induction 1 as [|op ops Hop _ IH]; intros t t'; [by intros ->|]. intros (t1 & He & Hp).
  rewrite (IH _ _ Hp). by apply Hop.
Qed.

Lemma runsLedger_seq txs : Forall (fun tx => Forall (fun op =>
    forall t t', effect op t t' -> ledgerSeq t'.2 = ledgerSeq t.2) (txOperations tx)) txs ->
  forall codes t t', runsLedger (NDEBUG := NDEBUG) app effect txs codes t t' -> ledgerSeq t'.2 = ledgerSeq t.2.
Proof.
  induction 1 as [|tx txs Htx _ IH]; intros [|c codes] t t'; try done; [by intros ->|]. intros (t1 & Hv & Hr).
  rewrite (IH _ _ _ Hr). destruct Hv as [(_ & _ & t2 & Hf & Hp)|[_ ->]]; [|done].
  rewrite (performs_seq _ Htx _ _ Hp). by eapply feePaid_seq.
Qed.

Lemma upgraded_keeps us h : ledgerSeq (upgraded us h) = ledgerSeq h /\ idGenerators (upgraded us h) = idGenerators h.
Proof. unfold upgraded. revert h. induction us as [|u us IH]; intros h; simpl; [done|]. by destruct (IH (upgradeHeader u h)) as [-> ->]. Qed.

(** The two destructors run, and then [Q] holds. *)
Definition unwinds {A : Type} (r : outcome LM A) (Q : outcome LM A -> Prop) : Prop :=
  match r with
  | Ret x w => exists w1 w2, onTW (onDelta (destroy 0)) w = Ret () w1 /\ onTW (destroyTransaction 0) w1 = Ret () w2 /\
      Q (Ret x w2)
  | Exn e w => fatal e = false /\ exists w1 w2, onTW (onDelta (destroy 0)) w = Ret () w1 /\
      onTW (destroyTransaction 0) w1 = Ret () w2 /\ Q (Exn e w2)
  end.

Lemma unwinds_finally {A : Type} (m1 m2 : M LM ()) (m : M LM A) w1 w2 w3 Q : m1 w1 = Ret () w2 -> m2 w2 = Ret () w3 ->
  unwinds (m w3) Q ->
  Q (finally (m1;; m2;; finally m (onTW (onDelta (destroy 0)))) (onTW (destroyTransaction 0)) w1).
Proof.
  intros E1 E2 Hu. destruct (m w3) as [x w4|e w4] eqn:Em.
  - destruct Hu as (w5 & w6 & E5 & E6 & HQ). erewrite finally_Ret; [exact HQ| |exact E6].
    rewrite (run_bind _ _ _ _ _ E1), (run_bind _ _ _ _ _ E2). by eapply finally_Ret.
  - destruct Hu as (Hf & w5 & w6 & E5 & E6 & HQ). erewrite finally_Exn; [exact HQ| |done|exact E6].
    rewrite (run_bind _ _ _ _ _ E1), (run_bind _ _ _ _ _ E2). by eapply finally_Exn.
Qed.

Lemma unwinds_mono {A : Type} (r : outcome LM A) (P Q : outcome LM A -> Prop) : unwinds r P -> (forall r', P r' -> Q r') ->
  unwinds r Q.
Proof. unfold unwinds. destruct r; naive_solver. Qed.

Lemma late_unwinds w d h L T e : late (lmTW w) d h L T e ->
  exists w1 w2, onTW (onDelta (destroy 0)) w = Ret () w1 /\ onTW (destroyTransaction 0) w1 = Ret () w2 /\
    w2 = set_tw (lmTW w2) w /\ sqlStack (session (lmTW w2)) = [e] /\ openTxs (lmTW w2) = ∅ /\ currentHeader w2 = h.
Proof.
  intros Hl. destruct (late_aborts _ _ _ _ _ _ Hl) as (tw1 & tw2 & E1 & E2 & Hs & Ho & Hh).
  exists (set_tw tw1 w), (set_tw tw2 w). split; [by apply onTW_Ret|]. split; [exact (onTW_Ret _ (set_tw tw1 w) _ _ E2)|done].
Qed.

Lemma inside_unwinds w t o T e : inside Inv (lmTW w) 0 t [o] T [e] {[0%nat]} -> entries e = o.1 -> Inv o ->
  exists w1 w2, onTW (onDelta (destroy 0)) w = Ret () w1 /\ onTW (destroyTransaction 0) w1 = Ret () w2 /\
    w2 = set_tw (lmTW w2) w /\ atRest (lmTW w2) o (tables e).
Proof.
  intros Hi He Hv. destruct (abort_ledger _ _ _ _ _ Hi He Hv) as (tw1 & tw2 & E1 & E2 & Ha).
  exists (set_tw tw1 w), (set_tw tw2 w). split; [by apply onTW_Ret|]. split; [exact (onTW_Ret _ (set_tw tw1 w) _ _ E2)|done].
Qed.

(** What is stored, and what follows the number of the ledger. *)
Lemma nextHeader_seq x h n : ledgerSeq h = n + 1 -> 0 <= n -> n + 2 <= UINT32_MAX -> ledgerSeq (nextHeader x h) = n + 2.
Proof. intros Hs H0n Hm. simpl. rewrite Hs. unfold u32. rewrite Z.mod_small; [lia|]. unfold UINT32_MAX in Hm. lia. Qed.

(** From the commit of the delta to the commit of the transaction. *)
Lemma commits_run w L M h o T e n codes : inside Inv (lmTW w) 0 (M, h) [(L, o)] T [e] {[0%nat]} -> mHash w = None ->
  represents n (mBucketList w) L -> 0 <= n -> n + 2 <= UINT32_MAX -> ledgerSeq h = n + 1 ->
  unwinds (A := list TransactionResultCode) ((onTW (onDelta (commit NDEBUG 0));; closeLedgerHelper NDEBUG cfg 0;; maybeQueueHistoryCheckpoint cfg;;
    onTW (commitTransaction 0);; mret codes) w) (fun r =>
  match r with
  | Ret x w' => x = codes /\ exists has T',
      let h' := snapshotHeader (mBucketList w') h in
      unstorable h' (ledgerTables T) = false /\
      storedState NDEBUG (ARTIFICIALLY_PESSIMIZE_MERGES_FOR_TESTING cfg) (mBucketList w') tt = Ret has tt /\
      T' = upd_ledgerTables (fun t => if isCheckpoint (n + 2) then queue h' (mBucketList w') (storeClosed h' has t)
                                      else storeClosed h' has t) T /\
      rests w' (M, nextHeader (headerHash h') h') T' (n + 1) /\
      mLastClosedHash w' = headerHash h' /\ mLastClosedHeader w' = h'
  | Exn x w' => sqlStack (session (lmTW w')) = [e] /\ openTxs (lmTW w') = ∅ /\ represents (n + 1) (mBucketList w') M /\
      let h' := snapshotHeader (mBucketList w') h in
      (x = sqlError /\ unstorable h' (ledgerTables T) = true /\ currentHeader w' = h' /\
       mLastClosedHash w' = mLastClosedHash w /\ mLastClosedHeader w' = mLastClosedHeader w \/
       isCheckpoint (n + 2) = true /\ queueFails w' (ledgerTables T) x /\
       currentHeader w' = nextHeader (headerHash h') h' /\ mLastClosedHash w' = headerHash h' /\ mLastClosedHeader w' = h')
  end).
Proof.
  intros Hi Hn Hr H0n Hmax Hseq. assert (Hinv := in_inv _ _ _ _ _ _ _ _ Hi).
  destruct (late_commits _ _ _ _ _ Hi) as (tw1 & d & E1 & Hl & Hv). simpl in Hl, Hv.
  rewrite (run_bind _ _ _ _ _ (onTW_Ret _ w _ _ E1)). set (w1 := set_tw tw1 w).
  destruct (helper_run w1 d h L M T e n Hl Hn Hv Hr) as (bl & Hb & Hh); [lia..|]. cbn zeta in Hh.
  set (h' := snapshotHeader bl h) in *. assert (Hs2 : ledgerSeq (nextHeader (headerHash h') h') = n + 2) by (by apply nextHeader_seq).
  destruct (unstorable h' (ledgerTables T)) eqn:Eu.
  { destruct Hh as (tw2 & E2 & Hl2). rewrite (bind_Exn _ _ _ _ _ E2). split; [done|]. set (w2 := mkLM _ _ _ _ _ _).
    destruct (late_unwinds w2 d h' M T e Hl2) as (w3 & w4 & E3 & E4 & Ew & Hs4 & Ho4 & Hh4). exists w3, w4. do 4 (split; [done|]).
    assert (Eb : mBucketList w4 = bl) by (by rewrite Ew). rewrite Eb. split; [done|]. left. rewrite Hh4, Ew. by split_and!. }
  destruct Hh as (tw2 & has & E2 & Es & Hl2). rewrite (run_bind _ _ _ _ _ E2). set (w2 := mkLM _ _ _ _ _ _).
  pose proof (checkpoint_run w2 d _ M _ e Hl2) as Hc. rewrite Hs2 in Hc. unfold mbind at 1, M_bind at 1.
  destruct (maybeQueueHistoryCheckpoint cfg w2) as [b w3|x w3].
  - destruct Hc as (tw3 & p & -> & Hl3). cbn [mLastClosedHeader mBucketList w2 mHash mLastClosedHash] in *. set (w3 := mkLM _ _ _ _ _ _).
    assert (Hi' : Inv (M, nextHeader (headerHash h') h')) by (by eapply Hfree).
    destruct (late_ends _ _ _ _ _ _ Hl3 Hi') as (tw4 & tw5 & E4 & E5 & E6 & Ha).
    rewrite (run_bind _ _ _ _ _ (onTW_Ret _ w3 _ _ E4)). exists (set_tw tw5 w3), (set_tw tw5 w3).
    split; [exact (onTW_Ret _ (set_tw tw4 w3) _ _ E5)|]. split; [exact (onTW_Ret _ (set_tw tw5 w3) _ _ E6)|]. split; [done|].
    eexists has, _. cbn [mBucketList set_tw w3]. cbn zeta. split; [exact Eu|]. split; [done|]. split; [done|]. split; [|done].
    split; try done; [|etrans; [exact Hs2|lia]].
    cbn [lmTW set_tw]. by destruct (isCheckpoint (n + 2)).
  - destruct Hc as (tw3 & T' & -> & Hl3 & Hcp & Hq). split.
    { destruct Hq as [[-> _]|[_ Hq]]; [done|by eapply Hpublish]. }
    destruct (late_unwinds (set_tw tw3 w2) d _ M T' e Hl3) as (w4 & w5 & E4 & E5 & Ew & Hs5 & Ho5 & Hh5). exists w4, w5.
    do 4 (split; [done|]). assert (Eb : mBucketList w5 = bl) by (by rewrite Ew). rewrite Eb. split; [done|]. right.
    split; [done|]. split; [|split; [done|by rewrite Ew]]. unfold queueFails in *. rewrite Ew. exact Hq.
Qed.

(** The transactions of the ledger, up to the check. *)
Lemma closes_inside lcd w t T n tw3 : closable lcd t T -> rests w t T n -> 0 <= n -> n + 2 <= UINT32_MAX ->
  inside Inv tw3 0 (t.1, valued lcd t.2) [(t.1, valued lcd t.2)] T [mkTxDb t.1 T] {[0%nat]} ->
  unwinds ((fr ← onTW (processFeesSeqNums NDEBUG app 0 (sortedForApply lcd));
     codes ← onTW (applyTransactions NDEBUG app 0 0 fr);
     onTW (onDelta (editHeader 0 (withRest (setTxSetResultHash codes))));;
     onTW (applyUpgrades 0 (upgrades (mValue lcd)));;
     onTW (checkAgainstDatabase cfg 0);;
     onTW (onDelta (commit NDEBUG 0));;
     closeLedgerHelper NDEBUG cfg 0;;
     maybeQueueHistoryCheckpoint cfg;;
     onTW (commitTransaction 0);;
     mret codes) (set_tw tw3 w)) (fun r =>
  match r with
  | Ret codes w' => closedAs lcd t T n codes w'
  | Exn e w' => sqlStack (session (lmTW w')) = [mkTxDb t.1 T] /\ openTxs (lmTW w') = ∅ /\ refused lcd w t T n e w'
  end).
Proof.
  intros [Hfr Hct Hef Hh _ _] [Ha Hn Hseq Hb] H0n Hmax Hi.
  assert (Hv : Inv (t.1, valued lcd t.2)) by (by apply Hi). set (w3 := set_tw tw3 w).
  assert (Hearly : forall w1 t' T' e, inside Inv (lmTW w1) 0 t' [(t.1, valued lcd t.2)] T' [mkTxDb t.1 T] {[0%nat]} ->
    w1 = set_tw (lmTW w1) w ->
    (forall w', rests w' (t.1, valued lcd t.2) T n -> w' = set_tw (lmTW w') w -> refused lcd w t T n e w') ->
    exists w2 w3, onTW (onDelta (destroy 0)) w1 = Ret () w2 /\ onTW (destroyTransaction 0) w2 = Ret () w3 /\
      sqlStack (session (lmTW w3)) = [mkTxDb t.1 T] /\ openTxs (lmTW w3) = ∅ /\ refused lcd w t T n e w3).
  { intros w1 t' T' e Hi1 Ew Hre. destruct (inside_unwinds w1 _ _ _ _ Hi1 eq_refl Hv) as (w2 & w4 & E2 & E4 & Ew4 & Ha4).
    simpl in Ha4. exists w2, w4. split; [done|]. split; [done|]. split; [apply Ha4|]. split; [apply Ha4|].
    assert (Ew' : w4 = set_tw (lmTW w4) w) by (by rewrite Ew4, Ew). apply Hre; [|done]. rewrite Ew'. by split. }
  pose proof (processFees_scope (NDEBUG := NDEBUG) Inv app Hmaster Hlaws Hkeeps 0 tw3 _ _ T _ _ _ Hfr Hi) as Hp.
  assert (H1o : 1%nat ∉ ({[0%nat]} : gset nat)) by set_solver. specialize (Hp H1o).
  destruct (processFeesSeqNums NDEBUG app 0 (sortedForApply lcd) tw3) as [fr' tw4|e tw4] eqn:Ep.
  2: { destruct Hp as (-> & Hi4 & Hnr). rewrite (bind_Exn _ _ _ _ _ (onTW_Exn _ w3 _ _ Ep)). split; [done|].
    eapply (Hearly (set_tw tw4 w3)); [exact Hi4|done|]. intros w' Hr' Ew'. by apply refused_rows. }
  destruct Hp as (-> & T1 & Hi4 & Ht). rewrite (run_bind _ _ _ _ _ (onTW_Ret _ w3 _ _ Ep)).
  destruct (applyTransactions_scope (NDEBUG := NDEBUG) Inv app effect Hmaster Hlaws Hkeeps 0 _ _ _ _ Hct 0 tw4 _ T1 Hi4)
    as (codes & tw5 & [L1 h1] & T2 & E5 & Hi5 & Hrun & Hrec).
  { intros j Hj. rewrite (proj1 Ht). by apply Hh. }
  destruct (timed_recorded _ _ _ _ _ Ht Hrec) as [Hbk Hlt].
  assert (Hseq1 : ledgerSeq h1 = n + 1) by (rewrite <- Hseq; exact (runsLedger_seq _ Hef _ _ _ Hrun)).
  rewrite (run_bind _ _ _ _ _ (onTW_Ret _ (set_tw tw4 w3) _ _ E5)).
  destruct (edit_inside tw5 0 L1 h1 _ _ T2 _ _ (withRest (setTxSetResultHash codes)) Hi5 eq_refl) as (tw6 & E6 & Hi6).
  rewrite (run_bind _ _ _ _ _ (onTW_Ret _ (set_tw tw5 w3) _ _ E6)).
  pose proof (applyUpgrades_run 0 L1 _ _ T2 _ _ (upgrades (mValue lcd)) tw6 _ Hi6) as Hup.
  destruct (mapM decodeUpgrade (upgrades (mValue lcd))) as [us|] eqn:Eu.
  2: { destruct Hup as (tw7 & h' & E7 & Hi7). rewrite (bind_Exn _ _ _ _ _ (onTW_Exn _ (set_tw tw6 w3) _ _ E7)).
    split; [done|]. eapply (Hearly (set_tw tw7 w3)); [exact Hi7|done|]. intros w' Hr' Ew'. by apply refused_upgrade. }
  destruct Hup as (tw7 & E7 & Hi7). rewrite (run_bind _ _ _ _ _ (onTW_Ret _ (set_tw tw6 w3) _ _ E7)).
  destruct (check_passes _ _ _ _ _ _ _ _ Hi7) as (tw8 & E8 & Hi8).
  rewrite (run_bind _ _ _ _ _ (onTW_Ret _ (set_tw tw7 w3) _ _ E8)). clear Hearly.
  set (h2 := upgraded us (withRest (setTxSetResultHash codes) h1)) in *.
  assert (Hseq2 : ledgerSeq h2 = n + 1) by (unfold h2; by rewrite (proj1 (upgraded_keeps _ _))).
  pose proof (commits_run (set_tw tw8 w3) t.1 L1 h2 _ T2 _ n codes Hi8 Hn Hb H0n Hmax Hseq2) as Hc.
  assert (Hran : ran lcd codes us t (L1, h1)) by (by split).
  eapply unwinds_mono; [exact Hc|]. intros [x w'|x w']; cbn beta iota.
  - intros (-> & has & T' & Hu & Hst & ET & Hr' & Hlh & Hlhd). rewrite Hlt in Hu.
    exists (L1, h1), us, has, T'. split; [done|]. split; [rewrite ET; exact Hbk|]. split; [exact Hu|]. split; [done|].
    split; [|done]. rewrite ET. cbn [ledgerTables upd_ledgerTables]. by rewrite Hlt.
  - intros (Hs' & Ho' & Hb' & Hcase). split; [done|]. split; [done|]. rewrite Hlt in Hcase.
    destruct Hcase as [(-> & Hu & Hcur & ? & ?)|(Hck & Hq & Hcur & ? & ?)].
    + by eapply refused_header.
    + by eapply refused_queue.
Qed.

Lemma closeLedger_outcome lcd w t T n : closable lcd t T -> rests w t T n -> 0 <= n -> n + 2 <= UINT32_MAX ->
  match closeLedger NDEBUG cfg app lcd w with
  | Ret codes w' => closedAs lcd t T n codes w'
  | Exn e w' => sqlStack (session (lmTW w')) = [mkTxDb t.1 T] /\ openTxs (lmTW w') = ∅ /\ refused lcd w t T n e w'
  end.
Proof.
  intros Hc Hr H0n Hmax. assert (Ha := rs_tw _ _ _ _ Hr). unfold closeLedger. rewrite (run_bind get _ w w w eq_refl).
  case_bool_decide as Hset; cbn [negb]; [|split; [apply Ha|split; [apply Ha|by apply refused_set]]].
  case_bool_decide as Hhash; cbn [negb]; [|split; [apply Ha|split; [apply Ha|by apply refused_hash]]].
  destruct (open_ledger (lmTW w) (valued lcd) t T Ha) as (tw1 & tw2 & tw3 & E1 & E2 & E3 & Hi).
  { destruct t as [L h]. by eapply Hfree; [apply (ar_inv _ _ _ Ha)|]. }
  rewrite (run_bind _ _ _ _ _ (onTW_Ret _ w _ _ E1)).
  set (Q := fun r : outcome LM (list TransactionResultCode) => match r with
    | Ret codes w' => closedAs lcd t T n codes w'
    | Exn e w' => sqlStack (session (lmTW w')) = [mkTxDb t.1 T] /\ openTxs (lmTW w') = ∅ /\ refused lcd w t T n e w'
    end).
  eapply (unwinds_finally _ _ _ _ _ _ Q).
  - exact (onTW_Ret _ (set_tw tw1 w) _ _ E2).
  - exact (onTW_Ret _ (set_tw tw2 w) _ _ E3).
  - exact (closes_inside lcd w t T n tw3 Hc Hr H0n Hmax Hi).
Qed.

(** C3. Closing a ledger is all or nothing, and so is every transaction of it.  Where the operations keep their contract, no call
    of [closeLedger] aborts, dereferences null or fails an assertion, the check against the database included.  When it
    returns, the ledger is what its transactions make of it one after the other: one with the code of a success was valid in
    the ledger it found, its signatures had enough weight, exactly the fees of its operations were taken from a balance of its
    source and added to one of the commission account (nothing, where no fee is due; when both are one balance the addition is
    written last) and every operation did its work; one with another code changed
    nothing, whether it was refused, an operation failed after others succeeded, or one threw.  The upgrades are in the header,
    the header and the state of the list of buckets are stored under its hash, a checkpoint is queued when it is due, the
    list of buckets stands for the new entries, and the next header follows the one that was closed.  When it throws, the
    cause is one of those of [refused], and the database is what it was, with no transaction open; until the delta is committed the
    members are what they were too, but for the value in the header. *)
Theorem ledger_closes_atomically lcd w t T n : closable lcd t T -> rests w t T n -> 0 <= n -> n + 2 <= UINT32_MAX ->
  match closeLedger NDEBUG cfg app lcd w with
  | Ret codes w' => closedAs lcd t T n codes w'
  | Exn e w' => sqlStack (session (lmTW w')) = [mkTxDb t.1 T] /\ openTxs (lmTW w') = ∅ /\ refused lcd w t T n e w'
  end.
Proof. apply closeLedger_outcome. Qed.

End close.

(** ** No transaction is applied twice *)

Section life.
Context (effect : OperationFrame -> Scope -> Scope -> Prop).
Hypothesis Hpublish : forall seq has e, startPublish seq has = inl e -> fatal e = false.

(** The transactions that succeeded. *)
Definition succeeded (txs : list Tx) (codes : list TransactionResultCode) : list Tx :=
  (filter (fun p : Tx * TransactionResultCode => p.2 = txSUCCESS) (zip txs codes)).*1.

(** The life of a node: it closes ledgers, at times that do not go back, now and then deletes what is old, as [ExternalQueue] has it
    done, and starts again with the database it has, as after a ledger that could not be closed; [past] is what succeeded. *)
Inductive life : LM -> Z -> list Tx -> Prop :=
| life_begins w now t T n : rests w t T n -> life w now []
| life_closes w now past app lcd t T n codes w' : life w now past ->
    keepsMaster Inv app -> feeLaws app -> keepsBalances Inv app ->
    rests w t T n -> closable app effect lcd t T -> 0 <= n -> n + 2 <= UINT32_MAX -> now <= appCloseTime app ->
    closeLedger NDEBUG cfg app lcd w = Ret codes w' ->
    life w' (appCloseTime app) (past ++ succeeded (sortedForApply lcd).*1 codes)
| life_cleans w now past seq w' : life w now past -> onTW (deleteOldEntries seq now) w = Ret () w' -> life w' now past
| life_restarts w now past w' t T n : life w now past -> sqlStack (session (lmTW w')) = sqlStack (session (lmTW w)) ->
    rests w' t T n -> life w' now past.

(** A transaction of the past is remembered, or is too old. *)
Definition remembered (T : Tables) (now : Z) (past : list Tx) : Prop :=
  forall tx, tx ∈ past -> txtiming T !! txHash tx = Some (maxTime tx) \/ maxTime tx < now.

Lemma elem_of_succeeded txs codes tx : tx ∈ succeeded txs codes ->
  exists i, txs !! i = Some tx /\ codes !! i = Some txSUCCESS.
Proof.
  unfold succeeded. intros ([tx' c] & -> & [Hc (i & Hi)%list_elem_of_lookup]%list_elem_of_filter)%list_elem_of_fmap.
  simpl in *. subst. apply lookup_zip_Some in Hi. by exists i.
Qed.

Lemma succeeded_NoDup txs codes : NoDup (txHash <$> txs) -> NoDup (txHash <$> succeeded txs codes).
Proof.
  revert codes. induction txs as [|tx txs IH]; intros [|c codes] Hn; try apply NoDup_nil_2.
  rewrite fmap_cons in Hn. apply NoDup_cons in Hn as [Hx Hn]. unfold succeeded. simpl. rewrite filter_cons.
  case_decide; [|by apply IH]. rewrite !fmap_cons. apply NoDup_cons. split; [|by apply IH].
  intros (tx' & E & (i & Hi & _)%elem_of_succeeded)%list_elem_of_fmap. apply Hx. simpl in E. rewrite E.
  apply list_elem_of_fmap_2. by eapply list_elem_of_lookup_2.
Qed.

Lemma runsLedger_success app txs : forall codes t t' i tx, runsLedger (NDEBUG := NDEBUG) app effect txs codes t t' ->
  txs !! i = Some tx -> codes !! i = Some txSUCCESS -> appCloseTime app <= maxTime tx.
Proof.
  induction txs as [|tx txs IH]; intros [|c codes] t t' i tx' Hr Hi Hc; try done.
  destruct Hr as (t1 & Hv & Hr). destruct i as [|i]; simpl in *; simplify_eq; [|by eapply IH].
  destruct Hv as [[_ [(_ & ? & _) _]]|[? _]]; [lia|done].
Qed.

(** One more ledger is closed. *)
Lemma closed_remembers app lcd t T n codes w' past now : closedAs app effect lcd t T n codes w' ->
  remembered T now past -> NoDup (txHash <$> past) -> now <= appCloseTime app ->
  (forall tx tx', tx ∈ past ++ succeeded (sortedForApply lcd).*1 codes ->
    tx' ∈ past ++ succeeded (sortedForApply lcd).*1 codes -> txHash tx = txHash tx' -> maxTime tx = maxTime tx') ->
  (exists t' T' n', rests w' t' T' n' /\ remembered T' (appCloseTime app) (past ++ succeeded (sortedForApply lcd).*1 codes)) /\
  NoDup (txHash <$> past ++ succeeded (sortedForApply lcd).*1 codes).
Proof.
  intros (t1 & us & has & T' & [Hrun _] & (Hnd & Hsub & Htime & _) & _ & _ & _ & Hr' & _) Hm Hn Hnow Hmax.
  assert (Hnew : forall tx, tx ∈ succeeded (sortedForApply lcd).*1 codes ->
    tx ∈ (sortedForApply lcd).*1 /\ appCloseTime app <= maxTime tx).
  { intros tx (i & Hi & Hc)%elem_of_succeeded. split; [by eapply list_elem_of_lookup_2|by eapply runsLedger_success]. }
  split.
  - eexists _, T', _. split; [exact Hr'|]. intros tx [Hin|Hin]%elem_of_app.
    + destruct (Hm tx Hin) as [Ht|Hlt]; [left; by eapply lookup_weaken|right; lia].
    + left. by apply Htime, Hnew.
  - rewrite fmap_app. apply NoDup_app. split_and!; [done| |by apply succeeded_NoDup].
    intros h (tx & -> & Hin)%list_elem_of_fmap (tx' & Eh & Hs')%list_elem_of_fmap.
    destruct (Hnew tx' Hs') as [Hin' Hle].
    destruct (Htime tx' Hin') as [Hnone _]. rewrite <- Eh in Hnone.
    destruct (Hm tx Hin) as [Ht|Hlt]; [congruence|]. rewrite (Hmax tx tx') in Hlt by set_solver. lia.
Qed.

Lemma life_remembers w now past : life w now past ->
  (forall tx tx', tx ∈ past -> tx' ∈ past -> txHash tx = txHash tx' -> maxTime tx = maxTime tx') ->
  (exists t T n, rests w t T n /\ remembered T now past) /\ NoDup (txHash <$> past).
Proof.
  induction 1 as [w now t T n Hr|w now past app lcd t T n codes w' _ IH Hma Hla Hke Hr Hcl H0n Hmx Hnow E
    |w now past seq w' _ IH E|w now past w' t T n _ IH Es Hr]; intros Hmax.
  - split; [|apply NoDup_nil_2]. exists t, T, n. split; [done|]. intros tx []%not_elem_of_nil.
  - destruct IH as [(t0 & T0 & n0 & Hr0 & Hm) Hn]; [intros; apply Hmax; set_solver|].
    assert (T0 = T) as -> by (destruct Hr as [[] _ _ _], Hr0 as [[] _ _ _]; congruence).
    pose proof (closeLedger_outcome app effect Hma Hla Hke Hpublish lcd w t T n Hcl Hr H0n Hmx) as Ho. rewrite E in Ho.
    by eapply closed_remembers.
  - destruct (IH Hmax) as [(t & T & n & [[Hr Hs Ho Hi] Hh Hq Hb] & Hm) Hn]. split; [|done]. injection E as <-. eexists t, _, n.
    split; [split; try done; split; [done|exact (sqlExec_stack _ _ _ _ Hs)|done|done]|].
    intros tx Hin. destruct (Hm tx Hin) as [Ht|?]; [|by right]. destruct (decide (now <= maxTime tx)); [left|right; lia].
    simpl. by apply map_lookup_filter_Some.
  - destruct (IH Hmax) as [(t0 & T0 & n0 & Hr0 & Hm) Hn]. split; [|done]. exists t, T, n. split; [done|].
    assert (T0 = T) as <- by (destruct Hr as [[] _ _ _], Hr0 as [[] _ _ _]; congruence). done.
Qed.

(** C8. No transaction is applied twice.  Through the life of a node, which closes ledgers at
    times that do not go back, deletes the times of transactions that are over
    whenever it likes and may be started again with its database, no two transactions with the same contents succeed: as long as
    its time has not come the first one is on record and the second one keeps its ledger
    from closing, and afterwards the second one is too late.  The hash of the contents
    is taken to tell the times of those that succeeded apart. *)
Theorem no_replay w now past : life w now past ->
  (forall tx tx', tx ∈ past -> tx' ∈ past -> txHash tx = txHash tx' -> maxTime tx = maxTime tx') ->
  NoDup (txHash <$> past).
Proof. intros Hl Hm. by apply (life_remembers w now past). Qed.

End life.

End theorems.
