(* ===== verification/TxScenarios.v ===== *)
(** * Transactions on concrete ledgers

    Operations that write an entry to the delta and to the database keep the contract of
    [TxTheorems.v]; with them, two ledgers are closed, with fees, an upgrade and the check against the database.
    [refused_with_metadata] is a run in which the history tells of changes that were not made,
    [fee_of_the_commission_account] one in which a fee is made from nothing. *)

From Stdlib Require Import ZArith Lia String.
From stdpp Require Import base tactics gmap option list.
From S2P Require Import HerderScenarios.
From S2P Require Import Prelude ScpTypes HerderValues LedgerTypes Bucket BucketFacts FutureBucket BucketList BucketManager.
From S2P Require Import BucketListTheorems LedgerDelta LedgerDeltaFacts LedgerDeltaTheorems UtilTypes.
From S2P Require Import Balance Offer CreateOffer AccountManager Signatures TxFrame TxTheorems CloseLedger.

Open Scope Z_scope.

(** ** A session *)

(** The stack itself. *)
#[local] Instance stackSession : SqlSession := {|
  Session := list TxDb;
  sqlStack := fun s => s;
  sqlBegin := fun s => match s with d :: D => d :: d :: D | [] => [] end;
  sqlCommit := fun s => match s with d :: _ :: D => d :: D | s => s end;
  sqlRollback := fun s => match s with _ :: D => D | [] => [] end;
  sqlExec := fun f s => match s with d :: D => f d :: D | [] => [] end |}.

#[local] Instance stackSession_laws : SqlLaws.
Proof. split; simpl; intros; by subst. Qed.

(** ** Operations that insert an entry *)

Section inserting.
Context `{LedgerExterns, SigExterns} (NDEBUG : bool) (Inv : Scope -> Prop).

(** The insertion of a row, and of the entry in the delta. *)
Definition insertEntry (a : nat) (e : LedgerEntry) : M TW () :=
  d ← query;
  match entries d !! idOf (data e) with
  | Some _ => throw sqlError
  | None => exec (fun d => mkTxDb (<[idOf (data e) := e]> (entries d)) (tables d));; onDelta (addEntry NDEBUG a e)
  end.

Definition inserts (e : LedgerEntry) (t t' : Scope) : Prop := t' = (<[idOf (data e) := e]> t.1, t.2).

Lemma stays_insert (a : nat) e : legacy (idOf (data e)) ->
  (forall L h, Inv (L, h) -> L !! idOf (data e) = None -> Inv (<[idOf (data e) := e]> L, h)) ->
  stays Inv a (insertEntry a e) (fun t _ t' => inserts e t t').
Proof.
  intros Hok Hinv w [L h] s T D O Hi. unfold insertEntry.
  rewrite (run_bind _ _ _ _ _ (query_inside Inv _ _ _ _ _ _ _ Hi)). simpl.
  destruct (L !! idOf (data e)) eqn:El; [split; [done|]; by exists (L, h)|].
  destruct Hi as [Hr Hs Ho Hf Hv]. destruct (add_scope (NDEBUG := NDEBUG) (dw w) a e (L, h) s Hok El Hr) as (d & E & Hr' & Hd).
  unfold exec. erewrite run_bind by done.
  rewrite (onDelta_Ret (addEntry NDEBUG a e) (set_session (sqlExec _ (session w)) w) () d) by done.
  eexists. split; [|split; [|by split]].
  - split; [exact Hr'|exact (sqlExec_stack _ _ _ _ Hs)|done|done|by apply Hinv].
  - split; [done|]. split; [by split|]. intros b Hb. apply Hd. lia.
Qed.

(** An operation that inserts [e], and ends as [last] says. *)
Definition insertOp (e : LedgerEntry) (sd : SourceDetails) (last : exn + bool) : OperationFrame :=
  mkOperationFrame None 1 true 0 (fun _ => mret []) (fun _ _ => mret sd) (fun _ => mret true)
    (fun _ a => insertEntry a e;; lift last).

(** What operations of this kind do when they succeed: one entry is new. *)
Definition insertEffect (_ : OperationFrame) (t t' : Scope) : Prop := exists e, inserts e t t'.

Lemma insertOp_contract e sd last : legacy (idOf (data e)) ->
  (forall L h, Inv (L, h) -> L !! idOf (data e) = None -> Inv (<[idOf (data e) := e]> L, h)) ->
  (forall x, last = inl x -> fatal x = false) -> contract Inv insertEffect (insertOp e sd last).
Proof.
  intros Hok Hinv Hl. split; intros; try (by apply stays_return). simpl.
  eapply stays_mono.
  - apply (stays_seq Inv a _ _ (fun t _ t' => inserts e t t') (fun _ t _ t' => t' = t)); [by apply stays_insert|].
    intros _. destruct last as [x|]; [|by apply stays_return]. apply stays_throw. by apply Hl.
  - intros t b t' (_ & t1 & Ht & ->) _. by exists e.
Qed.

End inserting.

(** ** Two ledgers *)

#[local] Instance exExterns : LedgerExterns.
Proof.
  refine {| enum_value := fun t => Z.of_nat (type_index t); binToHex := fun b => b |}.
  intros a b E%Nat2Z.inj. by destruct a, b.
Defined.

(** A signature is the key and the contents. *)
#[local] Instance exSig : SigExterns := {|
  verifySig := fun k s h => bool_decide (s = k :: h);
  SignerType_values := [1; 2; 4];
  CHANGE_ASSET_ISSUER_BAD_AUTH_EXTRA_FIXED := 1;
  REPLACE_ACCOUNT_TYPES_WITH_POLICIES := 2 |}.

Definition signBy (k : N) (h : list N) : DecoratedSignature := mkSignature k (k :: h).

(** Accounts are told by their identifiers; the first one is the master. *)
Definition exAccount (e : LedgerEntry) : SigAccount :=
  match data e with
  | KAccount id => mkSigAccount id 0%N (if bool_decide (id = 1%N) then MASTER else GENERAL) [1; 1; 1; 1] [] 0
  | _ => mkSigAccount 0%N 0%N GENERAL [0; 0; 0; 0] [] 0
  end.

Definition accountE (id : N) : LedgerEntry := mkEntry 1 (KAccount id) [].
Definition balanceE (id : N) : LedgerEntry := mkEntry 1 (KBalance id) [].

(** The body of a balance: its owner, its amounts and its asset. *)
Definition exBalanceOf (id : N) (body : list N) : Balance :=
  match body with
  | owner :: a :: l :: asset => mkBalance id owner asset (u64 (Z.of_N a)) (u64 (Z.of_N l))
  | _ => mkBalance id 0%N [] 0 0
  end.

Definition exBalanceBody (b : Balance) (_ : list N) : list N :=
  balanceAccount b :: Z.to_N (amount b) :: Z.to_N (locked b) :: balanceAsset b.

(** The asset of fees, the account that gets them, and the fee of every operation. *)
Definition feeAsset : list N := [65%N].
Definition commissionAccount : N := 5%N.
Definition assetE : LedgerEntry := mkEntry 1 (KAsset feeAsset) [].
Definition feeAssetE : LedgerEntry := mkEntry 1 (KKeyValue [1%N]) feeAsset.
Definition fundsE (id owner x : N) : LedgerEntry := mkEntry 1 (KBalance id) (owner :: x :: 0%N :: feeAsset).

Definition exApp (seq closeTime : Z) : App :=
  mkApp [] [] 1%N 3 seq closeTime 1000 false 2 1 7 4 [GENERAL; MASTER] GENERAL exAccount (fun _ _ => true)
    [1%N] (fun e => Some (body e)) (fun _ _ _ _ => Some 3) commissionAccount exBalanceOf exBalanceBody (fun id => [id])
    (fun owner i => (100 * owner + Z.to_N i)%N).

Definition exDetails : SourceDetails := mkSourceDetails [] [] 1 3 0.

Definition exOp (id : N) (last : exn + bool) : OperationFrame := insertOp false (balanceE id) exDetails last.

Definition exTx (source hash : N) (signers : list N) (ops : list OperationFrame) : Tx :=
  mkTx source [hash] 0 500 None (map (fun k => signBy k [hash]) signers) ops.

(** One that succeeds, one with an operation that fails after one that does not, one that throws, and
    one with a signature of nobody. *)
Definition tx1 : Tx := exTx 2 11 [2%N] [exOp 21 (inr true)].
Definition tx2 : Tx := exTx 2 12 [2%N] [exOp 22 (inr true); exOp 23 (inr false)].
Definition tx3 : Tx := exTx 2 13 [2%N] [exOp 22 (inr true); exOp 23 (inl (RuntimeError "unexpected"%string))].
Definition tx4 : Tx := exTx 2 14 [2%N; 9%N] [exOp 24 (inr true)].
Definition tx5 : Tx := exTx 2 15 [2%N] [exOp 22 (inr true); exOp 23 (inr true)].
Definition tx6 : Tx := exTx commissionAccount 16 [5%N] [exOp 25 (inr true)].

Definition framed (tx : Tx) : Tx * TxState := (tx, newTx tx).

#[local] Existing Instance HerderScenarios.coded.

#[local] Instance exBuckets : BucketExterns.
Proof. by refine {| hexHash := fun b => [N.of_nat (length b)] |}. Defined.

#[local] Instance exClose : CloseExterns := {|
  headerHash h := Z.to_N (ledgerSeq h) :: rest h;
  setScpValue v r := Z.to_N (HerderValues.closeTime v) :: r;
  setTxSetResultHash codes r := N.of_nat (length codes) :: r;
  setLedgerVersion x r := Z.to_N x :: r;
  setMaxTxSetSize x r := Z.to_N x :: r;
  setExternalSystemIDGenerators x r := map Z.to_N x ++ r;
  setTxExpirationPeriod x r := Z.to_N x :: r;
  setPreviousLedgerHash x r := [];
  skipFields h := mkSkip (ledgerSeq h) [] [] [] [] [];
  setSkipFields s r := bucketListHash s ++ r;
  bucketsHash bl := [N.of_nat (length bl)];
  hasToString seq _ := [Z.to_N seq];
  columnsHold h := true;
  startPublish _ _ := inr () |}.

Definition exConfig : CloseConfig := mkCloseConfig true false true true.

(** The ledger after the first one. *)
Definition exLive : list LedgerEntry :=
  [accountE 1; accountE 2; accountE commissionAccount; assetE; feeAssetE; fundsE 31 2 100].

Definition exLedger : gmap LedgerId LedgerEntry := applyBatch exLive [] ∅.
Definition exHeader : LedgerHeader := mkHeader 2 [] [].
Definition exTables : Tables := mkTables ∅ ∅ ∅ (mkLedgerTables ∅ ∅ ∅).

Definition worldOf {W A : Type} (o : outcome W A) : W := match o with Ret _ w => w | Exn _ w => w end.

Definition exBucketList : list BucketLevel := worldOf (addBatch false 1 exLive [] (newBucketList false)).

Definition exWorld : LM :=
  mkLM (mkTW (mkDW ∅ exHeader []) [mkTxDb exLedger exTables] ∅ (newTx tx1) []) None [7%N] (mkHeader 1 [] []) exBucketList false.

(** The data of a ledger: its value has an upgrade of the version. *)
Definition exData (previous : list N) (closeTime : Z) (txs : list Tx) : LedgerCloseData :=
  mkLedgerCloseData previous 77%N (map framed txs) (mkStellarValue 77%N closeTime [codedUpgrade (VERSION 4)]).

Definition firstData : LedgerCloseData := exData [7%N] 100 [tx1; tx2; tx3; tx4].
Definition firstClose := closeLedger false exConfig (exApp 2 100) firstData.

Definition codesOf (o : outcome LM (list TransactionResultCode)) : option (list TransactionResultCode) :=
  match o with Ret c _ => Some c | Exn _ _ => None end.

Lemma codesOf_Ret o codes : codesOf o = Some codes -> o = Ret codes (worldOf o).
Proof. destruct o; simpl; congruence. Qed.

Definition firstWorld : LM := worldOf (firstClose exWorld).

Example first_codes : codesOf (firstClose exWorld) = Some [txSUCCESS; txFAILED; txINTERNAL_ERROR; txBAD_AUTH_EXTRA].
Proof. vm_compute. reflexivity. Qed.

Lemma first_run : closeLedger false exConfig (exApp 2 100) firstData exWorld =
  Ret [txSUCCESS; txFAILED; txINTERNAL_ERROR; txBAD_AUTH_EXTRA] firstWorld.
Proof. exact (codesOf_Ret (firstClose exWorld) _ first_codes). Qed.

Definition dbOf (w : LM) : option TxDb := head (sqlStack (session (lmTW w))).
Definition rowIn (w : LM) (k : LedgerKey) : option LedgerEntry := dbOf w ≫= (fun d => entries d !! idOf k).
Definition amountIn (w : LM) (id : N) : option Z := (fun e => amount (exBalanceOf id (body e))) <$> rowIn w (KBalance id).

(** The history tells of changes of a transaction that made none: one that threw after its
    first operation, and one that was refused for a signature of nobody; only the metadata
    of a transaction whose operation returned false is cleared. *)
Theorem refused_with_metadata :
  let row j := dbOf firstWorld ≫= (fun d => txhistory (tables d) !! (2, j)) in
  map (fun i => rowIn firstWorld (KBalance i)) [21%N; 22%N; 23%N; 24%N] = [Some (balanceE 21); None; None; None] /\
  map row [2; 3; 4] = [Some (mkTxRow [12%N] txFAILED []);
    Some (mkTxRow [13%N] txINTERNAL_ERROR [[CREATED (balanceE 22)]]);
    Some (mkTxRow [14%N] txBAD_AUTH_EXTRA [[CREATED (balanceE 24)]])].
Proof. vm_compute. split; reflexivity. Qed.

(** Only the transaction that succeeded has paid, to a new balance of the commission account. *)
Example first_fees : amountIn firstWorld 31 = Some 97 /\ amountIn firstWorld 501 = Some 3.
Proof. vm_compute. split; reflexivity. Qed.

(** What ledgers have in common: the master account is there, and entries are in their rows. *)
Definition exInv (t : Scope) : Prop :=
  t.1 !! accountId 1 = Some (accountE 1) /\ map_Forall (fun i e => idOf (data e) = i) t.1.

Lemma exMaster seq closeTime : keepsMaster exInv (exApp seq closeTime).
Proof. intros L h [Hi _]. exists (accountE 1). by split. Qed.

Lemma exLaws seq closeTime : feeLaws (exApp seq closeTime).
Proof.
  assert (Hz : is_u64 0) by (unfold is_u64, UINT64_MAX; lia).
  split; simpl; unfold exBalanceOf, exBalanceBody.
  - intros id [|? [|? [|? ?]]]; reflexivity.
  - intros id [|? [|? [|? ?]]]; simpl; (split; first [exact Hz|apply u64_range]).
  - intros [id owner asset a l] _ Ha Hl. simpl in *. rewrite !Z2N.id by (unfold is_u64 in *; lia).
    by rewrite !u64_id.
Qed.

Lemma exInv_insert L h e : exInv (L, h) -> idOf (data e) <> accountId 1 -> exInv (<[idOf (data e) := e]> L, h).
Proof.
  intros [Hm Hr] Hne. split; simpl in *; [by rewrite lookup_insert_ne|]. by apply map_Forall_insert_2.
Qed.

Lemma exKeeps seq closeTime : keepsBalances exInv (exApp seq closeTime).
Proof.
  split.
  - intros L h i e [_ Hr] He. exact (Hr i e He).
  - intros L h e b Hi Hb _. apply exInv_insert; [done|]. unfold asBalance in Hb. by destruct (data e).
  - intros L h Hi. exact Hi.
Qed.

Lemma exFree : headerFree exInv.
Proof. intros L h h' Hi _. exact Hi. Qed.

Lemma exPublish : forall seq has e, startPublish seq has = inl e -> fatal e = false.
Proof. intros seq has e [=]. Qed.

Lemma exOp_contract id last : (forall x, last = inl x -> fatal x = false) ->
  contract exInv insertEffect (exOp id last).
Proof. intros Hl. apply insertOp_contract; [done| |done]. intros L h Hi _. by apply exInv_insert. Qed.

Lemma insertEffect_seq op t t' : insertEffect op t t' -> ledgerSeq t'.2 = ledgerSeq t.2.
Proof. by intros [e ->]. Qed.

Lemma exClosable (seq closeTime : Z) (previous : list N) (txs : list Tx) (t : Scope) (T : Tables) :
  Forall (fun tx => Forall (contract exInv insertEffect) (txOperations tx)) txs ->
  noHistory (exApp seq closeTime) 0 T -> ledgerSeq t.2 = seq ->
  closable exInv (exApp seq closeTime) insertEffect (exData previous closeTime txs) t T.
Proof.
  intros Hc Hh Hs. assert (E : (map framed txs).*1 = txs) by (clear; induction txs; [done|]; by f_equal/=).
  split; simpl; rewrite ?E; try done.
  - apply Forall_forall. intros p (tx & -> & _)%list_elem_of_fmap. by split.
  - apply Forall_forall. intros tx _. apply Forall_forall. intros op _. apply insertEffect_seq.
Qed.

Lemma firstClosable : closable exInv (exApp 2 100) insertEffect firstData (exLedger, exHeader) exTables.
Proof.
  apply exClosable; [|intros j _; apply lookup_empty|done].
  repeat (apply Forall_cons; split); try (by apply Forall_nil); apply exOp_contract; intros x [=]; by subst.
Qed.

Lemma exWorld_rests : rests exInv exWorld (exLedger, exHeader) exTables 1.
Proof.
  split; [|done|done|].
  - split; [done|done|done|]. split; [vm_compute; reflexivity|].
    apply (bool_decide_unpack (map_Forall (fun i e => idOf (data e) = i) exLedger)). vm_compute. exact I.
  - destruct (addBatch_represents (NDEBUG := false) 0 (newBucketList false) ∅ exLive []) as (bl & E & Hb);
      [lia|unfold UINT32_MAX; lia|apply newBucketList_represents| |].
    + split; [|apply NoDup_nil_2]. apply (bool_decide_unpack (NoDup (map (fun e => idOf (data e)) exLive))). vm_compute. exact I.
    + change (0 + 1) with 1 in *. simpl. unfold exBucketList. rewrite E. exact Hb.
Qed.

Lemma ledger_closes_atomically_witness :
  exists codes w' t1 us t' T', closeLedger false exConfig (exApp 2 100) firstData exWorld = Ret codes w' /\
    codes = [txSUCCESS; txFAILED; txINTERNAL_ERROR; txBAD_AUTH_EXTRA] /\ rests exInv w' t' T' 2 /\
    ran (NDEBUG := false) (exApp 2 100) insertEffect firstData codes us (exLedger, exHeader) t1.
Proof.
  pose proof (ledger_closes_atomically (NDEBUG := false) exConfig exInv exFree (exApp 2 100) insertEffect (exMaster 2 100)
    (exLaws 2 100) (exKeeps 2 100) exPublish firstData exWorld (exLedger, exHeader) exTables 1 firstClosable exWorld_rests
    ltac:(lia) ltac:(unfold UINT32_MAX; lia)) as H.
  rewrite first_run in H.
  destruct H as (t1 & us & has & T' & Hr & _ & _ & _ & _ & Ha & _). eexists _, _, t1, us, _, T'. split; [apply first_run|].
  split; [reflexivity|]. split; [exact Ha|exact Hr].
Defined.

(** A ledger whose header has a row already keeps the database, but the list of buckets and the header have moved on. *)
Definition takenTables : Tables := mkTables ∅ ∅ ∅ (mkLedgerTables {[ [9%N] := mkHeader 2 [] [] ]} ∅ ∅).
Definition takenWorld : LM := set_tw (mkTW (mkDW ∅ exHeader []) [mkTxDb exLedger takenTables] ∅ (newTx tx1) []) exWorld.

Theorem late_failure_keeps_only_the_database :
  match closeLedger false exConfig (exApp 2 100) firstData takenWorld with
  | Exn e w' => e = sqlError /\ dbOf w' = Some (mkTxDb exLedger takenTables) /\
      idGenerators (currentHeader w') = [(BALANCE, 1)] /\ mBucketList w' <> mBucketList takenWorld
  | Ret _ _ => False
  end.
Proof. vm_compute. split_and!; [reflexivity|reflexivity|reflexivity|discriminate]. Qed.

(** The second ledger: a transaction of the first one keeps it from closing. *)
Definition secondData (txs : list Tx) : LedgerCloseData := exData (mLastClosedHash firstWorld) 150 txs.

Example replay_refused : codesOf (closeLedger false exConfig (exApp 3 150) (secondData [tx5; tx1]) firstWorld) = None.
Proof. vm_compute. reflexivity. Qed.

Example second_codes :
  codesOf (closeLedger false exConfig (exApp 3 150) (secondData [tx5; tx6]) firstWorld) = Some [txSUCCESS; txSUCCESS].
Proof. vm_compute. reflexivity. Qed.

Definition secondWorld : LM := worldOf (closeLedger false exConfig (exApp 3 150) (secondData [tx5; tx6]) firstWorld).

Lemma second_run : closeLedger false exConfig (exApp 3 150) (secondData [tx5; tx6]) firstWorld =
  Ret [txSUCCESS; txSUCCESS] secondWorld.
Proof. unfold secondWorld. exact (codesOf_Ret _ _ second_codes). Qed.

(** A fee of the commission account is made from nothing: of the two frames of its balance the one with the fee added is written
    last.  The payer of the first transaction has lost 6, the commission account has 9 more. *)
Theorem fee_of_the_commission_account :
  amountIn firstWorld 31 = Some 97 /\ amountIn firstWorld 501 = Some 3 /\
  amountIn secondWorld 31 = Some 91 /\ amountIn secondWorld 501 = Some 12.
Proof. vm_compute. split_and!; reflexivity. Qed.

(** What has succeeded after the two ledgers. *)
Definition exPast : list Tx :=
  ([] ++ succeeded (sortedForApply firstData).*1 [txSUCCESS; txFAILED; txINTERNAL_ERROR; txBAD_AUTH_EXTRA])
  ++ succeeded (sortedForApply (secondData [tx5; tx6])).*1 [txSUCCESS; txSUCCESS].

Lemma exLife : life (NDEBUG := false) exConfig exInv insertEffect secondWorld 150 exPast.
Proof.
  pose proof (closeLedger_outcome (NDEBUG := false) exConfig exInv exFree (exApp 2 100) insertEffect (exMaster 2 100)
    (exLaws 2 100) (exKeeps 2 100) exPublish firstData exWorld (exLedger, exHeader) exTables 1 firstClosable exWorld_rests
    ltac:(lia) ltac:(unfold UINT32_MAX; lia)) as Ho.
  rewrite first_run in Ho. destruct Ho as (t1 & us & has & T1 & _ & Hb & _ & _ & _ & Ha & _).
  assert (Hs := rs_seq _ _ _ _ _ Ha). simpl in Hs.
  unfold exPast. change 150 with (appCloseTime (exApp 3 150)).
  eapply (life_closes _ _ _ firstWorld 100);
    [|apply exMaster|apply exLaws|apply exKeeps|exact Ha| |lia|unfold UINT32_MAX; lia|simpl; lia|exact second_run].
  - change 100 with (appCloseTime (exApp 2 100)).
    eapply (life_closes _ _ _ exWorld 100); [eapply life_begins, exWorld_rests|apply exMaster|apply exLaws|apply exKeeps|
      apply exWorld_rests|apply firstClosable|lia|unfold UINT32_MAX; lia|simpl; lia|exact first_run].
  - apply exClosable; [repeat (apply Forall_cons; split); try (by apply Forall_nil); apply exOp_contract; intros x [=]| |exact Hs].
    intros j _. destruct Hb as (_ & _ & _ & Hk & _). rewrite Hk by (left; discriminate). apply lookup_empty.
Qed.

Lemma no_replay_witness : exists w past, life (NDEBUG := false) exConfig exInv insertEffect w 150 past /\
  txHash <$> past = [[11%N]; [15%N]; [16%N]] /\ NoDup (txHash <$> past).
Proof.
  exists secondWorld, exPast. split; [exact exLife|]. split; [vm_compute; reflexivity|].
  apply (no_replay (NDEBUG := false) exConfig exInv exFree insertEffect exPublish secondWorld 150 exPast exLife).
  assert (E : forall t, t ∈ exPast -> maxTime t = 500).
  { assert (Ef : forallb (fun t => maxTime t =? 500) exPast = true) by (vm_compute; reflexivity).
    intros t Ht. apply forallb_forall with (x := t) in Ef; [lia|by apply list_elem_of_In]. }
  intros tx tx' Hi Hi' _. by rewrite (E tx), (E tx').
Defined.

(** ** Signatures *)

(** An account whose threshold of two needs its own key and that of a second signer. *)
Definition sharedAccount : SigAccount := mkSigAccount 2%N 8%N GENERAL [1; 2; 2; 2] [mkSigner 3%N 1 3 5] 0.
Definition sharedEnv : SigEnv := mkSigEnv [] 1%N 3 (fun _ => None).
Definition sharedSigners : list Signer := [mkSigner 2%N 1 7 0; mkSigner 8%N 255 7 0; mkSigner 3%N 1 3 5].
Definition sharedDetails (keys : list N) : SourceDetails := mkSourceDetails [GENERAL] keys 2 1 0.
Definition signedByAll (ks : list N) : Validator := newValidator [7%N] (map (fun k => signBy k [7%N]) ks).

Lemma shared_fit (n : nat) : (n <= 20)%nat -> weights_fit n sharedSigners.
Proof. intros Hn. exists 255. split; [|lia]. repeat (apply Forall_cons; split; [simpl; lia|]). by apply Forall_nil. Qed.

Lemma shared_signers : getSigners false sharedEnv 1 sharedAccount = inr sharedSigners.
Proof. vm_compute. reflexivity. Qed.

Lemma signatures_are_weighed_witness : exists r v' chosen,
  checkSignature false sharedEnv sharedAccount (sharedDetails []) (signedByAll [2%N; 3%N]) = Ret r v' /\ r = SUCCESS /\
  counted sharedSigners (sharedDetails []) (signedByAll [2%N; 3%N]) chosen /\ 2 <= weightOf chosen.
Proof.
  destruct (signatures_are_weighed false sharedEnv sharedAccount (sharedDetails []) (signedByAll [2%N; 3%N])
    sharedSigners shared_signers (shared_fit 2 ltac:(lia))) as (r & v' & chosen & E & Hc & _ & Hr).
  assert (Er : r = SUCCESS) by (vm_compute in E; congruence). subst r.
  exists SUCCESS, v', chosen. split; [exact E|]. split; [reflexivity|]. split; [exact Hc|apply Hr].
Defined.

Example one_signature_is_not_enough :
  match checkSignature false sharedEnv sharedAccount (sharedDetails []) (signedByAll [2%N]) with
  | Ret r _ => r = NOT_ENOUGH_WEIGHT | Exn _ _ => False end /\
  match checkSignature false sharedEnv sharedAccount (sharedDetails []) (signedByAll [2%N; 2%N]) with
  | Ret r _ => r = EXTRA | Exn _ _ => False end.
Proof. vm_compute. by split. Qed.

Lemma success_means_authorized_witness : exists used : gset N,
  Z.of_nat (size used) = 2 /\ forall k, k ∈ used -> keySigned [4%N; 3%N; 2%N] (signedByAll [2%N; 3%N]) k.
Proof.
  assert (E : exists v', check false sharedEnv sharedAccount (sharedDetails [4%N; 3%N; 2%N]) (signedByAll [2%N; 3%N]) =
    Ret SUCCESS v') by (eexists; vm_compute; reflexivity).
  destruct E as [v' E].
  destruct (success_means_authorized false sharedEnv sharedAccount (sharedDetails [4%N; 3%N; 2%N])
    (signedByAll [2%N; 3%N]) v' E) as [_ H].
  - intros []%not_elem_of_nil.
  - simpl; lia.
  - simpl; lia.
  - intros signers Es. rewrite shared_signers in Es. injection Es as <-. apply (shared_fit 2). lia.
  - exact H.
Defined.
